(* ===== verification/_CoqProject ===== *)
-Q . S2P
Prelude.v
JsMap.v
JsNumber.v
Json.v
Interfaces.v
RateLimiter.v
HashRing.v
Lock.v
StateStore.v
Clock.v
EventEmitter.v
Membership.v
Reconciler.v
Gossip.v
RoomRouter.v
Peer.v
Room.v
Signaling.v
ServerLife.v
Uint8Array.v
MessageBus.v
JsDouble.v
Framing.v
Checksum.v
Sink.v
FileSinks.v
Transfer.v
Schema.v
Control.v
Reassembly.v
ReceiveTransfer.v
ReceiveLive.v
SendTransfer.v
SendLemmas.v
SendInvariant.v
SendTheorems.v
EndToEnd.v
SendDefects.v
FileTransferManager.v
ManagerTheorems.v
ManagerClose.v
CascadePlan.v
CascadePlanTheorems.v
Sfu.v
Placement.v
CascadingRouter.v
CascadeTree.v
SfuTheorems.v
RouterTheorems.v
SfuBridge.v
BridgeTheorems.v
Bandwidth.v
UdpGossip.v
UdpTheorems.v
TreeTheorems.v
HealthTheorems.v
SendQueue.v
ClientTransport.v
TransportTheorems.v
ClientProtocol.v
ClientRoom.v
Roster.v
Client.v
ClientTheorems.v
RosterEndToEnd.v
MediaProtocol.v
Tracks.v
PeerConnection.v
PeerConnectionTheorems.v
ActiveSpeaker.v
Call.v
CallTheorems.v
MeshTheorems.v
MediaRouter.v
MediaRouterTheorems.v
WorkerPool.v
MediaService.v
MediaServiceTheorems.v
