(* ===== verification/Prelude.v ===== *)
(** * A verification of RTCForge

    RTCForge is a set of TypeScript packages for real-time communication: [core]
    (data structures and distributed-systems primitives), [signaling] (the server
    that clients join rooms on), [sdk] (the client, with peer-to-peer file
    transfer), [sfu] (clusters of media forwarding nodes), [media] (WebRTC calls)
    and [rtcforge] (re-exports).  This library models the logic of these packages
    as executable Rocq definitions and proves what makes it correct.

    ** Conventions

    A class is a [Record] of its fields, a method a function from the state (and
    arguments) to the state (and result); what a method emits, sends or calls
    outside is appended to a log in the state, in order.  An [async] method is cut
    at its [await]s: each stretch between two of them is one action, what is
    suspended is in the state, and a run is any list of actions, so that a theorem
    about all runs is one about all interleavings.  Objects that the code shares
    are indices into a heap.  A [Map] or [Set] is an association list in insertion
    order (JsMap), a string the list of its UTF-16 code units, a byte a [Z], a
    number a [Z] where the code uses it as an integer and a double ([num],
    JsNumber) where rounding, [NaN] or infinities matter.  JSON text is a boundary:
    a frame is the value it holds, or not JSON.  What the repository does not
    contain (WebCrypto, [Math.log], sockets, data channels, the application's
    callbacks) is a parameter, with what the code relies on as the laws of a class,
    and a concrete instance that shows the laws can hold.

    ** Files

    Foundations.  Prelude: strings, sorting, lists.  JsMap: [Map] and [Set].
    JsNumber: 32-bit operators, doubles.  Json: values.  Uint8Array: byte buffers,
    decimal rendering.  JsDouble: doubles that hold integers, their bytes.
    Interfaces: join semilattices, rings.

    Package core (src/packages/core/src).  HashRing (HashRing.ts), Lock (Lock.ts),
    StateStore (StateStore.ts), Clock (Clock.ts), EventEmitter (EventEmitter.ts),
    Membership (Membership.ts), Reconciler (MembershipReconciler.ts), Gossip
    (Gossip.ts), MessageBus (MessageBus.ts, IdGenerator.ts).

    Package signaling (src/packages/signaling/src).  RateLimiter (RateLimiter.ts),
    RoomRouter (RoomRouter.ts, on the hash ring and the reconciler), Peer (Peer.ts,
    protocol.ts), Room (Room.ts, on peers), Signaling (SignalingServer.ts,
    RoomRegistry.ts, HeartbeatMonitor.ts, Authenticator.ts, on rooms), ServerLife
    (start and stop of SignalingServer.ts, with its specification [life]).

    Package sdk, file transfer (src/packages/sdk/src/filetransfer).  Framing
    (framing.ts, labels of protocol.ts, sanitize.ts), Checksum (checksum.ts), Sink
    (StorageSink.ts, MemorySink.ts), FileSinks (NodeFileSink.ts,
    FileSystemAccessSink.ts, NodeFileSource.ts), Schema (what the zod schemas are
    built from), Transfer (Transfer.ts: the life cycle, an interface of both
    directions), Control (protocol.ts, ControlLink.ts, channel.ts), Reassembly
    (specification: a file from its chunks), ReceiveTransfer and ReceiveLive
    (ReceiveTransfer.ts), SendTransfer, SendLemmas, SendInvariant, SendTheorems and
    SendDefects (SendTransfer.ts), EndToEnd (both sides), FileTransferManager,
    ManagerTheorems and ManagerClose (FileTransferManager.ts).

    Package sdk, client (src/packages/sdk/src).  SendQueue (SendQueue.ts,
    ReconnectStrategy.ts), ClientTransport and TransportTheorems
    (WebSocketTransport.ts), ClientProtocol (protocol.ts), ClientRoom (Room.ts),
    Client and ClientTheorems (RTCForgeClient.ts, JoinHandshake.ts), Roster and
    RosterEndToEnd (the room of the server and the rooms of its clients together).

    Package sfu (src/packages/sfu/src).  Sfu and SfuTheorems (SfuNode.ts,
    SfuCluster.ts, NodeFailureTracker.ts, HealthChecker.ts), HealthTheorems (what
    probes decide), Placement (PlacementStrategy.ts), CascadingRouter and
    RouterTheorems (CascadingRouter.ts), SfuBridge and BridgeTheorems
    (SfuBridge.ts), CascadePlan and CascadePlanTheorems ([planCascadeTree]),
    CascadeTree and TreeTheorems (CascadeTree.ts, CascadeBridge.ts,
    ReferenceSfuMedia.ts), Bandwidth (SimpleBandwidthEstimator.ts,
    StatsCollector.ts), UdpGossip and UdpTheorems (UdpGossipTransport.ts).

    Package media (src/packages/media/src).  MediaProtocol (protocol.ts,
    sfuProtocol.ts), Tracks (LocalTrackRegistry.ts), PeerConnection and
    PeerConnectionTheorems (PeerConnection.ts), ActiveSpeaker
    (ActiveSpeakerDetector.ts), Call, CallTheorems and MeshTheorems (Call.ts, over
    the room of the client), MediaRouter and MediaRouterTheorems (MediaRouter.ts,
    MediaEntity.ts, SfuSignalHandler.ts), WorkerPool (WorkerPool.ts), MediaService
    and MediaServiceTheorems (MediaService.ts).

    ** How the parts interact

    Interfaces are classes: [WebSocket] (Peer), [StorageSink] and [SubtleCrypto]
    (ReceiveTransfer), [TransferOps] (FileTransferManager), [OwnerRing] (RoomRouter),
    [PlacementStrategy] (CascadingRouter), [FailureClient] (Sfu: the cascading router,
    the cascade tree and the router with its bridge are clients of the failure
    tracker, proved against its laws), [SfuMedia] (SfuBridge), [MessageQueue] and
    [BackoffStrategy] (ClientTransport), each with laws and an instance.  The
    packages meet on the wire: ClientProtocol proves that what the server serialises
    (Peer) the client's schema accepts, Roster composes Room, wire and ClientRoom,
    RosterEndToEnd adds the handshake of Client, Call runs over ClientRoom, EndToEnd
    composes SendTransfer, frames, control messages and ReceiveTransfer, UdpTheorems
    shows that datagrams deliver what the in-memory network of Gossip does.

    ** What the theorems show

    File transfer: a completed receive holds exactly the file, whatever the order,
    repetition and interleaving; with checksums it does so against a lying network
    unless SHA-256 collides; every fair schedule completes; a run of the sender
    sends each missing chunk once, only the newest run sends, and what it sends
    completes the receiver (EndToEnd); the manager only receives on checked offers,
    matches early channels with their offer, and closes everything it opened.
    Core: the hash ring returns the highest score and moves no more keys than it
    must; locks exclude; gossip converges whatever the order of delivery, a node
    refutes false claims, silent members are suspected and buried in time; the
    reconciler turns snapshots into a sensible history and terminates; the clock
    fires in order.  Signaling: rooms keep their capacity, identities and life
    cycle over every run, broadcasts reach all but the excluded member, removals
    are final, the server's books agree, and [start] and [stop] are answered as
    their specification says.
    Client: its room is what its transport's messages make of it, agrees with the
    server's room, and every joinRoom settles; the transport keeps messages in order
    over reconnects and is never without an attempt while it has not given up.
    Sfu: plans are trees within fan-out, tiers and capacities, found for every
    input; no node that failed keeps a room; pipes and routes of the media plane are
    those of trees and router over every run; probes decide by their history;
    quality moves by one tier exactly on a full streak; only authentic, fresh
    datagrams come through.  Media: a call has a connection to every other member or
    said why not, releases everything it made, loses no candidate and spends its
    restarts; nobody acts on another peer's transports, every request is answered
    once; a room has one open router.  Defects that the models exhibit are the
    [Example]s next to the theorems they limit.

    ** Bounds and fuel

    Fuel appears where the recursion of the code is not structural: nested
    emissions ([EventEmitter.emit], [MessageBus.publish]), the loop of
    [Clock.advance], the passes of [Reconciler._sync] and the loop that grows a
    cascade plan.  A theorem gives fuel that suffices for each: as many passes as
    there are nodes and one for a plan; for the clock and the reconciler a stated
    bound on what callbacks add; for the bus the rank of a topic, where handlers
    publish to lower ranks only; an emission takes as much as calls nest.
    Integers kept in [Z] where the code has doubles are sizes, counters and times
    below 2^53, where doubles are exact ([ceil (size / chunkSize)] included, since
    the schema only lets safe integers through), so also loads and capacities of
    nodes and the timestamps of datagrams; where the code can leave that range the
    model rounds ([js_succ], [num]).  The delays of reconnects are exact rationals.

    ** Not modelled

    Browser capture (MediaManager.ts) and the factory functions: calls of the
    platform.  Re-exports, the umbrella package, interfaces and error classes without
    behaviour.  Logging, metrics and the audit log.  The HTTP and WebSocket servers,
    sockets, data channels, [RTCPeerConnection], mediasoup, file systems, timers and
    the network are outside: calls on them are logged and what they do are steps.

    Listeners of the application may do the following while they run; what else they
    do counts as steps after the event.  Listeners of an EventEmitter: anything to
    it.  Handlers of the bus: subscribe, cancel, publish.  Callbacks of the clock and
    the reconciler: as these are built for.  Listeners of the client's transport:
    close it; of the client: leave and join.  Listeners of rooms, transfers, the
    manager, nodes and clusters do not call back; the events of a call come last in
    their step.

    Of the sender, the bytes of a frame carry the number of their run, an annotation
    of the model only.  Keys of JSON objects that JavaScript reorders or treats
    specially (integers, [__proto__]) are left out; mime types are ASCII.  After a
    failure tracker was disposed of nothing is claimed of its clients.  URLs and
    tokens, [JSON.stringify] throwing, and randomness are parameters of the client's
    transport.  Hypotheses on what is outside are named where they are used: that an
    open socket takes a message (Roster), that a connection keeps its remote
    description (PeerConnectionTheorems), what mediasoup answers
    (MediaRouterTheorems), that an HMAC has 32 bytes (UdpTheorems). *)

From Stdlib Require Import ZArith Lia Ascii String Sorted.
From stdpp Require Export base decidable list gmap sets.

Export String.StringSyntax.
#[global] Open Scope Z_scope.

(** * Strings of the source *)

(** A JavaScript string is a sequence of 16-bit code units; a code unit is
    kept as a [Z].  The notation (and not a definition) keeps the instances of
    lists visible to type-class search. *)
Abbreviation jsstr := (list Z).

(** Literals: the code units of an ASCII literal are its character codes. *)
Definition js (s : string) : jsstr :=
  (λ c, Z.of_N (N_of_ascii c)) <$> list_ascii_of_string s.

Arguments js s%_string.

(** Well-formed strings: every element is a 16-bit code unit. *)
Definition code_unit (c : Z) : Prop := 0 ≤ c < 65536.
Definition js_ok (s : jsstr) : Prop := Forall code_unit s.

(** * Results of code that throws *)

Inductive result (E A : Type) : Type :=
| Ok (a : A)
| Throw (e : E).
Arguments Ok {E A} a.
Arguments Throw {E A} e.

Definition is_ok {E A} (r : result E A) : bool :=
  match r with Ok _ => true | Throw _ => false end.

(** * Integers that JavaScript keeps in a double *)

(** [2^53]: from here on [n + 1] is no longer representable for every [n]. *)
Definition two53 : Z := 9007199254740992.

(** [n + 1] for a non-negative integer-valued double [n]: exact below [2^53];
    between [2^53] and [2^54] the doubles are the even integers and the tie
    [n + 1] rounds to the neighbour with the even significand; above, [n + 1]
    is nearer to [n] than to the next double. *)
Definition js_succ (n : Z) : Z :=
  if decide (n < two53) then n + 1
  else if decide (n < 2 * two53)
       then (if Z.even (n / 2) then n else n + 2)
       else n.

(** * Stable sort *)

(** [Array.prototype.sort] is stable; [le x y = true] says that [x] may stay
    before [y]. *)
Section stable_sort.
Context {A : Type} (le : A → A → bool).

Fixpoint sort_insert (x : A) (l : list A) : list A :=
  match l with
  | [] => [x]
  | y :: l' => if le x y then x :: y :: l' else y :: sort_insert x l'
  end.

Fixpoint stable_sort (l : list A) : list A :=
  match l with
  | [] => []
  | x :: l' => sort_insert x (stable_sort l')
  end.
End stable_sort.

(** * Tactics *)

Create HintDb rtc discriminated.

(** Case analysis on the first [match]/[if] of the goal or of a hypothesis. *)
Ltac case_goal :=
  match goal with
  | |- context [match ?x with _ => _ end] => destruct x eqn:?
  end.
Ltac case_hyp H :=
  match type of H with
  | context [match ?x with _ => _ end] => destruct x eqn:?
  end.

(** Invert an equation between constructors and substitute. *)
Ltac invert H := inversion H; subst; clear H.

(** Closing tactic of the development: hints, arithmetic and congruence. *)
Ltac rtc :=
  repeat first [case_decide | progress simplify_eq/=];
  eauto with rtc; try lia; try done.

(** * Generic lemmas *)

Lemma js_succ_small n : n < two53 → js_succ n = n + 1.
Proof. intros. unfold js_succ. by rewrite decide_True. Qed.

Lemma js_succ_ge n : n ≤ js_succ n.
Proof. unfold js_succ, two53. repeat case_decide; try case_match; lia. Qed.

Lemma js_succ_nonneg n : 0 ≤ n → 0 ≤ js_succ n.
Proof. pose proof (js_succ_ge n). lia. Qed.

Lemma js_succ_gt n : n < two53 → n < js_succ n.
Proof. intros. rewrite js_succ_small; lia. Qed.

#[export] Hint Resolve js_succ_ge js_succ_nonneg js_succ_gt : rtc.

Section sort_lemmas.
Context {A : Type} (le : A → A → bool).

Lemma sort_insert_perm x l : sort_insert le x l ≡ₚ x :: l.
Proof.
  induction l as [|y l IH]; simpl; [done|]. destruct (le x y); [done|].
  rewrite IH. apply Permutation_swap.
Qed.

Lemma stable_sort_perm l : stable_sort le l ≡ₚ l.
Proof.
  induction l as [|x l IH]; simpl; [done|]. by rewrite sort_insert_perm, IH.
Qed.

Lemma length_stable_sort l : length (stable_sort le l) = length l.
Proof. by rewrite stable_sort_perm. Qed.

(** The laws of a consistent comparator are only needed on the elements
    that satisfy [P] (scores that are numbers, for instance). *)
Context (P : A → Prop).
Context (Htot : ∀ x y, P x → P y → le x y = false → le y x = true).
Context (Htrans : ∀ x y z, P x → P y → P z → le x y = true → le y z = true → le x z = true).

Lemma sort_insert_sorted x l :
  P x → Forall P l → StronglySorted (λ a b, le a b = true) l →
  StronglySorted (λ a b, le a b = true) (sort_insert le x l).
Proof.
  intros Px HP. induction 1 as [|y l Hs IH Hall]; simpl.
  - repeat constructor.
  - apply Forall_cons in HP as [Py HP]. destruct (le x y) eqn:E.
    + constructor; [by constructor|]. constructor; [done|].
      rewrite Forall_forall in *. eauto.
    + constructor; [auto|]. rewrite sort_insert_perm.
      constructor; [by apply Htot|done].
Qed.

Lemma stable_sort_sorted l :
  Forall P l → StronglySorted (λ a b, le a b = true) (stable_sort le l).
Proof.
  induction 1 as [|x l Hx Hl IH]; simpl; [constructor|].
  apply sort_insert_sorted; [done| |done]. by rewrite stable_sort_perm.
Qed.
End sort_lemmas.

(** Stability, as commutation with filtering. *)
Lemma sort_insert_head {A} (le : A → A → bool) x l :
  Forall (λ y, le x y = true) l → sort_insert le x l = x :: l.
Proof. intros H. destruct H as [|y l Hy]; simpl; [done|]. by rewrite Hy. Qed.

Section sort_filter.
Context {A : Type} (le : A → A → bool) (P : A → Prop).
Context (Htot : ∀ x y, P x → P y → le x y = false → le y x = true).
Context (Htrans : ∀ x y z, P x → P y → P z → le x y = true → le y z = true → le x z = true).
Context (Q : A → Prop) `{∀ x, Decision (Q x)}.

Lemma sort_insert_filter x l :
  P x → Forall P l → StronglySorted (λ a b, le a b = true) l →
  filter Q (sort_insert le x l)
  = if decide (Q x) then sort_insert le x (filter Q l) else filter Q l.
Proof.
  intros Px HP. induction 1 as [|y l Hs IH Hall]; simpl.
  { rewrite filter_cons, filter_nil. by case_decide. }
  apply Forall_cons in HP as [Py HP]. destruct (le x y) eqn:E.
  - rewrite (filter_cons _ x). case_decide; [|done].
    symmetry. apply sort_insert_head, Forall_forall. intros z Hz.
    apply list_elem_of_filter in Hz as [_ [->|Hz]%elem_of_cons]; [done|].
    rewrite Forall_forall in *. eauto.
  - rewrite !(filter_cons _ y), IH by done. repeat case_decide; simpl; try done.
    by rewrite E.
Qed.

Lemma stable_sort_filter l :
  Forall P l → filter Q (stable_sort le l) = stable_sort le (filter Q l).
Proof.
  induction 1 as [|x l Hx Hl IH]; simpl; [done|].
  rewrite sort_insert_filter; [|done|by rewrite stable_sort_perm|].
  - rewrite filter_cons, IH. by case_decide.
  - by eapply stable_sort_sorted.
Qed.
End sort_filter.

(** Two splittings of one list around an element. *)
Lemma split_twice {A} (l1 l1' l2 l2' : list A) x y :
  l1 ++ x :: l2 = l1' ++ y :: l2' →
  (x = y ∧ l1 = l1' ∧ l2 = l2') ∨ (x ∈ l1' ∧ y ∈ l2) ∨ (y ∈ l1 ∧ x ∈ l2').
Proof.
  revert l1'. induction l1 as [|a l1 IH]; intros [|b l1'] Heq; simpl in Heq;
    injection Heq as Hab Heq; subst.
  - by left.
  - right; left. set_solver.
  - right; right. set_solver.
  - destruct (IH _ Heq) as [(-> & -> & ->)|[[]|[]]]; set_solver.
Qed.

Lemma NoDup_snoc {A} (l : list A) x : NoDup l → x ∉ l → NoDup (l ++ [x]).
Proof.
  intros Hl Hx. apply NoDup_app. split; [done|]. split; [|apply NoDup_singleton].
  intros y Hy ->%list_elem_of_singleton. done.
Qed.

Lemma filter_sublist {A} (P : A → Prop) `{∀ x, Decision (P x)} (l k : list A) :
  l `sublist_of` k → filter P l `sublist_of` filter P k.
Proof.
  induction 1 as [|x l k Hs IH|x l k Hs IH]; [done| |]; rewrite !filter_cons;
    case_decide; try done; [by apply sublist_skip|by apply sublist_cons].
Qed.

Lemma Forall_sub {A} (P : A → Prop) (l k : list A) : l `sublist_of` k → Forall P k → Forall P l.
Proof. induction 1; [done|intros [? ?]%Forall_cons..]; auto. Qed.

(** Unfolding one step without computing it. *)
Lemma fold_left_cons {A B} (f : A → B → A) b l a : fold_left f (b :: l) a = fold_left f l (f a b).
Proof. done. Qed.
