(* ===== verification/JsMap.v ===== *)
(** Insertion-ordered maps and sets of JavaScript ([Map], [Set]).

    [Map] and [Set] iterate in insertion order, and the source relies on it
    (delivery order of broadcasts, ties on the hash ring, [getPeers]...), so a
    [Map] is an association list with at most one entry per key: [set] on a
    present key keeps the position of the key, [set] on an absent key appends,
    [delete] closes the gap.  [mdict] forgets the order: it is the abstraction
    to stdpp's finite maps, and the operations refine [insert], [delete],
    [lookup] and [alter]. *)

From stdpp Require Import base decidable list gmap.
From S2P Require Import Prelude.

Abbreviation jmap K V := (list (K * V)).

Section jmap_ops.
Context {K V : Type} `{EqDecision K}.

Fixpoint mget (k : K) (m : jmap K V) : option V :=
  match m with
  | [] => None
  | (k', v) :: m' => if decide (k = k') then Some v else mget k m'
  end.

Definition mhas (k : K) (m : jmap K V) : bool :=
  match mget k m with Some _ => true | None => false end.

Fixpoint mset (k : K) (v : V) (m : jmap K V) : jmap K V :=
  match m with
  | [] => [(k, v)]
  | (k', v') :: m' => if decide (k = k') then (k', v) :: m' else (k', v') :: mset k v m'
  end.

Fixpoint mdel (k : K) (m : jmap K V) : jmap K V :=
  match m with
  | [] => []
  | (k', v') :: m' => if decide (k = k') then mdel k m' else (k', v') :: mdel k m'
  end.

(** Mutation of the object stored under [k]. *)
Fixpoint mupd (k : K) (f : V → V) (m : jmap K V) : jmap K V :=
  match m with
  | [] => []
  | (k', v') :: m' => if decide (k = k') then (k', f v') :: m' else (k', v') :: mupd k f m'
  end.

(** The loop [for (const [k, v] of map) if (!p(k, v)) map.delete(k)]. *)
Fixpoint mkeep (p : K → V → bool) (m : jmap K V) : jmap K V :=
  match m with
  | [] => []
  | (k, v) :: m' => if p k v then (k, v) :: mkeep p m' else mkeep p m'
  end.

Definition mkeys (m : jmap K V) : list K := m.*1.
Definition mvals (m : jmap K V) : list V := m.*2.
Definition msize (m : jmap K V) : nat := length m.

(** At most one entry per key. *)
Definition mwf (m : jmap K V) : Prop := NoDup m.*1.
End jmap_ops.

(** Sets: the keys alone. *)
Section jset_ops.
Context {A : Type} `{EqDecision A}.

Definition shas (x : A) (s : list A) : bool := bool_decide (x ∈ s).
Definition sadd (x : A) (s : list A) : list A := if decide (x ∈ s) then s else s ++ [x].

Fixpoint sdel (x : A) (s : list A) : list A :=
  match s with
  | [] => []
  | y :: s' => if decide (x = y) then sdel x s' else y :: sdel x s'
  end.

(** [new Set(l)]. *)
Definition set_of (l : list A) : list A := fold_left (λ s x, sadd x s) l [].
End jset_ops.

(** The abstraction of a [Map] to a finite map. *)
Definition mdict {K V} `{Countable K} (m : jmap K V) : gmap K V := list_to_map m.

(** * Lookup after update *)

Section jmap_lemmas.
Context {K V : Type} `{EqDecision K}.
Implicit Types (m : jmap K V) (k : K) (v : V).

Lemma mget_mset_eq k v m : mget k (mset k v m) = Some v.
Proof. induction m as [|[k' v'] m IH]; simpl; rtc. Qed.

Lemma mget_mset_ne k k' v m : k ≠ k' → mget k (mset k' v m) = mget k m.
Proof. intros. induction m as [|[k'' v''] m IH]; simpl; rtc. Qed.

Lemma mget_mset k k' v m :
  mget k (mset k' v m) = if decide (k = k') then Some v else mget k m.
Proof. case_decide; subst; [apply mget_mset_eq|by apply mget_mset_ne]. Qed.

Lemma mget_mdel_eq k m : mget k (mdel k m) = None.
Proof. induction m as [|[k' v'] m IH]; simpl; rtc. Qed.

Lemma mget_mdel_ne k k' m : k ≠ k' → mget k (mdel k' m) = mget k m.
Proof. intros. induction m as [|[k'' v''] m IH]; simpl; rtc. Qed.

Lemma mget_mdel k k' m :
  mget k (mdel k' m) = if decide (k = k') then None else mget k m.
Proof. case_decide; subst; [apply mget_mdel_eq|by apply mget_mdel_ne]. Qed.

Lemma mget_mupd k k' f m :
  mget k (mupd k' f m) = if decide (k = k') then f <$> mget k m else mget k m.
Proof. induction m as [|[k'' v''] m IH]; simpl; rtc. Qed.

Lemma mhas_true k m : mhas k m = true ↔ is_Some (mget k m).
Proof. unfold mhas. destruct (mget k m); split; intros H; try done; by destruct H. Qed.

Lemma mhas_false k m : mhas k m = false ↔ mget k m = None.
Proof. unfold mhas. by destruct (mget k m). Qed.

Lemma mget_elem k v m : mget k m = Some v → (k, v) ∈ m.
Proof.
  induction m as [|[k' v'] m IH]; simpl; [done|]. case_decide.
  - intros. simplify_eq. left.
  - intros. right. auto.
Qed.

Lemma elem_mget k v m : mwf m → (k, v) ∈ m → mget k m = Some v.
Proof.
  unfold mwf. induction m as [|[k' v'] m IH]; simpl; [by intros _ ?%not_elem_of_nil|].
  intros [Hni Hnd]%NoDup_cons Hin. apply elem_of_cons in Hin as [|Hin]; simplify_eq.
  - by rewrite decide_True.
  - rewrite decide_False; [auto|]. intros ->. apply Hni.
    apply list_elem_of_fmap. by exists (k', v).
Qed.

Lemma mget_is_Some_keys k m : is_Some (mget k m) ↔ k ∈ mkeys m.
Proof.
  unfold mkeys. induction m as [|[k' v'] m IH]; simpl.
  - split; [by intros []|by intros ?%not_elem_of_nil].
  - rewrite elem_of_cons. case_decide; [split; eauto|]. rewrite IH.
    split; [by right|]. by intros [|].
Qed.

Lemma mget_None_keys k m : mget k m = None ↔ k ∉ mkeys m.
Proof. rewrite <- mget_is_Some_keys. destruct (mget k m); naive_solver. Qed.

Lemma mdel_notin k m : k ∉ mkeys m → mdel k m = m.
Proof.
  unfold mkeys. induction m as [|[k' v'] m IH]; [done|]. rewrite fmap_cons, not_elem_of_cons.
  intros [Hne Hn]. cbn. rewrite decide_False by done. by rewrite IH.
Qed.

(** * Order of the keys and the one-entry-per-key invariant *)

Lemma mkeys_mset k v m :
  mkeys (mset k v m) = if decide (k ∈ mkeys m) then mkeys m else mkeys m ++ [k].
Proof.
  unfold mkeys. induction m as [|[k' v'] m IH]; [done|].
  cbn [mset]. destruct (decide (k = k')) as [->|Hne]; cbn [fmap list_fmap fst].
  - rewrite decide_True; [done|left].
  - rewrite IH. destruct (decide (k ∈ m.*1)).
    + rewrite decide_True; [done|by right].
    + rewrite decide_False; [done|]. by intros [|]%elem_of_cons.
Qed.

Lemma mkeys_mdel k m : mkeys (mdel k m) = filter (λ k', k ≠ k') (mkeys m).
Proof.
  unfold mkeys. induction m as [|[k' v'] m IH]; [done|].
  cbn [mdel fmap list_fmap fst]. rewrite filter_cons.
  destruct (decide (k = k')) as [->|Hne].
  - by rewrite decide_False by (by intros []).
  - rewrite decide_True by done. cbn [fmap list_fmap fst]. by f_equal.
Qed.

Lemma mkeys_mupd k f m : mkeys (mupd k f m) = mkeys m.
Proof. unfold mkeys. induction m as [|[k' v'] m IH]; simpl; rtc. simpl. by f_equal. Qed.

Lemma mwf_nil : mwf ([] : jmap K V).
Proof. constructor. Qed.

Lemma mwf_mset k v m : mwf m → mwf (mset k v m).
Proof.
  unfold mwf. change ((mset k v m).*1) with (mkeys (mset k v m)).
  rewrite mkeys_mset. case_decide; [done|]. intros. by apply NoDup_snoc.
Qed.

Lemma mwf_mdel k m : mwf m → mwf (mdel k m).
Proof.
  unfold mwf. change ((mdel k m).*1) with (mkeys (mdel k m)).
  rewrite mkeys_mdel. apply NoDup_filter.
Qed.

Lemma mwf_mupd k f m : mwf m → mwf (mupd k f m).
Proof. unfold mwf. change ((mupd k f m).*1) with (mkeys (mupd k f m)). by rewrite mkeys_mupd. Qed.

Lemma mkeep_sublist (p : K → V → bool) m : mkeep p m `sublist_of` m.
Proof.
  induction m as [|[k v] m IH]; simpl; [done|].
  destruct (p k v); [by apply sublist_skip|by apply sublist_cons].
Qed.

Lemma mwf_mkeep p m : mwf m → mwf (mkeep p m).
Proof.
  unfold mwf. intros Hwf. eapply sublist_NoDup; [apply Hwf|].
  apply fmap_sublist, mkeep_sublist.
Qed.

Lemma mget_mkeep p k m :
  mwf m → mget k (mkeep p m) =
  match mget k m with Some v => if p k v then Some v else None | None => None end.
Proof.
  unfold mwf. induction m as [|[k' v'] m IH]; simpl; [done|].
  intros [Hni Hnd]%NoDup_cons. case_decide; subst.
  - destruct (p k' v') eqn:E; simpl; [by rewrite decide_True|].
    rewrite (IH Hnd). replace (mget k' m) with (@None V); [done|].
    symmetry. by apply mget_None_keys.
  - destruct (p k' v') eqn:E; simpl; [rewrite decide_False by done|]; auto.
Qed.

Lemma msize_mset k v m :
  msize (mset k v m) = if mhas k m then msize m else S (msize m).
Proof.
  unfold msize, mhas. induction m as [|[k' v'] m IH]; simpl; [done|].
  case_decide; simpl; [done|]. rewrite IH. by destruct (mget k m).
Qed.

Lemma msize_mdel_le k m : (msize (mdel k m) ≤ msize m)%nat.
Proof. unfold msize. induction m as [|[k' v'] m IH]; simpl; rtc. Qed.

Lemma msize_mkeys m : msize m = length (mkeys m).
Proof. unfold msize, mkeys. by rewrite length_fmap. Qed.

Lemma mset_absent k v m : mget k m = None → mset k v m = m ++ [(k, v)].
Proof. induction m as [|[k' v'] m IH]; simpl; rtc. intros. f_equal. auto. Qed.

Lemma mset_restore k v v' m : mget k m = Some v → mset k v (mset k v' m) = m.
Proof.
  induction m as [|[k' w] m IH]; simpl; [done|].
  destruct (decide (k = k')) as [->|]; simpl; intros ?; simplify_eq.
  - by rewrite decide_True.
  - rewrite decide_False by done. f_equal. auto.
Qed.

Lemma mdel_mset_absent k v m : mget k m = None → mdel k (mset k v m) = m.
Proof.
  induction m as [|[k' w] m IH]; simpl; [by rewrite decide_True|].
  destruct (decide (k = k')) as [->|]; simpl; intros ?; simplify_eq.
  rewrite decide_False by done. f_equal. auto.
Qed.

Lemma mdel_mset k v m : mdel k (mset k v m) = mdel k m.
Proof.
  induction m as [|[k' w] m IH]; simpl; [by rewrite decide_True|].
  destruct (decide (k = k')) as [->|]; simpl; [by rewrite decide_True|].
  rewrite decide_False by done. by f_equal.
Qed.

Lemma mdel_mdel k m : mdel k (mdel k m) = mdel k m.
Proof.
  induction m as [|[k' w] m IH]; simpl; [done|].
  destruct (decide (k = k')) as [->|]; simpl; [done|]. rewrite decide_False by done. by f_equal.
Qed.

Lemma mdel_absent k m : mget k m = None → mdel k m = m.
Proof. induction m as [|[k' v'] m IH]; simpl; rtc. intros. f_equal. auto. Qed.
End jmap_lemmas.

#[export] Hint Resolve mwf_nil mwf_mset mwf_mdel mwf_mupd mwf_mkeep : rtc.
Create Rewrite HintDb jmap.
#[export] Hint Rewrite @mget_mset @mget_mdel @mget_mupd : jmap.

(** * Refinement of finite maps *)

Section jmap_refines.
Context {K V : Type} `{Countable K}.
Implicit Types (m : jmap K V).

Lemma mdict_lookup k m : mdict m !! k = mget k m.
Proof.
  unfold mdict. induction m as [|[k' v'] m IH]; simpl; [apply lookup_empty|].
  rewrite lookup_insert, IH. repeat case_decide; congruence.
Qed.

Lemma mdict_mset k v m : mdict (mset k v m) = <[k:=v]> (mdict m).
Proof.
  apply map_eq. intros i. rewrite lookup_insert, !mdict_lookup, mget_mset.
  repeat case_decide; congruence.
Qed.

Lemma mdict_mdel k m : mdict (mdel k m) = delete k (mdict m).
Proof.
  apply map_eq. intros i. rewrite lookup_delete, !mdict_lookup, mget_mdel.
  repeat case_decide; congruence.
Qed.

Lemma mdict_mupd k f m : mdict (mupd k f m) = alter f k (mdict m).
Proof.
  apply map_eq. intros i. rewrite lookup_alter, !mdict_lookup, mget_mupd.
  repeat case_decide; congruence.
Qed.
End jmap_refines.

(** * Sets *)

Section jset_lemmas.
Context {A : Type} `{EqDecision A}.
Implicit Types (s : list A) (x y : A).

Lemma elem_of_sadd x y s : x ∈ sadd y s ↔ x = y ∨ x ∈ s.
Proof.
  unfold sadd. case_decide; [naive_solver|].
  rewrite elem_of_app, list_elem_of_singleton. naive_solver.
Qed.

Lemma elem_of_sdel x y s : x ∈ sdel y s ↔ x ≠ y ∧ x ∈ s.
Proof.
  induction s as [|z s IH]; simpl; [set_solver|].
  case_decide; subst; rewrite ?elem_of_cons, IH; naive_solver.
Qed.

Lemma sdel_filter x s : sdel x s = filter (λ y, x ≠ y) s.
Proof. induction s as [|y s IH]; [done|]. rewrite filter_cons. cbn. repeat case_decide; by rewrite ?IH. Qed.

Lemma sdel_notin x s : x ∉ s → sdel x s = s.
Proof.
  induction s as [|y s IH]; [done|]. intros [Hne Hn]%not_elem_of_cons. cbn. by rewrite decide_False, IH.
Qed.

Lemma NoDup_sadd x s : NoDup s → NoDup (sadd x s).
Proof. unfold sadd. intros. case_decide; [done|by apply NoDup_snoc]. Qed.

Lemma NoDup_sdel x s : NoDup s → NoDup (sdel x s).
Proof.
  induction 1 as [|y s Hni Hnd IH]; simpl; [constructor|].
  case_decide; [done|]. constructor; [|done]. rewrite elem_of_sdel. naive_solver.
Qed.

Lemma shas_true x s : shas x s = true ↔ x ∈ s.
Proof. apply bool_decide_eq_true. Qed.

Lemma shas_false x s : shas x s = false ↔ x ∉ s.
Proof. apply bool_decide_eq_false. Qed.

Lemma set_of_aux (l s : list A) : NoDup s → NoDup (fold_left (λ s x, sadd x s) l s)
  ∧ ∀ x, x ∈ fold_left (λ s x, sadd x s) l s ↔ x ∈ s ∨ x ∈ l.
Proof.
  revert s. induction l as [|y l IH]; intros s Hs; simpl; [set_solver|].
  destruct (IH (sadd y s) (NoDup_sadd y s Hs)) as [H1 H2]. split; [done|].
  intros x. rewrite H2, elem_of_sadd, elem_of_cons. naive_solver.
Qed.

Lemma NoDup_set_of (l : list A) : NoDup (set_of l).
Proof. apply set_of_aux. constructor. Qed.

Lemma elem_of_set_of x (l : list A) : x ∈ set_of l ↔ x ∈ l.
Proof.
  unfold set_of. destruct (set_of_aux l [] (NoDup_nil_2)) as [_ ->].
  split; [by intros [?%not_elem_of_nil|]|by right].
Qed.
End jset_lemmas.

#[export] Hint Resolve NoDup_sadd NoDup_sdel NoDup_set_of : rtc.
