(* ===== verification/JsNumber.v ===== *)
(** JavaScript numbers: 32-bit integer operators, computed with their
    wrap-around on [Z], and doubles, computed with the Standard Library's
    [spec_float] at precision 53. *)

From Stdlib Require Import SpecFloat.
From stdpp Require Import base decidable list.
From S2P Require Import Prelude.

(** * 32-bit operators *)

Definition two32 : Z := 4294967296.

Definition to_uint32 (z : Z) : Z := z mod two32.
Definition to_int32 (z : Z) : Z :=
  let u := to_uint32 z in if decide (u < 2147483648) then u else u - two32.

(** [a ^ b], [a & b], [a >>> n] and [Math.imul(a, b)]. *)
Definition js_xor (a b : Z) : Z := Z.lxor (to_int32 a) (to_int32 b).
Definition js_and (a b : Z) : Z := Z.land (to_int32 a) (to_int32 b).
Definition js_shru (a n : Z) : Z := Z.shiftr (to_uint32 a) n.
Definition imul (a b : Z) : Z := to_int32 (a * b).

(** * Doubles *)

Abbreviation num := spec_float.
Definition prec : Z := 53.
Definition emax : Z := 1024.

Definition num_of_Z (z : Z) : num := binary_normalize prec emax z 0 false.
Definition num_div : num → num → num := SFdiv prec emax.
Definition num_sub : num → num → num := SFsub prec emax.
Definition num_neg : num → num := SFopp.
Definition num_lt : num → num → bool := SFltb.
Definition num_le : num → num → bool := SFleb.

Definition num_zero : num := S754_zero false.
Definition num_one : num := num_of_Z 1.
Definition num_inf : num := S754_infinity false.
Definition num_neg_inf : num := S754_infinity true.
Definition num_nan : num := S754_nan.

(** [Number.isFinite], and whether a number is [NaN]. *)
Definition isFinite (x : num) : bool :=
  match x with S754_zero _ | S754_finite _ _ _ => true | _ => false end.
Definition isNaN (x : num) : bool :=
  match x with S754_nan => true | _ => false end.

(** [Math.max(a, b)]: [NaN] if either is. *)
Definition num_max (a b : num) : num :=
  if isNaN a || isNaN b then num_nan else if num_lt a b then b else a.

(** * The order of the doubles *)

(** Position of a non-[NaN] double: class, exponent, significand. *)
Definition rank (x : num) : Z * Z * Z :=
  match x with
  | S754_infinity true => (-2, 0, 0)
  | S754_finite true m e => (-1, - e, - Z.pos m)
  | S754_zero _ => (0, 0, 0)
  | S754_finite false m e => (1, e, Z.pos m)
  | S754_infinity false => (2, 0, 0)
  | S754_nan => (3, 0, 0)
  end.

Definition rank_lt (a b : Z * Z * Z) : Prop :=
  a.1.1 < b.1.1 ∨ a.1.1 = b.1.1 ∧ (a.1.2 < b.1.2 ∨ a.1.2 = b.1.2 ∧ a.2 < b.2).

Lemma num_lt_rank x y :
  isNaN x = false → isNaN y = false → num_lt x y = true ↔ rank_lt (rank x) (rank y).
Proof.
  unfold num_lt, SFltb, rank_lt.
  destruct x as [[]|[]| |[] m1 e1], y as [[]|[]| |[] m2 e2]; simpl; try done;
    intros _ _; try (split; [done|lia]); try (split; [lia|done]).
  - destruct (Z.compare_spec e1 e2); simpl; [|split; [done|lia]|split; [lia|done]].
    change (Pos.compare_cont Eq m1 m2) with (Pos.compare m1 m2).
    destruct (Pos.compare_spec m1 m2); simpl; (split; [done || lia|try done; lia]).
  - destruct (Z.compare_spec e1 e2); simpl; [|split; [lia|done]|split; [done|lia]].
    change (Pos.compare_cont Eq m1 m2) with (Pos.compare m1 m2).
    destruct (Pos.compare_spec m1 m2); simpl; (split; [done || lia|try done; lia]).
Qed.

Lemma num_lt_nan_l x y : isNaN x = true → num_lt x y = false.
Proof. by destruct x. Qed.

Lemma num_lt_nan_r x y : isNaN y = true → num_lt x y = false.
Proof. destruct y; try done. by destruct x. Qed.

Lemma num_lt_not_nan x y : num_lt x y = true → isNaN x = false ∧ isNaN y = false.
Proof.
  intros H. split; apply not_true_iff_false; intros E.
  - by rewrite num_lt_nan_l in H.
  - by rewrite num_lt_nan_r in H.
Qed.

Lemma num_lt_false_rank x y :
  isNaN x = false → isNaN y = false → num_lt x y = false ↔ ¬ rank_lt (rank x) (rank y).
Proof. intros. rewrite <- num_lt_rank by done. by rewrite not_true_iff_false. Qed.

Lemma num_lt_irrefl x : num_lt x x = false.
Proof.
  destruct (isNaN x) eqn:E; [by apply num_lt_nan_l|].
  apply num_lt_false_rank; [done..|]. unfold rank_lt. lia.
Qed.

Lemma num_lt_trans x y z : num_lt x y = true → num_lt y z = true → num_lt x z = true.
Proof.
  intros H1 H2. destruct (num_lt_not_nan _ _ H1), (num_lt_not_nan _ _ H2).
  rewrite num_lt_rank in * by done. unfold rank_lt in *. lia.
Qed.

Lemma num_lt_asym x y : num_lt x y = true → num_lt y x = false.
Proof.
  intros H. apply not_true_iff_false. intros H'.
  pose proof (num_lt_trans x y x H H') as Hx. by rewrite num_lt_irrefl in Hx.
Qed.

(** Being not below is transitive away from [NaN]. *)
Lemma num_ge_trans x y z :
  isNaN x = false → isNaN y = false → isNaN z = false →
  num_lt x y = false → num_lt y z = false → num_lt x z = false.
Proof. intros ???. rewrite !num_lt_false_rank by done. unfold rank_lt. lia. Qed.

Lemma num_le_lt_trans x y z :
  isNaN y = false → num_lt x y = false → num_lt x z = true → num_lt y z = true.
Proof.
  intros ? ? H. destruct (num_lt_not_nan _ _ H).
  rewrite num_lt_false_rank, num_lt_rank in * by done. unfold rank_lt in *. lia.
Qed.

Lemma num_lt_le_trans x y z :
  isNaN z = false → num_lt x y = true → num_lt z y = false → num_lt x z = true.
Proof.
  intros ? H. destruct (num_lt_not_nan _ _ H).
  rewrite num_lt_false_rank, num_lt_rank in * by done. unfold rank_lt in *. lia.
Qed.

Lemma num_le_false x y :
  isNaN x = false → isNaN y = false → num_le x y = false → num_lt y x = true.
Proof.
  unfold num_le, num_lt, SFleb, SFltb.
  destruct x as [[]|[]| |[] m1 e1], y as [[]|[]| |[] m2 e2]; simpl; try done; intros _ _.
  all: rewrite (Z.compare_antisym e1 e2); destruct (e1 ?= e2)%Z; simpl; try done.
  all: change (Pos.compare_cont Eq m1 m2) with (Pos.compare m1 m2);
    change (Pos.compare_cont Eq m2 m1) with (Pos.compare m2 m1);
    rewrite (Pos.compare_antisym m1 m2); by destruct (m1 ?= m2)%positive.
Qed.

(** * Division does not produce [NaN] from numbers that are not zero *)

Lemma shr_1_nonneg r : 0 ≤ shr_m r → 0 ≤ shr_m (shr_1 r).
Proof. destruct r as [[|[]|] ? ?]; simpl; lia. Qed.

Lemma iter_shr_nonneg p r : 0 ≤ shr_m r → 0 ≤ shr_m (SpecFloat.iter_pos shr_1 p r).
Proof.
  revert r. induction p as [p IH|p IH|]; intros r Hr; simpl.
  - apply IH, IH, shr_1_nonneg, Hr.
  - apply IH, IH, Hr.
  - apply shr_1_nonneg, Hr.
Qed.

Lemma shr_fexp_nonneg m e l : 0 ≤ m → 0 ≤ shr_m (shr_fexp prec emax m e l).1.
Proof.
  intros Hm. unfold shr_fexp, shr.
  assert (0 ≤ shr_m (shr_record_of_loc m l)) by (destruct l as [|[]]; simpl; lia).
  destruct (fexp _ _ _ - e); simpl; [done| |done]. by apply iter_shr_nonneg.
Qed.

Lemma round_nearest_even_nonneg m l : 0 ≤ m → 0 ≤ round_nearest_even m l.
Proof. intros. destruct l as [|[]]; simpl; [lia| |lia|lia]. destruct (Z.even m); lia. Qed.

Lemma binary_round_aux_not_nan s m e l :
  0 ≤ m → isNaN (binary_round_aux prec emax s m e l) = false.
Proof.
  intros Hm. unfold binary_round_aux.
  pose proof (shr_fexp_nonneg m e l Hm) as H1.
  destruct (shr_fexp prec emax m e l) as [r1 e1]; simpl in H1.
  pose proof (shr_fexp_nonneg (round_nearest_even (shr_m r1) (loc_of_shr_record r1)) e1
    loc_Exact (round_nearest_even_nonneg _ _ H1)) as H2.
  destruct (shr_fexp prec emax _ e1 loc_Exact) as [r2 e2]; simpl in H2.
  destruct (shr_m r2); [done| |lia]. by destruct (e2 <=? _).
Qed.

Lemma num_div_not_nan x sy my ey :
  isNaN x = false → isNaN (num_div x (S754_finite sy my ey)) = false.
Proof.
  unfold num_div, SFdiv. destruct x as [| | |sx mx ex]; try done. intros _.
  unfold SFdiv_core_binary.
  set (e' := Z.min _ _). set (s := (ex - ey - e')%Z).
  set (m' := match s with 0 => Z.pos mx | Z.pos _ => Z.shiftl (Z.pos mx) s | Z.neg _ => 0 end).
  assert (Hm : 0 ≤ m').
  { unfold m'. destruct s; [lia| |lia]. apply Z.shiftl_nonneg. lia. }
  pose proof (Z_div_pos m' (Z.pos my) ltac:(lia) Hm) as Hq. unfold Z.div in Hq.
  destruct (Z.div_eucl m' (Z.pos my)) as [q r]. by apply binary_round_aux_not_nan.
Qed.

(** A positive quotient is above [-Infinity]. *)
Lemma binary_round_aux_pos m e l :
  0 ≤ m → num_lt num_neg_inf (binary_round_aux prec emax false m e l) = true.
Proof.
  intros Hm. pose proof (binary_round_aux_not_nan false m e l Hm) as Hn. revert Hn.
  unfold binary_round_aux.
  destruct (shr_fexp prec emax m e l) as [r1 e1].
  destruct (shr_fexp prec emax _ e1 loc_Exact) as [r2 e2].
  destruct (shr_m r2); [done| |done]. by destruct (e2 <=? _).
Qed.

Lemma num_div_pos mx ex my ey :
  num_lt num_neg_inf (num_div (S754_finite false mx ex) (S754_finite false my ey)) = true.
Proof.
  unfold num_div, SFdiv, SFdiv_core_binary.
  set (e' := Z.min _ _). set (s := (ex - ey - e')%Z).
  set (m' := match s with 0 => Z.pos mx | Z.pos _ => Z.shiftl (Z.pos mx) s | Z.neg _ => 0 end).
  assert (Hm : 0 ≤ m').
  { unfold m'. destruct s; [lia| |lia]. apply Z.shiftl_nonneg. lia. }
  pose proof (Z_div_pos m' (Z.pos my) ltac:(lia) Hm) as Hq. unfold Z.div in Hq.
  destruct (Z.div_eucl m' (Z.pos my)) as [q r]. by apply binary_round_aux_pos.
Qed.

(** * [Number(string)] *)

Definition is_space (c : Z) : bool :=
  bool_decide (c ∈ [9; 10; 11; 12; 13; 32; 160; 5760; 8232; 8233; 8239; 8287; 12288; 65279])
  || bool_decide (8192 ≤ c ≤ 8202).

Fixpoint trimStart (s : jsstr) : jsstr :=
  match s with
  | c :: s' => if is_space c then trimStart s' else s
  | [] => []
  end.
Definition trim (s : jsstr) : jsstr := reverse (trimStart (reverse (trimStart s))).

Definition digit_val (base c : Z) : option Z :=
  let d := if decide (48 ≤ c ≤ 57) then c - 48
           else if decide (97 ≤ c ≤ 122) then c - 87
           else if decide (65 ≤ c ≤ 90) then c - 55
           else base in
  if decide (d < base) then Some d else None.

(** The longest run of digits: its value, its length and what follows. *)
Fixpoint digits (base : Z) (s : jsstr) (acc : Z) (n : nat) : Z * nat * jsstr :=
  match s with
  | c :: s' => match digit_val base c with
               | Some d => digits base s' (acc * base + d) (S n)
               | None => (acc, n, s)
               end
  | [] => (acc, n, [])
  end.

Definition all_digits (base : Z) (s : jsstr) : num :=
  match digits base s 0 0 with
  | (v, S _, []) => num_of_Z v
  | _ => num_nan
  end.

(** The double nearest to [m * 10^k], for [m] with [n] digits. *)
Definition scale10 (m : Z) (n : nat) (k : Z) : num :=
  match m with
  | Zpos p =>
      if decide (400 < k) then num_inf
      else if decide (k < - (400 + Z.of_nat n)) then num_zero
      else if decide (0 ≤ k) then num_of_Z (m * 10 ^ k)
      else num_div (S754_finite false p 0) (S754_finite false (Z.to_pos (10 ^ (- k))) 0)
  | _ => num_zero
  end.

Definition exponent (s : jsstr) : option Z :=
  match s with
  | [] => Some 0
  | c :: s1 =>
      if bool_decide (c = 101) || bool_decide (c = 69) then
        let '(neg, s2) := match s1 with
                          | 45 :: s2 => (true, s2)
                          | 43 :: s2 => (false, s2)
                          | _ => (false, s1)
                          end in
        match digits 10 s2 0 0 with
        | (v, S _, []) => Some (if neg : bool then - v else v)
        | _ => None
        end
      else None
  end.

Definition unsigned_decimal (s : jsstr) : num :=
  if decide (s = js "Infinity") then num_inf
  else
    let '(ip, n, s1) := digits 10 s 0 0 in
    let '(m, k, s2) := match s1 with
                       | 46 :: s2 => digits 10 s2 ip 0
                       | _ => (ip, 0%nat, s1)
                       end in
    if decide (n + k = 0)%nat then num_nan
    else match exponent s2 with
         | Some e => scale10 m (n + k) (e - Z.of_nat k)
         | None => num_nan
         end.

Definition Number (s : jsstr) : num :=
  match trim s with
  | [] => num_zero
  | 48 :: 120 :: h | 48 :: 88 :: h => all_digits 16 h
  | 48 :: 111 :: h | 48 :: 79 :: h => all_digits 8 h
  | 48 :: 98 :: h | 48 :: 66 :: h => all_digits 2 h
  | 43 :: s' => unsigned_decimal s'
  | 45 :: s' => num_neg (unsigned_decimal s')
  | s' => unsigned_decimal s'
  end.

Example number_int : Number (js " 42 ") = num_of_Z 42.
Proof. vm_compute. reflexivity. Qed.
Example number_frac : Number (js "2.5e1") = num_of_Z 25 ∧ Number (js "0x1F") = num_of_Z 31
  ∧ Number (js "0.1") = S754_finite false 7205759403792794 (-56)
  ∧ Number (js "1e400") = num_inf ∧ Number (js "12px") = num_nan ∧ Number (js "1e23") = S754_finite false 5960464477539062 24.
Proof. repeat split; vm_compute; reflexivity. Qed.

(** * Integers held by doubles *)

(** [Number.isInteger]: the integer a double holds. *)
Definition num_int (x : num) : option Z :=
  match x with
  | S754_zero _ => Some 0
  | S754_finite s m e =>
      let v := if s then Z.neg m else Z.pos m in
      if decide (0 ≤ e) then Some (v * 2 ^ e)
      else if decide (v mod 2 ^ (- e) = 0) then Some (v / 2 ^ (- e)) else None
  | _ => None
  end.

Lemma digits2_shift n p : digits2_pos (Pos.iter xO p n) = (digits2_pos p + n)%positive.
Proof.
  induction n as [|n IH] using Pos.peano_ind; simpl; [lia|].
  rewrite Pos.iter_succ. simpl. rewrite IH. lia.
Qed.

Lemma digits2_bound p k : (Z.pos p < 2 ^ k) → 0 ≤ k → Z.pos (digits2_pos p) ≤ k.
Proof.
  revert k. induction p as [p IH|p IH|]; intros k Hp Hk; simpl.
  - destruct (decide (k = 0)) as [->|]; [change (2^0) with 1 in Hp; lia|].
    replace k with (Z.succ (k-1)) in Hp by lia. rewrite Z.pow_succ_r in Hp by lia.
    specialize (IH (k-1) ltac:(lia) ltac:(lia)). lia.
  - destruct (decide (k = 0)) as [->|]; [change (2^0) with 1 in Hp; lia|].
    replace k with (Z.succ (k-1)) in Hp by lia. rewrite Z.pow_succ_r in Hp by lia.
    specialize (IH (k-1) ltac:(lia) ltac:(lia)). lia.
  - destruct (decide (k = 0)) as [->|]; [change (2^0) with 1 in Hp; lia|]. lia.
Qed.

Lemma round_exact s m e : 
  Z.pos (digits2_pos m) = 53 → -1074 ≤ e → e ≤ 971 →
  binary_round_aux prec emax s (Z.pos m) e loc_Exact = S754_finite s m e.
Proof.
  intros Hd He1 He2. unfold binary_round_aux.
  assert (Hf : shr_fexp prec emax (Z.pos m) e loc_Exact = ({| shr_m := Z.pos m; shr_r := false; shr_s := false |}, e)).
  { unfold shr_fexp, shr, fexp. cbn [Zdigits2]. rewrite Hd. 
    replace (Z.max (53 + e - prec) (emin prec emax) - e) with 0; [done|].
    unfold prec, emin, emax, prec in *. lia. }
  rewrite Hf. cbn [shr_m loc_of_shr_record round_nearest_even]. rewrite Hf. cbn [shr_m].
  destruct (Z.leb_spec e (emax - prec)); [done|]. unfold emax, prec in *. lia.
Qed.

Lemma num_of_Z_pos s p : Z.pos p < two53 →
  binary_round prec emax s p 0 = 
  match 53 - Z.pos (digits2_pos p) with Zpos d => S754_finite s (Pos.iter xO p d) (- Z.pos d) | _ => S754_finite s p 0 end.
Proof.
  intros Hp. pose proof (digits2_bound p 53 Hp ltac:(lia)) as Hd.
  unfold binary_round, shl_align, fexp.
  replace (Z.max (Z.pos (digits2_pos p) + 0 - prec) (emin prec emax) - 0) with (Z.pos (digits2_pos p) - 53).
  2: { unfold prec, emin, emax, prec. lia. }
  destruct (53 - Z.pos (digits2_pos p)) as [|d|d] eqn:E; [| |lia].
  - replace (Z.pos (digits2_pos p) - 53) with 0 by lia. apply round_exact; lia.
  - replace (Z.pos (digits2_pos p) - 53) with (Z.neg d) by lia. 
    replace (Z.max (Z.pos (digits2_pos p) + 0 - prec) (emin prec emax)) with (- Z.pos d) by (unfold prec, emin, emax, prec; lia).
    apply round_exact; [rewrite digits2_shift; lia|lia|lia].
Qed.

Lemma iter_xO d p : Z.pos (Pos.iter xO p d) = Z.pos p * 2 ^ Z.pos d.
Proof.
  induction d as [|d IH] using Pos.peano_ind; [change (2 ^ 1) with 2; simpl; lia|].
  rewrite Pos.iter_succ, Pos2Z.inj_succ, Z.pow_succ_r by lia.
  rewrite (Pos2Z.inj_xO (Pos.iter xO p d)), IH. lia.
Qed.

(** Integers of magnitude below [2^53] are exact. *)
Lemma num_int_of_Z z : Z.abs z < two53 → num_int (num_of_Z z) = Some z.
Proof.
  intros Hz. unfold num_of_Z, binary_normalize. destruct z as [|p|p]; [done| |].
  all: rewrite num_of_Z_pos by lia.
  all: destruct (53 - Z.pos (digits2_pos p)) as [|d|d]; unfold num_int; try (by rewrite decide_True, Z.mul_1_r by lia).
  all: rewrite decide_False by lia; rewrite Z.opp_involutive.
  - rewrite iter_xO, Z.mod_mul, Z.div_mul by lia. done.
  - change (Z.neg (Pos.iter xO p d)) with (- Z.pos (Pos.iter xO p d)).
    rewrite iter_xO, <- Z.mul_opp_l, Z.mod_mul, Z.div_mul by lia. done.
Qed.
