(* ===== verification/Json.v ===== *)
(** JSON values: the boundary of the model is [JSON.parse], a frame is the value it
    holds or not JSON at all. *)

From S2P Require Import Prelude JsMap JsNumber.

Inductive json :=
| JNull
| JBool (b : bool)
| JNum (x : num)
| JStr (s : jsstr)
| JArr (l : list json)
| JObj (fields : jmap jsstr json).

(** [unknown]: [None] is [undefined]. *)
Abbreviation payload := (option json).

Inductive frame := NotJson | Json (v : json).
