(* ===== verification/Interfaces.v ===== *)
(** Interfaces between components: what one promises to the others. *)

From stdpp Require Import base decidable list.
From S2P Require Import Prelude.

(** A ring that names the owner of a key among its nodes.  [RoomRouter] and
    [HashRingStrategy] are clients; [HashRing] is the implementation. *)
Class OwnerRing (R W : Type) := {
  ring_empty : R;
  ring_ids : R → list jsstr;
  ring_put : jsstr → W → R → R;
  ring_drop : jsstr → R → R;
  ring_owner : R → jsstr → option jsstr;
}.

(** Its contract: owners are members, and membership changes move only the keys
    of the node that changes. *)
Class OwnerRingLaws (R W : Type) `{OwnerRing R W} (weight_ok : W → Prop) := {
  ring_ids_empty : ring_ids ring_empty = [];
  ring_ids_put id w r x : x ∈ ring_ids (ring_put id w r) ↔ x = id ∨ x ∈ ring_ids r;
  ring_ids_drop id r x : x ∈ ring_ids (ring_drop id r) ↔ x ≠ id ∧ x ∈ ring_ids r;
  ring_owner_member r key o : ring_owner r key = Some o → o ∈ ring_ids r;
  ring_drop_stable id r key o :
    ring_owner r key = Some o → o ≠ id → ring_owner (ring_drop id r) key = Some o;
  ring_put_stable id w r key o :
    id ∉ ring_ids r → ring_owner (ring_put id w r) key = Some o →
    o = id ∨ ring_owner r key = Some o;
}.

(** * Join semilattices *)

(** Replicas that only ever join what they receive into what they have agree
    whatever the order and the number of deliveries. *)
Class Semilattice (A : Type) := {
  sl_join : A → A → A;
  sl_assoc x y z : sl_join x (sl_join y z) = sl_join (sl_join x y) z;
  sl_comm x y : sl_join x y = sl_join y x;
  sl_idem x : sl_join x x = x;
}.

Section semilattice.
Context `{Semilattice A}.
Implicit Types (x y z : A) (l : list A).

Definition sl_le x y : Prop := sl_join x y = y.

Lemma sl_le_refl x : sl_le x x.
Proof. apply sl_idem. Qed.

Lemma sl_le_trans x y z : sl_le x y → sl_le y z → sl_le x z.
Proof. unfold sl_le. intros Hxy Hyz. by rewrite <- Hyz, sl_assoc, Hxy. Qed.

Lemma sl_le_antisym x y : sl_le x y → sl_le y x → x = y.
Proof. unfold sl_le. intros H1 H2. by rewrite <- H1, sl_comm. Qed.

Lemma sl_join_ub_l x y : sl_le x (sl_join x y).
Proof. unfold sl_le. by rewrite sl_assoc, sl_idem. Qed.

Lemma sl_join_ub_r x y : sl_le y (sl_join x y).
Proof. rewrite sl_comm. apply sl_join_ub_l. Qed.

Lemma sl_join_lub x y z : sl_le x z → sl_le y z → sl_le (sl_join x y) z.
Proof. unfold sl_le. intros Hx Hy. by rewrite <- sl_assoc, Hy. Qed.

Lemma sl_fold_ub x l : sl_le x (fold_left sl_join l x) ∧ ∀ y, y ∈ l → sl_le y (fold_left sl_join l x).
Proof.
  revert x. induction l as [|z l IH]; intros x; simpl.
  - split; [apply sl_le_refl|]. by intros y ?%not_elem_of_nil.
  - destruct (IH (sl_join x z)) as [H1 H2]. split.
    + eapply sl_le_trans; [apply sl_join_ub_l|done].
    + intros y [->|Hy]%elem_of_cons; [|auto]. eapply sl_le_trans; [apply sl_join_ub_r|done].
Qed.

Lemma sl_fold_lub x l z : sl_le x z → (∀ y, y ∈ l → sl_le y z) → sl_le (fold_left sl_join l x) z.
Proof.
  revert x. induction l as [|y l IH]; intros x Hx Hl; simpl; [done|].
  apply IH; [|intros; apply Hl; by right]. apply sl_join_lub; [done|apply Hl; left].
Qed.

(** The fold only depends on the set of what was joined. *)
Lemma sl_fold_elems x l l' :
  (∀ y, y ∈ l ↔ y ∈ l') → fold_left sl_join l x = fold_left sl_join l' x.
Proof.
  intros Hl. destruct (sl_fold_ub x l) as [H1 H2], (sl_fold_ub x l') as [H3 H4].
  apply sl_le_antisym; apply sl_fold_lub; try done; intros y Hy; apply Hl in Hy; auto.
Qed.
End semilattice.

(** A missing value is the least one. *)
#[export, refine] Instance option_semilattice `{Semilattice A} : Semilattice (option A) := {
  sl_join x y := match x, y with
                 | Some a, Some b => Some (sl_join a b)
                 | Some a, None => Some a
                 | None, _ => y
                 end;
}.
Proof.
  - intros [x|] [y|] [z|]; try done. by rewrite sl_assoc.
  - intros [x|] [y|]; try done. by rewrite sl_comm.
  - intros [x|]; [|done]. by rewrite sl_idem.
Defined.
