(* ===== verification/RateLimiter.v ===== *)
(** The sliding-window rate limiter of the signaling server
    (packages/signaling/src/RateLimiter.ts): the state is the array of the
    timestamps of the accepted calls, oldest first. *)

From Stdlib Require Import Sorted.
From stdpp Require Import base decidable list.
From S2P Require Import Prelude.

Record RateLimiter := mkRateLimiter {
  maxPerWindow : Z;
  windowMs : Z;
  hits : list Z;
}.

(** [while (expired < hits.length && hits[expired] <= cutoff) expired++], then
    [splice(0, expired)]: drops the longest prefix at or before the cutoff. *)
Fixpoint evict (cutoff : Z) (l : list Z) : list Z :=
  match l with
  | [] => []
  | h :: l' => if decide (h ≤ cutoff) then evict cutoff l' else l
  end.

Definition allow (now : Z) (r : RateLimiter) : RateLimiter * bool :=
  let cutoff := now - windowMs r in
  let kept := evict cutoff (hits r) in
  if decide (maxPerWindow r ≤ Z.of_nat (length kept))
  then (mkRateLimiter (maxPerWindow r) (windowMs r) kept, false)
  else (mkRateLimiter (maxPerWindow r) (windowMs r) (kept ++ [now]), true).

Definition newRateLimiter (maxN w : Z) : RateLimiter := mkRateLimiter maxN w [].

(** A sequence of calls at the given times, with the list of the times of the
    accepted ones in call order. *)
Fixpoint calls (times : list Z) (r : RateLimiter) (accepted : list Z)
    : RateLimiter * list Z :=
  match times with
  | [] => (r, accepted)
  | t :: times' =>
      let '(r', ok) := allow t r in
      calls times' r' (if ok then accepted ++ [t] else accepted)
  end.

(** The accepted calls of a half-open window [(a, a + w]]. *)
Definition in_window (a w : Z) (accepted : list Z) : list Z :=
  filter (λ t, a < t ≤ a + w) accepted.

(** Reference specification: accept exactly when fewer than [maxN] accepted
    calls lie in the window that ends now. *)
Definition spec_allow (maxN w now : Z) (accepted : list Z) : bool :=
  bool_decide (Z.of_nat (length (in_window (now - w) w accepted)) < maxN).

(** * Invariant *)

(** [hits] is the part of the accepted calls that may still matter at [last]. *)
Record limiter_inv (last : Z) (acc : list Z) (r : RateLimiter) : Prop := {
  inv_split : ∃ old, acc = old ++ hits r ∧ Forall (λ t, t ≤ last - windowMs r) old;
  inv_sorted : StronglySorted Z.le (hits r);
  inv_past : Forall (λ t, t ≤ last) acc;
  inv_bound : Z.of_nat (length (hits r)) ≤ Z.max 0 (maxPerWindow r);
}.

Lemma evict_suffix c l : ∃ old, l = old ++ evict c l ∧ Forall (λ t, t ≤ c) old.
Proof.
  induction l as [|h l (old & Hl & Hold)]; simpl.
  - by exists [].
  - case_decide.
    + exists (h :: old). split; [by rewrite Hl at 1|by constructor].
    + by exists [].
Qed.

Lemma evict_above c l : StronglySorted Z.le l → Forall (λ t, c < t) (evict c l).
Proof.
  induction 1 as [|h l Hs IH Hall]; simpl; [constructor|]. case_decide; [done|].
  constructor; [lia|]. eapply Forall_impl; [apply Hall|]. simpl; lia.
Qed.

Lemma evict_sorted c l : StronglySorted Z.le l → StronglySorted Z.le (evict c l).
Proof. induction 1; simpl; [constructor|]. case_decide; [done|by constructor]. Qed.

Lemma length_evict c l : (length (evict c l) ≤ length l)%nat.
Proof. induction l; simpl; [lia|]. case_decide; simpl; lia. Qed.

Lemma sorted_snoc l x :
  StronglySorted Z.le l → Forall (λ t, t ≤ x) l → StronglySorted Z.le (l ++ [x]).
Proof.
  induction 1 as [|h l Hs IH Hall]; simpl; [repeat constructor|].
  intros [Hh Hl]%Forall_cons. constructor; [auto|].
  apply Forall_app. split; [done|by constructor].
Qed.

Lemma filter_nil_iff_out a w l :
  Forall (λ t, t ≤ a) l → in_window a w l = [].
Proof.
  unfold in_window. induction 1 as [|x l Hx Hl IH]; [done|].
  rewrite filter_cons, decide_False; [done|lia].
Qed.

Lemma in_window_app a w l1 l2 : in_window a w (l1 ++ l2) = in_window a w l1 ++ in_window a w l2.
Proof. apply filter_app. Qed.

Lemma in_window_all a w l : Forall (λ t, a < t ≤ a + w) l → in_window a w l = l.
Proof.
  unfold in_window. induction 1 as [|x l Hx Hl IH]; [done|].
  rewrite filter_cons, decide_True by done. by f_equal.
Qed.

(** What the eviction leaves is exactly the window that ends now. *)
Lemma evict_is_window last now acc r :
  limiter_inv last acc r → last ≤ now →
  evict (now - windowMs r) (hits r) = in_window (now - windowMs r) (windowMs r) acc.
Proof.
  intros [(old & -> & Hold) Hs Hp _] Hle.
  destruct (evict_suffix (now - windowMs r) (hits r)) as (ev & Heq & Hev).
  rewrite Heq at 2. rewrite !in_window_app.
  rewrite (filter_nil_iff_out _ _ old), (filter_nil_iff_out _ _ ev); [|done|].
  2: { eapply Forall_impl; [apply Hold|]. simpl; lia. }
  simpl. symmetry. apply in_window_all.
  apply Forall_app in Hp as [_ Hp]. rewrite Heq in Hp. apply Forall_app in Hp as [_ Hp].
  apply Forall_forall. intros t Ht. split.
  - eapply Forall_forall in Ht; [|by apply evict_above]. done.
  - rewrite Forall_forall in Hp. specialize (Hp _ Ht). lia.
Qed.

Lemma allow_inv last now acc r :
  limiter_inv last acc r → last ≤ now →
  limiter_inv now (if (allow now r).2 then acc ++ [now] else acc) (allow now r).1
  ∧ windowMs (allow now r).1 = windowMs r ∧ maxPerWindow (allow now r).1 = maxPerWindow r.
Proof.
  intros [(old & -> & Hold) Hs Hp Hb] Hle. unfold allow.
  destruct (evict_suffix (now - windowMs r) (hits r)) as (ev & Heq & Hev).
  assert (Hold' : Forall (λ t, t ≤ now - windowMs r) (old ++ ev)).
  { apply Forall_app. split; [|done]. eapply Forall_impl; [apply Hold|]. simpl; lia. }
  assert (Hp' : Forall (λ t, t ≤ now) (old ++ hits r)).
  { eapply Forall_impl; [apply Hp|]. simpl; lia. }
  pose proof (length_evict (now - windowMs r) (hits r)) as Hlen.
  case_decide; simpl; (split; [|done]); constructor; simpl.
  - exists (old ++ ev). split; [|done]. rewrite <- app_assoc. by rewrite Heq at 1.
  - by apply evict_sorted.
  - done.
  - lia.
  - exists (old ++ ev). split; [|done]. rewrite !app_assoc. f_equal.
    rewrite <- app_assoc. by rewrite Heq at 1.
  - apply sorted_snoc; [by apply evict_sorted|]. rewrite Heq in Hp'.
    by apply Forall_app in Hp' as [_ [_ ?]%Forall_app].
  - apply Forall_app. split; [done|]. by constructor.
  - rewrite length_app. simpl. lia.
Qed.

Lemma new_inv last maxN w : limiter_inv last [] (newRateLimiter maxN w).
Proof. constructor; simpl; [by exists []|constructor|constructor|lia]. Qed.

(** One call agrees with the reference specification. *)
Lemma allow_spec last now acc r :
  limiter_inv last acc r → last ≤ now →
  (allow now r).2 = spec_allow (maxPerWindow r) (windowMs r) now acc.
Proof.
  intros Hi Hle. pose proof (evict_is_window _ _ _ _ Hi Hle) as He.
  unfold allow, spec_allow. rewrite He.
  case_decide; simpl; symmetry; [apply bool_decide_eq_false|apply bool_decide_eq_true]; lia.
Qed.

(** The reference bound: no window ever holds more than [max] accepted calls. *)
Definition windows_bounded (maxN w : Z) (acc : list Z) : Prop :=
  ∀ a, Z.of_nat (length (in_window a w acc)) ≤ Z.max 0 maxN.

Lemma allow_windows last now acc r :
  limiter_inv last acc r → last ≤ now →
  windows_bounded (maxPerWindow r) (windowMs r) acc →
  windows_bounded (maxPerWindow r) (windowMs r)
    (if (allow now r).2 then acc ++ [now] else acc).
Proof.
  intros Hi Hle Hw a. destruct (allow now r).2 eqn:E; [|apply Hw].
  rewrite in_window_app, length_app. rewrite (allow_spec _ _ _ _ Hi Hle) in E.
  apply bool_decide_eq_true in E.
  unfold in_window at 2. rewrite filter_cons, filter_nil.
  case_decide; simpl; [|pose proof (Hw a); lia].
  assert (Hsub : (length (in_window a (windowMs r) acc)
           ≤ length (in_window (now - windowMs r) (windowMs r) acc))%nat); [|lia].
  pose proof (inv_past _ _ _ Hi) as Hp. clear -Hp Hle H. unfold in_window.
  induction Hp as [|t l Ht Hp IH]; [done|].
  rewrite !filter_cons. repeat case_decide; simpl; lia.
Qed.

Lemma calls_windows times r acc last :
  limiter_inv last acc r → StronglySorted Z.le (last :: times) →
  windows_bounded (maxPerWindow r) (windowMs r) acc →
  windows_bounded (maxPerWindow r) (windowMs r) (calls times r acc).2.
Proof.
  revert r acc last. induction times as [|t times IH]; intros r acc last Hi Hs Hw; [done|].
  apply StronglySorted_inv in Hs as [Hs [Hle _]%Forall_cons]. simpl.
  pose proof (allow_inv _ _ _ _ Hi Hle) as (Hi' & Hw' & Hm').
  pose proof (allow_windows _ _ _ _ Hi Hle Hw) as Hb.
  destruct (allow t r) as [r' ok] eqn:E. simpl in *.
  rewrite <- Hw', <- Hm' in *. eapply IH; eauto.
Qed.

(** sliding window. Whatever non-decreasing times the calls come at, no window of
    [w] milliseconds contains more than [maxN] accepted calls. *)
Theorem rate_limiter_window (maxN w t0 : Z) (times : list Z) :
  StronglySorted Z.le (t0 :: times) →
  ∀ a, Z.of_nat (length (in_window a w (calls times (newRateLimiter maxN w) []).2))
       ≤ Z.max 0 maxN.
Proof.
  intros Hs. apply (calls_windows times (newRateLimiter maxN w) [] t0);
    [apply new_inv|done|]. intros a. simpl. lia.
Qed.

Lemma rate_limiter_window_witness :
  StronglySorted Z.le [0; 10; 20; 30] ∧
  Z.of_nat (length (in_window 5 100 (calls [10; 20; 30] (newRateLimiter 2 100) []).2)) ≤ 2.
Proof.
  assert (H : StronglySorted Z.le [0; 10; 20; 30]).
  { repeat constructor; lia. }
  split; [exact H|]. apply (rate_limiter_window 2 100 0 [10; 20; 30] H 5).
Defined.

(** Reachable limiters satisfy the invariant. *)
Lemma calls_inv times r acc last now :
  limiter_inv last acc r → StronglySorted Z.le (last :: times) →
  Forall (λ t, t ≤ now) (last :: times) →
  ∃ last', last' ≤ now ∧ limiter_inv last' (calls times r acc).2 (calls times r acc).1
    ∧ windowMs (calls times r acc).1 = windowMs r
    ∧ maxPerWindow (calls times r acc).1 = maxPerWindow r.
Proof.
  revert r acc last. induction times as [|t times IH]; intros r acc last Hi Hs Hn.
  { exists last. by apply Forall_cons in Hn as [? _]. }
  apply StronglySorted_inv in Hs as [Hs [Hle _]%Forall_cons]. simpl.
  apply Forall_cons in Hn as [_ Hn].
  pose proof (allow_inv _ _ _ _ Hi Hle) as (Hi' & Hw' & Hm').
  destruct (allow t r) as [r' ok] eqn:E. simpl in *.
  destruct (IH r' _ t Hi' Hs Hn) as (last' & H1 & H2 & H3 & H4).
  exists last'. split_and!; congruence.
Qed.

(** the limiter is exact. After any non-decreasing sequence of calls, the next call
    is accepted if and only if fewer than [maxN] accepted calls lie in the
    window of [w] milliseconds that ends at it, although only a bounded
    suffix of the accepted timestamps is kept. *)
Theorem rate_limiter_exact (maxN w t0 now : Z) (times : list Z) :
  StronglySorted Z.le (t0 :: times) → Forall (λ t, t ≤ now) (t0 :: times) →
  let '(r, acc) := calls times (newRateLimiter maxN w) [] in
  (allow now r).2 = spec_allow maxN w now acc
  ∧ Z.of_nat (length (hits r)) ≤ Z.max 0 maxN.
Proof.
  intros Hs Hn.
  destruct (calls_inv times _ _ t0 now (new_inv t0 maxN w) Hs Hn)
    as (last' & Hle & Hi & Hw & Hm).
  destruct (calls times (newRateLimiter maxN w) []) as [r acc]. simpl in *.
  rewrite <- Hw, <- Hm at 1. split; [by eapply allow_spec|]. rewrite <- Hm. apply Hi.
Qed.

Lemma rate_limiter_exact_witness :
  (allow 111 (calls [10; 20] (newRateLimiter 2 100) []).1).2 = true.
Proof.
  assert (H : StronglySorted Z.le [0; 10; 20]). { repeat constructor; lia. }
  assert (H' : Forall (λ t, t ≤ 111) [0; 10; 20]). { repeat constructor; lia. }
  exact (proj1 (rate_limiter_exact 2 100 0 111 [10; 20] H H')).
Defined.
