(* ===== verification/HashRing.v ===== *)
(** Rendezvous hashing (packages/core/src/HashRing.ts).

    [cyrb53] is computed bit for bit; the score of a node is computed in
    doubles, except for [Math.log], whose value is implementation-approximated
    by the language and stays a parameter. *)

From Stdlib Require Import SpecFloat Sorted.
From stdpp Require Import base decidable list.
From S2P Require Import Prelude JsMap JsNumber Interfaces.

(** * The hash *)

Definition cyrb53_step (h : Z * Z) (ch : Z) : Z * Z :=
  (imul (js_xor h.1 ch) 2654435761, imul (js_xor h.2 ch) 1597334677).

Definition cyrb53_mix (h1 h2 : Z) : Z * Z :=
  let h1 := imul (js_xor h1 (js_shru h1 16)) 2246822507 in
  let h1 := js_xor h1 (imul (js_xor h2 (js_shru h2 13)) 3266489909) in
  let h2 := imul (js_xor h2 (js_shru h2 16)) 2246822507 in
  let h2 := js_xor h2 (imul (js_xor h1 (js_shru h1 13)) 3266489909) in
  (h1, h2).

Definition cyrb53 (str : jsstr) (seed : Z) : Z :=
  let h1 := js_xor 0xdeadbeef seed in
  let h2 := js_xor 0x41c6ce57 seed in
  let h := fold_left cyrb53_step str (h1, h2) in
  let '(h1, h2) := cyrb53_mix h.1 h.2 in
  4294967296 * js_and 2097151 h2 + js_shru h1 0.

Definition MAX_HASH : Z := 2 ^ 53.

(** * The ring *)

(** [RingNode | string]. *)
Inductive ring_arg :=
| RingId (id : jsstr)
| RingNode (id : jsstr) (weight : option num).

(** [_nodes]: id to weight, in insertion order. *)
Abbreviation ring := (jmap jsstr num).

Definition newHashRing : ring := [].

Definition add (node : ring_arg) (r : ring) : result unit ring :=
  match node with
  | RingId id => Ok (mset id num_one r)
  | RingNode id w =>
      let weight := default num_one w in
      if negb (isFinite weight) || num_le weight num_zero
      then Throw ()
      else Ok (mset id weight r)
  end.

Definition remove (id : jsstr) (r : ring) : ring * bool := (mdel id r, mhas id r).
Definition has (id : jsstr) (r : ring) : bool := mhas id r.
Definition size (r : ring) : nat := msize r.
Definition nodeIds (r : ring) : list jsstr := mkeys r.

Definition MIN_VALUE : num := S754_finite false 1 (-1074).
Definition EPSILON : num := S754_finite false 4503599627370496 (-104).

(** [weight / -Math.log(unit)], with [unit] clamped into the open interval. *)
Definition unit_of (h : Z) : num :=
  let unit := num_div (num_of_Z h) (num_of_Z MAX_HASH) in
  let unit := if num_le unit num_zero then MIN_VALUE else unit in
  if num_le num_one unit then num_sub num_one EPSILON else unit.

Definition sep : jsstr := js "|".

Section ring.
Context (Math_log : num → num).

Definition score (key id : jsstr) (weight : num) : num :=
  let h := cyrb53 (key ++ sep ++ id) 0 in
  num_div weight (num_neg (Math_log (unit_of h))).

(** The loop of [get]: the first node whose score is above all earlier ones. *)
Fixpoint get_loop (key : jsstr) (nodes : ring) (bestId : option jsstr) (bestScore : num)
    : option jsstr :=
  match nodes with
  | [] => bestId
  | (id, weight) :: nodes' =>
      let s := score key id weight in
      if num_lt bestScore s then get_loop key nodes' (Some id) s
      else get_loop key nodes' bestId bestScore
  end.

Definition get (key : jsstr) (r : ring) : option jsstr :=
  get_loop key r None num_neg_inf.

Record scored_node := Scored { s_id : jsstr; s_score : num }.

Definition scored (key : jsstr) (r : ring) : list scored_node :=
  (λ p, Scored p.1 (score key p.1 p.2)) <$> r.

(** The comparator [b.score - a.score] leaves [a] before [b] unless it is
    positive, that is unless [a.score < b.score]: the difference of two doubles
    is zero only for equal ones, and [Infinity - Infinity] is [NaN], which the
    sort reads as zero. *)
Definition score_le (a b : scored_node) : bool := negb (num_lt (s_score a) (s_score b)).

Definition getN (key : jsstr) (n : Z) (r : ring) : list jsstr :=
  if decide (n ≤ 0) then [] else
  if decide (size r = 0%nat) then [] else
  s_id <$> take (Z.to_nat n) (stable_sort score_le (scored key r)).

(** * The specification of an owner *)

(** A node is eligible when its score is above [-Infinity] (and not [NaN]). *)
Definition eligible (key : jsstr) (p : jsstr * num) : bool :=
  num_lt num_neg_inf (score key p.1 p.2).

(** [p] is the owner: nobody scores higher, nobody earlier scores as high. *)
Definition owner_split (key : jsstr) (r : ring) (p : jsstr * num) : Prop :=
  ∃ before after, r = before ++ p :: after ∧ eligible key p = true
    ∧ Forall (λ q, eligible key q = false ∨
                   num_lt (score key q.1 q.2) (score key p.1 p.2) = true) before
    ∧ Forall (λ q, num_lt (score key p.1 p.2) (score key q.1 q.2) = false) after.
End ring.

(** [Math.log] of a number strictly between 0 and 1 is negative and finite. *)
Definition log_negative (Math_log : num → num) : Prop :=
  ∀ u, num_lt num_zero u = true → num_lt u num_one = true →
       ∃ m e, Math_log u = S754_finite true m e.

(** * Bounds of the hash *)

Lemma to_uint32_range z : 0 ≤ to_uint32 z < two32.
Proof. apply Z.mod_pos_bound. done. Qed.

Lemma land_mask_range z : 0 ≤ js_and 2097151 z < 2097152.
Proof.
  unfold js_and. change (to_int32 2097151) with (Z.ones 21).
  rewrite Z.land_comm, Z.land_ones by lia. change 2097152 with (2 ^ 21).
  by apply Z.mod_pos_bound.
Qed.

Lemma js_shru_0_range z : 0 ≤ js_shru z 0 < two32.
Proof. unfold js_shru. rewrite Z.shiftr_0_r. apply to_uint32_range. Qed.

Lemma cyrb53_range_aux str seed : 0 ≤ cyrb53 str seed < MAX_HASH.
Proof.
  unfold cyrb53. destruct (cyrb53_mix _ _) as [h1 h2].
  pose proof (land_mask_range h2). pose proof (js_shru_0_range h1).
  unfold MAX_HASH, two32 in *. lia.
Qed.

(** * The loop finds the owner *)

Section ring_lemmas.
Context (Math_log : num → num).
Abbreviation score := (score Math_log).
Abbreviation eligible := (eligible Math_log).
Abbreviation owner_split := (owner_split Math_log).
Abbreviation get := (get Math_log).
Abbreviation get_loop := (get_loop Math_log).
Implicit Types (r : ring) (key id : jsstr).

Lemma ineligible_lt key q s :
  eligible key q = false → num_lt num_neg_inf s = true →
  num_lt s (score key q.1 q.2) = false.
Proof.
  unfold eligible. intros Hq Hs. apply not_true_iff_false. intros H.
  by rewrite (num_lt_trans _ _ _ Hs H) in Hq.
Qed.

(** The loop keeps the best so far, or moves to a better suffix element. *)
Lemma get_loop_spec key r b s :
  (get_loop key r b s = b ∧ Forall (λ q, num_lt s (score key q.1 q.2) = false) r) ∨
  (∃ before p after, r = before ++ p :: after ∧ get_loop key r b s = Some p.1
    ∧ num_lt s (score key p.1 p.2) = true
    ∧ Forall (λ q, num_lt s (score key q.1 q.2) = false ∨
                   num_lt (score key q.1 q.2) (score key p.1 p.2) = true) before
    ∧ Forall (λ q, num_lt (score key p.1 p.2) (score key q.1 q.2) = false) after).
Proof.
  revert b s. induction r as [|[id w] r IH]; intros b s; simpl; [by left|].
  destruct (num_lt s (score key id w)) eqn:E.
  - right. destruct (IH (Some id) (score key id w)) as [[Hg Hr]|H].
    + exists [], (id, w), r. split_and!; done.
    + destruct H as (bf & p & af & -> & Hg & Hlt & Hb & Ha).
      exists ((id, w) :: bf), p, af. split_and!; [done|done| | |done].
      { by eapply num_lt_trans. }
      constructor; [by right|]. eapply Forall_impl; [apply Hb|]. simpl.
      intros q [Hq|Hq]; [|by right].
      destruct (isNaN (score key q.1 q.2)) eqn:HN; [left; by apply num_lt_nan_r|].
      right. by eapply num_le_lt_trans.
  - destruct (IH b s) as [[Hg Hr]|H].
    + left. split; [done|by constructor].
    + destruct H as (bf & p & af & -> & Hg & Hlt & Hb & Ha). right.
      exists ((id, w) :: bf), p, af. split_and!; [done..| |done].
      constructor; [by left|done].
Qed.

(** [get] finds exactly the owner of the specification. *)
Lemma get_cases key r :
  (get key r = None ∧ Forall (λ q, eligible key q = false) r) ∨
  (∃ p, get key r = Some p.1 ∧ owner_split key r p).
Proof.
  destruct (get_loop_spec key r None num_neg_inf) as [H|H]; [by left|right].
  destruct H as (bf & p & af & -> & Hg & Hlt & Hb & Ha). exists p. split; [done|].
  by exists bf, af.
Qed.

Lemma owner_split_unique key r p p' :
  owner_split key r p → owner_split key r p' → p = p'.
Proof.
  intros (b & a & -> & He & Hb & Ha) (b' & a' & Heq & He' & Hb' & Ha').
  rewrite Forall_forall in *.
  destruct (split_twice _ _ _ _ _ _ Heq) as [(-> & _)|[[Hp Hp']|[Hp' Hp]]]; [done| |].
  - destruct (Hb' _ Hp) as [H|H]; [congruence|]. by rewrite (Ha _ Hp') in H.
  - destruct (Hb _ Hp') as [H|H]; [congruence|]. by rewrite (Ha' _ Hp) in H.
Qed.

Lemma get_owner key r p : owner_split key r p → get key r = Some p.1.
Proof.
  intros Hs. destruct (get_cases key r) as [[_ H]|(p' & Hg & Hs')].
  - destruct Hs as (b & a & -> & He & _). rewrite Forall_app, Forall_cons in H.
    destruct H as (_ & H & _). congruence.
  - by rewrite Hg, (owner_split_unique _ _ _ _ Hs Hs').
Qed.

Lemma get_Some key r o : get key r = Some o ↔ ∃ w, owner_split key r (o, w).
Proof.
  split.
  - destruct (get_cases key r) as [[-> _]|([o' w] & -> & Hs)]; [done|].
    intros ?. simplify_eq/=. by exists w.
  - intros [w Hs]. by apply get_owner in Hs.
Qed.

Lemma get_member key r o : get key r = Some o → o ∈ nodeIds r.
Proof.
  intros (w & b & a & -> & _)%get_Some. unfold nodeIds, mkeys.
  rewrite fmap_app. set_solver.
Qed.

Lemma mdel_split id b (p : jsstr * num) a :
  id ≠ p.1 → mdel id (b ++ p :: a) = mdel id b ++ p :: mdel id a.
Proof.
  intros Hne. induction b as [|[k v] b IH]; simpl.
  - destruct p as [k v]. simpl in *. by rewrite decide_False.
  - case_decide; simpl; by rewrite IH.
Qed.

Lemma Forall_mdel (Q : jsstr * num → Prop) id r : Forall Q r → Forall Q (mdel id r).
Proof. induction 1 as [|[k v] r Hq Hr IH]; simpl; [constructor|]. case_decide; auto. Qed.

(** Removing a node that is not the owner keeps the owner. *)
Lemma remove_stable id r key o :
  get key r = Some o → o ≠ id → get key (mdel id r) = Some o.
Proof.
  intros (w & b & a & -> & He & Hb & Ha)%get_Some Hne. apply get_Some. exists w.
  rewrite mdel_split by done.
  exists (mdel id b), (mdel id a). split_and!; auto using Forall_mdel.
Qed.

(** Adding a node moves only the keys it takes. *)
Lemma put_stable id w r key o :
  id ∉ nodeIds r → get key (mset id w r) = Some o → o = id ∨ get key r = Some o.
Proof.
  intros Hni. unfold nodeIds in Hni. rewrite <- mget_None_keys in Hni.
  rewrite mset_absent by done. rewrite get_Some.
  intros (w' & b & a & Heq & He & Hb & Ha).
  destruct a as [|z a _] using rev_ind.
  - apply app_inj_tail in Heq as [_ Heq]. left. congruence.
  - right. rewrite app_comm_cons, app_assoc in Heq. apply app_inj_tail in Heq as [-> _].
    apply get_Some. exists w', b, a. split_and!; try done. by apply Forall_app in Ha as [? _].
Qed.


(** * Preference lists *)

Definition number_scores key r : Prop := Forall (λ p, eligible key p = true) r.

Lemma eligible_not_nan key p : eligible key p = true → isNaN (score key p.1 p.2) = false.
Proof. intros H. by apply num_lt_not_nan in H as [_ ?]. Qed.

Definition snum (p : scored_node) : Prop := num_lt num_neg_inf (s_score p) = true.

Lemma snum_scored key r : number_scores key r → Forall snum (scored Math_log key r).
Proof. intros H. apply Forall_fmap. eapply Forall_impl; [apply H|done]. Qed.

Lemma score_le_total x y :
  snum x → snum y → score_le x y = false → score_le y x = true.
Proof.
  unfold score_le. rewrite negb_false_iff, negb_true_iff. intros _ _ H.
  by apply num_lt_asym.
Qed.

Lemma score_le_trans x y z :
  snum x → snum y → snum z →
  score_le x y = true → score_le y z = true → score_le x z = true.
Proof.
  unfold score_le, snum. rewrite !negb_true_iff. intros Hx Hy Hz.
  apply num_ge_trans; by eapply num_lt_not_nan.
Qed.

(** The head of the sorted list is the owner. *)
Lemma sort_head key r :
  number_scores key r → r ≠ [] →
  ∃ p, owner_split key r p ∧
    head (stable_sort score_le (scored Math_log key r)) = Some (Scored p.1 (score key p.1 p.2)).
Proof.
  induction 1 as [|[id w] r Hx Hr IH]; [done|]. intros _. simpl.
  destruct r as [|q0 r0]; [|set (r := q0 :: r0) in *].
  { exists (id, w). split; [|done]. by exists [], []. }
  destruct (IH ltac:(done)) as (p & (b & a & Heq & He & Hb & Ha) & Hh).
  destruct (stable_sort score_le (scored Math_log key r)) as [|h t]; [done|].
  simpl in Hh. injection Hh as ->. simpl. unfold score_le at 1. simpl.
  destruct (num_lt (score key id w) (score key p.1 p.2)) eqn:E; simpl.
  - exists p. split; [|done]. exists ((id, w) :: b), a. rewrite Heq.
    split_and!; [done|done| |done]. constructor; [by right|done].
  - exists (id, w). split; [|done]. exists [], r. split_and!; [done|done|constructor|].
    rewrite Heq. pose proof (eligible_not_nan _ _ Hx) as HnX.
    pose proof (eligible_not_nan _ _ He) as HnP. rewrite Heq in Hr.
    apply Forall_app in Hr as [Hrb [_ Hra]%Forall_cons].
    apply Forall_app. split; [|constructor; [done|]]; rewrite Forall_forall in *.
    + intros q Hq. pose proof (eligible_not_nan _ _ (Hrb _ Hq)).
      destruct (Hb _ Hq) as [H'|H']; [by rewrite Hrb in H'|].
      eapply num_ge_trans; [done| | |apply E|by apply num_lt_asym]; done.
    + intros q Hq. pose proof (eligible_not_nan _ _ (Hra _ Hq)).
      eapply num_ge_trans; [done| | |apply E|by apply Ha]; done.
Qed.

(** The full preference order of a key. *)
Definition preference key r : list jsstr :=
  s_id <$> stable_sort score_le (scored Math_log key r).

Lemma getN_preference key n r : getN Math_log key n r = take (Z.to_nat n) (preference key r).
Proof.
  unfold getN, preference. case_decide as H.
  { by rewrite Z2Nat.nonpos. }
  case_decide as H0.
  - unfold size, msize in H0. destruct r; [simpl; by rewrite take_nil|done].
  - by rewrite fmap_take.
Qed.

Lemma preference_perm key r : preference key r ≡ₚ nodeIds r.
Proof.
  unfold preference, nodeIds, mkeys. rewrite stable_sort_perm.
  unfold scored. by rewrite <- list_fmap_compose.
Qed.

Lemma preference_remove key id r :
  number_scores key r →
  preference key (mdel id r) = filter (λ x, id ≠ x) (preference key r).
Proof.
  intros Hn. unfold preference.
  assert (Hf : scored Math_log key (mdel id r) = filter (λ p, id ≠ s_id p) (scored Math_log key r)).
  { unfold scored. clear Hn. induction r as [|[k w] r IH]; [done|].
    cbn [mdel fmap list_fmap]. rewrite filter_cons. simpl.
    destruct (decide (id = k)) as [->|].
    - rewrite decide_False by (by intros []). done.
    - rewrite decide_True by done. cbn [fmap list_fmap]. f_equal. done. }
  rewrite Hf, <- (stable_sort_filter _ snum score_le_total score_le_trans);
    [|by apply snum_scored].
  generalize (stable_sort score_le (scored Math_log key r)). intros l.
  induction l as [|x l IH]; [done|]. rewrite fmap_cons, !filter_cons.
  repeat case_decide; simpl; try done. by f_equal.
Qed.
End ring_lemmas.

(** * Well-formed rings *)

Definition weight_ok (w : num) : Prop := isFinite w = true ∧ num_lt num_zero w = true.
Definition ring_ok (r : ring) : Prop := mwf r ∧ Forall (λ p, weight_ok p.2) r.

Lemma Forall_mset (Q : jsstr * num → Prop) id w r :
  Forall Q r → (∀ k, Q (k, w)) → Forall Q (mset id w r).
Proof.
  intros H Hw. induction H as [|[k v] r Hq Hr IH]; simpl; [by repeat constructor|].
  case_decide; by constructor.
Qed.

Lemma weight_le_zero w : isFinite w = true → num_le w num_zero = false → weight_ok w.
Proof. destruct w as [[]|[]| |[] m e]; simpl; unfold weight_ok; try done. Qed.

Lemma unit_open h : 0 ≤ h < MAX_HASH →
  num_lt num_zero (unit_of h) = true ∧ num_lt (unit_of h) num_one = true.
Proof.
  intros Hh. unfold unit_of.
  assert (Hn : isNaN (num_div (num_of_Z h) (num_of_Z MAX_HASH)) = false).
  { change (num_of_Z MAX_HASH) with (S754_finite false 4503599627370496 1).
    apply num_div_not_nan. unfold num_of_Z, binary_normalize, binary_round.
    destruct h as [|p|p]; [done| |lia].
    destruct (shl_align _ _ _). by apply binary_round_aux_not_nan. }
  destruct (num_le _ num_zero) eqn:E0; cbv zeta; [by vm_compute|].
  apply num_le_false in E0; [|done..].
  destruct (num_le num_one _) eqn:E1; [by vm_compute|].
  apply num_le_false in E1; done.
Qed.

Lemma score_number Math_log key id w :
  log_negative Math_log → weight_ok w →
  num_lt num_neg_inf (score Math_log key id w) = true.
Proof.
  intros Hlog [Hf Hw]. unfold score.
  destruct (unit_open (cyrb53 (key ++ sep ++ id) 0)) as [H0 H1]; [apply cyrb53_range_aux|].
  destruct (Hlog _ H0 H1) as (m & e & ->). simpl.
  destruct w as [[]|[]| |[] mw ew]; try done. apply num_div_pos.
Qed.

Lemma ring_ok_scores Math_log key r :
  log_negative Math_log → ring_ok r → number_scores Math_log key r.
Proof.
  intros Hlog [_ H]. eapply Forall_impl; [apply H|]. intros p Hp. by apply score_number.
Qed.

Lemma add_ok arg r r' : ring_ok r → add arg r = Ok r' → ring_ok r'.
Proof.
  intros [Hwf Hall] H. destruct arg as [id|id w]; simpl in H; simplify_eq.
  - split; [by apply mwf_mset|]. by apply Forall_mset.
  - destruct (isFinite (default num_one w)) eqn:Ef; simpl in H; [|done].
    destruct (num_le (default num_one w) num_zero) eqn:El; simpl in H; [done|].
    simplify_eq. split; [by apply mwf_mset|]. apply Forall_mset; [done|].
    intros k. by apply weight_le_zero.
Qed.

Lemma remove_ok id r : ring_ok r → ring_ok (remove id r).1.
Proof. intros [Hwf Hall]. split; [by apply mwf_mdel|]. by apply Forall_mdel. Qed.

(** A concrete logarithm for the witnesses: the first-order approximation
    [u - 1] where it is negative, and [-1] elsewhere. *)
Definition log_approx (u : num) : num :=
  match num_sub u num_one with
  | S754_finite true m e => S754_finite true m e
  | _ => num_neg num_one
  end.

Lemma log_approx_negative : log_negative log_approx.
Proof.
  intros u _ _. unfold log_approx.
  destruct (num_sub u num_one) as [| | |[] m e]; eauto; by vm_compute; eauto.
Qed.

Definition ring3 : ring :=
  [(js "sfu-1", num_one); (js "sfu-2", num_one); (js "sfu-3", num_of_Z 2)].

Lemma ring3_ok : ring_ok ring3.
Proof. split; [by apply (bool_decide_unpack _)|]. repeat constructor. Qed.

(** * The ring as an [OwnerRing] *)

Section owner_ring.
Context (Math_log : num → num).

#[export] Instance hash_owner_ring : OwnerRing ring num := {
  ring_empty := newHashRing;
  ring_ids := nodeIds;
  ring_put := mset;
  ring_drop := mdel;
  ring_owner r key := get Math_log key r;
}.

#[export] Instance hash_owner_ring_laws : OwnerRingLaws ring num weight_ok.
Proof.
  constructor; simpl.
  - done.
  - intros id w r x. unfold nodeIds. rewrite mkeys_mset.
    case_decide; [set_solver|]. rewrite elem_of_app, list_elem_of_singleton. tauto.
  - intros id r x. unfold nodeIds. rewrite mkeys_mdel, list_elem_of_filter. naive_solver.
  - intros r key o. apply get_member.
  - intros id r key o. apply remove_stable.
  - intros id w r key o. apply put_stable.
Qed.
End owner_ring.

(** * Correctness of the ring *)

(** functional correctness of [get]. On a ring built by [add] and [remove], a key has
    no owner only when the ring is empty; otherwise the owner is the node with
    the highest score, the earliest inserted one among equals. *)
Theorem hashring_get_owner (Math_log : num → num) (key : jsstr) (r : ring) :
  log_negative Math_log → ring_ok r →
  match get Math_log key r with
  | None => r = []
  | Some o => ∃ w, owner_split Math_log key r (o, w)
  end.
Proof.
  intros Hlog Hok. destruct (get_cases Math_log key r) as [[-> Hn]|([o w] & -> & Hs)];
    [|by exists w].
  pose proof (ring_ok_scores _ key r Hlog Hok) as Hs. destruct r as [|p r]; [done|].
  apply Forall_cons in Hn as [Hn _]. apply Forall_cons in Hs as [Hs _]. congruence.
Qed.

Lemma hashring_get_owner_witness :
  ∃ w, owner_split log_approx (js "room:abc") ring3 (js "sfu-3", w).
Proof. exact (hashring_get_owner log_approx (js "room:abc") ring3 log_approx_negative ring3_ok). Defined.

(** preference lists. [getN] returns distinct nodes of the ring, as many as asked for
    and available, the first being the owner, and a longer list extends a
    shorter one. *)
Theorem hashring_getN (Math_log : num → num) (key : jsstr) (r : ring) (n m : Z) :
  log_negative Math_log → ring_ok r → 1 ≤ n ≤ m →
  NoDup (getN Math_log key n r)
  ∧ length (getN Math_log key n r) = Nat.min (Z.to_nat n) (size r)
  ∧ (∀ x, x ∈ getN Math_log key n r → has x r = true)
  ∧ head (getN Math_log key n r) = get Math_log key r
  ∧ getN Math_log key n r = take (Z.to_nat n) (getN Math_log key m r).
Proof.
  intros Hlog Hok Hnm. pose proof (ring_ok_scores _ key r Hlog Hok) as Hs.
  rewrite !getN_preference. pose proof (preference_perm Math_log key r) as Hp.
  split_and!.
  - eapply sublist_NoDup; [|apply sublist_take]. rewrite Hp. apply Hok.
  - rewrite length_take, Hp. unfold nodeIds. by rewrite <- msize_mkeys.
  - intros x Hx. apply elem_of_take in Hx as (i & Hi & _).
    apply list_elem_of_lookup_2 in Hi. rewrite Hp in Hi.
    unfold has. by apply mhas_true, mget_is_Some_keys.
  - destruct (decide (r = [])) as [->|Hne]; [by destruct (Z.to_nat n)|].
    destruct (sort_head Math_log key r Hs Hne) as (p & Hsp & Hh).
    rewrite (get_owner _ _ _ _ Hsp). unfold preference.
    destruct (stable_sort _ _) as [|h t]; [done|]. simpl in Hh. simplify_eq.
    replace (Z.to_nat n) with (S (Z.to_nat (n - 1))) by lia. done.
  - rewrite take_take. f_equal. lia.
Qed.

Lemma hashring_getN_witness :
  getN log_approx (js "room:abc") 1 ring3
  = take 1 (getN log_approx (js "room:abc") 2 ring3).
Proof.
  exact (proj2 (proj2 (proj2 (proj2 (hashring_getN log_approx (js "room:abc") ring3 1 2
    log_approx_negative ring3_ok ltac:(lia)))))).
Defined.

(** C35: minimal disruption. Removing a node deletes it from every preference list and
    leaves the relative order of the others, so only its own keys move, each to
    its next preference; adding a node moves a key only to that node. *)
Theorem hashring_minimal_disruption (Math_log : num → num) (key id : jsstr) (w : num) (r : ring) :
  log_negative Math_log → ring_ok r →
  (∀ n, getN Math_log key n (remove id r).1
        = take (Z.to_nat n) (filter (λ x, id ≠ x) (getN Math_log key (Z.of_nat (size r)) r)))
  ∧ (has id r = false → ∀ r' o, add (RingNode id (Some w)) r = Ok r' →
     get Math_log key r' = Some o → o = id ∨ get Math_log key r = Some o).
Proof.
  intros Hlog Hok. pose proof (ring_ok_scores _ key r Hlog Hok) as Hs. split.
  - intros n. rewrite !getN_preference. simpl. rewrite preference_remove by done.
    f_equal. rewrite take_ge; [done|]. rewrite preference_perm. unfold nodeIds.
    rewrite <- msize_mkeys. unfold size. lia.
  - intros Hid r' o Hadd. simpl in Hadd. case_match; [done|]. simplify_eq.
    apply put_stable. unfold nodeIds. by rewrite <- mget_None_keys, <- mhas_false.
Qed.

Lemma hashring_minimal_disruption_witness :
  getN log_approx (js "room:abc") 1 (remove (js "sfu-3") ring3).1 = [js "sfu-2"].
Proof.
  pose proof (proj1 (hashring_minimal_disruption log_approx (js "room:abc") (js "sfu-3")
    num_one ring3 log_approx_negative ring3_ok) 1) as H.
  rewrite H. vm_compute. reflexivity.
Defined.
