(* ===== verification/Lock.v ===== *)
(** The in-process lock with fencing tokens and expiry
    (packages/core/src/Lock.ts).  The token drawn by [randomToken] comes from
    the host's random source: it is an argument of [acquire]. *)

From S2P Require Import Prelude JsMap.

Record Holding := mkHolding { h_token : jsstr; h_expiresAt : Z }.

Abbreviation locks := (jmap jsstr Holding).

Definition acquire (now : Z) (randomToken : jsstr) (key : jsstr) (ttlMs : Z) (held : locks)
    : locks * option jsstr :=
  let fresh := (mset key (mkHolding randomToken (now + ttlMs)) held, Some randomToken) in
  match mget key held with
  | Some current => if decide (now < h_expiresAt current) then (held, None) else fresh
  | None => fresh
  end.

Definition release (key token : jsstr) (held : locks) : locks :=
  match mget key held with
  | Some current => if decide (h_token current = token) then mdel key held else held
  | None => held
  end.

Definition noop_acquire : option jsstr := Some (js "noop").
Definition noop_release (held : locks) : locks := held.

(** Calls on the lock, with the clock reading and the token each one sees. *)
Inductive lock_call :=
| CAcquire (now : Z) (token key : jsstr) (ttlMs : Z)
| CRelease (key token : jsstr).

Definition lock_step (c : lock_call) (held : locks) : locks * option jsstr :=
  match c with
  | CAcquire now tok key ttl => acquire now tok key ttl held
  | CRelease key tok => (release key tok held, None)
  end.

Definition lock_run (cs : list lock_call) (held : locks) : locks :=
  fold_left (λ h c, (lock_step c h).1) cs held.

(** [c] comes before [deadline] and does not hand back [token]. *)
Definition harmless (key token : jsstr) (deadline : Z) (c : lock_call) : Prop :=
  match c with
  | CAcquire now _ _ _ => now < deadline
  | CRelease k t => k ≠ key ∨ t ≠ token
  end.

(** * Exclusion *)

Lemma harmless_keeps key token deadline c held :
  harmless key token deadline c →
  mget key held = Some (mkHolding token deadline) →
  mget key (lock_step c held).1 = Some (mkHolding token deadline)
  ∧ (∀ now tok ttl, c = CAcquire now tok key ttl → (lock_step c held).2 = None).
Proof.
  destruct c as [now tok k ttl|k t]; simpl; intros Hh Hg; unfold acquire, release.
  - destruct (decide (key = k)) as [<-|Hne].
    + rewrite Hg. simpl. rewrite decide_True by done. naive_solver.
    + split; [|naive_solver]. destruct (mget k held); [case_decide|]; simpl;
        rewrite ?mget_mset_ne by done; done.
  - split; [|done]. destruct (decide (key = k)) as [<-|Hne].
    + rewrite Hg. simpl. rewrite decide_False; [done|]. naive_solver.
    + destruct (mget k held); [case_decide|]; rewrite ?mget_mdel_ne by done; done.
Qed.

Lemma harmless_run key token deadline cs held :
  Forall (harmless key token deadline) cs →
  mget key held = Some (mkHolding token deadline) →
  mget key (lock_run cs held) = Some (mkHolding token deadline).
Proof.
  intros H. revert held. induction H as [|c cs Hc Hcs IH]; intros held Hg; [done|].
  apply IH. by apply (harmless_keeps _ _ _ _ _ Hc Hg).
Qed.

(** mutual exclusion. Once [acquire] hands out a token, every other acquisition of the
    key before the expiry fails, whatever calls come in between, unless the
    token itself is released. *)
Theorem lock_exclusion (held : locks) (key tok tok2 : jsstr) (now now2 ttl ttl2 : Z)
    (cs : list lock_call) (held1 : locks) :
  acquire now tok key ttl held = (held1, Some tok) →
  Forall (harmless key tok (now + ttl)) cs → now2 < now + ttl →
  acquire now2 tok2 key ttl2 (lock_run cs held1) = (lock_run cs held1, None).
Proof.
  intros Ha Hcs Hn.
  assert (Hg : mget key held1 = Some (mkHolding tok (now + ttl))).
  { revert Ha. unfold acquire. destruct (mget key held); [case_decide|];
      intros; simplify_eq; apply mget_mset_eq. }
  unfold acquire. rewrite (harmless_run _ _ _ _ _ Hcs Hg). simpl.
  by rewrite decide_True.
Qed.

Lemma lock_exclusion_witness :
  (acquire 4 (js "t2") (js "room") 5
    (lock_run [CRelease (js "room") (js "other")] (acquire 0 (js "t1") (js "room") 5 []).1)).2
  = None.
Proof.
  rewrite (lock_exclusion [] (js "room") (js "t1") (js "t2") 0 4 5 5
    [CRelease (js "room") (js "other")] (acquire 0 (js "t1") (js "room") 5 []).1 eq_refl);
    [done| |lia].
  constructor; [right; discriminate|constructor].
Defined.

(** fencing. A release with a token that is not the current holder's changes nothing,
    the matching release frees the key at once, and an expired holding is free
    for the next caller. *)
Theorem lock_fencing (held : locks) (key tok other : jsstr) (now ttl : Z) (h : Holding) :
  mget key held = Some h →
  (other ≠ h_token h → release key other held = held)
  ∧ (acquire now tok key ttl (release key (h_token h) held)).2 = Some tok
  ∧ (h_expiresAt h ≤ now → (acquire now tok key ttl held).2 = Some tok).
Proof.
  intros Hg. unfold acquire, release. rewrite Hg. split_and!.
  - intros. by rewrite decide_False.
  - rewrite decide_True by done. by rewrite mget_mdel_eq.
  - intros. by rewrite decide_False by lia.
Qed.

Lemma lock_fencing_witness :
  release (js "k") (js "b") [(js "k", mkHolding (js "a") 9)]
  = [(js "k", mkHolding (js "a") 9)].
Proof.
  apply (proj1 (lock_fencing [(js "k", mkHolding (js "a") 9)] (js "k") (js "t") (js "b") 0 1
    (mkHolding (js "a") 9) eq_refl)).
  discriminate.
Defined.
