(* ===== verification/StateStore.v ===== *)
(** The in-process key/value store with lazy expiry
    (packages/core/src/StateStore.ts). *)

From S2P Require Import Prelude JsMap.

Section store.
Context {V : Type}.

Record Entry := mkEntry { e_value : V; e_expiresAt : option Z }.

Abbreviation store := (jmap jsstr Entry).

Definition expired (now : Z) (e : Entry) : bool :=
  match e_expiresAt e with
  | Some t => bool_decide (t ≤ now)
  | None => false
  end.

Definition store_purge (now : Z) (m : store) : store :=
  mkeep (λ _ e, negb (expired now e)) m.

(** [_live]: evicts the entry it finds expired. *)
Definition store_live (now : Z) (key : jsstr) (m : store) : store * option Entry :=
  match mget key m with
  | None => (m, None)
  | Some e => if expired now e then (mdel key m, None) else (m, Some e)
  end.

Definition store_get (now : Z) (key : jsstr) (m : store) : store * option V :=
  let '(m', e) := store_live now key m in (m', e_value <$> e).

Definition store_set (now : Z) (key : jsstr) (value : V) (ttlMs : option Z) (m : store) : store :=
  mset key (mkEntry value ((λ t, now + t) <$> ttlMs)) m.

Definition store_delete (key : jsstr) (m : store) : store := mdel key m.

Definition store_has (now : Z) (key : jsstr) (m : store) : store * bool :=
  let '(m', e) := store_live now key m in
  (m', match e with Some _ => true | None => false end).

(** [key.startsWith(prefix)]. *)
Fixpoint startsWith (prefix key : jsstr) : bool :=
  match prefix, key with
  | [], _ => true
  | p :: prefix', k :: key' => if decide (p = k) then startsWith prefix' key' else false
  | _ :: _, [] => false
  end.

(** The loop of [keys] walks the keys present at the start; the only change
    it makes to the map is to evict the key it is looking at. *)
Fixpoint keys_loop (now : Z) (prefix : option jsstr) (ks : list jsstr) (m : store)
    : store * list jsstr :=
  match ks with
  | [] => (m, [])
  | k :: ks' =>
      match prefix with
      | Some p =>
          if negb (startsWith p k) then keys_loop now prefix ks' m
          else let '(m1, e) := store_live now k m in
               let '(m2, out) := keys_loop now prefix ks' m1 in
               (m2, match e with Some _ => k :: out | None => out end)
      | None =>
          let '(m1, e) := store_live now k m in
          let '(m2, out) := keys_loop now prefix ks' m1 in
          (m2, match e with Some _ => k :: out | None => out end)
      end
  end.

Definition store_keys (now : Z) (prefix : option jsstr) (m : store) : store * list jsstr :=
  keys_loop now prefix (mkeys m) m.

(** * Specification: a map of values with a deadline each *)

(** What a reader sees under [key] at time [now]. *)
Definition view (now : Z) (m : store) (key : jsstr) : option V :=
  match mget key m with
  | Some e => if expired now e then None else Some (e_value e)
  | None => None
  end.

(** Keys that an enumeration must show. *)
Definition listed (now : Z) (prefix : option jsstr) (m : store) (key : jsstr) : bool :=
  match view now m key with
  | None => false
  | Some _ => match prefix with Some p => startsWith p key | None => true end
  end.

(** Two stores that no reader can tell apart from [now] on. *)
Definition store_equiv (now : Z) (m1 m2 : store) : Prop :=
  ∀ t key, now ≤ t → view t m1 key = view t m2 key.

#[export] Instance store_equiv_equivalence now : Equivalence (store_equiv now).
Proof.
  split.
  - by intros m t key.
  - intros m1 m2 H t key Ht. by rewrite H.
  - intros m1 m2 m3 H1 H2 t key Ht. by rewrite H1, H2.
Qed.

Lemma expired_mono now t e : now ≤ t → expired now e = true → expired t e = true.
Proof.
  unfold expired. destruct (e_expiresAt e); [|done].
  rewrite !bool_decide_eq_true. lia.
Qed.

Lemma view_mdel_other t k key m : key ≠ k → view t (mdel k m) key = view t m key.
Proof. intros. unfold view. by rewrite mget_mdel_ne. Qed.

Lemma live_equiv now key m : store_equiv now (store_live now key m).1 m.
Proof.
  intros t k Ht. unfold store_live. destruct (mget key m) as [e|] eqn:E; [|done].
  destruct (expired now e) eqn:Ex; [|done]. simpl.
  destruct (decide (k = key)) as [->|]; [|by apply view_mdel_other].
  unfold view. rewrite mget_mdel_eq, E. by rewrite (expired_mono now).
Qed.

Lemma live_view now key m : e_value <$> (store_live now key m).2 = view now m key.
Proof. unfold store_live, view. destruct (mget key m); [case_match|]; done. Qed.

#[export] Instance store_set_proper now key v ttl :
  Proper (store_equiv now ==> store_equiv now) (store_set now key v ttl).
Proof.
  intros m1 m2 H t k Ht. unfold view, store_set. rewrite !mget_mset.
  case_decide; [done|]. by apply H.
Qed.

#[export] Instance store_delete_proper now key :
  Proper (store_equiv now ==> store_equiv now) (store_delete key).
Proof.
  intros m1 m2 H t k Ht. unfold view, store_delete. rewrite !mget_mdel.
  case_decide; [done|]. by apply H.
Qed.

Lemma store_live_wf now key m : mwf m → mwf (store_live now key m).1.
Proof. unfold store_live. intros. repeat case_match; simpl; auto with rtc. Qed.

(** the store is a map with deadlines. Reads return the live value and, although they
    evict, leave a store no reader can tell from the old one; a write is read
    back until its deadline and not from it on; other keys are not affected. *)
Theorem store_refines_view (now : Z) (key : jsstr) (v : V) (ttl : option Z) (m : store) :
  (store_get now key m).2 = view now m key
  ∧ store_equiv now (store_get now key m).1 m
  ∧ (store_has now key m).2 = bool_decide (is_Some (view now m key))
  ∧ (∀ t, view t (store_set now key v ttl m) key
          = match ttl with Some d => if decide (now + d ≤ t) then None else Some v
                         | None => Some v end)
  ∧ (∀ t k, k ≠ key → view t (store_set now key v ttl m) k = view t m k)
  ∧ (∀ t, view t (store_delete key m) key = None).
Proof.
  unfold store_get, store_has. pose proof (live_view now key m) as Hv.
  pose proof (live_equiv now key m) as He.
  destruct (store_live now key m) as [m' e]. simpl in *. split_and!; [done|done| | | |].
  - rewrite <- Hv. by destruct e.
  - intros t. unfold view, store_set. rewrite mget_mset_eq. unfold expired. simpl.
    destruct ttl; [|done]. simpl. unfold bool_decide. by repeat case_decide.
  - intros t k Hk. unfold view, store_set. by rewrite mget_mset_ne.
  - intros t. unfold view, store_delete. by rewrite mget_mdel_eq.
Qed.

Lemma view_purge now t key m : mwf m → now ≤ t → view t (store_purge now m) key = view t m key.
Proof.
  intros Hwf Ht. unfold view, store_purge. rewrite mget_mkeep by done.
  destruct (mget key m) as [e|]; [|done]. destruct (expired now e) eqn:E; simpl; [|done].
  by rewrite (expired_mono now).
Qed.

Lemma keys_loop_spec now prefix ks m :
  store_equiv now (keys_loop now prefix ks m).1 m
  ∧ (keys_loop now prefix ks m).2 = filter (λ k, listed now prefix m k = true) ks.
Proof.
  revert m. induction ks as [|k ks IH]; intros m; [done|].
  pose proof (live_equiv now k m) as Hrec.
  assert (Hstep : filter (λ x, listed now prefix (store_live now k m).1 x = true) ks
    = filter (λ x, listed now prefix m x = true) ks).
  { apply list_filter_iff. intros x. cbv beta. unfold listed. by rewrite (Hrec now x ltac:(lia)). }
  pose proof (live_view now k m) as Hk.
  assert (Hl : listed now prefix m k = match (store_live now k m).2 with
    | None => false
    | Some _ => match prefix with Some p => startsWith p k | None => true end end).
  { unfold listed. rewrite <- Hk. by destruct (store_live now k m).2. }
  rewrite filter_cons, Hl. cbn [keys_loop]. clear Hk Hl.
  destruct (store_live now k m) as [m1 e] eqn:El; simpl in *.
  destruct (IH m) as [IHm1 IHm2], (IH m1) as [IH1 IH2]. clear IH.
  destruct prefix as [p|]; [destruct (startsWith p k) eqn:Ep; simpl|]; simpl.
  2: { destruct (keys_loop _ _ ks m); simpl in *. split; [done|]. by destruct e. }
  all: destruct (keys_loop _ _ ks m1) as [m2 out]; simpl in *;
    (split; [by etrans|]); rewrite IH2, Hstep; by destruct e.
Qed.

(** enumeration and sweeping. [keys] lists, in insertion order, exactly the live keys
    with the prefix, and neither it nor the background sweep changes what any
    later read returns. *)
Theorem store_keys_and_purge (now : Z) (prefix : option jsstr) (m : store) :
  mwf m →
  (store_keys now prefix m).2
  = filter (λ k, listed now prefix m k = true) (mkeys m)
  ∧ store_equiv now (store_keys now prefix m).1 m
  ∧ store_equiv now (store_purge now m) m
  ∧ mwf (store_purge now m).
Proof.
  intros Hwf. destruct (keys_loop_spec now prefix (mkeys m) m) as [H1 H2].
  split_and!; [done|done| |by apply mwf_mkeep].
  intros t k Ht. by apply view_purge.
Qed.
End store.
Arguments Entry : clear implicits.

Lemma store_keys_and_purge_witness :
  (store_keys 10 (Some (js "a"))
     [(js "a1", mkEntry 1 (Some 5)); (js "b", mkEntry 2 None); (js "a2", mkEntry 3 (Some 11))]).2
  = [js "a2"].
Proof.
  assert (Hwf : mwf [(js "a1", mkEntry 1 (Some 5)); (js "b", mkEntry 2 None);
                     (js "a2", mkEntry 3 (Some 11))]) by (by apply (bool_decide_unpack _)).
  rewrite (proj1 (store_keys_and_purge 10 (Some (js "a")) _ Hwf)). vm_compute. reflexivity.
Defined.
