(* ===== verification/Clock.v ===== *)
(** The clock interface and the manually advanced clock
    (packages/core/src/Clock.ts).

    Callbacks are closures of the client: they are kept as codes [F] that
    [run_fn] interprets.  Running one changes the client's world [W] and makes
    a list of clock calls; during it the clock reads the time it was due at. *)

From Stdlib Require Import Sorted.
From S2P Require Import Prelude.

Section clock.
Context {F W : Type}.

Inductive clock_call :=
| SetTimeout (fn : F) (ms : Z)
| ClearTimeout (handle : Z).

Context (run_fn : F → Z → W → W * list clock_call).

Record ScheduledTask := mkTask { t_id : Z; t_fireAt : Z; t_fn : F }.

Record ManualClock := mkClock {
  c_now : Z;
  c_nextId : Z;
  c_tasks : list ScheduledTask;
}.

Definition newManualClock (startMs : Z) : ManualClock := mkClock startMs 1 [].

Definition setTimeout (fn : F) (ms : Z) (c : ManualClock) : ManualClock * Z :=
  let id := c_nextId c in
  (mkClock (c_now c) (id + 1) (c_tasks c ++ [mkTask id (c_now c + Z.max 0 ms) fn]), id).

Definition clearTimeout (handle : Z) (c : ManualClock) : ManualClock :=
  mkClock (c_now c) (c_nextId c) (filter (λ t, t_id t ≠ handle) (c_tasks c)).

Definition clock_do (k : clock_call) (c : ManualClock) : ManualClock :=
  match k with
  | SetTimeout fn ms => (setTimeout fn ms c).1
  | ClearTimeout h => clearTimeout h c
  end.

Definition due_le (a b : ScheduledTask) : bool := bool_decide (t_fireAt a ≤ t_fireAt b).

(** [filter(...).sort(...)[0]]. *)
Definition next_due (target : Z) (c : ManualClock) : option ScheduledTask :=
  head (stable_sort due_le (filter (λ t, t_fireAt t ≤ target) (c_tasks c))).

(** One round of the loop of [advance]. *)
Definition fire (next : ScheduledTask) (c : ManualClock) (w : W) : ManualClock * W :=
  let c1 := mkClock (t_fireAt next) (c_nextId c)
              (filter (λ t, t_id t ≠ t_id next) (c_tasks c)) in
  let '(w', ks) := run_fn (t_fn next) (t_fireAt next) w in
  (fold_left (λ c k, clock_do k c) ks c1, w').

(** The loop, with the tasks it fired; [None] when the fuel runs out. *)
Fixpoint advance_loop (fuel : nat) (target : Z) (c : ManualClock) (w : W)
    : option (ManualClock * W * list ScheduledTask) :=
  match fuel with
  | O => None
  | S fuel' =>
      match next_due target c with
      | None => Some (mkClock target (c_nextId c) (c_tasks c), w, [])
      | Some next =>
          let '(c', w') := fire next c w in
          match advance_loop fuel' target c' w' with
          | Some (c2, w2, fired) => Some (c2, w2, next :: fired)
          | None => None
          end
      end
  end.

Definition advance (fuel : nat) (ms : Z) (c : ManualClock) (w : W)
    : option (ManualClock * W * list ScheduledTask) :=
  advance_loop fuel (c_now c + ms) c w.

(** * Well-formed clocks *)

Record clock_ok (c : ManualClock) : Prop := {
  ok_future : Forall (λ t, c_now c ≤ t_fireAt t) (c_tasks c);
  ok_ids : Forall (λ t, t_id t < c_nextId c) (c_tasks c);
  ok_nodup : NoDup (t_id <$> c_tasks c);
}.

Lemma newManualClock_ok s : clock_ok (newManualClock s).
Proof. constructor; simpl; constructor. Qed.

Lemma Forall_filter_keep {A} (P Q : A → Prop) `{∀ x, Decision (Q x)} l :
  Forall P l → Forall P (filter Q l).
Proof. rewrite !Forall_forall. intros H' x [_ Hx]%list_elem_of_filter. auto. Qed.

Lemma NoDup_filter_ids (Q : ScheduledTask → Prop) `{∀ x, Decision (Q x)} l :
  NoDup (t_id <$> l) → NoDup (t_id <$> filter Q l).
Proof.
  intros Hn. eapply sublist_NoDup; [apply Hn|]. apply fmap_sublist, sublist_filter.
Qed.

Lemma setTimeout_ok fn ms c : clock_ok c → clock_ok (setTimeout fn ms c).1.
Proof.
  intros [Hf Hi Hn]. constructor; simpl.
  - apply Forall_app. split; [done|]. constructor; [simpl; lia|constructor].
  - apply Forall_app. split; [|constructor; [simpl; lia|constructor]].
    eapply Forall_impl; [apply Hi|]. simpl; lia.
  - rewrite fmap_app. apply NoDup_snoc; [done|]. rewrite list_elem_of_fmap.
    intros (t & Ht & Hin). rewrite Forall_forall in Hi. specialize (Hi _ Hin). simpl in Ht. lia.
Qed.

Lemma clearTimeout_ok h c : clock_ok c → clock_ok (clearTimeout h c).
Proof.
  intros [Hf Hi Hn]. constructor; simpl; [by apply Forall_filter_keep..|].
  by apply NoDup_filter_ids.
Qed.

Lemma clock_do_ok k c : clock_ok c → clock_ok (clock_do k c).
Proof. destruct k; [apply setTimeout_ok|apply clearTimeout_ok]. Qed.

Lemma clock_dos_ok ks c : clock_ok c → clock_ok (fold_left (λ c k, clock_do k c) ks c).
Proof. revert c. induction ks as [|k ks IH]; intros c Hc; simpl; auto using clock_do_ok. Qed.

Lemma clock_dos_now ks c : c_now (fold_left (λ c k, clock_do k c) ks c) = c_now c.
Proof. revert c. induction ks as [|[] ks IH]; intros c; simpl; [done|by rewrite IH..]. Qed.

Lemma due_le_total x y : True → True → due_le x y = false → due_le y x = true.
Proof. unfold due_le. rewrite bool_decide_eq_false, bool_decide_eq_true. lia. Qed.

Lemma due_le_trans x y z :
  True → True → True → due_le x y = true → due_le y z = true → due_le x z = true.
Proof. unfold due_le. rewrite !bool_decide_eq_true. lia. Qed.

(** [next_due] is a due task with the earliest deadline, if there is one. *)
Lemma next_due_Some target c t :
  next_due target c = Some t →
  t ∈ c_tasks c ∧ t_fireAt t ≤ target
  ∧ Forall (λ u, t_fireAt t ≤ t_fireAt u) (c_tasks c).
Proof.
  unfold next_due. set (l := filter _ _). intros Hh.
  pose proof (stable_sort_perm due_le l) as Hp.
  pose proof (stable_sort_sorted due_le (λ _, True) due_le_total due_le_trans l
    ltac:(by apply Forall_true)) as Hs.
  destruct (stable_sort due_le l) as [|h s]; [done|]. simpl in Hh. simplify_eq.
  assert (Hin : t ∈ l) by (rewrite <- Hp; left).
  apply list_elem_of_filter in Hin as [Hle Hin]. split_and!; [done|done|].
  apply StronglySorted_inv in Hs as [_ Hall]. rewrite Forall_forall in Hall |- *.
  intros u Hu. destruct (decide (t_fireAt u ≤ target)); [|lia].
  assert (Hul : u ∈ l) by (by apply list_elem_of_filter).
  rewrite <- Hp in Hul. apply elem_of_cons in Hul as [->|Hul]; [lia|].
  specialize (Hall _ Hul). unfold due_le in Hall. by apply bool_decide_eq_true in Hall.
Qed.

Lemma next_due_None target c :
  next_due target c = None → Forall (λ u, target < t_fireAt u) (c_tasks c).
Proof.
  unfold next_due. set (l := filter _ _). intros Hh.
  pose proof (stable_sort_perm due_le l) as Hp.
  destruct (stable_sort due_le l) as [|h s]; [|done].
  apply Permutation_nil in Hp. apply Forall_forall. intros u Hu.
  destruct (decide (t_fireAt u ≤ target)); [|lia].
  assert (Hul : u ∈ l) by (by apply list_elem_of_filter). rewrite Hp in Hul.
  by apply not_elem_of_nil in Hul.
Qed.

Lemma fire_ok target c w t :
  clock_ok c → next_due target c = Some t →
  clock_ok (fire t c w).1 ∧ c_now (fire t c w).1 = t_fireAt t.
Proof.
  intros [Hf Hi Hn] Ht. apply next_due_Some in Ht as (Hin & Hle & Hmin).
  unfold fire. destruct (run_fn _ _ _) as [w' ks]. simpl. split.
  - apply clock_dos_ok. constructor; simpl; [by apply Forall_filter_keep..|].
    by apply NoDup_filter_ids.
  - by rewrite clock_dos_now.
Qed.

Lemma advance_loop_spec fuel target c w c2 w2 fired :
  clock_ok c → c_now c ≤ target → advance_loop fuel target c w = Some (c2, w2, fired) →
  clock_ok c2 ∧ c_now c2 = target
  ∧ Forall (λ t, target < t_fireAt t) (c_tasks c2)
  ∧ StronglySorted Z.le (c_now c :: (t_fireAt <$> fired))
  ∧ Forall (λ t, t_fireAt t ≤ target) fired.
Proof.
  revert c w c2 w2 fired. induction fuel as [|fuel IH]; intros c w c2 w2 fired Hok Hle; simpl; [done|].
  destruct (next_due target c) as [t|] eqn:Et.
  - pose proof (fire_ok target c w t Hok Et) as [Hok' Hnow].
    pose proof (next_due_Some _ _ _ Et) as (Hin & Hlt & _).
    destruct (fire t c w) as [c' w']. simpl in *.
    destruct (advance_loop fuel target c' w') as [[[c3 w3] fs]|] eqn:Ea; [|done].
    intros ?. simplify_eq.
    destruct (IH _ _ _ _ _ Hok' ltac:(lia) Ea) as (H1 & H2 & H3 & H4 & H5).
    split_and!; [done..| |by constructor]. rewrite Hnow in H4. constructor; [done|].
    pose proof (ok_future _ Hok) as Hf. rewrite Forall_forall in Hf. specialize (Hf _ Hin).
    constructor; [done|]. apply StronglySorted_inv in H4 as [_ H4].
    eapply Forall_impl; [apply H4|]. simpl; lia.
  - intros ?. simplify_eq. apply next_due_None in Et. simpl. split_and!; try done.
    + destruct Hok as [Hf Hi Hn]. constructor; simpl; [|done..].
      eapply Forall_impl; [apply Et|]. simpl; lia.
    + repeat constructor.
Qed.

(** when [advance] returns, the clock shows exactly the target time, no due timer is
    left, and the timers fired in non-decreasing order of their due times, each
    between the old time and the target; ids stay unique. *)
Theorem advance_correct (fuel : nat) (ms : Z) (c c2 : ManualClock) (w w2 : W)
    (fired : list ScheduledTask) :
  clock_ok c → 0 ≤ ms → advance fuel ms c w = Some (c2, w2, fired) →
  clock_ok c2 ∧ c_now c2 = c_now c + ms
  ∧ Forall (λ t, c_now c + ms < t_fireAt t) (c_tasks c2)
  ∧ StronglySorted Z.le (c_now c :: (t_fireAt <$> fired))
  ∧ Forall (λ t, t_fireAt t ≤ c_now c + ms) fired.
Proof. intros Hok Hms. apply advance_loop_spec; [done|lia]. Qed.

(** * Termination *)

Fixpoint n_sets (ks : list clock_call) : nat :=
  match ks with
  | [] => 0
  | SetTimeout _ _ :: ks' => S (n_sets ks')
  | ClearTimeout _ :: ks' => n_sets ks'
  end.

Definition ahead (k : clock_call) : Prop :=
  match k with SetTimeout _ ms => 1 ≤ ms | ClearTimeout _ => True end.

(** Callbacks schedule at most [B] timers each, at least one millisecond ahead. *)
Definition progressive (B : nat) : Prop :=
  ∀ f now w, (n_sets (run_fn f now w).2 ≤ B)%nat ∧ Forall ahead (run_fn f now w).2.

(** Enough fuel: each due task weighs [(B + 1) ^ (milliseconds left + 1)]. *)
Definition weight (B : nat) (target : Z) (t : ScheduledTask) : nat :=
  if decide (t_fireAt t ≤ target)
  then Nat.pow (S B) (S (Z.to_nat (target - t_fireAt t))) else 0%nat.

Fixpoint potential (B : nat) (target : Z) (l : list ScheduledTask) : nat :=
  match l with
  | [] => 0
  | t :: l' => weight B target t + potential B target l'
  end.

Lemma potential_app B target l1 l2 :
  potential B target (l1 ++ l2) = (potential B target l1 + potential B target l2)%nat.
Proof. induction l1; simpl; lia. Qed.

Lemma potential_filter_le B target (Q : ScheduledTask → Prop) `{∀ x, Decision (Q x)} l :
  (potential B target (filter Q l) ≤ potential B target l)%nat.
Proof. induction l as [|t l IH]; [done|]. rewrite filter_cons. case_decide; simpl; lia. Qed.

Lemma potential_remove B target t l :
  t ∈ l →
  (potential B target (filter (λ u, t_id u ≠ t_id t) l) + weight B target t
   ≤ potential B target l)%nat.
Proof.
  induction l as [|u l IH]; [by intros ?%not_elem_of_nil|].
  intros [->|Hin]%elem_of_cons; rewrite filter_cons; simpl.
  - rewrite decide_False by (by intros []).
    pose proof (potential_filter_le B target (λ v, t_id v ≠ t_id u) l). lia.
  - specialize (IH Hin). case_decide; simpl; lia.
Qed.

Lemma pow_pos B k : (0 < Nat.pow (S B) k)%nat.
Proof. pose proof (Nat.pow_nonzero (S B) k). lia. Qed.

Lemma weight_later B target id f' fn now :
  now + 1 ≤ f' → now ≤ target →
  (weight B target (mkTask id f' fn) ≤ Nat.pow (S B) (Z.to_nat (target - now)))%nat.
Proof.
  intros H1 H2. unfold weight. simpl t_fireAt. case_decide; [|lia].
  apply Nat.pow_le_mono_r; [lia|]. lia.
Qed.

Lemma clock_dos_potential B target ks c :
  c_now c ≤ target → Forall ahead ks →
  (potential B target (c_tasks (fold_left (λ c k, clock_do k c) ks c))
   ≤ potential B target (c_tasks c)
     + n_sets ks * Nat.pow (S B) (Z.to_nat (target - c_now c)))%nat.
Proof.
  revert c. induction ks as [|k ks IH]; intros c Hc Ha; simpl fold_left; [simpl; lia|].
  apply Forall_cons in Ha as [Hk Ha].
  assert (Hnow : c_now (clock_do k c) = c_now c) by (by destruct k).
  specialize (IH (clock_do k c) ltac:(lia) Ha). rewrite Hnow in IH.
  destruct k as [fn ms|h]; simpl in Hk; cbn [n_sets];
    cbn [clock_do setTimeout clearTimeout fst c_tasks] in IH |- *.
  - rewrite potential_app in IH. cbn [potential] in IH.
    pose proof (weight_later B target (c_nextId c) (c_now c + Z.max 0 ms) fn (c_now c)
      ltac:(lia) Hc). lia.
  - pose proof (potential_filter_le B target (λ t, t_id t ≠ h) (c_tasks c)).
    lia.
Qed.

Lemma fire_potential B target c w t :
  progressive B → next_due target c = Some t →
  (potential B target (c_tasks (fire t c w).1) < potential B target (c_tasks c))%nat.
Proof.
  intros HB Ht. apply next_due_Some in Ht as (Hin & Hle & _). unfold fire.
  pose proof (HB (t_fn t) (t_fireAt t) w) as [Hn Ha].
  destruct (run_fn (t_fn t) (t_fireAt t) w) as [w' ks]. simpl in Hn, Ha. simpl fst.
  match goal with |- context [fold_left _ ks ?c1] =>
    pose proof (clock_dos_potential B target ks c1 Hle Ha) as Hd end.
  cbn [c_tasks c_now] in Hd.
  pose proof (potential_remove B target t (c_tasks c) Hin) as Hr.
  unfold weight in Hr. rewrite decide_True in Hr by done.
  set (p := Nat.pow (S B) (Z.to_nat (target - t_fireAt t))) in *.
  rewrite Nat.pow_succ_r' in Hr. fold p in Hr.
  pose proof (pow_pos B (Z.to_nat (target - t_fireAt t))) as Hp. fold p in Hp.
  assert ((n_sets ks * p ≤ B * p)%nat) by (by apply Nat.mul_le_mono_r). lia.
Qed.

Lemma advance_loop_total B target fuel c w :
  progressive B → (potential B target (c_tasks c) < fuel)%nat →
  is_Some (advance_loop fuel target c w).
Proof.
  intros HB. revert c w. induction fuel as [|fuel IH]; intros c w Hf; [lia|]. simpl.
  destruct (next_due target c) as [t|] eqn:Et; [|by eexists].
  pose proof (fire_potential B target c w t HB Et) as Hp.
  destruct (fire t c w) as [c' w']. simpl in Hp.
  destruct (IH c' w' ltac:(lia)) as [[[c3 w3] fs] ->]. by eexists.
Qed.

(** termination. If every callback schedules at most [B] timers, each at least one
    millisecond ahead, the loop of [advance] stops: the total weight of the due
    timers is enough fuel. *)
Theorem advance_terminates (B : nat) (ms : Z) (c : ManualClock) (w : W) :
  progressive B →
  is_Some (advance (S (potential B (c_now c + ms) (c_tasks c))) ms c w).
Proof. intros HB. apply (advance_loop_total B); [done|lia]. Qed.
End clock.
Arguments clock_call : clear implicits.
Arguments ScheduledTask : clear implicits.
Arguments ManualClock : clear implicits.

(** A heartbeat that logs the time and reschedules itself, as the gossip tick
    does. *)
Definition tick_fn (interval : Z) (f : unit) (now : Z) (log : list Z)
    : list Z * list (clock_call unit) :=
  (log ++ [now], [SetTimeout tt interval]).

Lemma tick_progressive interval : 1 ≤ interval → progressive (tick_fn interval) 1.
Proof. intros Hi f now w. simpl. split; [lia|]. by repeat constructor. Qed.

Definition ticking : ManualClock unit := (setTimeout tt 200 (newManualClock 0)).1.

Lemma advance_terminates_witness :
  (λ r, (r.1.2, c_now r.1.1)) <$> advance (tick_fn 200) 10 600 ticking [] = Some ([200; 400; 600], 600)
  ∧ is_Some (advance (tick_fn 200) (S (potential 1 600 (c_tasks ticking))) 600 ticking []).
Proof.
  split; [vm_compute; reflexivity|].
  apply (advance_terminates (tick_fn 200) 1 600 ticking []). apply tick_progressive. lia.
Defined.

Lemma advance_correct_witness :
  ∃ c2 fired, advance (tick_fn 200) 10 600 ticking [] = Some (c2, [200; 400; 600], fired)
  ∧ c_now c2 = 600.
Proof.
  destruct (advance (tick_fn 200) 10 600 ticking []) as [[[c2 w2] fired]|] eqn:E;
    [|by vm_compute in E].
  exists c2, fired. split; [vm_compute in E; congruence|].
  refine (proj1 (proj2 (advance_correct (tick_fn 200) 10 600 ticking c2 [] w2 fired _ _ E))).
  - apply setTimeout_ok, newManualClock_ok.
  - lia.
Defined.
