(* ===== verification/EventEmitter.v ===== *)
(** The event emitter every component extends
    (packages/core/src/EventEmitter.ts).

    A listener is a function of the client, known by its identity [L].  What it
    does to the emitter while it runs is a list of calls, [body l ev]; a
    listener that throws ends its list with [CThrow].  Emissions may nest, so
    [emit] takes fuel. *)

From S2P Require Import Prelude JsMap.

Section emitter.
Context {L : Type} `{EqDecision L}.

(** [invoke] is the listener itself ([on]) or the wrapper built by [once]. *)
Inductive invoke_kind := Direct | OnceWrapper.

Record Registration := mkReg { r_listener : L; r_invoke : invoke_kind }.

Abbreviation emitter := (jmap jsstr (list Registration)).

Definition _add (key : jsstr) (r : Registration) (em : emitter) : emitter :=
  match mget key em with
  | Some arr => mset key (arr ++ [r]) em
  | None => mset key [r] em
  end.

Definition on (ev : jsstr) (l : L) (em : emitter) : emitter := _add ev (mkReg l Direct) em.
Definition once (ev : jsstr) (l : L) (em : emitter) : emitter := _add ev (mkReg l OnceWrapper) em.

(** [findIndex] and [splice(idx, 1)]: [None] when nothing matches. *)
Fixpoint splice_first (l : L) (arr : list Registration) : option (list Registration) :=
  match arr with
  | [] => None
  | r :: arr' =>
      if decide (r_listener r = l) then Some arr'
      else (λ a, r :: a) <$> splice_first l arr'
  end.

Definition off (ev : jsstr) (l : L) (em : emitter) : emitter :=
  match mget ev em with
  | None => em
  | Some arr =>
      match splice_first l arr with
      | None => em
      | Some [] => mdel ev em
      | Some arr' => mset ev arr' em
      end
  end.

Definition removeAllListeners (ev : option jsstr) (em : emitter) : emitter :=
  match ev with Some e => mdel e em | None => [] end.

Definition listenerCount (ev : jsstr) (em : emitter) : nat :=
  match mget ev em with Some arr => length arr | None => 0 end.

(** Calls a listener makes on its emitter. *)
Inductive emitter_call :=
| COn (ev : jsstr) (l : L)
| COnce (ev : jsstr) (l : L)
| COff (ev : jsstr) (l : L)
| CRemoveAll (ev : option jsstr)
| CEmit (ev : jsstr)
| CThrow.

Context (body : L → jsstr → list emitter_call).

(** Result of an emission: the emitter after it, the listeners that this
    emission invoked, and every invocation, nested ones included, in order. *)
Record emission := mkEmission {
  em_after : emitter;
  em_direct : list L;
  em_trace : list (jsstr * L);
}.

(** The calls of one listener; [CThrow] abandons the rest, and the [try] of
    [emit] stops the exception. *)
Fixpoint run_calls (emit : jsstr → emitter → option emission) (cs : list emitter_call)
    (em : emitter) : option (emitter * list (jsstr * L)) :=
  match cs with
  | [] => Some (em, [])
  | COn ev l :: cs' => run_calls emit cs' (on ev l em)
  | COnce ev l :: cs' => run_calls emit cs' (once ev l em)
  | COff ev l :: cs' => run_calls emit cs' (off ev l em)
  | CRemoveAll ev :: cs' => run_calls emit cs' (removeAllListeners ev em)
  | CEmit ev :: cs' =>
      match emit ev em with
      | None => None
      | Some e =>
          match run_calls emit cs' (em_after e) with
          | None => None
          | Some (em', tr) => Some (em', em_trace e ++ tr)
          end
      end
  | CThrow :: _ => Some (em, [])
  end.

(** The loop of [emit] over the snapshot [regs]. *)
Fixpoint emit_loop (emit : jsstr → emitter → option emission) (ev : jsstr)
    (regs : list Registration) (em : emitter) : option emission :=
  match regs with
  | [] => Some (mkEmission em [] [])
  | r :: regs' =>
      let em1 := match r_invoke r with
                 | OnceWrapper => off ev (r_listener r) em
                 | Direct => em
                 end in
      match run_calls emit (body (r_listener r) ev) em1 with
      | None => None
      | Some (em2, tr) =>
          match emit_loop emit ev regs' em2 with
          | None => None
          | Some e => Some (mkEmission (em_after e) (r_listener r :: em_direct e)
                              ((ev, r_listener r) :: tr ++ em_trace e))
          end
      end
  end.

Fixpoint emit (fuel : nat) (ev : jsstr) (em : emitter) : option emission :=
  match fuel with
  | O => None
  | S fuel' =>
      match mget ev em with
      | None => Some (mkEmission em [] [])
      | Some arr => emit_loop (emit fuel') ev arr em
      end
  end.

(** The value [emit] returns. *)
Definition emit_result (ev : jsstr) (em : emitter) : bool :=
  negb (listenerCount ev em =? 0)%nat.

(** A sequence of top-level emissions, with all invocations. *)
Fixpoint emits (fuel : nat) (evs : list jsstr) (em : emitter)
    : option (emitter * list (jsstr * L)) :=
  match evs with
  | [] => Some (em, [])
  | ev :: evs' =>
      match emit fuel ev em with
      | None => None
      | Some e =>
          match emits fuel evs' (em_after e) with
          | None => None
          | Some (em', tr) => Some (em', em_trace e ++ tr)
          end
      end
  end.

(** * Well-formedness: no key maps to an empty array *)

Record emitter_ok (em : emitter) : Prop := {
  eo_wf : mwf em;
  eo_nonempty : ∀ ev arr, mget ev em = Some arr → arr ≠ [];
}.

Definition registrations (ev : jsstr) (em : emitter) : list Registration :=
  default [] (mget ev em).

Lemma registrations_add key r ev em :
  registrations ev (_add key r em)
  = registrations ev em ++ (if decide (ev = key) then [r] else []).
Proof.
  unfold registrations, _add. destruct (mget key em) as [arr|] eqn:E;
    rewrite mget_mset; case_decide; subst; rewrite ?E, ?app_nil_r; done.
Qed.

(** [off] removes the first matching registration and nothing else. *)
Lemma registrations_off key l ev em :
  registrations ev (off key l em)
  = if decide (ev = key)
    then default (registrations key em) (splice_first l (registrations key em))
    else registrations ev em.
Proof.
  unfold registrations, off. destruct (mget key em) as [arr|] eqn:E; simpl.
  - destruct (splice_first l arr) as [[|r arr']|] eqn:Es; simpl;
      rewrite ?mget_mdel, ?mget_mset; case_decide; subst; rewrite ?E; done.
  - case_decide; subst; by rewrite ?E.
Qed.

Lemma emitter_add_ok key r em : emitter_ok em → emitter_ok (_add key r em).
Proof.
  intros [Hwf Hne]. unfold _add. destruct (mget key em) as [arr|] eqn:E;
    (split; [by apply mwf_mset|]); intros ev arr'; rewrite mget_mset; case_decide; eauto;
    intros ?; simplify_eq; first [done | by destruct arr].
Qed.

Lemma off_ok key l em : emitter_ok em → emitter_ok (off key l em).
Proof.
  intros [Hwf Hne]. unfold off. destruct (mget key em) as [arr|] eqn:E; [|done].
  destruct (splice_first l arr) as [[|r arr']|] eqn:Es; [| |done]; split; auto with rtc;
    intros ev a; rewrite ?mget_mdel, ?mget_mset; case_decide; naive_solver.
Qed.

Lemma removeAll_ok ev em : emitter_ok em → emitter_ok (removeAllListeners ev em).
Proof.
  intros [Hwf Hne]. destruct ev as [e|]; simpl; [|split; [apply mwf_nil|done]].
  split; [by apply mwf_mdel|]. intros ev a. rewrite mget_mdel. case_decide; naive_solver.
Qed.

(** Induction over the calls of a listener and over the loop, for a predicate
    kept by the elementary operations. *)
Section preserve.
Context (I : emitter → Prop).
Context (Ion : ∀ ev r em, I em → I (_add ev r em)).
Context (Ioff : ∀ ev l em, I em → I (off ev l em)).
Context (Irem : ∀ ev em, I em → I (removeAllListeners ev em)).

Lemma run_calls_preserve em_f cs em em' tr :
  (∀ ev em e, I em → em_f ev em = Some e → I (em_after e)) →
  I em → run_calls em_f cs em = Some (em', tr) → I em'.
Proof.
  intros Hf. revert em em' tr. induction cs as [|c cs IH]; intros em em' tr Hi; simpl.
  { intros ?. by simplify_eq. }
  destruct c; try (apply IH; unfold on, once; auto).
  - destruct (em_f ev em) as [e|] eqn:E; [|done].
    destruct (run_calls em_f cs (em_after e)) as [[em2 tr2]|] eqn:E2; [|done].
    intros ?. simplify_eq. eauto.
  - intros ?. by simplify_eq.
Qed.

Lemma emit_loop_preserve em_f ev regs em e :
  (∀ ev em e, I em → em_f ev em = Some e → I (em_after e)) →
  I em → emit_loop em_f ev regs em = Some e → I (em_after e).
Proof.
  intros Hf. revert em e. induction regs as [|r regs IH]; intros em e Hi; simpl.
  { intros ?. by simplify_eq. }
  destruct (run_calls em_f _ _) as [[em2 tr]|] eqn:E; [|done].
  destruct (emit_loop em_f ev regs em2) as [e2|] eqn:E2; [|done].
  intros ?. simplify_eq. simpl. eapply IH; [|done].
  eapply run_calls_preserve; [done| |done]. destruct (r_invoke r); auto.
Qed.

Lemma emit_preserve fuel ev em e : I em → emit fuel ev em = Some e → I (em_after e).
Proof.
  revert ev em e. induction fuel as [|fuel IH]; intros ev em e Hi; simpl; [done|].
  destruct (mget ev em); [|intros ?; by simplify_eq].
  apply emit_loop_preserve; eauto.
Qed.
End preserve.

Lemma emit_loop_direct em_f ev regs em e :
  emit_loop em_f ev regs em = Some e → em_direct e = r_listener <$> regs.
Proof.
  revert em e. induction regs as [|r regs IH]; intros em e; simpl.
  { intros ?. by simplify_eq. }
  destruct (run_calls em_f _ _) as [[em2 tr]|]; [|done].
  destruct (emit_loop em_f ev regs em2) as [e2|] eqn:E2; [|done].
  intros ?. simplify_eq. simpl. f_equal. by eapply IH.
Qed.

(** an emission invokes exactly the listeners registered when it started, in
    registration order, whatever they register, remove, emit or throw
    meanwhile; it reports whether there was one, and leaves no empty entry. *)
Theorem emit_snapshot (fuel : nat) (ev : jsstr) (em : emitter) (e : emission) :
  emitter_ok em → emit fuel ev em = Some e →
  em_direct e = r_listener <$> registrations ev em
  ∧ emit_result ev em = negb (bool_decide (em_direct e = []))
  ∧ emitter_ok (em_after e).
Proof.
  intros Hok He.
  assert (Hd : em_direct e = r_listener <$> registrations ev em).
  { destruct fuel as [|fuel]; simpl in He; [done|]. unfold registrations.
    destruct (mget ev em) as [arr|]; simpl; [by eapply emit_loop_direct|by simplify_eq]. }
  split_and!; [done| |].
  - rewrite Hd. unfold emit_result, listenerCount, registrations.
    destruct (mget ev em) as [[|r arr]|]; done.
  - eapply (emit_preserve emitter_ok); eauto using emitter_add_ok, off_ok, removeAll_ok.
Qed.

(** [off] undoes [on]. Registering a listener and removing it again gives back the same
    emitter, if the listener was not registered before; otherwise the first of
    its registrations goes and every other registration of every event stays. *)
Theorem off_removes_first (ev : jsstr) (l : L) (em : emitter) :
  (l ∉ r_listener <$> registrations ev em → emitter_ok em → off ev l (on ev l em) = em)
  ∧ (∀ key, registrations key (off ev l em)
       = if decide (key = ev)
         then default (registrations ev em) (splice_first l (registrations ev em))
         else registrations key em).
Proof.
  split; [|intros; apply registrations_off].
  intros Hni [Hwf Hne]. unfold on, off, _add. unfold registrations in Hni.
  destruct (mget ev em) as [arr|] eqn:E; rewrite mget_mset_eq; simpl in Hni.
  - assert (Hs : splice_first l (arr ++ [mkReg l Direct]) = Some arr).
    { clear E. induction arr as [|r arr IH]; simpl; [by rewrite decide_True|].
      rewrite decide_False by set_solver. rewrite IH; [done|set_solver]. }
    rewrite Hs. specialize (Hne _ _ E). destruct arr as [|r arr]; [done|].
    by apply mset_restore.
  - simpl. rewrite decide_True by done. by apply mdel_mset_absent.
Qed.

(** * One-time listeners *)

(** Number of registrations of [l] in an array, and occurrences in a trace. *)
Definition regs_of (l : L) (arr : list Registration) : list Registration :=
  filter (λ r, r_listener r = l) arr.
Definition fired (ev : jsstr) (l : L) (tr : list (jsstr * L)) : nat :=
  length (filter (λ p, p = (ev, l)) tr).

(** A call that neither emits nor registers [l] for [ev]. *)
Definition quiet (ev : jsstr) (l : L) (c : emitter_call) : Prop :=
  match c with
  | COn e l' | COnce e l' => e ≠ ev ∨ l' ≠ l
  | CEmit _ => False
  | _ => True
  end.

(** [l] has at most [n] registrations for [ev], all made by [once]. *)
Record once_only (ev : jsstr) (l : L) (n : nat) (em : emitter) : Prop := {
  oo_count : (length (regs_of l (registrations ev em)) ≤ n)%nat;
  oo_kind : Forall (λ r, r_invoke r = OnceWrapper) (regs_of l (registrations ev em));
}.

Lemma splice_first_sublist l arr arr' : splice_first l arr = Some arr' → arr' `sublist_of` arr.
Proof.
  revert arr'. induction arr as [|r arr IH]; intros arr'; simpl; [done|].
  case_decide; [intros; simplify_eq; by apply sublist_cons|].
  destruct (splice_first l arr); [|done]. intros ?; simplify_eq/=. apply sublist_skip. eauto.
Qed.

Lemma splice_first_count l arr :
  length (regs_of l (default arr (splice_first l arr))) = Nat.pred (length (regs_of l arr)).
Proof.
  unfold regs_of. induction arr as [|r arr IH]; [done|]. simpl. rewrite filter_cons.
  destruct (decide (r_listener r = l)) as [He|Hne]; simpl; [done|].
  destruct (splice_first l arr) as [a|]; simpl in *; rewrite filter_cons, decide_False by done;
    apply IH.
Qed.

Lemma once_only_sublist ev l n em em' :
  registrations ev em' `sublist_of` registrations ev em →
  once_only ev l n em → once_only ev l n em'.
Proof.
  intros Hs [Hc Hk]. unfold regs_of in *.
  assert (Hf : filter (λ r, r_listener r = l) (registrations ev em')
    `sublist_of` filter (λ r, r_listener r = l) (registrations ev em)).
  { by apply filter_sublist. }
  split; unfold regs_of; [apply sublist_length in Hf; lia|].
  by eapply Forall_sub.
Qed.

Lemma off_sublist key l ev em : registrations ev (off key l em) `sublist_of` registrations ev em.
Proof.
  rewrite registrations_off. case_decide; subst; [|done].
  destruct (splice_first l _) eqn:E; simpl; [by eapply splice_first_sublist|done].
Qed.

Lemma quiet_call ev l n em c :
  quiet ev l c → once_only ev l n em →
  match c with
  | COn e l' => once_only ev l n (on e l' em)
  | COnce e l' => once_only ev l n (once e l' em)
  | COff e l' => once_only ev l n (off e l' em)
  | CRemoveAll e => once_only ev l n (removeAllListeners e em)
  | _ => True
  end.
Proof.
  intros Hq Ho. destruct c as [e l'|e l'|e l'|e|e|]; simpl in *; try done.
  1,2: destruct Ho as [Hc Hk]; unfold on, once; split; rewrite registrations_add;
    unfold regs_of in *; rewrite filter_app;
    (case_decide; [rewrite (filter_cons _ _ []), decide_False by (simpl; naive_solver)|]);
    by rewrite filter_nil, app_nil_r.
  - eapply once_only_sublist; [apply off_sublist|done].
  - eapply once_only_sublist; [|done]. unfold registrations.
    destruct e as [e|]; simpl; [|apply sublist_nil_l].
    rewrite mget_mdel. case_decide; [apply sublist_nil_l|done].
Qed.

Lemma quiet_calls em_f ev l n cs em em' tr :
  Forall (quiet ev l) cs → once_only ev l n em → run_calls em_f cs em = Some (em', tr) →
  once_only ev l n em' ∧ tr = [].
Proof.
  intros Hq. revert em em' tr. induction Hq as [|c cs Hc Hcs IH]; intros em em' tr Ho; simpl.
  { intros ?; by simplify_eq. }
  pose proof (quiet_call ev l n em c Hc Ho) as Hn.
  destruct c; simpl in *; try (by apply IH); [done|intros ?; by simplify_eq].
Qed.

Lemma off_once_only ev l n em : once_only ev l (S n) em → once_only ev l n (off ev l em).
Proof.
  intros Ho. pose proof (once_only_sublist ev l (S n) em (off ev l em) (off_sublist _ _ _ _) Ho)
    as [_ Hk]. split; [|done]. destruct Ho as [Hc _].
  rewrite registrations_off, decide_True by done. rewrite splice_first_count. lia.
Qed.

Definition all_quiet (ev : jsstr) (l : L) : Prop :=
  ∀ l' ev', Forall (quiet ev l) (body l' ev').

Lemma fired_cons ev l p tr :
  fired ev l (p :: tr) = ((if decide (p = (ev, l)) then 1 else 0) + fired ev l tr)%nat.
Proof. unfold fired. rewrite filter_cons. by case_decide. Qed.

(** One pass over a snapshot: [l] fires as often as the snapshot says, and each
    firing uses up a registration. *)
Lemma loop_once em_f ev l n regs em e :
  all_quiet ev l → Forall (λ r, r_invoke r = OnceWrapper) (regs_of l regs) →
  once_only ev l (length (regs_of l regs) + n) em →
  emit_loop em_f ev regs em = Some e →
  fired ev l (em_trace e) = length (regs_of l regs) ∧ once_only ev l n (em_after e).
Proof.
  intros Hq. revert em e. induction regs as [|r regs IH]; intros em e Hk Ho; simpl.
  { intros ?; by simplify_eq. }
  unfold regs_of in *. rewrite filter_cons in *.
  destruct (run_calls em_f _ _) as [[em2 tr]|] eqn:Er; [|done].
  destruct (emit_loop em_f ev regs em2) as [e2|] eqn:E2; [|done]. intros ?; simplify_eq.
  simpl. rewrite fired_cons. destruct (decide (r_listener r = l)) as [<-|Hne].
  - apply Forall_cons in Hk as [Hk1 Hk]. rewrite Hk1 in Er. simpl in Ho.
    pose proof (off_once_only _ _ _ _ Ho) as Ho'.
    destruct (quiet_calls _ _ _ _ _ _ _ _ (Hq _ _) Ho' Er) as [Ho2 ->].
    destruct (IH em2 e2 Hk Ho2 E2) as [H1 H2]. simpl. rewrite decide_True by done.
    split; [by rewrite H1|done].
  - assert (Ho' : once_only ev l (length (filter (λ r, r_listener r = l) regs) + n)
      (match r_invoke r with OnceWrapper => off ev (r_listener r) em | Direct => em end)).
    { destruct (r_invoke r); [done|]. eapply once_only_sublist; [apply off_sublist|done]. }
    destruct (quiet_calls _ _ _ _ _ _ _ _ (Hq _ _) Ho' Er) as [Ho2 ->].
    destruct (IH em2 e2 Hk Ho2 E2) as [H1 H2]. rewrite decide_False by congruence. done.
Qed.

Lemma loop_other em_f ev ev' l n regs em e :
  ev' ≠ ev → all_quiet ev l → once_only ev l n em →
  emit_loop em_f ev' regs em = Some e →
  fired ev l (em_trace e) = 0%nat ∧ once_only ev l n (em_after e).
Proof.
  intros Hne Hq. revert em e. induction regs as [|r regs IH]; intros em e Ho; simpl.
  { intros ?; by simplify_eq. }
  destruct (run_calls em_f _ _) as [[em2 tr]|] eqn:Er; [|done].
  destruct (emit_loop em_f ev' regs em2) as [e2|] eqn:E2; [|done]. intros ?; simplify_eq.
  simpl. rewrite fired_cons, decide_False by congruence.
  assert (Ho' : once_only ev l n
      (match r_invoke r with OnceWrapper => off ev' (r_listener r) em | Direct => em end)).
  { destruct (r_invoke r); [done|]. eapply once_only_sublist; [apply off_sublist|done]. }
  destruct (quiet_calls _ _ _ _ _ _ _ _ (Hq _ _) Ho' Er) as [Ho2 ->].
  exact (IH em2 e2 Ho2 E2).
Qed.

Lemma emit_once fuel ev' ev l n em e :
  all_quiet ev l → once_only ev l n em → emit fuel ev' em = Some e →
  ∃ m, once_only ev l m (em_after e) ∧ (fired ev l (em_trace e) + m ≤ n)%nat.
Proof.
  intros Hq Ho. destruct fuel as [|fuel]; simpl; [done|].
  destruct (mget ev' em) as [arr|] eqn:E.
  - intros He. destruct (decide (ev' = ev)) as [->|Hne].
    + pose proof Ho as [Hc Hk]. unfold registrations in Hc, Hk. rewrite E in Hc, Hk. simpl in *.
      exists (n - length (regs_of l arr))%nat.
      destruct (loop_once (emit fuel) ev l (n - length (regs_of l arr)) arr em e Hq Hk)
        as [H1 H2]; [|done|split; [done|lia]].
      by replace (length (regs_of l arr) + (n - length (regs_of l arr)))%nat with n by lia.
    + exists n. destruct (loop_other _ _ _ _ _ _ _ _ Hne Hq Ho He) as [-> ?]. by split.
  - intros ?; simplify_eq. exists n. by split.
Qed.

(** a listener registered only by [once] runs at most once over any sequence of
    emissions, provided no listener emits from inside an emission or registers
    it again. *)
Theorem once_at_most_once (fuel : nat) (ev : jsstr) (l : L) (evs : list jsstr)
    (em em' : emitter) (tr : list (jsstr * L)) :
  all_quiet ev l → registrations ev em = [] →
  emits fuel evs (once ev l em) = Some (em', tr) → (fired ev l tr ≤ 1)%nat.
Proof.
  intros Hq Hr. assert (Ho : once_only ev l 1 (once ev l em)).
  { unfold once. split; rewrite registrations_add, Hr; unfold regs_of; simpl;
      rewrite decide_True by done; rewrite filter_cons, decide_True by done; simpl; [done|].
    by repeat constructor. }
  generalize dependent (once ev l em). clear em Hr. intros em. generalize 1%nat as n.
  intros n. revert n em em' tr.
  induction evs as [|ev' evs IH]; intros n em em' tr Ho; simpl.
  { intros ?; simplify_eq. unfold fired. simpl. lia. }
  destruct (emit fuel ev' em) as [e|] eqn:E; [|done].
  destruct (emits fuel evs (em_after e)) as [[em2 tr2]|] eqn:E2; [|done].
  intros ?; simplify_eq. destruct (emit_once _ _ _ _ _ _ _ Hq Ho E) as (m & Hm & Hle).
  specialize (IH m _ _ _ Hm E2). unfold fired in *. rewrite filter_app, length_app. lia.
Qed.
End emitter.
Arguments Registration : clear implicits.
Arguments emitter_call : clear implicits.

(** A client with three listeners: [0] does nothing, [1] throws after removing
    [0], [2] emits ["e"] again when it handles ["start"]. *)
Definition demo_body (l : nat) (ev : jsstr) : list (emitter_call nat) :=
  match l with
  | 1%nat => [COff (js "e") 0%nat; CThrow; CRemoveAll None]
  | 2%nat => if decide (ev = js "start") then [CEmit (js "e")] else []
  | _ => []
  end.

Lemma emit_snapshot_witness :
  em_direct <$> emit demo_body 3 (js "e") (on (js "e") 0%nat (on (js "e") 1%nat []))
  = Some [1; 0]%nat
  ∧ ∃ e, emit demo_body 3 (js "e") (on (js "e") 0%nat (on (js "e") 1%nat [])) = Some e
         ∧ em_direct e = [1; 0]%nat.
Proof.
  split; [vm_compute; reflexivity|].
  destruct (emit demo_body 3 (js "e") (on (js "e") 0%nat (on (js "e") 1%nat []))) as [e|] eqn:E;
    [|by vm_compute in E].
  exists e. split; [done|].
  assert (Hok : emitter_ok (on (js "e") 0%nat (on (js "e") 1%nat []))).
  { apply emitter_add_ok, emitter_add_ok. split; [constructor|done]. }
  rewrite (proj1 (emit_snapshot demo_body 3 _ _ e Hok E)). vm_compute. reflexivity.
Defined.

Lemma once_at_most_once_witness :
  ∃ em' tr, emits (λ _ _, []) 2 [js "e"; js "e"] (once (js "e") 0%nat []) = Some (em', tr)
    ∧ (fired (js "e") 0%nat tr ≤ 1)%nat.
Proof.
  destruct (emits (λ _ _, []) 2 [js "e"; js "e"] (once (js "e") 0%nat [])) as [[em' tr]|] eqn:E;
    [|by vm_compute in E].
  exists em', tr. split; [done|].
  apply (once_at_most_once (λ _ _, []) 2 (js "e") 0%nat [js "e"; js "e"] [] em' tr);
    [intros l' ev'; constructor|done|exact E].
Defined.

(** the two limits of [once]. When the same function is registered by [on] and then by
    [once], the first emission removes the permanent registration instead of
    the one-time one; and a one-time listener runs twice when an earlier
    listener of the same snapshot emits the event again. *)
Theorem once_limits :
  (registrations (js "e") <$>
     (em_after <$> emit (λ _ _, []) 2 (js "e") (once (js "e") 7%nat (on (js "e") 7%nat []))))
  = Some [mkReg 7%nat OnceWrapper]
  ∧ (∃ e, emit (λ l ev, if decide (l = 2%nat) then [COff (js "e") 2%nat; CEmit (js "e")] else [])
            3 (js "e") (once (js "e") 7%nat (on (js "e") 2%nat [])) = Some e
          ∧ fired (js "e") 7%nat (em_trace e) = 2%nat).
Proof.
  split; [vm_compute; reflexivity|]. eexists. split; [vm_compute; reflexivity|].
  vm_compute. reflexivity.
Qed.
