(* ===== verification/Membership.v ===== *)
(** Node descriptors and the in-process membership registry
    (packages/core/src/Membership.ts). *)

From S2P Require Import Prelude JsMap.

Record NodeInfo := mkNode {
  n_id : jsstr;
  n_region : option jsstr;
  n_address : option jsstr;
  n_metadata : option (jmap jsstr jsstr);
}.

#[export] Instance NodeInfo_eq_dec : EqDecision NodeInfo.
Proof. solve_decision. Defined.

Record MembershipEntry := mkEntry { e_node : NodeInfo; e_expiresAt : Z }.

(** Watchers are callbacks of the clients, known by an identity. *)
Record MemoryMembership := mkMembership {
  mm_nodes : jmap jsstr MembershipEntry;
  mm_watchers : list nat;
}.

Definition newMemoryMembership : MemoryMembership := mkMembership [] [].

(** A notification: the watcher and the snapshot it is called with. *)
Abbreviation notification := (nat * list NodeInfo)%type.

Definition mm_alive (now : Z) (e : MembershipEntry) : bool := bool_decide (now < e_expiresAt e).

Definition mm_prune (now : Z) (m : MemoryMembership) : MemoryMembership * bool :=
  (mkMembership (mkeep (λ _ e, mm_alive now e) (mm_nodes m)) (mm_watchers m),
   existsb (λ p, negb (mm_alive now p.2)) (mm_nodes m)).

Definition mm_snapshot (m : MemoryMembership) : list NodeInfo := e_node <$> mvals (mm_nodes m).

Definition mm_notify (m : MemoryMembership) : list notification :=
  (λ w, (w, mm_snapshot m)) <$> mm_watchers m.

Definition mm_register (now : Z) (node : NodeInfo) (ttlMs : Z) (m : MemoryMembership)
    : MemoryMembership * list notification :=
  let m' := mkMembership (mset (n_id node) (mkEntry node (now + ttlMs)) (mm_nodes m))
              (mm_watchers m) in
  (m', mm_notify m').

Definition mm_deregister (nodeId : jsstr) (m : MemoryMembership)
    : MemoryMembership * list notification :=
  let m' := mkMembership (mdel nodeId (mm_nodes m)) (mm_watchers m) in
  if mhas nodeId (mm_nodes m) then (m', mm_notify m') else (m', []).

Definition mm_list (now : Z) (m : MemoryMembership)
    : MemoryMembership * list notification * list NodeInfo :=
  let '(m', changed) := mm_prune now m in
  (m', if changed then mm_notify m' else [], mm_snapshot m').

(** The background sweep. *)
Definition mm_sweep (now : Z) (m : MemoryMembership) : MemoryMembership * list notification :=
  let '(m', changed) := mm_prune now m in (m', if changed then mm_notify m' else []).

Definition mm_watch (w : nat) (m : MemoryMembership) : MemoryMembership :=
  mkMembership (mm_nodes m) (sadd w (mm_watchers m)).
Definition mm_unwatch (w : nat) (m : MemoryMembership) : MemoryMembership :=
  mkMembership (mm_nodes m) (sdel w (mm_watchers m)).

(** * Invariant: one entry per id, stored under the id of its node *)

Record membership_ok (m : MemoryMembership) : Prop := {
  mok_wf : mwf (mm_nodes m);
  mok_ids : Forall (λ p, n_id (e_node p.2) = p.1) (mm_nodes m);
}.

Lemma Forall_mset_jmap {K V} `{EqDecision K} (Q : K * V → Prop) k v (m : jmap K V) :
  Forall Q m → Q (k, v) → Forall Q (mset k v m).
Proof.
  intros H Hv. induction H as [|[k' v'] m Hq Hm IH]; simpl; [by repeat constructor|].
  case_decide; subst; by constructor.
Qed.

Lemma mdel_sublist {K V} `{EqDecision K} k (m : jmap K V) : mdel k m `sublist_of` m.
Proof.
  induction m as [|[k' v'] m IH]; simpl; [done|].
  case_decide; [by apply sublist_cons|by apply sublist_skip].
Qed.

Lemma register_ok now node ttl m : membership_ok m → membership_ok (mm_register now node ttl m).1.
Proof. intros [H1 H2]. split; simpl; [by apply mwf_mset|by apply Forall_mset_jmap]. Qed.

Lemma deregister_ok id m : membership_ok m → membership_ok (mm_deregister id m).1.
Proof.
  intros [H1 H2]. unfold mm_deregister. destruct (mhas _ _); (split; simpl; [by apply mwf_mdel|]);
    (eapply Forall_sub; [apply mdel_sublist|done]).
Qed.

Lemma prune_ok now m : membership_ok m → membership_ok (mm_prune now m).1.
Proof.
  intros [H1 H2]. split; simpl; [by apply mwf_mkeep|].
  eapply Forall_sub; [apply mkeep_sublist|done].
Qed.

Lemma snapshot_elem m node :
  membership_ok m →
  node ∈ mm_snapshot m ↔ ∃ t, mget (n_id node) (mm_nodes m) = Some (mkEntry node t).
Proof.
  intros [Hwf Hids]. unfold mm_snapshot, mvals. rewrite list_elem_of_fmap. split.
  - intros (e & -> & Hin). apply list_elem_of_fmap in Hin as ([k e'] & Heq & Hin). simpl in Heq.
    subst e'. rewrite Forall_forall in Hids. specialize (Hids _ Hin). simpl in Hids.
    exists (e_expiresAt e). rewrite Hids. apply elem_mget; [done|]. by destruct e.
  - intros (t & Hg). apply mget_elem in Hg. exists (mkEntry node t). split; [done|].
    apply list_elem_of_fmap. by exists (n_id node, mkEntry node t).
Qed.

Lemma prune_unchanged now m : (mm_prune now m).2 = false → (mm_prune now m).1 = m.
Proof.
  destruct m as [nodes ws]. unfold mm_prune. simpl. intros H. f_equal.
  induction nodes as [|[k e] nodes IH]; simpl in *; [done|].
  apply orb_false_iff in H as [H1 H2]. apply negb_false_iff in H1. rewrite H1.
  f_equal. auto.
Qed.

(** [list] returns exactly the nodes whose last registration has not expired, once
    each, and every watcher is told the same snapshot as soon as an expiry, a
    registration or a removal changes it. *)
Theorem membership_list (now : Z) (m : MemoryMembership) :
  membership_ok m →
  let '(m', notes, nodes) := mm_list now m in
  NoDup (n_id <$> nodes)
  ∧ (∀ node, node ∈ nodes ↔
       ∃ t, mget (n_id node) (mm_nodes m) = Some (mkEntry node t) ∧ now < t)
  ∧ (∀ w, w ∈ mm_watchers m → mm_nodes m' ≠ mm_nodes m → (w, nodes) ∈ notes)
  ∧ membership_ok m'.
Proof.
  intros Hok. unfold mm_list. pose proof (prune_ok now m Hok) as Hok'.
  pose proof (prune_unchanged now m) as Hun.
  destruct (mm_prune now m) as [m' ch] eqn:E. simpl in *.
  assert (Hm' : m' = mkMembership (mkeep (λ _ e, mm_alive now e) (mm_nodes m)) (mm_watchers m))
    by (unfold mm_prune in E; congruence).
  split_and!; [| | |done].
  - destruct Hok' as [Hwf Hids]. unfold mm_snapshot, mvals.
    assert (Heq : n_id <$> (e_node <$> (mm_nodes m').*2) = (mm_nodes m').*1).
    { clear -Hids. induction Hids as [|[k e] l Hk Hl IH]; simpl in *; [done|]. by f_equal. }
    by rewrite Heq.
  - intros node. rewrite snapshot_elem by done. rewrite Hm'. simpl.
    rewrite mget_mkeep by apply Hok.
    destruct (mget (n_id node) (mm_nodes m)) as [e|]; [|naive_solver].
    unfold mm_alive. split.
    + intros [t Ht]. case_bool_decide; simplify_eq/=. eauto.
    + intros (t & ? & Ht); simplify_eq/=. exists t. by rewrite bool_decide_eq_true_2.
  - intros w Hw Hne. destruct ch; [|by rewrite Hun in Hne].
    unfold mm_notify. apply list_elem_of_fmap. exists w. split; [done|]. by rewrite Hm'.
Qed.

Definition node_a : NodeInfo := mkNode (js "a") None None None.

Lemma membership_list_witness :
  NoDup (n_id <$> (mm_list 5 (mm_register 0 node_a 10 newMemoryMembership).1).2).
Proof.
  assert (Hok : membership_ok (mm_register 0 node_a 10 newMemoryMembership).1).
  { apply register_ok. split; constructor. }
  exact (proj1 (membership_list 5 _ Hok)).
Defined.
