(* ===== verification/Reconciler.v ===== *)
(** Membership snapshots turned into add, update and remove callbacks
    (packages/core/src/MembershipReconciler.ts).

    The handlers belong to the client.  A handler may change the membership and
    so be called back, before it returns, with a list of newer snapshots; it
    may also throw.  [react] gives, for each callback and each state [W] of the
    client, the new state, the re-entrant snapshots and whether it threw. *)

From S2P Require Import Prelude JsMap Membership.

Inductive rcall :=
| OnAdd (node : NodeInfo)
| OnUpdate (node : NodeInfo)
| OnRemove (id : jsstr).

Record reaction (W : Type) := mkReaction {
  re_world : W;
  re_snapshots : list (list NodeInfo);
  re_threw : bool;
}.
Arguments mkReaction {W} _ _ _.
Arguments re_world {W} _.
Arguments re_snapshots {W} _.
Arguments re_threw {W} _.

Section reconciler.
Context {W : Type} (react : rcall → W → reaction W).

Record Reconciler := mkReconciler {
  r_ids : list jsstr;
  r_seen : bool;
  r_watching : bool;
  r_syncing : bool;
  r_pending : option (list NodeInfo * bool);
}.

Definition newReconciler : Reconciler := mkReconciler [] false false false None.

Definition set_ids (ids : list jsstr) (r : Reconciler) : Reconciler :=
  mkReconciler ids (r_seen r) (r_watching r) (r_syncing r) (r_pending r).
Definition set_syncing (b : bool) (r : Reconciler) : Reconciler :=
  mkReconciler (r_ids r) (r_seen r) (r_watching r) b (r_pending r).
Definition set_pending (p : option (list NodeInfo * bool)) (r : Reconciler) : Reconciler :=
  mkReconciler (r_ids r) (r_seen r) (r_watching r) (r_syncing r) p.
Definition set_seen (r : Reconciler) : Reconciler :=
  mkReconciler (r_ids r) true (r_watching r) (r_syncing r) (r_pending r).

(** State threaded through a pass: the reconciler, the client, the callbacks
    made and the snapshots received so far, and whether a callback threw. *)
Record pass := mkPass {
  p_rec : Reconciler;
  p_world : W;
  p_calls : list rcall;
  p_snaps : list (list NodeInfo);
  p_threw : bool;
}.

Definition on_rec (f : Reconciler → Reconciler) (p : pass) : pass :=
  mkPass (f (p_rec p)) (p_world p) (p_calls p) (p_snaps p) (p_threw p).

(** Calling a handler while syncing: each snapshot it provokes runs the watch
    callback, which finds [_syncing] set and overwrites [_pending]. *)
Definition call_handler (c : rcall) (p : pass) : pass :=
  let re := react c (p_world p) in
  mkPass
    (fold_left (λ r s, set_pending (Some (s, true)) (set_seen r)) (re_snapshots re) (p_rec p))
    (re_world re) (p_calls p ++ [c]) (p_snaps p ++ re_snapshots re) (re_threw re).

(** First loop of [_apply]. *)
Fixpoint apply_nodes (nodes : list NodeInfo) (p : pass) : pass :=
  match nodes with
  | [] => p
  | node :: nodes' =>
      let p1 :=
        if shas (n_id node) (r_ids (p_rec p)) then call_handler (OnUpdate node) p
        else call_handler (OnAdd node)
               (on_rec (λ r, set_ids (sadd (n_id node) (r_ids r)) r) p) in
      if p_threw p1 then p1 else apply_nodes nodes' p1
  end.

(** Second loop of [_apply], over a copy of the ids. *)
Fixpoint apply_removals (live : list jsstr) (ids : list jsstr) (p : pass) : pass :=
  match ids with
  | [] => p
  | id :: ids' =>
      if shas id live then apply_removals live ids' p
      else
        let p1 := call_handler (OnRemove id) (on_rec (λ r, set_ids (sdel id (r_ids r)) r) p) in
        if p_threw p1 then p1 else apply_removals live ids' p1
  end.

Definition _apply (nodes : list NodeInfo) (allowRemove : bool) (p : pass) : pass :=
  let p1 := apply_nodes nodes p in
  if p_threw p1 then p1
  else if negb allowRemove then p1
  else apply_removals (set_of (n_id <$> nodes)) (r_ids (p_rec p1)) p1.

(** [_sync] when no pass is running.  The [finally] clears [_syncing] even when
    a handler threw, but then [_pending] is not looked at. *)
Fixpoint _sync (fuel : nat) (nodes : list NodeInfo) (allowRemove : bool) (p : pass) : option pass :=
  match fuel with
  | O => None
  | S fuel' =>
      let p1 := on_rec (set_syncing false)
                  (_apply nodes allowRemove (on_rec (set_syncing true) p)) in
      if p_threw p1 then Some p1
      else match r_pending (p_rec p1) with
           | Some (next, allow) => _sync fuel' next allow (on_rec (set_pending None) p1)
           | None => Some p1
           end
  end.

(** The watch callback installed by [start], when no pass is running, and the
    continuation of the initial [list]. *)
Definition on_watch (fuel : nat) (nodes : list NodeInfo) (r : Reconciler) (w : W) : option pass :=
  _sync fuel nodes true (mkPass (set_seen r) w [] [nodes] false).

Definition on_list (fuel : nat) (nodes : list NodeInfo) (r : Reconciler) (w : W) : option pass :=
  if r_seen r then Some (mkPass r w [] [] false)
  else _sync fuel nodes false (mkPass r w [] [nodes] false).

(** [start] subscribes once; [dispose] unsubscribes and keeps the ids. *)
Definition rec_start (r : Reconciler) : Reconciler :=
  if r_watching r then r
  else mkReconciler (r_ids r) (r_seen r) true (r_syncing r) (r_pending r).
Definition rec_dispose (r : Reconciler) : Reconciler :=
  mkReconciler (r_ids r) (r_seen r) false (r_syncing r) (r_pending r).
End reconciler.

(** * Specification: replaying the callbacks *)

(** The set a client tracks when it follows the callbacks; [None] when one of
    them does not make sense (adding twice, removing or updating a stranger). *)
Definition replay1 (c : rcall) (ids : gset jsstr) : option (gset jsstr) :=
  match c with
  | OnAdd n => if decide (n_id n ∈ ids) then None else Some ({[n_id n]} ∪ ids)
  | OnUpdate n => if decide (n_id n ∈ ids) then Some ids else None
  | OnRemove id => if decide (id ∈ ids) then Some (ids ∖ {[id]}) else None
  end.

Fixpoint replay (cs : list rcall) (ids : gset jsstr) : option (gset jsstr) :=
  match cs with
  | [] => Some ids
  | c :: cs' => match replay1 c ids with Some ids' => replay cs' ids' | None => None end
  end.

Lemma replay_snoc cs c ids :
  replay (cs ++ [c]) ids = match replay cs ids with Some i => replay1 c i | None => None end.
Proof.
  revert ids. induction cs as [|c' cs IH]; intros ids; simpl.
  - by destruct (replay1 c ids).
  - destruct (replay1 c' ids); [apply IH|done].
Qed.

Abbreviation tracked r := (list_to_set (C := gset jsstr) (r_ids r)).
Abbreviation snapshot_ids nodes := (list_to_set (C := gset jsstr) (n_id <$> nodes)).

Lemma tracked_sadd x (l : list jsstr) :
  list_to_set (C := gset jsstr) (sadd x l) = {[x]} ∪ list_to_set l.
Proof. apply set_eq. intros y. rewrite elem_of_union, !elem_of_list_to_set, elem_of_sadd. set_solver. Qed.

Lemma tracked_sdel x (l : list jsstr) :
  list_to_set (C := gset jsstr) (sdel x l) = list_to_set l ∖ {[x]}.
Proof.
  apply set_eq. intros y. rewrite elem_of_difference, !elem_of_list_to_set, elem_of_sdel.
  set_solver.
Qed.

Section reconciler_lemmas.
Context {W : Type} (react : rcall → W → reaction W) (ids0 : gset jsstr).
Implicit Types (p : pass (W := W)) (r : Reconciler).

(** What holds of a pass between two callbacks: the client that replays the
    calls tracks the same ids, and [_pending] is the newest snapshot received
    since [seen] snapshots ago. *)
Definition pass_ok (seen : nat) p : Prop :=
  NoDup (r_ids (p_rec p)) ∧ replay (p_calls p) ids0 = Some (tracked (p_rec p)) ∧
  (seen ≤ length (p_snaps p))%nat ∧
  r_pending (p_rec p) = (λ s, (s, true)) <$> last (drop seen (p_snaps p)).

Lemma fold_pending_ids ss r :
  r_ids (fold_left (λ r s, set_pending (Some (s, true)) (set_seen r)) ss r) = r_ids r.
Proof. revert r. induction ss as [|s ss IH]; intros r; simpl; [done|]. by rewrite IH. Qed.

Lemma fold_pending ss r (l : list (list NodeInfo)) :
  r_pending r = (λ s, (s, true)) <$> last l →
  r_pending (fold_left (λ r s, set_pending (Some (s, true)) (set_seen r)) ss r)
  = (λ s, (s, true)) <$> last (l ++ ss).
Proof.
  revert r l. induction ss as [|s ss IH]; intros r l Hr; simpl; [by rewrite app_nil_r|].
  rewrite (IH _ (l ++ [s])); [by rewrite <- app_assoc|]. simpl. by rewrite last_snoc.
Qed.

Lemma call_handler_ids c p : r_ids (p_rec (call_handler react c p)) = r_ids (p_rec p).
Proof. apply fold_pending_ids. Qed.

Lemma call_handler_ok seen c f p :
  pass_ok seen p → replay1 c (tracked (p_rec p)) = Some (list_to_set (r_ids (f (p_rec p)))) →
  NoDup (r_ids (f (p_rec p))) → r_pending (f (p_rec p)) = r_pending (p_rec p) →
  pass_ok seen (call_handler react c (on_rec f p)).
Proof.
  intros (Hnd & Hs & Hlen & Hp) Hr Hnd' Hpe. unfold pass_ok. rewrite call_handler_ids. simpl.
  split; [done|]. split; [by rewrite replay_snoc, Hs|]. split; [rewrite length_app; lia|].
  rewrite drop_app_le by done. apply fold_pending. by rewrite Hpe.
Qed.

Lemma on_rec_id p : on_rec (λ r, r) p = p.
Proof. by destruct p. Qed.

Lemma on_rec_ids p : on_rec (set_ids (r_ids (p_rec p))) p = p.
Proof. by destruct p as [[] ? ? ? ?]. Qed.

Lemma apply_nodes_ok seen nodes p :
  pass_ok seen p →
  let p' := apply_nodes react nodes p in
  pass_ok seen p' ∧
  (p_threw p' = false → tracked (p_rec p') = snapshot_ids nodes ∪ tracked (p_rec p)).
Proof.
  revert p. induction nodes as [|n nodes IH]; intros p Hok; simpl; [set_solver|].
  set (p1 := if shas _ _ then _ else _).
  assert (Hp1 : pass_ok seen p1 ∧ tracked (p_rec p1) = {[n_id n]} ∪ tracked (p_rec p)).
  { subst p1. destruct (shas _ _) eqn:E.
    - apply shas_true in E. rewrite call_handler_ids. split.
      + rewrite <- (on_rec_id p). apply call_handler_ok; [done| |apply Hok|done]. simpl.
        rewrite decide_True; [done|by apply elem_of_list_to_set].
      + set_solver.
    - apply shas_false in E. rewrite call_handler_ids. simpl. rewrite tracked_sadd.
      split; [|done]. apply call_handler_ok; [done| |apply NoDup_sadd, Hok|done]. simpl.
      rewrite decide_False; [by rewrite tracked_sadd|by rewrite elem_of_list_to_set]. }
  clearbody p1. destruct Hp1 as [Hok1 Ht1]. destruct (p_threw p1) eqn:Et.
  - split; [done|]. congruence.
  - destruct (IH p1 Hok1) as [Hok' Ht']. split; [done|]. intros Hf.
    rewrite (Ht' Hf), Ht1. set_solver.
Qed.

Lemma apply_removals_ok seen live ids p :
  NoDup ids → (∀ x, x ∈ ids → x ∈ r_ids (p_rec p)) → pass_ok seen p →
  let p' := apply_removals react live ids p in
  pass_ok seen p' ∧
  (p_threw p' = false →
   ∀ x, x ∈ tracked (p_rec p') ↔ x ∈ tracked (p_rec p) ∧ (x ∈ ids → x ∈ live)).
Proof.
  intros Hnd. revert p. induction Hnd as [|id ids Hni Hnd IH]; intros p Hin Hok;
    cbn [apply_removals].
  { split; [done|]. set_solver. }
  destruct (shas id live) eqn:El.
  { destruct (IH p) as [Hok' Ht']; [set_solver|done|]. split; [done|]. intros Hf x.
    rewrite (Ht' Hf x). apply shas_true in El. set_solver. }
  apply shas_false in El.
  set (p1 := call_handler _ _ _).
  assert (Hids : r_ids (p_rec p1) = sdel id (r_ids (p_rec p))) by apply call_handler_ids.
  assert (Hok1 : pass_ok seen p1).
  { apply call_handler_ok; [done| |apply NoDup_sdel, Hok|done]. simpl.
    rewrite decide_True, tracked_sdel; [done|]. apply elem_of_list_to_set, Hin. left. }
  clearbody p1. destruct (p_threw p1) eqn:Et; [split; [done|congruence]|].
  destruct (IH p1) as [Hok' Ht'].
  { intros x Hx. rewrite Hids. apply elem_of_sdel. split; [by intros ->|]. apply Hin. by right. }
  { done. }
  split; [done|]. intros Hf x. rewrite (Ht' Hf x), !elem_of_list_to_set, Hids, elem_of_sdel.
  destruct (decide (x = id)) as [->|]; set_solver.
Qed.

Lemma apply_ok seen nodes allow p :
  pass_ok seen p →
  let p' := _apply react nodes allow p in
  pass_ok seen p' ∧
  (p_threw p' = false → tracked (p_rec p') =
     if allow then snapshot_ids nodes else snapshot_ids nodes ∪ tracked (p_rec p)).
Proof.
  intros Hok. unfold _apply. destruct (apply_nodes_ok seen nodes p Hok) as [Hok1 Ht1].
  set (p1 := apply_nodes _ _ _) in *. clearbody p1.
  destruct (p_threw p1) eqn:Et; [by split; [|congruence]|].
  destruct allow; cbn [negb]; [|by specialize (Ht1 eq_refl)].
  destruct (apply_removals_ok seen (set_of (n_id <$> nodes)) (r_ids (p_rec p1)) p1)
    as [Hok2 Ht2]; [apply Hok1|done|done|].
  split; [done|]. intros Hf. apply set_eq. intros x.
  rewrite (Ht2 Hf x), elem_of_set_of. specialize (Ht1 eq_refl). set_solver.
Qed.
End reconciler_lemmas.

Section reconciler_sync.
Context {W : Type} (react : rcall → W → reaction W).
Implicit Types (p : pass (W := W)) (r : Reconciler).

(** Induction over the callbacks of a pass: what every callback preserves, the
    pass preserves.  Around a callback the code touches [_ids] only. *)
Section callbacks.
Context (I : pass (W := W) → Prop).
Context (Hcall : ∀ c ids p, p_threw p = false → I p →
  I (call_handler react c (on_rec (set_ids ids) p))).

Lemma apply_nodes_ind nodes p : p_threw p = false → I p → I (apply_nodes react nodes p).
Proof.
  revert p. induction nodes as [|n nodes IH]; intros q Hf Hq; cbn [apply_nodes]; [done|].
  set (q1 := if shas _ _ then _ else _).
  assert (Hq1 : I q1).
  { subst q1. destruct (shas _ _); [|by apply (Hcall _ (sadd (n_id n) (r_ids (p_rec q))))].
    rewrite <- (on_rec_ids q). by apply Hcall. }
  clearbody q1. destruct (p_threw q1) eqn:Et; auto.
Qed.

Lemma apply_removals_ind live ids p : p_threw p = false → I p → I (apply_removals react live ids p).
Proof.
  revert p. induction ids as [|id ids IH]; intros q Hf Hq; cbn [apply_removals]; [done|].
  destruct (shas id live); [by apply IH|]. set (q1 := call_handler _ _ _).
  assert (Hq1 : I q1) by (by apply (Hcall _ (sdel id (r_ids (p_rec q))))).
  clearbody q1. destruct (p_threw q1) eqn:Et; auto.
Qed.

Lemma apply_ind nodes allow p : p_threw p = false → I p → I (_apply react nodes allow p).
Proof.
  intros Hf Hp. unfold _apply. pose proof (apply_nodes_ind nodes p Hf Hp) as H1.
  set (p1 := apply_nodes _ _ _) in *. clearbody p1.
  destruct (p_threw p1) eqn:Et; [done|]. destruct allow; cbn [negb]; [|done]. by apply apply_removals_ind.
Qed.

(** The same for a whole [_sync], for what the flags do not matter to. *)
Lemma sync_ind (Hrec : ∀ f p, I p → I (on_rec f p)) fuel nodes allow p p' :
  p_threw p = false → I p → _sync react fuel nodes allow p = Some p' → I p'.
Proof.
  revert nodes allow p. induction fuel as [|fuel IH]; intros nodes allow p Hf Hp; [done|].
  cbn [_sync]. pose proof (apply_ind nodes allow (on_rec (set_syncing true) p) Hf (Hrec _ p Hp)) as H1.
  set (q := _apply _ _ _ _) in *. clearbody q.
  destruct (p_threw (on_rec (set_syncing false) q)) eqn:Et; [intros [= <-]; by apply Hrec|].
  destruct (r_pending _) as [[s al]|]; [|by intros [= <-]; apply Hrec].
  apply IH; [done|]. by do 2 apply Hrec.
Qed.
End callbacks.

Lemma apply_snaps nodes allow p : p_threw p = false →
  p_snaps p `prefix_of` p_snaps (_apply react nodes allow p).
Proof.
  intros Hf. apply (apply_ind (λ q, p_snaps p `prefix_of` p_snaps q)); [|done|done].
  intros c ids q _ Hq. etrans; [done|]. simpl. by apply prefix_app_r.
Qed.

(** The client's state is the fold of the callbacks over it, and a pass whose
    flag is down is one in which no callback threw. *)
Fixpoint quiet (cs : list rcall) (w : W) : Prop :=
  match cs with
  | [] => True
  | c :: cs' => re_threw (react c w) = false ∧ quiet cs' (re_world (react c w))
  end.

Abbreviation play cs w := (fold_left (λ w c, re_world (react c w)) cs w).

Lemma quiet_app cs ds w : quiet (cs ++ ds) w ↔ quiet cs w ∧ quiet ds (play cs w).
Proof. revert w. induction cs as [|c cs IH]; intros w; simpl; [tauto|]. rewrite IH. tauto. Qed.

Lemma sync_world fuel nodes allow p p' (w0 : W) :
  p_threw p = false → p_world p = play (p_calls p) w0 → quiet (p_calls p) w0 →
  _sync react fuel nodes allow p = Some p' →
  p_world p' = play (p_calls p') w0 ∧ (p_threw p' = false → quiet (p_calls p') w0).
Proof.
  intros Hf Hw Hq. apply (sync_ind (λ q, p_world q = play (p_calls q) w0 ∧
    (p_threw q = false → quiet (p_calls q) w0))); [|done|done|done].
  intros c ids q Hfq [Hwq Hqq]. simpl. rewrite fold_left_app, <- Hwq. split; [done|].
  intros Hc. rewrite quiet_app, <- Hwq. split; [auto|]. by split.
Qed.

(** The callbacks of a pass that completes: one per node of the snapshot, in
    order, then one per removed id. *)
Definition visits (n : NodeInfo) (c : rcall) : Prop := c = OnAdd n ∨ c = OnUpdate n.

Lemma apply_nodes_calls nodes p :
  p_threw (apply_nodes react nodes p) = false →
  ∃ vs, Forall2 visits nodes vs ∧ p_calls (apply_nodes react nodes p) = p_calls p ++ vs.
Proof.
  revert p. induction nodes as [|n nodes IH]; intros q; cbn [apply_nodes].
  { exists []. split; [constructor|]. by rewrite app_nil_r. }
  set (q1 := if shas _ _ then _ else _).
  assert (Hq1 : ∃ c, visits n c ∧ p_calls q1 = p_calls q ++ [c]).
  { subst q1. destruct (shas _ _); eexists; (split; [|done]); [by right|by left]. }
  clearbody q1. destruct (p_threw q1) eqn:Et; [congruence|]. intros Hf.
  destruct (IH q1 Hf) as (vs & Hvs & ->), Hq1 as (c & Hc & ->).
  exists (c :: vs). split; [by constructor|]. by rewrite <- app_assoc.
Qed.

Lemma apply_removals_calls live ids p :
  ∃ rm, p_calls (apply_removals react live ids p) = p_calls p ++ (OnRemove <$> rm) ∧
        ∀ x, x ∈ rm → x ∉ live.
Proof.
  revert p. induction ids as [|id ids IH]; intros q; cbn [apply_removals].
  { exists []. split; [by rewrite app_nil_r|]. by intros x ?%not_elem_of_nil. }
  destruct (shas id live) eqn:El; [apply IH|]. apply shas_false in El.
  set (q1 := call_handler _ _ _).
  assert (Hq1 : p_calls q1 = p_calls q ++ [OnRemove id]) by done.
  clearbody q1. destruct (p_threw q1).
  - exists [id]. split; [done|]. set_solver.
  - destruct (IH q1) as (rm & -> & Hrm). exists (id :: rm). rewrite Hq1, <- app_assoc.
    split; [done|]. set_solver.
Qed.

Definition ends_with nodes (cs : list rcall) : Prop :=
  ∃ pre vs rm, cs = pre ++ vs ++ (OnRemove <$> rm) ∧ Forall2 visits nodes vs ∧
               ∀ x, x ∈ rm → x ∉ n_id <$> nodes.

Lemma apply_calls nodes p :
  p_threw (_apply react nodes true p) = false → ends_with nodes (p_calls (_apply react nodes true p)).
Proof.
  unfold _apply. pose proof (apply_nodes_calls nodes p) as Hn.
  set (p1 := apply_nodes _ _ _) in *. clearbody p1.
  destruct (p_threw p1) eqn:Et; [congruence|]. cbn [negb]. intros _.
  destruct (Hn eq_refl) as (vs & Hvs & Hc).
  destruct (apply_removals_calls (set_of (n_id <$> nodes)) (r_ids (p_rec p1)) p1) as (rm & -> & Hrm).
  exists (p_calls p), vs, rm. rewrite Hc, <- app_assoc. split; [done|]. split; [done|].
  intros x Hx. rewrite <- elem_of_set_of. by apply Hrm.
Qed.

(** The newest snapshot a pass has received decides the tracked ids. *)
Lemma sync_ok ids0 fuel nodes p p' :
  pass_ok ids0 (length (p_snaps p)) p → p_threw p = false → r_pending (p_rec p) = None →
  last (p_snaps p) = Some nodes →
  _sync react fuel nodes true p = Some p' → p_threw p' = false →
  replay (p_calls p') ids0 = Some (tracked (p_rec p')) ∧ NoDup (r_ids (p_rec p')) ∧
  r_pending (p_rec p') = None ∧ r_syncing (p_rec p') = false ∧
  (∃ newest, last (p_snaps p') = Some newest ∧ tracked (p_rec p') = snapshot_ids newest ∧
             ends_with newest (p_calls p')) ∧
  p_snaps p `prefix_of` p_snaps p'.
Proof.
  revert nodes p. induction fuel as [|fuel IH]; intros nodes p Hok Hf0 Hpe Hlast; [done|].
  cbn [_sync].
  assert (Hall : pass_ok ids0 (length (p_snaps p)) (on_rec (set_syncing true) p)).
  { destruct Hok as (Hnd & Hs & _ & _). repeat split; simpl; [done|done|lia|].
    by rewrite Hpe, drop_all. }
  destruct (apply_ok react ids0 _ nodes true _ Hall) as [Hok1 Ht1].
  pose proof (apply_calls nodes (on_rec (set_syncing true) p)) as Hcalls.
  assert (Hpre : p_snaps p `prefix_of` p_snaps (_apply react nodes true (on_rec (set_syncing true) p))).
  { exact (apply_snaps nodes true (on_rec (set_syncing true) p) Hf0). }
  set (q := _apply _ _ _ _) in *. clearbody q. simpl.
  destruct (p_threw q) eqn:Et; [intros [= <-]; simpl; congruence|].
  specialize (Ht1 eq_refl). specialize (Hcalls eq_refl). destruct Hok1 as (Hnd1 & Hs1 & Hlen1 & Hp1).
  rewrite Hp1. destruct Hpre as [ss Hss]. rewrite Hss, drop_app_length in *.
  destruct (last ss) as [s|] eqn:Els; simpl.
  - intros Hsync Hf.
    destruct (IH s (on_rec (set_pending None) (on_rec (set_syncing false) q)))
      as (? & ? & ? & ? & ? & Hpre'); try done.
    + repeat split; simpl; [done|done|lia|]. by rewrite drop_all.
    + simpl. rewrite Hss, last_app. by rewrite Els.
    + repeat split; try done. etrans; [|done]. simpl. rewrite Hss. by apply prefix_app_r.
  - intros [= <-] _. simpl. repeat split; try done.
    + exists nodes. rewrite Hss, last_app, Els, Hlast. done.
    + rewrite Hss. by apply prefix_app_r.
Qed.

(** Termination: a measure of the client bounds the re-entrant snapshots. *)
Context (mu : W → nat).
Context (Hmu : ∀ c w, let re := react c w in
  (mu (re_world re) ≤ mu w)%nat ∧ (re_snapshots re ≠ [] → (mu (re_world re) < mu w)%nat)).

(** Either nothing was received since [p0], or the measure went down. *)
Definition pass_mu p0 p : Prop :=
  (mu (p_world p) ≤ mu (p_world p0))%nat ∧
  (r_pending (p_rec p) ≠ r_pending (p_rec p0) → (mu (p_world p) < mu (p_world p0))%nat).

Lemma pass_mu_refl p : pass_mu p p.
Proof. by split. Qed.

Lemma pass_mu_trans p q t : pass_mu p q → pass_mu q t → pass_mu p t.
Proof.
  intros [H1 H2] [H3 H4]. split; [lia|]. intros Hne.
  destruct (decide (r_pending (p_rec t) = r_pending (p_rec q))) as [He|]; [|intuition lia].
  rewrite He in Hne. intuition lia.
Qed.

Lemma apply_mu nodes allow p : p_threw p = false → pass_mu p (_apply react nodes allow p).
Proof.
  intros Hf. apply apply_ind; [|done|apply pass_mu_refl]. intros c ids q _ Hq. eapply pass_mu_trans; [done|].
  destruct (Hmu c (p_world q)) as [Hle Hlt]. split; simpl; [done|].
  destruct (re_snapshots (react c (p_world q))) eqn:E; [|intros _; by apply Hlt].
  intros Hne. by destruct Hne.
Qed.

Lemma sync_total fuel nodes allow p :
  p_threw p = false → r_pending (p_rec p) = None → (mu (p_world p) < fuel)%nat →
  is_Some (_sync react fuel nodes allow p).
Proof.
  revert nodes allow p. induction fuel as [|fuel IH]; intros nodes allow p Hf Hpe Hfuel; [lia|].
  cbn [_sync]. destruct (apply_mu nodes allow (on_rec (set_syncing true) p) Hf) as [_ Hlt].
  set (q := _apply _ _ _ _) in *. clearbody q. simpl in *.
  destruct (p_threw q) eqn:Et; [eauto|]. destruct (r_pending (p_rec q)) as [[s al]|] eqn:Eq; [|eauto].
  apply IH; [done|done|]. simpl. rewrite Hpe in Hlt. specialize (Hlt ltac:(done)). lia.
Qed.
End reconciler_sync.

(** C39: Convergence.  Let a quiescent reconciler receive a snapshot, and let its
    handlers change the membership as they please (the snapshots they provoke
    while it runs are in [p_snaps]).  If the pass returns and no handler threw,
    the callbacks made are exactly a sensible history (never an add of a
    tracked id, a removal or update of an untracked one) from the old set of ids
    to the new one, and the new one is the newest snapshot received. *)
Theorem reconciler_converges {W} (react : rcall → W → reaction W) fuel nodes r w p
  (Hnd : NoDup (r_ids r)) (Hidle : r_pending r = None)
  (Hrun : on_watch react fuel nodes r w = Some p) (Hquiet : p_threw p = false) :
  replay (p_calls p) (tracked r) = Some (tracked (p_rec p)) ∧ NoDup (r_ids (p_rec p)) ∧
  r_pending (p_rec p) = None ∧ r_syncing (p_rec p) = false ∧
  ∃ newest, last (p_snaps p) = Some newest ∧ tracked (p_rec p) = snapshot_ids newest.
Proof.
  destruct (sync_ok react (tracked r) fuel nodes (mkPass (set_seen r) w [] [nodes] false) p)
    as (? & ? & ? & ? & Hl & _); try done.
  repeat split; try done. destruct Hl as (newest & ? & ? & _). by exists newest.
Qed.

(** Termination.  If the client can provoke only finitely many re-entrant
    snapshots (a measure of its state that each one decreases), the pass that
    a snapshot starts returns. *)
Theorem reconciler_terminates {W} (react : rcall → W → reaction W) (mu : W → nat) nodes r w
  (Hmu : ∀ c w, let re := react c w in
    (mu (re_world re) ≤ mu w)%nat ∧ (re_snapshots re ≠ [] → (mu (re_world re) < mu w)%nat))
  (Hidle : r_pending r = None) :
  is_Some (on_watch react (S (mu w)) nodes r w).
Proof. apply (sync_total react mu Hmu); simpl; [done|done|lia]. Qed.

(** * A concrete client *)

Module example.
Definition node (id : jsstr) : NodeInfo := mkNode id None None None.
Definition A : NodeInfo := node (js "A").
Definition B : NodeInfo := node (js "B").
Definition C : NodeInfo := node (js "C").

(** Adding [A] makes the client register [C], once: the membership reports
    A, B, C before [onAdd] returns. *)
Definition client (c : rcall) (w : nat) : reaction nat :=
  match c, w with
  | OnAdd n, S w' =>
      if decide (n_id n = js "A") then mkReaction w' [[A; B; C]] false
      else mkReaction w [] false
  | _, _ => mkReaction w [] false
  end.

(** The same client, whose [onAdd] throws for [B], once. *)
Definition failing (c : rcall) (w : nat) : reaction nat :=
  match c, w with
  | OnAdd n, S (S w') =>
      if decide (n_id n = js "A") then mkReaction (S w') [[A; B]] false
      else mkReaction w [] false
  | OnAdd n, S O => mkReaction O [] true
  | _, _ => mkReaction w [] false
  end.
End example.
Import example.

Lemma reconciler_converges_witness :
  ∃ p, on_watch client 2 [A; B] newReconciler 1%nat = Some p ∧ p_threw p = false ∧
    p_calls p = [OnAdd A; OnAdd B; OnUpdate A; OnUpdate B; OnAdd C] ∧
    replay (p_calls p) (tracked newReconciler) = Some (tracked (p_rec p)).
Proof.
  eexists. split; [vm_compute; reflexivity|]. split; [reflexivity|]. split; [reflexivity|].
  eapply (reconciler_converges client 2 [A; B] newReconciler 1%nat);
    [constructor|reflexivity|vm_compute; reflexivity|reflexivity].
Defined.

Lemma reconciler_terminates_witness : is_Some (on_watch client 2 [A; B] newReconciler 1%nat).
Proof.
  apply (reconciler_terminates client (λ w, w)); [|reflexivity].
  intros c w. unfold client. destruct c as [n| |], w as [|w]; simpl; try (split; [lia|done]).
  case_decide; simpl; split; try lia; done.
Defined.

(** A handler that throws loses more than its own snapshot: the snapshot
    parked in [_pending] before the throw stays there, and the next, newer one
    is applied first and then undone by the parked one.  Here the client
    receives [C] alone, no handler throws any more, and the reconciler ends up
    tracking A and B. *)
Theorem reconciler_stale_pending :
  ∃ p q, on_watch failing 5 [A; B] newReconciler 2%nat = Some p ∧ p_threw p = true ∧
    on_watch failing 5 [C] (p_rec p) (p_world p) = Some q ∧ p_threw q = false ∧
    r_ids (p_rec q) = [js "A"; js "B"].
Proof.
  eexists _, _. split; [vm_compute; reflexivity|]. split; [vm_compute; reflexivity|].
  split; [vm_compute; reflexivity|]. split; vm_compute; reflexivity.
Qed.
