(* ===== verification/Gossip.v ===== *)
(** Anti-entropy gossip membership (packages/core/src/Gossip.ts).

    A node keeps a map of member records and exchanges digests of it.  What an
    operation does to the outside is the list of its effects, in order: the
    snapshots handed to the watchers and the messages handed to the transport.
    Times are milliseconds of the node's clock.  Incarnations are doubles that
    hold integers, so they are kept as [Z] and [n + 1] is [js_succ n].

    The code checks the [id], the [incarnation] and the [alive] flag of a wire
    entry; these are values of any type here ([jsval]).  It does not look at the
    other fields, which are taken at their declared types. *)

From S2P Require Import Prelude JsMap JsNumber Interfaces Membership.

(** * Wire format *)

(** A value of any JavaScript type, as far as [typeof] distinguishes it. *)
Inductive jsval :=
| VUndefined
| VNull
| VBool (b : bool)
| VNum (x : num)
| VStr (s : jsstr)
| VObject.

Record WireEntry := mkWire {
  w_id : jsval;
  w_address : option jsstr;
  w_region : option jsstr;
  w_metadata : option (jmap jsstr jsstr);
  w_incarnation : jsval;
  w_alive : jsval;
}.

(** An element of [members]; a message whose [members] is not an array is [None]. *)
Inductive wire := NotObject | Entry (e : WireEntry).

(** A validated entry. *)
Record GossipEntry := mkGEntry {
  g_id : jsstr;
  g_address : option jsstr;
  g_region : option jsstr;
  g_metadata : option (jmap jsstr jsstr);
  g_incarnation : Z;
  g_alive : bool;
}.

Record GossipMessage := mkMessage { msg_from : jsstr; msg_members : list GossipEntry }.

(** [_isValidEntry], with the entry it lets through. *)
Definition _isValidEntry (entry : wire) : option GossipEntry :=
  match entry with
  | NotObject => None
  | Entry e =>
      match w_id e, w_incarnation e, w_alive e with
      | VStr id, VNum x, VBool alive =>
          if decide (id = []) then None
          else match num_int x with
               | Some n => if decide (n < 0) then None
                           else Some (mkGEntry id (w_address e) (w_region e) (w_metadata e) n alive)
               | None => None
               end
      | _, _, _ => None
      end
  end.

(** * State *)

Record MemberRecord := mkMember {
  m_info : NodeInfo;
  m_address : option jsstr;
  m_incarnation : Z;
  m_alive : bool;
  m_lastSeen : Z;
}.

(** Options of the constructor, with their defaults filled in. *)
Record GossipConfig := mkConfig {
  c_intervalMs : Z;
  c_fanout : Z;
  c_deadMs : Z;
  c_tombstoneMs : Z;
}.

Definition defaultConfig (intervalMs fanout deadMs tombstoneMs : option Z) : GossipConfig :=
  let iv := default 200 intervalMs in
  let dm := default (iv * 5) deadMs in
  mkConfig iv (default 3 fanout) dm (default (dm * 10) tombstoneMs).

Record GossipMembership := mkGossip {
  gm_self : jsstr;
  gm_transport : jsstr;
  gm_config : GossipConfig;
  gm_seeds : list jsstr;
  gm_members : jmap jsstr MemberRecord;
  gm_running : bool;
  gm_timer : bool;
}.

Definition newGossip (now : Z) (self : NodeInfo) (transport : jsstr) (cfg : GossipConfig)
    (seeds : list jsstr) : GossipMembership :=
  mkGossip (n_id self) transport cfg (set_of seeds)
    (mset (n_id self) (mkMember self (Some transport) 0 true now) []) false false.

Definition set_members (ms : jmap jsstr MemberRecord) (g : GossipMembership) : GossipMembership :=
  mkGossip (gm_self g) (gm_transport g) (gm_config g) (gm_seeds g) ms (gm_running g) (gm_timer g).
Definition set_seeds (s : list jsstr) (g : GossipMembership) : GossipMembership :=
  mkGossip (gm_self g) (gm_transport g) (gm_config g) s (gm_members g) (gm_running g) (gm_timer g).
Definition set_running (run timer : bool) (g : GossipMembership) : GossipMembership :=
  mkGossip (gm_self g) (gm_transport g) (gm_config g) (gm_seeds g) (gm_members g) run timer.

Inductive effect :=
| Notify (snapshot : list NodeInfo)
| Send (toAddress : jsstr) (msg : GossipMessage)
| CloseTransport.

(** * Reading the state *)

Definition _aliveInfos (g : GossipMembership) : list NodeInfo :=
  m_info <$> filter (λ r, m_alive r = true) (mvals (gm_members g)).

Definition _notify (g : GossipMembership) : list effect := [Notify (_aliveInfos g)].

Definition digest_entry (r : MemberRecord) : GossipEntry :=
  mkGEntry (n_id (m_info r)) (m_address r) (n_region (m_info r)) (n_metadata (m_info r))
    (m_incarnation r) (m_alive r).

Definition digest (g : GossipMembership) : GossipMessage :=
  mkMessage (gm_self g) (digest_entry <$> mvals (gm_members g)).

(** [""] is falsy. *)
Definition truthy (s : option jsstr) : option jsstr :=
  match s with Some [] => None | _ => s end.

(** Addresses that may be contacted. *)
Definition target_addrs (g : GossipMembership) : list jsstr :=
  set_of
    (omap (λ r, if bool_decide (n_id (m_info r) = gm_self g) || negb (m_alive r) then None
                else truthy (m_address r)) (mvals (gm_members g))
     ++ filter (λ s, s ≠ gm_transport g) (gm_seeds g)).

(** The draws: [draws n] is the [n]-th value of [Math.floor(Math.random() * k)] for a
    pool of [k] addresses, so a number below [k]. *)
Fixpoint pick (fuel : nat) (draws : nat → nat → nat) (pool : list jsstr) : list jsstr :=
  match fuel, pool with
  | S fuel', _ :: _ =>
      let idx := draws fuel' (length pool) in
      match pool !! idx with
      | Some a => a :: pick fuel' draws (delete idx pool)
      | None => []
      end
  | _, _ => []
  end.

Definition _pickTargets (draws : nat → nat → nat) (g : GossipMembership) : list jsstr :=
  let all := target_addrs g in
  if decide (Z.of_nat (length all) ≤ c_fanout (gm_config g)) then all
  else pick (Z.to_nat (c_fanout (gm_config g))) draws all.

Definition _gossip (draws : nat → nat → nat) (g : GossipMembership) : list effect :=
  (λ addr, Send addr (digest g)) <$> _pickTargets draws g.

(** * Receiving *)

Definition entry_info (e : GossipEntry) : NodeInfo :=
  mkNode (g_id e) (g_region e) (g_address e) (g_metadata e).

Definition update_member (id : jsstr) (f : MemberRecord → MemberRecord) (g : GossipMembership)
    : GossipMembership := set_members (mupd id f (gm_members g)) g.

(** A local change of a record's status: incarnation plus one. *)
Definition bump (alive : bool) (r : MemberRecord) : MemberRecord :=
  mkMember (m_info r) (m_address r) (js_succ (m_incarnation r)) alive (m_lastSeen r).
Definition touch (now : Z) (r : MemberRecord) : MemberRecord :=
  mkMember (m_info r) (m_address r) (m_incarnation r) (m_alive r) now.

(** [_merge] of a valid entry; the boolean says that the alive set changed. *)
Definition merge_valid (now : Z) (e : GossipEntry) (g : GossipMembership) : GossipMembership * bool :=
  if decide (g_id e = gm_self g) then
    match mget (gm_self g) (gm_members g) with
    | None => (g, false)
    | Some self =>
        let mustRefute := bool_decide (m_incarnation self < g_incarnation e)
          || (bool_decide (g_incarnation e = m_incarnation self) && negb (g_alive e)) in
        if mustRefute then
          (update_member (gm_self g)
             (λ s, mkMember (m_info s) (m_address s) (js_succ (g_incarnation e)) true now) g, false)
        else (g, false)
    end
  else
    match mget (g_id e) (gm_members g) with
    | None =>
        let g1 := set_members (mset (g_id e)
                    (mkMember (entry_info e) (g_address e) (g_incarnation e) (g_alive e) now)
                    (gm_members g)) g in
        (match truthy (g_address e) with
         | Some a => set_seeds (sadd a (gm_seeds g1)) g1
         | None => g1
         end, g_alive e)
    | Some known =>
        if bool_decide (g_incarnation e = m_incarnation known) && negb (g_alive e) && m_alive known
        then (update_member (g_id e)
                (λ k, mkMember (m_info k) (m_address k) (m_incarnation k) false now) g, true)
        else if decide (m_incarnation known < g_incarnation e)
        then (update_member (g_id e)
                (λ k, mkMember (entry_info e) (g_address e) (g_incarnation e) (g_alive e) now) g,
              xorb (m_alive known) (g_alive e))
        else (g, false)
    end.

Definition _merge (now : Z) (entry : wire) (g : GossipMembership) : GossipMembership * bool :=
  match _isValidEntry entry with
  | None => (g, false)
  | Some e => merge_valid now e g
  end.

Fixpoint merge_all (now : Z) (members : list wire) (g : GossipMembership) (changed : bool)
    : GossipMembership * bool :=
  match members with
  | [] => (g, changed)
  | entry :: members' =>
      let '(g', c) := _merge now entry g in merge_all now members' g' (c || changed)
  end.

Definition _onReceive (now : Z) (members : option (list wire)) (g : GossipMembership)
    : GossipMembership * list effect :=
  match members with
  | None => (g, [])
  | Some ms =>
      let '(g', changed) := merge_all now ms g false in
      (g', if changed then _notify g' else [])
  end.

(** * Timeouts *)

(** What becomes of one record; [None] when it is deleted. *)
Definition sweep_record (cfg : GossipConfig) (self id : jsstr) (now : Z) (r : MemberRecord)
    : option MemberRecord :=
  if decide (id = self) then Some r
  else if m_alive r then
    if decide (now - m_lastSeen r > c_deadMs cfg) then Some (bump false r) else Some r
  else if decide (now - m_lastSeen r > c_tombstoneMs cfg) then None else Some r.

(** The loop over the map, which deletes the current entry at most; [seeds]
    loses the addresses of the forgotten members. *)
Fixpoint sweep_loop (cfg : GossipConfig) (self : jsstr) (now : Z)
    (ms : jmap jsstr MemberRecord) (seeds : list jsstr)
    : jmap jsstr MemberRecord * list jsstr * bool :=
  match ms with
  | [] => ([], seeds, false)
  | (id, r) :: ms' =>
      match sweep_record cfg self id now r with
      | None =>
          sweep_loop cfg self now ms'
            (match m_address r with Some a => sdel a seeds | None => seeds end)
      | Some r' =>
          let '(ms2, seeds2, ch) := sweep_loop cfg self now ms' seeds in
          ((id, r') :: ms2, seeds2, ch || (m_alive r && negb (m_alive r')))
      end
  end.

Definition _sweep (now : Z) (g : GossipMembership) : GossipMembership * list effect :=
  let '(ms, seeds, changed) :=
    sweep_loop (gm_config g) (gm_self g) now (gm_members g) (gm_seeds g) in
  let g' := set_seeds seeds (set_members ms g) in
  (g', if changed then _notify g' else []).

(** * Operations *)

Definition _tick (now : Z) (draws : nat → nat → nat) (g : GossipMembership)
    : GossipMembership * list effect :=
  let g1 := update_member (gm_self g) (λ s, touch now (bump (m_alive s) s)) g in
  let '(g2, es) := _sweep now g1 in
  (g2, es ++ _gossip draws g2).

(** The timer fires; while the node runs, it is armed again. *)
Definition on_timer (now : Z) (draws : nat → nat → nat) (g : GossipMembership)
    : GossipMembership * list effect :=
  if gm_running g then
    let '(g1, es) := _tick now draws g in (set_running (gm_running g1) true g1, es)
  else (g, []).

Definition start (now : Z) (g : GossipMembership) : GossipMembership * list effect :=
  if gm_running g then (g, [])
  else
    let g1 := set_running true (gm_timer g) g in
    let g2 := update_member (gm_self g) (λ s, touch now (bump true s)) g1 in
    (set_running true true g2,
     if mhas (gm_self g) (gm_members g) then _notify g2 else []).

Definition stop (draws : nat → nat → nat) (g : GossipMembership) : GossipMembership * list effect :=
  if negb (gm_running g) then (g, [])
  else
    let g1 := set_running false false g in
    let g2 := update_member (gm_self g) (bump false) g1 in
    (g2, (if mhas (gm_self g) (gm_members g) then _gossip draws g2 else []) ++ [CloseTransport]).

Definition register (now : Z) (draws : nat → nat → nat) (node : NodeInfo) (g : GossipMembership)
    : GossipMembership * list effect :=
  if decide (n_id node = gm_self g) then
    let g1 := update_member (gm_self g)
                (λ s, mkMember node (m_address s) (js_succ (m_incarnation s)) true now) g in
    (g1, _notify g1 ++ _gossip draws g1)
  else
    (match truthy (n_address node) with
     | Some a => set_seeds (sadd a (gm_seeds g)) g
     | None => g
     end, []).

Definition deregister (draws : nat → nat → nat) (nodeId : jsstr) (g : GossipMembership)
    : GossipMembership * list effect :=
  match mget nodeId (gm_members g) with
  | None => (g, [])
  | Some r =>
      if m_alive r then
        let g1 := update_member nodeId (bump false) g in
        (g1, _notify g1 ++ _gossip draws g1)
      else (g, [])
  end.

Definition list_members (now : Z) (g : GossipMembership)
    : GossipMembership * list effect * list NodeInfo :=
  let '(g', es) := _sweep now g in (g', es, _aliveInfos g').

(** * Versions: the semilattice the protocol joins *)

Abbreviation version := (Z * bool)%type.

(** Higher incarnation wins; at equal incarnation dead beats alive. *)
Definition ver_join (v w : version) : version :=
  if decide (v.1 < w.1) then w
  else if decide (w.1 < v.1) then v
  else (v.1, v.2 && w.2).

#[export, refine] Instance version_semilattice : Semilattice version := { sl_join := ver_join }.
Proof.
  - intros [i a] [j b] [k c]. unfold ver_join; simpl.
    repeat (case_decide; simpl in *); try (f_equal; lia); try done; try lia;
      rewrite andb_assoc; f_equal; lia.
  - intros [i a] [j b]. unfold ver_join; simpl.
    repeat case_decide; try lia; try done. rewrite andb_comm. f_equal. lia.
  - intros [i a]. unfold ver_join; simpl. rewrite decide_False by lia.
    rewrite decide_False by lia. by destruct a.
Defined.

Definition ver_of (e : GossipEntry) : version := (g_incarnation e, g_alive e).

(** What a node believes about [id]. *)
Definition view (g : GossipMembership) (id : jsstr) : option version :=
  (λ r, (m_incarnation r, m_alive r)) <$> mget id (gm_members g).

Lemma gm_self_merge now e g : gm_self (merge_valid now e g).1 = gm_self g.
Proof. unfold merge_valid. repeat case_match; done. Qed.

(** Merging an entry about another node joins its version. *)
Lemma merge_view now e g id :
  id ≠ gm_self g →
  view (merge_valid now e g).1 id
  = if decide (g_id e = id) then sl_join (view g id) (Some (ver_of e)) else view g id.
Proof.
  intros Hid. unfold merge_valid, view. destruct (decide (g_id e = gm_self g)) as [Es|Es].
  { rewrite (decide_False (P := g_id e = id)) by congruence.
    repeat case_match; simpl; try done. rewrite mget_mupd, decide_False by congruence. done. }
  destruct (mget (g_id e) (gm_members g)) as [k|] eqn:Ek.
  - destruct (decide (g_id e = id)) as [<-|He]; [rewrite Ek; simpl|].
    + unfold ver_join, ver_of; simpl.
      destruct (bool_decide_reflect (g_incarnation e = m_incarnation k)) as [Ei|Ei]; simpl.
      * rewrite Ei, !(decide_False (P := m_incarnation k < m_incarnation k)) by lia.
        destruct (g_alive e), (m_alive k) eqn:Eal; simpl; rewrite ?Ek; simpl; rewrite ?Eal; try done.
        rewrite mget_mupd, decide_True, Ek by done. done.
      * destruct (decide (m_incarnation k < g_incarnation e)); simpl.
        -- rewrite mget_mupd, decide_True, Ek by done. done.
        -- rewrite decide_True by lia. by rewrite Ek.
    + repeat case_match; simpl; try done; rewrite mget_mupd, decide_False by congruence; done.
  - destruct (decide (g_id e = id)) as [<-|He]; [rewrite Ek|];
      (destruct (truthy (g_address e)); simpl; rewrite mget_mset);
      [by rewrite decide_True|by rewrite decide_True|by rewrite decide_False..].
Qed.

(** The valid entries of a message, and the versions it claims for [id]. *)
Definition valid_entries (members : option (list wire)) : list GossipEntry :=
  omap _isValidEntry (default [] members).
Definition claims (id : jsstr) (es : list GossipEntry) : list version :=
  ver_of <$> filter (λ e, g_id e = id) es.

(** Deliveries, each at its time. *)
Definition receive_all (ms : list (Z * option (list wire))) (g : GossipMembership)
    : GossipMembership :=
  fold_left (λ g m, (_onReceive m.1 m.2 g).1) ms g.

Lemma merge_all_self now ws g c : gm_self (merge_all now ws g c).1 = gm_self g.
Proof.
  revert g c. induction ws as [|w ws IH]; intros g c; simpl; [done|].
  destruct (_merge now w g) as [g' c'] eqn:E. rewrite IH.
  change g' with (g', c').1. rewrite <- E. unfold _merge.
  destruct (_isValidEntry w); [apply gm_self_merge|done].
Qed.

Lemma merge_all_view now ws g c id :
  id ≠ gm_self g →
  view (merge_all now ws g c).1 id
  = fold_left sl_join (Some <$> claims id (omap _isValidEntry ws)) (view g id).
Proof.
  revert g c. induction ws as [|w ws IH]; intros g c Hid; cbn [merge_all omap list_omap]; [done|].
  unfold _merge at 1. destruct (_isValidEntry w) as [e|].
  - destruct (merge_valid now e g) as [g' c'] eqn:E.
    assert (g' = (merge_valid now e g).1) as -> by (by rewrite E).
    rewrite IH by (by rewrite gm_self_merge). rewrite merge_view by done. unfold claims.
    rewrite filter_cons. by case_decide.
  - by apply IH.
Qed.

Lemma onReceive_gossip now m g :
  (_onReceive now m g).1 = (merge_all now (default [] m) g false).1.
Proof. destruct m as [ws|]; simpl; [|done]. by destruct (merge_all now ws g false). Qed.

Lemma receive_all_self ms g : gm_self (receive_all ms g) = gm_self g.
Proof.
  revert g. induction ms as [|[t m] ms IH]; intros g; simpl; [done|].
  unfold receive_all in IH. rewrite IH. cbn [fst snd]. by rewrite onReceive_gossip, merge_all_self.
Qed.

Lemma receive_all_view ms g id :
  id ≠ gm_self g →
  view (receive_all ms g) id
  = fold_left sl_join (Some <$> claims id (ms ≫= λ m, valid_entries m.2)) (view g id).
Proof.
  revert g. induction ms as [|[t m] ms IH]; intros g Hid; simpl; [done|].
  unfold receive_all in IH. rewrite IH by (by rewrite onReceive_gossip, merge_all_self).
  rewrite onReceive_gossip, merge_all_view by done.
  unfold claims, valid_entries. by rewrite filter_app, !fmap_app, fold_left_app.
Qed.

(** C32: Convergence.  Two nodes that start with the same belief about a third
    one and receive messages with the same claims about it (in any order, at any
    times, batched and duplicated in any way, and with any malformed entries
    interspersed) end with the same belief. *)
Theorem gossip_converges (g1 g2 : GossipMembership) ms1 ms2 id
  (H1 : id ≠ gm_self g1) (H2 : id ≠ gm_self g2) (Hstart : view g1 id = view g2 id)
  (Hsame : ∀ v, v ∈ claims id (ms1 ≫= λ m, valid_entries m.2) ↔
                v ∈ claims id (ms2 ≫= λ m, valid_entries m.2)) :
  view (receive_all ms1 g1) id = view (receive_all ms2 g2) id.
Proof.
  rewrite !receive_all_view, Hstart by done. apply sl_fold_elems. intros v.
  rewrite !list_elem_of_fmap. by setoid_rewrite Hsame.
Qed.

(** * The own record: refutation *)

Lemma merge_self_view now e g :
  view (merge_valid now e g).1 (gm_self g)
  = if decide (g_id e = gm_self g) then
      (λ v : version, if decide (v.1 < g_incarnation e ∨ g_incarnation e = v.1 ∧ g_alive e = false)
                      then (js_succ (g_incarnation e), true) else v) <$> view g (gm_self g)
    else view g (gm_self g).
Proof.
  unfold merge_valid, view. destruct (decide (g_id e = gm_self g)) as [Es|Es].
  - destruct (mget (gm_self g) (gm_members g)) as [s|] eqn:E; simpl; [|by rewrite E].
    destruct (bool_decide_reflect (m_incarnation s < g_incarnation e)) as [Hi|Hi]; simpl.
    { rewrite mget_mupd, decide_True, E by done. simpl. rewrite decide_True; auto. }
    destruct (bool_decide_reflect (g_incarnation e = m_incarnation s)) as [Hj|Hj]; simpl.
    + destruct (g_alive e) eqn:Ea; simpl; rewrite ?E.
      * simpl. rewrite decide_False; [done|]. intros [|[]]; [lia|done].
      * rewrite mget_mupd, decide_True, E by done. simpl. rewrite decide_True; auto.
    + rewrite E. simpl. rewrite decide_False; [done|]. intros [|[]]; lia.
  - destruct (mget (g_id e) (gm_members g)) as [k|] eqn:Ek.
    + repeat case_match; simpl; try done; rewrite mget_mupd, decide_False by congruence; done.
    + destruct (truthy (g_address e)); simpl; rewrite mget_mset, decide_False by congruence; done.
Qed.

(** * Invariant *)

Definition member_ok (id : jsstr) (r : MemberRecord) : Prop :=
  n_id (m_info r) = id ∧ 0 ≤ m_incarnation r.

Definition gossip_ok (g : GossipMembership) : Prop :=
  mwf (gm_members g) ∧ is_Some (mget (gm_self g) (gm_members g)) ∧
  (∀ id r, mget id (gm_members g) = Some r → member_ok id r) ∧ NoDup (gm_seeds g).

Lemma gossip_ok_update id f g :
  (∀ r, member_ok id r → member_ok id (f r)) → gossip_ok g → gossip_ok (update_member id f g).
Proof.
  intros Hf (Hwf & Hself & Hmem & Hs). split; [by apply mwf_mupd|]. split; [|split; [|done]]; simpl.
  - rewrite mget_mupd. case_decide; [|done]. by apply fmap_is_Some.
  - intros i r. rewrite mget_mupd. case_decide; [|auto]. subst i.
    destruct (mget id (gm_members g)) as [r0|] eqn:E; simpl; [|done]. intros [= <-]. auto.
Qed.

Lemma gossip_ok_seeds s g : NoDup s → gossip_ok g → gossip_ok (set_seeds s g).
Proof. unfold gossip_ok. simpl. tauto. Qed.

Lemma gossip_ok_running b t g : gossip_ok g → gossip_ok (set_running b t g).
Proof. done. Qed.

Lemma member_ok_bump id b r : member_ok id r → member_ok id (bump b r).
Proof. intros [? ?]. split; [done|]. by apply js_succ_nonneg. Qed.

Lemma member_ok_touch id now r : member_ok id r → member_ok id (touch now r).
Proof. done. Qed.

#[export] Hint Resolve gossip_ok_update gossip_ok_seeds gossip_ok_running
  member_ok_bump member_ok_touch : rtc.

Lemma valid_incarnation w e : _isValidEntry w = Some e → 0 ≤ g_incarnation e ∧ g_id e ≠ [].
Proof.
  unfold _isValidEntry. intros H. repeat (case_hyp H; try done). simplify_eq/=. split; [lia|done].
Qed.

Lemma gossip_ok_merge now e g : 0 ≤ g_incarnation e → gossip_ok g → gossip_ok (merge_valid now e g).1.
Proof.
  intros Hi Hok. unfold merge_valid. destruct (decide (g_id e = gm_self g)) as [Es|Es].
  { repeat case_match; simpl; try done. apply gossip_ok_update; [|done].
    intros r [Hr _]. split; simpl; [done|by apply js_succ_nonneg]. }
  destruct (mget (g_id e) (gm_members g)) as [k|] eqn:Ek.
  - repeat case_match; simpl; try done; apply gossip_ok_update; try done; intros r [? ?]; by split.
  - assert (Hok1 : gossip_ok (set_members (mset (g_id e)
      (mkMember (entry_info e) (g_address e) (g_incarnation e) (g_alive e) now) (gm_members g)) g)).
    { destruct Hok as (Hwf & Hself & Hmem & Hs). split; [by apply mwf_mset|].
      split; [|split; [|done]]; simpl.
      - rewrite mget_mset. case_decide; [eauto|done].
      - intros id r. rewrite mget_mset. case_decide; [|auto]. intros [= <-]. by split. }
    destruct (truthy (g_address e)); simpl; [|done]. apply gossip_ok_seeds; [|done].
    apply NoDup_sadd, Hok.
Qed.

Lemma gossip_ok_merge_all now ws g c : gossip_ok g → gossip_ok (merge_all now ws g c).1.
Proof.
  revert g c. induction ws as [|w ws IH]; intros g c Hok; cbn [merge_all]; [done|].
  unfold _merge. destruct (_isValidEntry w) as [e|] eqn:Ew; [|by apply IH].
  destruct (merge_valid now e g) as [g' c'] eqn:E. apply IH.
  change g' with (g', c').1. rewrite <- E. apply gossip_ok_merge; [|done].
  by eapply valid_incarnation.
Qed.

(** ** The sweep *)

Lemma sdel_sublist {A} `{EqDecision A} (x : A) l : sdel x l `sublist_of` l.
Proof.
  induction l as [|y l IH]; simpl; [done|].
  case_decide; [by apply sublist_cons|by apply sublist_skip].
Qed.

Lemma sweep_record_flip cfg self id now r :
  (∃ r', sweep_record cfg self id now r = Some r' ∧ m_alive r && negb (m_alive r') = true)
  ↔ m_alive r = true ∧ id ≠ self ∧ now - m_lastSeen r > c_deadMs cfg.
Proof.
  unfold sweep_record. destruct (decide (id = self)) as [->|Hne].
  - split; [|by intros (_ & ? & _)]. intros (r' & [= <-] & H). by destruct (m_alive r).
  - destruct (m_alive r) eqn:Ea.
    + case_decide; split; try (by intros (_ & _ & ?)).
      * done.
      * intros _. eexists. split; [done|]. done.
      * intros (r' & [= <-] & H'). by rewrite Ea in H'.
    + split; [|by intros []]. by intros (r' & _ & H').
Qed.

Lemma sweep_loop_spec cfg self now ms seeds :
  mwf ms →
  let '(ms', seeds', changed) := sweep_loop cfg self now ms seeds in
  mkeys ms' `sublist_of` mkeys ms ∧ seeds' `sublist_of` seeds ∧
  (∀ id, mget id ms' = mget id ms ≫= sweep_record cfg self id now) ∧
  (changed = true ↔ ∃ id r, mget id ms = Some r ∧ m_alive r = true ∧ id ≠ self ∧
                            now - m_lastSeen r > c_deadMs cfg).
Proof.
  unfold mwf, mkeys. revert seeds. induction ms as [|[id r] ms IH]; intros seeds; simpl.
  { intros _. repeat split; try done. by intros (? & ? & ? & ?). }
  intros [Hni Hnd]%NoDup_cons.
  assert (Hn : mget id ms = None) by (by apply mget_None_keys).
  destruct (sweep_record cfg self id now r) as [r'|] eqn:Er.
  - specialize (IH seeds Hnd). destruct (sweep_loop cfg self now ms seeds) as [[ms2 s2] ch].
    destruct IH as (Hk & Hs & Hg & Hc). split; [by apply sublist_skip|]. split; [done|]. split.
    + intros i. simpl. case_decide; [by subst|apply Hg].
    + rewrite orb_true_iff, Hc. split.
      * intros [(i & q & Hi & Hq)|Hf].
        -- exists i, q. rewrite decide_False; [done|]. intros ->. congruence.
        -- exists id, r. rewrite decide_True by done. split; [done|].
           apply (sweep_record_flip cfg self id now). eauto.
      * intros (i & q & Hi & Hq). case_decide; simplify_eq.
        -- right. apply sweep_record_flip in Hq as (r2 & Hr2 & ?). congruence.
        -- left. eauto.
  - set (seeds1 := match m_address r with Some a => sdel a seeds | None => seeds end).
    assert (Hs1 : seeds1 `sublist_of` seeds).
    { subst seeds1. destruct (m_address r); [apply sdel_sublist|done]. }
    specialize (IH seeds1 Hnd). destruct (sweep_loop cfg self now ms seeds1) as [[ms2 s2] ch].
    destruct IH as (Hk & Hs & Hg & Hc). split; [by apply sublist_cons|]. split; [by etrans|]. split.
    + intros i. rewrite Hg. case_decide; [|done]. subst. by rewrite Hn.
    + rewrite Hc. split; intros (i & q & Hi & Hq).
      * exists i, q. rewrite decide_False; [done|]. intros ->. congruence.
      * case_decide; simplify_eq; [|eauto].
        apply sweep_record_flip in Hq as (r2 & Hr2 & ?). congruence.
Qed.

Lemma sweep_spec now g : mwf (gm_members g) →
  let g' := (_sweep now g).1 in
  mkeys (gm_members g') `sublist_of` mkeys (gm_members g) ∧
  gm_seeds g' `sublist_of` gm_seeds g ∧
  (∀ id, mget id (gm_members g')
         = mget id (gm_members g) ≫= sweep_record (gm_config g) (gm_self g) id now) ∧
  gm_self g' = gm_self g ∧
  ((_sweep now g).2 ≠ [] ↔
   ∃ id r, mget id (gm_members g) = Some r ∧ m_alive r = true ∧ id ≠ gm_self g ∧
           now - m_lastSeen r > c_deadMs (gm_config g)).
Proof.
  intros Hwf. unfold _sweep.
  pose proof (sweep_loop_spec (gm_config g) (gm_self g) now (gm_members g) (gm_seeds g) Hwf) as H.
  destruct (sweep_loop _ _ _ _ _) as [[ms seeds] ch]. destruct H as (? & ? & ? & Hc).
  repeat split; try done; simpl; [|intros Hch..].
  - intros Hne. apply Hc. by destruct ch.
  - apply Hc in Hch. by rewrite Hch.
Qed.

Lemma gossip_ok_sweep now g : gossip_ok g → gossip_ok (_sweep now g).1.
Proof.
  intros (Hwf & Hself & Hmem & Hs). destruct (sweep_spec now g Hwf) as (Hk & Hse & Hg & He & _).
  split; [exact (sublist_NoDup _ _ Hwf Hk)|]. split; [|split].
  - rewrite He, Hg. destruct Hself as [s ->]. simpl. unfold sweep_record. rewrite decide_True by done.
    eauto.
  - intros id r. rewrite Hg. destruct (mget id (gm_members g)) as [r0|] eqn:E; simpl; [|done].
    apply Hmem in E. unfold sweep_record. repeat case_decide; repeat case_match; intros ?;
      simplify_eq; auto with rtc.
  - exact (sublist_NoDup _ _ Hs Hse).
Qed.

(** * Runs *)

Inductive gossip_op :=
| OpStart
| OpStop
| OpTimer
| OpRegister (node : NodeInfo)
| OpDeregister (id : jsstr)
| OpReceive (members : option (list wire))
| OpList.

Definition run_op (now : Z) (draws : nat → nat → nat) (op : gossip_op) (g : GossipMembership)
    : GossipMembership * list effect :=
  match op with
  | OpStart => start now g
  | OpStop => stop draws g
  | OpTimer => on_timer now draws g
  | OpRegister node => register now draws node g
  | OpDeregister id => deregister draws id g
  | OpReceive m => _onReceive now m g
  | OpList => (list_members now g).1
  end.

Definition run_ops (ops : list (Z * (nat → nat → nat) * gossip_op)) (g : GossipMembership)
    : GossipMembership := fold_left (λ g o, (run_op o.1.1 o.1.2 o.2 g).1) ops g.

(** The effect of an operation on the state, without the messages. *)
Lemma run_op_state now draws op g :
  (run_op now draws op g).1 =
  match op with
  | OpStart => if gm_running g then g else
      set_running true true (update_member (gm_self g) (λ s, touch now (bump true s))
        (set_running true (gm_timer g) g))
  | OpStop => if negb (gm_running g) then g else
      update_member (gm_self g) (bump false) (set_running false false g)
  | OpTimer => if gm_running g then
      let g2 := (_sweep now (update_member (gm_self g) (λ s, touch now (bump (m_alive s) s)) g)).1 in
      set_running (gm_running g2) true g2 else g
  | OpRegister node =>
      if decide (n_id node = gm_self g) then
        update_member (gm_self g)
          (λ s, mkMember node (m_address s) (js_succ (m_incarnation s)) true now) g
      else match truthy (n_address node) with
           | Some a => set_seeds (sadd a (gm_seeds g)) g
           | None => g
           end
  | OpDeregister id =>
      match mget id (gm_members g) with
      | Some r => if m_alive r then update_member id (bump false) g else g
      | None => g
      end
  | OpReceive m => (merge_all now (default [] m) g false).1
  | OpList => (_sweep now g).1
  end.
Proof.
  destruct op as [| | |node|id|m|]; simpl.
  - unfold start. by destruct (gm_running g).
  - unfold stop. by destruct (gm_running g).
  - unfold on_timer, _tick. destruct (gm_running g); [|done].
    destruct (_sweep _ _) as [g2 es]. done.
  - unfold register. case_decide; [done|]. by destruct (truthy _).
  - unfold deregister. destruct (mget _ _) as [r|]; [|done]. by destruct (m_alive r).
  - apply onReceive_gossip.
  - unfold list_members. by destruct (_sweep now g).
Qed.

Lemma run_op_self now draws op g : gm_self (run_op now draws op g).1 = gm_self g.
Proof.
  assert (Hs : ∀ g, gm_self (_sweep now g).1 = gm_self g).
  { intros h. unfold _sweep. by destruct (sweep_loop _ _ _ _ _) as [[??]?]. }
  rewrite run_op_state. destruct op; try (repeat case_match; done).
  - destruct (gm_running g); [|done]. simpl. by rewrite Hs.
  - apply merge_all_self.
Qed.

Lemma gossip_ok_op now draws op g : gossip_ok g → gossip_ok (run_op now draws op g).1.
Proof.
  intros Hok. rewrite run_op_state. destruct op as [| | |node|id|m|].
  - destruct (gm_running g); [done|]. apply gossip_ok_running, gossip_ok_update; auto with rtc.
  - destruct (gm_running g); [|done]. apply gossip_ok_update; auto with rtc.
  - destruct (gm_running g); [|done]. simpl. apply gossip_ok_running, gossip_ok_sweep.
    apply gossip_ok_update; auto with rtc.
  - case_decide as Hn.
    + apply gossip_ok_update; [|done]. intros r [_ ?]. split; simpl; [done|by apply js_succ_nonneg].
    + destruct (truthy _); [|done]. apply gossip_ok_seeds; [apply NoDup_sadd, Hok|done].
  - repeat case_match; auto with rtc.
  - by apply gossip_ok_merge_all.
  - by apply gossip_ok_sweep.
Qed.

Lemma gossip_ok_new now self transport cfg seeds : gossip_ok (newGossip now self transport cfg seeds).
Proof.
  split; [apply mwf_mset, mwf_nil|]. split; [|split; [|apply NoDup_set_of]]; simpl.
  - rewrite decide_True by done. eauto.
  - intros id r. case_decide; [|done]. intros [= <-]. subst. split; simpl; [done|lia].
Qed.

(** What an operation does to the belief about one node, when no counter is
    saturated. *)
Lemma view_update id f g i :
  view (update_member id f g) i
  = if decide (i = id) then (λ r, (m_incarnation (f r), m_alive (f r))) <$> mget id (gm_members g)
    else view g i.
Proof.
  unfold view. simpl. rewrite mget_mupd. case_decide; [subst|done].
  by destruct (mget id (gm_members g)).
Qed.

Definition kills (self : jsstr) (op : gossip_op) : Prop :=
  match op with OpStop => True | OpDeregister id => id = self | _ => False end.

Definition believed_alive (g : GossipMembership) (id : jsstr) : Prop :=
  ∃ n, view g id = Some (n, true).

Lemma merge_all_self_alive now ws g c :
  believed_alive g (gm_self g) → believed_alive (merge_all now ws g c).1 (gm_self g).
Proof.
  revert g c. induction ws as [|w ws IH]; intros g c Hal; cbn [merge_all]; [done|].
  unfold _merge. destruct (_isValidEntry w) as [e|]; [|by apply IH].
  destruct (merge_valid now e g) as [g' c'] eqn:E.
  assert (g' = (merge_valid now e g).1) as Hg' by (by rewrite E).
  assert (gm_self g' = gm_self g) as Hself by (by rewrite Hg', gm_self_merge).
  rewrite <- Hself. apply IH. rewrite Hself, Hg'. destruct Hal as [n Hn].
  unfold believed_alive. rewrite merge_self_view, Hn. case_decide; simpl; [|by exists n].
  case_decide; [by eexists|by exists n].
Qed.

Lemma sweep_view now g id : mwf (gm_members g) →
  view (_sweep now g).1 id
  = (λ r, (m_incarnation r, m_alive r)) <$>
      (mget id (gm_members g) ≫= sweep_record (gm_config g) (gm_self g) id now).
Proof. intros Hwf. unfold view. by destruct (sweep_spec now g Hwf) as (_ & _ & -> & _). Qed.

Lemma sweep_self_view now g :
  mwf (gm_members g) → view (_sweep now g).1 (gm_self g) = view g (gm_self g).
Proof.
  intros Hwf. rewrite sweep_view by done. unfold view, sweep_record.
  destruct (mget _ _); simpl; [|done]. by rewrite decide_True.
Qed.

Lemma run_op_self_alive now draws op g :
  ¬ kills (gm_self g) op → gossip_ok g → believed_alive g (gm_self g) →
  believed_alive (run_op now draws op g).1 (gm_self g).
Proof.
  intros Hk Hok Hal. pose proof Hok as (Hwf & [s Hs] & _). rewrite run_op_state.
  unfold believed_alive in *. destruct op as [| | |node|id|m|]; simpl in Hk.
  - destruct (gm_running g); [done|]. change (view (set_running true true ?h)) with (view h).
    rewrite view_update, decide_True by done. simpl. rewrite Hs. by eexists.
  - done.
  - destruct (gm_running g); [|done]. simpl. change (view (set_running ?b true ?h)) with (view h).
    set (g1 := update_member _ _ g).
    change (gm_self g) with (gm_self g1) at 1. setoid_rewrite (sweep_self_view now g1); [|by apply mwf_mupd].
    change (gm_self g1) with (gm_self g). unfold g1.
    rewrite view_update, decide_True, Hs by done. simpl. destruct Hal as [n Hn].
    unfold view in Hn. rewrite Hs in Hn. injection Hn as _ ->. by eexists.
  - case_decide.
    + rewrite view_update, decide_True, Hs by done. by eexists.
    + by destruct (truthy _).
  - repeat case_match; try done. rewrite view_update, decide_False by congruence. done.
  - by apply merge_all_self_alive.
  - by rewrite sweep_self_view.
Qed.

(** Safety of the own record.  Whatever messages a node receives (forged
    death claims included), whatever it sweeps and however its timer fires, as
    long as it neither stops nor deregisters itself it keeps listing itself as
    alive; and along the way its state stays well-formed: one record per id,
    filed under the id it describes, with a non-negative incarnation. *)
Theorem gossip_self_alive now self transport cfg seeds ops
  (Hops : Forall (λ o : Z * (nat → nat → nat) * gossip_op, ¬ kills (n_id self) o.2) ops) :
  let g := run_ops ops (newGossip now self transport cfg seeds) in
  gossip_ok g ∧ n_id self ∈ n_id <$> _aliveInfos g.
Proof.
  set (g0 := newGossip now self transport cfg seeds).
  assert (H0 : gossip_ok g0 ∧ gm_self g0 = n_id self ∧ believed_alive g0 (n_id self)).
  { split; [apply gossip_ok_new|]. split; [done|]. exists 0. unfold view. simpl.
    by rewrite decide_True. }
  clearbody g0. assert (H : ∀ g, g = run_ops ops g0 →
    gossip_ok g ∧ gm_self g = n_id self ∧ believed_alive g (n_id self)).
  { intros g ->. revert g0 H0. unfold run_ops. induction Hops as [|o ops' Ho _ IH]; [done|].
    intros g0 (Hok & Hs & Hal). apply IH. rewrite run_op_self. split; [by apply gossip_ok_op|].
    split; [done|]. rewrite <- Hs in *. by apply run_op_self_alive. }
  destruct (H _ eq_refl) as ((Hwf & Hself & Hmem & Hseeds) & Hs & [n Hn]).
  split; [exact (conj Hwf (conj Hself (conj Hmem Hseeds)))|]. unfold view in Hn.
  destruct (mget (n_id self) _) as [r|] eqn:Er; [|done].
  destruct (Hmem _ _ Er) as [Hid _]. rewrite <- Hid. unfold _aliveInfos, mvals.
  apply list_elem_of_fmap. exists (m_info r). split; [done|]. apply list_elem_of_fmap. exists r. split; [done|].
  apply list_elem_of_filter. split; [by injection Hn|].
  apply list_elem_of_fmap. exists (n_id self, r). split; [done|by apply mget_elem].
Qed.

(** Failure detection.  After a sweep at time [now], a member other than the
    node itself is believed alive exactly if it was before and was heard of
    within [deadMs]; one that was alive and has been silent for longer is now
    dead one incarnation later (so that it must refute); a dead one is forgotten
    exactly when it has been so for more than [tombstoneMs].  Watchers are told
    exactly when some member changed from alive to dead. *)
Theorem sweep_correct now g id r (Hok : gossip_ok g) (Hid : id ≠ gm_self g)
  (Hr : mget id (gm_members g) = Some r) :
  let g' := (_sweep now g).1 in
  let silent := now - m_lastSeen r in
  (believed_alive g' id ↔ m_alive r = true ∧ silent ≤ c_deadMs (gm_config g)) ∧
  (m_alive r = true → silent > c_deadMs (gm_config g) →
     view g' id = Some (js_succ (m_incarnation r), false)) ∧
  (mget id (gm_members g') = None ↔ m_alive r = false ∧ silent > c_tombstoneMs (gm_config g)) ∧
  ((_sweep now g).2 ≠ [] ↔
     ∃ i, i ≠ gm_self g ∧ believed_alive g i ∧ ¬ believed_alive g' i).
Proof.
  pose proof Hok as (Hwf & _). pose proof (sweep_spec now g Hwf) as (_ & _ & Hg & _ & Hch).
  assert (Hal : ∀ i q, mget i (gm_members g) = Some q → i ≠ gm_self g →
    believed_alive (_sweep now g).1 i
    ↔ m_alive q = true ∧ now - m_lastSeen q ≤ c_deadMs (gm_config g)).
  { intros i q Hq Hi. unfold believed_alive. rewrite sweep_view, Hq by done. simpl.
    unfold sweep_record. rewrite decide_False by done.
    destruct (m_alive q) eqn:Eq; case_decide; simpl; try rewrite Eq; split; try done;
      try (intros [? [=]]); try (intros [? ?]; lia); eauto; try done. }
  simpl. split; [by apply Hal|]. split; [|split].
  - intros Ha Hs. rewrite sweep_view, Hr by done. simpl. unfold sweep_record.
    rewrite decide_False, Ha, decide_True by done. done.
  - rewrite Hg, Hr. simpl. unfold sweep_record. rewrite decide_False by done.
    destruct (m_alive r); case_decide; split; try done; by intros [??].
  - rewrite Hch. split.
    + intros (i & q & Hq & Ha & Hi & Hs). exists i. split; [done|].
      rewrite (Hal i q) by done. unfold believed_alive, view. rewrite Hq. simpl. rewrite Ha.
      split; [eauto|]. intros [_ ?]. lia.
    + intros (i & Hi & [n Hn] & Hna). unfold view in Hn.
      destruct (mget i (gm_members g)) as [q|] eqn:Hq; [|done]. injection Hn as _ Ha.
      exists i, q. repeat split; try done. rewrite (Hal i q) in Hna by done.
      destruct (decide (now - m_lastSeen q ≤ c_deadMs (gm_config g))); [tauto|lia].
Qed.

(** * Refutation, across two nodes *)

Lemma digest_claims g id : gossip_ok g →
  claims id (msg_members (digest g)) = match view g id with Some v => [v] | None => [] end.
Proof.
  intros (Hwf & _ & Hmem & _). unfold claims, digest, view, mvals. simpl.
  assert (H : ∀ m : jmap jsstr MemberRecord, mwf m →
    (∀ i r, mget i m = Some r → n_id (m_info r) = i) →
    ver_of <$> filter (λ e, g_id e = id) (digest_entry <$> m.*2)
    = match (λ r, (m_incarnation r, m_alive r)) <$> mget id m with Some v => [v] | None => [] end).
  { unfold mwf. intros m. induction m as [|[i r] m IH]; [done|].
    cbn [fmap list_fmap fst snd mget]. intros [Hni Hnd]%NoDup_cons Hm. rewrite filter_cons.
    assert (Hi : n_id (m_info r) = i) by (apply Hm; cbn [mget]; by rewrite decide_True).
    assert (Hrest : ∀ j q, mget j m = Some q → n_id (m_info q) = j).
    { intros j q Hq. apply Hm. cbn [mget]. rewrite decide_False; [done|].
      intros ->. apply Hni. apply mget_elem in Hq. apply list_elem_of_fmap. by exists (i, q). }
    specialize (IH Hnd Hrest). cbn [digest_entry g_id]. rewrite Hi.
    destruct (decide (i = id)) as [->|Hne].
    - rewrite decide_True by done. cbn [fmap list_fmap]. rewrite IH.
      rewrite (proj2 (mget_None_keys id m) Hni). done.
    - rewrite decide_False by congruence. apply IH. }
  apply H; [done|]. intros i r Hr. by apply Hmem in Hr as [].
Qed.

(** Refutation.  Node A receives a claim about itself that is newer than
    its own record, or equally new and says that it is dead.  If the claim's
    incarnation is below 2^53, A answers with a version that beats it: any
    other node that believed the claim (or anything older) and receives A's next
    digest believes A alive again. *)
Theorem refutation_wins tA tB (gA gB : GossipMembership) e v0 ws
  (HokA : gossip_ok gA) (Habout : g_id e = gm_self gA) (Hother : gm_self gB ≠ gm_self gA)
  (Hview : view gA (gm_self gA) = Some v0)
  (Hclaim : v0.1 < g_incarnation e ∨ g_incarnation e = v0.1 ∧ g_alive e = false)
  (Hsmall : 0 ≤ g_incarnation e < two53)
  (Hold : ∀ v, view gB (gm_self gA) = Some v → v.1 ≤ g_incarnation e)
  (Hwire : omap _isValidEntry ws = msg_members (digest (merge_valid tA e gA).1)) :
  view (_onReceive tB (Some ws) gB).1 (gm_self gA) = Some (g_incarnation e + 1, true).
Proof.
  assert (HokA' : gossip_ok (merge_valid tA e gA).1) by (apply gossip_ok_merge; [lia|done]).
  rewrite onReceive_gossip. change (default [] (Some ws)) with ws. rewrite merge_all_view by congruence.
  rewrite Hwire, digest_claims by done.
  rewrite merge_self_view, decide_True, Hview by done. cbn [fmap option_fmap option_map].
  rewrite decide_True by done. rewrite js_succ_small by lia. simpl.
  destruct (view gB (gm_self gA)) as [v|]; [|done]. specialize (Hold v eq_refl).
  simpl. unfold ver_join. by rewrite decide_True by (simpl; lia).
Qed.

(** * Targets *)

Lemma pick_spec draws fuel pool :
  (∀ i n, (0 < n → draws i n < n)%nat) → NoDup pool →
  NoDup (pick fuel draws pool) ∧ (∀ a, a ∈ pick fuel draws pool → a ∈ pool) ∧
  length (pick fuel draws pool) = Nat.min fuel (length pool).
Proof.
  intros Hd. revert pool. induction fuel as [|fuel IH]; intros pool Hnd.
  { simpl. split; [constructor|]. split; [|done]. by intros a ?%not_elem_of_nil. }
  destruct pool as [|b pool']; [simpl; split; [constructor|]; split; [|done];
    by intros a ?%not_elem_of_nil|].
  set (pool := b :: pool') in *. assert (Hlen : (0 < length pool)%nat) by (simpl; lia).
  destruct (lookup_lt_is_Some_2 pool (draws fuel (length pool)) (Hd _ _ Hlen)) as [a Ha].
  change (pick (S fuel) draws pool) with
    (match pool !! draws fuel (length pool) with
     | Some a => a :: pick fuel draws (delete (draws fuel (length pool)) pool)
     | None => [] end).
  rewrite Ha. apply delete_Permutation in Ha as Hp. rewrite Hp in Hnd.
  apply NoDup_cons in Hnd as [Hni Hnd']. destruct (IH _ Hnd') as (H1 & H2 & H3).
  split; [constructor; auto|]. split.
  - intros x [->|Hx]%elem_of_cons; rewrite Hp; [left|right; auto].
  - apply Permutation_length in Hp. cbn [length] in *. rewrite H3. lia.
Qed.

(** A gossip round contacts [fanout] distinct addresses, or all there are if
    there are fewer; each is the address of another member believed alive or
    a seed other than the node's own transport. *)
Theorem pick_targets_spec draws g
  (Hdraws : ∀ i n, (0 < n → draws i n < n)%nat) (Hfan : 0 ≤ c_fanout (gm_config g)) :
  let targets := _pickTargets draws g in
  NoDup targets ∧
  Z.of_nat (length targets) = Z.min (c_fanout (gm_config g)) (Z.of_nat (length (target_addrs g))) ∧
  (∀ a, a ∈ targets →
    (a ≠ gm_transport g ∧ a ∈ gm_seeds g) ∨
    ∃ r, r ∈ mvals (gm_members g) ∧ n_id (m_info r) ≠ gm_self g ∧ m_alive r = true ∧
         m_address r = Some a ∧ a ≠ []).
Proof.
  assert (Hnd : NoDup (target_addrs g)) by apply NoDup_set_of.
  assert (Hin : ∀ a, a ∈ target_addrs g →
    (a ≠ gm_transport g ∧ a ∈ gm_seeds g) ∨
    ∃ r, r ∈ mvals (gm_members g) ∧ n_id (m_info r) ≠ gm_self g ∧ m_alive r = true ∧
         m_address r = Some a ∧ a ≠ []).
  { intros a Ha. unfold target_addrs in Ha. rewrite elem_of_set_of in Ha.
    apply elem_of_app in Ha as [Ha|Ha].
    - right. apply list_elem_of_omap in Ha as (r & Hr & Ha).
      destruct (bool_decide_reflect (n_id (m_info r) = gm_self g)); [done|].
      destruct (m_alive r) eqn:Ea; [|done]. exists r. simpl in Ha.
      destruct (m_address r) as [[|c a']|]; simplify_eq/=. by repeat split.
    - left. by apply list_elem_of_filter in Ha. }
  simpl. unfold _pickTargets. case_decide as Hf.
  - split; [done|]. split; [lia|done].
  - destruct (pick_spec draws (Z.to_nat (c_fanout (gm_config g))) _ Hdraws Hnd) as (H1 & H2 & H3).
    split; [done|]. split; [rewrite H3; lia|]. auto.
Qed.

(** * The in-memory network *)

(** [GossipNetwork] with the nodes attached to it: [net_handlers] are the
    registered addresses, and a transport has a handler once its node started. *)
Record GossipNetwork := mkNetwork {
  net_nodes : jmap jsstr GossipMembership;
  net_handlers : list jsstr;
  net_started : list jsstr;
  net_partitioned : list jsstr;
}.

Definition to_wire (e : GossipEntry) : wire :=
  Entry (mkWire (VStr (g_id e)) (g_address e) (g_region e) (g_metadata e)
           (VNum (num_of_Z (g_incarnation e))) (VBool (g_alive e))).

(** [new InMemoryGossipTransport] and the node that owns it. *)
Definition attach (g : GossipMembership) (n : GossipNetwork) : GossipNetwork :=
  mkNetwork (mset (gm_transport g) g (net_nodes n)) (sadd (gm_transport g) (net_handlers n))
    (net_started n) (net_partitioned n).

Definition unregister (address : jsstr) (n : GossipNetwork) : GossipNetwork :=
  mkNetwork (net_nodes n) (sdel address (net_handlers n)) (net_started n) (net_partitioned n).
Definition partition (address : jsstr) (n : GossipNetwork) : GossipNetwork :=
  mkNetwork (net_nodes n) (net_handlers n) (net_started n) (sadd address (net_partitioned n)).
Definition heal (address : jsstr) (n : GossipNetwork) : GossipNetwork :=
  mkNetwork (net_nodes n) (net_handlers n) (net_started n) (sdel address (net_partitioned n)).
(** [transport.onReceive]. *)
Definition listen (address : jsstr) (n : GossipNetwork) : GossipNetwork :=
  mkNetwork (net_nodes n) (net_handlers n) (sadd address (net_started n)) (net_partitioned n).

Definition deliver (now : Z) (from to : jsstr) (msg : GossipMessage) (n : GossipNetwork)
    : GossipNetwork :=
  if shas from (net_partitioned n) || shas to (net_partitioned n) then n
  else if shas to (net_handlers n) && shas to (net_started n) then
    mkNetwork (mupd to (λ g, (_onReceive now (Some (to_wire <$> msg_members msg)) g).1) (net_nodes n))
      (net_handlers n) (net_started n) (net_partitioned n)
  else n.

Definition run_effect (now : Z) (from : jsstr) (n : GossipNetwork) (e : effect) : GossipNetwork :=
  match e with
  | Notify _ => n
  | Send to msg => deliver now from to msg n
  | CloseTransport => unregister from n
  end.

(** An operation of the node at [address]: its effects come after its state
    changes, and delivery is synchronous. *)
Definition net_op (now : Z) (draws : nat → nat → nat) (address : jsstr) (op : gossip_op)
    (n : GossipNetwork) : GossipNetwork :=
  match mget address (net_nodes n) with
  | None => n
  | Some g =>
      let '(g', es) := run_op now draws op g in
      let n1 := mkNetwork (mset address g' (net_nodes n)) (net_handlers n) (net_started n)
                  (net_partitioned n) in
      let n2 := match op with OpStart => if gm_running g then n1 else listen address n1 | _ => n1 end in
      fold_left (run_effect now address) es n2
  end.

Definition net_ops (ops : list (Z * jsstr * gossip_op)) (n : GossipNetwork) : GossipNetwork :=
  fold_left (λ n o, net_op o.1.1 (λ _ _, 0%nat) o.1.2 o.2 n) ops n.

(** What the node at [address] lists at time [now]. *)
Definition listed (now : Z) (address : jsstr) (n : GossipNetwork) : list jsstr :=
  match mget address (net_nodes n) with
  | Some g => n_id <$> (list_members now g).2
  | None => []
  end.

(** * Two concrete nodes *)

Module pair.
Definition cfg : GossipConfig := mkConfig 200 3 1000 10000.
Definition node (id : jsstr) : NodeInfo := mkNode id None (Some id) None.
Definition A : GossipMembership := newGossip 0 (node (js "A")) (js "A") cfg [js "B"].
Definition B : GossipMembership := newGossip 0 (node (js "B")) (js "B") cfg [js "A"].
Definition net0 : GossipNetwork := attach B (attach A (mkNetwork [] [] [] [])).
(** Both start and exchange a digest. *)
Definition net1 : GossipNetwork :=
  net_ops [(0, js "A", OpStart); (0, js "B", OpStart); (200, js "A", OpTimer); (200, js "B", OpTimer)]
    net0.
Definition alive_claim : wire := to_wire (mkGEntry (js "C") None None None 1 true).
Definition dead_claim : wire := to_wire (mkGEntry (js "C") None None None 1 false).
End pair.
Import pair.

Lemma gossip_converges_witness :
  view (receive_all [(0, Some [dead_claim; NotObject; alive_claim])] A) (js "C")
  = view (receive_all [(5, Some [alive_claim]); (6, None); (7, Some [dead_claim; dead_claim])] B) (js "C")
  ∧ view (receive_all [(0, Some [dead_claim; NotObject; alive_claim])] A) (js "C") = Some (1, false).
Proof.
  split; [|vm_compute; reflexivity].
  apply (gossip_converges A B); [done|done|reflexivity|].
  intros v. set (l := claims _ _). set (l' := claims _ _).
  assert (Hl : l = [(1, false); (1, true)]) by (vm_compute; reflexivity).
  assert (Hl' : l' = [(1, true); (1, false); (1, false)]) by (vm_compute; reflexivity).
  rewrite Hl, Hl'. set_solver.
Defined.

Lemma gossip_self_alive_witness :
  js "A" ∈ n_id <$> _aliveInfos (run_ops
    [(0, λ _ _, 0%nat, OpStart);
     (1, λ _ _, 0%nat, OpReceive (Some [to_wire (mkGEntry (js "A") None None None 7 false)]));
     (5000, λ _ _, 0%nat, OpTimer)] A).
Proof.
  apply (gossip_self_alive 0 (node (js "A")) (js "A") cfg [js "B"]).
  repeat constructor; simpl; auto.
Defined.

Lemma sweep_correct_witness :
  ∃ r, mget (js "C") (gm_members (_onReceive 0 (Some [alive_claim]) A).1) = Some r ∧
    view (_sweep 1001 (_onReceive 0 (Some [alive_claim]) A).1).1 (js "C") = Some (2, false).
Proof.
  exists (mkMember (mkNode (js "C") None None None) None 1 true 0).
  split; [vm_compute; reflexivity|].
  refine (proj1 (proj2 (sweep_correct 1001 (_onReceive 0 (Some [alive_claim]) A).1 (js "C")
    (mkMember (mkNode (js "C") None None None) None 1 true 0) _ _ _)) _ _).
  - rewrite onReceive_gossip. apply gossip_ok_merge_all, gossip_ok_new.
  - done.
  - vm_compute; reflexivity.
  - done.
  - done.
Defined.

Lemma refutation_wins_witness :
  let e := mkGEntry (js "A") None None None 0 false in
  let A' := (merge_valid 5 e A).1 in
  let B0 := (_onReceive 0 (Some [to_wire e]) B).1 in
  view B0 (js "A") = Some (0, false) ∧
  view (_onReceive 6 (Some (to_wire <$> msg_members (digest A'))) B0).1 (js "A") = Some (1, true).
Proof.
  split; [vm_compute; reflexivity|].
  apply (refutation_wins 5 6 A (_onReceive 0 (Some [to_wire (mkGEntry (js "A") None None None 0 false)]) B).1
    (mkGEntry (js "A") None None None 0 false) (0, true)); try done.
  - apply gossip_ok_new.
  - by right.
  - intros v. vm_compute. intros [= <-]. done.
Defined.

Lemma pick_targets_spec_witness : _pickTargets (λ _ _, 0%nat) A = [js "B"]
  ∧ NoDup (_pickTargets (λ _ _, 0%nat) A).
Proof. split; [reflexivity|]. apply (pick_targets_spec (λ _ _, 0%nat) A); [lia|done]. Defined.

(** The incarnation 2^53 is as good as the infinite one that validation
    rejects.  One forged claim with that incarnation is accepted; the node
    answers with [2^53 + 1], which rounds to 2^53; its digest no longer beats the
    claim, so the node that believed it dead goes on believing so, in spite of
    any number of rounds. *)
Theorem refute_saturates :
  let forged := mkGEntry (js "A") None None None two53 false in
  let B0 := (_onReceive 0 (Some [to_wire forged]) B).1 in
  let A1 := (_onReceive 0 (Some [to_wire forged]) A).1 in
  _isValidEntry (to_wire forged) = Some forged ∧
  view A1 (js "A") = Some (two53, true) ∧
  ∀ t, view (_onReceive t (Some (to_wire <$> msg_members (digest A1))) B0).1 (js "A")
       = Some (two53, false).
Proof.
  split; [vm_compute; reflexivity|]. split; [vm_compute; reflexivity|].
  intros t. vm_compute. reflexivity.
Qed.

(** A split that outlasts [deadMs + tombstoneMs] is permanent.  Sweeping a
    forgotten member also prunes its address from the seeds, the configured
    ones included, so once the network heals neither node has an address left to
    gossip with: both go on listing only themselves. *)
Theorem partition_forgets_seeds :
  let ops t := [(t, js "A", OpTimer); (t, js "B", OpTimer)] in
  let cut := net_ops (ops 2000 ++ ops 13000) (partition (js "B") net1) in
  let healed := heal (js "B") cut in
  listed 200 (js "A") net1 = [js "A"; js "B"] ∧
  listed 2000 (js "A") (net_ops (ops 2000) net1) = [js "A"; js "B"] ∧
  ∀ t, let later := net_ops (ops t) healed in
       listed t (js "A") later = [js "A"] ∧ listed t (js "B") later = [js "B"].
Proof. split; [vm_compute; reflexivity|]. split; [vm_compute; reflexivity|]. intros t. split; vm_compute; reflexivity. Qed.

(** [stop] closes the transport and [start] does not reopen it: a node on the
    in-memory network that is restarted never hears of anybody again. *)
Theorem restart_is_deaf :
  let n := net_ops [(300, js "A", OpStop); (400, js "A", OpStart)] net1 in
  shas (js "A") (net_handlers net1) = true ∧ shas (js "A") (net_handlers n) = false ∧
  ∀ t from msg, deliver t from (js "A") msg n = n.
Proof.
  split; [vm_compute; reflexivity|]. split; [vm_compute; reflexivity|].
  intros t from msg. unfold deliver. case_match; [done|]. vm_compute (shas _ (net_handlers _)). done.
Qed.
