(* ===== verification/RoomRouter.v ===== *)
(** Rooms to nodes (packages/signaling/src/RoomRouter.ts): a hash ring that
    follows the membership through the reconciler. *)

From S2P Require Import Prelude JsMap JsNumber Interfaces HashRing Membership Reconciler.

(** [Math.max(1, Number(n.metadata?.capacity) || 1)]: the [||] replaces [NaN] and
    zeros. *)
Definition nodeWeight (n : NodeInfo) : num :=
  let capacity := match n_metadata n with
                  | Some md => match mget (js "capacity") md with
                               | Some s => Number s
                               | None => num_nan
                               end
                  | None => num_nan
                  end in
  let w := match capacity with
           | SpecFloat.S754_nan | SpecFloat.S754_zero _ => num_one
           | c => c
           end in
  num_max num_one w.

Record RoomRouter := mkRouter {
  rr_self : jsstr;
  rr_ring : ring;
  rr_byId : jmap jsstr NodeInfo;
  rr_weights : jmap jsstr num;
}.

(** The ring accepts the own id: its weight is one. *)
Definition newRoomRouter (selfId : jsstr) : RoomRouter :=
  mkRouter selfId
    (match add (RingId selfId) newHashRing with Ok r => r | Throw _ => newHashRing end)
    [(selfId, mkNode selfId None None None)] [].

#[export] Instance num_eq_dec : EqDecision num.
Proof. solve_decision. Defined.

(** [_upsert]: [HashRing.add] throws for an infinite weight, and then nothing
    else is done. *)
Definition _upsert (n : NodeInfo) (t : RoomRouter) : result unit RoomRouter :=
  let weight := nodeWeight n in
  if decide (mget (n_id n) (rr_weights t) = Some weight)
  then Ok (mkRouter (rr_self t) (rr_ring t) (mset (n_id n) n (rr_byId t)) (rr_weights t))
  else match add (RingNode (n_id n) (Some weight)) (rr_ring t) with
       | Throw e => Throw e
       | Ok r => Ok (mkRouter (rr_self t) r (mset (n_id n) n (rr_byId t))
                       (mset (n_id n) weight (rr_weights t)))
       end.

Definition onRemove (id : jsstr) (t : RoomRouter) : RoomRouter :=
  if decide (id = rr_self t) then t
  else mkRouter (rr_self t) (remove id (rr_ring t)).1 (mdel id (rr_byId t)) (mdel id (rr_weights t)).

(** The handlers given to the reconciler; they do not touch the membership. *)
Definition router_react (c : rcall) (t : RoomRouter) : reaction RoomRouter :=
  match c with
  | OnAdd n | OnUpdate n =>
      match _upsert n t with
      | Ok t' => mkReaction t' [] false
      | Throw _ => mkReaction t [] true
      end
  | OnRemove id => mkReaction (onRemove id t) [] false
  end.

Section lookup.
Context (Math_log : num → num).

Definition ownerId (roomId : jsstr) (t : RoomRouter) : option jsstr := get Math_log roomId (rr_ring t).

Definition route (roomId : jsstr) (t : RoomRouter) : bool * option NodeInfo :=
  let id := get Math_log roomId (rr_ring t) in
  (bool_decide (id = Some (rr_self t)), id ≫= λ i, mget i (rr_byId t)).

Definition owner (roomId : jsstr) (t : RoomRouter) : option NodeInfo := (route roomId t).2.
Definition isLocal (roomId : jsstr) (t : RoomRouter) : bool := (route roomId t).1.
End lookup.

Definition router_nodeIds (t : RoomRouter) : list jsstr := nodeIds (rr_ring t).

(** * Invariant *)

(** Every node on the ring has a descriptor; a recorded weight is the one on the
    ring; the node itself is always there. *)
Record router_ok (t : RoomRouter) : Prop := {
  ro_ring : ring_ok (rr_ring t);
  ro_self : rr_self t ∈ nodeIds (rr_ring t);
  ro_byId id : is_Some (mget id (rr_byId t)) ↔ id ∈ nodeIds (rr_ring t);
  ro_info id n : mget id (rr_byId t) = Some n → n_id n = id;
  ro_weights id w : mget id (rr_weights t) = Some w → mget id (rr_ring t) = Some w;
}.

Lemma router_ok_new selfId : router_ok (newRoomRouter selfId).
Proof.
  constructor; simpl.
  - split; [apply NoDup_singleton|]. repeat constructor.
  - left.
  - intros id. rewrite list_elem_of_singleton. case_decide; split; intros Hx; try done; eauto.
  - intros id n. case_decide; [|done]. by intros [= <-].
  - done.
Qed.

Lemma upsert_state n t t' : _upsert n t = Ok t' →
  rr_self t' = rr_self t ∧ rr_byId t' = mset (n_id n) n (rr_byId t) ∧
  ((rr_ring t' = rr_ring t ∧ rr_weights t' = rr_weights t ∧
    mget (n_id n) (rr_weights t) = Some (nodeWeight n)) ∨
   (rr_ring t' = mset (n_id n) (nodeWeight n) (rr_ring t) ∧
    rr_weights t' = mset (n_id n) (nodeWeight n) (rr_weights t) ∧ weight_ok (nodeWeight n))).
Proof.
  unfold _upsert. case_decide as Hw.
  - intros [= <-]. split; [done|]. split; [done|]. by left.
  - simpl. destruct (isFinite (nodeWeight n)) eqn:Ef; simpl; [|done].
    destruct (num_le (nodeWeight n) num_zero) eqn:El; simpl; [done|].
    intros [= <-]. split; [done|]. split; [done|]. right. split; [done|]. split; [done|].
    by apply weight_le_zero.
Qed.

Lemma router_ok_upsert n t t' : router_ok t → _upsert n t = Ok t' →
  router_ok t' ∧ rr_self t' = rr_self t ∧
  (∀ x, x ∈ nodeIds (rr_ring t') ↔ x = n_id n ∨ x ∈ nodeIds (rr_ring t)) ∧
  mget (n_id n) (rr_ring t') = Some (nodeWeight n) ∧
  (∀ x, x ≠ n_id n → mget x (rr_ring t') = mget x (rr_ring t)).
Proof.
  intros [Hr Hs Hb Hi Hw] Hu.
  apply upsert_state in Hu as (Hself & Hby & [(Hring & Hwts & Hk)|(Hring & Hwts & Hok)]).
  - assert (Hin : n_id n ∈ nodeIds (rr_ring t)).
    { apply mget_is_Some_keys. apply Hw in Hk. eauto. }
    split; [constructor; rewrite ?Hring, ?Hself, ?Hby, ?Hwts; try done|].
    + intros id. rewrite mget_mset. case_decide; [subst; naive_solver|apply Hb].
    + intros id n'. rewrite mget_mset. case_decide; [|apply Hi]. by intros [= <-].
    + rewrite Hring. split; [done|]. split; [intros x; naive_solver|]. split; [by apply Hw|done].
  - assert (Hin : ∀ x, x ∈ nodeIds (mset (n_id n) (nodeWeight n) (rr_ring t)) ↔
                  x = n_id n ∨ x ∈ nodeIds (rr_ring t)).
    { intros x. exact (ring_ids_put (R := ring) (OwnerRingLaws := hash_owner_ring_laws (λ u, u))
                         (n_id n) (nodeWeight n) (rr_ring t) x). }
    split; [constructor; rewrite ?Hring, ?Hself, ?Hby, ?Hwts|].
    + destruct Hr. split; [by apply mwf_mset|]. by apply Forall_mset.
    + apply Hin. by right.
    + intros id. rewrite mget_mset, Hin. case_decide; [subst; naive_solver|]. rewrite Hb. naive_solver.
    + intros id n'. rewrite mget_mset. case_decide; [|apply Hi]. by intros [= <-].
    + intros id w. rewrite !mget_mset. case_decide; [done|apply Hw].
    + rewrite Hring. split; [done|]. split; [done|]. rewrite mget_mset_eq. split; [done|].
      intros x Hx. by rewrite mget_mset_ne.
Qed.

Lemma router_ok_remove id t : router_ok t →
  router_ok (onRemove id t) ∧ rr_self (onRemove id t) = rr_self t ∧
  (∀ x, x ∈ nodeIds (rr_ring (onRemove id t)) ↔
        x ∈ nodeIds (rr_ring t) ∧ (x = id → x = rr_self t)) ∧
  (∀ x, x ≠ id → mget x (rr_ring (onRemove id t)) = mget x (rr_ring t)).
Proof.
  intros Hok. unfold onRemove. case_decide as Hid; [naive_solver|].
  destruct Hok as [Hr Hs Hb Hi Hw].
  assert (Hin : ∀ x, x ∈ nodeIds (mdel id (rr_ring t)) ↔ x ≠ id ∧ x ∈ nodeIds (rr_ring t)).
  { intros x. exact (ring_ids_drop (R := ring) (OwnerRingLaws := hash_owner_ring_laws (λ u, u))
                       id (rr_ring t) x). }
  split; [constructor; simpl|].
  - by apply remove_ok.
  - apply Hin. split; [congruence|done].
  - intros i. rewrite mget_mdel, Hin. case_decide; [|rewrite Hb; naive_solver].
    split; [by intros []|by intros []].
  - intros i n. rewrite mget_mdel. case_decide; [done|apply Hi].
  - intros i w. rewrite !mget_mdel. case_decide; [done|apply Hw].
  - simpl. split; [done|]. split; [intros x; rewrite Hin; naive_solver|].
    intros x Hx. by rewrite mget_mdel_ne.
Qed.

(** * Following the callbacks *)

Definition router_step (t : RoomRouter) (c : rcall) : RoomRouter := re_world (router_react c t).

(** The ring holds the node itself and what the reconciler tracks. *)
Definition follows (ids : gset jsstr) (t : RoomRouter) : Prop :=
  ∀ x, x ∈ nodeIds (rr_ring t) ↔ x = rr_self t ∨ x ∈ ids.

Abbreviation rquiet := (quiet router_react).

Lemma router_step_ok c t : router_ok t → re_threw (router_react c t) = false →
  router_ok (router_step t c) ∧ rr_self (router_step t c) = rr_self t ∧
  ∀ ids ids', follows ids t → replay1 c ids = Some ids' → follows ids' (router_step t c).
Proof.
  intros Hok Hq. unfold router_step. destruct c as [n|n|id]; simpl in *.
  - destruct (_upsert n t) as [t'|] eqn:E; [|done]. simpl.
    destruct (router_ok_upsert n t t' Hok E) as (? & Hs & Hin & _).
    split; [done|]. split; [done|]. intros ids ids' Hf Hr x.
    destruct (decide (n_id n ∈ ids)); [done|]. injection Hr as <-.
    rewrite Hs, Hin, (Hf x), elem_of_union, elem_of_singleton. tauto.
  - destruct (_upsert n t) as [t'|] eqn:E; [|done]. simpl.
    destruct (router_ok_upsert n t t' Hok E) as (? & Hs & Hin & _).
    split; [done|]. split; [done|]. intros ids ids' Hf Hr x.
    destruct (decide (n_id n ∈ ids)); [|done]. injection Hr as <-. rewrite Hs, Hin, (Hf x). naive_solver.
  - destruct (router_ok_remove id t Hok) as (? & Hs & Hin & _).
    split; [done|]. split; [done|]. intros ids ids' Hf Hr x.
    destruct (decide (id ∈ ids)); [|done]. injection Hr as <-.
    rewrite Hs, Hin, (Hf x), elem_of_difference, elem_of_singleton.
    destruct (decide (x = id)), (decide (x = rr_self t)); tauto.
Qed.

Lemma router_run_ok cs t : router_ok t → rquiet cs t →
  router_ok (fold_left router_step cs t) ∧ rr_self (fold_left router_step cs t) = rr_self t ∧
  ∀ ids ids', follows ids t → replay cs ids = Some ids' → follows ids' (fold_left router_step cs t).
Proof.
  revert t. induction cs as [|c cs IH]; intros t Hok Hq; simpl.
  { split; [done|]. split; [done|]. by intros ids ids' Hf [= <-]. }
  destruct Hq as [Hc Hq]. destruct (router_step_ok c t Hok Hc) as (Hok' & Hs' & Hf').
  destruct (IH _ Hok' Hq) as (? & Hs & Hf). split; [done|]. split; [by rewrite Hs|].
  intros ids ids' Hids Hr. destruct (replay1 c ids) as [ids1|] eqn:E; [|done]. eauto.
Qed.

(** One callback per node of a snapshot without duplicates: each node gets the
    weight of its descriptor, and later removals do not touch it. *)
Lemma visits_weights nodes vs t :
  Forall2 visits nodes vs → NoDup (n_id <$> nodes) → router_ok t → rquiet vs t →
  ∀ n, n ∈ nodes → mget (n_id n) (rr_ring (fold_left router_step vs t)) = Some (nodeWeight n).
Proof.
  intros Hv. revert t. induction Hv as [|m c nodes vs Hm Hv IH]; intros t.
  { by intros _ _ _ n ?%not_elem_of_nil. }
  cbn [fmap list_fmap]. intros [Hni Hnd]%NoDup_cons Hok [Hc Hq] n Hn. simpl.
  destruct (router_step_ok c t Hok Hc) as (Hok' & _).
  apply elem_of_cons in Hn as [->|Hn]; [|by apply IH].
  assert (Hw : mget (n_id m) (rr_ring (router_step t c)) = Some (nodeWeight m)).
  { unfold router_step. destruct Hm as [-> | ->]; simpl in *;
      (destruct (_upsert m t) as [t'|] eqn:E; [|done]); simpl;
      by destruct (router_ok_upsert m t t' Hok E) as (_ & _ & _ & ? & _). }
  change (re_world (router_react c t)) with (router_step t c) in Hq.
  revert Hw Hok' Hq Hni. clear -Hv. revert m. generalize (router_step t c). clear t c.
  induction Hv as [|k c nodes vs Hk Hv IH]; intros t m Hw Hok Hq Hni; [done|]. simpl.
  destruct Hq as [Hc Hq]. destruct (router_step_ok c t Hok Hc) as (Hok' & _).
  apply IH; try done; [|set_solver].
  rewrite <- Hw. unfold router_step. destruct Hk as [-> | ->]; simpl in *;
    (destruct (_upsert k t) as [t'|] eqn:E; [|done]); simpl;
    (destruct (router_ok_upsert k t t' Hok E) as (_ & _ & _ & _ & Hne); apply Hne; set_solver).
Qed.

Lemma removals_weights rm t x :
  x ∉ rm → mget x (rr_ring (fold_left router_step (OnRemove <$> rm) t)) = mget x (rr_ring t).
Proof.
  revert t. induction rm as [|id rm IH]; intros t Hx; simpl; [done|].
  rewrite IH by set_solver. unfold router_step. simpl. unfold onRemove. case_decide; [done|].
  simpl. rewrite mget_mdel_ne; [done|set_solver].
Qed.

(** The state of the router after a membership pass that returned normally. *)
Lemma router_pass fuel nodes r t p :
  NoDup (r_ids r) → r_pending r = None → router_ok t → follows (tracked r) t →
  on_watch router_react fuel nodes r t = Some p → p_threw p = false →
  let t' := p_world p in
  router_ok t' ∧ rr_self t' = rr_self t ∧
  (∀ x, x ∈ nodeIds (rr_ring t') ↔ x = rr_self t ∨ x ∈ n_id <$> nodes) ∧
  (NoDup (n_id <$> nodes) →
   ∀ n, n ∈ nodes → mget (n_id n) (rr_ring t') = Some (nodeWeight n)).
Proof.
  intros Hnd Hpe Hok Hfol Hrun Hq.
  set (p0 := mkPass (set_seen r) t [] [nodes] false).
  assert (Hsn : p_snaps p = [nodes]).
  { apply (sync_ind router_react (λ q, p_snaps q = [nodes])) with (p := p0) in Hrun; try done.
    intros c ids q _ Hsn. simpl. rewrite Hsn. destruct c as [n|n|id]; simpl; try done;
      by destruct (_upsert n (p_world q)). }
  destruct (sync_world router_react fuel nodes true p0 p t) as [Hw Hqu]; try done.
  destruct (sync_ok router_react (tracked r) fuel nodes p0 p)
    as (Hrep & _ & _ & _ & (newest & Hl & Ht & Hends) & _); try done.
  rewrite Hsn in Hl. injection Hl as <-.
  destruct (router_run_ok (p_calls p) t Hok (Hqu Hq)) as (Hok' & Hs & Hf).
  change (fold_left (λ w c, re_world (router_react c w)) (p_calls p) t) with (fold_left router_step (p_calls p) t) in Hw.
  simpl. rewrite Hw. split; [done|]. split; [done|]. split.
  - intros x. rewrite (Hf _ _ Hfol Hrep x), Hs, Ht. by rewrite elem_of_list_to_set.
  - intros Hndn n Hn. destruct Hends as (pre & vs & rm & Hc & Hvs & Hrm).
    specialize (Hqu Hq). rewrite Hc in *. apply quiet_app in Hqu as [Hq1 Hq2].
    apply quiet_app in Hq2 as [Hq2 Hq3]. rewrite !fold_left_app, removals_weights.
    + apply (visits_weights nodes); try done. by apply router_run_ok.
    + intros Hin. apply (Hrm _ Hin). apply list_elem_of_fmap. eauto.
Qed.

(** The router follows the membership.  Let a membership snapshot be
    processed and no handler throw.  The ring then holds exactly the node itself
    and the nodes of the snapshot, each with the weight of its descriptor, and
    every room is routed to one of them, whose descriptor [route] returns and
    which is the local node exactly if [isLocal] says so. *)
Theorem router_follows (Math_log : num → num) fuel nodes r t p key
  (Hlog : log_negative Math_log) (Hnd : NoDup (r_ids r)) (Hidle : r_pending r = None)
  (Hok : router_ok t) (Hfol : follows (tracked r) t)
  (Hrun : on_watch router_react fuel nodes r t = Some p) (Hquiet : p_threw p = false) :
  let t' := p_world p in
  (∀ x, x ∈ router_nodeIds t' ↔ x = rr_self t ∨ x ∈ n_id <$> nodes) ∧
  (NoDup (n_id <$> nodes) →
   ∀ n, n ∈ nodes → mget (n_id n) (rr_ring t') = Some (nodeWeight n)) ∧
  ∃ n, route Math_log key t' = (bool_decide (n_id n = rr_self t), Some n) ∧
       ownerId Math_log key t' = Some (n_id n) ∧ n_id n ∈ router_nodeIds t'.
Proof.
  destruct (router_pass fuel nodes r t p Hnd Hidle Hok Hfol Hrun Hquiet) as (Hok' & Hs & Hin & Hw).
  simpl. split; [done|]. split; [done|]. set (t' := p_world p) in *. clearbody t'.
  destruct (get Math_log key (rr_ring t')) as [o|] eqn:Eg.
  - pose proof (ring_owner_member (R := ring) (OwnerRingLaws := hash_owner_ring_laws Math_log)
                  (rr_ring t') key o Eg) as Ho.
    destruct (proj2 (ro_byId t' Hok' o) Ho) as [n Hn]. exists n.
    pose proof (ro_info t' Hok' _ _ Hn) as Hid. unfold route, ownerId. rewrite Eg, Hs. simpl.
    rewrite Hn, Hid. split; [|done]. f_equal. apply bool_decide_ext. split; congruence.
  - exfalso. pose proof (ro_self t' Hok') as Hself.
    destruct (get_cases Math_log key (rr_ring t')) as [[_ Hn]|(q & Hq & _)]; [|congruence].
    pose proof (ring_ok_scores _ key _ Hlog (ro_ring t' Hok')) as Hsc.
    destruct (rr_ring t') as [|q r']; [by apply not_elem_of_nil in Hself|].
    apply Forall_cons in Hn as [Hn _]. apply Forall_cons in Hsc as [Hsc _]. congruence.
Qed.

(** Two rings with the same entries name the same owner, unless two nodes tie. *)
Definition no_ties (Math_log : num → num) (key : jsstr) (r : ring) : Prop :=
  ∀ p q, p ∈ r → q ∈ r → p ≠ q →
    num_lt (score Math_log key p.1 p.2) (score Math_log key q.1 q.2) = true ∨
    num_lt (score Math_log key q.1 q.2) (score Math_log key p.1 p.2) = true.

Lemma get_same_entries Math_log key r1 r2 :
  mwf r1 → mwf r2 → (∀ p, p ∈ r1 ↔ p ∈ r2) → no_ties Math_log key r1 →
  get Math_log key r1 = get Math_log key r2.
Proof.
  intros Hw1 Hw2 Hin Hties.
  assert (Hbest : ∀ r p q, (∀ x, x ∈ r1 ↔ x ∈ r) → owner_split Math_log key r p → q ∈ r → p ≠ q →
    eligible Math_log key q = true →
    num_lt (score Math_log key q.1 q.2) (score Math_log key p.1 p.2) = true).
  { intros r p q Hr (bf & af & -> & _ & Hb & Ha) Hq Hne Hel.
    rewrite Forall_forall in Hb, Ha.
    apply elem_of_app in Hq as [Hq|[->|Hq]%elem_of_cons]; [|done|].
    - destruct (Hb _ Hq) as [|]; [congruence|done].
    - specialize (Ha _ Hq). destruct (Hties p q) as [H|H]; [| |done|congruence|done]; apply Hr; set_solver. }
  destruct (get_cases Math_log key r1) as [[-> H1]|(p & -> & Hp)],
    (get_cases Math_log key r2) as [[-> H2]|(q & -> & Hq)]; [done|..].
  - destruct Hq as (bf & af & -> & He & _). rewrite Forall_forall in H1.
    rewrite (H1 q) in He; [done|]. apply Hin. set_solver.
  - destruct Hp as (bf & af & -> & He & _). rewrite Forall_forall in H2.
    rewrite (H2 p) in He; [done|]. apply Hin. set_solver.
  - destruct (decide (p = q)) as [->|Hne]; [done|]. exfalso.
    assert (Hp1 : p ∈ r1) by (destruct Hp as (bf & af & -> & _); set_solver).
    assert (Hq2 : q ∈ r2) by (destruct Hq as (bf & af & -> & _); set_solver).
    assert (He1 : eligible Math_log key p = true) by (by destruct Hp as (? & ? & _ & ? & _)).
    assert (He2 : eligible Math_log key q = true) by (by destruct Hq as (? & ? & _ & ? & _)).
    pose proof (Hbest r1 p q (λ _, iff_refl _) Hp (proj2 (Hin q) Hq2) Hne He2) as Hlt1.
    pose proof (Hbest r2 q p Hin Hq (proj1 (Hin p) Hp1) (not_eq_sym Hne) He1) as Hlt2.
    pose proof (num_lt_trans _ _ _ Hlt1 Hlt2) as Hirr. by rewrite num_lt_irrefl in Hirr.
Qed.

(** Agreement.  Two nodes of the cluster, each with its own router and its own
    history, process the same membership snapshot, which lists both of them.
    They then route every room to the same node, provided no two nodes have the
    same score for it: the order in which each learned of the others does
    not matter. *)
Theorem routers_agree (Math_log : num → num) fuel1 fuel2 nodes ra rb ta tb pa pb key
  (Hnda : NoDup (r_ids ra)) (Hidlea : r_pending ra = None) (Hoka : router_ok ta)
  (Hfola : follows (tracked ra) ta) (Hruna : on_watch router_react fuel1 nodes ra ta = Some pa)
  (Hqa : p_threw pa = false) (Hina : rr_self ta ∈ n_id <$> nodes)
  (Hndb : NoDup (r_ids rb)) (Hidleb : r_pending rb = None) (Hokb : router_ok tb)
  (Hfolb : follows (tracked rb) tb) (Hrunb : on_watch router_react fuel2 nodes rb tb = Some pb)
  (Hqb : p_threw pb = false) (Hinb : rr_self tb ∈ n_id <$> nodes)
  (Hnodes : NoDup (n_id <$> nodes)) (Hties : no_ties Math_log key (rr_ring (p_world pa))) :
  ownerId Math_log key (p_world pa) = ownerId Math_log key (p_world pb).
Proof.
  destruct (router_pass fuel1 nodes ra ta pa Hnda Hidlea Hoka Hfola Hruna Hqa) as (Ha & _ & Ina & Wa).
  destruct (router_pass fuel2 nodes rb tb pb Hndb Hidleb Hokb Hfolb Hrunb Hqb) as (Hb & _ & Inb & Wb).
  simpl in *. specialize (Wa Hnodes). specialize (Wb Hnodes).
  destruct (ro_ring _ Ha) as [Hwa _], (ro_ring _ Hb) as [Hwb _].
  apply get_same_entries; try done.
  assert (Hone : ∀ t self, mwf (rr_ring t) → self ∈ n_id <$> nodes →
    (∀ x, x ∈ nodeIds (rr_ring t) ↔ x = self ∨ x ∈ n_id <$> nodes) →
    (∀ n, n ∈ nodes → mget (n_id n) (rr_ring t) = Some (nodeWeight n)) →
    ∀ p, p ∈ rr_ring t ↔ ∃ n, n ∈ nodes ∧ p = (n_id n, nodeWeight n)).
  { intros t self Hw Hself Hin Hwt [i w]. split.
    - intros Hp. assert (Hi : i ∈ n_id <$> nodes).
      { assert (Hk : i ∈ nodeIds (rr_ring t)) by (apply list_elem_of_fmap; by exists (i, w)).
        apply Hin in Hk as [->|Hk]; done. }
      apply list_elem_of_fmap in Hi as (n & -> & Hn). exists n. split; [done|].
      apply elem_mget in Hp; [|done]. rewrite (Hwt n Hn) in Hp. congruence.
    - intros (n & Hn & [= -> ->]). apply mget_elem. by apply Hwt. }
  intros p. rewrite (Hone (p_world pa) (rr_self ta)), (Hone (p_world pb) (rr_self tb)); done.
Qed.

(** * Concrete routers *)

Module cluster.
Definition node (id capacity : jsstr) : NodeInfo :=
  mkNode id None None (Some [(js "capacity", capacity)]).
Definition A : NodeInfo := node (js "A") (js "1").
Definition B : NodeInfo := node (js "B") (js "2.5").
Definition bad : NodeInfo := node (js "X") (js "Infinity").
Definition routerA : RoomRouter := newRoomRouter (js "A").
Definition routerB : RoomRouter := newRoomRouter (js "B").
Definition room : jsstr := js "room:1".
End cluster.
Import cluster.

Lemma follows_new selfId : follows (tracked newReconciler) (newRoomRouter selfId).
Proof.
  intros x. cbn [newRoomRouter rr_ring rr_self]. change (nodeIds _) with [selfId].
  rewrite list_elem_of_singleton. set_solver.
Qed.

Lemma router_follows_witness :
  ∃ p, on_watch router_react 1 [A; B] newReconciler routerA = Some p ∧
    router_nodeIds (p_world p) = [js "A"; js "B"] ∧
    ∃ n, ownerId log_approx room (p_world p) = Some (n_id n).
Proof.
  eexists. split; [vm_compute; reflexivity|]. split; [vm_compute; reflexivity|].
  edestruct (router_follows log_approx 1 [A; B] newReconciler routerA) as (_ & _ & n & _ & Hn & _);
    [apply log_approx_negative|constructor|reflexivity|apply router_ok_new|apply follows_new
    |vm_compute; reflexivity|reflexivity|].
  exists n. exact Hn.
Defined.

Lemma routers_agree_witness :
  ∃ pa pb, on_watch router_react 1 [A; B] newReconciler routerA = Some pa ∧
    on_watch router_react 1 [A; B] newReconciler routerB = Some pb ∧
    router_nodeIds (p_world pa) = [js "A"; js "B"] ∧
    router_nodeIds (p_world pb) = [js "B"; js "A"] ∧
    ownerId log_approx room (p_world pa) = ownerId log_approx room (p_world pb).
Proof.
  eexists _, _. split; [vm_compute; reflexivity|]. split; [vm_compute; reflexivity|].
  split; [vm_compute; reflexivity|]. split; [vm_compute; reflexivity|].
  eapply (routers_agree log_approx 1 1 [A; B] newReconciler newReconciler routerA routerB);
    [constructor|reflexivity|apply router_ok_new|apply follows_new|vm_compute; reflexivity|reflexivity
    |by apply (bool_decide_unpack _)
    |constructor|reflexivity|apply router_ok_new|apply follows_new|vm_compute; reflexivity|reflexivity
    |by apply (bool_decide_unpack _)|by apply (bool_decide_unpack _)|].
  intros p q Hp Hq Hne. cbn [p_world rr_ring] in Hp, Hq.
  apply elem_of_cons in Hp as [->|Hp%list_elem_of_singleton],
    Hq as [->|Hq%list_elem_of_singleton]; subst; try done;
    [left|right]; vm_compute; reflexivity.
Defined.

(** A descriptor with capacity ["Infinity"] stops the router of every other
    node: its weight is infinite, [HashRing.add] throws inside the reconciler's
    callback, and the nodes listed after it are never added, in this snapshot
    or in any later one that still lists it. *)
Theorem infinite_capacity_blocks :
  nodeWeight bad = num_inf ∧
  ∃ p q, on_watch router_react 1 [A; bad; B] newReconciler routerA = Some p ∧
    p_threw p = true ∧ router_nodeIds (p_world p) = [js "A"] ∧
    on_watch router_react 1 [A; bad; B] (p_rec p) (p_world p) = Some q ∧
    p_threw q = true ∧ router_nodeIds (p_world q) = [js "A"] ∧ r_ids (p_rec q) = [js "A"; js "X"].
Proof.
  split; [vm_compute; reflexivity|]. eexists _, _.
  split; [vm_compute; reflexivity|]. split; [reflexivity|]. split; [vm_compute; reflexivity|].
  split; [vm_compute; reflexivity|]. split; [reflexivity|]. split; vm_compute; reflexivity.
Qed.
