(* ===== verification/Peer.v ===== *)
(** One client of the signaling server (packages/signaling/src/Peer.ts and the
    message schemas of protocol.ts).

    The socket is the [ws] library's: what [Peer] uses of it is the interface
    [WebSocket], and what it relies on are the laws [WebSocketLaws].  Payloads
    are opaque JSON values; [JSON.parse] is the boundary of the model: a frame is
    the value it holds, or not JSON at all. *)

From S2P Require Import Prelude JsMap JsNumber Json RateLimiter.

(** * Wire values *)

Inductive ClientMessage :=
| CSignal (to : jsstr) (data : payload)
| CPong
| CBroadcast (channel : jsstr) (data : payload).

(** [ClientMessageSchema.safeParse]. *)
Definition safeParse (v : json) : option ClientMessage :=
  match v with
  | JObj fields =>
      match mget (js "type") fields with
      | Some (JStr t) =>
          if decide (t = js "signal") then
            match mget (js "to") fields with
            | Some (JStr to) => Some (CSignal to (mget (js "data") fields))
            | _ => None
            end
          else if decide (t = js "pong") then Some CPong
          else if decide (t = js "broadcast") then
            match mget (js "channel") fields with
            | Some (JStr channel) =>
                if decide (channel = []) then None
                else Some (CBroadcast channel (mget (js "data") fields))
            | _ => None
            end
          else None
      | _ => None
      end
  | _ => None
  end.

Record IceServer := mkIce { ice_urls : jsstr + list jsstr; ice_username : option jsstr; ice_credential : option jsstr }.

Inductive ServerMessage :=
| SRoomJoined (v : Z) (roomId peerId : jsstr) (peers : list jsstr) (peerRoles : jmap jsstr jsstr)
    (peerMetadata : jmap jsstr (jmap jsstr jsstr)) (localRole : option jsstr)
    (iceServers : option (list IceServer))
| SPeerJoined (peerId role : jsstr) (metadata : jmap jsstr jsstr)
| SPeerLeft (peerId : jsstr)
| SPresenceOnline (peerId : jsstr)
| SPresenceOffline (peerId : jsstr)
| SKicked (peerId : jsstr) (reason : option jsstr)
| SSignal (from : jsstr) (data : payload)
| SBroadcast (from channel : jsstr) (data : json) (ts : Z)
| SError (code message : jsstr)
| SPing
| SRoleChanged (peerId role : jsstr).

(** * Close reasons *)

Definition is_high (c : Z) : bool := bool_decide (0xd800 ≤ c ≤ 0xdbff).
Definition is_low (c : Z) : bool := bool_decide (0xdc00 ≤ c ≤ 0xdfff).

(** [Buffer.byteLength(s, 'utf8')]: a surrogate pair takes four bytes, a lone
    surrogate becomes U+FFFD and takes three. *)
Fixpoint byteLength (s : jsstr) : Z :=
  match s with
  | [] => 0
  | c :: s1 =>
      if decide (c < 0x80) then 1 + byteLength s1
      else if decide (c < 0x800) then 2 + byteLength s1
      else match s1 with
           | d :: s2 => if is_high c && is_low d then 4 + byteLength s2 else 3 + byteLength s1
           | [] => 3
           end
  end.

(** [out.slice(0, -1)]. *)
Definition slice_last (s : jsstr) : jsstr := removelast s.

Fixpoint truncate_loop (fuel : nat) (out : jsstr) (maxBytes : Z) : jsstr :=
  match fuel with
  | O => out
  | S fuel' => if decide (maxBytes < byteLength out)
               then truncate_loop fuel' (slice_last out) maxBytes else out
  end.

Definition truncateUtf8 (s : jsstr) (maxBytes : Z) : jsstr :=
  if decide (byteLength s ≤ maxBytes) then s
  else
    let out := truncate_loop (length s) s maxBytes in
    match last out with
    | Some c => if is_high c then slice_last out else out
    | None => out
    end.

(** Close codes and reasons (types.ts). *)
Definition Normal : Z := 1000.
Definition GoingAway : Z := 1001.
Definition PolicyViolation : Z := 1008.
Definition ReplacedByReconnection : jsstr := js "Replaced by reconnection".
Definition HeartbeatTimeout : jsstr := js "Heartbeat timeout".
Definition ServerStopping : jsstr := js "Server stopping".
Definition KickedReason : jsstr := js "Kicked from room".
Definition RoomFull : jsstr := js "Room is full".
Definition RoomClosing : jsstr := js "Room is closing".
Definition ServerAtCapacity : jsstr := js "Server at capacity".
Definition SendBufferOverflow : jsstr := js "Send buffer overflow".

(** * The socket *)

(** [ws_send] and [ws_close] say whether they threw. *)
Class WebSocket (S : Type) := {
  ws_open : S → bool;
  ws_bufferedAmount : S → Z;
  ws_send : ServerMessage → S → S * bool;
  ws_close : Z → jsstr → S → S * bool;
}.

(** What the documentation of [ws] promises: [send] does not change the
    connection state; [close] leaves it not open, and does not throw for a
    valid code and a reason of at most 123 bytes. *)
Class WebSocketLaws (S : Type) `{WebSocket S} := {
  ws_send_open m s : ws_open (ws_send m s).1 = ws_open s;
  ws_close_open c r s : ws_open (ws_close c r s).1 = false;
  ws_close_ok c r s : byteLength r ≤ 123 → (ws_close c r s).2 = false;
}.

(** * The peer *)

Record Peer (S : Type) := mkPeer {
  pe_id : jsstr;
  pe_role : jsstr;
  pe_metadata : jmap jsstr jsstr;
  pe_lastPong : Z;
  pe_admitted : bool;
  pe_rate : option RateLimiter;
  pe_maxBuffered : Z;
  pe_ws : S;
}.
Arguments mkPeer {S} _ _ _ _ _ _ _ _.
Arguments pe_id {S} _.
Arguments pe_role {S} _.
Arguments pe_metadata {S} _.
Arguments pe_lastPong {S} _.
Arguments pe_admitted {S} _.
Arguments pe_rate {S} _.
Arguments pe_maxBuffered {S} _.
Arguments pe_ws {S} _.

(** What a peer does to the outside: a frame handed to the socket, the socket
    closed, an event emitted, the [onSignal] callback. *)
Inductive peer_out :=
| Sent (m : ServerMessage)
| CloseWs (code : Z) (reason : jsstr)
| EvError
| EvRateLimitExceeded
| EvPong
| EvSignal (to : jsstr) (data : payload)
| EvBroadcast (channel : jsstr) (data : json)
| CallOnSignal (to : jsstr) (data : payload).

Definition DEFAULT_MAX_BUFFERED_BYTES : Z := 16 * 1024 * 1024.

Section peer.
Context {S : Type} `{WebSocket S}.
Implicit Types (p : Peer S).

Definition newPeer (now : Z) (id : jsstr) (ws : S) (role : option jsstr)
    (metadata : option (jmap jsstr jsstr)) (maxMessagesPerSecond maxBufferedBytes : option Z)
    : Peer S :=
  mkPeer id (default [] role) (default [] metadata) now false
    ((λ n, newRateLimiter n 1000) <$> maxMessagesPerSecond)
    (default DEFAULT_MAX_BUFFERED_BYTES maxBufferedBytes) ws.

Definition set_ws (ws : S) p : Peer S :=
  mkPeer (pe_id p) (pe_role p) (pe_metadata p) (pe_lastPong p) (pe_admitted p) (pe_rate p)
    (pe_maxBuffered p) ws.
Definition set_pong (t : Z) p : Peer S :=
  mkPeer (pe_id p) (pe_role p) (pe_metadata p) t (pe_admitted p) (pe_rate p) (pe_maxBuffered p)
    (pe_ws p).
Definition set_rate (r : option RateLimiter) p : Peer S :=
  mkPeer (pe_id p) (pe_role p) (pe_metadata p) (pe_lastPong p) (pe_admitted p) r (pe_maxBuffered p)
    (pe_ws p).
Definition setRole (role : jsstr) p : Peer S :=
  mkPeer (pe_id p) role (pe_metadata p) (pe_lastPong p) (pe_admitted p) (pe_rate p)
    (pe_maxBuffered p) (pe_ws p).
Definition setAdmitted p : Peer S :=
  mkPeer (pe_id p) (pe_role p) (pe_metadata p) (pe_lastPong p) true (pe_rate p)
    (pe_maxBuffered p) (pe_ws p).

Definition isAlive (deadline : Z) p : bool := bool_decide (deadline ≤ pe_lastPong p).

(** [disconnect]: the socket is asked to close with a reason cut to 123 bytes. *)
Definition disconnect (code : Z) (reason : jsstr) p : Peer S * list peer_out * bool :=
  let r := truncateUtf8 reason 123 in
  let '(ws, threw) := ws_close code r (pe_ws p) in
  (set_ws ws p, [CloseWs code r], threw).

(** [send]; the boolean says that it threw. *)
Definition send (msg : ServerMessage) p : Peer S * list peer_out * bool :=
  if negb (ws_open (pe_ws p)) then (p, [], true)
  else if decide (pe_maxBuffered p < ws_bufferedAmount (pe_ws p)) then
    let '(p', out, threw) := disconnect PolicyViolation SendBufferOverflow p in
    (p', EvError :: out, threw)
  else
    let '(ws, threw) := ws_send msg (pe_ws p) in
    if threw : bool then (set_ws ws p, [EvError], true) else (set_ws ws p, [Sent msg], false).

(** [ping] swallows the exception. *)
Definition ping p : Peer S * list peer_out := (send SPing p).1.

(** The rate limiter of a frame at time [now]. *)
Definition rate_allow (now : Z) p : Peer S * bool :=
  match pe_rate p with
  | None => (p, true)
  | Some r => let '(r', ok) := allow now r in (set_rate (Some r') p, ok)
  end.

Definition handleMessage (now : Z) (raw : frame) p : Peer S * list peer_out :=
  let '(p1, ok) := rate_allow now p in
  if negb ok then (p1, [EvRateLimitExceeded])
  else
    let p2 := set_pong now p1 in
    match raw with
    | NotJson => (p2, [EvError])
    | Json v =>
        match safeParse v with
        | None => (p2, [EvError])
        | Some (CSignal to data) =>
            if pe_admitted p2 then (p2, [CallOnSignal to data; EvSignal to data]) else (p2, [])
        | Some CPong => (set_pong now p2, [EvPong])
        | Some (CBroadcast channel data) =>
            if pe_admitted p2 then (p2, [EvBroadcast channel (default JNull data)]) else (p2, [])
        end
    end.
End peer.

(** * Truncation *)

Fixpoint well_formed (s : jsstr) : bool :=
  match s with
  | [] => true
  | c :: s1 =>
      if is_high c then match s1 with d :: s2 => is_low d && well_formed s2 | [] => false end
      else negb (is_low c) && well_formed s1
  end.

Lemma jsstr_ind2 (P : jsstr → Prop) :
  P [] → (∀ c, P [c]) → (∀ c d s, P s → P (d :: s) → P (c :: d :: s)) → ∀ s, P s.
Proof.
  intros H0 H1 H2. assert (H : ∀ s, P s ∧ ∀ c, P (c :: s)); [|intros s; apply H].
  induction s as [|d s [IH1 IH2]]; split; auto.
Qed.

Lemma is_high_ge c : is_high c = true → 0xd800 ≤ c ≤ 0xdbff.
Proof. apply bool_decide_eq_true. Qed.

Lemma byteLength_nonneg s : 0 ≤ byteLength s.
Proof.
  induction s as [|c|c d s IH1 IH2] using jsstr_ind2; cbn [byteLength] in *;
    repeat case_match; lia.
Qed.

Lemma high_not_low c : is_high c = true → is_low c = false.
Proof. intros Hc%is_high_ge. apply bool_decide_eq_false. lia. Qed.

(** Appending a code unit makes the encoding longer: alone it adds at least one
    byte, and completing a pair turns three bytes into four. *)
Lemma byteLength_snoc s c : byteLength s < byteLength (s ++ [c]).
Proof.
  induction s as [|a|a d s IH1 IH2] using jsstr_ind2.
  - simpl. repeat case_match; lia.
  - simpl. repeat case_match; lia.
  - change ((a :: d :: s) ++ [c]) with (a :: d :: (s ++ [c])).
    change ((d :: s) ++ [c]) with (d :: (s ++ [c])) in IH2.
    set (t := s ++ [c]) in *. clearbody t.
    change (byteLength (a :: d :: t)) with
      (if decide (a < 0x80) then 1 + byteLength (d :: t) else
       if decide (a < 0x800) then 2 + byteLength (d :: t) else
       if is_high a && is_low d then 4 + byteLength t else 3 + byteLength (d :: t)).
    change (byteLength (a :: d :: s)) with
      (if decide (a < 0x80) then 1 + byteLength (d :: s) else
       if decide (a < 0x800) then 2 + byteLength (d :: s) else
       if is_high a && is_low d then 4 + byteLength s else 3 + byteLength (d :: s)).
    repeat case_match; lia.
Qed.

Lemma byteLength_prefix s t : s `prefix_of` t → byteLength s ≤ byteLength t.
Proof.
  intros [k ->]. induction k as [|c k IH] using rev_ind; [by rewrite app_nil_r|].
  rewrite app_assoc. pose proof (byteLength_snoc (s ++ k) c). lia.
Qed.

Lemma removelast_app (s : jsstr) c : removelast (s ++ [c]) = s.
Proof.
  induction s as [|a s IH]; [done|]. simpl. rewrite IH. by destruct s.
Qed.

Lemma prefix_snoc_inv (q s : jsstr) c : q `prefix_of` s ++ [c] → q = s ++ [c] ∨ q `prefix_of` s.
Proof.
  intros [k Hk]. destruct k as [|x k _] using rev_ind; [left; by rewrite app_nil_r in Hk|].
  rewrite app_assoc in Hk. apply app_inj_tail in Hk as [-> ->]. right. by exists k.
Qed.

(** The loop stops at the longest prefix that fits. *)
Lemma truncate_loop_spec fuel s n :
  0 ≤ n → (length s ≤ fuel)%nat →
  let r := truncate_loop fuel s n in
  r `prefix_of` s ∧ byteLength r ≤ n ∧ ∀ q, q `prefix_of` s → byteLength q ≤ n → q `prefix_of` r.
Proof.
  intros Hn. revert s. induction fuel as [|fuel IH]; intros s Hlen; simpl.
  { destruct s; simpl in *; [done|lia]. }
  case_decide as Hb.
  - destruct s as [|c s _] using rev_ind; [simpl in Hb; lia|].
    unfold slice_last. rewrite removelast_app. rewrite length_app in Hlen. simpl in Hlen.
    destruct (IH s) as (H1 & H2 & H3); [lia|]. split; [by apply prefix_app_r|]. split; [done|].
    intros q [->|Hq]%prefix_snoc_inv Hqn; [lia|auto].
  - split; [done|]. split; [lia|done].
Qed.

Lemma well_formed_snoc_high s c : is_high c = true → well_formed (s ++ [c]) = false.
Proof.
  intros Hc. induction s as [|a|a d s IH1 IH2] using jsstr_ind2; simpl in *.
  - by rewrite Hc.
  - rewrite Hc, (high_not_low c) by done. destruct (is_high a); [done|]. by rewrite andb_false_r.
  - destruct (is_high a); [|by rewrite IH2, andb_false_r]. by rewrite IH1, andb_false_r.
Qed.

Lemma well_formed_two_highs s d c k :
  is_high d = true → is_high c = true → well_formed (s ++ d :: c :: k) = false.
Proof.
  intros Hd Hc. induction s as [|a|a b s IH1 IH2] using jsstr_ind2; simpl in *.
  - by rewrite Hd, (high_not_low c).
  - rewrite Hd, (high_not_low d), (high_not_low c) by done. destruct (is_high a); [done|].
    by rewrite andb_false_r.
  - destruct (is_high a); [by rewrite IH1, andb_false_r|by rewrite IH2, andb_false_r].
Qed.

(** A prefix of a well-formed string is well-formed unless it ends inside a pair. *)
Lemma well_formed_prefix p s :
  well_formed s = true → p `prefix_of` s →
  (∀ c, last p = Some c → is_high c = false) → well_formed p = true.
Proof.
  revert s. induction p as [|a|a d p IH1 IH2] using jsstr_ind2; intros s Hs [k ->] Hl; [done| |].
  - simpl in *. rewrite (Hl a eq_refl) in *. apply andb_true_iff in Hs as [-> _]. done.
  - change ((a :: d :: p) ++ k) with (a :: d :: (p ++ k)) in Hs.
    cbn [well_formed] in Hs |- *. destruct (is_high a).
    + apply andb_true_iff in Hs as [-> Hs]. simpl. apply (IH1 (p ++ k)); [done|by exists k|].
      intros c Hc. apply Hl. destruct p; [done|]. done.
    + apply andb_true_iff in Hs as [-> Hs]. simpl. apply (IH2 (d :: p ++ k)); [done|by exists k|done].
Qed.

(** Close reasons.  [truncateUtf8] cuts a well-formed string at the longest
    well-formed prefix whose UTF-8 encoding fits: the result fits, never ends
    in half a surrogate pair, and no longer well-formed prefix would fit. *)
Theorem truncate_longest (s : jsstr) (maxBytes : Z)
  (Hs : well_formed s = true) (Hmax : 0 ≤ maxBytes) :
  let r := truncateUtf8 s maxBytes in
  r `prefix_of` s ∧ well_formed r = true ∧ byteLength r ≤ maxBytes ∧
  ∀ q, q `prefix_of` s → well_formed q = true → byteLength q ≤ maxBytes → q `prefix_of` r.
Proof.
  simpl. unfold truncateUtf8. case_decide as Hb; [by auto|].
  destruct (truncate_loop_spec (length s) s maxBytes Hmax) as (H1 & H2 & H3); [done|].
  set (out := truncate_loop _ _ _) in *. clearbody out.
  destruct (last out) as [c|] eqn:El.
  - destruct (is_high c) eqn:Ec.
    + destruct out as [|c' out _] using rev_ind; [done|]. rewrite last_snoc in El. injection El as ->.
      unfold slice_last. rewrite removelast_app.
      assert (Hp : out `prefix_of` s) by (etrans; [|exact H1]; by apply prefix_app_r).
      assert (Hnh : ∀ d, last out = Some d → is_high d = false).
      { intros d Hd. destruct out as [|d' out _] using rev_ind; [done|].
        rewrite last_snoc in Hd. injection Hd as ->. apply not_true_iff_false. intros Hh.
        destruct H1 as [k ->]. rewrite <- !app_assoc in Hs. simpl in Hs.
        by rewrite well_formed_two_highs in Hs. }
      split; [done|]. split; [by eapply well_formed_prefix|].
      split; [pose proof (byteLength_snoc out c); lia|].
      intros q Hq Hqw Hqb. destruct (prefix_snoc_inv q out c (H3 q Hq Hqb)) as [->|]; [|done].
      by rewrite well_formed_snoc_high in Hqw.
    + split; [done|]. split; [|split; [done|auto]]. eapply well_formed_prefix; [done..|].
      intros d Hd. congruence.
  - destruct out as [|c out _] using rev_ind; [|by rewrite last_snoc in El].
    split; [done|]. split; [done|]. split; [done|auto].
Qed.

Lemma truncate_fits s n : 0 ≤ n → byteLength (truncateUtf8 s n) ≤ n.
Proof.
  intros Hn. unfold truncateUtf8. case_decide; [done|].
  destruct (truncate_loop_spec (length s) s n Hn) as (_ & H2 & _); [done|].
  set (out := truncate_loop _ _ _) in *. clearbody out.
  destruct (last out) as [c|]; [|done]. destruct (is_high c); [|done].
  destruct out as [|c' out _] using rev_ind; [done|]. unfold slice_last. rewrite removelast_app.
  pose proof (byteLength_snoc out c'). lia.
Qed.

Lemma truncate_longest_witness :
  truncateUtf8 (js "ab" ++ [0xd83d; 0xde00]) 5 = js "ab" ∧
  well_formed (truncateUtf8 (js "ab" ++ [0xd83d; 0xde00]) 5) = true.
Proof.
  split; [reflexivity|].
  exact (proj1 (proj2 (truncate_longest (js "ab" ++ [0xd83d; 0xde00]) 5 eq_refl ltac:(lia)))).
Defined.

(** * Sending and closing *)

Section peer_lemmas.
Context {S : Type} `{WebSocketLaws S}.
Implicit Types (p : Peer S).

Lemma disconnect_ok code reason p :
  ws_open (pe_ws (disconnect code reason p).1.1) = false ∧ (disconnect code reason p).2 = false ∧
  (disconnect code reason p).1.2 = [CloseWs code (truncateUtf8 reason 123)].
Proof.
  unfold disconnect. destruct (ws_close code (truncateUtf8 reason 123) (pe_ws p)) as [ws b] eqn:E.
  simpl. split.
  - change ws with (ws, b).1. rewrite <- E. apply ws_close_open.
  - split; [|done]. change b with (ws, b).2. rewrite <- E. apply ws_close_ok. by apply truncate_fits.
Qed.

(** The identity, admission and proof of life of a peer are not affected by what
    is sent to it. *)
Definition same_peer p p' : Prop :=
  pe_id p' = pe_id p ∧ pe_role p' = pe_role p ∧ pe_metadata p' = pe_metadata p ∧
  pe_admitted p' = pe_admitted p ∧ pe_lastPong p' = pe_lastPong p.

Lemma disconnect_same code reason p : same_peer p (disconnect code reason p).1.1.
Proof. unfold disconnect. by destruct (ws_close _ _ _). Qed.

Lemma send_same msg p : same_peer p (send msg p).1.1.
Proof.
  unfold send. destruct (negb _); [done|]. case_decide.
  - pose proof (disconnect_same PolicyViolation SendBufferOverflow p) as Hs.
    by destruct (disconnect _ _ p) as [[p' out] b].
  - destruct (ws_send msg (pe_ws p)) as [ws []]; done.
Qed.

Lemma send_out msg p : (send msg p).1.2 ⊆ [Sent msg; EvError; CloseWs PolicyViolation SendBufferOverflow].
Proof.
  unfold send. destruct (negb _); [set_solver|]. case_decide.
  - unfold disconnect. destruct (ws_close _ _ _). simpl. set_solver.
  - destruct (ws_send msg (pe_ws p)) as [ws []]; simpl; set_solver.
Qed.

(** The contract of [send].  It throws exactly when the socket is not open or
    the socket itself fails, in which case nothing was sent; a peer whose
    buffer is over the cap is not sent anything either, but disconnected, without
    an exception; otherwise the message, and only it, goes to the socket.
    A peer that is disconnected, for whatever reason text, is not open any
    more, and no [disconnect] throws. *)
Theorem send_contract msg code reason p :
  let '(p', out, threw) := send msg p in
  let full := ws_open (pe_ws p) && bool_decide (pe_maxBuffered p < ws_bufferedAmount (pe_ws p)) in
  (threw = true ↔ ws_open (pe_ws p) = false ∨
                  ws_open (pe_ws p) = true ∧ full = false ∧ (ws_send msg (pe_ws p)).2 = true) ∧
  (full = true → out = [EvError; CloseWs PolicyViolation SendBufferOverflow] ∧
                 ws_open (pe_ws p') = false) ∧
  (Sent msg ∈ out ↔ threw = false ∧ full = false) ∧ same_peer p p' ∧
  ws_open (pe_ws (disconnect code reason p).1.1) = false ∧ (disconnect code reason p).2 = false.
Proof.
  pose proof (send_same msg p) as Hsame. pose proof (disconnect_ok code reason p) as (Hd1 & Hd2 & _).
  unfold send in *. destruct (ws_open (pe_ws p)) eqn:Eo; simpl in *.
  - destruct (bool_decide_reflect (pe_maxBuffered p < ws_bufferedAmount (pe_ws p))) as [Hb|Hb].
    + rewrite decide_True in * by done.
      destruct (disconnect_ok PolicyViolation SendBufferOverflow p) as (Hc1 & Hc2 & Hc3).
      destruct (disconnect PolicyViolation SendBufferOverflow p) as [[p' out] b]. simpl in *. subst.
      split; [split; [done|by intros [|(_ & ? & _)]]|]. split; [done|].
      split; [split; [set_solver|by intros []]|]. done.
    + rewrite decide_False in * by done.
      destruct (ws_send msg (pe_ws p)) as [ws []]; simpl in *.
      * split; [split; [by auto|done]|]. split; [done|]. split; [split; [set_solver|by intros []]|]. done.
      * split; [split; [done|by intros [|(_ & _ & ?)]]|]. split; [done|].
        split; [split; [done|set_solver]|]. done.
  - split; [split; [by auto|done]|]. split; [done|]. split; [split; [set_solver|by intros []]|]. done.
Qed.
End peer_lemmas.

(** * A stream of frames *)

Section frames.
Context {S : Type}.
Implicit Types (p : Peer S).

(** The frames with their times, and what each of them made the peer do. *)
Fixpoint handle_all (fs : list (Z * frame)) p : Peer S * list (Z * list peer_out) :=
  match fs with
  | [] => (p, [])
  | (now, raw) :: fs' =>
      let '(p1, out) := handleMessage now raw p in
      let '(p2, outs) := handle_all fs' p1 in (p2, (now, out) :: outs)
  end.

Definition dropped (out : list peer_out) : bool :=
  match out with [EvRateLimitExceeded] => true | _ => false end.

(** Times of the frames that got past the rate limiter. *)
Definition accepted_times (outs : list (Z * list peer_out)) : list Z :=
  (filter (λ o, dropped o.2 = false) outs).*1.

Definition relays (o : peer_out) : bool :=
  match o with CallOnSignal _ _ | EvSignal _ _ | EvBroadcast _ _ => true | _ => false end.

(** A handled frame: the limiter decides first, and a dropped frame changes
    nothing else, not even the proof of life. *)
Lemma handle_frame now raw p :
  let '(p', out) := handleMessage now raw p in
  pe_admitted p' = pe_admitted p ∧ pe_ws p' = pe_ws p ∧
  (pe_admitted p = false → existsb relays out = false) ∧
  match pe_rate p with
  | None => pe_rate p' = None ∧ dropped out = false ∧ pe_lastPong p' = now
  | Some r => pe_rate p' = Some (allow now r).1 ∧ dropped out = negb (allow now r).2 ∧
              pe_lastPong p' = if (allow now r).2 then now else pe_lastPong p
  end.
Proof.
  unfold handleMessage, rate_allow. destruct (pe_rate p) as [r|] eqn:Er.
  - destruct (allow now r) as [r' ok] eqn:Ea. destruct ok; simpl; [|done].
    destruct raw as [|v]; [done|]. destruct (safeParse v) as [[to data| |ch data]|]; try done;
      simpl; destruct (pe_admitted p) eqn:Ep; simpl; rewrite ?Ep; done.
  - simpl. destruct raw as [|v]; [done|]. destruct (safeParse v) as [[to data| |ch data]|]; try done;
      simpl; destruct (pe_admitted p) eqn:Ep; simpl; rewrite ?Ep, ?Er; done.
Qed.

Lemma handle_all_calls fs p r acc :
  pe_rate p = Some r →
  let '(p', outs) := handle_all fs p in
  pe_rate p' = Some (calls fs.*1 r acc).1 ∧
  acc ++ accepted_times outs = (calls fs.*1 r acc).2.
Proof.
  revert p r acc. induction fs as [|[now raw] fs IH]; intros p r acc Hr; simpl.
  { by rewrite app_nil_r. }
  pose proof (handle_frame now raw p) as Hf.
  destruct (handleMessage now raw p) as [p1 out]. rewrite Hr in Hf.
  destruct Hf as (_ & _ & _ & Hr1 & Hd & _).
  destruct (allow now r) as [r1 ok]. simpl in *.
  specialize (IH p1 r1 (if ok then acc ++ [now] else acc) Hr1).
  destruct (handle_all fs p1) as [p2 outs]. destruct IH as [IH1 IH2]. split; [done|].
  change (list_fmap (Z * frame)%type Z fst fs) with (fs.*1). rewrite <- IH2.
  unfold accepted_times. rewrite filter_cons. simpl. rewrite Hd.
  destruct ok; simpl; [|done]. by rewrite <- app_assoc.
Qed.

(** Inbound frames.  As long as a peer has not been admitted to its room, none
    of its frames, valid or not, is relayed or broadcast.  With a limit of n
    messages per second, whatever frames arrive at whatever times, no window of
    one second contains more than n frames that the server looked at; each other
    one is only reported as dropped. *)
Theorem frames_guarded (fs : list (Z * frame)) p t0 n
  (Hrate : pe_rate p = Some (newRateLimiter n 1000))
  (Htimes : Sorted.StronglySorted Z.le (t0 :: fs.*1)) :
  let '(p', outs) := handle_all fs p in
  (pe_admitted p = false → pe_admitted p' = false ∧ Forall (λ o, existsb relays o.2 = false) outs) ∧
  ∀ a, Z.of_nat (length (in_window a 1000 (accepted_times outs))) ≤ Z.max 0 n.
Proof.
  pose proof (handle_all_calls fs p (newRateLimiter n 1000) [] Hrate) as Hc.
  assert (Hb : windows_bounded n 1000 (calls fs.*1 (newRateLimiter n 1000) []).2).
  { apply (calls_windows fs.*1 (newRateLimiter n 1000) [] t0); [apply new_inv|done|].
    intros a. simpl. lia. }
  assert (Hadm : let '(p', outs) := handle_all fs p in pe_admitted p = false →
    pe_admitted p' = false ∧ Forall (λ o, existsb relays o.2 = false) outs).
  { clear. revert p. induction fs as [|[now raw] fs IH]; intros p; simpl; [by split|].
    pose proof (handle_frame now raw p) as Hf.
    destruct (handleMessage now raw p) as [p1 out]. destruct Hf as (Ha & _ & Hrel & _).
    specialize (IH p1). destruct (handle_all fs p1) as [p2 outs]. intros Hp.
    destruct IH as [? ?]; [by rewrite Ha|]. split; [done|]. constructor; simpl; auto. }
  destruct (handle_all fs p) as [p' outs]. split; [done|]. intros a.
  destruct Hc as [_ Hc]. simpl in Hc. rewrite Hc. apply Hb.
Qed.
End frames.

(** * A concrete socket *)

Record TestSocket := mkSocket {
  ts_open : bool;
  ts_buffered : Z;
  ts_fails : bool;
}.

(** A socket that [fails] throws on every send. *)
#[export] Instance test_socket : WebSocket TestSocket := {
  ws_open := ts_open;
  ws_bufferedAmount := ts_buffered;
  ws_send m s := (s, ts_fails s);
  ws_close c r s := (mkSocket false (ts_buffered s) (ts_fails s), bool_decide (123 < byteLength r));
}.

#[export] Instance test_socket_laws : WebSocketLaws TestSocket.
Proof. constructor; [done|done|]. intros c r s Hr. simpl. apply bool_decide_eq_false. lia. Qed.

Definition good_socket : TestSocket := mkSocket true 0 false.
Definition test_peer (id : jsstr) : Peer TestSocket :=
  newPeer 0 id good_socket None None (Some 2) None.

Definition signal_frame : frame :=
  Json (JObj [(js "type", JStr (js "signal")); (js "to", JStr (js "b")); (js "data", JNull)]).

Lemma frames_guarded_witness :
  (handle_all [(10, signal_frame); (20, NotJson); (30, signal_frame); (1011, signal_frame)]
     (test_peer (js "a"))).2
  = [(10, []); (20, [EvError]); (30, [EvRateLimitExceeded]); (1011, [])] ∧
  ∀ a, Z.of_nat (length (in_window a 1000 (accepted_times
    (handle_all [(10, signal_frame); (20, NotJson); (30, signal_frame); (1011, signal_frame)]
       (test_peer (js "a"))).2))) ≤ 2.
Proof.
  split; [vm_compute; reflexivity|].
  refine (proj2 (frames_guarded
    [(10, signal_frame); (20, NotJson); (30, signal_frame); (1011, signal_frame)]
    (test_peer (js "a")) 0 2 eq_refl _)).
  cbn [fmap list_fmap fst]. repeat apply Sorted.SSorted_cons; try apply Sorted.SSorted_nil;
    repeat (apply Forall_cons; split; [lia|]); apply Forall_nil; done.
Defined.

Lemma send_contract_witness :
  send SPing (set_ws (mkSocket true (2 ^ 40) false) (test_peer (js "a")))
  = (set_ws (mkSocket false (2 ^ 40) false) (test_peer (js "a")),
     [EvError; CloseWs PolicyViolation SendBufferOverflow], false) ∧
  (disconnect Normal RoomFull (test_peer (js "a"))).2 = false.
Proof.
  split; [vm_compute; reflexivity|].
  pose proof (send_contract SPing Normal RoomFull (test_peer (js "a"))) as Hc.
  destruct (send _ _) as [[p' out] b]. apply Hc.
Defined.
