(* ===== verification/Room.v ===== *)
(** A room of the signaling server (packages/signaling/src/Room.ts).

    Peers are shared objects: the room, the server and the socket callbacks hold
    references to them.  A peer is therefore a reference [nat] into a heap, and
    identity of peers is equality of references.  An operation takes the heap and
    the room to the heap and the room after it; what it emitted and sent on the
    way is appended, in order, to [rs_out].  Timers are kept as the time at which
    they are due.  Listeners of the room's events do not call back into it. *)

From S2P Require Import Prelude JsMap JsNumber Json RateLimiter Peer.

Inductive RoomState := Creating | Active | Closing | Closed.

#[export] Instance RoomState_eq_dec : EqDecision RoomState.
Proof. solve_decision. Defined.

Definition LEGAL_TRANSITIONS (s : RoomState) : list RoomState :=
  match s with
  | Creating => [Active; Closing; Closed]
  | Active => [Closing; Closed]
  | Closing => [Closed]
  | Closed => []
  end.

Inductive room_out :=
| PeerOut (ref : nat) (o : peer_out)
| EvPeerJoined (ref : nat)
| EvPeerLeft (ref : nat)
| EvClosed
| EvPeerError (peerId : jsstr)
| EvPeerKicked (peerId : jsstr) (reason : option jsstr).

Record Room := mkRoom {
  ro_id : jsstr;
  ro_state : RoomState;
  ro_peers : jmap jsstr nat;
  ro_maxPeers : option Z;
  ro_meta : jmap jsstr (jmap jsstr jsstr);
  ro_idleMs : option Z;
  ro_durationTimer : option Z;
  ro_idleTimer : option Z;
  ro_keepAlive : bool;
  (** peers whose [Disconnected] event still has the room's [once] listener *)
  ro_subs : list nat;
}.

Record RoomOptions := mkOpts {
  o_maxPeers : option Z;
  o_maxDurationMs : option Z;
  o_idleTimeoutMs : option Z;
  o_keepAliveOnEmpty : option bool;
}.

Definition newRoom (now : Z) (id : jsstr) (opts : RoomOptions) : Room :=
  mkRoom id Creating [] (o_maxPeers opts) [] (o_idleTimeoutMs opts)
    ((λ d, now + d) <$> o_maxDurationMs opts) None (default false (o_keepAliveOnEmpty opts)) [].

Definition set_state (s : RoomState) (r : Room) : Room :=
  mkRoom (ro_id r) s (ro_peers r) (ro_maxPeers r) (ro_meta r) (ro_idleMs r) (ro_durationTimer r)
    (ro_idleTimer r) (ro_keepAlive r) (ro_subs r).
Definition set_peers (ps : jmap jsstr nat) (meta : jmap jsstr (jmap jsstr jsstr)) (r : Room) : Room :=
  mkRoom (ro_id r) (ro_state r) ps (ro_maxPeers r) meta (ro_idleMs r) (ro_durationTimer r)
    (ro_idleTimer r) (ro_keepAlive r) (ro_subs r).
Definition set_timers (duration idle : option Z) (r : Room) : Room :=
  mkRoom (ro_id r) (ro_state r) (ro_peers r) (ro_maxPeers r) (ro_meta r) (ro_idleMs r) duration idle
    (ro_keepAlive r) (ro_subs r).
Definition set_subs (subs : list nat) (r : Room) : Room :=
  mkRoom (ro_id r) (ro_state r) (ro_peers r) (ro_maxPeers r) (ro_meta r) (ro_idleMs r)
    (ro_durationTimer r) (ro_idleTimer r) (ro_keepAlive r) subs.

Definition _transitionTo (next : RoomState) (r : Room) : Room * bool :=
  if decide (ro_state r = next) then (r, false)
  else if bool_decide (next ∈ LEGAL_TRANSITIONS (ro_state r)) then (set_state next r, true)
  else (r, false).

Definition _clearTimers (r : Room) : Room := set_timers None None r.

Definition _resetIdleTimer (now : Z) (r : Room) : Room :=
  match ro_idleMs r with
  | None => r
  | Some ms => if decide (ro_state r = Active)
               then set_timers (ro_durationTimer r) (Some (now + ms)) r else r
  end.

Definition getPeerIds (r : Room) : list jsstr := mkeys (ro_peers r).
Definition getPeers (r : Room) : list nat := mvals (ro_peers r).
Definition getPeerCount (r : Room) : Z := Z.of_nat (msize (ro_peers r)).
Definition getPeer (id : jsstr) (r : Room) : option nat := mget id (ro_peers r).
Definition getPeerMetadata (id : jsstr) (r : Room) : option (jmap jsstr jsstr) := mget id (ro_meta r).

Definition PROTOCOL_VERSION : Z := 1.
Definition ROOM_EXPIRED : jsstr := js "ROOM_EXPIRED".
Definition RoomExpired : jsstr := js "Room expired".

Section room.
Context {S : Type} `{WebSocket S}.

Abbreviation heap := (gmap nat (Peer S)).

Record rs := mkRs {
  rs_heap : heap;
  rs_room : Room;
  rs_out : list room_out;
}.

Definition on_room (f : Room → Room) (s : rs) : rs := mkRs (rs_heap s) (f (rs_room s)) (rs_out s).
Definition emit (e : room_out) (s : rs) : rs := mkRs (rs_heap s) (rs_room s) (rs_out s ++ [e]).

(** A method of the peer object behind a reference; the boolean says it threw. *)
Definition on_peer (ref : nat) (f : Peer S → Peer S * list peer_out * bool) (s : rs) : rs * bool :=
  match rs_heap s !! ref with
  | None => (s, false)
  | Some p =>
      let '(p', out, threw) := f p in
      (mkRs (<[ref := p']> (rs_heap s)) (rs_room s) (rs_out s ++ (PeerOut ref <$> out)), threw)
  end.

Definition transition (next : RoomState) (s : rs) : rs := on_room (λ r, (_transitionTo next r).1) s.

(** [_sendToAll]: the loop collects the ids whose send threw. *)
Fixpoint send_loop (msg : ServerMessage) (exclude : option jsstr) (ps : jmap jsstr nat) (s : rs)
    : rs * list jsstr :=
  match ps with
  | [] => (s, [])
  | (id, ref) :: ps' =>
      if bool_decide (exclude = Some id) then send_loop msg exclude ps' s
      else
        let '(s1, threw) := on_peer ref (send msg) s in
        if threw : bool then
          let '(s2, failed) := send_loop msg exclude ps' (emit (EvPeerError id) s1) in
          (s2, id :: failed)
        else send_loop msg exclude ps' s1
  end.

Definition _sendToAll (now : Z) (msg : ServerMessage) (exclude : option jsstr) (s : rs)
    : rs * list jsstr :=
  let s1 := on_room (_resetIdleTimer now) s in
  send_loop msg exclude (ro_peers (rs_room s1)) s1.

Definition broadcast (now : Z) (msg : ServerMessage) (s : rs) : rs * list jsstr :=
  _sendToAll now msg None s.
Definition broadcastExcept (now : Z) (excludeId : jsstr) (msg : ServerMessage) (s : rs)
    : rs * list jsstr := _sendToAll now msg (Some excludeId) s.

Definition removePeer (now : Z) (peerId : jsstr) (s : rs) : rs :=
  match getPeer peerId (rs_room s) with
  | None => s
  | Some ref =>
      let s1 := on_room (λ r, set_peers (mdel peerId (ro_peers r)) (mdel peerId (ro_meta r)) r) s in
      if (getPeerCount (rs_room s1) =? 0) && negb (ro_keepAlive (rs_room s1)) then
        let s2 := transition Closing (on_room _clearTimers s1) in
        emit EvClosed (transition Closed (emit (EvPeerLeft ref) s2))
      else
        let s2 := (broadcastExcept now peerId (SPeerLeft peerId) s1).1 in
        let s3 := (broadcastExcept now peerId (SPresenceOffline peerId) s2).1 in
        emit (EvPeerLeft ref) s3
  end.

(** The roster sent to a joining peer. *)
Definition otherIds (id : jsstr) (r : Room) : list jsstr := filter (λ i, i ≠ id) (getPeerIds r).

Definition peerRoles (h : heap) (id : jsstr) (r : Room) : jmap jsstr jsstr :=
  omap (λ e : jsstr * nat,
    match h !! e.2 with
    | Some p => if bool_decide (e.1 = id) || bool_decide (pe_role p = []) then None
                else Some (e.1, pe_role p)
    | None => None
    end) (ro_peers r).

Definition room_joined (h : heap) (p : Peer S) (ice : option (list IceServer)) (r : Room)
    : ServerMessage :=
  SRoomJoined PROTOCOL_VERSION (ro_id r) (pe_id p) (otherIds (pe_id p) r) (peerRoles h (pe_id p) r)
    (ro_meta r) (if bool_decide (pe_role p = []) then None else Some (pe_role p))
    (match ice with Some [] => None | _ => ice end).

Definition addPeer (now : Z) (ref : nat) (ice : option (list IceServer)) (s : rs)
    : rs * result unit bool :=
  match rs_heap s !! ref with
  | None => (s, Throw ())
  | Some peer =>
      let r := rs_room s in
      let id := pe_id peer in
      let reject reason :=
        let '(s1, threw) := on_peer ref (disconnect PolicyViolation reason) s in
        (s1, if threw : bool then Throw () else Ok false) in
      if bool_decide (ro_state r = Closing) || bool_decide (ro_state r = Closed) then
        reject RoomClosing
      else
        let existing := getPeer id r in
        let full := match ro_maxPeers r with Some m => m <=? getPeerCount r | None => false end in
        if bool_decide (existing = None) && full then reject RoomFull
        else
          let '(s1, threw) :=
            match existing with
            | Some old =>
                let '(s', threw) := on_peer old (disconnect Normal ReplacedByReconnection) s in
                (if threw : bool then s' else emit (EvPeerLeft old) s', threw)
            | None => (s, false)
            end in
          if threw then (s1, Throw ())
          else
            let s2 := on_room (λ r, set_peers (mset id ref (ro_peers r))
                        (if bool_decide (pe_metadata peer = []) then mdel id (ro_meta r)
                         else mset id (pe_metadata peer) (ro_meta r)) r) s1 in
            let '(s3, threw) :=
              on_peer ref (send (room_joined (rs_heap s2) peer ice (rs_room s2))) s2 in
            if threw : bool then
              (on_room (λ r, set_peers (mdel id (ro_peers r)) (mdel id (ro_meta r)) r) s3, Throw ())
            else
              let s4 :=
                if bool_decide (existing = None) then
                  let s' := (broadcastExcept now id (SPeerJoined id (pe_role peer) (pe_metadata peer)) s3).1 in
                  (broadcastExcept now id (SPresenceOnline id) s').1
                else s3 in
              let s5 := on_room (λ r, set_subs (ro_subs r ++ [ref]) r) s4 in
              (emit (EvPeerJoined ref) (on_room (_resetIdleTimer now) (transition Active s5)), Ok true)
  end.

(** The [Disconnected] event of a peer reaches the room's [once] listener. *)
Definition peer_disconnected (now : Z) (ref : nat) (s : rs) : rs :=
  if bool_decide (ref ∈ ro_subs (rs_room s)) then
    let s1 := on_room (λ r, set_subs (sdel ref (ro_subs r)) r) s in
    match rs_heap s !! ref with
    | Some p => if bool_decide (getPeer (pe_id p) (rs_room s1) = Some ref)
                then removePeer now (pe_id p) s1 else s1
    | None => s1
    end
  else s.

(** [kickPeer]: a failing send is ignored, a failing disconnect is not. *)
Definition kickPeer (now : Z) (peerId : jsstr) (reason : option jsstr) (s : rs) : rs * result unit bool :=
  match getPeer peerId (rs_room s) with
  | None => (s, Ok false)
  | Some ref =>
      let s1 := (on_peer ref (send (SKicked peerId reason)) s).1 in
      let '(s2, threw) := on_peer ref (disconnect PolicyViolation (default KickedReason reason)) s1 in
      if threw : bool then (s2, Throw ())
      else (emit (EvPeerKicked peerId reason) (removePeer now peerId s2), Ok true)
  end.

Definition disconnectAndRemove (now : Z) (peerId : jsstr) (code : Z) (reason : jsstr) (s : rs)
    : rs * result unit bool :=
  match getPeer peerId (rs_room s) with
  | None => (s, Ok false)
  | Some ref =>
      let '(s1, threw) := on_peer ref (disconnect code reason) s in
      if threw : bool then (s1, Throw ()) else (removePeer now peerId s1, Ok true)
  end.

Definition relay (now : Z) (fromId toId : jsstr) (data : payload) (s : rs) : rs * bool :=
  let s1 := on_room (_resetIdleTimer now) s in
  match getPeer toId (rs_room s1) with
  | None => (s1, false)
  | Some ref =>
      let '(s2, threw) := on_peer ref (send (SSignal fromId data)) s1 in
      if threw : bool then (emit (EvPeerError toId) s2, false) else (s2, true)
  end.

Definition markActivity (now : Z) (s : rs) : rs := on_room (_resetIdleTimer now) s.

Definition setPeerRole (now : Z) (peerId newRole : jsstr) (s : rs) : rs * bool :=
  match getPeer peerId (rs_room s) with
  | None => (s, false)
  | Some ref =>
      let s1 := (on_peer ref (λ p, (setRole newRole p, [], false)) s).1 in
      ((broadcast now (SRoleChanged peerId newRole) s1).1, true)
  end.

Definition dispose (s : rs) : rs :=
  on_room (set_peers [] []) (transition Closed (on_room _clearTimers s)).

(** [_forceClose]; the loop disconnects the peers of a snapshot. *)
Fixpoint expire_loop (refs : list nat) (s : rs) : rs :=
  match refs with
  | [] => s
  | ref :: refs' =>
      expire_loop refs' (emit (EvPeerLeft ref) (on_peer ref (disconnect Normal RoomExpired) s).1)
  end.

Definition _forceClose (now : Z) (s : rs) : rs :=
  if bool_decide (ro_state (rs_room s) = Active) || bool_decide (ro_state (rs_room s) = Creating) then
    let s1 := on_room _clearTimers (transition Closing s) in
    let s2 := (broadcast now (SError ROOM_EXPIRED RoomExpired) s1).1 in
    let refs := getPeers (rs_room s2) in
    let s3 := expire_loop refs (on_room (set_peers [] []) s2) in
    emit EvClosed (transition Closed s3)
  else s.

(** A timer fires once it is due. *)
Definition fire (now : Z) (timer : Room → option Z) (s : rs) : rs :=
  match timer (rs_room s) with
  | Some t => if decide (t ≤ now) then _forceClose now s else s
  | None => s
  end.
End room.

Arguments mkRs {S} _ _ _.
Arguments rs_heap {S} _.
Arguments rs_room {S} _.
Arguments rs_out {S} _.

(** * Well-formed rooms *)

(** The ids of the peers on the heap do not change; the invariant of a room only
    depends on them. *)
Abbreviation ids h := (pe_id <$> h).

Record room_ok (peer_ids : gmap nat jsstr) (r : Room) : Prop := {
  rk_wf : mwf (ro_peers r);
  rk_ref id ref : mget id (ro_peers r) = Some ref → peer_ids !! ref = Some id;
  rk_cap m : ro_maxPeers r = Some m → getPeerCount r ≤ Z.max 0 m;
  rk_active : ro_state r ≠ Active → ro_peers r = [];
  rk_meta id : mget id (ro_peers r) = None → mget id (ro_meta r) = None;
  rk_idle : ro_state r ≠ Active → ro_idleTimer r = None;
  rk_limits m : ro_idleMs r = None → ro_idleTimer r = Some m → False;
}.

Lemma room_ok_new peer_ids now id opts : room_ok peer_ids (newRoom now id opts).
Proof. constructor; simpl; try done. constructor. intros m _. unfold getPeerCount. simpl. lia. Qed.

Lemma room_ok_heap ids1 ids2 r : (∀ ref id, ids1 !! ref = Some id → ids2 !! ref = Some id) →
  room_ok ids1 r → room_ok ids2 r.
Proof. intros Hi [? Href]. constructor; try done. intros id ref Hr. by apply Hi, Href. Qed.

(** Rooms that differ in the idle timer only. *)
Definition same_room (r r' : Room) : Prop :=
  ∃ t, r' = set_timers (ro_durationTimer r) t r ∧ (t = ro_idleTimer r ∨ ro_state r = Active ∧ ro_idleMs r ≠ None).

Lemma same_room_refl r : same_room r r.
Proof. exists (ro_idleTimer r). split; [by destruct r|by left]. Qed.

Lemma same_room_trans r1 r2 r3 : same_room r1 r2 → same_room r2 r3 → same_room r1 r3.
Proof.
  intros (t & -> & Ht) (t' & -> & Ht'). exists t'. split; [done|]. simpl in Ht'.
  destruct Ht' as [->|[]]; [done|by right].
Qed.

Lemma same_room_fields r r' : same_room r r' →
  ro_id r' = ro_id r ∧ ro_state r' = ro_state r ∧ ro_peers r' = ro_peers r ∧
  ro_maxPeers r' = ro_maxPeers r ∧ ro_meta r' = ro_meta r ∧ ro_subs r' = ro_subs r ∧
  ro_keepAlive r' = ro_keepAlive r ∧ ro_durationTimer r' = ro_durationTimer r ∧
  ro_idleMs r' = ro_idleMs r.
Proof. by intros (t & -> & _). Qed.

Lemma reset_same now r : same_room r (_resetIdleTimer now r).
Proof.
  unfold _resetIdleTimer. destruct (ro_idleMs r) eqn:E; [|apply same_room_refl].
  case_decide; [|apply same_room_refl]. eexists. split; [done|]. right. split; [done|congruence].
Qed.

Lemma room_ok_same peer_ids r r' : same_room r r' → room_ok peer_ids r → room_ok peer_ids r'.
Proof.
  intros (t & -> & Ht) [? ? ? ? ? Hidle Hlim]. constructor; simpl; try done.
  - intros Ha. destruct Ht as [->|[]]; [auto|done].
  - intros m Hi ->. destruct Ht as [Ht|[]]; [by eapply (Hlim m)|done].
Qed.

Section room_lemmas.
Context {S : Type} `{WebSocket S}.
Implicit Types (s : rs (S := S)).

(** Steps that only send and disconnect. *)
Definition traffic s s' : Prop :=
  ids (rs_heap s') = ids (rs_heap s) ∧ same_room (rs_room s) (rs_room s').

Lemma traffic_refl s : traffic s s.
Proof. split; [done|apply same_room_refl]. Qed.

Lemma traffic_trans s1 s2 s3 : traffic s1 s2 → traffic s2 s3 → traffic s1 s3.
Proof. intros [H1 H2] [H3 H4]. split; [congruence|by eapply same_room_trans]. Qed.

Lemma traffic_emit e s : traffic s (emit e s).
Proof. split; [done|apply same_room_refl]. Qed.

Lemma on_peer_ids ref f s :
  (∀ p, pe_id (f p).1.1 = pe_id p) →
  ids (rs_heap (on_peer ref f s).1) = ids (rs_heap s) ∧
  rs_room (on_peer ref f s).1 = rs_room s.
Proof.
  intros Hf. unfold on_peer. destruct (rs_heap s !! ref) as [p|] eqn:E; [|done].
  specialize (Hf p). destruct (f p) as [[p' out] threw]. simpl in *. split; [|done].
  rewrite fmap_insert, Hf. apply insert_id. by rewrite lookup_fmap, E.
Qed.

Lemma on_peer_traffic ref f s :
  (∀ p, pe_id (f p).1.1 = pe_id p) → traffic s (on_peer ref f s).1.
Proof.
  intros Hf. destruct (on_peer_ids ref f s Hf) as [H1 H2]. split; [done|].
  rewrite H2. apply same_room_refl.
Qed.

Lemma send_id msg (p : Peer S) : pe_id (send msg p).1.1 = pe_id p.
Proof. apply send_same. Qed.

Lemma disconnect_id code reason (p : Peer S) : pe_id (disconnect code reason p).1.1 = pe_id p.
Proof. apply disconnect_same. Qed.

Lemma send_loop_room msg ex ps s :
  ids (rs_heap (send_loop msg ex ps s).1) = ids (rs_heap s) ∧
  rs_room (send_loop msg ex ps s).1 = rs_room s.
Proof.
  revert s. induction ps as [|[id ref] ps IH]; intros s; simpl; [done|].
  case_bool_decide; [apply IH|].
  destruct (on_peer_ids ref (send msg) s (send_id msg)) as [H1 H2].
  destruct (on_peer ref (send msg) s) as [s1 threw]. simpl in *. destruct threw.
  - destruct (IH (emit (EvPeerError id) s1)) as [H3 H4].
    destruct (send_loop msg ex ps (emit _ s1)) as [s2 failed]. simpl in *. split; congruence.
  - destruct (IH s1) as [H3 H4]. split; congruence.
Qed.

Lemma sendToAll_traffic now msg ex s : traffic s (_sendToAll now msg ex s).1.
Proof.
  unfold _sendToAll. destruct (send_loop_room msg ex
    (ro_peers (rs_room (on_room (_resetIdleTimer now) s))) (on_room (_resetIdleTimer now) s))
    as [H1 H2]. split; [done|]. rewrite H2. apply reset_same.
Qed.

Lemma traffic_ok s s' :
  traffic s s' → room_ok (ids (rs_heap s)) (rs_room s) → room_ok (ids (rs_heap s')) (rs_room s').
Proof. intros [-> Hs]. by apply room_ok_same. Qed.

Lemma transition_spec next s :
  rs_heap (transition next s) = rs_heap s ∧ rs_out (transition next s) = rs_out s ∧
  rs_room (transition next s)
  = if bool_decide (next ∈ LEGAL_TRANSITIONS (ro_state (rs_room s)))
    then set_state next (rs_room s) else rs_room s.
Proof.
  unfold transition, _transitionTo. simpl. split; [done|]. split; [done|].
  destruct (decide (ro_state (rs_room s) = next)) as [<-|]; [|by case_bool_decide].
  destruct (ro_state (rs_room s)); done.
Qed.

(** Membership after [removePeer]; the last one out closes the room. *)
Definition removed (peerId : jsstr) (r r' : Room) : Prop :=
  ro_peers r' = mdel peerId (ro_peers r) ∧ ro_meta r' = mdel peerId (ro_meta r) ∧
  ro_maxPeers r' = ro_maxPeers r ∧ ro_keepAlive r' = ro_keepAlive r ∧ ro_subs r' = ro_subs r ∧
  ro_idleMs r' = ro_idleMs r ∧ ro_id r' = ro_id r ∧
  (if bool_decide (mdel peerId (ro_peers r) = []) && negb (ro_keepAlive r)
   then ro_state r' = Closed ∧ ro_idleTimer r' = None ∧ ro_durationTimer r' = None
   else ro_state r' = ro_state r ∧
        (ro_idleTimer r' = ro_idleTimer r ∨ ro_state r = Active ∧ ro_idleMs r ≠ None)).

Lemma count_zero (r : Room) : (getPeerCount r =? 0) = bool_decide (ro_peers r = []).
Proof. unfold getPeerCount, msize. by destruct (ro_peers r). Qed.

Lemma removePeer_spec now peerId ref s :
  getPeer peerId (rs_room s) = Some ref → ro_state (rs_room s) = Active →
  ids (rs_heap (removePeer now peerId s)) = ids (rs_heap s) ∧
  removed peerId (rs_room s) (rs_room (removePeer now peerId s)).
Proof.
  intros Hg Ha. unfold removePeer. rewrite Hg.
  set (s1 := on_room _ s). rewrite count_zero.
  change (ro_peers (rs_room s1)) with (mdel peerId (ro_peers (rs_room s))).
  change (ro_keepAlive (rs_room s1)) with (ro_keepAlive (rs_room s)).
  destruct (bool_decide _ && negb _) eqn:E.
  - split.
    + simpl. done.
    + unfold removed. rewrite E. simpl. unfold transition, _transitionTo. simpl. rewrite Ha. simpl.
      repeat split.
  - set (s2 := (broadcastExcept now peerId (SPeerLeft peerId) s1).1).
    set (s3 := (broadcastExcept now peerId (SPresenceOffline peerId) s2).1).
    assert (Ht : traffic s1 s3).
    { eapply traffic_trans; apply sendToAll_traffic. }
    destruct Ht as [Hi (t & Ht & Hor)]. split; [done|].
    unfold removed. rewrite E. simpl. rewrite Ht. simpl. rewrite Ha.
    repeat split. destruct Hor as [->|[_ ?]]; [by left|by right].
Qed.

Lemma removePeer_ok now peerId s :
  room_ok (ids (rs_heap s)) (rs_room s) →
  room_ok (ids (rs_heap (removePeer now peerId s))) (rs_room (removePeer now peerId s)).
Proof.
  intros Hok. destruct (getPeer peerId (rs_room s)) as [ref|] eqn:Eg.
  2: { unfold removePeer. by rewrite Eg. }
  assert (Ha : ro_state (rs_room s) = Active).
  { destruct (decide (ro_state (rs_room s) = Active)) as [|Hn]; [done|].
    apply (rk_active _ _ Hok) in Hn. unfold getPeer in Eg. by rewrite Hn in Eg. }
  destruct (removePeer_spec now peerId ref s Eg Ha) as [-> Hr].
  destruct Hok as [Hwf Href Hcap Hact Hmeta Hidle Hlim].
  destruct Hr as (Hp & Hm & Hmax & Hk & _ & Hms & _ & Hst).
  set (r' := rs_room (removePeer now peerId s)) in *. clearbody r'. constructor.
  - rewrite Hp. by apply mwf_mdel.
  - intros id q. rewrite Hp, mget_mdel. case_decide; [done|]. apply Href.
  - intros m Hm'. rewrite Hmax in Hm'. specialize (Hcap m Hm'). unfold getPeerCount in *. rewrite Hp.
    pose proof (msize_mdel_le peerId (ro_peers (rs_room s))). lia.
  - intros Hna. rewrite Hp. destruct (bool_decide_reflect (mdel peerId (ro_peers (rs_room s)) = []));
      [done|]. simpl in Hst. destruct Hst as [Hst _]. congruence.
  - intros id. rewrite Hp, Hm, !mget_mdel. case_decide; [done|]. apply Hmeta.
  - intros Hna. destruct (bool_decide _ && _); destruct Hst as [Hst Ht]; [by destruct Ht|]. congruence.
  - intros m Hn Hi. rewrite Hms in Hn. destruct (bool_decide _ && _); destruct Hst as [_ Ht].
    + destruct Ht. congruence.
    + destruct Ht as [Ht|[_ ?]]; [|done]. rewrite Ht in Hi. eauto.
Qed.

Lemma dispose_ok s : room_ok (ids (rs_heap s)) (rs_room s) →
  room_ok (ids (rs_heap (dispose s))) (rs_room (dispose s)) ∧ ro_state (rs_room (dispose s)) = Closed.
Proof.
  intros [Hwf Href Hcap Hact Hmeta Hidle Hlim].
  assert (Hst : ro_state (rs_room (dispose s)) = Closed).
  { unfold dispose, transition, _transitionTo.
    clear. destruct s as [h [? st ? ? ? ? ? ? ? ?] o]. by destruct st. }
  assert (Hr : rs_room (dispose s) = set_peers [] [] (set_state Closed (_clearTimers (rs_room s)))).
  { unfold dispose, transition, _transitionTo. clear. destruct s as [h [? st ? ? ? ? ? ? ? ?] o].
    by destruct st. }
  split; [|done]. rewrite Hr.
  constructor; simpl; try done; [apply mwf_nil|]. intros m _. unfold getPeerCount. simpl. lia.
Qed.

Lemma expire_loop_room refs s :
  ids (rs_heap (expire_loop refs s)) = ids (rs_heap s) ∧ rs_room (expire_loop refs s) = rs_room s.
Proof.
  revert s. induction refs as [|ref refs IH]; intros s; simpl; [done|].
  destruct (on_peer_ids ref (disconnect Normal RoomExpired) s (disconnect_id _ _)) as [H1 H2].
  destruct (IH (emit (EvPeerLeft ref) (on_peer ref (disconnect Normal RoomExpired) s).1)) as [H3 H4].
  simpl in *. split; congruence.
Qed.

Lemma forceClose_ok now s : room_ok (ids (rs_heap s)) (rs_room s) →
  room_ok (ids (rs_heap (_forceClose now s))) (rs_room (_forceClose now s)).
Proof.
  intros Hok. unfold _forceClose. destruct (bool_decide _ || _) eqn:E; [|done].
  set (s1 := on_room _clearTimers (transition Closing s)).
  set (s2 := (broadcast now _ s1).1).
  assert (Ht : traffic s1 s2) by apply sendToAll_traffic.
  destruct Ht as [Hi Hs2].
  set (s3 := expire_loop _ _).
  destruct (expire_loop_room (getPeers (rs_room s2)) (on_room (set_peers [] []) s2)) as [Hi3 Hr3].
  fold s3 in Hi3, Hr3. simpl in Hi3, Hr3.
  assert (Hst1 : ro_state (rs_room s1) = Closing).
  { unfold s1. simpl. unfold _transitionTo.
    apply orb_true_iff in E as [E|E]; apply bool_decide_eq_true in E; by rewrite E. }
  assert (Htm : ro_idleTimer (rs_room s2) = None).
  { destruct Hs2 as (t & -> & [->|[Ha _]]); [done|]. by rewrite Hst1 in Ha. }
  apply same_room_fields in Hs2 as (_ & Hst2 & _).
  assert (Hr : rs_room (emit EvClosed (transition Closed s3))
    = set_state Closed (set_peers [] [] (rs_room s2))).
  { simpl. rewrite Hr3. unfold _transitionTo. simpl. by rewrite Hst2, Hst1. }
  rewrite Hr. constructor; simpl; try done; [apply mwf_nil| |].
  - intros m _. unfold getPeerCount. simpl. lia.
  - intros m _. by rewrite Htm.
Qed.
End room_lemmas.

Section add.
Context {S : Type} `{WebSocketLaws S}.
Implicit Types (s : rs (S := S)).

Definition closing (r : Room) : bool :=
  bool_decide (ro_state r = Closing) || bool_decide (ro_state r = Closed).
Definition full (r : Room) : bool :=
  match ro_maxPeers r with Some m => m <=? getPeerCount r | None => false end.

Lemma on_peer_disconnect ref code reason s :
  (on_peer ref (disconnect code reason) s).2 = false.
Proof.
  unfold on_peer. destruct (rs_heap s !! ref) as [p|]; [|done].
  destruct (disconnect_ok code reason p) as (_ & Hd & _).
  by destruct (disconnect code reason p) as [[p' out] b].
Qed.

(** A newcomer that is turned away, and a member that is replaced. *)
Lemma reject_spec ref reason s :
  let '(s', res) :=
    (let '(s1, threw) := on_peer ref (disconnect PolicyViolation reason) s in
      (s1, if threw : bool then Throw () else Ok false)) in
  ids (rs_heap s') = ids (rs_heap s) ∧ rs_room s' = rs_room s ∧ res = (Ok false : result unit bool).
Proof.
  pose proof (on_peer_disconnect ref PolicyViolation reason s) as Hd.
  destruct (on_peer_ids ref (disconnect PolicyViolation reason) s (disconnect_id _ _)) as [H1 H2].
  destruct (on_peer ref _ s) as [s1 threw]. simpl in *. by rewrite Hd.
Qed.

Lemma replace_spec (existing : option nat) s :
  let q := match existing with
           | Some old =>
               let '(s', threw) := on_peer old (disconnect Normal ReplacedByReconnection) s in
               (if threw : bool then s' else emit (EvPeerLeft old) s', threw)
           | None => (s, false)
           end in
  ids (rs_heap q.1) = ids (rs_heap s) ∧ rs_room q.1 = rs_room s ∧ q.2 = false.
Proof.
  destruct existing as [old|]; [|done].
  pose proof (on_peer_disconnect old Normal ReplacedByReconnection s) as Hd.
  destruct (on_peer_ids old (disconnect Normal ReplacedByReconnection) s (disconnect_id _ _)) as [H1 H2].
  destruct (on_peer old _ s) as [s' threw]. simpl in *. by subst.
Qed.

Lemma addPeer_spec now ref ice s peer :
  rs_heap s !! ref = Some peer →
  let r := rs_room s in
  let id := pe_id peer in
  let '(s', res) := addPeer now ref ice s in
  ids (rs_heap s') = ids (rs_heap s) ∧
  match res with
  | Ok false => rs_room s' = r ∧ (closing r = true ∨ getPeer id r = None ∧ full r = true)
  | Throw _ => closing r = false ∧ (getPeer id r = None → full r = false) ∧
               rs_room s' = set_peers (mdel id (ro_peers r)) (mdel id (ro_meta r)) r
  | Ok true => closing r = false ∧ (getPeer id r = None → full r = false) ∧
      ∃ t, rs_room s' =
        set_timers (ro_durationTimer r) t (set_state Active (set_subs (ro_subs r ++ [ref])
          (set_peers (mset id ref (ro_peers r))
             (if bool_decide (pe_metadata peer = []) then mdel id (ro_meta r)
              else mset id (pe_metadata peer) (ro_meta r)) r))) ∧
        (t = ro_idleTimer r ∨ ro_idleMs r ≠ None)
  end.
Proof.
  intros Hp. unfold addPeer. rewrite Hp. cbv zeta. fold (closing (rs_room s)).
  destruct (closing (rs_room s)) eqn:Ec.
  { pose proof (reject_spec ref RoomClosing s) as Hrej. destruct (on_peer ref _ s) as [s1 threw].
    destruct Hrej as (? & ? & ->). split; [done|]. split; [done|by left]. }
  fold (full (rs_room s)).
  destruct (bool_decide (getPeer (pe_id peer) (rs_room s) = None) && full (rs_room s)) eqn:Ef.
  { pose proof (reject_spec ref RoomFull s) as Hrej. destruct (on_peer ref _ s) as [s1 threw].
    destruct Hrej as (? & ? & ->). split; [done|]. split; [done|].
    apply andb_true_iff in Ef as [Ef1 Ef2]. apply bool_decide_eq_true in Ef1. by right. }
  assert (Hfull : getPeer (pe_id peer) (rs_room s) = None → full (rs_room s) = false).
  { intros Hn. by rewrite bool_decide_true in Ef. }
  pose proof (replace_spec (getPeer (pe_id peer) (rs_room s)) s) as Hq1. cbv zeta in Hq1.
  set (q1 := match getPeer _ _ with Some old => _ | None => _ end) in *.
  clearbody q1. destruct q1 as [s1 threw]. simpl in Hq1. destruct Hq1 as (Hi1 & Hr1 & ->).
  set (s2 := on_room _ s1).
  assert (Hr2 : rs_room s2 = set_peers (mset (pe_id peer) ref (ro_peers (rs_room s)))
     (if bool_decide (pe_metadata peer = []) then mdel (pe_id peer) (ro_meta (rs_room s))
      else mset (pe_id peer) (pe_metadata peer) (ro_meta (rs_room s))) (rs_room s)).
  { simpl. by rewrite Hr1. }
  assert (Hi2 : ids (rs_heap s2) = ids (rs_heap s)) by done.
  clearbody s2.
  destruct (on_peer_ids ref (send (room_joined (rs_heap s2) peer ice (rs_room s2))) s2 (send_id _))
    as [Hi3 Hr3].
  destruct (on_peer ref _ s2) as [s3 threw]. simpl in Hi3, Hr3. destruct threw.
  { split; [simpl; congruence|]. split; [done|]. split; [done|]. simpl. rewrite Hr3, Hr2. simpl.
    unfold set_peers. simpl. f_equal; [apply mdel_mset|].
    case_bool_decide; [apply mdel_mdel|apply mdel_mset]. }
  set (s4 := if bool_decide _ then _ else s3).
  assert (Ht4 : traffic s3 s4).
  { subst s4. destruct (bool_decide (getPeer _ _ = None)); [|apply traffic_refl].
    eapply traffic_trans; apply sendToAll_traffic. }
  clearbody s4. destruct Ht4 as [Hi4 (t & Hr4 & Ht)].
  set (s5 := on_room _ s4).
  split; [simpl; congruence|]. split; [done|]. split; [done|].
  assert (Hr6 : rs_room (transition Active s5) = set_timers (ro_durationTimer (rs_room s)) t
     (set_state Active (set_subs (ro_subs (rs_room s) ++ [ref])
          (set_peers (mset (pe_id peer) ref (ro_peers (rs_room s)))
             (if bool_decide (pe_metadata peer = []) then mdel (pe_id peer) (ro_meta (rs_room s))
              else mset (pe_id peer) (pe_metadata peer) (ro_meta (rs_room s))) (rs_room s))))).
  { subst s5. simpl. rewrite Hr4, Hr3, Hr2. unfold _transitionTo, closing in *. simpl.
    destruct (rs_room s) as [? st ? ? ? ? ? ? ? ?]. by destruct st. }
  assert (Ht' : t = ro_idleTimer (rs_room s) ∨ ro_idleMs (rs_room s) ≠ None).
  { destruct Ht as [->|[_ Ht]]; [left; by rewrite Hr3, Hr2|right]. by rewrite Hr3, Hr2 in Ht. }
  cbn [emit rs_room on_room]. rewrite Hr6. unfold _resetIdleTimer. simpl.
  destruct (ro_idleMs (rs_room s)) as [ms|] eqn:Ems.
  - exists (Some (now + ms)). split; [done|]. by right.
  - exists t. by split.
Qed.

Lemma addPeer_ok now ref ice s peer :
  rs_heap s !! ref = Some peer →
  room_ok (ids (rs_heap s)) (rs_room s) →
  room_ok (ids (rs_heap (addPeer now ref ice s).1)) (rs_room (addPeer now ref ice s).1).
Proof.
  intros Hp Hok. pose proof (addPeer_spec now ref ice s peer Hp) as Hs. cbv zeta in Hs.
  destruct (addPeer now ref ice s) as [s' res]. destruct Hs as [Hi Hs]. simpl. rewrite Hi.
  destruct Hok as [Hwf Href Hcap Hact Hmeta Hidle Hlim]. destruct res as [[]|[]].
  - destruct Hs as (Hc & Hf & t & -> & Ht). constructor; simpl; try done.
    + by apply mwf_mset.
    + intros id q. rewrite mget_mset. case_decide; [|apply Href]. intros [= <-]. subst.
      by rewrite lookup_fmap, Hp.
    + intros m Hm. specialize (Hcap m Hm). unfold getPeerCount in *. simpl.
      rewrite msize_mset. unfold getPeer, full, getPeerCount in Hf. rewrite Hm in Hf.
      destruct (mhas _ _) eqn:Eh; [done|]. apply mhas_false in Eh. specialize (Hf Eh). lia.
    + intros id. rewrite mget_mset. case_decide; [done|]. intros Hn.
      case_bool_decide; [rewrite mget_mdel|rewrite mget_mset]; rewrite decide_False by done; auto.
    + intros m Hn ->. destruct Ht as [Ht|]; [|done]. eauto.
  - by destruct Hs as [-> _].
  - destruct Hs as (Hc & Hf & ->). constructor; simpl; try done.
    + by apply mwf_mdel.
    + intros id q. rewrite mget_mdel. case_decide; [done|apply Href].
    + intros m Hm. specialize (Hcap m Hm). unfold getPeerCount in *. simpl.
      pose proof (msize_mdel_le (pe_id peer) (ro_peers (rs_room s))). lia.
    + intros Hna. by rewrite (Hact Hna).
    + intros id. rewrite !mget_mdel. case_decide; [done|]. apply Hmeta.
Qed.
End add.

(** * Runs of a room *)

Inductive room_op (S : Type) :=
| ONewPeer (p : Peer S)
| OAdd (ref : nat) (ice : option (list IceServer))
| ODisconnected (ref : nat)
| OKick (peerId : jsstr) (reason : option jsstr)
| ORemove (peerId : jsstr) (code : Z) (reason : jsstr)
| ORelay (fromId toId : jsstr) (data : payload)
| OBroadcast (msg : ServerMessage) (exclude : option jsstr)
| OMark
| OSetRole (peerId newRole : jsstr)
| ODispose
| OIdleTimer
| ODurationTimer.
Arguments ONewPeer {S} _.
Arguments OAdd {S} _ _.
Arguments ODisconnected {S} _.
Arguments OKick {S} _ _.
Arguments ORemove {S} _ _ _.
Arguments ORelay {S} _ _ _.
Arguments OBroadcast {S} _ _.
Arguments OMark {S}.
Arguments OSetRole {S} _ _.
Arguments ODispose {S}.
Arguments OIdleTimer {S}.
Arguments ODurationTimer {S}.

Section runs.
Context {S : Type} `{WebSocketLaws S}.
Implicit Types (s : rs (S := S)).

Definition room_step (now : Z) (op : room_op S) s : rs :=
  match op with
  | ONewPeer p => mkRs (<[fresh (dom (rs_heap s)) := p]> (rs_heap s)) (rs_room s) (rs_out s)
  | OAdd ref ice => (addPeer now ref ice s).1
  | ODisconnected ref => peer_disconnected now ref s
  | OKick id reason => (kickPeer now id reason s).1
  | ORemove id code reason => (disconnectAndRemove now id code reason s).1
  | ORelay from to data => (relay now from to data s).1
  | OBroadcast msg ex => (_sendToAll now msg ex s).1
  | OMark => markActivity now s
  | OSetRole id role => (setPeerRole now id role s).1
  | ODispose => dispose s
  | OIdleTimer => fire now ro_idleTimer s
  | ODurationTimer => fire now ro_durationTimer s
  end.

Definition room_run (ops : list (Z * room_op S)) s : rs :=
  fold_left (λ s o, room_step o.1 o.2 s) ops s.

Definition sok s : Prop := room_ok (ids (rs_heap s)) (rs_room s).

Lemma on_peer_ok ref f s :
  (∀ p, pe_id (f p).1.1 = pe_id p) → sok s → sok (on_peer ref f s).1.
Proof. intros Hf. apply traffic_ok, on_peer_traffic, Hf. Qed.

Lemma room_step_ok now op s : sok s → sok (room_step now op s).
Proof.
  intros Hok. destruct op as [p|ref ice|ref|id reason|id code reason|from to data|msg ex| |id role| | |];
    simpl.
  - eapply room_ok_heap; [|exact Hok]. intros ref id. simpl. rewrite !lookup_fmap, lookup_insert.
    case_decide as Hd; [|done]. subst. intros Hr.
    assert (Hn : rs_heap s !! fresh (dom (rs_heap s)) = None) by (apply not_elem_of_dom, is_fresh).
    by rewrite Hn in Hr.
  - destruct (rs_heap s !! ref) as [p|] eqn:Ep; [by eapply addPeer_ok|].
    unfold addPeer. by rewrite Ep.
  - unfold peer_disconnected. case_bool_decide; [|done].
    assert (Hs : sok (on_room (λ r, set_subs (sdel ref (ro_subs r)) r) s)) by (by destruct Hok).
    destruct (rs_heap s !! ref); [|done]. case_bool_decide; [by apply removePeer_ok|done].
  - unfold kickPeer. destruct (getPeer id (rs_room s)) as [ref|]; [|done].
    assert (H1 := on_peer_ok ref (send (SKicked id reason)) s (send_id _) Hok).
    set (s1 := (on_peer ref _ s).1) in *. clearbody s1.
    pose proof (on_peer_ok ref (disconnect PolicyViolation (default KickedReason reason)) s1
      (disconnect_id _ _) H1) as H2.
    destruct (on_peer ref _ s1) as [s2 threw]. simpl in H2. destruct threw; [done|].
    simpl. by apply removePeer_ok.
  - unfold disconnectAndRemove. destruct (getPeer id (rs_room s)) as [ref|]; [|done].
    pose proof (on_peer_ok ref (disconnect code reason) s (disconnect_id _ _) Hok) as H1.
    destruct (on_peer ref _ s) as [s1 threw]. simpl in H1. destruct threw; [done|].
    simpl. by apply removePeer_ok.
  - unfold relay. assert (H1 : sok (on_room (_resetIdleTimer now) s)).
    { revert Hok. apply traffic_ok. split; [done|apply reset_same]. }
    set (s1 := on_room _ s) in *. clearbody s1.
    destruct (getPeer to (rs_room s1)) as [ref|]; [|done].
    pose proof (on_peer_ok ref (send (SSignal from data)) s1 (send_id _) H1) as H2.
    destruct (on_peer ref _ s1) as [s2 threw]. by destruct threw.
  - revert Hok. apply traffic_ok, sendToAll_traffic.
  - revert Hok. apply traffic_ok. split; [done|apply reset_same].
  - unfold setPeerRole. destruct (getPeer id (rs_room s)) as [ref|]; [|done]. simpl.
    pose proof (on_peer_ok ref (λ p, (setRole role p, [], false)) s (λ _, eq_refl) Hok) as H1.
    revert H1. apply traffic_ok, sendToAll_traffic.
  - by apply dispose_ok.
  - unfold fire. destruct (ro_idleTimer _); [|done]. case_decide; [by apply forceClose_ok|done].
  - unfold fire. destruct (ro_durationTimer _); [|done]. case_decide; [by apply forceClose_ok|done].
Qed.

(** ** The life cycle *)

Definition rank (st : RoomState) : Z :=
  match st with Creating => 0 | Active => 1 | Closing => 2 | Closed => 3 end.

(** A room at rest is not closing, and only moves forward. *)
Definition forward (r r' : Room) : Prop :=
  rank (ro_state r) ≤ rank (ro_state r') ∧
  (ro_state r ≠ Closing → ro_state r' ≠ Closing) ∧
  (ro_state r = Closed → ro_peers r' = ro_peers r) ∧
  ro_maxPeers r' = ro_maxPeers r.

Lemma forward_same r r' :
  ro_state r' = ro_state r → (ro_state r = Closed → ro_peers r' = ro_peers r) →
  ro_maxPeers r' = ro_maxPeers r → forward r r'.
Proof. intros Hs Hp Hm. unfold forward. rewrite Hs. split; [lia|done]. Qed.

Lemma forward_traffic s s' : traffic s s' → forward (rs_room s) (rs_room s').
Proof. intros [_ Hs]. apply same_room_fields in Hs as (_ & ? & ? & ? & _). by apply forward_same. Qed.

Lemma forward_trans r1 r2 r3 : forward r1 r2 → forward r2 r3 → forward r1 r3.
Proof.
  intros (H1 & H2 & H3 & H4) (H5 & H6 & H7 & H8). split; [lia|]. split; [auto|].
  split; [|congruence]. intros Hc. rewrite H7, H3; try done.
  destruct (ro_state r2); simpl in *; rewrite Hc in H1; simpl in H1; lia || done.
Qed.

Lemma forward_remove now id s : sok s → forward (rs_room s) (rs_room (removePeer now id s)).
Proof.
  intros Hok. destruct (getPeer id (rs_room s)) as [ref|] eqn:Eg.
  2: { unfold removePeer. rewrite Eg. by apply forward_same. }
  assert (Ha : ro_state (rs_room s) = Active).
  { destruct (decide (ro_state (rs_room s) = Active)) as [|Hn]; [done|].
    apply (rk_active _ _ Hok) in Hn. unfold getPeer in Eg. by rewrite Hn in Eg. }
  destruct (removePeer_spec now id ref s Eg Ha) as [_ (_ & _ & Hm & _ & _ & _ & _ & Hst)].
  unfold forward. rewrite Ha. destruct (bool_decide _ && _); destruct Hst as [-> _];
    rewrite ?Ha; simpl; (split; [lia|done]).
Qed.

Lemma forward_forceClose now s : sok s → forward (rs_room s) (rs_room (_forceClose now s)).
Proof.
  intros Hok. unfold _forceClose. destruct (bool_decide _ || _) eqn:E; [|by apply forward_same].
  set (s1 := on_room _clearTimers (transition Closing s)).
  set (s2 := (broadcast now _ s1).1).
  assert (Ht : traffic s1 s2) by apply sendToAll_traffic.
  destruct Ht as [Hi Hs2]. set (s3 := expire_loop _ _).
  destruct (expire_loop_room (getPeers (rs_room s2)) (on_room (set_peers [] []) s2)) as [Hi3 Hr3].
  fold s3 in Hi3, Hr3. simpl in Hi3, Hr3.
  apply same_room_fields in Hs2 as (_ & Hst2 & _ & Hm2 & _).
  assert (Hst1 : ro_state (rs_room s1) = Closing ∧ ro_state (rs_room s) ≠ Closed ∧
    ro_maxPeers (rs_room s1) = ro_maxPeers (rs_room s)).
  { unfold s1. simpl. unfold _transitionTo.
    apply orb_true_iff in E as [E|E]; apply bool_decide_eq_true in E; by rewrite E. }
  destruct Hst1 as (Hst1 & Hnc & Hm1).
  assert (Hr : rs_room (emit EvClosed (transition Closed s3))
    = set_state Closed (set_peers [] [] (rs_room s2))).
  { simpl. rewrite Hr3. unfold _transitionTo. simpl. by rewrite Hst2, Hst1. }
  rewrite Hr. unfold forward. simpl. split; [destruct (ro_state (rs_room s)); simpl; lia|].
  split; [done|]. split; [done|]. congruence.
Qed.

Lemma forward_kick now id reason s : sok s → forward (rs_room s) (rs_room (kickPeer now id reason s).1).
Proof.
  intros Hok. unfold kickPeer. destruct (getPeer id (rs_room s)) as [ref|]; [|by apply forward_same].
  pose proof (on_peer_traffic ref (send (SKicked id reason)) s (send_id _)) as T1.
  set (s1 := (on_peer ref _ s).1) in *. clearbody s1.
  pose proof (on_peer_traffic ref (disconnect PolicyViolation (default KickedReason reason)) s1
    (disconnect_id _ _)) as T2.
  destruct (on_peer ref _ s1) as [s2 threw]. simpl in T2.
  pose proof (traffic_trans _ _ _ T1 T2) as T. destruct threw; simpl; [by apply forward_traffic|].
  eapply forward_trans; [by apply forward_traffic|]. apply forward_remove. revert Hok. by apply traffic_ok.
Qed.

Lemma forward_disconnect now id code reason s :
  sok s → forward (rs_room s) (rs_room (disconnectAndRemove now id code reason s).1).
Proof.
  intros Hok. unfold disconnectAndRemove. destruct (getPeer id (rs_room s)) as [ref|]; [|by apply forward_same].
  pose proof (on_peer_traffic ref (disconnect code reason) s (disconnect_id _ _)) as T.
  destruct (on_peer ref _ s) as [s1 threw]. simpl in T. destruct threw; simpl; [by apply forward_traffic|].
  eapply forward_trans; [by apply forward_traffic|]. apply forward_remove. revert Hok. by apply traffic_ok.
Qed.

Lemma relay_traffic now from to data s : traffic s (relay now from to data s).1.
Proof.
  unfold relay. assert (T1 : traffic s (on_room (_resetIdleTimer now) s)) by (split; [done|apply reset_same]).
  set (s1 := on_room _ s) in *. clearbody s1.
  destruct (getPeer to (rs_room s1)) as [ref|]; [|done].
  pose proof (on_peer_traffic ref (send (SSignal from data)) s1 (send_id _)) as T2.
  destruct (on_peer ref _ s1) as [s2 threw]. pose proof (traffic_trans _ _ _ T1 T2). by destruct threw.
Qed.

Lemma room_step_forward now op s : sok s → forward (rs_room s) (rs_room (room_step now op s)).
Proof.
  intros Hok. destruct op as [p|ref ice|ref|id reason|id code reason|from to data|msg ex| |id role| | |];
    cbn [room_step].
  - by apply forward_same.
  - destruct (rs_heap s !! ref) as [p|] eqn:Ep.
    2: { unfold addPeer. rewrite Ep. by apply forward_same. }
    pose proof (addPeer_spec now ref ice s p Ep) as Hs. cbv zeta in Hs.
    destruct (addPeer now ref ice s) as [s' res]. simpl. destruct Hs as [_ Hs]. destruct res as [[]|[]].
    + destruct Hs as (Hc & _ & t & -> & _). unfold closing in Hc. unfold forward. simpl.
      destruct (ro_state (rs_room s)); simpl in *; split; try lia; done.
    + destruct Hs as [-> _]. by apply forward_same.
    + destruct Hs as (Hc & _ & ->). apply forward_same; [done| |done]. unfold closing in Hc.
      intros E. by rewrite E in Hc.
  - unfold peer_disconnected. case_bool_decide; [|by apply forward_same].
    assert (Hs : sok (on_room (λ r, set_subs (sdel ref (ro_subs r)) r) s)) by (by destruct Hok).
    destruct (rs_heap s !! ref) as [p|]; [|by apply forward_same].
    case_bool_decide; [|by apply forward_same].
    exact (forward_remove now (pe_id p) _ Hs).
  - by apply forward_kick.
  - by apply forward_disconnect.
  - apply forward_traffic, relay_traffic.
  - apply forward_traffic, sendToAll_traffic.
  - apply forward_traffic. split; [done|apply reset_same].
  - unfold setPeerRole. destruct (getPeer id (rs_room s)) as [ref|]; [|by apply forward_same]. simpl.
    apply forward_traffic. eapply traffic_trans; [|apply sendToAll_traffic].
    by apply on_peer_traffic.
  - destruct (dispose_ok s Hok) as [Hok' Hst]. unfold forward. rewrite Hst.
    split; [by destruct (ro_state (rs_room s))|]. split; [done|]. split; [|].
    + intros E. rewrite (rk_active _ _ Hok) by (by rewrite E). apply (rk_active _ _ Hok'). by rewrite Hst.
    + unfold dispose, transition, _transitionTo. simpl.
      by repeat case_match.
  - unfold fire. destruct (ro_idleTimer _); [|by apply forward_same].
    case_decide; [by apply forward_forceClose|by apply forward_same].
  - unfold fire. destruct (ro_durationTimer _); [|by apply forward_same].
    case_decide; [by apply forward_forceClose|by apply forward_same].
Qed.

Lemma room_run_ok ops s :
  sok s → sok (room_run ops s) ∧ forward (rs_room s) (rs_room (room_run ops s)).
Proof.
  revert s. induction ops as [|o ops IH]; intros s Hok; [split; [done|by apply forward_same]|].
  simpl. destruct (IH _ (room_step_ok o.1 o.2 s Hok)) as [H1 H2]. split; [done|].
  eapply forward_trans; [by apply room_step_forward|done].
Qed.

(** C36: The room invariant and life cycle.  Whatever operations, socket events and
    timers a room goes through, it has at most [maxPeers] members, each filed
    once under its own id, with metadata only for members; a room that is not
    active has no members and no idle timer; the state only moves forward along
    creating, active, closed, is never left at closing, and a closed room
    stays closed and empty. *)
Theorem room_invariant now id opts ops1 ops2 (heap : gmap nat (Peer S)) :
  let s1 := room_run ops1 (mkRs heap (newRoom now id opts) []) in
  let s2 := room_run ops2 s1 in
  room_ok (ids (rs_heap s1)) (rs_room s1) ∧
  (∀ m, o_maxPeers opts = Some m → getPeerCount (rs_room s1) ≤ Z.max 0 m) ∧
  rank (ro_state (rs_room s1)) ≤ rank (ro_state (rs_room s2)) ∧
  ro_state (rs_room s1) ≠ Closing ∧
  (ro_state (rs_room s1) = Closed → ro_state (rs_room s2) = Closed ∧ ro_peers (rs_room s2) = []).
Proof.
  set (s0 := mkRs heap (newRoom now id opts) []).
  destruct (room_run_ok ops1 s0 (room_ok_new _ _ _ _)) as [Hok1 (_ & Hnc & _ & Hm)].
  simpl. set (s1 := room_run ops1 s0) in *. clearbody s1.
  destruct (room_run_ok ops2 s1 Hok1) as [Hok2 (Hr & _ & Hcl & _)].
  set (s2 := room_run ops2 s1) in *. clearbody s2.
  split; [done|]. split; [|split; [done|split; [by apply Hnc|]]].
  - intros m Hmm. apply (rk_cap _ _ Hok1). by rewrite Hm.
  - intros Hc. assert (Hc2 : ro_state (rs_room s2) = Closed).
    { rewrite Hc in Hr. by destruct (ro_state (rs_room s2)). }
    split; [done|]. apply (rk_active _ _ Hok2). by rewrite Hc2.
Qed.
End runs.

(** * Delivery *)

(** What a peer did, out of a trace. *)
Definition outs_of (ref : nat) (out : list room_out) : list peer_out :=
  omap (λ o, match o with PeerOut r x => if decide (r = ref) then Some x else None | _ => None end) out.

Lemma outs_of_app ref o1 o2 : outs_of ref (o1 ++ o2) = outs_of ref o1 ++ outs_of ref o2.
Proof. apply omap_app. Qed.

Lemma outs_of_peer ref l : outs_of ref (PeerOut ref <$> l) = l.
Proof.
  unfold outs_of. induction l as [|x l IH]; [done|]. simpl. rewrite decide_True by done.
  by f_equal.
Qed.

Lemma outs_of_other ref ref' l : ref ≠ ref' → outs_of ref (PeerOut ref' <$> l) = [].
Proof.
  unfold outs_of. intros Hne. induction l as [|x l IH]; [done|]. simpl.
  by rewrite decide_False by congruence.
Qed.

Section delivery.
Context {S : Type} `{WebSocketLaws S}.
Implicit Types (s : rs (S := S)).

Lemma on_peer_spec ref f s p :
  rs_heap s !! ref = Some p →
  on_peer ref f s =
    (mkRs (<[ref := (f p).1.1]> (rs_heap s)) (rs_room s) (rs_out s ++ (PeerOut ref <$> (f p).1.2)),
     (f p).2).
Proof. intros Hp. unfold on_peer. rewrite Hp. by destruct (f p) as [[p' out] b]. Qed.

(** One member of a broadcast: its peer, and what the room makes of a failure. *)
Lemma send_one_spec msg i q p0 s :
  rs_heap s !! q = Some p0 →
  let s1 := mkRs (<[q := (send msg p0).1.1]> (rs_heap s)) (rs_room s) (rs_out s ++ (PeerOut q <$> (send msg p0).1.2)) in
  let s1' := if (send msg p0).2 then emit (EvPeerError i) s1 else s1 in
  (∀ ref, rs_heap s1' !! ref = if decide (q = ref) then Some (send msg p0).1.1 else rs_heap s !! ref)
  ∧ (∃ evs, rs_out s1' = rs_out s ++ (PeerOut q <$> (send msg p0).1.2) ++ evs ∧ ∀ ref, outs_of ref evs = [])
  ∧ ∀ ex ps, (let '(s1, threw) := (s1, (send msg p0).2) in
      if threw : bool then let '(s2, failed) := send_loop msg ex ps (emit (EvPeerError i) s1) in (s2, i :: failed)
      else send_loop msg ex ps s1)
     = let '(s2, failed) := send_loop msg ex ps s1' in (s2, if (send msg p0).2 then i :: failed else failed).
Proof.
  intros Hp0 s1 s1'. subst s1'. split; [|split].
  - intros ref. destruct (send msg p0).2; simpl; apply lookup_insert.
  - destruct (send msg p0).2; simpl; [exists [EvPeerError i]; by rewrite <- app_assoc|exists []; by rewrite app_nil_r].
  - intros ex ps. destruct (send msg p0).2; [done|]. by destruct (send_loop msg ex ps s1).
Qed.

Lemma send_loop_spec msg ex ps s :
  NoDup ps.*1 → NoDup ps.*2 → (∀ ref, ref ∈ ps.*2 → is_Some (rs_heap s !! ref)) →
  let '(s', failed) := send_loop msg ex ps s in
  ∃ new, rs_out s' = rs_out s ++ new ∧
  (∀ ref, (∀ id, (id, ref) ∈ ps → ex = Some id) →
     outs_of ref new = [] ∧ rs_heap s' !! ref = rs_heap s !! ref) ∧
  (∀ id ref p, (id, ref) ∈ ps → ex ≠ Some id → rs_heap s !! ref = Some p →
     outs_of ref new = (send msg p).1.2 ∧ (id ∈ failed ↔ (send msg p).2 = true)) ∧
  failed `sublist_of` ps.*1.
Proof.
  revert s. induction ps as [|[i q] ps IH]; intros s; cbn [fmap list_fmap fst snd send_loop].
  { intros _ _ _. exists []. split; [by rewrite app_nil_r|]. split; [done|].
    split; [|done]. by intros id ref p ?%not_elem_of_nil. }
  intros [Hi Hnd1]%NoDup_cons [Hq Hnd2]%NoDup_cons Hheap.
  assert (Hrest : ∀ id, (id, q) ∈ ps → False).
  { intros id Hin. apply Hq, list_elem_of_fmap. by exists (id, q). }
  case_bool_decide as Hex.
  - specialize (IH s Hnd1 Hnd2 (λ ref Hr, Hheap ref (proj2 (elem_of_cons _ _ _) (or_intror Hr)))).
    destruct (send_loop msg ex ps s) as [s' failed].
    destruct IH as (new & Ho & Hskip & Hsend & Hsub). exists new. split; [done|]. split; [|split].
    + intros ref Hr. apply Hskip. intros id Hin. apply Hr. by right.
    + intros id ref p Hin Hne Hp. apply elem_of_cons in Hin as [|Hin]; [congruence|]. eauto.
    + by apply sublist_cons.
  - destruct (Hheap q (proj2 (elem_of_cons _ _ _) (or_introl eq_refl))) as [p0 Hp0].
    rewrite (on_peer_spec q (send msg) s p0 Hp0).
    destruct (send_one_spec msg i q p0 s Hp0) as (Hlook & (evs & Hout1 & Hevs) & Heq). cbv zeta in Hlook, Hout1, Heq.
    set (s1 := mkRs _ _ _) in *. set (s1' := if (send msg p0).2 then emit (EvPeerError i) s1 else s1) in *.
    assert (Hheap1 : ∀ ref, ref ∈ ps.*2 → is_Some (rs_heap s1' !! ref)).
    { intros ref Hr. rewrite Hlook. case_decide; [eauto|]. apply Hheap. by right. }
    specialize (IH s1' Hnd1 Hnd2 Hheap1).
    rewrite Heq. destruct (send_loop msg ex ps s1') as [s' failed].
    destruct IH as (new & Ho & Hskip & Hsend & Hsub).
    exists ((PeerOut q <$> (send msg p0).1.2) ++ evs ++ new).
    split; [by rewrite Ho, Hout1, <- !app_assoc|]. split; [|split].
    + intros ref Hr. assert (Hne : q ≠ ref).
      { intros ->. apply Hex. apply (Hr i). left. }
      destruct (Hskip ref) as [H1 H2]; [intros id Hin; apply Hr; by right|].
      rewrite !outs_of_app, outs_of_other, Hevs, H1 by congruence. split; [done|].
      rewrite H2, Hlook. by rewrite decide_False.
    + intros id ref p Hin Hne Hp. apply elem_of_cons in Hin as [Hin|Hin].
      * injection Hin as -> ->. assert (p = p0) as -> by congruence.
        destruct (Hskip q) as [H1 _]; [intros id' Hin'; by apply Hrest in Hin'|].
        rewrite !outs_of_app, outs_of_peer, Hevs, H1, !app_nil_r. split; [done|].
        destruct (send msg p0).2; [split; [done|intros _; left]|]. split; [|done].
        intros Hf. exfalso. apply Hi. by eapply elem_of_sublist.
      * assert (Hqr : q ≠ ref) by (intros ->; by apply Hrest in Hin).
        destruct (Hsend id ref p Hin Hne) as [H1 H2]; [by rewrite Hlook, decide_False|].
        rewrite !outs_of_app, outs_of_other, Hevs, H1 by congruence. split; [done|]. rewrite <- H2.
        destruct (send msg p0).2; [|done]. rewrite elem_of_cons. split; [|by right].
        intros [->|]; [|done]. exfalso. apply Hi, list_elem_of_fmap. by exists (i, ref).
    + destruct (send msg p0).2; [by apply sublist_skip|by apply sublist_cons].
Qed.

Lemma refs_nodup peer_ids r : room_ok peer_ids r → NoDup (ro_peers r).*2.
Proof.
  intros Hok. pose proof (rk_wf _ _ Hok) as Hwf. pose proof (rk_ref _ _ Hok) as Href.
  revert Hwf Href. generalize (ro_peers r). intros m. unfold mwf.
  induction m as [|[i q] m IH]; cbn [fmap list_fmap fst snd]; [constructor|].
  intros [Hi Hnd]%NoDup_cons Href.
  assert (Hin : ∀ id ref, (id, ref) ∈ m → peer_ids !! ref = Some id ∧ id ≠ i).
  { intros id ref Hm. assert (Hne : id ≠ i).
    { intros ->. apply Hi, list_elem_of_fmap. by exists (i, ref). }
    split; [|done]. apply Href. simpl. rewrite decide_False by done. by apply elem_mget. }
  constructor; [|apply IH; [done|]].
  - intros Hq. apply list_elem_of_fmap in Hq as ([id ref] & Heq & Hm). simpl in Heq. subst.
    destruct (Hin _ _ Hm) as [H1 H2]. apply H2.
    assert (H3 : peer_ids !! ref = Some i) by (apply Href; simpl; by rewrite decide_True). congruence.
  - intros id ref Hm. by apply Hin, mget_elem.
Qed.

(** Fan-out.  In a well-formed room, a broadcast reaches every member but the
    excluded one: each is handed the message exactly as [send] does it, once;
    nobody else sees anything; and the ids returned are those, in joining
    order, whose [send] threw. *)
Theorem broadcast_delivers now msg exclude s (Hok : room_ok (ids (rs_heap s)) (rs_room s)) :
  let '(s', failed) := _sendToAll now msg exclude s in
  ∃ new, rs_out s' = rs_out s ++ new ∧
  (∀ id ref p, getPeer id (rs_room s) = Some ref → exclude ≠ Some id → rs_heap s !! ref = Some p →
     outs_of ref new = (send msg p).1.2 ∧ (id ∈ failed ↔ (send msg p).2 = true)) ∧
  (∀ ref, (∀ id, getPeer id (rs_room s) = Some ref → exclude = Some id) → outs_of ref new = []) ∧
  failed `sublist_of` getPeerIds (rs_room s) ∧
  getPeerIds (rs_room s') = getPeerIds (rs_room s).
Proof.
  unfold _sendToAll. set (s1 := on_room (_resetIdleTimer now) s).
  assert (Hp1 : ro_peers (rs_room s1) = ro_peers (rs_room s)).
  { by apply (same_room_fields _ _ (reset_same now (rs_room s))). }
  pose proof (send_loop_spec msg exclude (ro_peers (rs_room s1)) s1) as Hspec.
  pose proof (send_loop_room msg exclude (ro_peers (rs_room s1)) s1) as [_ Hroom].
  rewrite Hp1 in *. pose proof (rk_wf _ _ Hok) as Hwf.
  specialize (Hspec Hwf (refs_nodup _ _ Hok)). destruct (send_loop _ _ _ _) as [s' failed].
  assert (Hheap : ∀ ref, ref ∈ (ro_peers (rs_room s)).*2 → is_Some (rs_heap s1 !! ref)).
  { intros ref Hr. apply list_elem_of_fmap in Hr as ([id q] & -> & Hin).
    apply elem_mget in Hin; [|done]. apply (rk_ref _ _ Hok) in Hin. rewrite lookup_fmap in Hin.
    apply fmap_Some_1 in Hin as (p & Hp & _). exists p. exact Hp. }
  destruct (Hspec Hheap) as (new & Ho & Hskip & Hsend & Hsub).
  exists new. split; [done|]. split; [|split; [|split; [done|]]].
  - intros id ref p Hg Hne Hp. apply (Hsend id ref p); [by apply mget_elem|done|done].
  - intros ref Hr. apply Hskip. intros id Hin. apply Hr. by apply elem_mget.
  - cbn [fst] in Hroom. unfold getPeerIds. by rewrite Hroom, Hp1.
Qed.
End delivery.

(** * Joining and leaving *)

Section membership.
Context {S : Type} `{WebSocketLaws S}.
Implicit Types (s : rs (S := S)).

(** Peers that are not members are not touched by a broadcast. *)
Lemma sendToAll_frame now msg ex s ref :
  sok s → (∀ id, getPeer id (rs_room s) ≠ Some ref) →
  rs_heap (_sendToAll now msg ex s).1 !! ref = rs_heap s !! ref.
Proof.
  intros Hok Hno. unfold _sendToAll. set (s1 := on_room (_resetIdleTimer now) s).
  assert (Hp1 : ro_peers (rs_room s1) = ro_peers (rs_room s)).
  { by apply (same_room_fields _ _ (reset_same now (rs_room s))). }
  rewrite Hp1.
  assert (Hin : ref ∉ (ro_peers (rs_room s)).*2).
  { intros Hr. apply list_elem_of_fmap in Hr as ([id q] & -> & Hin).
    apply (Hno id). by apply elem_mget; [apply (rk_wf _ _ Hok)|]. }
  change (rs_heap s) with (rs_heap s1). clearbody s1. clear -Hin.
  revert s1. induction (ro_peers (rs_room s)) as [|[i q] ps IH]; intros s1; simpl; [done|].
  cbn [fmap list_fmap snd] in Hin. case_bool_decide; [apply IH; set_solver|].
  assert (Hq : rs_heap (on_peer q (send msg) s1).1 !! ref = rs_heap s1 !! ref).
  { unfold on_peer. destruct (rs_heap s1 !! q) as [p|]; [|done].
    destruct (send msg p) as [[p' out] b]. simpl. apply lookup_insert_ne. set_solver. }
  destruct (on_peer q (send msg) s1) as [s2 threw]. simpl in Hq. destruct threw.
  - specialize (IH ltac:(set_solver) (emit (EvPeerError i) s2)).
    destruct (send_loop msg ex ps (emit _ s2)) as [s3 failed]. simpl in *. congruence.
  - rewrite IH by set_solver. done.
Qed.

(** The peer [id] behind [ref] was removed: it is no member and its socket is not
    open; the others stay, in order; and when its socket's close event comes,
    nothing happens any more. *)
Definition gone (id : jsstr) (ref : nat) s s' : Prop :=
  getPeerIds (rs_room s') = filter (λ i, id ≠ i) (getPeerIds (rs_room s)) ∧
  (∃ p, rs_heap s' !! ref = Some p ∧ ws_open (pe_ws p) = false ∧
        getPeer (pe_id p) (rs_room s') ≠ Some ref) ∧
  ∀ later, rs_out (peer_disconnected later ref s') = rs_out s' ∧
           ro_peers (rs_room (peer_disconnected later ref s')) = ro_peers (rs_room s').

(** The guard of the room's listener. *)
Lemma stale_close later ref s p :
  rs_heap s !! ref = Some p → getPeer (pe_id p) (rs_room s) ≠ Some ref →
  rs_out (peer_disconnected later ref s) = rs_out s ∧
  ro_peers (rs_room (peer_disconnected later ref s)) = ro_peers (rs_room s).
Proof.
  intros Hp Hne. unfold peer_disconnected. case_bool_decide; [|done]. rewrite Hp.
  by rewrite bool_decide_false.
Qed.

Lemma member_heap s id ref : sok s → getPeer id (rs_room s) = Some ref →
  ∃ p, rs_heap s !! ref = Some p ∧ pe_id p = id.
Proof.
  intros Hok Hg. apply (rk_ref _ _ Hok) in Hg. rewrite lookup_fmap in Hg.
  apply fmap_Some_1 in Hg as (p & Hp & ->). by exists p.
Qed.

Lemma member_inj s id id' ref :
  sok s → getPeer id (rs_room s) = Some ref → getPeer id' (rs_room s) = Some ref → id = id'.
Proof. intros Hok H1%(rk_ref _ _ Hok) H2%(rk_ref _ _ Hok). congruence. Qed.

Lemma member_active s id ref :
  sok s → getPeer id (rs_room s) = Some ref → ro_state (rs_room s) = Active.
Proof.
  intros Hok Hg. destruct (decide (ro_state (rs_room s) = Active)) as [|Hn]; [done|].
  apply (rk_active _ _ Hok) in Hn. unfold getPeer in Hg. by rewrite Hn in Hg.
Qed.

Lemma removePeer_frame now id ref s :
  sok s → getPeer id (rs_room s) = Some ref →
  rs_heap (removePeer now id s) !! ref = rs_heap s !! ref.
Proof.
  intros Hok Hg. unfold removePeer. rewrite Hg. set (s1 := on_room _ s).
  assert (Hno : ∀ i, getPeer i (rs_room s1) ≠ Some ref).
  { intros i. unfold getPeer. simpl. rewrite mget_mdel. case_decide; [done|].
    intros Hi. by apply (member_inj s i id ref) in Hi. }
  destruct (_ && _); [done|]. simpl.
  assert (Hok1 : sok s1).
  { destruct Hok as [? Href Hcap ? Hmeta ? ?]. constructor; simpl; try done.
    - by apply mwf_mdel.
    - intros i q. rewrite mget_mdel. case_decide; [done|apply Href].
    - intros m Hm. specialize (Hcap m Hm). unfold getPeerCount in *. simpl.
      pose proof (msize_mdel_le id (ro_peers (rs_room s))). lia.
    - intros Hna. rewrite rk_active0 by done. done.
    - intros i. rewrite !mget_mdel. case_decide; [done|apply Hmeta]. }
  set (s2 := (broadcastExcept now id (SPeerLeft id) s1).1).
  assert (Ht : traffic s1 s2) by apply sendToAll_traffic.
  assert (H2 : rs_heap s2 !! ref = rs_heap s1 !! ref) by (by apply sendToAll_frame).
  unfold broadcastExcept at 1. rewrite sendToAll_frame; [done| |].
  - revert Hok1. by apply traffic_ok.
  - intros i. destruct Ht as [_ Hs]. apply same_room_fields in Hs as (_ & _ & Hp & _).
    unfold getPeer. rewrite Hp. apply Hno.
Qed.

Lemma removed_gone now id ref s s1 code reason :
  sok s → getPeer id (rs_room s) = Some ref → traffic s s1 →
  let '(s2, threw) := on_peer ref (disconnect code reason) s1 in
  threw = false ∧ gone id ref s (removePeer now id s2).
Proof.
  intros Hok Hg Ht. assert (Hok1 : sok s1) by (revert Hok; by apply traffic_ok).
  destruct Ht as [Hids Hs]. apply same_room_fields in Hs as (_ & _ & Hp & _).
  assert (Hg1 : getPeer id (rs_room s1) = Some ref) by (unfold getPeer; by rewrite Hp).
  destruct (member_heap s1 id ref Hok1 Hg1) as (p & Hpr & Hpid).
  rewrite (on_peer_spec ref _ s1 p Hpr). destruct (disconnect_ok code reason p) as (Hop & Hth & _).
  rewrite Hth. split; [done|]. set (s2 := mkRs _ _ _).
  assert (Hok2 : sok s2).
  { assert (Heq : s2 = (on_peer ref (disconnect code reason) s1).1) by (by rewrite (on_peer_spec ref _ s1 p Hpr)).
    rewrite Heq. apply on_peer_ok; [|done]. intros q. apply disconnect_id. }
  assert (Hg2 : getPeer id (rs_room s2) = Some ref) by done.
  destruct (removePeer_spec now id ref s2 Hg2 (member_active s2 id ref Hok2 Hg2)) as [Hi3 Hrem].
  destruct Hrem as (Hp3 & _).
  assert (Hh3 : rs_heap (removePeer now id s2) !! ref = Some (disconnect code reason p).1.1).
  { rewrite (removePeer_frame now id ref s2 Hok2 Hg2). simpl. apply lookup_insert_eq. }
  assert (Hne : getPeer id (rs_room (removePeer now id s2)) ≠ Some ref).
  { unfold getPeer. rewrite Hp3, mget_mdel, decide_True by done. done. }
  assert (Hpid' : pe_id (disconnect code reason p).1.1 = id) by (by rewrite disconnect_id).
  split; [|split].
  - unfold getPeerIds. rewrite Hp3. simpl. rewrite mkeys_mdel. by rewrite Hp.
  - eexists. split; [exact Hh3|]. by rewrite Hpid'.
  - intros later. eapply stale_close; [exact Hh3|]. by rewrite Hpid'.
Qed.

(** Removal is immediate and final.  Kicking a member, or disconnecting it for
    a missed heartbeat, always succeeds: on return it is not a member any more,
    its socket is not open, every other member is still there, and the close event
    that its socket delivers later changes nothing and tells nobody. *)
Theorem removal_is_final now id ref kickReason code reason s
  (Hok : room_ok (ids (rs_heap s)) (rs_room s)) (Hmember : getPeer id (rs_room s) = Some ref) :
  ((kickPeer now id kickReason s).2 = Ok true ∧ gone id ref s (kickPeer now id kickReason s).1) ∧
  ((disconnectAndRemove now id code reason s).2 = Ok true ∧
   gone id ref s (disconnectAndRemove now id code reason s).1).
Proof.
  split.
  - unfold kickPeer. rewrite Hmember.
    pose proof (on_peer_traffic ref (send (SKicked id kickReason)) s (send_id _)) as Ht.
    pose proof (removed_gone now id ref s _ PolicyViolation (default KickedReason kickReason)
      Hok Hmember Ht) as Hr.
    destruct (on_peer ref (disconnect _ _) _) as [s2 threw]. destruct Hr as [-> Hgone].
    split; [done|]. destruct Hgone as (H1 & H2 & H3). split; [done|]. split; [done|].
    intros later. destruct H2 as (q & Hq & _ & Hne). by apply (stale_close later ref _ q).
  - unfold disconnectAndRemove. rewrite Hmember.
    pose proof (removed_gone now id ref s s code reason Hok Hmember (traffic_refl s)) as Hr.
    destruct (on_peer ref (disconnect _ _) _) as [s2 threw]. by destruct Hr as [-> Hgone].
Qed.

(** The outcomes of [addPeer].  It is refused exactly when the room is closing
    or closed, or full and the id is new; then the room is as before.
    Otherwise the peer takes its id's place (the place of the connection it
    replaces, or the last one), and the room is active; or, when its first message
    could not be sent, the call throws and nobody is left under that id.  In no
    case do the other members move, and the metadata stored is the peer's. *)
Theorem join_outcomes now ref ice s peer
  (Hok : room_ok (ids (rs_heap s)) (rs_room s)) (Hpeer : rs_heap s !! ref = Some peer) :
  let r := rs_room s in
  let id := pe_id peer in
  let r' := rs_room (addPeer now ref ice s).1 in
  let refused := closing r || (bool_decide (getPeer id r = None) && full r) in
  (∀ i, i ≠ id → getPeer i r' = getPeer i r ∧ getPeerMetadata i r' = getPeerMetadata i r) ∧
  match (addPeer now ref ice s).2 with
  | Ok false => refused = true ∧ r' = r
  | Ok true => refused = false ∧ getPeer id r' = Some ref ∧ ro_state r' = Active ∧
      getPeerIds r' = (if bool_decide (getPeer id r = None) then getPeerIds r ++ [id] else getPeerIds r) ∧
      getPeerMetadata id r' = (if bool_decide (pe_metadata peer = []) then None else Some (pe_metadata peer))
  | Throw _ => refused = false ∧ getPeer id r' = None ∧ ro_state r' = ro_state r ∧
      getPeerIds r' = filter (λ i, id ≠ i) (getPeerIds r)
  end.
Proof.
  pose proof (addPeer_spec now ref ice s peer Hpeer) as Hs. cbv zeta in *.
  destruct (addPeer now ref ice s) as [s' res]. destruct Hs as [_ Hs]. simpl.
  assert (Href : ∀ b c, closing (rs_room s) = false →
    (getPeer (pe_id peer) (rs_room s) = None → full (rs_room s) = false) →
    b = closing (rs_room s) → c = bool_decide (getPeer (pe_id peer) (rs_room s) = None) && full (rs_room s) →
    b || c = false).
  { clear -Hpeer. intros b c Hc Hf -> ->. rewrite Hc. simpl. case_bool_decide; [by apply Hf|done]. }
  destruct res as [[]|[]].
  - destruct Hs as (Hc & Hf & t & -> & Ht). split.
    + intros i Hi. unfold getPeer, getPeerMetadata. simpl. rewrite mget_mset_ne by done. split; [done|].
      destruct (bool_decide (pe_metadata peer = [])); [by rewrite mget_mdel_ne|by rewrite mget_mset_ne].
    + split; [by eapply Href|]. unfold getPeer, getPeerMetadata, getPeerIds. simpl.
      rewrite mget_mset_eq. split; [done|]. split; [done|]. split.
      * rewrite mkeys_mset.
        destruct (bool_decide_reflect (mget (pe_id peer) (ro_peers (rs_room s)) = None)) as [Hg|Hg].
        -- rewrite decide_False; [done|]. by apply mget_None_keys.
        -- rewrite decide_True; [done|]. apply mget_is_Some_keys.
           destruct (mget _ _); [eauto|done].
      * destruct (bool_decide (pe_metadata peer = [])); [by rewrite mget_mdel_eq|by rewrite mget_mset_eq].
  - destruct Hs as [-> Hr]. split; [done|]. split; [|done].
    destruct Hr as [->|[-> ->]]; [done|]. by rewrite orb_true_r.
  - destruct Hs as (Hc & Hf & ->). split.
    + intros i Hi. unfold getPeer, getPeerMetadata. simpl. by rewrite !mget_mdel_ne.
    + split; [by eapply Href|]. unfold getPeer, getPeerIds. simpl. rewrite mget_mdel_eq, mkeys_mdel. done.
Qed.
End membership.

(** * Concrete rooms *)

Module rooms.
Definition opts : RoomOptions := mkOpts (Some 2) None (Some 1000) None.
Definition dead_socket : TestSocket := mkSocket false 0 false.
Definition peer (id : jsstr) (ws : TestSocket) : Peer TestSocket := newPeer 0 id ws None None None None.
Definition start : rs (S := TestSocket) := mkRs ∅ (newRoom 0 (js "r") opts) [].
(** Peers a and b join; later a second connection of a turns up, already dead. *)
Definition ab : rs := room_run
  [(0, ONewPeer (peer (js "a") good_socket)); (0, OAdd 0 None);
   (1, ONewPeer (peer (js "b") good_socket)); (1, OAdd 1 None);
   (2, ONewPeer (peer (js "a") dead_socket))] start.
End rooms.
Import rooms.

Lemma ab_ok : sok ab.
Proof. apply room_run_ok, room_ok_new. Qed.

Lemma room_invariant_witness :
  getPeerCount (rs_room ab) = 2 ∧ getPeerCount (rs_room ab) ≤ Z.max 0 2.
Proof.
  split; [by vm_compute|].
  destruct (room_invariant 0 (js "r") opts
    [(0, ONewPeer (peer (js "a") good_socket)); (0, OAdd 0 None);
     (1, ONewPeer (peer (js "b") good_socket)); (1, OAdd 1 None);
     (2, ONewPeer (peer (js "a") dead_socket))] [] ∅) as (_ & Hc & _).
  exact (Hc 2 eq_refl).
Defined.

Lemma broadcast_delivers_witness :
  ∃ new, rs_out (_sendToAll 5 SPing (Some (js "a")) ab).1 = rs_out ab ++ new ∧
    outs_of 1 new = [Sent SPing] ∧ outs_of 0 new = [].
Proof.
  pose proof (broadcast_delivers 5 SPing (Some (js "a")) ab ab_ok) as Hb.
  destruct (_sendToAll 5 SPing (Some (js "a")) ab) as [s' failed].
  destruct Hb as (new & Ho & Hm & Hx & _). exists new. split; [exact Ho|]. split.
  - destruct (Hm (js "b") 1%nat (peer (js "b") good_socket)) as [H1 _];
      [vm_compute; reflexivity|done|vm_compute; reflexivity|]. exact H1.
  - apply Hx. intros id Hid. assert (Ha : getPeer (js "a") (rs_room ab) = Some 0%nat) by (vm_compute; reflexivity).
    by rewrite (member_inj ab id (js "a") 0 ab_ok Hid Ha).
Defined.

Lemma removal_is_final_witness :
  gone (js "a") 0 ab (kickPeer 5 (js "a") None ab).1 ∧
  rs_out (kickPeer 5 (js "a") None ab).1 ≠ [].
Proof.
  split; [|vm_compute; discriminate].
  assert (Hm : getPeer (js "a") (rs_room ab) = Some 0%nat) by (vm_compute; reflexivity).
  exact (proj2 (proj1 (removal_is_final 5 (js "a") 0 None Normal RoomFull ab ab_ok Hm))).
Defined.

Lemma join_outcomes_witness :
  (addPeer 5 2 None ab).2 = Throw () ∧ getPeer (js "a") (rs_room (addPeer 5 2 None ab).1) = None.
Proof.
  assert (Hr : (addPeer 5 2 None ab).2 = Throw ()) by (vm_compute; reflexivity). split; [exact Hr|].
  pose proof (join_outcomes 5 2 None ab (peer (js "a") dead_socket) ab_ok ltac:(vm_compute; reflexivity)) as Hj.
  cbv zeta in Hj. rewrite Hr in Hj. apply Hj.
Defined.

(** A reconnection that fails half-way empties the room without closing it.
    The old connection of [a] is replaced and closed, then the first message
    to the new one fails, so nobody is left under [a]; but the members are
    not told that [a] left, and if [a] was alone the room stays active,
    empty, and never emits [Closed]. *)
Theorem failed_reconnect_leaks :
  let two := (addPeer 5 2 None ab).1 in
  let alone := (addPeer 5 2 None (room_step 3 (ORemove (js "b") Normal RoomFull) ab)).1 in
  getPeerIds (rs_room two) = [js "b"] ∧
  existsb (λ o, match o with PeerOut 1 (Sent (SPeerLeft _)) => true | _ => false end) (rs_out two) = false ∧
  getPeerIds (rs_room alone) = [] ∧ ro_state (rs_room alone) = Active ∧
  existsb (λ o, match o with EvClosed => true | _ => false end) (rs_out alone) = false.
Proof.
  split; [vm_compute; reflexivity|]. split; [vm_compute; reflexivity|].
  split; [vm_compute; reflexivity|]. split; vm_compute; reflexivity.
Qed.
