(* ===== verification/Signaling.v ===== *)
(** The signaling server: authentication, the room registry, the heartbeat and
    the connection handler (packages/signaling/src/Authenticator.ts,
    RoomRegistry.ts, HeartbeatMonitor.ts and SignalingServer.ts).

    The handler of a connection suspends twice, on the authentication callback and
    on the ICE-server hook; anything may happen in between.  The server is
    therefore a state [World] and a step per event: a connection accepted, its
    authentication resolved, its hook resolved, a frame, a socket closed, a timer,
    a heartbeat, an administrator's kick, the shutdown.  A connection is a
    number, and its [Peer] object lives under that number on the heap. *)

From S2P Require Import Prelude JsMap JsNumber Json RateLimiter Peer Room.

(** * Authentication *)

(** What is read of the upgrade request; the URL itself is parsed by the platform. *)
Record request := mkRequest {
  q_token : option jsstr;
  q_roomId : option jsstr;
  q_peerId : option jsstr;
  h_authorization : option jsstr;
}.

Record ResolvedAuth := mkAuth {
  a_roomId : jsstr;
  a_peerId : jsstr;
  a_role : jsstr;
  a_metadata : option (jmap jsstr jsstr);
}.

Inductive AuthResult :=
| AuthOk (auth : ResolvedAuth)
| AuthFail (code : Z) (reason : jsstr).

Definition AuthFailed : jsstr := js "Auth failed".
Definition InvalidAuthPayload : jsstr := js "Invalid auth payload".
Definition MissingRoomOrPeer : jsstr := js "Missing roomId or peerId".

Definition bearer : jsstr := js "Bearer ".

Fixpoint stripPrefix (p s : jsstr) : option jsstr :=
  match p, s with
  | [], _ => Some s
  | a :: p', b :: s' => if decide (a = b) then stripPrefix p' s' else None
  | _ :: _, [] => None
  end.

Definition get_token (req : request) : jsstr :=
  match q_token req with
  | Some (c :: t) => c :: t
  | _ => match h_authorization req with
         | Some h => match stripPrefix bearer h with Some t => trim t | None => [] end
         | None => []
         end
  end.

(** [AuthPayloadSchema.safeParse]. *)
Definition string_field (k : jsstr) (fields : jmap jsstr json) : option jsstr :=
  match mget k fields with Some (JStr s) => Some s | _ => None end.

Fixpoint string_record (fields : jmap jsstr json) : option (jmap jsstr jsstr) :=
  match fields with
  | [] => Some []
  | (k, JStr s) :: fs => match string_record fs with Some r => Some ((k, s) :: r) | None => None end
  | _ => None
  end.

Definition parse_payload (v : json) : option ResolvedAuth :=
  match v with
  | JObj fields =>
      match string_field (js "roomId") fields, string_field (js "peerId") fields,
            string_field (js "role") fields with
      | Some ((_ :: _) as r), Some ((_ :: _) as p), Some role =>
          match mget (js "metadata") fields with
          | None => Some (mkAuth r p role None)
          | Some (JObj md) => match string_record md with
                              | Some m => Some (mkAuth r p role (Some m))
                              | None => None
                              end
          | Some _ => None
          end
      | _, _, _ => None
      end
  | _ => None
  end.

Definition MAX_ID_LENGTH : nat := 256.

(** [auth] is the application's callback, [uuid] the id minted when the server
    assigns ids. *)
Definition resolve (auth : option (jsstr → result unit json)) (uuid : option jsstr) (req : request)
    : AuthResult :=
  let declared :=
    match auth with
    | Some f =>
        match f (get_token req) with
        | Throw _ => AuthFail PolicyViolation AuthFailed
        | Ok raw => match parse_payload raw with
                    | None => AuthFail PolicyViolation InvalidAuthPayload
                    | Some a => AuthOk a
                    end
        end
    | None =>
        match q_roomId req, q_peerId req with
        | Some ((_ :: _) as r), Some ((_ :: _) as p) =>
            if decide (length r ≤ MAX_ID_LENGTH ∧ length p ≤ MAX_ID_LENGTH)%nat
            then AuthOk (mkAuth r p [] None)
            else AuthFail PolicyViolation MissingRoomOrPeer
        | _, _ => AuthFail PolicyViolation MissingRoomOrPeer
        end
    end in
  match declared with
  | AuthOk a => AuthOk (mkAuth (a_roomId a) (default (a_peerId a) uuid) (a_role a) (a_metadata a))
  | f => f
  end.

(** * The server *)

Definition WrongNode : jsstr :=
  js "Room owned by another node " ++ [0x2014] ++ js " reconnect to owner".
Definition InternalError : jsstr := js "Internal error".

Record ServerConfig := mkServer {
  cf_maxConnections : Z;
  cf_maxRooms : Z;
  cf_rateLimit : option Z;
  cf_room : RoomOptions;
  cf_hasIceHook : bool;
  cf_pongTimeout : Z;
  (** [RoomRouter.route(roomId).isLocal]; always true without a cluster *)
  cf_isLocal : jsstr → bool;
}.

(** The constructor's defaults. *)
Definition DEFAULT_MAX_CONNECTIONS : Z := 10000.
Definition DEFAULT_MAX_ROOMS : Z := 10000.
Definition DEFAULT_MAX_MESSAGES_PER_SECOND : Z := 100.
Definition DEFAULT_MAX_PEERS_PER_ROOM : Z := 100.

Definition effectiveRateLimit (rl : option Z) : option Z :=
  match rl with
  | None => Some DEFAULT_MAX_MESSAGES_PER_SECOND
  | Some n => if decide (0 < n) then Some n else None
  end.

Definition newConfig (maxConnections maxRooms rateLimit maxPeersPerRoom maxDuration idle : option Z)
    (hasIceHook : bool) (pongTimeout : option Z) (isLocal : jsstr → bool) : ServerConfig :=
  mkServer (default DEFAULT_MAX_CONNECTIONS maxConnections) (default DEFAULT_MAX_ROOMS maxRooms)
    (effectiveRateLimit rateLimit)
    (mkOpts (Some (default DEFAULT_MAX_PEERS_PER_ROOM maxPeersPerRoom)) maxDuration idle None)
    hasIceHook (default 60000 pongTimeout) isLocal.

Inductive server_out :=
| SvRoom (room : nat) (o : room_out)
| SvRoomCreated (roomId : jsstr)
| SvRoomClosed (roomId : jsstr)
| SvPeerKicked (roomId peerId : jsstr) (reason : option jsstr)
| SvPeerJoined (roomId peerId : jsstr)
| SvClose (conn : nat) (code : Z) (reason : jsstr).

(** A connection whose handler waits for the ICE-server hook. *)
Record Pending := mkPending { pd_roomId : jsstr; pd_isNew : bool }.

Section server.
Context {S : Type} `{WebSocket S} (cfg : ServerConfig).

Record World := mkWorld {
  sv_next : nat;
  sv_connections : Z;
  sv_live : list nat;
  sv_socks : gmap nat S;
  sv_peers : gmap nat (Peer S);
  sv_rooms : gmap nat Room;
  sv_roomOf : gmap nat nat;
  sv_registry : jmap jsstr nat;
  sv_pending : gmap nat Pending;
  sv_out : list server_out;
}.

Definition newWorld : World := mkWorld 0 0 [] ∅ ∅ ∅ ∅ [] ∅ [].

Definition say (e : server_out) (w : World) : World :=
  mkWorld (sv_next w) (sv_connections w) (sv_live w) (sv_socks w) (sv_peers w) (sv_rooms w)
    (sv_roomOf w) (sv_registry w) (sv_pending w) (sv_out w ++ [e]).
Definition set_registry (reg : jmap jsstr nat) (w : World) : World :=
  mkWorld (sv_next w) (sv_connections w) (sv_live w) (sv_socks w) (sv_peers w) (sv_rooms w)
    (sv_roomOf w) reg (sv_pending w) (sv_out w).
Definition set_pending (pd : gmap nat Pending) (w : World) : World :=
  mkWorld (sv_next w) (sv_connections w) (sv_live w) (sv_socks w) (sv_peers w) (sv_rooms w)
    (sv_roomOf w) (sv_registry w) pd (sv_out w).
Definition set_objects (ps : gmap nat (Peer S)) (rooms : gmap nat Room) (w : World) : World :=
  mkWorld (sv_next w) (sv_connections w) (sv_live w) (sv_socks w) ps rooms (sv_roomOf w)
    (sv_registry w) (sv_pending w) (sv_out w).

(** A socket whose authentication has been taken up. *)
Definition drop_sock (c : nat) (w : World) : World :=
  mkWorld (sv_next w) (sv_connections w) (sv_live w) (delete c (sv_socks w)) (sv_peers w) (sv_rooms w)
    (sv_roomOf w) (sv_registry w) (sv_pending w) (sv_out w).

(** The registry's listeners on a room it created, and the server's on it. *)
Definition on_room_event (roomId : jsstr) (room : nat) (w : World) (o : room_out) : World :=
  let w := say (SvRoom room o) w in
  match o with
  | EvClosed =>
      let w1 := if bool_decide (mget roomId (sv_registry w) = Some room)
                then set_registry (mdel roomId (sv_registry w)) w else w in
      say (SvRoomClosed roomId) w1
  | EvPeerKicked peerId reason => say (SvPeerKicked roomId peerId reason) w
  | _ => w
  end.

(** A method of the room object behind a reference. *)
Definition with_room {A : Type} (room : nat) (dflt : A) (f : rs (S := S) → rs (S := S) * A) (w : World)
    : World * A :=
  match sv_rooms w !! room with
  | None => (w, dflt)
  | Some r =>
      let '(s, a) := f (mkRs (sv_peers w) r []) in
      let w1 := set_objects (rs_heap s) (<[room := rs_room s]> (sv_rooms w)) w in
      (fold_left (on_room_event (ro_id r) room) (rs_out s) w1, a)
  end.

Definition with_room_ (room : nat) (f : rs (S := S) → rs (S := S)) (w : World) : World :=
  (with_room room () (λ s, (f s, ())) w).1.

(** ** Registry *)

Definition getOrCreate (now : Z) (roomId : jsstr) (w : World) : World * nat * bool :=
  match mget roomId (sv_registry w) with
  | Some room => (w, room, false)
  | None =>
      let room := fresh (dom (sv_rooms w)) in
      (set_registry (mset roomId room (sv_registry w))
         (set_objects (sv_peers w) (<[room := newRoom now roomId (cf_room cfg)]> (sv_rooms w)) w),
       room, true)
  end.

Definition room_count (room : nat) (w : World) : Z :=
  match sv_rooms w !! room with Some r => getPeerCount r | None => 0 end.

(** [rollbackIfEmpty]: looks the room up by its id again. *)
Definition rollbackIfEmpty (roomId : jsstr) (wasNew : bool) (w : World) : World :=
  match mget roomId (sv_registry w) with
  | Some room =>
      if wasNew && (room_count room w =? 0)
      then set_registry (mdel roomId (sv_registry w)) (with_room_ room dispose w)
      else w
  | None => w
  end.

(** [disconnectAll]: every member of every room, then the room itself. *)
Fixpoint disconnect_members (reason : jsstr) (refs : list nat) (s : rs (S := S)) : rs (S := S) :=
  match refs with
  | [] => s
  | ref :: refs' => disconnect_members reason refs' (on_peer ref (disconnect Normal reason) s).1
  end.

Definition disconnectAll (reason : jsstr) (w : World) : World :=
  set_registry []
    (fold_left (λ w room, with_room_ room
       (λ s, dispose (disconnect_members reason (getPeers (rs_room s)) s)) w) (mvals (sv_registry w)) w).

(** ** Connections *)

(** The [connection] event: the origin check, then the cap. *)
Definition accept (ws : S) (originAllowed : bool) (w : World) : World :=
  let c := sv_next w in
  let w0 := mkWorld (c + 1)%nat (sv_connections w) (sv_live w) (sv_socks w) (sv_peers w) (sv_rooms w)
              (sv_roomOf w) (sv_registry w) (sv_pending w) (sv_out w) in
  if negb originAllowed then say (SvClose c PolicyViolation AuthFailed) w0
  else if decide (cf_maxConnections cfg ≤ sv_connections w) then
    say (SvClose c PolicyViolation ServerAtCapacity) w0
  else mkWorld (c + 1)%nat (sv_connections w + 1) (sv_live w ++ [c]) (<[c := ws]> (sv_socks w))
         (sv_peers w) (sv_rooms w) (sv_roomOf w) (sv_registry w) (sv_pending w) (sv_out w).

(** From the resolved hook to the end of [handleConnection]. *)
Definition finish (now : Z) (c : nat) (roomId : jsstr) (room : nat) (isNew : bool)
    (ice : result unit (option (list IceServer))) (w : World) : World :=
  match ice with
  | Throw _ => say (SvClose c PolicyViolation InternalError) (rollbackIfEmpty roomId isNew w)
  | Ok servers =>
      let '(w1, added) := with_room room (Throw ()) (addPeer now c servers) w in
      match added with
      | Throw _ => say (SvClose c PolicyViolation InternalError) (rollbackIfEmpty roomId isNew w1)
      | Ok false => rollbackIfEmpty roomId isNew w1
      | Ok true =>
          let w2 := set_objects (alter setAdmitted c (sv_peers w1)) (sv_rooms w1) w1 in
          let peerId := match sv_peers w1 !! c with Some p => pe_id p | None => [] end in
          let w3 := say (SvPeerJoined roomId peerId) w2 in
          if isNew then say (SvRoomCreated roomId) w3 else w3
      end
  end.

(** From the resolved authentication to the hook. *)
Definition authenticated (now : Z) (c : nat) (auth : AuthResult) (w0 : World) : World :=
  let w := drop_sock c w0 in
  match auth, sv_socks w0 !! c with
  | _, None => w0
  | AuthFail code reason, _ => say (SvClose c code reason) w
  | AuthOk a, Some ws =>
      let roomId := a_roomId a in
      if negb (cf_isLocal cfg roomId) then say (SvClose c PolicyViolation WrongNode) w
      else if bool_decide (mget roomId (sv_registry w) = None)
              && bool_decide (cf_maxRooms cfg ≤ Z.of_nat (msize (sv_registry w)))
      then say (SvClose c PolicyViolation ServerAtCapacity) w
      else
        let '(w1, room, isNew) := getOrCreate now roomId w in
        let peer := newPeer now (a_peerId a) ws (Some (a_role a)) (a_metadata a) (cf_rateLimit cfg) None in
        let w2 := mkWorld (sv_next w1) (sv_connections w1) (sv_live w1) (sv_socks w1)
                    (<[c := peer]> (sv_peers w1)) (sv_rooms w1) (<[c := room]> (sv_roomOf w1))
                    (sv_registry w1) (sv_pending w1) (sv_out w1) in
        if cf_hasIceHook cfg then set_pending (<[c := mkPending roomId isNew]> (sv_pending w2)) w2
        else finish now c roomId room isNew (Ok None) w2
  end.

(** The hook of a waiting connection resolves. *)
Definition ice_done (now : Z) (c : nat) (ice : result unit (option (list IceServer))) (w : World) : World :=
  match sv_pending w !! c, sv_roomOf w !! c with
  | Some pd, Some room =>
      finish now c (pd_roomId pd) room (pd_isNew pd) ice (set_pending (delete c (sv_pending w)) w)
  | _, _ => w
  end.

(** A frame on the socket: the peer decides, the server's listeners act. *)
Definition on_peer_out (now : Z) (peerId : jsstr) (room : nat) (w : World) (o : peer_out) : World :=
  match o with
  | CallOnSignal to data => (with_room room false (relay now peerId to data) w).1
  | EvPong => with_room_ room (markActivity now) w
  | EvBroadcast channel data =>
      with_room_ room (λ s, (broadcastExcept now peerId (SBroadcast peerId channel data now) s).1) w
  | _ => w
  end.

Definition on_frame (now : Z) (c : nat) (raw : frame) (w : World) : World :=
  match sv_peers w !! c, sv_roomOf w !! c with
  | Some p, Some room =>
      let '(p', outs) := handleMessage now raw p in
      fold_left (on_peer_out now (pe_id p) room) outs (set_objects (<[c := p']> (sv_peers w)) (sv_rooms w) w)
  | _, _ => w
  end.

(** The socket's [close] event: the connection count, then the peer's
    [Disconnected] listener in the room. *)
Definition sock_closed (now : Z) (c : nat) (w : World) : World :=
  if bool_decide (c ∈ sv_live w) then
    let w1 := mkWorld (sv_next w) (sv_connections w - 1) (sdel c (sv_live w)) (sv_socks w) (sv_peers w)
                (sv_rooms w) (sv_roomOf w) (sv_registry w) (sv_pending w) (sv_out w) in
    match sv_roomOf w !! c with
    | Some room => with_room_ room (peer_disconnected now c) w1
    | None => w1
    end
  else w.

(** The outside changes the state of a socket (a buffer drains, a connection is
    lost). *)
Definition sock_changes (c : nat) (ws : S) (w : World) : World :=
  mkWorld (sv_next w) (sv_connections w) (sv_live w)
    (match sv_socks w !! c with Some _ => <[c := ws]> (sv_socks w) | None => sv_socks w end)
    (alter (set_ws ws) c (sv_peers w)) (sv_rooms w) (sv_roomOf w) (sv_registry w) (sv_pending w) (sv_out w).

(** ** Heartbeat *)

(** One room: over a snapshot of its members. *)
Fixpoint beat_members (now deadline : Z) (refs : list nat) (s : rs (S := S)) : rs (S := S) :=
  match refs with
  | [] => s
  | ref :: refs' =>
      let s1 :=
        match rs_heap s !! ref with
        | None => s
        | Some p =>
            if negb (isAlive deadline p)
            then (disconnectAndRemove now (pe_id p) GoingAway HeartbeatTimeout s).1
            else (on_peer ref (λ p, (ping p, false)) s).1
        end in
      beat_members now deadline refs' s1
  end.

Definition beat_room (now deadline : Z) (s : rs (S := S)) : rs (S := S) :=
  beat_members now deadline (getPeers (rs_room s)) s.

Definition heartbeat (now : Z) (w : World) : World :=
  let deadline := now - cf_pongTimeout cfg in
  fold_left (λ w room, with_room_ room (beat_room now deadline) w) (mvals (sv_registry w)) w.

(** ** Steps *)

Inductive server_op :=
| OpAccept (ws : S) (originAllowed : bool)
| OpAuth (c : nat) (auth : AuthResult)
| OpIce (c : nat) (ice : result unit (option (list IceServer)))
| OpFrame (c : nat) (raw : frame)
| OpClosed (c : nat)
| OpSock (c : nat) (ws : S)
| OpHeartbeat
| OpRoomTimers (room : nat)
| OpKick (roomId peerId : jsstr) (reason : option jsstr)
| OpStop.

Definition server_step (now : Z) (op : server_op) (w : World) : World :=
  match op with
  | OpAccept ws ok => accept ws ok w
  | OpAuth c auth => authenticated now c auth w
  | OpIce c ice => ice_done now c ice w
  | OpFrame c raw => on_frame now c raw w
  | OpClosed c => sock_closed now c w
  | OpSock c ws => sock_changes c ws w
  | OpHeartbeat => heartbeat now w
  | OpRoomTimers room => with_room_ room (λ s, fire now ro_durationTimer (fire now ro_idleTimer s)) w
  | OpKick roomId peerId reason =>
      match mget roomId (sv_registry w) with
      | Some room => (with_room room (Ok false) (kickPeer now peerId reason) w).1
      | None => w
      end
  | OpStop => disconnectAll ServerStopping w
  end.

Definition server_run (ops : list (Z * server_op)) (w : World) : World :=
  fold_left (λ w o, server_step o.1 o.2 w) ops w.

(** [getStats]. *)
Definition totalPeers (w : World) : Z :=
  foldr (λ room n, room_count room w + n) 0 (mvals (sv_registry w)).
End server.

Arguments mkWorld {S} _ _ _ _ _ _ _ _ _ _.
Arguments sv_next {S} _.
Arguments sv_connections {S} _.
Arguments sv_live {S} _.
Arguments sv_socks {S} _.
Arguments sv_peers {S} _.
Arguments sv_rooms {S} _.
Arguments sv_roomOf {S} _.
Arguments sv_registry {S} _.
Arguments sv_pending {S} _.
Arguments sv_out {S} _.

(** * What a room tells the registry *)

Section loud.
Context {S : Type} `{WebSocketLaws S}.
Implicit Types (s : rs (S := S)).

(** A room that closes says so. *)
Definition loud s s' : Prop :=
  ro_id (rs_room s') = ro_id (rs_room s) ∧ ids (rs_heap s') = ids (rs_heap s) ∧
  ∃ new, rs_out s' = rs_out s ++ new ∧
    (ro_state (rs_room s') = Closed → ro_state (rs_room s) = Closed ∨ EvClosed ∈ new).

Lemma loud_refl s : loud s s.
Proof. split; [done|]. split; [done|]. exists []. rewrite app_nil_r. split; [done|by left]. Qed.

Lemma loud_trans s1 s2 s3 : loud s1 s2 → loud s2 s3 → loud s1 s3.
Proof.
  intros (H1 & H2 & n1 & Ho1 & Hc1) (H3 & H4 & n2 & Ho2 & Hc2).
  split; [congruence|]. split; [congruence|]. exists (n1 ++ n2).
  split; [by rewrite Ho2, Ho1, <- app_assoc|]. intros Hc. rewrite elem_of_app.
  destruct (Hc2 Hc) as [Hs|]; [|tauto]. destruct (Hc1 Hs); tauto.
Qed.

Lemma loud_emit e s : loud s (emit e s).
Proof. split; [done|]. split; [done|]. exists [e]. split; [done|by left]. Qed.

Lemma loud_on_room f s :
  ro_id (f (rs_room s)) = ro_id (rs_room s) → ro_state (f (rs_room s)) = ro_state (rs_room s) →
  loud s (on_room f s).
Proof.
  intros Hi Hs. split; [done|]. split; [done|]. exists []. simpl. rewrite app_nil_r, Hs.
  split; [done|by left].
Qed.

Lemma loud_on_peer ref f s :
  (∀ p, pe_id (f p).1.1 = pe_id p) → loud s (on_peer ref f s).1.
Proof.
  intros Hf. destruct (on_peer_ids ref f s Hf) as [H1 H2].
  split; [by rewrite H2|]. split; [done|]. rewrite H2. unfold on_peer.
  destruct (rs_heap s !! ref) as [p|].
  - destruct (f p) as [[p' out] b]. simpl. eexists. split; [done|by left].
  - exists []. rewrite app_nil_r. split; [done|by left].
Qed.

Lemma loud_send_loop msg ex ps s : loud s (send_loop msg ex ps s).1.
Proof.
  revert s. induction ps as [|[id ref] ps IH]; intros s; simpl; [apply loud_refl|].
  case_bool_decide; [apply IH|].
  pose proof (loud_on_peer ref (send msg) s (send_id _)) as Hl1.
  destruct (on_peer ref (send msg) s) as [s1 threw]. simpl in Hl1. destruct threw.
  - pose proof (IH (emit (EvPeerError id) s1)) as Hl2.
    destruct (send_loop msg ex ps (emit _ s1)) as [s2 failed]. simpl in *.
    eapply loud_trans; [exact Hl1|]. eapply loud_trans; [apply loud_emit|exact Hl2].
  - eapply loud_trans; [exact Hl1|apply IH].
Qed.

Lemma loud_reset now s : loud s (on_room (_resetIdleTimer now) s).
Proof.
  apply loud_on_room; by apply (same_room_fields _ _ (reset_same now (rs_room s))).
Qed.

Lemma loud_sendToAll now msg ex s : loud s (_sendToAll now msg ex s).1.
Proof. unfold _sendToAll. eapply loud_trans; [apply loud_reset|apply loud_send_loop]. Qed.

Lemma transition_keeps next s :
  ro_id (rs_room (transition next s)) = ro_id (rs_room s) ∧
  ids (rs_heap (transition next s)) = ids (rs_heap s) ∧ rs_out (transition next s) = rs_out s.
Proof. destruct (transition_spec next s) as (Hh & Ho & ->). rewrite Hh, Ho. by case_match. Qed.

Lemma loud_transition next s : next ≠ Closed → loud s (transition next s).
Proof.
  intros Hne. destruct (transition_keeps next s) as (H1 & H2 & H3). split; [done|]. split; [done|].
  exists []. rewrite app_nil_r. split; [done|]. destruct (transition_spec next s) as (_ & _ & ->).
  case_match; simpl; [done|by left].
Qed.

(** [_transitionTo(Closed)] followed by the event. *)
Lemma loud_close s : loud s (emit EvClosed (transition Closed s)).
Proof.
  destruct (transition_keeps Closed s) as (H1 & H2 & H3). split; [done|]. split; [done|].
  exists [EvClosed]. split; [done|]. intros _. right. left.
Qed.

Lemma loud_removePeer now id s : loud s (removePeer now id s).
Proof.
  unfold removePeer. destruct (getPeer id (rs_room s)) as [ref|]; [|apply loud_refl].
  set (s1 := on_room _ s). assert (H1 : loud s s1) by (by apply loud_on_room).
  eapply loud_trans; [exact H1|]. clearbody s1. destruct (_ && _).
  - eapply loud_trans; [|apply loud_close]. eapply loud_trans; [|apply loud_emit].
    eapply loud_trans; [|by apply loud_transition]. by apply loud_on_room.
  - eapply loud_trans; [|apply loud_emit]. eapply loud_trans; apply loud_sendToAll.
Qed.

Lemma loud_expire refs s : loud s (expire_loop refs s).
Proof.
  revert s. induction refs as [|ref refs IH]; intros s; simpl; [apply loud_refl|].
  eapply loud_trans; [|apply IH]. eapply loud_trans; [|apply loud_emit].
  apply loud_on_peer. apply disconnect_id.
Qed.

Lemma loud_forceClose now s : loud s (_forceClose now s).
Proof.
  unfold _forceClose. destruct (_ || _); [|apply loud_refl].
  eapply loud_trans; [|apply loud_close]. eapply loud_trans; [|apply loud_expire].
  eapply loud_trans; [|by apply loud_on_room]. eapply loud_trans; [|apply loud_sendToAll].
  eapply loud_trans; [by apply (loud_transition Closing)|by apply loud_on_room].
Qed.

Lemma loud_addPeer now ref ice s : loud s (addPeer now ref ice s).1.
Proof.
  unfold addPeer. destruct (rs_heap s !! ref) as [peer|]; [|apply loud_refl]. cbv zeta.
  assert (Hrej : ∀ reason, loud s (let '(s1, threw) := on_peer ref (disconnect PolicyViolation reason) s in
    (s1, if threw : bool then Throw () else Ok false)).1).
  { intros reason. pose proof (loud_on_peer ref (disconnect PolicyViolation reason) s (disconnect_id _ _)).
    by destruct (on_peer ref _ s). }
  destruct (_ || _); [apply Hrej|]. destruct (_ && _); [apply Hrej|].
  set (q1 := match getPeer _ _ with Some old => _ | None => _ end).
  assert (Hq1 : loud s q1.1).
  { subst q1. destruct (getPeer (pe_id peer) (rs_room s)) as [old|]; [|apply loud_refl].
    pose proof (loud_on_peer old (disconnect Normal ReplacedByReconnection) s (disconnect_id _ _)).
    destruct (on_peer old _ s) as [s' threw]. simpl in *. destruct threw; [done|].
    eapply loud_trans; [done|apply loud_emit]. }
  clearbody q1. destruct q1 as [s1 threw]. destruct threw; [done|]. simpl in Hq1.
  set (s2 := on_room _ s1). assert (Hl2 : loud s s2) by (eapply loud_trans; [done|by apply loud_on_room]).
  clearbody s2.
  pose proof (loud_on_peer ref (send (room_joined (rs_heap s2) peer ice (rs_room s2))) s2 (send_id _)) as Hl3.
  destruct (on_peer ref _ s2) as [s3 threw]. simpl in Hl3.
  assert (Hl3' : loud s s3) by (by eapply loud_trans). clear Hl3.
  destruct threw; [eapply loud_trans; [done|by apply loud_on_room]|].
  set (s4 := if bool_decide _ then _ else s3).
  assert (Hl4 : loud s s4).
  { subst s4. destruct (bool_decide (getPeer _ _ = None)); [|done].
    eapply loud_trans; [done|]. eapply loud_trans; apply loud_sendToAll. }
  clearbody s4. simpl. eapply loud_trans; [exact Hl4|].
  eapply loud_trans; [|apply loud_emit]. eapply loud_trans; [|apply loud_reset].
  eapply loud_trans; [|by apply loud_transition]. by apply loud_on_room.
Qed.

(** Operations the server lifts to the world. *)
Definition good (f : rs (S := S) → rs (S := S)) : Prop :=
  ∀ s, sok s → sok (f s) ∧ forward (rs_room s) (rs_room (f s)) ∧ loud s (f s).

Lemma good_comp f g : good f → good g → good (λ s, g (f s)).
Proof.
  intros Hf Hg s Hs. destruct (Hf s Hs) as (H1 & H2 & H3), (Hg _ H1) as (H4 & H5 & H6).
  split; [done|]. split; [by eapply forward_trans|by eapply loud_trans].
Qed.

Lemma good_traffic f : (∀ s, traffic s (f s)) → (∀ s, loud s (f s)) → good f.
Proof.
  intros Ht Hl s Hs. split; [revert Hs; by apply traffic_ok|]. split; [by apply forward_traffic|done].
Qed.

Lemma good_step now op :
  (∀ s, loud s (room_step now op s)) → good (room_step now op).
Proof. intros Hl s Hs. split; [by apply room_step_ok|]. split; [by apply room_step_forward|done]. Qed.

Lemma good_add now ref ice : good (λ s, (addPeer now ref ice s).1).
Proof. apply (good_step now (OAdd ref ice)), loud_addPeer. Qed.

Lemma good_kick now id reason : good (λ s, (kickPeer now id reason s).1).
Proof.
  apply (good_step now (OKick id reason)). intros s. simpl. unfold kickPeer.
  destruct (getPeer id (rs_room s)) as [ref|]; [|apply loud_refl].
  pose proof (loud_on_peer ref (send (SKicked id reason)) s (send_id _)) as Hl1.
  set (s1 := (on_peer ref _ s).1) in *. clearbody s1.
  pose proof (loud_on_peer ref (disconnect PolicyViolation (default KickedReason reason)) s1 (disconnect_id _ _)) as Hl2.
  destruct (on_peer ref _ s1) as [s2 threw]. simpl in Hl2.
  assert (Hl : loud s s2) by (by eapply loud_trans). destruct threw; [done|]. simpl.
  eapply loud_trans; [exact Hl|]. eapply loud_trans; [apply loud_removePeer|apply loud_emit].
Qed.

Lemma good_remove now id code reason : good (λ s, (disconnectAndRemove now id code reason s).1).
Proof.
  apply (good_step now (ORemove id code reason)). intros s. simpl. unfold disconnectAndRemove.
  destruct (getPeer id (rs_room s)) as [ref|]; [|apply loud_refl].
  pose proof (loud_on_peer ref (disconnect code reason) s (disconnect_id _ _)) as Hl.
  destruct (on_peer ref _ s) as [s1 threw]. simpl in Hl. destruct threw; [done|].
  eapply loud_trans; [exact Hl|apply loud_removePeer].
Qed.

Lemma good_relay now from to data : good (λ s, (relay now from to data s).1).
Proof.
  apply (good_step now (ORelay from to data)). intros s. simpl. unfold relay.
  set (s1 := on_room _ s). assert (Hl1 : loud s s1) by apply loud_reset. clearbody s1.
  destruct (getPeer to (rs_room s1)) as [ref|]; [|done].
  pose proof (loud_on_peer ref (send (SSignal from data)) s1 (send_id _)) as Hl2.
  destruct (on_peer ref _ s1) as [s2 threw]. simpl in Hl2. destruct threw; simpl.
  - eapply loud_trans; [exact Hl1|]. eapply loud_trans; [exact Hl2|apply loud_emit].
  - by eapply loud_trans.
Qed.

Lemma good_broadcast now msg ex : good (λ s, (_sendToAll now msg ex s).1).
Proof. apply (good_step now (OBroadcast msg ex)), loud_sendToAll. Qed.

Lemma good_mark now : good (markActivity now).
Proof. apply (good_step now OMark), loud_reset. Qed.

Lemma good_closed now ref : good (peer_disconnected now ref).
Proof.
  apply (good_step now (ODisconnected ref)). intros s. simpl. unfold peer_disconnected.
  case_bool_decide; [|apply loud_refl].
  assert (Hl : loud s (on_room (λ r, set_subs (sdel ref (ro_subs r)) r) s)) by (by apply loud_on_room).
  destruct (rs_heap s !! ref); [|done]. case_bool_decide; [|done].
  eapply loud_trans; [exact Hl|apply loud_removePeer].
Qed.

Lemma good_fire now (b : bool) : good (fire now (if b then ro_idleTimer else ro_durationTimer)).
Proof.
  assert (Hl : ∀ timer s, loud s (fire now timer s)).
  { intros timer s. unfold fire. destruct (timer (rs_room s)); [|apply loud_refl].
    case_decide; [apply loud_forceClose|apply loud_refl]. }
  destruct b; [apply (good_step now OIdleTimer)|apply (good_step now ODurationTimer)]; apply Hl.
Qed.

Lemma good_ping ref : good (λ s, (on_peer ref (λ p, (ping p, false)) s).1).
Proof.
  assert (Hid : ∀ p : Peer S, pe_id (ping p, false).1.1 = pe_id p).
  { intros p. simpl. unfold ping. apply send_same. }
  apply good_traffic; intros s; [by apply on_peer_traffic|by apply loud_on_peer].
Qed.

Lemma good_beat now deadline refs : good (beat_members now deadline refs).
Proof.
  induction refs as [|ref refs IH]; intros s Hs; cbn [beat_members].
  { split; [done|]. split; [by apply forward_same|apply loud_refl]. }
  set (s1 := match rs_heap s !! ref with Some _ => _ | None => _ end).
  assert (H1 : sok s1 ∧ forward (rs_room s) (rs_room s1) ∧ loud s s1).
  { subst s1. destruct (rs_heap s !! ref) as [p|].
    - destruct (negb _); [by apply good_remove|by apply good_ping].
    - split; [done|]. split; [by apply forward_same|apply loud_refl]. }
  clearbody s1. destruct H1 as (Hs1 & Hf1 & Hl1), (IH s1 Hs1) as (Hs2 & Hf2 & Hl2).
  split; [done|]. split; [by eapply forward_trans|by eapply loud_trans].
Qed.
End loud.

(** * The invariant of the server *)

Section invariant.
Context {S : Type} `{WebSocketLaws S} (cfg : ServerConfig).
Implicit Types (w : World (S := S)).

Definition objs_ok w : Prop :=
  ∀ room r, sv_rooms w !! room = Some r →
    room_ok (ids (sv_peers w)) r ∧ ro_state r ≠ Closing ∧ ro_maxPeers r = o_maxPeers (cf_room cfg).

(** The registry holds live rooms, each under its own id. *)
Definition reg_ok w : Prop :=
  mwf (sv_registry w) ∧ Z.of_nat (msize (sv_registry w)) ≤ Z.max 0 (cf_maxRooms cfg) ∧
  ∀ id room, mget id (sv_registry w) = Some room →
    ∃ r, sv_rooms w !! room = Some r ∧ ro_id r = id ∧ ro_state r ≠ Closed.

Definition conn_ok w : Prop :=
  sv_connections w = Z.of_nat (length (sv_live w)) ∧ NoDup (sv_live w) ∧
  sv_connections w ≤ Z.max 0 (cf_maxConnections cfg) ∧
  (∀ c, c ∈ sv_live w → (c < sv_next w)%nat) ∧
  (∀ c, is_Some (sv_socks w !! c) → sv_peers w !! c = None ∧ (c < sv_next w)%nat) ∧
  (∀ c, is_Some (sv_peers w !! c) → (c < sv_next w)%nat).

Definition server_ok w : Prop := objs_ok w ∧ reg_ok w ∧ conn_ok w.

(** ** Events *)

Definition same_world w w' : Prop :=
  sv_next w' = sv_next w ∧ sv_connections w' = sv_connections w ∧ sv_live w' = sv_live w ∧
  sv_socks w' = sv_socks w ∧ sv_roomOf w' = sv_roomOf w ∧ sv_pending w' = sv_pending w.

Definition is_closed (e : room_out) : bool := match e with EvClosed => true | _ => false end.

Lemma closed_in evs : EvClosed ∈ evs → existsb is_closed evs = true.
Proof.
  induction evs as [|e evs IH]; [by intros ?%not_elem_of_nil|].
  intros [<-|Hin]%elem_of_cons; simpl; [done|]. rewrite IH by done. apply orb_true_r.
Qed.

Lemma events_spec rid room evs w :
  let w' := fold_left (on_room_event rid room) evs w in
  same_world w w' ∧ sv_peers w' = sv_peers w ∧ sv_rooms w' = sv_rooms w ∧
  sv_registry w' = if existsb is_closed evs && bool_decide (mget rid (sv_registry w) = Some room)
                   then mdel rid (sv_registry w) else sv_registry w.
Proof.
  revert w. induction evs as [|e evs IH]; intros w; simpl; [done|].
  destruct (IH (on_room_event rid room w e)) as (Hw & Hp & Hr & Hreg).
  assert (He : same_world w (on_room_event rid room w e) ∧ sv_peers (on_room_event rid room w e) = sv_peers w
    ∧ sv_rooms (on_room_event rid room w e) = sv_rooms w
    ∧ sv_registry (on_room_event rid room w e)
      = if is_closed e && bool_decide (mget rid (sv_registry w) = Some room)
        then mdel rid (sv_registry w) else sv_registry w).
  { destruct e; simpl; try done. by destruct (bool_decide (mget rid (sv_registry w) = Some room)). }
  destruct He as (Hw' & Hp' & Hr' & Hreg'). split; [|split; [congruence|split; [congruence|]]].
  { unfold same_world in *. intuition congruence. }
  rewrite Hreg, Hreg'. destruct (is_closed e); simpl; [|done].
  destruct (bool_decide_reflect (mget rid (sv_registry w) = Some room)) as [Hm|Hm].
  - rewrite mget_mdel_eq, bool_decide_false by done. by rewrite andb_false_r.
  - rewrite bool_decide_false by done. by rewrite andb_false_r.
Qed.

(** ** Lifted operations *)

Lemma with_room_fst {A} room (d : A) f w :
  (with_room room d f w).1 = with_room_ room (λ s, (f s).1) w.
Proof.
  unfold with_room_, with_room. destruct (sv_rooms w !! room) as [r|]; [|done].
  by destruct (f _) as [s a].
Qed.

Lemma objs_ok_ids w room r : objs_ok w → sv_rooms w !! room = Some r →
  sok (mkRs (sv_peers w) r []).
Proof. intros Ho Hr. by apply (Ho room r). Qed.

(** A good operation keeps the world well-formed; the registry can only lose the
    room's own entry. *)
Lemma with_room_spec room f w :
  good f → objs_ok w → reg_ok w →
  let w' := with_room_ room f w in
  same_world w w' ∧ ids (sv_peers w') = ids (sv_peers w) ∧ objs_ok w' ∧ reg_ok w'.
Proof.
  intros Hf Ho Hr. unfold with_room_, with_room.
  destruct (sv_rooms w !! room) as [r|] eqn:Er; [|done].
  destruct (Hf _ (objs_ok_ids w room r Ho Er)) as (Hok & (_ & Hnc & _ & Hmax) & Hid & Hids & new & Hnew & Hcl).
  set (s' := f (mkRs (sv_peers w) r [])) in *. clearbody s'. simpl in *.
  set (w1 := set_objects _ _ _).
  destruct (events_spec (ro_id r) room (rs_out s') w1) as (Hw & Hp & Hrm & Hreg).
  set (w' := fold_left _ _ w1) in *. clearbody w'. simpl in *.
  split; [done|]. split; [by rewrite Hp|].
  destruct (Ho room r Er) as (_ & Hncl & Hm0).
  split; [|split; [|split]].
  - intros q rq. rewrite Hrm, Hp, lookup_insert. destruct (decide (room = q)) as [Hq|Hq].
    + intros [= <-]. split; [done|]. split; [by apply Hnc|congruence].
    + intros Hrq. destruct (Ho q rq Hrq) as (? & ? & ?). by rewrite Hids.
  - rewrite Hreg. destruct Hr as [Hwf _]. destruct (_ && _); [by apply mwf_mdel|done].
  - rewrite Hreg. destruct Hr as (_ & Hsz & _). destruct (_ && _); [|done].
    pose proof (msize_mdel_le (ro_id r) (sv_registry w)). lia.
  - intros id q Hq. assert (Hq0 : mget id (sv_registry w) = Some q ∧
      (q = room → id = ro_id r → existsb is_closed (rs_out s') = false)).
    { rewrite Hreg in Hq. destruct (existsb is_closed (rs_out s')) eqn:Ex; simpl in Hq; [|done].
      destruct (bool_decide_reflect (mget (ro_id r) (sv_registry w) = Some room)) as [Hb|Hb].
      - rewrite mget_mdel in Hq. destruct (decide (id = ro_id r)); [done|]. split; [done|]. by intros _ ?.
      - split; [done|]. intros -> ->. done. }
    destruct Hq0 as [Hq0 Hnc0]. destruct Hr as (_ & _ & Hreg0).
    destruct (Hreg0 id q Hq0) as (rq & Hrq & Hidq & Hst). rewrite Hrm, lookup_insert.
    destruct (decide (room = q)) as [<-|]; [|by exists rq].
    assert (rq = r) as -> by congruence. exists (rs_room s'). split; [done|]. split; [congruence|].
    intros Hcl'. destruct (Hcl Hcl') as [|Hin]; [done|]. rewrite Hnew in Hnc0. simpl in Hnc0.
    rewrite (closed_in _ Hin) in Hnc0. by specialize (Hnc0 eq_refl (eq_sym Hidq)).
Qed.

(** Dropping a room after disposing of it. *)
Lemma dispose_spec room f w :
  (∀ s, sok s → sok (f s) ∧ ids (rs_heap (f s)) = ids (rs_heap s) ∧ ro_state (rs_room (f s)) = Closed ∧
     ro_maxPeers (rs_room (f s)) = ro_maxPeers (rs_room s) ∧
     ∀ e, e ∈ rs_out (f s) → e ∈ rs_out s ∨ is_closed e = false) →
  objs_ok w →
  let w' := with_room_ room f w in
  same_world w w' ∧ ids (sv_peers w') = ids (sv_peers w) ∧ objs_ok w' ∧
  sv_registry w' = sv_registry w ∧ (∀ q, q ≠ room → sv_rooms w' !! q = sv_rooms w !! q).
Proof.
  intros Hf Ho. unfold with_room_, with_room.
  destruct (sv_rooms w !! room) as [r|] eqn:Er; [|done].
  destruct (Hf _ (objs_ok_ids w room r Ho Er)) as (Hok & Hids & Hst & Hmax & Hout).
  set (s' := f (mkRs (sv_peers w) r [])) in *. clearbody s'. simpl in *.
  set (w1 := set_objects _ _ _).
  destruct (events_spec (ro_id r) room (rs_out s') w1) as (Hw & Hp & Hrm & Hreg).
  set (w' := fold_left _ _ w1) in *. clearbody w'. simpl in *.
  assert (Hno : existsb is_closed (rs_out s') = false).
  { apply not_true_iff_false. intros (e & Hin & He)%existsb_exists.
    destruct (Hout e) as [?%not_elem_of_nil|]; [by apply list_elem_of_In|done|congruence]. }
  rewrite Hno in Hreg. simpl in Hreg.
  split; [done|]. split; [by rewrite Hp|]. split; [|split; [done|]].
  - intros q rq. rewrite Hrm, Hp, lookup_insert. destruct (decide (room = q)) as [Hq|Hq].
    + intros [= <-]. split; [done|]. rewrite Hst. split; [done|]. rewrite Hmax. by apply (Ho room r).
    + intros Hrq. destruct (Ho q rq Hrq) as (? & ? & ?). by rewrite Hids.
  - intros q Hq. rewrite Hrm. by apply lookup_insert_ne.
Qed.

Lemma ids_lookup (h1 h2 : gmap nat (Peer S)) c :
  ids h1 = ids h2 → is_Some (h1 !! c) ↔ is_Some (h2 !! c).
Proof.
  intros He. apply (f_equal (λ m, m !! c)) in He. rewrite !lookup_fmap in He.
  destruct (h1 !! c), (h2 !! c); simpl in He; try done; split; eauto; by intros [].
Qed.

Lemma conn_ok_same w w' :
  same_world w w' → ids (sv_peers w') = ids (sv_peers w) → conn_ok w → conn_ok w'.
Proof.
  intros (Hn & Hc & Hl & Hk & _ & _) Hids (H1 & H2 & H3 & H4 & H5 & H6).
  unfold conn_ok. rewrite Hn, Hc, Hl, Hk. split; [done|]. split; [done|]. split; [done|].
  split; [done|]. split.
  - intros c Hs. destruct (H5 c Hs) as [Hp Hlt]. split; [|done].
    apply eq_None_not_Some. rewrite (ids_lookup _ _ c Hids), Hp. by intros [].
  - intros c. rewrite (ids_lookup _ _ c Hids). apply H6.
Qed.

Lemma with_room_ok room f w : good f → server_ok w → server_ok (with_room_ room f w).
Proof.
  intros Hf (Ho & Hr & Hc). destruct (with_room_spec room f w Hf Ho Hr) as (Hw & Hi & Ho' & Hr').
  split; [done|]. split; [done|]. by apply (conn_ok_same w).
Qed.

Lemma server_ok_say e w : server_ok w → server_ok (say e w).
Proof. done. Qed.

Lemma server_ok_pending pd w : server_ok w → server_ok (set_pending pd w).
Proof. done. Qed.

Lemma server_ok_drop c w : server_ok w → server_ok (drop_sock c w).
Proof.
  intros (Ho & Hr & (H1 & H2 & H3 & H4 & H5 & H6)). split; [done|]. split; [done|].
  unfold conn_ok. simpl. split; [done|]. split; [done|]. split; [done|]. split; [done|].
  split; [|done]. intros d. rewrite lookup_delete. case_decide; [by intros []|apply H5].
Qed.

Lemma dispose_good (s : rs (S := S)) : sok s →
  sok (dispose s) ∧ ids (rs_heap (dispose s)) = ids (rs_heap s) ∧ ro_state (rs_room (dispose s)) = Closed ∧
  ro_maxPeers (rs_room (dispose s)) = ro_maxPeers (rs_room s) ∧ rs_out (dispose s) = rs_out s.
Proof.
  intros Hs. destruct (dispose_ok s Hs) as [Hok Hst]. split; [done|]. split; [done|]. split; [done|].
  split; [|done]. by destruct (room_step_forward 0 ODispose s Hs) as (_ & _ & _ & Hm).
Qed.

Lemma rollback_ok roomId wasNew w : server_ok w → server_ok (rollbackIfEmpty roomId wasNew w).
Proof.
  intros Hok. unfold rollbackIfEmpty. destruct (mget roomId (sv_registry w)) as [room|] eqn:Em; [|done].
  destruct (wasNew && _); [|done]. destruct Hok as (Ho & Hr & Hc).
  destruct (dispose_spec room dispose w) as (Hw & Hi & Ho' & Hreg & Hoth).
  { intros s Hs. destruct (dispose_good s Hs) as (? & ? & ? & ? & ->).
    split; [done|]. split; [done|]. split; [done|]. split; [done|]. auto. }
  { done. }
  split; [done|]. split; [|by apply (conn_ok_same w)].
  destruct Hr as (Hwf & Hsz & Hreg0). split; [simpl; by apply mwf_mdel|]. simpl. split.
  - pose proof (msize_mdel_le roomId (sv_registry w)). lia.
  - intros id q. rewrite mget_mdel. destruct (decide (id = roomId)) as [|Hne]; [done|]. intros Hq.
    destruct (Hreg0 id q Hq) as (rq & Hrq & Hid & Hst). exists rq. split; [|done].
    destruct (decide (q = room)) as [->|Hqr]; [|by rewrite Hoth].
    destruct (Hreg0 roomId room Em) as (rr & Hrr & Hidr & _). congruence.
Qed.

Lemma admit_ok c w : server_ok w → server_ok (set_objects (alter setAdmitted c (sv_peers w)) (sv_rooms w) w).
Proof.
  intros (Ho & Hr & Hc).
  assert (Hi : ids (alter setAdmitted c (sv_peers w)) = ids (sv_peers w)).
  { apply map_eq. intros d. rewrite !lookup_fmap, lookup_alter.
    destruct (decide (c = d)) as [->|]; [|done]. by destruct (sv_peers w !! d). }
  split; [|split; [done|]].
  - intros room r Hrm. simpl in *. rewrite Hi. by apply (Ho room).
  - apply (conn_ok_same w); done.
Qed.

Lemma finish_ok now c roomId room isNew ice w :
  server_ok w → server_ok (finish now c roomId room isNew ice w).
Proof.
  intros Hok. unfold finish. destruct ice as [servers|]; [|by apply server_ok_say, rollback_ok].
  pose proof (with_room_fst room (Throw ()) (addPeer now c servers) w) as Hf.
  destruct (with_room room (Throw ()) (addPeer now c servers) w) as [w1 added]. simpl in Hf.
  assert (Hok1 : server_ok w1) by (rewrite Hf; apply with_room_ok; [apply good_add|done]). clear Hf.
  destruct added as [[]|[]].
  - pose proof (admit_ok c w1 Hok1) as Hok2. destruct isNew; by repeat apply server_ok_say.
  - by apply rollback_ok.
  - by apply server_ok_say, rollback_ok.
Qed.

Lemma getOrCreate_ok now roomId w :
  server_ok w →
  bool_decide (mget roomId (sv_registry w) = None)
    && bool_decide (cf_maxRooms cfg ≤ Z.of_nat (msize (sv_registry w))) = false →
  server_ok (getOrCreate cfg now roomId w).1.1.
Proof.
  intros (Ho & Hr & Hc) Hcap. unfold getOrCreate.
  destruct (mget roomId (sv_registry w)) as [room|] eqn:Em; [done|]. simpl in Hcap.
  apply bool_decide_eq_false in Hcap. simpl. set (q := fresh (dom (sv_rooms w))).
  assert (Hq : sv_rooms w !! q = None) by (apply not_elem_of_dom, is_fresh).
  split; [|split; [|done]].
  - intros room r. simpl. rewrite lookup_insert. destruct (decide (q = room)) as [<-|].
    + intros [= <-]. split; [apply room_ok_new|]. done.
    + intros Hrm. by apply (Ho room).
  - destruct Hr as (Hwf & Hsz & Hreg). split; [by apply mwf_mset|]. simpl. split.
    + rewrite msize_mset. unfold mhas. rewrite Em. lia.
    + intros id room. rewrite mget_mset. destruct (decide (id = roomId)) as [->|].
      * intros [= <-]. eexists. rewrite lookup_insert_eq. split; [done|]. done.
      * intros Hm. destruct (Hreg id room Hm) as (r & Hrm & ? & ?). exists r.
        rewrite lookup_insert_ne; [done|]. congruence.
Qed.

Lemma new_peer_ok c p w (roomOf : gmap nat nat) :
  (c < sv_next w)%nat → sv_peers w !! c = None → sv_socks w !! c = None → server_ok w →
  server_ok (mkWorld (sv_next w) (sv_connections w) (sv_live w) (sv_socks w) (<[c := p]> (sv_peers w))
    (sv_rooms w) roomOf (sv_registry w) (sv_pending w) (sv_out w)).
Proof.
  intros Hlt Hc Hs (Ho & Hr & (H1 & H2 & H3 & H4 & H5 & H6)). split; [|split; [done|]].
  - intros room r Hrm. destruct (Ho room r Hrm) as (Hok & ? & ?). split; [|done].
    eapply room_ok_heap; [|exact Hok]. intros ref id. simpl. rewrite !lookup_fmap, lookup_insert.
    destruct (decide (c = ref)) as [->|]; [|done]. by rewrite Hc.
  - unfold conn_ok. simpl. split; [done|]. split; [done|]. split; [done|]. split; [done|]. split.
    + intros d Hd. destruct (H5 d Hd) as [Hd1 Hd2]. split; [|done]. rewrite lookup_insert_ne; [done|].
      intros ->. rewrite Hs in Hd. by destruct Hd.
    + intros d. rewrite lookup_insert. destruct (decide (c = d)) as [<-|]; [done|apply H6].
Qed.

Lemma authenticated_ok now c auth w : server_ok w → server_ok (authenticated cfg now c auth w).
Proof.
  intros Hok. unfold authenticated. destruct (sv_socks w !! c) as [ws|] eqn:Es; [|by destruct auth].
  pose proof (server_ok_drop c w Hok) as Hd.
  destruct auth as [a|code reason]; [|by apply server_ok_say].
  destruct (negb _); [by apply server_ok_say|].
  destruct (bool_decide _ && bool_decide _) eqn:Ecap; [by apply server_ok_say|].
  pose proof (getOrCreate_ok now (a_roomId a) (drop_sock c w) Hd Ecap) as Hg.
  assert (Hsame : sv_peers (getOrCreate cfg now (a_roomId a) (drop_sock c w)).1.1 = sv_peers w ∧
    sv_socks (getOrCreate cfg now (a_roomId a) (drop_sock c w)).1.1 = delete c (sv_socks w) ∧
    sv_next (getOrCreate cfg now (a_roomId a) (drop_sock c w)).1.1 = sv_next w).
  { unfold getOrCreate. by destruct (mget _ _). }
  destruct (getOrCreate cfg now (a_roomId a) (drop_sock c w)) as [[w1 room] isNew].
  simpl in Hg, Hsame. destruct Hsame as (Hp & Hk & Hn).
  destruct Hok as (_ & _ & (_ & _ & _ & _ & H5 & _)).
  destruct (H5 c ltac:(by rewrite Es)) as [Hpc Hlt].
  set (w2 := mkWorld _ _ _ _ _ _ _ _ _ _).
  assert (Hok2 : server_ok w2).
  { apply new_peer_ok; [by rewrite Hn|by rewrite Hp|rewrite Hk; apply lookup_delete_eq|done]. }
  destruct (cf_hasIceHook cfg); [by apply server_ok_pending|by apply finish_ok].
Qed.

Lemma ice_done_ok now c ice w : server_ok w → server_ok (ice_done now c ice w).
Proof.
  intros Hok. unfold ice_done. destruct (sv_pending w !! c), (sv_roomOf w !! c); try done.
  by apply finish_ok, server_ok_pending.
Qed.

Lemma peer_update_ok c p p' w :
  sv_peers w !! c = Some p → pe_id p' = pe_id p → server_ok w →
  server_ok (set_objects (<[c := p']> (sv_peers w)) (sv_rooms w) w).
Proof.
  intros Hp Hid (Ho & Hr & Hc).
  assert (Hi : ids (<[c := p']> (sv_peers w)) = ids (sv_peers w)).
  { rewrite fmap_insert. apply insert_id. by rewrite lookup_fmap, Hp, Hid. }
  split; [|split; [done|by apply (conn_ok_same w)]].
  intros room r Hrm. simpl in *. rewrite Hi. by apply (Ho room).
Qed.

Lemma handle_id now raw (p : Peer S) : pe_id (handleMessage now raw p).1 = pe_id p.
Proof.
  unfold handleMessage, rate_allow. destruct (pe_rate p) as [r|]; [destruct (allow now r) as [r' []]|];
    simpl; repeat case_match; done.
Qed.

Lemma on_frame_ok now c raw w : server_ok w → server_ok (on_frame now c raw w).
Proof.
  intros Hok. unfold on_frame. destruct (sv_peers w !! c) as [p|] eqn:Ep; [|done].
  destruct (sv_roomOf w !! c) as [room|]; [|done].
  pose proof (handle_id now raw p) as Hid. destruct (handleMessage now raw p) as [p' outs].
  pose proof (peer_update_ok c p p' w Ep Hid Hok) as Hok1.
  revert Hok1. generalize (set_objects (<[c:=p']> (sv_peers w)) (sv_rooms w) w). clear Hok Ep Hid.
  clear w p'. generalize (pe_id p). intros i. induction outs as [|o outs IH]; intros w Hok; [done|].
  simpl. apply IH. destruct o; simpl; try done.
  - apply with_room_ok; [apply good_mark|done].
  - apply with_room_ok; [apply good_broadcast|done].
  - rewrite with_room_fst. apply with_room_ok; [apply good_relay|done].
Qed.

Lemma sock_closed_ok now c w : server_ok w → server_ok (sock_closed now c w).
Proof.
  intros Hok. unfold sock_closed. case_bool_decide as Hin; [|done].
  set (w1 := mkWorld _ _ _ _ _ _ _ _ _ _).
  assert (Hok1 : server_ok w1).
  { destruct Hok as (Ho & Hr & (H1 & H2 & H3 & H4 & H5 & H6)). split; [done|]. split; [done|].
    assert (Hlen : Datatypes.S (length (sdel c (sv_live w))) = length (sv_live w)).
    { clear -H2 Hin. induction H2 as [|d l Hd Hl IH]; [by apply not_elem_of_nil in Hin|].
      simpl. destruct (decide (c = d)) as [<-|].
      - f_equal. clear -Hd. induction l as [|e l IH]; [done|]. simpl.
        rewrite decide_False by set_solver. simpl. rewrite IH by set_solver. done.
      - simpl. rewrite IH by set_solver. done. }
    unfold conn_ok. simpl. split; [lia|]. split; [by apply NoDup_sdel|]. split; [lia|].
    split; [|done]. intros d [_ Hd]%elem_of_sdel. auto. }
  destruct (sv_roomOf w !! c) as [room|]; [|done]. apply with_room_ok; [apply good_closed|done].
Qed.

Lemma accept_ok ws ok w : server_ok w → server_ok (accept cfg ws ok w).
Proof.
  intros (Ho & Hr & (H1 & H2 & H3 & H4 & H5 & H6)). unfold accept.
  set (w0 := mkWorld _ (sv_connections w) (sv_live w) _ _ _ _ _ _ _).
  assert (Hok0 : server_ok w0).
  { split; [done|]. split; [done|]. unfold conn_ok. simpl. split; [done|]. split; [done|]. split; [done|].
    split; [intros c Hc; specialize (H4 c Hc); lia|]. split.
    - intros c Hc. destruct (H5 c Hc). split; [done|lia].
    - intros c Hc. specialize (H6 c Hc). lia. }
  destruct (negb ok); [by apply server_ok_say|]. case_decide as Hcap; [by apply server_ok_say|].
  split; [done|]. split; [done|]. unfold conn_ok. simpl.
  split; [rewrite length_app; simpl; lia|]. split; [|split; [lia|]].
  { apply NoDup_snoc; [done|]. intros Hin. specialize (H4 _ Hin). lia. }
  split; [|split].
  - intros c. rewrite elem_of_app, list_elem_of_singleton. intros [Hc| ->]; [specialize (H4 c Hc)|]; lia.
  - intros c. rewrite lookup_insert. destruct (decide (sv_next w = c)) as [<-|].
    + intros _. split; [|lia]. apply eq_None_not_Some. intros Hs. specialize (H6 _ Hs). lia.
    + intros Hc. destruct (H5 c Hc). split; [done|lia].
  - intros c Hc. specialize (H6 c Hc). lia.
Qed.

Lemma sock_changes_ok c ws w : server_ok w → server_ok (sock_changes c ws w).
Proof.
  intros (Ho & Hr & (H1 & H2 & H3 & H4 & H5 & H6)).
  assert (Hi : ids (alter (set_ws ws) c (sv_peers w)) = ids (sv_peers w)).
  { apply map_eq. intros d. rewrite !lookup_fmap, lookup_alter.
    destruct (decide (c = d)) as [->|]; [|done]. by destruct (sv_peers w !! d). }
  split; [|split; [done|]].
  - intros room r Hrm. simpl in *. rewrite Hi. by apply (Ho room).
  - unfold conn_ok, sock_changes. simpl. split; [done|]. split; [done|]. split; [done|]. split; [done|].
    split.
    + intros d Hd. destruct (H5 d) as [Hp Hlt].
      { destruct (sv_socks w !! c) eqn:E; [|done]. rewrite lookup_insert in Hd.
        destruct (decide (c = d)) as [<-|]; [by rewrite E|done]. }
      split; [|done]. apply eq_None_not_Some. rewrite (ids_lookup _ _ d Hi), Hp. by intros [].
    + intros d. rewrite (ids_lookup _ _ d Hi). apply H6.
Qed.

Lemma members_good reason refs (s : rs (S := S)) : sok s →
  sok (disconnect_members reason refs s) ∧
  ids (rs_heap (disconnect_members reason refs s)) = ids (rs_heap s) ∧
  ro_maxPeers (rs_room (disconnect_members reason refs s)) = ro_maxPeers (rs_room s) ∧
  ∀ e, e ∈ rs_out (disconnect_members reason refs s) → e ∈ rs_out s ∨ is_closed e = false.
Proof.
  revert s. induction refs as [|ref refs IH]; intros s Hs; simpl.
  { split; [done|]. split; [done|]. split; [done|]. auto. }
  pose proof (on_peer_ok ref (disconnect Normal reason) s (disconnect_id _ _) Hs) as H1.
  destruct (on_peer_ids ref (disconnect Normal reason) s (disconnect_id _ _)) as [Hi Hr].
  destruct (IH _ H1) as (H2 & H3 & H4 & H5). split; [done|]. split; [congruence|]. split; [congruence|].
  intros e He. destruct (H5 e He) as [Hin|]; [|by right]. unfold on_peer in Hin.
  destruct (rs_heap s !! ref) as [p|]; [|by left]. destruct (disconnect Normal reason p) as [[p' out] b].
  simpl in Hin. apply elem_of_app in Hin as [|Hin]; [by left|right].
  by apply list_elem_of_fmap in Hin as (x & -> & _).
Qed.

Lemma disconnectAll_ok reason w : server_ok w → server_ok (disconnectAll reason w).
Proof.
  intros (Ho & Hr & Hc). unfold disconnectAll. generalize (mvals (sv_registry w)). intros rooms.
  assert (Hf : objs_ok w ∧ conn_ok w) by done. clear Ho Hr Hc.
  assert (Hend : ∀ w0, objs_ok w0 ∧ conn_ok w0 → server_ok (set_registry [] w0)).
  { intros w0 [Ho0 Hc0]. split; [done|]. split; [|done]. split; [apply mwf_nil|]. simpl.
    split; [lia|done]. }
  apply Hend. revert w Hf. induction rooms as [|room rooms IH]; intros w [Ho Hc]; [done|].
  simpl. apply IH.
  destruct (dispose_spec room (λ s, dispose (disconnect_members reason (getPeers (rs_room s)) s)) w)
    as (Hw & Hi & Ho' & _); [|done|split; [done|by apply (conn_ok_same w)]].
  intros s Hs. destruct (members_good reason (getPeers (rs_room s)) s Hs) as (H1 & H2 & H3 & H4).
  destruct (dispose_good _ H1) as (G1 & G2 & G3 & G4 & G5).
  split; [done|]. split; [congruence|]. split; [done|]. split; [congruence|]. by rewrite G5.
Qed.

Lemma heartbeat_ok now w : server_ok w → server_ok (heartbeat cfg now w).
Proof.
  intros Hok. unfold heartbeat. generalize (mvals (sv_registry w)). intros rooms.
  revert w Hok. induction rooms as [|room rooms IH]; intros w Hok; [done|]. simpl. apply IH.
  apply with_room_ok; [|done]. intros s Hs. unfold beat_room. by apply good_beat.
Qed.

Lemma server_step_ok now op w : server_ok w → server_ok (server_step cfg now op w).
Proof.
  intros Hok. destruct op as [ws ok|c auth|c ice|c raw|c|c ws| |room|roomId peerId reason|]; simpl.
  - by apply accept_ok.
  - by apply authenticated_ok.
  - by apply ice_done_ok.
  - by apply on_frame_ok.
  - by apply sock_closed_ok.
  - by apply sock_changes_ok.
  - by apply heartbeat_ok.
  - apply with_room_ok; [|done]. apply (good_comp (fire now ro_idleTimer) (fire now ro_durationTimer)).
    + exact (good_fire now true).
    + exact (good_fire now false).
  - destruct (mget roomId (sv_registry w)) as [room|]; [|done]. rewrite with_room_fst.
    apply with_room_ok; [apply good_kick|done].
  - by apply disconnectAll_ok.
Qed.

Lemma server_ok_new : server_ok (newWorld (S := S)).
Proof.
  split; [by intros room r|]. split; [split; [apply mwf_nil|]; split; simpl; [lia|done]|].
  unfold conn_ok. simpl. split; [done|]. split; [constructor|]. split; [lia|].
  split; [by intros c ?%not_elem_of_nil|]. split; by intros c [].
Qed.

Lemma server_run_ok ops w : server_ok w → server_ok (server_run cfg ops w).
Proof.
  revert w. induction ops as [|o ops IH]; intros w Hok; [done|]. simpl.
  apply IH. by apply server_step_ok.
Qed.
End invariant.

(** C37: The server's invariant, under any interleaving of connections, suspended
    handlers, frames, socket failures, timers, heartbeats, kicks and shutdown.
    The connection count is the number of accepted sockets that have not
    closed and never exceeds its cap; the registry never holds more rooms than
    its cap, nor a closed room, nor a room under a foreign id; and every
    registered room has at most [maxPeersPerRoom] members, so that the server
    has at most the product of the two caps. *)
Theorem server_invariant {S : Type} `{WebSocketLaws S} (cfg : ServerConfig)
    (ops : list (Z * server_op (S := S))) :
  let w := server_run cfg ops newWorld in
  sv_connections w = Z.of_nat (length (sv_live w)) ∧
  sv_connections w ≤ Z.max 0 (cf_maxConnections cfg) ∧
  Z.of_nat (msize (sv_registry w)) ≤ Z.max 0 (cf_maxRooms cfg) ∧
  (∀ id room, mget id (sv_registry w) = Some room → ∃ r, sv_rooms w !! room = Some r ∧
     ro_id r = id ∧ (ro_state r = Creating ∨ ro_state r = Active) ∧ room_ok (ids (sv_peers w)) r) ∧
  ∀ m, o_maxPeers (cf_room cfg) = Some m → 0 ≤ m →
    totalPeers w ≤ Z.max 0 (cf_maxRooms cfg) * m.
Proof.
  destruct (server_run_ok cfg ops newWorld (server_ok_new cfg)) as (Ho & Hr & Hc).
  simpl. set (w := server_run cfg ops newWorld) in *. clearbody w.
  destruct Hc as (H1 & _ & H3 & _), Hr as (Hwf & Hsz & Hreg).
  split; [done|]. split; [done|]. split; [done|]. split.
  - intros id room Hm. destruct (Hreg id room Hm) as (r & Hrm & Hid & Hst). exists r.
    destruct (Ho room r Hrm) as (Hok & Hnc & _). split; [done|]. split; [done|]. split; [|done].
    destruct (ro_state r); try done; auto.
  - intros m Hm Hm0.
    assert (Hb : totalPeers w ≤ Z.of_nat (msize (sv_registry w)) * m); [|nia].
    unfold totalPeers, mvals, msize. revert Hreg Hwf. generalize (sv_registry w).
    intros reg. unfold mwf. induction reg as [|[id room] reg IH]; intros Hreg Hwf; simpl; [lia|].
    cbn [fmap list_fmap fst] in Hwf. apply NoDup_cons in Hwf as [Hni Hnd].
    destruct (Hreg id room) as (r & Hrm & _); [simpl; by rewrite decide_True|].
    unfold room_count at 1. rewrite Hrm.
    destruct (Ho room r Hrm) as (Hok & _ & Hmax). pose proof (rk_cap _ _ Hok m) as Hcap.
    rewrite Hmax in Hcap. specialize (Hcap Hm).
    assert (IH' := IH ltac:(intros i q Hq; apply Hreg; simpl; rewrite decide_False; [done|];
      intros ->; apply Hni; apply mget_elem in Hq; apply list_elem_of_fmap; by exists (id, q)) Hnd).
    cbn [foldr snd] in IH'. change (list_fmap (jsstr * nat)%type nat snd reg) with (reg.*2). lia.
Qed.

(** Authentication.  A resolved identity always has a non-empty room and, unless
    the server assigned it, a non-empty peer id; without an authentication
    callback both have at most 256 code units and no role; with one, the
    callback saw the query token, or, when that is absent or empty, the trimmed
    bearer token; and a failure never carries anything of what the callback
    returned or threw. *)
Theorem resolve_sound (auth : option (jsstr → result unit json)) uuid req :
  match resolve auth uuid req with
  | AuthOk a =>
      a_roomId a ≠ [] ∧ (uuid = None → a_peerId a ≠ []) ∧ (∀ u, uuid = Some u → a_peerId a = u) ∧
      (auth = None → (length (a_roomId a) ≤ 256)%nat ∧ a_role a = [] ∧ a_metadata a = None ∧
                     q_roomId req = Some (a_roomId a)) ∧
      (∀ f, auth = Some f → ∃ v a0, f (get_token req) = Ok v ∧ parse_payload v = Some a0 ∧
                                   a_roomId a = a_roomId a0 ∧ a_role a = a_role a0)
  | AuthFail code reason =>
      code = PolicyViolation ∧ reason ∈ [AuthFailed; InvalidAuthPayload; MissingRoomOrPeer]
  end.
Proof.
  unfold resolve. destruct auth as [f|].
  - destruct (f (get_token req)) as [v|] eqn:Ef; [|split; [done|set_solver]].
    destruct (parse_payload v) as [a0|] eqn:Ep; [|split; [done|set_solver]]. simpl.
    assert (Hne : a_roomId a0 ≠ [] ∧ a_peerId a0 ≠ []).
    { unfold parse_payload in Ep. repeat (case_hyp Ep; try done); by simplify_eq/=. }
    split; [apply Hne|]. split; [by intros ->; apply Hne|]. split; [by intros u ->|]. split; [done|].
    intros f' [= <-]. exists v, a0. done.
  - destruct (q_roomId req) as [[|r0 r]|] eqn:Er; try (split; [done|set_solver]).
    destruct (q_peerId req) as [[|p0 p]|] eqn:Ep; try (split; [done|set_solver]).
    case_decide as Hl; [|split; [done|set_solver]]. simpl.
    split; [done|]. split; [by intros ->|]. split; [by intros u ->|]. split; [|done].
    intros _. split; [apply Hl|done].
Qed.

(** * The heartbeat *)

Section heartbeat.
Context {S : Type} `{WebSocketLaws S}.
Implicit Types (s : rs (S := S)).

(** Proofs of life, and who has a socket that is not open. *)
Abbreviation pongs h := (pe_lastPong <$> h).

Lemma on_peer_pongs ref f s :
  (∀ p, pe_lastPong (f p).1.1 = pe_lastPong p) → pongs (rs_heap (on_peer ref f s).1) = pongs (rs_heap s).
Proof.
  intros Hf. unfold on_peer. destruct (rs_heap s !! ref) as [p|] eqn:E; [|done].
  specialize (Hf p). destruct (f p) as [[p' out] threw]. simpl in *.
  rewrite fmap_insert, Hf. apply insert_id. by rewrite lookup_fmap, E.
Qed.

Lemma send_pong msg (p : Peer S) : pe_lastPong (send msg p).1.1 = pe_lastPong p.
Proof. apply send_same. Qed.

Lemma disconnect_pong code reason (p : Peer S) : pe_lastPong (disconnect code reason p).1.1 = pe_lastPong p.
Proof. apply disconnect_same. Qed.

Lemma sendToAll_pongs now msg ex s : pongs (rs_heap (_sendToAll now msg ex s).1) = pongs (rs_heap s).
Proof.
  unfold _sendToAll. set (s1 := on_room _ s). change (rs_heap s) with (rs_heap s1).
  generalize (ro_peers (rs_room s1)). intros ps. clearbody s1. revert s1.
  induction ps as [|[id ref] ps IH]; intros s1; simpl; [done|].
  case_bool_decide; [apply IH|].
  pose proof (on_peer_pongs ref (send msg) s1 (send_pong _)) as Hp.
  destruct (on_peer ref (send msg) s1) as [s2 threw]. simpl in Hp. destruct threw.
  - specialize (IH (emit (EvPeerError id) s2)).
    destruct (send_loop msg ex ps (emit _ s2)) as [s3 failed]. simpl in *. congruence.
  - rewrite IH. done.
Qed.

Lemma removePeer_pongs now id s : pongs (rs_heap (removePeer now id s)) = pongs (rs_heap s).
Proof.
  unfold removePeer. destruct (getPeer id (rs_room s)) as [ref|]; [|done].
  destruct (_ && _); [done|]. simpl. unfold broadcastExcept. by rewrite !sendToAll_pongs.
Qed.

Lemma remove_pongs now id code reason s :
  pongs (rs_heap (disconnectAndRemove now id code reason s).1) = pongs (rs_heap s).
Proof.
  unfold disconnectAndRemove. destruct (getPeer id (rs_room s)) as [ref|]; [|done].
  pose proof (on_peer_pongs ref (disconnect code reason) s (disconnect_pong _ _)) as Hp.
  destruct (on_peer ref _ s) as [s1 threw]. simpl in Hp. destruct threw; [done|]. simpl.
  by rewrite removePeer_pongs.
Qed.

(** One beat of a member: membership of everybody after it. *)
Lemma beat_one now deadline id ref p s :
  sok s → getPeer id (rs_room s) = Some ref → rs_heap s !! ref = Some p →
  let s1 := if negb (isAlive deadline p)
            then (disconnectAndRemove now (pe_id p) GoingAway HeartbeatTimeout s).1
            else (on_peer ref (λ p, (ping p, false)) s).1 in
  sok s1 ∧ pongs (rs_heap s1) = pongs (rs_heap s) ∧
  ∀ i, getPeer i (rs_room s1) =
       if decide (i = id ∧ pe_lastPong p < deadline) then None else getPeer i (rs_room s).
Proof.
  intros Hok Hg Hp. destruct (member_heap s id ref Hok Hg) as (q & Hq & Hid).
  assert (q = p) as -> by congruence.
  unfold isAlive. destruct (bool_decide_reflect (deadline ≤ pe_lastPong p)) as [Ha|Ha]; simpl.
  - destruct (good_ping ref s Hok) as (Hok1 & _). split; [done|].
    assert (Hpid : ∀ p : Peer S, pe_id (ping p, false).1.1 = pe_id p) by (intros; apply send_same).
    split; [apply on_peer_pongs; intros; apply send_same|]. intros i.
    destruct (on_peer_ids ref (λ p, (ping p, false)) s Hpid) as [_ ->].
    rewrite decide_False; [done|lia].
  - destruct (good_remove now (pe_id p) GoingAway HeartbeatTimeout s Hok) as (Hok1 & _).
    split; [done|]. split; [apply remove_pongs|]. intros i. rewrite Hid.
    unfold disconnectAndRemove. rewrite Hg.
    pose proof (on_peer_ok ref (disconnect GoingAway HeartbeatTimeout) s (disconnect_id _ _) Hok) as Hok2.
    destruct (on_peer_ids ref (disconnect GoingAway HeartbeatTimeout) s (disconnect_id _ _)) as [_ Hroom].
    pose proof (on_peer_disconnect ref GoingAway HeartbeatTimeout s) as Hthrew.
    destruct (on_peer ref _ s) as [s2 threw]. simpl in *. rewrite Hthrew. simpl.
    assert (Hg2 : getPeer id (rs_room s2) = Some ref) by (by rewrite Hroom).
    destruct (removePeer_spec now id ref s2 Hg2 (member_active s2 id ref Hok2 Hg2)) as (_ & Hrem & _).
    unfold getPeer. rewrite Hrem, mget_mdel, Hroom.
    destruct (decide (i = id)) as [->|]; [rewrite decide_True; [done|]; split; [done|lia]|].
    rewrite decide_False by (by intros []). done.
Qed.

Definition silent (deadline : Z) (h : gmap nat Z) (ref : nat) : bool :=
  match h !! ref with Some t => bool_decide (t < deadline) | None => false end.

Lemma beat_members_spec now deadline refs s :
  NoDup refs → sok s → (∀ ref, ref ∈ refs → ∃ id, getPeer id (rs_room s) = Some ref) →
  ∀ i, getPeer i (rs_room (beat_members now deadline refs s)) =
    match getPeer i (rs_room s) with
    | Some ref => if shas ref refs && silent deadline (pongs (rs_heap s)) ref then None else Some ref
    | None => None
    end.
Proof.
  intros Hnd. revert s. induction Hnd as [|ref refs Hni Hnd IH]; intros s Hok Hmem i.
  { simpl. by destruct (getPeer i (rs_room s)). }
  cbn [beat_members]. destruct (Hmem ref) as [id Hg]; [left|].
  destruct (member_heap s id ref Hok Hg) as (p & Hp & Hid). rewrite Hp.
  destruct (beat_one now deadline id ref p s Hok Hg Hp) as (Hok1 & Hpong & Hget).
  set (s1 := if negb _ then _ else _) in *. clearbody s1.
  rewrite IH; [|done|].
  - rewrite Hget, Hpong. destruct (decide (i = id ∧ pe_lastPong p < deadline)) as [[-> Hlt]|Hno].
    + rewrite Hg. replace (shas ref (ref :: refs)) with true by (symmetry; apply shas_true; left).
      unfold silent. rewrite lookup_fmap, Hp. simpl. by rewrite bool_decide_true.
    + destruct (getPeer i (rs_room s)) as [q|] eqn:Eq; [|done].
      destruct (decide (q = ref)) as [->|Hne].
      * assert (i = id) as -> by exact (member_inj s i id ref Hok Eq Hg).
        replace (shas ref refs) with false by (symmetry; by apply shas_false).
        replace (shas ref (ref :: refs)) with true by (symmetry; apply shas_true; left).
        unfold silent. rewrite lookup_fmap, Hp. simpl. rewrite bool_decide_false; [done|tauto].
      * replace (shas q (ref :: refs)) with (shas q refs); [done|].
        destruct (shas q refs) eqn:E; symmetry.
        -- apply shas_true in E. apply shas_true. by right.
        -- apply shas_false in E. apply shas_false. by intros [|]%elem_of_cons.
  - intros q Hq. destruct (Hmem q) as [j Hj]; [by right|]. exists j. rewrite Hget.
    rewrite decide_False; [done|]. intros [-> _]. congruence.
Qed.

(** The heartbeat.  A beat removes exactly the members whose last sign of life
    is older than the timeout; the others stay, and no member that was heard
    of in time is ever pruned. *)
Theorem heartbeat_prunes now deadline s id ref p
  (Hok : room_ok (ids (rs_heap s)) (rs_room s)) (Hmember : getPeer id (rs_room s) = Some ref)
  (Hpeer : rs_heap s !! ref = Some p) :
  getPeer id (rs_room (beat_room now deadline s)) = (if isAlive deadline p then Some ref else None) ∧
  (∀ i, getPeer i (rs_room s) = None → getPeer i (rs_room (beat_room now deadline s)) = None).
Proof.
  assert (Hin : ∀ q, q ∈ getPeers (rs_room s) → ∃ i, getPeer i (rs_room s) = Some q).
  { intros q Hq. unfold getPeers, mvals in Hq. apply list_elem_of_fmap in Hq as ([i q'] & -> & Hq).
    exists i. apply elem_mget; [apply (rk_wf _ _ Hok)|done]. }
  pose proof (beat_members_spec now deadline (getPeers (rs_room s)) s (refs_nodup _ _ Hok) Hok Hin) as Hb.
  unfold beat_room. split; [|intros i Hi; by rewrite Hb, Hi].
  rewrite Hb, Hmember.
  replace (shas ref (getPeers (rs_room s))) with true.
  2: { symmetry. apply shas_true, list_elem_of_fmap. exists (id, ref). split; [done|by apply mget_elem]. }
  unfold silent, isAlive. rewrite lookup_fmap, Hpeer. simpl.
  destruct (bool_decide_reflect (pe_lastPong p < deadline));
    destruct (bool_decide_reflect (deadline ≤ pe_lastPong p)); try done; lia.
Qed.
End heartbeat.

Lemma heartbeat_prunes_witness :
  getPeer (js "a") (rs_room (beat_room 70000 10000 rooms.ab)) = None ∧
  getPeer (js "a") (rs_room (beat_room 70000 (-1) rooms.ab)) = Some 0%nat.
Proof.
  assert (Hm : getPeer (js "a") (rs_room rooms.ab) = Some 0%nat) by (vm_compute; reflexivity).
  assert (Hp : ∃ p, rs_heap rooms.ab !! 0%nat = Some p ∧ pe_lastPong p = 0)
    by (eexists; split; vm_compute; reflexivity).
  destruct Hp as (p & Hp & Ht). split.
  - rewrite (proj1 (heartbeat_prunes 70000 10000 rooms.ab (js "a") 0 p ab_ok Hm Hp)).
    unfold isAlive. rewrite Ht. reflexivity.
  - rewrite (proj1 (heartbeat_prunes 70000 (-1) rooms.ab (js "a") 0 p ab_ok Hm Hp)).
    unfold isAlive. rewrite Ht. reflexivity.
Defined.

(** * Concrete servers *)

Module servers.
Definition cfg (hook : bool) : ServerConfig :=
  newConfig (Some 10) (Some 2) (Some 100) (Some 4) None None hook None (λ _, true).
Definition join (peerId : jsstr) : AuthResult := AuthOk (mkAuth (js "r") peerId [] None).
Definition op := server_op (S := TestSocket).
Definition good : op := OpAccept good_socket true.
Definition no_ice : result unit (option (list IceServer)) := Ok None.
(** [a], [b] and [c] are connections 0, 1 and 2. *)
Definition connect (c : nat) (peerId : jsstr) : list (Z * op) :=
  [(0, good); (0, OpAuth c (join peerId))].
Definition registered (w : World (S := TestSocket)) : list jsstr := mkeys (sv_registry w).
Definition closes (c : nat) (w : World (S := TestSocket)) : list jsstr :=
  omap (λ o, match o with
             | SvClose d _ r | SvRoom _ (PeerOut d (CloseWs _ r)) => if decide (d = c) then Some r else None
             | _ => None end) (sv_out w).
Definition created (w : World (S := TestSocket)) : list jsstr :=
  omap (λ o, match o with SvRoomCreated r => Some r | _ => None end) (sv_out w).
Definition roomsClosed (w : World (S := TestSocket)) : list jsstr :=
  omap (λ o, match o with SvRoomClosed r => Some r | _ => None end) (sv_out w).
End servers.
Import servers.

Lemma server_invariant_witness :
  totalPeers (server_run (cfg false) (connect 0 (js "a") ++ connect 1 (js "b")) newWorld) = 2
  ∧ totalPeers (server_run (cfg false) (connect 0 (js "a") ++ connect 1 (js "b")) newWorld) ≤ 2 * 4.
Proof.
  split; [by vm_compute|].
  destruct (server_invariant (cfg false) (connect 0 (js "a") ++ connect 1 (js "b")))
    as (_ & _ & _ & _ & Ht).
  exact (Ht 4 eq_refl ltac:(lia)).
Defined.

(** The rollback of a join looks its room up by id, without the identity guard
    that the [Closed] listener has.  Connection 0 creates the room and waits for
    its ICE servers; 1 joins the room and leaves, which closes it; 2 creates a
    fresh room under the same id and waits; now 0 resumes, finds its room closed, and
    the rollback disposes of the room of 2, whose own join is then refused. *)
Theorem rollback_hits_fresh_room :
  let w := server_run (cfg true)
    (connect 0 (js "a") ++ connect 1 (js "b") ++
     [(1, OpIce 1 no_ice); (2, OpClosed 1)] ++ connect 2 (js "c")) newWorld in
  let w' := server_run (cfg true) [(3, OpIce 0 no_ice); (4, OpIce 2 no_ice)] w in
  registered w = [js "r"] ∧ registered w' = [] ∧ closes 2 w' = [RoomClosing] ∧
  (** without the stale connection, the same join succeeds *)
  registered (server_run (cfg true) [(4, OpIce 2 no_ice)] w) = [js "r"].
Proof.
  split; [vm_compute; reflexivity|]. split; [vm_compute; reflexivity|].
  split; vm_compute; reflexivity.
Qed.

(** A room can live and die without ever being announced: [RoomCreated] is
    emitted by the connection that made the room, after its own join.  If
    another connection joins while that one waits, and that one then fails, the room
    is in use, and its end is announced, but its creation never is. *)
Theorem room_created_lost :
  let w := server_run (cfg true)
    (connect 0 (js "a") ++ connect 1 (js "b") ++ [(1, OpIce 1 no_ice); (2, OpIce 0 (Throw ()))]) newWorld in
  let w' := server_run (cfg true) [(3, OpClosed 1)] w in
  registered w = [js "r"] ∧ created w' = [] ∧ roomsClosed w' = [js "r"].
Proof. split; [vm_compute; reflexivity|]. split; vm_compute; reflexivity. Qed.

(** A kicked peer keeps talking.  Kicking removes the peer at once, but it stays
    admitted: until its socket has really closed, the frames it sends are still
    relayed to the members under its id. *)
Theorem kicked_peer_still_relays :
  let w := server_run (cfg false)
    (connect 0 (js "a") ++ connect 1 (js "b") ++ [(1, OpKick (js "r") (js "a") None)]) newWorld in
  let w' := server_run (cfg false) [(2, OpFrame 0 signal_frame)] w in
  (∃ r, sv_rooms w !! 0%nat = Some r ∧ getPeerIds r = [js "b"]) ∧
  ∃ out, sv_out w' = sv_out w ++ out ∧ out = [SvRoom 0 (PeerOut 1 (Sent (SSignal (js "a") (Some JNull))))].
Proof.
  split; [eexists; split; [vm_compute; reflexivity|vm_compute; reflexivity]|].
  eexists. split; [|reflexivity]. vm_compute. reflexivity.
Qed.
