(* ===== verification/ServerLife.v ===== *)
(** The life of the signaling server: [start], [stop], the heartbeat's timer, the health
    endpoint and the counters (packages/signaling/src/SignalingServer.ts,
    HeartbeatMonitor.ts), over its connections and rooms (Signaling.v).

    The HTTP and WebSocket servers are the platform's: that one listens, fails to or has
    closed are steps.  Dates are positive. *)

From S2P Require Import Prelude JsMap Peer Room Signaling.

(** What the promises of [start] and [stop] settle to. *)
Inductive life_answer := Started | StartThrew | Stopped | StopThrew.
#[export] Instance life_answer_eq_dec : EqDecision life_answer.
Proof. solve_decision. Defined.

(** Where a call of [stop] waits: for the WebSocket server, for the HTTP server. *)
Inductive stop_stage := AtWss | AtHttp (server : nat).
#[export] Instance stop_stage_eq_dec : EqDecision stop_stage.
Proof. solve_decision. Defined.

(** A health endpoint: the server it is on, and its path. *)
Record HealthEndpoint := mkHealth { he_server : nat; he_path : jsstr }.

Section life.
Context {S : Type} `{WebSocket S} (cfg : ServerConfig).
(** [opts.server] was given; the address of a server of the application; [opts.port]. *)
Context (external : bool) (port_opt : option Z).

Abbreviation world := (World (S := S)).

(** [sl_http]: the HTTP servers that were made, each with its port while it listens;
    [sl_ownServer] is one of them.  [sl_starting]: the servers that calls of [start] wait
    for; [sl_stopping]: the calls of [stop] that wait. *)
Record SignalingServer := mkLife {
  sl_wss : bool;
  sl_http : list (option Z);
  sl_ownServer : option nat;
  sl_startedAt : Z;
  sl_stopped : bool;
  sl_timer : bool;
  sl_router : bool;
  sl_health : list HealthEndpoint;
  sl_starting : list nat;
  sl_stopping : list stop_stage;
  sl_world : world;
  sl_answers : list life_answer;
}.
Implicit Types (s : SignalingServer) (w : world).

Definition newSignalingServer : SignalingServer :=
  mkLife false [] None 0 false false true [] [] [] newWorld [].

Definition answer (a : life_answer) s : SignalingServer :=
  mkLife (sl_wss s) (sl_http s) (sl_ownServer s) (sl_startedAt s) (sl_stopped s) (sl_timer s) (sl_router s) (sl_health s)
    (sl_starting s) (sl_stopping s) (sl_world s) (sl_answers s ++ [a]).
Definition set_servers (wss : bool) (own : option nat) (startedAt : Z) s : SignalingServer :=
  mkLife wss (sl_http s) own startedAt (sl_stopped s) (sl_timer s) (sl_router s) (sl_health s)
    (sl_starting s) (sl_stopping s) (sl_world s) (sl_answers s).
Definition set_http (l : list (option Z)) s : SignalingServer :=
  mkLife (sl_wss s) l (sl_ownServer s) (sl_startedAt s) (sl_stopped s) (sl_timer s) (sl_router s) (sl_health s)
    (sl_starting s) (sl_stopping s) (sl_world s) (sl_answers s).
Definition set_flags (stopped timer router : bool) s : SignalingServer :=
  mkLife (sl_wss s) (sl_http s) (sl_ownServer s) (sl_startedAt s) stopped timer router (sl_health s)
    (sl_starting s) (sl_stopping s) (sl_world s) (sl_answers s).
Definition set_health (l : list HealthEndpoint) s : SignalingServer :=
  mkLife (sl_wss s) (sl_http s) (sl_ownServer s) (sl_startedAt s) (sl_stopped s) (sl_timer s) (sl_router s) l
    (sl_starting s) (sl_stopping s) (sl_world s) (sl_answers s).
Definition set_waiting (starting : list nat) (stopping : list stop_stage) s : SignalingServer :=
  mkLife (sl_wss s) (sl_http s) (sl_ownServer s) (sl_startedAt s) (sl_stopped s) (sl_timer s) (sl_router s) (sl_health s)
    starting stopping (sl_world s) (sl_answers s).
Definition set_world w s : SignalingServer :=
  mkLife (sl_wss s) (sl_http s) (sl_ownServer s) (sl_startedAt s) (sl_stopped s) (sl_timer s) (sl_router s) (sl_health s)
    (sl_starting s) (sl_stopping s) w (sl_answers s).

(** ** The heartbeat's timer *)

Definition hb_start s : SignalingServer :=
  if sl_timer s then s else set_flags (sl_stopped s) true (sl_router s) s.
Definition hb_stop s : SignalingServer :=
  if sl_timer s then set_flags (sl_stopped s) false (sl_router s) s else s.
Definition hb_tick (now : Z) s : SignalingServer :=
  if sl_timer s then set_world (heartbeat cfg now (sl_world s)) s else s.

(** ** [start] *)

(** From the listening server on: the date is taken before [this.wss] is looked at. *)
Definition listening (now : Z) s : SignalingServer :=
  let s1 := set_servers (sl_wss s) (sl_ownServer s) now s in
  if sl_wss s1 then answer Started (hb_start s1) else answer StartThrew s1.

Definition start (now : Z) s : SignalingServer :=
  if sl_wss s then answer StartThrew s
  else
    let s1 := set_flags false (sl_timer s) (sl_router s) s in
    if external then listening now (set_servers true (sl_ownServer s1) (sl_startedAt s1) s1)
    else
      let own := length (sl_http s1) in
      set_waiting (sl_starting s1 ++ [own]) (sl_stopping s1)
        (set_servers true (Some own) (sl_startedAt s1) (set_http (sl_http s1 ++ [None]) s1)).

(** The HTTP server of a [start] listens on a port, or could not. *)
Definition listened (now : Z) (own : nat) (port : option Z) s : SignalingServer :=
  if bool_decide (own ∈ sl_starting s) then
    let s1 := set_waiting (filter (λ i, i ≠ own) (sl_starting s)) (sl_stopping s) s in
    match port with
    | Some p => listening now (set_http (<[own := Some p]> (sl_http s1)) s1)
    | None => answer StartThrew (set_servers false None (sl_startedAt s1) s1)
    end
  else s.

(** ** [stop] *)

Definition stop s : SignalingServer :=
  if sl_stopped s then answer Stopped s
  else
    let s1 := hb_stop (set_flags true (sl_timer s) (sl_router s) s) in
    let s2 := set_flags (sl_stopped s1) (sl_timer s1) false s1 in
    set_waiting (sl_starting s2) (sl_stopping s2 ++ [AtWss])
      (set_world (disconnectAll ServerStopping (sl_world s2)) s2).

(** The rest of it: the health endpoints, and what says that a server runs. *)
Definition stop_end s : SignalingServer :=
  answer Stopped (set_servers false None 0 (set_health [] s)).

(** What the call [i] of [stop] waits for has closed, or its closing failed; without a
    WebSocket server the first wait is over at once. *)
Definition closed (i : nat) (ok : bool) s : SignalingServer :=
  match sl_stopping s !! i with
  | None => s
  | Some stage =>
      let rest := take i (sl_stopping s) ++ drop (Datatypes.S i) (sl_stopping s) in
      if negb ok then answer StopThrew (set_waiting (sl_starting s) rest s)
      else
        match stage, sl_ownServer s with
        | AtWss, Some own => set_waiting (sl_starting s) (<[i := AtHttp own]> (sl_stopping s)) s
        | AtWss, None => stop_end (set_waiting (sl_starting s) rest s)
        | AtHttp own, _ => stop_end (set_waiting (sl_starting s) rest (set_http (<[own := None]> (sl_http s)) s))
        end
  end.

(** ** What is asked of the server *)

Record ServerStats := mkStats { st_rooms : nat; st_peers : Z; st_uptime : Z }.

Definition getStats (now : Z) s : ServerStats :=
  mkStats (msize (sv_registry (sl_world s))) (totalPeers (sl_world s))
    (if decide (0 < sl_startedAt s) then now - sl_startedAt s else 0).
Definition port s : option Z :=
  match own ← sl_ownServer s; mjoin (sl_http s !! own) with
  | Some p => Some p
  | None => if decide (0 < sl_startedAt s) then Some (default 3000 port_opt) else None
  end.
Definition getRoom (roomId : jsstr) s : option nat := mget roomId (sv_registry (sl_world s)).

Definition attachHealthEndpoint (server : nat) (path : option jsstr) s : SignalingServer :=
  set_health (sl_health s ++ [mkHealth server (default (js "/health") path)]) s.

(** [url.split('?')[0]]. *)
Fixpoint url_path (url : jsstr) : jsstr :=
  match url with
  | [] => []
  | c :: url' => if decide (c = 63) then [] else c :: url_path url'
  end.
(** The bodies a request to a server is answered with. *)
Definition health_request (now : Z) (server : nat) (method : jsstr) (url : option jsstr) s : list ServerStats :=
  (λ _, getStats now s) <$>
    filter (λ e, he_server e = server ∧ method = js "GET" ∧ Some (he_path e) = (url_path <$> url)) (sl_health s).

(** ** Steps *)

Inductive life_op :=
| LStart
| LStop
| LListened (own : nat) (port : option Z)
| LClosed (i : nat) (ok : bool)
| LHealth (server : nat) (path : option jsstr)
| LTick
| LWorld (op : server_op (S := S)).

(** Connections, frames, timers and so on; a connection comes in only while the
    WebSocket server is there. *)
Definition world_op (now : Z) (op : server_op (S := S)) s : SignalingServer :=
  match op with
  | OpStop | OpHeartbeat => s
  | OpAccept _ _ => if sl_wss s then set_world (server_step cfg now op (sl_world s)) s else s
  | _ => set_world (server_step cfg now op (sl_world s)) s
  end.

Definition life_step (now : Z) (op : life_op) s : SignalingServer :=
  match op with
  | LStart => start now s
  | LStop => stop s
  | LListened own port => listened now own port s
  | LClosed i ok => closed i ok s
  | LHealth server path => attachHealthEndpoint server path s
  | LTick => hb_tick now s
  | LWorld op => world_op now op s
  end.
Definition life_run (ops : list (Z * life_op)) s : SignalingServer :=
  fold_left (λ s o, life_step o.1 o.2 s) ops s.
End life.

Arguments SignalingServer : clear implicits.
Arguments life_op : clear implicits.
Arguments newSignalingServer {S}.

(** * The life cycle *)

(** What a server promises an application that waits for the promises of [start] and
    [stop] before it calls either again. *)
Inductive phase :=
| Down (stopped : bool)      (* does not run; [stop] was called since the last [start] *)
| Starting
| Up
| Stopping (waits : nat)     (* what is still to close, the last wait included *)
| Wedged.                    (* a [stop] failed *)
#[export] Instance phase_eq_dec : EqDecision phase.
Proof. solve_decision. Defined.

Record Life := mkLifeCycle { lf_phase : phase; lf_health : list HealthEndpoint; lf_answers : list life_answer }.

Section spec.
Context {S : Type} (external : bool).

Definition turn (ph : phase) (answers : list life_answer) (l : Life) : Life :=
  mkLifeCycle ph (lf_health l) (lf_answers l ++ answers).
Definition ended (l : Life) : Life := mkLifeCycle (Down true) [] (lf_answers l ++ [Stopped]).

Definition life (l : Life) (op : life_op S) : Life :=
  match op, lf_phase l with
  | LStart, Down _ => if external then turn Up [Started] l else turn Starting [] l
  | LStart, ph => turn ph [StartThrew] l
  | LListened _ (Some _), Starting => turn Up [Started] l
  | LListened _ None, Starting => turn (Down false) [StartThrew] l
  | LStop, Down false => turn (Stopping 0) [] l
  | LStop, Up => turn (Stopping (if external then 1 else 2)) [] l
  | LStop, ph => turn ph [Stopped] l
  | LClosed _ false, Stopping _ => turn Wedged [StopThrew] l
  | LClosed _ true, Stopping 2 => turn (Stopping 1) [] l
  | LClosed _ true, Stopping _ => ended l
  | LHealth server path, ph => mkLifeCycle ph (lf_health l ++ [mkHealth server (default (js "/health") path)]) (lf_answers l)
  | _, _ => l
  end.
Definition life_spec (ops : list (Z * life_op S)) : Life :=
  fold_left (λ l o, life l o.2) ops (mkLifeCycle (Down false) [] []).

(** A server runs, as far as [port] and [getStats] tell. *)
Definition running (ph : phase) : bool :=
  match ph with Up | Wedged | Stopping 1 | Stopping 2 => true | _ => false end.
Implicit Types (s : SignalingServer S).

(** The HTTP server of a running server. *)
Definition own_ok s : Prop :=
  if external then sl_ownServer s = None
  else ∃ own p, sl_ownServer s = Some own ∧ sl_http s !! own = Some (Some p).

Definition in_phase (ph : phase) s : Prop :=
  sl_timer s = bool_decide (ph = Up) ∧ 0 ≤ sl_startedAt s ∧
  bool_decide (0 < sl_startedAt s) = running ph ∧
  match ph with
  | Down b => sl_wss s = false ∧ sl_ownServer s = None ∧ sl_stopped s = b ∧ sl_starting s = [] ∧ sl_stopping s = []
  | Starting => ∃ own, sl_wss s = true ∧ sl_ownServer s = Some own ∧ sl_http s !! own = Some None
      ∧ sl_stopped s = false ∧ sl_starting s = [own] ∧ sl_stopping s = [] ∧ external = false
  | Up => sl_wss s = true ∧ own_ok s ∧ sl_stopped s = false ∧ sl_starting s = [] ∧ sl_stopping s = []
  | Stopping 0 => sl_wss s = false ∧ sl_ownServer s = None ∧ sl_stopped s = true ∧ sl_starting s = [] ∧ sl_stopping s = [AtWss]
  | Stopping waits => sl_wss s = true ∧ own_ok s ∧ sl_stopped s = true ∧ sl_starting s = []
      ∧ (waits = 1%nat ∧ external = true ∧ sl_stopping s = [AtWss]
         ∨ waits = 2%nat ∧ external = false ∧ sl_stopping s = [AtWss]
         ∨ waits = 1%nat ∧ external = false ∧ ∃ own, sl_ownServer s = Some own ∧ sl_stopping s = [AtHttp own])
  | Wedged => sl_wss s = true ∧ own_ok s ∧ sl_stopped s = true ∧ sl_starting s = [] ∧ sl_stopping s = []
  end.

Record refines (l : Life) s : Prop := {
  rf_phase : in_phase (lf_phase l) s;
  rf_health : sl_health s = lf_health l;
  rf_answers : sl_answers s = lf_answers l;
}.
End spec.

Section refinement.
Context {S : Type} `{WebSocketLaws S} (cfg : ServerConfig) (external : bool) (port_opt : option Z).
Implicit Types (s : SignalingServer S).

(** The application waits for its promises; the platform answers what it was asked;
    dates are positive. *)
Definition calm (now : Z) (op : life_op S) s : Prop :=
  0 < now ∧
  match op with
  | LStart | LStop => sl_starting s = [] ∧ sl_stopping s = []
  | LListened own _ => own ∈ sl_starting s
  | LClosed i ok => (i < length (sl_stopping s))%nat ∧ (ok = false → sl_wss s = true)
  | _ => True
  end.
Inductive calm_run : list (Z * life_op S) → SignalingServer S → Prop :=
| calm_new : calm_run [] newSignalingServer
| calm_step ops s now op :
    calm_run ops s → calm now op s → calm_run (ops ++ [(now, op)]) (life_step cfg external now op s).


(** The cases of a phase, by computation. *)
Ltac phases :=
  unfold in_phase, own_ok in *; cbn in *;
  repeat match goal with
  | Hp : bool_decide _ = true |- _ => apply bool_decide_eq_true in Hp
  | Hp : bool_decide _ = false |- _ => apply bool_decide_eq_false in Hp
  | Hp : _ ∧ _ |- _ => destruct Hp
  | Hp : _ ∨ _ |- _ => destruct Hp
  | Hp : ∃ _, _ |- _ => destruct Hp
  | Hp : _ :: _ = [] |- _ => discriminate Hp
  | Hp : [] = _ :: _ |- _ => discriminate Hp
  end; cbn in *; simplify_eq/=.
Ltac phased :=
  constructor; cbn; rewrite ?app_nil_r; try done; unfold in_phase, own_ok; cbn;
  split_and?; try done; try lia; try (by apply bool_decide_eq_true; lia); try (by apply bool_decide_eq_false; lia);
  try (by do 2 eexists); try (by left); try (by right; left); try (by do 2 right; repeat split; eexists).

Lemma start_refines now l s : 0 < now → sl_starting s = [] → sl_stopping s = [] → refines external l s →
  refines external (life external l (LStart (S:=S))) (start external now s).
Proof.
  intros Hnow Hst Hsp [Hp Hh Ha]. destruct l as [ph hs an], s as [wss http own t st tm ro he sg sp w an']. unfold start, listening, hb_start.
  cbn in *. subst. destruct ph as [b| | |[|[|[|n]]]|]; unfold life; cbn; destruct external; phases; phased.
  eexists. rewrite list_lookup_middle by done. split_and!; done.
Qed.

Lemma stop_refines l s : sl_starting s = [] → sl_stopping s = [] → refines external l s →
  refines external (life external l (LStop (S:=S))) (stop s).
Proof.
  intros Hst Hsp [Hp Hh Ha]. destruct l as [ph hs an], s as [wss http own t st tm ro he sg sp w an']. unfold stop, hb_stop.
  cbn in *. subst. destruct ph as [[]| | |[|[|[|n]]]|]; unfold life; cbn; destruct external; phases; phased.
Qed.

Lemma listened_refines now own port l s : 0 < now → own ∈ sl_starting s → refines external l s →
  refines external (life external l (LListened (S:=S) own port)) (listened now own port s).
Proof.
  intros Hnow Hin [Hp Hh Ha]. unfold listened. rewrite bool_decide_true by done.
  destruct l as [ph hs an], s as [wss http ow t st tm ro he sg sp w an']. unfold listening, hb_start.
  cbn in *. subst. destruct ph as [b| | |[|[|[|n]]]|]; unfold life; cbn; phases; try (by apply elem_of_nil in Hin).
  apply list_elem_of_singleton in Hin as ->. destruct port as [p|]; rewrite filter_cons_False by (by intros []); phased.
  do 2 eexists. split; [done|]. apply list_lookup_insert_eq. by eapply lookup_lt_Some.
Qed.

Lemma closed_refines i ok l s : (i < length (sl_stopping s))%nat → (ok = false → sl_wss s = true) → refines external l s →
  refines external (life external l (LClosed (S:=S) i ok)) (closed i ok s).
Proof.
  intros Hi Hok [Hp Hh Ha]. destruct l as [ph hs an], s as [wss http ow t st tm ro he sg sp w an']. unfold closed, stop_end.
  cbn in *. subst. destruct ph as [b| | |[|[|[|n]]]|]; unfold life; cbn; destruct external, ok; phases; try lia;
    (destruct i; [|lia]); try (by specialize (Hok eq_refl)); cbn; phased.
Qed.

Lemma life_refines now op l s : calm now op s → refines external l s →
  refines external (life external l op) (life_step cfg external now op s).
Proof.
  intros [Hnow Hop] Hl. destruct op as [| |own p|i ok|server path| |op]; cbn [life_step].
  - destruct Hop. by apply start_refines.
  - destruct Hop. by apply stop_refines.
  - by apply listened_refines.
  - destruct Hop. by apply closed_refines.
  - destruct Hl as [Hp Hh Ha]. constructor; cbn; [done|by rewrite Hh|done].
  - unfold hb_tick. destruct (sl_timer s); by destruct Hl.
  - unfold world_op. destruct op; try destruct (sl_wss s); by destruct Hl.
Qed.

Lemma spec_snoc (ops : list (Z * life_op S)) now op :
  life_spec external (ops ++ [(now, op)]) = life external (life_spec external ops) op.
Proof. unfold life_spec. by rewrite fold_left_app. Qed.

Lemma calm_refines ops s : calm_run ops s → refines external (life_spec external ops) s.
Proof. induction 1 as [|ops s now op Hrun IH Hc]; [by repeat split|]. rewrite spec_snoc. by apply life_refines. Qed.

(** Everything that happens to the rooms and connections is a run of Signaling.v. *)
Lemma life_world ops s : calm_run ops s → ∃ ops', sl_world s = server_run cfg ops' newWorld.
Proof.
  induction 1 as [|ops s now op Hrun [ops' IH] Hc]; [by exists []|].
  assert (Hstep : sl_world (life_step cfg external now op s) = sl_world s
    ∨ ∃ o, sl_world (life_step cfg external now op s) = server_step cfg now o (sl_world s)).
  { destruct op as [| |own p|i ok|server path| |op]; cbn [life_step].
    - left. unfold start, listening, hb_start. destruct (sl_wss s); [done|]. destruct external; [|done]. cbn. by destruct (sl_timer s).
    - unfold stop, hb_stop. destruct (sl_stopped s); [by left|]. right. exists OpStop. cbn. by destruct (sl_timer s).
    - left. unfold listened, listening, hb_start. case_bool_decide; [|done]. destruct p; [|done]. cbn.
      destruct (sl_wss s); [|done]. cbn. by destruct (sl_timer s).
    - left. unfold closed, stop_end. destruct (sl_stopping s !! i) as [[|]|]; [| |done]; destruct ok; try done.
      cbn. by destruct (sl_ownServer s).
    - by left.
    - unfold hb_tick. destruct (sl_timer s); [right; by exists OpHeartbeat|by left].
    - unfold world_op. destruct op; try destruct (sl_wss s); try (by left); right; by eexists. }
  destruct Hstep as [->|[o ->]]; [by exists ops'|]. exists (ops' ++ [(now, o)]).
  unfold server_run in *. by rewrite fold_left_app, <- IH.
Qed.

(** The calls of [start] and [stop]. *)
Definition is_call (o : Z * life_op S) : bool := match o.2 with LStart | LStop => true | _ => false end.
Definition calls (ops : list (Z * life_op S)) : nat := length (List.filter is_call ops).
Definition waiting (ph : phase) : nat := match ph with Starting | Stopping _ => 1 | _ => 0 end.

Lemma spec_answers ops : (length (lf_answers (life_spec external ops)) + waiting (lf_phase (life_spec external ops)))%nat = calls ops.
Proof.
  induction ops as [|[now op] ops IH] using rev_ind; [done|]. rewrite spec_snoc. unfold calls in *. rewrite List.filter_app, length_app.
  destruct (life_spec external ops) as [ph hs an]. cbn in IH.
  destruct op as [| |own [p|]|i []|server path| |op], ph as [[]| | |[|[|[|n]]]|]; unfold life; cbn;
    try destruct external; cbn in *; rewrite ?length_app; cbn in *; lia.
Qed.

Lemma phase_waiting ph s : in_phase external ph s → (length (sl_starting s) + length (sl_stopping s))%nat = waiting ph.
Proof. intros Hp. destruct ph as [b| | |[|[|[|n]]]|]; phases; repeat match goal with E : sl_stopping s = _ |- _ => rewrite E | E : sl_starting s = _ |- _ => rewrite E end; try done; lia. Qed.

Lemma phase_port ph s : in_phase external ph s → is_Some (port port_opt s) ↔ running ph = true.
Proof.
  intros Hp. assert (Hs : bool_decide (0 < sl_startedAt s) = running ph) by (by destruct Hp as (_ & _ & ? & _)).
  unfold port. rewrite <- Hs. case_bool_decide as Ht.
  - rewrite decide_True by done. destruct (_ ≫= _); (split; [done|by eexists]).
  - rewrite decide_False by done. split; [|done]. intros [p E]. exfalso.
    destruct ph as [b| | |[|[|[|n]]]|]; cbn in Hs; try (by rewrite bool_decide_false in Hs by lia); phases;
      match goal with E' : sl_ownServer s = _ |- _ => rewrite E' in E end; try done.
    cbn in E. by match goal with E' : sl_http s !! _ = _ |- _ => rewrite E' in E end.
Qed.


(** A list of steps that can be checked from its first on. *)
Fixpoint calm_list (ops : list (Z * life_op S)) s : Prop :=
  match ops with
  | [] => True
  | (now, op) :: ops' => calm now op s ∧ calm_list ops' (life_step cfg external now op s)
  end.
Lemma calm_list_run ops ops' s : calm_run ops s → calm_list ops' s → calm_run (ops ++ ops') (life_run cfg external ops' s).
Proof.
  revert ops s. induction ops' as [|[now op] ops' IH]; intros ops s Hrun; [by rewrite app_nil_r|].
  intros [Hc Hl]. rewrite (cons_middle _ ops ops'), (assoc_L (++)). apply IH; [by apply calm_step|done].
Qed.
End refinement.

(** * Runs *)

Module lives.
Definition op := life_op TestSocket.
Definition run (ops : list op) : SignalingServer TestSocket :=
  life_run (servers.cfg false) false (imap (λ i o, (Z.of_nat i + 1, o)) ops) newSignalingServer.
Definition up (own : nat) (port : Z) : list op := [LStart; LListened own (Some port)].
Definition down : list op := [LStop; LClosed 0 true; LClosed 0 true].
Definition connection : op := LWorld (OpAccept good_socket true).
Definition joins : op := LWorld (OpAuth 0 (servers.join (js "a"))).
Definition a_life : list op := up 0 8080 ++ [connection; joins; LTick; LHealth 5 None; LStop; LClosed 0 true].
End lives.
Import lives.


(** [stop] while a connection is being authenticated: it joins a room afterwards, is
    never told that the server stops, and nothing watches over it any more; the
    WebSocket server, and with it [stop], waits until it goes. *)
Example joined_after_stop :
  let s := run (up 0 8080 ++ [connection; LStop; joins]) in
  servers.registered (sl_world s) = [js "r"] ∧ servers.closes 0 (sl_world s) = []
  ∧ sl_stopped s = true ∧ sl_timer s = false ∧ sl_stopping s = [AtWss].
Proof. by vm_compute. Qed.

(** [stop] while [start] waits for the HTTP server: [start] goes on when it listens,
    and the heartbeat beats on after both were done. *)
Example stop_during_start :
  let s := run ([LStart; LStop; LListened 0 (Some 8080)] ++ [LClosed 0 true; LClosed 0 true]) in
  sl_answers s = [Started; Stopped] ∧ sl_wss s = false ∧ sl_timer s = true.
Proof. by vm_compute. Qed.

(** [start] right after a [stop] of a server that did not run: that [stop] closes it. *)
Example stop_then_start :
  let s := run [LStop; LStart; LClosed 0 true; LListened 0 (Some 8080); LClosed 0 true] in
  sl_answers s = [Started; Stopped] ∧ sl_wss s = false ∧ sl_ownServer s = None.
Proof. by vm_compute. Qed.

(** A second [stop] does not wait for the first. *)
Example second_stop_early :
  let s := run (up 0 8080 ++ [LStop; LStop]) in sl_answers s = [Started; Stopped] ∧ sl_stopping s = [AtWss] ∧ sl_wss s = true.
Proof. by vm_compute. Qed.

(** A [stop] that failed is final: the next does nothing, and [start] throws. *)
Example failed_stop_is_final :
  sl_answers (run (up 0 8080 ++ [LStop; LClosed 0 false; LStop; LStart])) = [Started; StopThrew; Stopped; StartThrew].
Proof. by vm_compute. Qed.

(** A server that is started again has the router that [stop] disposed of. *)
Example restarted_without_router :
  let s := run (up 0 8080 ++ down ++ up 1 8081) in sl_wss s = true ∧ sl_timer s = true ∧ sl_router s = false.
Proof. by vm_compute. Qed.

(** A request for the endpoint: its path, without the query. *)
Example health_answers :
  let s := run (up 0 8080 ++ [LHealth 5 None]) in
  health_request 10 5 (js "GET") (Some (js "/health?x=1")) s = [mkStats 0 0 8] ∧ health_request 10 5 (js "POST") (Some (js "/health")) s = [].
Proof. by vm_compute. Qed.
