(* ===== verification/Uint8Array.v ===== *)
(** Byte arrays of the file transfer and the decimal rendering of integers:
    what the source uses of [Uint8Array], [DataView] and template literals. *)

From S2P Require Import Prelude JsNumber.

(** * Byte arrays *)

(** A [Uint8Array] is the list of its bytes. *)
Abbreviation bytes := (list Z).
Definition byte_ok (b : Z) : Prop := 0 ≤ b < 256.
Definition bytes_ok (l : bytes) : Prop := Forall byte_ok l.

(** [byteLength]. *)
Definition blen (l : bytes) : Z := Z.of_nat (length l).

(** [new Uint8Array(n)]. *)
Definition u8new (n : Z) : bytes := replicate (Z.to_nat n) 0.

(** [dst.set(src, off)]: a [RangeError] when it does not fit. *)
Definition u8set (dst src : bytes) (off : Z) : option bytes :=
  if decide (0 ≤ off ∧ off + blen src ≤ blen dst)
  then Some (take (Z.to_nat off) dst ++ src ++ drop (Z.to_nat (off + blen src)) dst)
  else None.

(** [src.slice(off, off + len)] clamped at the end. *)
Definition u8slice (off len : Z) (l : bytes) : bytes :=
  take (Z.to_nat len) (drop (Z.to_nat off) l).

Lemma blen_nonneg l : 0 ≤ blen l.
Proof. unfold blen. lia. Qed.

Lemma blen_app l k : blen (l ++ k) = blen l + blen k.
Proof. unfold blen. rewrite length_app. lia. Qed.

Lemma blen_u8new n : 0 ≤ n → blen (u8new n) = n.
Proof. intros. unfold blen, u8new. rewrite length_replicate. lia. Qed.

Lemma u8set_some dst src off :
  0 ≤ off → off + blen src ≤ blen dst →
  ∃ d, u8set dst src off = Some d ∧ blen d = blen dst
    ∧ (∀ i, d !! i = if decide (off ≤ Z.of_nat i < off + blen src)
                     then src !! (i - Z.to_nat off)%nat else dst !! i).
Proof.
  intros H1 H2. unfold u8set. rewrite decide_True by done. eexists. split; [done|].
  unfold blen in *. split.
  - rewrite !length_app, length_take, length_drop. lia.
  - intros i. destruct (decide (Z.of_nat i < off)).
    { rewrite decide_False by lia. rewrite lookup_app_l by (rewrite length_take; lia).
      apply lookup_take_lt. lia. }
    rewrite lookup_app_r by (rewrite length_take; lia). rewrite length_take.
    replace (i - Z.to_nat off `min` length dst)%nat with (i - Z.to_nat off)%nat by lia.
    destruct (decide (Z.of_nat i < off + Z.of_nat (length src))).
    + rewrite decide_True by lia. apply lookup_app_l. lia.
    + rewrite decide_False by lia. rewrite lookup_app_r, lookup_drop by lia. f_equal. lia.
Qed.

Lemma u8slice_lookup off len l i :
  0 ≤ off → u8slice off len l !! i
  = if decide (Z.of_nat i < len) then l !! (Z.to_nat off + i)%nat else None.
Proof.
  intros. unfold u8slice. destruct (decide (Z.of_nat i < len)).
  - rewrite lookup_take_lt, lookup_drop by lia. done.
  - apply lookup_ge_None. rewrite length_take. lia.
Qed.

Lemma blen_u8slice off len l :
  0 ≤ off → 0 ≤ len → off + len ≤ blen l → blen (u8slice off len l) = len.
Proof. unfold blen, u8slice. intros. rewrite length_take, length_drop. lia. Qed.

Lemma blen_u8slice_le off len l : 0 ≤ len → blen (u8slice off len l) ≤ len.
Proof. unfold blen, u8slice. intros. rewrite length_take. lia. Qed.

(** * Big-endian 32-bit integers *)

Definition be32 (z : Z) : bytes :=
  let u := to_uint32 z in
  [Z.land (Z.shiftr u 24) 255; Z.land (Z.shiftr u 16) 255;
   Z.land (Z.shiftr u 8) 255; Z.land u 255].

Definition of_be32 (l : bytes) : option Z :=
  match l with
  | a :: b :: c :: d :: _ => Some (Z.shiftl a 24 + Z.shiftl b 16 + Z.shiftl c 8 + d)
  | _ => None
  end.

Lemma be32_roundtrip z l : of_be32 (be32 z ++ l) = Some (to_uint32 z).
Proof.
  unfold of_be32, be32. simpl. f_equal.
  assert (0 ≤ to_uint32 z < 2 ^ 32) by (apply Z.mod_pos_bound; done).
  generalize dependent (to_uint32 z). intros u Hu.
  change 255 with (Z.ones 8).
  rewrite !Z.land_ones, !Z.shiftr_div_pow2, !Z.shiftl_mul_pow2 by lia.
  change (2 ^ 8) with 256. change (2 ^ 16) with 65536. change (2 ^ 24) with 16777216.
  change (2 ^ 32) with 4294967296 in Hu. Z.div_mod_to_equations. lia.
Qed.

(** * Decimal rendering of a non-negative integer *)

Fixpoint dec_loop (fuel : nat) (n : Z) (acc : jsstr) : jsstr :=
  match fuel with
  | O => acc
  | Datatypes.S fuel' =>
      let acc' := (48 + n mod 10) :: acc in
      if decide (n < 10) then acc' else dec_loop fuel' (n / 10) acc'
  end.

(** [`${n}`]. *)
Definition print_int (n : Z) : jsstr := dec_loop (Datatypes.S (Z.to_nat (Z.log2 n))) n [].

Lemma dec_loop_spec fuel n acc :
  0 ≤ n < 2 ^ Z.of_nat fuel → fuel ≠ 0%nat →
  ∃ ds, dec_loop fuel n acc = ds ++ acc ∧ ds ≠ [] ∧ Forall (λ c, 48 ≤ c ≤ 57) ds
    ∧ ∀ a k s, digits 10 (ds ++ s) a k = digits 10 s (a * 10 ^ blen ds + n) (k + length ds).
Proof.
  revert n acc. induction fuel as [|fuel IH]; intros n acc Hn Hf; [done|].
  assert (0 ≤ n mod 10 < 10) by (apply Z.mod_pos_bound; lia).
  assert (Hd : ∀ m, 0 ≤ m < 10 → digit_val 10 (48 + m) = Some m).
  { intros m Hm. unfold digit_val. destruct (decide (48 ≤ 48 + m ≤ 57)); [|lia]. cbv zeta.
    replace (48 + m - 48) with m by lia. destruct (decide (m < 10)); [done|lia]. }
  cbn [dec_loop]. destruct (decide (n < 10)) as [Hlt|Hge].
  - exists [48 + n mod 10]. split; [done|]. split; [done|].
    split; [constructor; [lia|done]|]. intros a k s. cbn [app digits].
    rewrite Hd by done. f_equal; [|simpl; lia].
    change (blen [48 + n mod 10]) with 1. rewrite Z.mod_small by lia. lia.
  - destruct (IH (n / 10) ((48 + n mod 10) :: acc)) as (ds & Heq & Hne & Hall & Hds).
    { rewrite Nat2Z.inj_succ, Z.pow_succ_r in Hn by lia.
      split; [apply Z.div_pos; lia|]. apply Z.div_lt_upper_bound; lia. }
    { intros ->. change (Z.of_nat 1) with 1 in Hn. lia. }
    exists (ds ++ [48 + n mod 10]). rewrite Heq, <- app_assoc. split; [done|].
    split; [by destruct ds|]. split; [apply Forall_app; split; [done|constructor; [lia|done]]|].
    intros a k s. rewrite <- app_assoc, Hds. cbn [app digits]. rewrite Hd by done.
    rewrite blen_app, length_app. change (blen [48 + n mod 10]) with 1. simpl length.
    f_equal; [|lia]. rewrite Z.pow_add_r by (pose proof (blen_nonneg ds); lia).
    pose proof (Z.div_mod n 10 ltac:(lia)). lia.
Qed.

Lemma print_int_spec n :
  0 ≤ n → print_int n ≠ [] ∧ Forall (λ c, 48 ≤ c ≤ 57) (print_int n)
    ∧ digits 10 (print_int n) 0 0 = (n, length (print_int n), []).
Proof.
  intros Hn. unfold print_int.
  destruct (dec_loop_spec (Datatypes.S (Z.to_nat (Z.log2 n))) n []) as (ds & -> & Hne & Hall & Hds).
  - rewrite Nat2Z.inj_succ, Z2Nat.id by apply Z.log2_nonneg.
    destruct (decide (n = 0)) as [->|]; [done|]. split; [done|]. apply Z.log2_spec. lia.
  - done.
  - rewrite app_nil_r. split; [done|]. split; [done|].
    rewrite <- (app_nil_r ds) at 1. rewrite Hds. simpl. by f_equal.
Qed.

(** A run of decimal digits is a number literal. *)
Lemma Number_digits s v :
  s ≠ [] → Forall (λ c, 48 ≤ c ≤ 57) s → digits 10 s 0 0 = (v, length s, []) → 0 ≤ v →
  Number s = num_of_Z v.
Proof.
  intros Hne Hall Hd Hv.
  assert (Hsp : ∀ c, 48 ≤ c ≤ 57 → is_space c = false).
  { intros c Hc. apply not_true_iff_false. unfold is_space. intros E.
    apply orb_true_iff in E as [E|E]; apply bool_decide_eq_true in E; [|lia].
    rewrite !elem_of_cons, elem_of_nil in E. lia. }
  assert (Htrim : ∀ l, Forall (λ c, 48 ≤ c ≤ 57) l → trimStart l = l).
  { intros l [|c l' Hc _]; [done|]. cbn. by rewrite Hsp. }
  unfold Number, trim. rewrite (Htrim s Hall), (Htrim (reverse s)) by (by apply Forall_reverse).
  rewrite reverse_involutive.
  assert (Hten : ∀ c, 48 ≤ c ≤ 57 → c = 48 ∨ c = 49 ∨ c = 50 ∨ c = 51 ∨ c = 52 ∨ c = 53
    ∨ c = 54 ∨ c = 55 ∨ c = 56 ∨ c = 57) by lia.
  assert (Hu : unsigned_decimal s = num_of_Z v).
  { unfold unsigned_decimal. rewrite decide_False by (intros ->; by inversion Hall; lia).
    rewrite Hd. cbn. destruct s as [|c s]; [done|]. cbn [length]. rewrite decide_False by lia.
    unfold scale10. destruct v; [done| |lia]. by rewrite Z.mul_1_r. }
  rewrite <- Hu. destruct s as [|c s]; [done|]. apply Forall_cons in Hall as [Hc Hall].
  destruct (Hten c Hc) as [->|H']; [|by repeat destruct H' as [->|H']; subst].
  destruct s as [|d s]; [done|]. apply Forall_cons in Hall as [Hd' Hall].
  destruct (Hten d Hd') as [->|H']; [done|by repeat destruct H' as [->|H']; subst].
Qed.
