(* ===== verification/MessageBus.v ===== *)
(** The in-process message bus and the id generators (packages/core/src/MessageBus.ts,
    IdGenerator.ts).

    A handler is a function of the application, known by its identity [L]; what it does
    to the bus while it runs is a list of calls.  [randomId] is the platform's UUID. *)

From S2P Require Import Prelude JsMap Uint8Array.

Section bus.
Context {L T : Type} `{EqDecision L}.

Abbreviation bus := (jmap jsstr (list L)).
Implicit Types (b : bus).

(** [subscribe], and the function it returns. *)
Definition subscribe (topic : jsstr) (handler : L) b : bus :=
  mset topic (sadd handler (default [] (mget topic b))) b.
Definition unsubscribe (topic : jsstr) (handler : L) b : bus :=
  match mget topic b with
  | None => b
  | Some current =>
      let current' := sdel handler current in
      if bool_decide (current' = []) then mdel topic b else mset topic current' b
  end.

(** Calls a handler makes on its bus; [BThrow] is the last of those that throw. *)
Inductive bus_call :=
| BSubscribe (topic : jsstr) (handler : L)
| BUnsubscribe (topic : jsstr) (handler : L)
| BPublish (topic : jsstr) (message : T)
| BThrow.

Context (body : L → jsstr → T → list bus_call).

(** A publication: the bus after it, the handlers it called, each with whether it threw,
    and all deliveries, nested ones included, in order. *)
Record publication := mkPublication {
  pb_after : bus;
  pb_direct : list (L * bool);
  pb_trace : list (jsstr * T * L);
}.

(** One handler; the boolean says that it threw. *)
Fixpoint handle_calls (publish : jsstr → T → bus → option publication) (cs : list bus_call) b
    : option (bus * bool * list (jsstr * T * L)) :=
  match cs with
  | [] => Some (b, false, [])
  | BSubscribe topic h :: cs' => handle_calls publish cs' (subscribe topic h b)
  | BUnsubscribe topic h :: cs' => handle_calls publish cs' (unsubscribe topic h b)
  | BPublish topic m :: cs' =>
      p ← publish topic m b;
      '(b', threw, tr) ← handle_calls publish cs' (pb_after p);
      Some (b', threw, pb_trace p ++ tr)
  | BThrow :: _ => Some (b, true, [])
  end.

(** The loop over the snapshot. *)
Fixpoint publish_loop (publish : jsstr → T → bus → option publication) (topic : jsstr) (message : T) (handlers : list L) b
    : option publication :=
  match handlers with
  | [] => Some (mkPublication b [] [])
  | h :: handlers' =>
      '(b1, threw, tr) ← handle_calls publish (body h topic message) b;
      p ← publish_loop publish topic message handlers' b1;
      Some (mkPublication (pb_after p) ((h, threw) :: pb_direct p) ((topic, message, h) :: tr ++ pb_trace p))
  end.

Fixpoint publish (fuel : nat) (topic : jsstr) (message : T) b : option publication :=
  match fuel with
  | O => None
  | S fuel' => publish_loop (publish fuel') topic message (default [] (mget topic b)) b
  end.

(** * Subscriptions *)

(** A topic that is there has subscribers, each once. *)
Definition bus_ok b : Prop := ∀ topic hs, mget topic b = Some hs → hs ≠ [] ∧ NoDup hs.

Lemma subscribe_ok topic h b : bus_ok b → bus_ok (subscribe topic h b).
Proof.
  intros Hb topic' hs. unfold subscribe. rewrite mget_mset. case_decide; [|by apply Hb]. intros [= <-]. split.
  - intros E. assert (h ∈ sadd h (default [] (mget topic b))) as Hin by (apply elem_of_sadd; by left). rewrite E in Hin. by apply elem_of_nil in Hin.
  - apply NoDup_sadd. destruct (mget topic b) as [hs'|] eqn:Et; cbn; [by apply (Hb topic)|constructor].
Qed.
Lemma unsubscribe_ok topic h b : bus_ok b → bus_ok (unsubscribe topic h b).
Proof.
  intros Hb. unfold unsubscribe. destruct (mget topic b) as [hs|] eqn:Et; [|done]. cbv zeta. case_bool_decide as He; intros topic' hs'.
  - rewrite mget_mdel. case_decide; [done|by apply Hb].
  - rewrite mget_mset. case_decide; [|by apply Hb]. intros [= <-]. split; [done|]. by apply NoDup_sdel, (Hb topic).
Qed.

(** Whether a handler throws does not depend on the bus. *)
Definition throws (cs : list bus_call) : bool := existsb (λ c, match c with BThrow => true | _ => false end) cs.

Lemma handle_calls_spec (pub : jsstr → T → bus → option publication) cs b b' threw tr :
  (∀ t m b p, pub t m b = Some p → bus_ok b → bus_ok (pb_after p)) →
  handle_calls pub cs b = Some (b', threw, tr) → bus_ok b → bus_ok b' ∧ threw = throws cs.
Proof.
  intros Hpub. revert b b' threw tr. induction cs as [|[topic h|topic h|topic m|] cs IH]; intros b b' threw tr; cbn [handle_calls].
  - by intros [= <- <- <-].
  - intros Hc Hb. eapply IH; [done|]. by apply subscribe_ok.
  - intros Hc Hb. eapply IH; [done|]. by apply unsubscribe_ok.
  - intros Hc Hb. apply bind_Some in Hc as (p & Hp & Hc). apply bind_Some in Hc as ([[b1 t1] tr1] & Hc & [= <- <- <-]).
    eapply IH; [done|]. by eapply Hpub.
  - by intros [= <- <- <-].
Qed.

Lemma publish_loop_spec (pub : jsstr → T → bus → option publication) topic m hs b p :
  (∀ t m b p, pub t m b = Some p → bus_ok b → bus_ok (pb_after p)) →
  publish_loop pub topic m hs b = Some p → bus_ok b →
  bus_ok (pb_after p) ∧ pb_direct p = (λ h, (h, throws (body h topic m))) <$> hs.
Proof.
  intros Hpub. revert b p. induction hs as [|h hs IH]; intros b p; cbn [publish_loop]; [by intros [= <-]|].
  intros Hp Hb. apply bind_Some in Hp as ([[b1 threw] tr] & Hc & Hp). apply bind_Some in Hp as (p1 & Hp & [= <-]).
  destruct (handle_calls_spec _ _ _ _ _ _ Hpub Hc Hb) as [Hb1 ->]. destruct (IH b1 p1 Hp Hb1) as [H1 H2]. cbn. by rewrite H2.
Qed.

Lemma publish_ok fuel topic m b p : publish fuel topic m b = Some p → bus_ok b → bus_ok (pb_after p).
Proof.
  revert topic m b p. induction fuel as [|fuel IH]; intros topic m b p; [done|]. cbn [publish]. intros Hp Hb.
  by eapply publish_loop_spec.
Qed.

(** * Publications end *)

Lemma handle_calls_total (pub : jsstr → T → bus → option publication) cs b :
  (∀ t m, BPublish t m ∈ cs → ∀ b, is_Some (pub t m b)) → is_Some (handle_calls pub cs b).
Proof.
  revert b. induction cs as [|[topic h|topic h|topic m|] cs IH]; intros b Hpub; cbn [handle_calls]; try (by eexists); try (apply IH; intros; apply Hpub; by right).
  destruct (Hpub topic m ltac:(by left) b) as [p ->]. cbn. destruct (IH (pb_after p)) as [[[b1 t1] tr1] ->]; [intros; apply Hpub; by right|]. by eexists.
Qed.
Lemma publish_loop_total (pub : jsstr → T → bus → option publication) topic m hs b :
  (∀ h, ∀ t' m', BPublish t' m' ∈ body h topic m → ∀ b, is_Some (pub t' m' b)) → is_Some (publish_loop pub topic m hs b).
Proof.
  intros Hpub. revert b. induction hs as [|h hs IH]; intros b; cbn [publish_loop]; [by eexists|].
  destruct (handle_calls_total pub (body h topic m) b (Hpub h)) as [[[b1 threw] tr] ->]. cbn. destruct (IH b1) as [p ->]. by eexists.
Qed.

(** Publishing calls exactly the handlers that were subscribed when it began, once each
    and in the order of their subscriptions, whatever handlers do to the bus meanwhile and
    whichever of them throw, each of which is reported; no topic is left without
    subscribers.  It ends if handlers that publish do so on topics of lower rank. *)
Theorem bus_delivery (rank : jsstr → nat) topic m b fuel :
  bus_ok b → (∀ h t m t' m', BPublish t' m' ∈ body h t m → (rank t' < rank t)%nat) → (rank topic < fuel)%nat →
  ∃ p, publish fuel topic m b = Some p
    ∧ pb_direct p = (λ h, (h, throws (body h topic m))) <$> default [] (mget topic b)
    ∧ NoDup (default [] (mget topic b)) ∧ bus_ok (pb_after p).
Proof.
  intros Hb Hrank Hfuel.
  assert (∀ fuel topic m b, (rank topic < fuel)%nat → is_Some (publish fuel topic m b)) as Htotal.
  { clear -Hrank. induction fuel as [|fuel IH]; intros topic m b Hf; [lia|]. cbn [publish]. apply publish_loop_total.
    intros h t' m' Hin b'. apply IH. specialize (Hrank _ _ _ _ _ Hin). lia. }
  destruct (Htotal fuel topic m b Hfuel) as [p Hp]. exists p. split; [done|]. destruct fuel as [|fuel]; [lia|]. cbn [publish] in Hp.
  destruct (publish_loop_spec _ _ _ _ _ _ (publish_ok fuel) Hp Hb) as [H1 H2]. split; [done|]. split; [|done].
  destruct (mget topic b) as [hs|] eqn:E; cbn; [by apply (Hb topic)|constructor].
Qed.
End bus.

(** Two subscriptions of one handler are one: cancelling either ends both. *)
Example subscribed_twice :
  let b := subscribe (js "t") 0%nat (subscribe (js "t") 0%nat []) in
  b = [(js "t", [0%nat])] ∧ unsubscribe (js "t") 0%nat b = [].
Proof. by vm_compute. Qed.

(** Handler 0 throws after it cancelled handler 1, which is called all the same. *)
Definition bus_example (h : nat) (t : jsstr) (m : unit) : list (bus_call (L:=nat) (T:=unit)) :=
  if bool_decide (t = js "a") then
    match h with O => [BUnsubscribe (js "a") 1%nat; BPublish (js "b") tt; BThrow] | _ => [BSubscribe (js "a") 2%nat] end
  else [].
Lemma bus_delivery_witness :
  ∃ p, publish bus_example 2 (js "a") tt (subscribe (js "a") 1%nat (subscribe (js "a") 0%nat [])) = Some p
    ∧ pb_direct p = [(0%nat, true); (1%nat, false)].
Proof.
  destruct (bus_delivery bus_example (λ t, if bool_decide (t = js "a") then 1 else 0)%nat (js "a") tt
    (subscribe (js "a") 1%nat (subscribe (js "a") 0%nat [])) 2) as (p & Hp & Hd & _).
  - apply subscribe_ok, subscribe_ok. by intros t hs.
  - intros h t m t' m'. unfold bus_example. case_bool_decide; [|by intros ?%elem_of_nil].
    destruct h; rewrite ?elem_of_cons, ?elem_of_nil; [|naive_solver]. intros [|[[= -> ->]|[|[]]]]; try done.
    rewrite bool_decide_false by (by vm_compute). lia.
  - rewrite bool_decide_true by done. lia.
  - exists p. split; [done|]. rewrite Hd. by vm_compute.
Defined.

(** * Ids *)

(** [SequentialId]: its counter, exact below 2^53. *)
Module Sequential.
Definition next (prefix : jsstr) (n : Z) : Z * jsstr := (n + 1, prefix ++ print_int (n + 1)).
Fixpoint ids (prefix : jsstr) (k : nat) (n : Z) : list jsstr :=
  match k with O => [] | S k' => let '(n', id) := next prefix n in id :: ids prefix k' n' end.

Lemma print_int_inj a b : 0 ≤ a → 0 ≤ b → print_int a = print_int b → a = b.
Proof. intros (_ & _ & Ha)%print_int_spec (_ & _ & Hb)%print_int_spec E. rewrite E, Hb in Ha. by injection Ha. Qed.

Lemma ids_elem prefix k n id : id ∈ ids prefix k n → ∃ i, n < i ≤ n + Z.of_nat k ∧ id = prefix ++ print_int i.
Proof.
  revert n. induction k as [|k IH]; intros n; cbn; [by intros ?%elem_of_nil|]. intros [->|Hin]%elem_of_cons.
  - exists (n + 1). split; [lia|done].
  - apply IH in Hin as (i & Hi & ->). exists i. split; [lia|done].
Qed.

(** No id comes twice. *)
Lemma ids_distinct prefix k n : 0 ≤ n → NoDup (ids prefix k n).
Proof.
  revert n. induction k as [|k IH]; intros n Hn; cbn; [constructor|]. apply NoDup_cons. split; [|apply IH; lia].
  intros (i & Hi & E%app_inv_head)%ids_elem. apply print_int_inj in E; lia.
Qed.
End Sequential.
