(* ===== verification/JsDouble.v ===== *)
(** Doubles that hold small integers: exact subtraction and order; and the bytes of a
    double ([writeDoubleBE], [readDoubleBE] of Node's buffers). *)

From Stdlib Require Import SpecFloat.
From S2P Require Import Prelude JsNumber Uint8Array.

Definition num_abs : num → num := SFabs.

(** * The form of an integer *)

Definition int_shift (p : positive) : Z := 53 - Z.pos (digits2_pos p).

Lemma digits2_ge p : 2 ^ (Z.pos (digits2_pos p) - 1) ≤ Z.pos p.
Proof.
  induction p as [p IH|p IH|]; cbn [digits2_pos]; [| |done].
  all: rewrite Pos2Z.inj_succ; replace (Z.succ (Z.pos (digits2_pos p)) - 1) with (Z.succ (Z.pos (digits2_pos p) - 1)) by lia.
  all: rewrite Z.pow_succ_r by lia; lia.
Qed.
Lemma digits2_lt p : Z.pos p < 2 ^ Z.pos (digits2_pos p).
Proof.
  induction p as [p IH|p IH|]; cbn [digits2_pos]; [| |done]; rewrite Pos2Z.inj_succ, Z.pow_succ_r by lia; lia.
Qed.
Lemma int_shift_range p : Z.pos p < two53 → 0 ≤ int_shift p ≤ 52.
Proof. intros Hp. pose proof (digits2_bound p 53 Hp ltac:(lia)). unfold int_shift. lia. Qed.

(** A positive integer below 2^53, as a double. *)
Lemma num_of_pos p : Z.pos p < two53 →
  ∃ m, num_of_Z (Z.pos p) = S754_finite false m (- int_shift p) ∧ num_of_Z (Z.neg p) = S754_finite true m (- int_shift p)
    ∧ Z.pos m = Z.pos p * 2 ^ int_shift p.
Proof.
  intros Hp. pose proof (int_shift_range p Hp) as Hr. unfold num_of_Z, binary_normalize. rewrite !num_of_Z_pos by done.
  unfold int_shift in *. destruct (53 - Z.pos (digits2_pos p)) as [|d|d] eqn:E; [| |lia].
  - exists p. split; [done|]. split; [done|]. lia.
  - exists (Pos.iter xO p d). split; [done|]. split; [done|]. apply iter_xO.
Qed.

(** * Rounding is exact on shifted integers *)

Lemma iter_pos_iter {A} (f : A → A) n x : SpecFloat.iter_pos f n x = Pos.iter f x n.
Proof.
  revert x. induction n as [n IH|n IH|]; intros x; cbn; [|by rewrite !IH|done].
  rewrite !IH, Pos.iter_swap. f_equal. by rewrite Pos.iter_swap.
Qed.

Lemma shr_exact n m : 0 < m →
  SpecFloat.iter_pos shr_1 n {| shr_m := m * 2 ^ Z.pos n; shr_r := false; shr_s := false |}
  = {| shr_m := m; shr_r := false; shr_s := false |}.
Proof.
  rewrite iter_pos_iter. revert m. induction n as [|n IH] using Pos.peano_ind; intros m Hm.
  - destruct m as [|m|m]; [lia| |lia]. by replace (Z.pos m * 2 ^ 1) with (Z.pos m~0) by lia.
  - rewrite Pos.iter_succ, Pos2Z.inj_succ, Z.pow_succ_r, Z.mul_assoc by lia. rewrite IH by lia.
    destruct m as [|m|m]; [lia| |lia]. by replace (Z.pos m * 2) with (Z.pos m~0) by lia.
Qed.

Lemma digits2_mul p k : 0 ≤ k → ∀ q, Z.pos q = Z.pos p * 2 ^ k → Z.pos (digits2_pos q) = Z.pos (digits2_pos p) + k.
Proof.
  intros Hk q Hq. pose proof (digits2_ge p) as Pg. pose proof (digits2_lt p) as Pl. pose proof (digits2_ge q) as Hg. pose proof (digits2_lt q) as Hl.
  set (a := Z.pos (digits2_pos p)) in *. set (b := Z.pos (digits2_pos q)) in *. assert (0 < a ∧ 0 < b) as Hab by (subst a b; lia).
  assert (2 ^ (a + k - 1) < 2 ^ b) as H1.
  { eapply Z.le_lt_trans; [|exact Hl]. rewrite Hq. replace (a + k - 1) with ((a - 1) + k) by lia. rewrite Z.pow_add_r by lia. nia. }
  assert (2 ^ (b - 1) < 2 ^ (a + k)) as H2.
  { eapply Z.le_lt_trans; [exact Hg|]. rewrite Hq, Z.pow_add_r by lia. nia. }
  apply Z.pow_lt_mono_r_iff in H1, H2; lia.
Qed.

Lemma round_shifted s p q K : Z.pos p < two53 → 0 ≤ K ≤ 52 → Z.pos q = Z.pos p * 2 ^ K →
  binary_round prec emax s q (- K) = binary_round prec emax s p 0.
Proof.
  intros Hp HK Hq. pose proof (int_shift_range p Hp) as Hk. pose proof (digits2_mul p K ltac:(lia) q Hq) as Hd.
  transitivity (match int_shift p with Z.pos d => S754_finite s (Pos.iter xO p d) (- Z.pos d) | _ => S754_finite s p 0 end); [|symmetry; by apply num_of_Z_pos].
  assert (∃ m, Z.pos m = Z.pos p * 2 ^ int_shift p ∧ match int_shift p with Z.pos d => S754_finite s (Pos.iter xO p d) (- Z.pos d) | _ => S754_finite s p 0 end
    = S754_finite s m (- int_shift p)) as (m & Hm & ->).
  { destruct (int_shift p) as [|d|d]; [exists p|exists (Pos.iter xO p d)|lia]; (split; [rewrite ?iter_xO; lia|done]). }
  set (k := int_shift p) in *.
  assert (Hdm : Z.pos (digits2_pos m) = 53) by (rewrite (digits2_mul p k ltac:(lia) m Hm); unfold k, int_shift; lia).
  unfold binary_round. replace (fexp prec emax (Z.pos (digits2_pos q) + - K)) with (- k)
    by (unfold fexp, prec, emin, emax, k, int_shift in *; lia).
  unfold shl_align. destruct (- k - - K) as [|n|d] eqn:E.
  - assert (K = k) as -> by lia. assert (q = m) as -> by (apply Pos2Z.inj; lia). apply round_exact; [done|lia|lia].
  - unfold binary_round_aux. assert (Hs : shr_fexp prec emax (Z.pos q) (- K) loc_Exact = ({| shr_m := Z.pos m; shr_r := false; shr_s := false |}, - k)).
    { unfold shr_fexp, shr. cbn [Zdigits2]. replace (fexp prec emax (Z.pos (digits2_pos q) + - K) - - K) with (Z.pos n)
        by (unfold fexp, prec, emin, emax, k, int_shift in *; lia).
      f_equal; [|lia]. cbn [shr_record_of_loc]. replace (Z.pos q) with (Z.pos m * 2 ^ Z.pos n); [by apply shr_exact|].
      rewrite Hq, Hm, <- Z.mul_assoc, <- Z.pow_add_r by lia. do 2 f_equal. lia. }
    rewrite Hs. cbn [shr_m loc_of_shr_record round_nearest_even].
    assert (Hs' : shr_fexp prec emax (Z.pos m) (- k) loc_Exact = ({| shr_m := Z.pos m; shr_r := false; shr_s := false |}, - k)).
    { unfold shr_fexp, shr, fexp. cbn [Zdigits2]. rewrite Hdm.
      replace (Z.max (53 + - k - prec) (emin prec emax) - - k) with 0; [done|]. unfold prec, emin, emax, prec in *. lia. }
    rewrite Hs'. cbn [shr_m]. destruct (Z.leb_spec (- k) (emax - prec)); [done|]. unfold emax, prec in *. lia.
  - assert (Pos.iter xO q d = m) as ->; [|apply round_exact; [done|lia|lia]]. apply Pos2Z.inj. rewrite iter_xO, Hq, Hm, <- Z.mul_assoc, <- Z.pow_add_r by lia.
    do 2 f_equal. lia.
Qed.

Lemma normalize_shifted v K : Z.abs v < two53 → 0 ≤ K ≤ 52 → binary_normalize prec emax (v * 2 ^ K) (- K) false = num_of_Z v.
Proof.
  intros Hv HK. unfold num_of_Z, binary_normalize. destruct v as [|p|p]; [by rewrite Z.mul_0_l| |].
  - destruct (Z.pos p * 2 ^ K) as [|q|q] eqn:E; [nia| |nia]. apply round_shifted; [lia|done|lia].
  - destruct (Z.neg p * 2 ^ K) as [|q|q] eqn:E; [nia|nia|]. apply round_shifted; [lia|done|lia].
Qed.

(** * Subtraction and order *)

Lemma align_int p m K : Z.pos p < two53 → Z.pos m = Z.pos p * 2 ^ int_shift p → int_shift p ≤ K →
  Z.pos (fst (shl_align m (- int_shift p) (- K))) = Z.pos p * 2 ^ K.
Proof.
  intros Hp Hm HK. pose proof (int_shift_range p Hp). unfold shl_align. destruct (- K - - int_shift p) as [|d|d] eqn:E; [|lia|].
  - cbn. rewrite Hm. do 2 f_equal. lia.
  - cbn [fst]. rewrite iter_xO, Hm, <- Z.mul_assoc, <- Z.pow_add_r by lia. do 2 f_equal. lia.
Qed.

Lemma num_sub_ints a b : 0 ≤ a < two53 → 0 ≤ b < two53 → num_sub (num_of_Z a) (num_of_Z b) = num_of_Z (a - b).
Proof.
  intros Ha Hb. destruct a as [|a|a], b as [|b|b]; try lia; try done.
  - destruct (num_of_pos b ltac:(lia)) as (m & E1 & E2 & _). change (0 - Z.pos b) with (Z.neg b). by rewrite E1, E2.
  - rewrite Z.sub_0_r. destruct (num_of_pos a ltac:(lia)) as (m & E1 & _ & _). by rewrite E1.
  - destruct (num_of_pos a ltac:(lia)) as (m & -> & _ & Hm). destruct (num_of_pos b ltac:(lia)) as (m' & -> & _ & Hm').
    pose proof (int_shift_range a ltac:(lia)). pose proof (int_shift_range b ltac:(lia)).
    unfold num_sub, SFsub. set (K := Z.max (int_shift a) (int_shift b)).
    replace (Z.min (- int_shift a) (- int_shift b)) with (- K) by lia. cbn [cond_Zopp].
    rewrite (align_int a m K), (align_int b m' K) by lia. rewrite <- Z.mul_sub_distr_r. apply normalize_shifted; lia.
Qed.

Lemma num_abs_int z : Z.abs z < two53 → num_abs (num_of_Z z) = num_of_Z (Z.abs z).
Proof.
  intros Hz. destruct z as [|p|p]; [done| |]; destruct (num_of_pos p ltac:(lia)) as (m & E1 & E2 & _); cbn [Z.abs]; by rewrite ?E1, ?E2.
Qed.

Lemma num_lt_ints a b : 0 ≤ a < two53 → 0 ≤ b < two53 → num_lt (num_of_Z a) (num_of_Z b) = bool_decide (a < b).
Proof.
  intros Ha Hb. destruct a as [|a|a], b as [|b|b]; try lia; try done.
  - destruct (num_of_pos b ltac:(lia)) as (m & -> & _). by rewrite bool_decide_true by lia.
  - destruct (num_of_pos a ltac:(lia)) as (m & -> & _). by rewrite bool_decide_false by lia.
  - destruct (num_of_pos a ltac:(lia)) as (m & -> & _ & Hm). destruct (num_of_pos b ltac:(lia)) as (m' & -> & _ & Hm').
    apply Bool.eq_iff_eq_true. rewrite num_lt_rank, bool_decide_eq_true by done. unfold rank_lt, rank. cbn [fst snd].
    pose proof (digits2_ge a). pose proof (digits2_lt a). pose proof (digits2_ge b). pose proof (digits2_lt b).
    set (da := Z.pos (digits2_pos a)) in *. set (db := Z.pos (digits2_pos b)) in *.
    assert (0 < da ∧ 0 < db) by (subst da db; lia).
    assert (- int_shift a = da - 53 ∧ - int_shift b = db - 53) as [-> ->] by (unfold int_shift; subst da db; lia).
    assert (da < db → Z.pos a < Z.pos b).
    { intros Hd. assert (2 ^ da ≤ 2 ^ (db - 1)) by (apply Z.pow_le_mono_r; lia). lia. }
    assert (db < da → Z.pos b < Z.pos a).
    { intros Hd. assert (2 ^ db ≤ 2 ^ (da - 1)) by (apply Z.pow_le_mono_r; lia). lia. }
    assert (da = db → Z.pos m < Z.pos m' ↔ Z.pos a < Z.pos b).
    { intros Hd. assert (int_shift a = int_shift b) as Es by (unfold int_shift; subst da db; lia). rewrite Hm, Hm', Es.
      assert (0 < 2 ^ int_shift b) by (apply Z.pow_pos_nonneg; [lia|]; pose proof (int_shift_range b ltac:(lia)); lia). nia. }
    split; [lia|]. intros Hab. destruct (Z.lt_trichotomy da db) as [|[|]]; lia.
Qed.

(** * The bytes of a double *)

Definition sign_bit (s : bool) : Z := if s then 2 ^ 63 else 0.
Definition double_bits (x : num) : Z :=
  match x with
  | S754_zero s => sign_bit s
  | S754_infinity s => sign_bit s + 2047 * 2 ^ 52
  | S754_nan => 2047 * 2 ^ 52 + 2 ^ 51
  | S754_finite s m e =>
      sign_bit s + (if decide (Z.pos m < 2 ^ 52) then Z.pos m else (e + 1075) * 2 ^ 52 + (Z.pos m - 2 ^ 52))
  end.
Definition double_of_bits (z : Z) : num :=
  let s := bool_decide (2 ^ 63 ≤ z) in
  let f := (z / 2 ^ 52) mod 2048 in
  let m := z mod 2 ^ 52 in
  if decide (f = 2047) then (if decide (m = 0) then S754_infinity s else S754_nan)
  else if decide (f = 0) then match m with Z.pos p => S754_finite s p (- 1074) | _ => S754_zero s end
  else match m + 2 ^ 52 with Z.pos p => S754_finite s p (f - 1075) | _ => S754_nan end.

Definition write_double (x : num) : bytes := be32 (double_bits x / two32) ++ be32 (double_bits x).
Definition read_double (l : bytes) : option num :=
  hi ← of_be32 l; lo ← of_be32 (drop 4 l); Some (double_of_bits (hi * two32 + lo)).

Lemma write_double_length x : length (write_double x) = 8%nat.
Proof. done. Qed.

Lemma read_write_double x l : 0 ≤ double_bits x < two32 * two32 → read_double (write_double x ++ l) = Some (double_of_bits (double_bits x)).
Proof.
  intros Hx. unfold read_double, write_double. rewrite <- app_assoc, be32_roundtrip. cbn [mbind option_bind].
  replace (drop 4 (be32 (double_bits x / two32) ++ be32 (double_bits x) ++ l)) with (be32 (double_bits x) ++ l) by done.
  rewrite be32_roundtrip. cbn [mbind option_bind]. do 2 f_equal. unfold to_uint32. rewrite Z.mod_small.
  - pose proof (Z.div_mod (double_bits x) two32 ltac:(done)). lia.
  - unfold two32 in *. split; [apply Z.div_pos; lia|apply Z.div_lt_upper_bound; lia].
Qed.

Lemma double_int_roundtrip t l : 0 ≤ t < two53 → read_double (write_double (num_of_Z t) ++ l) = Some (num_of_Z t).
Proof.
  intros Ht. destruct t as [|t|t]; [done| |lia]. destruct (num_of_pos t ltac:(lia)) as (m & -> & _ & Hm).
  pose proof (int_shift_range t ltac:(lia)) as Hk. pose proof (digits2_ge t) as Hg. pose proof (digits2_lt t) as Hl.
  assert (2 ^ 52 ≤ Z.pos m < 2 ^ 53) as Hmr.
  { rewrite Hm. unfold int_shift in *. set (d := Z.pos (digits2_pos t)) in *. replace (2 ^ 52) with (2 ^ (d - 1) * 2 ^ (53 - d)) by (rewrite <- Z.pow_add_r by lia; f_equal; lia).
    replace (2 ^ 53) with (2 ^ d * 2 ^ (53 - d)) by (rewrite <- Z.pow_add_r by lia; f_equal; lia).
    assert (0 < 2 ^ (53 - d)) by (apply Z.pow_pos_nonneg; lia). nia. }
  set (k := int_shift t) in *. clearbody k. change (2 ^ 52) with 4503599627370496 in *. change (2 ^ 53) with 9007199254740992 in Hmr.
  assert (double_bits (S754_finite false m (- k)) = (1074 - k) * 4503599627370496 + Z.pos m) as Hb.
  { unfold double_bits. change (2 ^ 52) with 4503599627370496. rewrite decide_False by lia. cbn [sign_bit]. lia. }
  rewrite read_write_double by (rewrite Hb; unfold two32; lia). rewrite Hb. f_equal. unfold double_of_bits. cbv zeta.
  change (2 ^ 52) with 4503599627370496. change (2 ^ 63) with 9223372036854775808. rewrite bool_decide_false by lia.
  replace ((1074 - k) * 4503599627370496 + Z.pos m) with ((Z.pos m - 4503599627370496) + (1075 - k) * 4503599627370496) by lia.
  rewrite Z.div_add, Z.mod_add, Z.div_small, Z.add_0_l by lia. rewrite (Z.mod_small (1075 - k)) by lia. rewrite (Z.mod_small (Z.pos m - _)) by lia.
  rewrite !decide_False by lia. replace (Z.pos m - 4503599627370496 + 4503599627370496) with (Z.pos m) by lia. f_equal. lia.
Qed.
