(* ===== verification/Framing.v ===== *)
(** The wire formats of the file transfer: chunk frames (framing.ts), channel
    labels (protocol.ts) and the file names of offers (sanitize.ts), all under
    packages/sdk/src/filetransfer. *)

From S2P Require Import Prelude JsNumber Uint8Array.

(** * Errors (errors.ts) *)

Inductive FileTransferErrorCode :=
| OfferRejected | ChecksumMismatchCode | CancelledCode | SinkWriteFailed | SourceReadFailed
| ChannelClosed | InvalidFrame | InvalidState | TimeoutCode.

#[export] Instance ft_code_eq_dec : EqDecision FileTransferErrorCode.
Proof. solve_decision. Defined.

(** * Frames *)

Definition FRAME_HEADER_BYTES : Z := 4.

Definition encodeFrame (seq : Z) (payload : bytes) : bytes := be32 seq ++ payload.

Definition decodeFrame (data : bytes) : result FileTransferErrorCode (Z * bytes) :=
  if decide (blen data < FRAME_HEADER_BYTES) then Throw InvalidFrame
  else match of_be32 data with
       | Some seq => Ok (seq, drop (Z.to_nat FRAME_HEADER_BYTES) data)
       | None => Throw InvalidFrame
       end.

(** a frame decodes to its payload and its sequence number modulo [2^32] —
    the number itself below [2^32] — and decoding throws exactly on the buffers
    shorter than the header. *)
Theorem frame_roundtrip seq payload data :
  decodeFrame (encodeFrame seq payload) = Ok (seq mod 4294967296, payload)
  ∧ (decodeFrame data = Throw InvalidFrame ↔ blen data < 4).
Proof.
  split.
  - unfold decodeFrame, encodeFrame. rewrite decide_False, be32_roundtrip; [done|].
    rewrite blen_app. pose proof (blen_nonneg payload). unfold FRAME_HEADER_BYTES.
    change (blen (be32 seq)) with 4. lia.
  - unfold decodeFrame, FRAME_HEADER_BYTES.
    destruct (decide (blen data < 4)) as [|Hge]; [done|].
    split; [|done].
    unfold blen in Hge. by destruct data as [|a [|b [|c [|d data]]]]; cbn [length] in Hge; try lia.
Qed.

Lemma decodeFrame_ok data seq payload :
  decodeFrame data = Ok (seq, payload) → blen data = 4 + blen payload.
Proof.
  unfold decodeFrame, FRAME_HEADER_BYTES. destruct (decide (blen data < 4)) as [|Hd]; [done|].
  unfold blen in *. destruct data as [|a [|b [|c [|d data]]]]; cbn [length] in *; try lia.
  intros [= <- <-]. unfold FRAME_HEADER_BYTES. rewrite length_drop. cbn [length]. lia.
Qed.

(** What an honest sender's frame decodes to. *)
Lemma decodeFrame_encode seq payload :
  0 ≤ seq < 4294967296 → decodeFrame (encodeFrame seq payload) = Ok (seq, payload).
Proof.
  intros. unfold decodeFrame, encodeFrame. rewrite decide_False, be32_roundtrip.
  - unfold to_uint32, two32. by rewrite Z.mod_small.
  - rewrite blen_app. pose proof (blen_nonneg payload). unfold FRAME_HEADER_BYTES.
    change (blen (be32 seq)) with 4. lia.
Qed.

(** * Labels of data channels *)

Definition CONTROL_CHANNEL_LABEL : jsstr := js "rtcforge-ft-ctrl".
Definition label_prefix : jsstr := js "rtcforge-ft-".

Definition dataChannelLabel (transferId : jsstr) (index : Z) : jsstr :=
  label_prefix ++ transferId ++ js "-" ++ print_int index.

(** What [.] of a regular expression does not match. *)
Definition line_terminator (c : Z) : bool := bool_decide (c ∈ [10; 13; 0x2028; 0x2029]).
Definition is_digit (c : Z) : bool := bool_decide (48 ≤ c ≤ 57).

(** The greedy [(.+)-(\d+)$]: the text is split at its last ["-"]. *)
Fixpoint last_dash (s : jsstr) : option (jsstr * jsstr) :=
  match s with
  | [] => None
  | c :: s' =>
      match last_dash s' with
      | Some (a, b) => Some (c :: a, b)
      | None => if decide (c = 45) then Some ([], s') else None
      end
  end.

Fixpoint strip_prefix (p s : jsstr) : option jsstr :=
  match p, s with
  | [], _ => Some s
  | a :: p', b :: s' => if decide (a = b) then strip_prefix p' s' else None
  | _ :: _, [] => None
  end.

Definition parseDataChannelLabel (label : jsstr) : option (jsstr * num) :=
  match strip_prefix label_prefix label with
  | None => None
  | Some rest =>
      match last_dash rest with
      | Some (id, idx) =>
          if negb (bool_decide (id = [])) && forallb (λ c, negb (line_terminator c)) id
             && negb (bool_decide (idx = [])) && forallb is_digit idx
          then Some (id, Number idx) else None
      | None => None
      end
  end.

Lemma strip_prefix_app p s : strip_prefix p (p ++ s) = Some s.
Proof. induction p as [|c p IH]; simpl; [done|]. by rewrite decide_True. Qed.

Lemma strip_prefix_Some p s r : strip_prefix p s = Some r → s = p ++ r.
Proof.
  revert s. induction p as [|a p IH]; intros [|b s]; simpl; try naive_solver.
  case_decide; [|done]. intros Hs. subst. f_equal. auto.
Qed.

Lemma last_dash_app a b : 45 ∉ b → last_dash (a ++ 45 :: b) = Some (a, b).
Proof.
  intros Hb. induction a as [|c a IH]; simpl.
  - replace (last_dash b) with (@None (jsstr * jsstr)); [done|].
    induction b as [|c b IHb]; [done|]. apply not_elem_of_cons in Hb as [? Hb]. simpl.
    rewrite <- IHb by done. by rewrite decide_False.
  - by rewrite IH.
Qed.

Lemma forallb_digits s : Forall (λ c, 48 ≤ c ≤ 57) s → forallb is_digit s = true.
Proof.
  induction 1 as [|c s Hc _ IH]; [done|]. simpl. unfold is_digit at 1.
  by rewrite bool_decide_eq_true_2, IH.
Qed.

(** A label can be parsed whatever the dashes and digits of the id. *)
Lemma parse_label id i :
  0 ≤ i → parseDataChannelLabel (dataChannelLabel id i)
  = if negb (bool_decide (id = [])) && forallb (λ c, negb (line_terminator c)) id
    then Some (id, num_of_Z i) else None.
Proof.
  intros Hi. destruct (print_int_spec i Hi) as (Hne & Hall & Hd).
  unfold parseDataChannelLabel, dataChannelLabel.
  rewrite strip_prefix_app. change (js "-" ++ print_int i) with (45 :: print_int i).
  rewrite last_dash_app.
  - rewrite (bool_decide_eq_false_2 (print_int i = [])) by done.
    rewrite (forallb_digits _ Hall). cbn [negb]. rewrite !andb_true_r.
    by rewrite (Number_digits _ i Hne Hall Hd Hi).
  - intros Hin. rewrite Forall_forall in Hall. specialize (Hall _ Hin). lia.
Qed.

(** the label of a data channel leads back to its transfer and its lane, for
    every transfer id that is neither empty nor holds a line terminator — the ids
    that contain ["-"] and digits included — and an id that is or does is not
    recognised at all. *)
Theorem label_roundtrip id i :
  0 ≤ i →
  (id ≠ [] → (∀ c, c ∈ id → line_terminator c = false) →
     parseDataChannelLabel (dataChannelLabel id i) = Some (id, num_of_Z i))
  ∧ (id = [] ∨ (∃ c, c ∈ id ∧ line_terminator c = true) →
     parseDataChannelLabel (dataChannelLabel id i) = None).
Proof.
  intros Hi. rewrite parse_label by done. split.
  - intros Hne Hlt. rewrite bool_decide_eq_false_2 by done. cbn [negb andb].
    replace (forallb _ id) with true; [done|]. symmetry. apply forallb_forall.
    intros c Hc%list_elem_of_In. by rewrite Hlt.
  - intros [->|(c & Hc & Hlt)]; [done|].
    replace (forallb _ id) with false; [by rewrite andb_false_r|].
    symmetry. apply not_true_iff_false. intros Hall. rewrite forallb_forall in Hall.
    specialize (Hall c). rewrite Hlt in Hall. by discriminate Hall; apply list_elem_of_In.
Qed.

Lemma label_roundtrip_witness :
  0 ≤ 7 ∧ parseDataChannelLabel (dataChannelLabel (js "a-1-2") 7) = Some (js "a-1-2", num_of_Z 7).
Proof.
  split; [lia|]. apply (proj1 (label_roundtrip (js "a-1-2") 7 ltac:(lia))); [done|].
  by apply (proj1 (Forall_forall (λ c, line_terminator c = false) _)); repeat constructor.
Defined.

(** The control channel is not taken for a data channel. *)
Example control_label : parseDataChannelLabel CONTROL_CHANNEL_LABEL = None.
Proof. vm_compute. reflexivity. Qed.

(** * File names *)

(** The class [UNSAFE]: the control characters, [<], [>], [:], the double quote,
    the bar, the question mark and the star. *)
Definition UNSAFE (c : Z) : bool :=
  bool_decide (0 ≤ c ≤ 0x1f) || bool_decide (c ∈ [60; 62; 58; 34; 124; 63; 42]).
Definition is_sep (c : Z) : bool := bool_decide (c ∈ [47; 92]).

(** [name.split(/[/\\]/).pop()]. *)
Fixpoint last_segment (s : jsstr) : jsstr :=
  match s with
  | [] => []
  | c :: s' => if existsb is_sep s' then last_segment s'
               else if is_sep c then s' else s
  end.

(** [replace(/^\.+/, '')]. *)
Fixpoint strip_dots (s : jsstr) : jsstr :=
  match s with
  | c :: s' => if decide (c = 46) then strip_dots s' else s
  | [] => []
  end.

Definition sanitizeFileName (name : jsstr) : jsstr :=
  let base := last_segment name in
  let cleaned := trim (strip_dots (filter (λ c, UNSAFE c = false) base)) in
  if decide (0 < blen cleaned) then take 255 cleaned else js "download".

Lemma trimStart_sub s c : c ∈ trimStart s → c ∈ s.
Proof. induction s as [|d s IH]; simpl; [done|]. destruct (is_space d); [|done]. intros. right. auto. Qed.

Lemma trim_sub s c : c ∈ trim s → c ∈ s.
Proof.
  unfold trim. rewrite elem_of_reverse. intros H%trimStart_sub. rewrite elem_of_reverse in H.
  by apply trimStart_sub.
Qed.

Lemma strip_dots_sub s c : c ∈ strip_dots s → c ∈ s.
Proof. induction s as [|d s IH]; simpl; [done|]. destruct (decide (d = 46)); [|done]. intros. right. auto. Qed.

Lemma last_segment_no_sep s c : c ∈ last_segment s → is_sep c = false.
Proof.
  induction s as [|d s IH]; simpl; [by intros ?%not_elem_of_nil|].
  destruct (existsb is_sep s) eqn:E; [done|].
  assert (Hs : c ∈ s → is_sep c = false).
  { intros Hc. apply not_true_iff_false. intros Hsep. apply not_true_iff_false in E. apply E.
    apply existsb_exists. exists c. by rewrite <- list_elem_of_In. }
  destruct (is_sep d) eqn:Ed; [done|]. intros [->|]%elem_of_cons; auto.
Qed.

Lemma last_segment_plain s : (∀ c, c ∈ s → is_sep c = false) → last_segment s = s.
Proof.
  intros Hs. destruct s as [|d s]; [done|]. simpl.
  replace (existsb is_sep s) with false; [rewrite Hs; [done|left]|].
  symmetry. apply not_true_iff_false. intros (c & Hc & Hsep)%existsb_exists.
  rewrite Hs in Hsep; [done|]. right. by apply list_elem_of_In.
Qed.

Lemma trimStart_head s c : head (trimStart s) = Some c → is_space c = false.
Proof. induction s as [|d s IH]; simpl; [done|]. case_match; [done|]. by intros [= ->]. Qed.

(** Trimming the end of a text that starts with no white space keeps its start. *)
Lemma trim_head s c : is_space c = false → ∃ r, trim (c :: s) = c :: r.
Proof.
  intros Hc. unfold trim. simpl. rewrite Hc, reverse_cons.
  assert (Hgen : ∀ l, ∃ r, trimStart (l ++ [c]) = r ++ [c]).
  { induction l as [|d l IH]; simpl; [rewrite Hc; by exists []|].
    destruct (is_space d); [done|]. by exists (d :: l). }
  destruct (Hgen (reverse s)) as [r ->]. exists (reverse r). by rewrite reverse_snoc.
Qed.

Lemma strip_dots_head s : head (strip_dots s) ≠ Some 46.
Proof. induction s as [|c s IH]; simpl; [done|]. case_decide; [done|]. by intros [=]. Qed.

(** A name that needs no cleaning. *)
Record plain_name (s : jsstr) : Prop := {
  plain_chars : ∀ c, c ∈ s → UNSAFE c = false ∧ is_sep c = false;
  plain_dot : head s ≠ Some 46;
  plain_trim : trim s = s;
  plain_len : 0 < blen s ≤ 255;
}.

(** whatever the offer says, the sanitised name is not empty, has at most 255
    code units, and holds no separator, control or reserved character; it starts
    with a dot only if the cleaned last segment of the name started with white
    space; and a name that needs no cleaning is returned unchanged. *)
Theorem sanitize_safe name :
  let r := sanitizeFileName name in
  0 < blen r ≤ 255
  ∧ (∀ c, c ∈ r → UNSAFE c = false ∧ is_sep c = false)
  ∧ (head r = Some 46 →
     ∃ c, head (strip_dots (filter (λ c, UNSAFE c = false) (last_segment name))) = Some c
          ∧ is_space c = true)
  ∧ (plain_name name → r = name).
Proof.
  unfold sanitizeFileName. set (b := filter _ _). split; [|split; [|split]].
  - destruct (decide (0 < blen (trim (strip_dots b)))); [|by vm_compute].
    unfold blen in *. rewrite length_take. lia.
  - intros c. destruct (decide (0 < _)).
    + intros Hc%subseteq_take. apply trim_sub, strip_dots_sub in Hc as Hc'.
      apply list_elem_of_filter in Hc' as [? Hc']. split; [done|].
      by eapply last_segment_no_sep.
    + revert c. apply (Forall_forall (λ c, UNSAFE c = false ∧ is_sep c = false)).
      by repeat constructor.
  - destruct (decide (0 < _)) as [Hpos|]; [|done].
    destruct (strip_dots b) as [|c s] eqn:Eb; [done|]. intros Hh. exists c. split; [done|].
    destruct (is_space c) eqn:Ec; [done|]. destruct (trim_head s c Ec) as [r Hr].
    rewrite Hr in Hh. injection Hh as ->. by destruct (strip_dots_head b); rewrite Eb.
  - intros [Hch Hdot Htr Hlen]. subst b.
    rewrite last_segment_plain by (by intros; apply Hch).
    assert (Hf : filter (λ c, UNSAFE c = false) name = name).
    { clear -Hch. induction name as [|c s IH]; [done|].
      rewrite filter_cons_True by (apply Hch; left). f_equal. apply IH.
      intros. apply Hch. by right. }
    rewrite Hf. replace (strip_dots name) with name.
    + rewrite Htr, decide_True by lia. apply take_ge. unfold blen in Hlen. lia.
    + destruct name as [|c s]; [done|]. simpl. rewrite decide_False; [done|]. by intros ->.
Qed.

(** The dots are stripped before the white space is: a name whose last segment is
    [" .."] comes out as [".."], the parent directory. *)
Theorem sanitize_parent_directory :
  sanitizeFileName (js "x/ ..") = js ".." ∧ sanitizeFileName (js " .bashrc") = js ".bashrc"
  ∧ sanitizeFileName (js "../../etc/passwd") = js "passwd"
  ∧ sanitizeFileName (js "..") = js "download".
Proof. split_and!; by vm_compute. Qed.
