(* ===== verification/Checksum.v ===== *)
(** The order-independent digest of a chunked file
    (packages/sdk/src/filetransfer/checksum.ts).

    SHA-256 is WebCrypto's: the interface [SubtleCrypto] and what its
    documentation promises, [SubtleCryptoLaws] (32 bytes). *)

From Stdlib Require Import Sorted.
From S2P Require Import Prelude JsMap JsNumber Uint8Array.

Class SubtleCrypto := sha256 : bytes → bytes.

Class SubtleCryptoLaws `{SubtleCrypto} := {
  sha256_len b : blen (sha256 b) = 32;
  sha256_ok b : bytes_ok (sha256 b);
}.

(** * The accumulator *)

(** [_digests]: the hash of each chunk, by sequence number. *)
Abbreviation Sha256Digest := (jmap Z bytes).

(** [b.toString(16).padStart(2, '0')]. *)
Definition hex_digit (d : Z) : Z := if decide (d < 10) then 48 + d else 87 + d.
Fixpoint hex (l : bytes) : jsstr :=
  match l with
  | [] => []
  | b :: l' => hex_digit (b / 16) :: hex_digit (b mod 16) :: hex l'
  end.

Section digest.
Context `{SubtleCrypto}.
Implicit Types (d : Sha256Digest).

Definition newDigest : Sha256Digest := [].
Definition update (seq : Z) (b : bytes) d : Sha256Digest := mset seq (sha256 b) d.
Definition reset d : Sha256Digest := [].

Definition sha256Hex (b : bytes) : jsstr := hex (sha256 b).

(** [[...this._digests.keys()].sort((a, b) => a - b)]. *)
Definition sorted_seqs d : list Z := stable_sort Z.leb (mkeys d).

(** The loop that fills [joined]; [None] is the [RangeError] of [set]. *)
Fixpoint join_loop d (seqs : list Z) (offset : Z) (joined : bytes) : option bytes :=
  match seqs with
  | [] => Some joined
  | s :: rest =>
      match mget s d with
      | Some h =>
          match u8set joined h offset with
          | Some joined' => join_loop d rest (offset + 32) joined'
          | None => None
          end
      | None => None
      end
  end.

Definition finalize d : option jsstr :=
  let seqs := sorted_seqs d in
  sha256Hex <$> join_loop d seqs 0 (u8new (Z.of_nat (length seqs) * 32)).

(** A run of updates. *)
Definition updates (us : list (Z * bytes)) d : Sha256Digest :=
  fold_left (λ d u, update u.1 u.2 d) us d.
End digest.

(** * Hexadecimal is injective *)

Lemma hex_digit_inj a b : 0 ≤ a < 16 → 0 ≤ b < 16 → hex_digit a = hex_digit b → a = b.
Proof. unfold hex_digit. intros. repeat case_decide; lia. Qed.

Lemma hex_inj l k : bytes_ok l → bytes_ok k → hex l = hex k → l = k.
Proof.
  intros Hl. revert k. induction Hl as [|a l Ha Hl IH]; intros [|b k] Hk Heq; simpl in Heq; try done.
  apply Forall_cons in Hk as [Hb Hk]. injection Heq as H1 H2 Heq. unfold byte_ok in *.
  apply hex_digit_inj in H1; [|split; [apply Z.div_pos; lia|apply Z.div_lt_upper_bound; lia]..].
  apply hex_digit_inj in H2; [|apply Z.mod_pos_bound; lia..].
  rewrite (Z.div_mod a 16), (Z.div_mod b 16), H1, H2, (IH k) by done. done.
Qed.

(** * Sorting the keys *)

Lemma sort_keys_sorted l : StronglySorted Z.le (stable_sort Z.leb l).
Proof.
  assert (Hs : StronglySorted (λ a b, Z.leb a b = true) (stable_sort Z.leb l)).
  { apply (stable_sort_sorted Z.leb (λ _, True)).
    - intros x y _ _ Hxy. apply Z.leb_gt in Hxy. apply Z.leb_le. lia.
    - intros x y z _ _ _ Hx%Z.leb_le Hy%Z.leb_le. apply Z.leb_le. lia.
    - by apply Forall_forall. }
  induction Hs as [|x k Hs IH Hx]; [constructor|]. apply SSorted_cons; [done|].
  rewrite Forall_forall in *. intros y Hy. by apply Z.leb_le, Hx.
Qed.

Lemma sorted_perm_eq (l k : list Z) :
  StronglySorted Z.le l → StronglySorted Z.le k → l ≡ₚ k → l = k.
Proof.
  intros Hl. revert k. induction Hl as [|x l Hl IH Hx]; intros k Hk Hp.
  { by apply Permutation_nil_l in Hp. }
  destruct Hk as [|y k Hk Hy]; [by apply Permutation_nil_r in Hp|].
  rewrite Forall_forall in Hx, Hy.
  assert (x ≤ y ∧ y ≤ x) as [? ?].
  { assert (y ∈ x :: l) as Hy1 by (rewrite Hp; left).
    assert (x ∈ y :: k) as Hx1 by (rewrite <- Hp; left).
    rewrite elem_of_cons in Hy1, Hx1.
    destruct Hy1 as [->|Hy1]; [done|]. destruct Hx1 as [->|Hx1]; [done|]. auto. }
  replace y with x in * by lia. f_equal. apply IH; [done|]. by apply Permutation_cons_inv in Hp.
Qed.

Lemma stable_sort_perm_eq l k : l ≡ₚ k → stable_sort Z.leb l = stable_sort Z.leb k.
Proof.
  intros Hp. apply sorted_perm_eq; [apply sort_keys_sorted..|]. by rewrite !stable_sort_perm.
Qed.

(** * The digest *)

Section digest_lemmas.
Context `{SubtleCryptoLaws}.
Implicit Types (us : list (Z * bytes)).

Definition hashed us : Sha256Digest := (λ u, (u.1, sha256 u.2)) <$> us.

Lemma hashed_keys us : mkeys (hashed us) = us.*1.
Proof. unfold mkeys, hashed. rewrite <- list_fmap_compose. by apply list_fmap_ext. Qed.

Lemma updates_app us us' d : updates (us ++ us') d = updates us' (updates us d).
Proof. apply fold_left_app. Qed.

Lemma updates_fresh us : NoDup us.*1 → updates us newDigest = hashed us.
Proof.
  induction us as [|u us IH] using rev_ind; intros Hnd; [done|].
  rewrite fmap_app in Hnd. apply NoDup_app in Hnd as (Hnd & Hni & _).
  rewrite updates_app, IH by done. unfold updates. cbn [fold_left]. unfold update.
  rewrite mset_absent; [unfold hashed; by rewrite fmap_app|].
  apply mget_None_keys. rewrite hashed_keys. intros Hin. apply (Hni _ Hin). left.
Qed.

(** The hashes in the order of the sequence numbers. *)
Definition joined_hashes (us : list (Z * bytes)) (seqs : list Z) : bytes :=
  concat ((λ s, default [] (mget s (hashed us))) <$> seqs).

Lemma hashed_get us s : mget s (hashed us) = sha256 <$> mget s us.
Proof. induction us as [|[k b] us IH]; simpl; [done|]. case_decide; simpl; done. Qed.

Lemma join_loop_spec us seqs pre :
  (∀ s, s ∈ seqs → is_Some (mget s us)) →
  join_loop (hashed us) seqs (blen pre) (pre ++ u8new (Z.of_nat (length seqs) * 32))
  = Some (pre ++ joined_hashes us seqs).
Proof.
  revert pre. induction seqs as [|s seqs IH]; intros pre Hs; [done|]. cbn [join_loop].
  destruct (Hs s) as [b Hb]; [left|]. rewrite hashed_get, Hb. cbn [fmap option_fmap option_map].
  pose proof (sha256_len b) as Hlen. unfold u8set.
  rewrite decide_True; [|rewrite blen_app, blen_u8new, Hlen by lia; pose proof (blen_nonneg pre); cbn [length]; lia].
  rewrite take_app_le by (unfold blen; lia). rewrite take_ge by (unfold blen; lia).
  rewrite drop_app_ge by (unfold blen; lia).
  replace (pre ++ sha256 b ++ drop _ _) with
    ((pre ++ sha256 b) ++ u8new (Z.of_nat (length seqs) * 32)).
  - replace (blen pre + 32) with (blen (pre ++ sha256 b)) by (rewrite blen_app; lia).
    rewrite IH by (intros; apply Hs; by right). unfold joined_hashes.
    rewrite fmap_cons, <- app_assoc. cbn [concat]. do 3 f_equal.
    rewrite hashed_get, Hb. done.
  - rewrite <- app_assoc. do 2 f_equal. unfold u8new. rewrite drop_replicate. f_equal.
    rewrite Hlen. unfold blen. cbn [length]. lia.
Qed.

Lemma finalize_spec us :
  NoDup us.*1 →
  finalize (updates us newDigest)
  = Some (sha256Hex (joined_hashes us (stable_sort Z.leb us.*1))).
Proof.
  intros Hnd. rewrite updates_fresh by done. unfold finalize, sorted_seqs. rewrite hashed_keys.
  pose proof (join_loop_spec us (stable_sort Z.leb us.*1) []) as Hj. cbn [app blen length] in Hj.
  change (blen []) with 0 in Hj. rewrite Hj; [done|].
  intros s Hs. rewrite stable_sort_perm in Hs. by apply mget_is_Some_keys.
Qed.

Lemma concat_blocks_inj (ls ks : list bytes) :
  Forall2 (λ l k, length l = length k) ls ks → concat ls = concat ks → ls = ks.
Proof.
  induction 1 as [|l k ls ks Hlk _ IH]; [done|]. simpl. intros Heq.
  apply app_inj_1 in Heq as [-> Heq]; [|done]. f_equal. auto.
Qed.
End digest_lemmas.

Section digest_theorems.
Context `{SubtleCryptoLaws}.

Lemma blocks_same us us' seqs :
  (∀ s, s ∈ seqs → is_Some (mget s us) ∧ is_Some (mget s us')) →
  joined_hashes us seqs = joined_hashes us' seqs →
  ∀ s, s ∈ seqs → sha256 <$> mget s us = sha256 <$> mget s us'.
Proof.
  unfold joined_hashes. intros Hs Heq%concat_blocks_inj.
  - intros s Hin. destruct (Hs s Hin) as [[b Hb] [b' Hb']].
    assert (default [] (mget s (hashed us)) = default [] (mget s (hashed us'))) as Hd.
    { apply list_elem_of_lookup in Hin as [i Hi].
      apply (f_equal (λ l, l !! i)) in Heq. rewrite !list_lookup_fmap, Hi in Heq.
      by injection Heq. }
    rewrite !hashed_get, Hb, Hb' in Hd. rewrite Hb, Hb'. simpl in *. by rewrite Hd.
  - clear Heq. induction seqs as [|s seqs IH]; simpl; constructor.
    + destruct (Hs s) as [[b Hb] [b' Hb']]; [left|]. rewrite !hashed_get, Hb, Hb'. simpl.
      pose proof (sha256_len b). pose proof (sha256_len b'). unfold blen in *. lia.
    + apply IH. intros. apply Hs. by right.
Qed.

Lemma finalize_perm us us' :
  NoDup us.*1 → us ≡ₚ us' →
  finalize (updates us newDigest) = finalize (updates us' newDigest).
Proof.
  intros Hnd Hp. assert (NoDup us'.*1) as Hnd' by (by rewrite <- Hp).
  rewrite !finalize_spec by done. do 2 f_equal.
  assert (Hk : us.*1 ≡ₚ us'.*1) by (by rewrite Hp).
  rewrite (stable_sort_perm_eq _ _ Hk). unfold joined_hashes. f_equal.
  apply list_fmap_ext. intros i s _. f_equal. rewrite !hashed_get. f_equal.
  destruct (mget s us) as [b|] eqn:E.
  - symmetry. apply elem_mget; [done|]. rewrite <- Hp. by apply mget_elem.
  - symmetry. apply mget_None_keys. unfold mkeys. rewrite <- Hk. by apply mget_None_keys.
Qed.

(** two accumulators that hashed the same chunks, in whatever order they
    arrived, finalize to the same text. *)
Theorem digest_order_independent us us' :
  NoDup us.*1 → us ≡ₚ us' →
  finalize (updates us newDigest) = finalize (updates us' newDigest).
Proof. apply finalize_perm. Qed.

Lemma digest_binds us us' :
  NoDup us.*1 → NoDup us'.*1 → us.*1 ≡ₚ us'.*1 →
  finalize (updates us newDigest) = finalize (updates us' newDigest) →
  (∀ s, mget s us = mget s us') ∨ (∃ x y, x ≠ y ∧ sha256 x = sha256 y).
Proof.
  intros Hnd Hnd' Hk. rewrite !finalize_spec by done. rewrite <- (stable_sort_perm_eq _ _ Hk).
  set (seqs := stable_sort Z.leb us.*1). intros [= Heq%hex_inj]; [|apply sha256_ok..].
  destruct (decide (joined_hashes us seqs = joined_hashes us' seqs)) as [Hj|]; [|by right; eauto].
  assert (Hin : ∀ s, s ∈ seqs ↔ s ∈ us.*1) by (intros; unfold seqs; by rewrite stable_sort_perm).
  pose proof (blocks_same us us' seqs) as Hb.
  destruct (decide (Forall (λ s, mget s us = mget s us') seqs)) as [Hall|Hno].
  - left. intros s. rewrite Forall_forall in Hall.
    destruct (decide (s ∈ us.*1)) as [Hs|Hs]; [by apply Hall, Hin|].
    transitivity (@None bytes); [by apply mget_None_keys|].
    symmetry. apply mget_None_keys. unfold mkeys. by rewrite <- Hk.
  - right. apply not_Forall_Exists, Exists_exists in Hno as (s & Hs & Hne); [|apply _].
    assert (Hsome : ∀ s, s ∈ seqs → is_Some (mget s us) ∧ is_Some (mget s us')).
    { intros s' Hs'%Hin. split; apply mget_is_Some_keys; [done|]. unfold mkeys. by rewrite <- Hk. }
    specialize (Hb Hsome Hj s Hs). destruct (Hsome s Hs) as [[b Eb] [b' Eb']].
    simpl in Hne. rewrite Eb, Eb' in Hb, Hne. injection Hb as Hb. exists b, b'.
    split; [congruence|done].
Qed.
(** the digest binds the file: when two accumulators that hold the same
    sequence numbers finalize to the same text, either all their chunks are the
    same or the run exhibits a collision of SHA-256. *)
Theorem checksum_sound us us' :
  NoDup us.*1 → NoDup us'.*1 → us.*1 ≡ₚ us'.*1 →
  finalize (updates us newDigest) = finalize (updates us' newDigest) →
  (∀ s, mget s us = mget s us') ∨ (∃ x y, x ≠ y ∧ sha256 x = sha256 y).
Proof. apply digest_binds. Qed.
End digest_theorems.

(** A concrete function with the documented shape, to run the model on. *)
Module TestDigest.
#[export] Instance test_sha : SubtleCrypto := λ b,
  take 32 (((λ x, x mod 256) <$> b) ++ replicate 32 0).
#[export, refine] Instance test_sha_laws : SubtleCryptoLaws := {}.
Proof.
  - intros b. unfold sha256, test_sha, blen. rewrite length_take, length_app, length_replicate. lia.
  - intros b. unfold sha256, test_sha, bytes_ok. apply Forall_take, Forall_app. split.
    + apply Forall_fmap, Forall_forall. intros x _. apply Z.mod_pos_bound. lia.
    + apply Forall_replicate. unfold byte_ok. lia.
Defined.
End TestDigest.

Lemma digest_order_independent_witness :
  let _ := TestDigest.test_sha in
  finalize (updates [(1, [7]); (0, [9; 9]); (2, [])] newDigest)
  = finalize (updates [(2, []); (0, [9; 9]); (1, [7])] newDigest).
Proof.
  intros sha. apply (@digest_order_independent _ TestDigest.test_sha_laws).
  - by apply (bool_decide_unpack _).
  - by apply (bool_decide_unpack _).
Defined.

Lemma checksum_sound_witness :
  let _ := TestDigest.test_sha in
  (∀ s, mget s [(1, [7]); (0, [9])] = mget s [(0, [9]); (1, [7])])
  ∨ (∃ x y, x ≠ y ∧ sha256 x = sha256 y).
Proof.
  intros sha. apply (@checksum_sound _ TestDigest.test_sha_laws [(1, [7]); (0, [9])] [(0, [9]); (1, [7])]).
  - by apply (bool_decide_unpack _).
  - by apply (bool_decide_unpack _).
  - by apply (bool_decide_unpack _).
  - vm_compute. reflexivity.
Defined.
