(* ===== verification/Sink.v ===== *)
(** Where a received file goes: the interface [StorageSink]
    (packages/sdk/src/filetransfer/sink/StorageSink.ts), what the receiver relies
    on as laws, and the in-memory implementation (MemorySink.ts). *)

From S2P Require Import Prelude Uint8Array.

Record FileMetadata := mkMeta { md_name : jsstr; md_mimeType : jsstr; md_size : Z }.

(** [bytes] and the type of [blob]; [path] is the Node sinks'. *)
Record SinkResult := mkSinkResult { sr_bytes : option bytes; sr_blobType : option jsstr }.

(** [open] may throw before it returns a promise, or reject later. *)
Inductive open_outcome := OpenOk | OpenThrows | OpenRejects.

(** The boolean of [write] says that it threw or rejected. *)
Class StorageSink (K : Type) := {
  sink_open : FileMetadata → K → K * open_outcome;
  sink_write : Z → bytes → K → K * bool;
  sink_close : K → K * option SinkResult;
  sink_abort : K → K;
}.

(** A sink stores what is written at its offset: the contents start as [size]
    zeros, a write inside them that succeeds replaces the range, and the result
    of [close] is the contents. *)
Class StorageSinkLaws (K : Type) `{StorageSink K} := {
  sink_contents : K → bytes;
  sink_open_law m k k' :
    0 ≤ md_size m → sink_open m k = (k', OpenOk) → sink_contents k' = u8new (md_size m);
  sink_write_law off d k k' :
    0 ≤ off → off + blen d ≤ blen (sink_contents k) → sink_write off d k = (k', false) →
    u8set (sink_contents k) d off = Some (sink_contents k');
  sink_close_law k k' r :
    sink_close k = (k', Some r) → sr_bytes r = Some (sink_contents k);
}.

(** * MemorySink *)

(** The longest array the engine allocates; a longer one is a [RangeError]. *)
Class JsEngine := max_byte_length : Z.

Record MemorySink := mkMemorySink { ms_buffer : option bytes; ms_mime : jsstr }.

Definition newMemorySink : MemorySink := mkMemorySink None (js "application/octet-stream").

Section memory.
Context `{JsEngine}.

Definition u8alloc (n : Z) : option bytes :=
  if decide (0 ≤ n ≤ max_byte_length) then Some (u8new n) else None.

(** [None]: the allocation threw. *)
Definition ms_open (meta : FileMetadata) (k : MemorySink) : option MemorySink :=
  b ← u8alloc (md_size meta);
  Some (mkMemorySink (Some b) (if decide (md_mimeType meta = []) then ms_mime k else md_mimeType meta)).

(** [None]: an allocation threw, or [set] did at a negative offset. *)
Definition ms_write (offset : Z) (data : bytes) (k : MemorySink) : option MemorySink :=
  buffer ← match ms_buffer k with
           | None => u8alloc (offset + blen data)
           | Some b => Some b
           end;
  grown ← (if decide (blen buffer < offset + blen data)
           then new ← u8alloc (offset + blen data); u8set new buffer 0
           else Some buffer);
  b ← u8set grown data offset;
  Some (mkMemorySink (Some b) (ms_mime k)).

Definition ms_close (k : MemorySink) : SinkResult :=
  let b := match ms_buffer k with Some b => b | None => u8new 0 end in
  mkSinkResult (Some b) (Some (ms_mime k)).

Definition ms_abort (k : MemorySink) : MemorySink := mkMemorySink None (ms_mime k).

#[export] Instance memory_sink : StorageSink MemorySink := {
  sink_open m k := match ms_open m k with
                   | Some k' => (k', OpenOk)
                   | None => (k, OpenThrows)
                   end;
  sink_write off d k := match ms_write off d k with
                        | Some k' => (k', false)
                        | None => (k, true)
                        end;
  sink_close k := (k, Some (ms_close k));
  sink_abort := ms_abort;
}.

Definition ms_contents (k : MemorySink) : bytes := default [] (ms_buffer k).

Lemma u8alloc_some n : 0 ≤ n ≤ max_byte_length → u8alloc n = Some (u8new n).
Proof. intros. unfold u8alloc. by rewrite decide_True. Qed.

Lemma u8new_lookup n i : u8new n !! i = if decide (Z.of_nat i < n) then Some 0 else None.
Proof.
  unfold u8new. case_decide; [by apply lookup_replicate_2; lia|].
  apply lookup_replicate_None. lia.
Qed.

(** The buffer a write goes to: long enough, the old contents and zeros. *)
Lemma ms_grow off data k :
  0 ≤ off → off + blen data ≤ max_byte_length →
  ∃ b, (buffer ← match ms_buffer k with
                 | None => u8alloc (off + blen data) | Some b => Some b end;
        if decide (blen buffer < off + blen data)
        then new ← u8alloc (off + blen data); u8set new buffer 0
        else Some buffer) = Some b
    ∧ blen b = Z.max (blen (ms_contents k)) (off + blen data)
    ∧ ∀ i, b !! i = if decide (Z.of_nat i < blen (ms_contents k)) then ms_contents k !! i
            else if decide (Z.of_nat i < off + blen data) then Some 0 else None.
Proof.
  intros Hoff Hmax. pose proof (blen_nonneg data). unfold ms_contents.
  destruct (ms_buffer k) as [b|]; cbn [default from_option id mbind option_bind].
  - pose proof (blen_nonneg b) as Hb. destruct (decide (blen b < off + blen data)).
    + rewrite u8alloc_some by lia. cbn [mbind option_bind].
      destruct (u8set_some (u8new (off + blen data)) b 0) as (b' & -> & Hl & Hi);
        [lia|rewrite blen_u8new; lia|].
      rewrite blen_u8new in Hl by lia. eexists. split; [done|]. split; [lia|].
      intros i. rewrite Hi, u8new_lookup.
      destruct (decide (Z.of_nat i < blen b)); [rewrite decide_True by lia; f_equal; simpl; lia|].
      by rewrite decide_False by lia.
    + eexists. split; [done|]. split; [lia|]. intros i. destruct (decide _); [done|].
      rewrite decide_False by lia. apply lookup_ge_None. unfold blen in *. lia.
  - rewrite u8alloc_some by lia. cbn [mbind option_bind].
    rewrite (decide_False (P := blen (u8new (off + blen data)) < off + blen data))
      by (rewrite blen_u8new; lia).
    eexists. split; [done|]. change (blen []) with 0. rewrite blen_u8new by lia.
    split; [lia|]. intros i. rewrite u8new_lookup, (decide_False (P := Z.of_nat i < 0)) by lia. done.
Qed.

(** a write to the memory sink at a non-negative offset, within what the
    engine can allocate, does not throw; the buffer then reads as the data inside
    the written range and as before elsewhere, with zeros in a gap it had to grow
    over, and is never shorter than before. *)
Theorem memory_sink_write off data k :
  0 ≤ off → off + blen data ≤ max_byte_length →
  ∃ k', ms_write off data k = Some k'
    ∧ blen (ms_contents k') = Z.max (blen (ms_contents k)) (off + blen data)
    ∧ ∀ i, ms_contents k' !! i =
        if decide (off ≤ Z.of_nat i < off + blen data) then data !! (i - Z.to_nat off)%nat
        else if decide (Z.of_nat i < blen (ms_contents k)) then ms_contents k !! i
        else if decide (Z.of_nat i < off) then Some 0 else None.
Proof.
  intros Hoff Hmax. pose proof (blen_nonneg data) as Hd.
  destruct (ms_grow off data k Hoff Hmax) as (b & Hb & Hlen & Hi).
  destruct (u8set_some b data off) as (b' & Hset & Hl' & Hi'); [done|lia|].
  exists (mkMemorySink (Some b') (ms_mime k)). unfold ms_contents in *. split; [|split].
  - unfold ms_write. revert Hb. destruct (match ms_buffer k with
      | None => _ | Some b => _ end) as [b0|]; [|done]. cbn [mbind option_bind]. intros ->.
    cbn [mbind option_bind]. by rewrite Hset.
  - cbn. lia.
  - intros i. cbn [ms_buffer default from_option id]. rewrite Hi', Hi.
    destruct (decide (off ≤ Z.of_nat i < off + blen data)); [done|].
    destruct (decide (Z.of_nat i < blen _)); [done|].
    destruct (decide (Z.of_nat i < off)); [rewrite decide_True by lia; done|].
    by rewrite decide_False by lia.
Qed.

#[export, refine] Instance memory_sink_laws : StorageSinkLaws MemorySink := {
  sink_contents := ms_contents;
}.
Proof.
  - intros m k k' Hm. cbn [sink_open memory_sink]. unfold ms_open, u8alloc.
    destruct (decide (0 ≤ md_size m ≤ max_byte_length)); [|done].
    cbn [mbind option_bind]. by intros [= <-].
  - intros off d k k' Hoff Hin Hw. cbn [sink_write memory_sink] in Hw. unfold ms_write in Hw.
    unfold ms_contents in *. destruct (ms_buffer k) as [b|]; cbn [default from_option id] in *.
    + cbn [mbind option_bind] in Hw. rewrite decide_False in Hw by lia. cbn [mbind option_bind] in Hw.
      destruct (u8set b d off); [|done]. by injection Hw as <-.
    + pose proof (blen_nonneg d). change (blen []) with 0 in Hin. assert (off = 0) as -> by lia.
      destruct d; [|unfold blen in *; cbn [length] in *; lia].
      change (blen []) with 0 in Hw. unfold u8alloc in Hw.
      destruct (decide (0 ≤ 0 + 0 ≤ max_byte_length)); [|done]. by injection Hw as <-.
  - intros k k' r [= <- <-]. unfold ms_close, ms_contents. cbn. by destruct (ms_buffer k).
Defined.
End memory.

(** An engine that allocates up to 64 bytes, to run the model on. *)
Module TestEngine.
#[export] Instance small_engine : JsEngine := 64.
End TestEngine.

Lemma memory_sink_write_witness :
  let _ := TestEngine.small_engine in
  ∃ k', ms_write 2 [7; 8] newMemorySink = Some k'
    ∧ blen (ms_contents k') = Z.max (blen (ms_contents newMemorySink)) (2 + blen [7; 8])
    ∧ ∀ i, ms_contents k' !! i =
        if decide (2 ≤ Z.of_nat i < 2 + blen [7; 8]) then [7; 8] !! (i - Z.to_nat 2)%nat
        else if decide (Z.of_nat i < blen (ms_contents newMemorySink)) then ms_contents newMemorySink !! i
        else if decide (Z.of_nat i < 2) then Some 0 else None.
Proof.
  intros e. apply (@memory_sink_write TestEngine.small_engine 2 [7; 8] newMemorySink);
    by vm_compute.
Defined.
