(* ===== verification/FileSinks.v ===== *)
(** Sinks and sources of the file transfer on a file system
    (packages/sdk/src/filetransfer/node/NodeFileSink.ts, node/NodeFileSource.ts,
    sink/FileSystemAccessSink.ts).

    What the file system answers (that a file could be opened, how much was written or
    read) is an argument; files are known by the path the program uses for them, and
    nothing else changes them meanwhile.  Paths are those of POSIX. *)

From S2P Require Import Prelude JsMap Uint8Array Framing Sink.

(** * Files *)

(** A write of some bytes at a position: zeros in a gap, nothing for no bytes. *)
Definition pwrite (off : Z) (data f : bytes) : bytes :=
  match data with
  | [] => f
  | _ => take (Z.to_nat off) (f ++ u8new (off - blen f)) ++ data ++ drop (Z.to_nat (off + blen data)) f
  end.

(** The files, and how many handles are open. *)
Record Disk := mkDisk { dk_files : jmap jsstr bytes; dk_handles : nat }.
Implicit Types (d : Disk).

(** * [join] of [node:path], for two arguments *)

Definition cSlash : Z := 47.
Definition parent : jsstr := js "..".
Definition here : jsstr := js ".".

Fixpoint segments (p : jsstr) : list jsstr :=
  match p with
  | [] => [[]]
  | c :: p' =>
      if decide (c = cSlash) then [] :: segments p'
      else match segments p' with s :: ss => (c :: s) :: ss | [] => [[c]] end
  end.
Definition is_absolute (p : jsstr) : bool := bool_decide (head p = Some cSlash).

(** [normalizeString]: one segment after the segments so far. *)
Definition resolve_segment (absolute : bool) (acc : list jsstr) (s : jsstr) : list jsstr :=
  if decide (s = [] ∨ s = here) then acc
  else if decide (s = parent) then
    match last acc with
    | None => if absolute then acc else acc ++ [parent]
    | Some l => if decide (l = parent) then acc ++ [parent] else removelast acc
    end
  else acc ++ [s].
Definition resolve_path (p : jsstr) : list jsstr := fold_left (resolve_segment (is_absolute p)) (segments p) [].

Fixpoint with_slashes (l : list jsstr) : jsstr :=
  match l with
  | [] => []
  | [s] => s
  | s :: l' => s ++ cSlash :: with_slashes l'
  end.
Definition normalize (p : jsstr) : jsstr :=
  match p with
  | [] => here
  | _ =>
      let body := with_slashes (resolve_path p) in
      let trailing := bool_decide (last p = Some cSlash) in
      match body with
      | [] => if is_absolute p then [cSlash] else if trailing then here ++ [cSlash] else here
      | _ => (if is_absolute p then [cSlash] else []) ++ body ++ (if trailing then [cSlash] else [])
      end
  end.
Definition join (a b : jsstr) : jsstr :=
  match a, b with
  | [], [] => here
  | [], _ => normalize b
  | _, [] => normalize a
  | _, _ => normalize (a ++ cSlash :: b)
  end.

(** * NodeFileSink *)

Record NodeFileSink := mkNodeSink { nk_path : jsstr; nk_dir : option jsstr; nk_handle : bool }.
Implicit Types (k : NodeFileSink).

Definition newNodeFileSink (path : jsstr) (deriveName : bool) : NodeFileSink :=
  mkNodeSink path (if deriveName then Some path else None) false.
Definition intoDirectory (dir : jsstr) : NodeFileSink := newNodeFileSink dir true.

(** [open] up to its [await], and what comes of it: the file is there and empty. *)
Definition nk_open (meta : FileMetadata) k : NodeFileSink :=
  match nk_dir k with
  | Some dir => mkNodeSink (join dir (sanitizeFileName (md_name meta))) (nk_dir k) (nk_handle k)
  | None => k
  end.
Definition nk_opened (ok : bool) (s : NodeFileSink * Disk) : NodeFileSink * Disk :=
  let '(k, d) := s in
  if ok then (mkNodeSink (nk_path k) (nk_dir k) true, mkDisk (mset (nk_path k) [] (dk_files d)) (dk_handles d + 1))
  else s.

(** [write]; [opened]: a file that has to be opened first is.  [written]: how many
    bytes were, [None] for an error.  The boolean says that it threw. *)
Definition nk_write (opened : bool) (written : option nat) (off : Z) (data : bytes) (s : NodeFileSink * Disk)
    : NodeFileSink * Disk * bool :=
  let s1 := if nk_handle s.1 then s else nk_opened opened s in
  if nk_handle s1.1 then
    match written with
    | Some n =>
        let '(k, d) := s1 in
        let f := default [] (mget (nk_path k) (dk_files d)) in
        (k, mkDisk (mset (nk_path k) (pwrite off (take n data) f) (dk_files d)) (dk_handles d), false)
    | None => (s1, true)
    end
  else (s1, true).

Definition nk_release (s : NodeFileSink * Disk) : NodeFileSink * Disk :=
  let '(k, d) := s in
  if nk_handle k then (mkNodeSink (nk_path k) (nk_dir k) false, mkDisk (dk_files d) (dk_handles d - 1)) else s.
(** [close]: the path, unless closing the handle failed. *)
Definition nk_close (ok : bool) (s : NodeFileSink * Disk) : NodeFileSink * Disk * option jsstr :=
  if nk_handle s.1 && negb ok then (s, None) else (nk_release s, Some (nk_path s.1)).
(** [abort]. *)
Definition nk_abort (closed unlinked : bool) (s : NodeFileSink * Disk) : NodeFileSink * Disk :=
  if nk_handle s.1 && negb closed then s
  else
    let '(k, d) := nk_release s in
    (k, if unlinked then mkDisk (mdel (nk_path k) (dk_files d)) (dk_handles d) else d).

(** * FileSystemAccessSink *)

(** The file behind the handle, and the stream's copy until it is closed. *)
Record FileSystemAccessSink := mkAccess { fa_file : bytes; fa_stream : option bytes }.
Implicit Types (a : FileSystemAccessSink).

Definition fa_open (ok : bool) a : FileSystemAccessSink * open_outcome :=
  if ok then (mkAccess (fa_file a) (Some []), OpenOk) else (a, OpenRejects).
(** The boolean says that it threw. *)
Definition fa_write (ok : bool) (off : Z) (data : bytes) a : FileSystemAccessSink * bool :=
  match fa_stream a with
  | None => (a, true)
  | Some f => if ok then (mkAccess (fa_file a) (Some (pwrite off data f)), false) else (a, true)
  end.
Definition fa_close (ok : bool) a : FileSystemAccessSink * bool :=
  match fa_stream a with
  | None => (a, false)
  | Some f => if ok then (mkAccess f None, false) else (a, true)
  end.
(** [has_abort]: the platform's streams have the method. *)
Definition fa_abort (has_abort ok : bool) a : FileSystemAccessSink :=
  if has_abort then match fa_stream a with Some _ => if ok then mkAccess (fa_file a) None else a | None => a end
  else (fa_close ok a).1.

(** * NodeFileSource *)

(** A call of [slice]: waiting for the file to be opened, or for its bytes. *)
Inductive slice_call := Opening (off len : Z) | Reading (off len : Z).

(** [nf_handles]: the handles that are open, [nf_handle] the one that is remembered;
    [nf_closing]: calls of [close] under way; [nf_results]: what the calls gave. *)
Record NodeFileSource := mkNodeSource {
  nf_content : bytes;
  nf_handle : option nat;
  nf_handles : list nat;
  nf_closing : nat;
  nf_calls : list (option slice_call);
  nf_results : list (nat * option bytes);
}.
Section node_source.
Implicit Types (f : NodeFileSource).

Definition newNodeFileSource (content : bytes) : NodeFileSource := mkNodeSource content None [] 0 [] [].

Definition set_calls (l : list (option slice_call)) f : NodeFileSource :=
  mkNodeSource (nf_content f) (nf_handle f) (nf_handles f) (nf_closing f) l (nf_results f).
Definition set_handle (h : option nat) (hs : list nat) (closing : nat) f : NodeFileSource :=
  mkNodeSource (nf_content f) h hs closing (nf_calls f) (nf_results f).
Definition finish_slice (i : nat) (r : option bytes) f : NodeFileSource :=
  mkNodeSource (nf_content f) (nf_handle f) (nf_handles f) (nf_closing f) (<[i := None]> (nf_calls f)) (nf_results f ++ [(i, r)]).

(** A read of a handle that is being closed is refused. *)
Definition slice (off len : Z) f : NodeFileSource :=
  match nf_handle f with
  | None => set_calls (nf_calls f ++ [Some (Opening off len)]) f
  | Some h =>
      let f1 := set_calls (nf_calls f ++ [Some (Reading off len)]) f in
      if decide (h ∈ nf_handles f) then f1 else finish_slice (length (nf_calls f)) None f1
  end.

(** The file is open for the call [i], on the handle [h], or could not be opened. *)
Definition slice_opened (i : nat) (h : option nat) f : NodeFileSource :=
  match mjoin (nf_calls f !! i), h with
  | Some (Opening off len), Some h =>
      set_handle (Some h) (nf_handles f ++ [h]) (nf_closing f) (set_calls (<[i := Some (Reading off len)]> (nf_calls f)) f)
  | Some (Opening _ _), None => finish_slice i None f
  | _, _ => f
  end.
(** [n] bytes at most were read for it, or there was an error. *)
Definition slice_read (i : nat) (n : option Z) f : NodeFileSource :=
  match mjoin (nf_calls f !! i) with
  | Some (Reading off len) => finish_slice i ((λ n, u8slice off (Z.min n len) (nf_content f)) <$> n) f
  | _ => f
  end.
(** [close] up to its [await], and the rest: whatever is remembered is forgotten. *)
Definition nf_close f : NodeFileSource :=
  match nf_handle f with
  | Some h => set_handle (nf_handle f) (filter (λ x, x ≠ h) (nf_handles f)) (nf_closing f + 1) f
  | None => f
  end.
Definition nf_closed f : NodeFileSource :=
  match nf_closing f with
  | O => f
  | S n => set_handle None (nf_handles f) n f
  end.
End node_source.

(** * Contents *)

Lemma pwrite_length off data f : 0 ≤ off → data ≠ [] → blen (pwrite off data f) = Z.max (blen f) (off + blen data).
Proof.
  intros Hoff Hd. unfold pwrite. destruct data as [|x data]; [done|]. remember (x :: data) as l eqn:El. clear El Hd x data.
  unfold blen, u8new in *. rewrite !length_app, length_take, length_drop, length_app, length_replicate. lia.
Qed.

Lemma pwrite_lookup off data f i : 0 ≤ off → data ≠ [] →
  pwrite off data f !! i =
    if decide (off ≤ Z.of_nat i < off + blen data) then data !! (i - Z.to_nat off)%nat
    else if decide (Z.of_nat i < blen f) then f !! i else if decide (Z.of_nat i < off) then Some 0 else None.
Proof.
  intros Hoff Hd. unfold pwrite. destruct data as [|x data]; [done|]. remember (x :: data) as l eqn:El. clear El Hd x data.
  set (pre := take _ _). assert (Hpre : length pre = Z.to_nat off).
  { unfold pre, blen, u8new. rewrite length_take, length_app, length_replicate. lia. }
  destruct (decide (Z.of_nat i < off)) as [Hi|Hi].
  - rewrite decide_False by lia. rewrite lookup_app_l by lia. unfold pre. rewrite lookup_take_lt by lia.
    case_decide; [apply lookup_app_l; unfold blen in *; lia|]. rewrite lookup_app_r by (unfold blen in *; lia).
    unfold u8new, blen in *. apply lookup_replicate_2. lia.
  - rewrite lookup_app_r by lia. rewrite Hpre. case_decide.
    + apply lookup_app_l. unfold blen in *. lia.
    + rewrite lookup_app_r by (unfold blen in *; lia). rewrite lookup_drop. unfold blen in *.
      case_decide; [f_equal; lia|]. apply lookup_ge_None. lia.
Qed.

(** A file as the in-memory sink has it: with zeros up to the size. *)
Definition padded (size : Z) (f : bytes) : bytes := f ++ u8new (size - blen f).

Lemma padded_length size f : blen f ≤ size → blen (padded size f) = size.
Proof. intros. unfold padded. rewrite blen_app, blen_u8new; lia. Qed.
Lemma padded_lookup size f i : blen f ≤ size →
  padded size f !! i = if decide (Z.of_nat i < blen f) then f !! i else if decide (Z.of_nat i < size) then Some 0 else None.
Proof.
  intros Hs. unfold padded. case_decide; [apply lookup_app_l; unfold blen in *; lia|].
  rewrite lookup_app_r by (unfold blen in *; lia). rewrite u8new_lookup. unfold blen in *. by repeat case_decide; try lia.
Qed.

Lemma pwrite_padded size off data f : 0 ≤ off → off + blen data ≤ size → blen f ≤ size →
  u8set (padded size f) data off = Some (padded size (pwrite off data f)) ∧ blen (pwrite off data f) ≤ size.
Proof.
  intros Hoff Hin Hf. destruct (decide (data = [])) as [->|Hd].
  - cbn. split; [|done]. destruct (u8set_some (padded size f) [] off) as (b & -> & Hl & Hi); [done|by rewrite padded_length|].
    f_equal. apply list_eq. intros i. rewrite Hi. change (blen []) with 0. by rewrite decide_False by lia.
  - assert (Hl : blen (pwrite off data f) ≤ size) by (rewrite pwrite_length by done; lia). split; [|done].
    destruct (u8set_some (padded size f) data off) as (b & -> & _ & Hi); [done|by rewrite padded_length|].
    f_equal. apply list_eq. intros i. rewrite Hi, !padded_lookup, pwrite_lookup, pwrite_length by done.
    unfold blen in *. repeat case_decide; try done; try lia.
Qed.

(** * The sinks against the one in memory *)

Lemma fold_none {A B} (g : A → B → option A) (l : list B) : fold_left (λ m w, m ≫= λ m, g m w) l None = None.
Proof. by induction l. Qed.

Section sinks.
Context `{JsEngine}.

Definition memory_writes (ws : list (Z * bytes)) (m : MemorySink) : option MemorySink :=
  fold_left (λ m w, m ≫= λ m, ms_write w.1 w.2 m) ws (Some m).
Definition nk_writes (ws : list (Z * bytes)) (s : NodeFileSink * Disk) : NodeFileSink * Disk :=
  fold_left (λ s w, (nk_write true (Some (length w.2)) w.1 w.2 s).1) ws s.
Definition fa_writes (ws : list (Z * bytes)) a : FileSystemAccessSink := fold_left (λ a w, (fa_write true w.1 w.2 a).1) ws a.
Definition file_writes (ws : list (Z * bytes)) (f : bytes) : bytes := fold_left (λ f w, pwrite w.1 w.2 f) ws f.

Definition within (size : Z) (w : Z * bytes) : Prop := 0 ≤ w.1 ∧ w.1 + blen w.2 ≤ size.

(** The file of a list of writes, against the buffer of the memory sink. *)
Lemma file_memory size ws f mime :
  Forall (within size) ws → blen f ≤ size →
  memory_writes ws (mkMemorySink (Some (padded size f)) mime) = Some (mkMemorySink (Some (padded size (file_writes ws f))) mime)
  ∧ blen (file_writes ws f) ≤ size.
Proof.
  revert f. induction ws as [|[off data] ws IH]; intros f Hws Hf; [done|].
  apply Forall_cons in Hws as [[Hoff Hin] Hws]. cbn [fst snd] in *.
  destruct (pwrite_padded size off data f Hoff Hin Hf) as [Hset Hl].
  unfold memory_writes, file_writes. cbn [fold_left fst snd mbind option_bind].
  assert (Hms : ms_write off data (mkMemorySink (Some (padded size f)) mime) = Some (mkMemorySink (Some (padded size (pwrite off data f))) mime)).
  { unfold ms_write. cbn [ms_buffer ms_mime mbind option_bind]. rewrite padded_length, decide_False by lia. cbn [mbind option_bind]. by rewrite Hset. }
  rewrite Hms. by apply IH.
Qed.

Lemma file_reaches size ws f w :
  Forall (within size) ws → blen f ≤ size → w ∈ ws → w.2 ≠ [] → w.1 + blen w.2 = size → blen (file_writes ws f) = size.
Proof.
  intros Hws Hf Hw Hne Hend. apply list_elem_of_split in Hw as (ws1 & ws2 & ->).
  apply Forall_app in Hws as [Hws1 Hws2]. pose proof Hws2 as Hws3. apply Forall_cons in Hws3 as [[Hoff _] Hws3].
  destruct (file_memory size ws1 f [] Hws1 Hf) as [_ Hl1].
  assert (Hat : blen (pwrite w.1 w.2 (file_writes ws1 f)) = size) by (rewrite pwrite_length by done; lia).
  assert (Hkeep : ∀ ws g, Forall (within size) ws → blen g = size → blen (file_writes ws g) = size).
  { clear. induction ws as [|[off data] ws IH]; intros g Hws Hg; [done|]. apply Forall_cons in Hws as [[Hoff Hin] Hws].
    cbn [file_writes fold_left fst snd] in *. apply IH; [done|]. destruct (decide (data = [])) as [->|Hd]; [done|].
    rewrite pwrite_length by done. lia. }
  unfold file_writes in *. rewrite fold_left_app. cbn [fold_left]. by apply Hkeep.
Qed.

Lemma nk_write_full k d f off data :
  nk_handle k = true → mget (nk_path k) (dk_files d) = Some f →
  nk_write true (Some (length data)) off data (k, d)
  = ((k, mkDisk (mset (nk_path k) (pwrite off data f) (dk_files d)) (dk_handles d)), false).
Proof. intros Hk Hf. unfold nk_write. cbn [fst snd]. rewrite Hk. cbn [fst snd]. by rewrite Hk, Hf, firstn_all. Qed.

Lemma nk_writes_file ws k d f :
  nk_handle k = true → mget (nk_path k) (dk_files d) = Some f →
  let s := nk_writes ws (k, d) in
  s.1 = k ∧ dk_handles s.2 = dk_handles d ∧ mget (nk_path k) (dk_files s.2) = Some (file_writes ws f)
  ∧ ∀ p, p ≠ nk_path k → mget p (dk_files s.2) = mget p (dk_files d).
Proof.
  revert d f. induction ws as [|[off data] ws IH]; intros d f Hk Hf; [done|].
  change (nk_writes ((off, data) :: ws) (k, d)) with (nk_writes ws (nk_write true (Some (length data)) off data (k, d)).1).
  rewrite (nk_write_full k d f) by done. cbv zeta. cbn [fst].
  destruct (IH (mkDisk (mset (nk_path k) (pwrite off data f) (dk_files d)) (dk_handles d)) (pwrite off data f) Hk) as (H1 & H2 & H3 & H4).
  { cbn. by rewrite mget_mset_eq. }
  split_and!; [done..|]. intros p Hp. rewrite H4 by done. cbn. by rewrite mget_mset_ne.
Qed.

(** The sink of a directory, when the file system does what it is asked.  Whatever
    writes within the declared size are made, in whatever order, the file then holds
    what the memory sink would hold, up to zeros at the end that were never written,
    and exactly that once a write has reached the end; it is the file of the
    sanitised name in that directory, no other file is touched, [close] gives its path,
    [abort] removes it, and both leave no handle behind. *)
Theorem node_sink_file dir meta ws d :
  0 ≤ md_size meta ≤ max_byte_length → Forall (within (md_size meta)) ws →
  let path := join dir (sanitizeFileName (md_name meta)) in
  let s := nk_writes ws (nk_opened true (nk_open meta (intoDirectory dir), d)) in
  ∃ file mem, (m ← ms_open meta newMemorySink; memory_writes ws m) = Some mem
    ∧ mget path (dk_files s.2) = Some file
    ∧ ms_contents mem = padded (md_size meta) file
    ∧ ((∃ w, w ∈ ws ∧ w.2 ≠ [] ∧ w.1 + blen w.2 = md_size meta) → file = ms_contents mem)
    ∧ (∀ p, p ≠ path → mget p (dk_files s.2) = mget p (dk_files d))
    ∧ (nk_close true s).2 = Some path ∧ dk_files (nk_close true s).1.2 = dk_files s.2
    ∧ dk_handles (nk_close true s).1.2 = dk_handles d
    ∧ mget path (dk_files (nk_abort true true s).2) = None
    ∧ (∀ p, p ≠ path → mget p (dk_files (nk_abort true true s).2) = mget p (dk_files d))
    ∧ dk_handles (nk_abort true true s).2 = dk_handles d.
Proof.
  intros Hsize Hws. cbv zeta. set (path := join dir _).
  assert (E : nk_opened true (nk_open meta (intoDirectory dir), d)
    = (mkNodeSink path (Some dir) true, mkDisk (mset path [] (dk_files d)) (dk_handles d + 1))) by done.
  rewrite E. destruct (nk_writes_file ws (mkNodeSink path (Some dir) true) (mkDisk (mset path [] (dk_files d)) (dk_handles d + 1)) [])
    as (H1 & H2 & H3 & H4); [done|by cbn; rewrite mget_mset_eq|].
  set (s := nk_writes ws _) in *. destruct s as [k d']. cbn [fst snd nk_path dk_files dk_handles] in *. subst k.
  set (mime := ms_mime (default newMemorySink (ms_open meta newMemorySink))).
  destruct (file_memory (md_size meta) ws [] mime) as [Hmem Hlen]; [done|change (blen []) with 0; lia|].
  assert (Hopen : ms_open meta newMemorySink = Some (mkMemorySink (Some (padded (md_size meta) [])) mime)).
  { unfold mime, ms_open. rewrite u8alloc_some by done. cbn. unfold padded. cbn. by rewrite Z.sub_0_r. }
  exists (file_writes ws []). eexists. split; [rewrite Hopen; cbn [mbind option_bind]; exact Hmem|].
  assert (Hother : ∀ p, p ≠ path → mget p (dk_files d') = mget p (dk_files d)) by (intros p Hp; rewrite H4 by done; by rewrite mget_mset_ne).
  split; [done|]. split; [done|]. split.
  { intros (w & Hw & Hne & Hend). unfold ms_contents. cbn. unfold padded.
    rewrite (file_reaches (md_size meta) ws [] w) by (done || (change (blen []) with 0; lia)). by rewrite Z.sub_diag, app_nil_r. }
  unfold nk_close, nk_abort, nk_release. cbn. split_and!; try done; try lia; [by rewrite mget_mdel_eq|].
  intros p Hp. rewrite mget_mdel_ne by done. by apply Hother.
Qed.

(** The file behind a browser's handle stays as it is until [close], which puts the
    same contents there. *)
Theorem access_sink_file size ws a :
  0 ≤ size → Forall (within size) ws →
  let a1 := fa_writes ws (fa_open true a).1 in
  fa_file a1 = fa_file a
  ∧ memory_writes ws (mkMemorySink (Some (u8new size)) []) = Some (mkMemorySink (Some (padded size (fa_file (fa_close true a1).1))) [])
  ∧ fa_stream (fa_close true a1).1 = None
  ∧ fa_file (fa_abort true true a1) = fa_file a ∧ fa_stream (fa_abort true true a1) = None.
Proof.
  intros Hs Hws. cbv zeta. cbn [fa_open fst].
  assert (Hw : ∀ f, fa_writes ws (mkAccess (fa_file a) (Some f)) = mkAccess (fa_file a) (Some (file_writes ws f))).
  { clear Hws. induction ws as [|[off data] ws IH]; intros f; [done|]. unfold fa_writes. cbn. apply IH. }
  rewrite Hw. destruct (file_memory size ws [] [] Hws) as [Hmem _]; [change (blen []) with 0; lia|].
  unfold padded in Hmem. cbn in Hmem. rewrite Z.sub_0_r in Hmem. split_and!; done.
Qed.
End sinks.

(** * The path in a directory *)

Lemma segments_plain (s : jsstr) : cSlash ∉ s → segments s = [s].
Proof.
  induction s as [|c s IH]; [done|]. intros [Hc Hs]%not_elem_of_cons. cbn. rewrite decide_False by done.
  by rewrite (IH Hs).
Qed.

Lemma segments_cons (p : jsstr) : ∃ s ss, segments p = s :: ss.
Proof. destruct p as [|c p]; cbn; [by do 2 eexists|]. case_decide; [by do 2 eexists|]. destruct (segments p); by do 2 eexists. Qed.

Lemma segments_join (a s : jsstr) : cSlash ∉ s → segments (a ++ cSlash :: s) = segments a ++ [s].
Proof.
  intros Hs. induction a as [|c a IH]; cbn.
  - by rewrite segments_plain.
  - rewrite IH. case_decide; [done|]. by destruct (segments_cons a) as (x & ss & ->).
Qed.

Lemma with_slashes_snoc (l : list jsstr) (s : jsstr) : s ≠ [] → with_slashes (l ++ [s]) ≠ [].
Proof. intros Hs. destruct l as [|x l]; [done|]. cbn. destruct (l ++ [s]) eqn:E; [by destruct l|]. intros Hx. by apply app_nil in Hx as [_ ?]. Qed.

Lemma join_inside (dir s : jsstr) : s ≠ [] → cSlash ∉ s → s ≠ parent → s ≠ here →
  join dir s = (if is_absolute dir then [cSlash] else []) ++ with_slashes (resolve_path dir ++ [s]).
Proof.
  intros Hne Hsep Hp Hh.
  assert (Hnorm : ∀ p, p ≠ [] → last p ≠ Some cSlash → resolve_path p = resolve_path dir ++ [s] →
    normalize p = (if is_absolute p then [cSlash] else []) ++ with_slashes (resolve_path dir ++ [s])).
  { intros p Hpne Hlast Hres. unfold normalize. destruct p as [|c p]; [done|]. rewrite Hres. cbv zeta.
    pose proof (with_slashes_snoc (resolve_path dir) s Hne) as Hw. destruct (with_slashes _); [done|].
    by rewrite (bool_decide_false _ Hlast), app_nil_r. }
  assert (Hseg : ∀ ab acc, resolve_segment ab acc s = acc ++ [s]).
  { intros ab acc. unfold resolve_segment. rewrite decide_False by (by intros []). by rewrite decide_False. }
  assert (Hlast : ∀ l, last (l ++ s) ≠ Some cSlash).
  { intros l. destruct s as [|x s' _] using rev_ind; [done|]. rewrite app_assoc, last_snoc. intros [= ->]. apply Hsep, elem_of_app. right. left. }
  unfold join. destruct dir as [|c dir].
  - destruct s as [|x s']; [done|]. rewrite Hnorm; [|done|by apply (Hlast [])|].
    + unfold is_absolute at 1. rewrite bool_decide_false; [done|]. intros [= ->]. apply Hsep. left.
    + unfold resolve_path at 1. rewrite segments_plain by done. cbn [fold_left]. by rewrite Hseg.
  - destruct s as [|x s']; [done|]. rewrite Hnorm; [done|done| |].
    + rewrite (cons_middle cSlash), app_assoc. apply Hlast.
    + unfold resolve_path. rewrite segments_join, fold_left_app by done. cbn [fold_left]. by rewrite Hseg.
Qed.

(** The file lies in the directory of the sink, whatever name the peer offers, unless
    that comes out of the sanitising as [.] or [..]: what is appended to the resolved
    directory is one segment, and neither of those. *)
Theorem node_sink_inside dir name :
  let s := sanitizeFileName name in
  s ≠ parent → s ≠ here →
  s ≠ [] ∧ (cSlash ∉ s) ∧ join dir s = (if is_absolute dir then [cSlash] else []) ++ with_slashes (resolve_path dir ++ [s]).
Proof.
  intros s Hp Hh. destruct (sanitize_safe name) as (Hlen & Hchars & _).
  assert (Hne : s ≠ []) by (intros E; unfold s in E; rewrite E in Hlen; unfold blen in Hlen; cbn in Hlen; lia).
  assert (Hsep : cSlash ∉ s) by (intros Hc; by destruct (Hchars cSlash Hc)). split_and!; [done..|]. by apply join_inside.
Qed.

(** * Reading *)

Section reading.
Implicit Types (f : NodeFileSource).

(** A call that is awaited before the next: the file is opened for the first one. *)
Definition read_one (f : NodeFileSource) (r : Z * Z) : NodeFileSource :=
  let i := length (nf_calls f) in
  let f1 := slice r.1 r.2 f in
  slice_read i (Some r.2) (match nf_handle f with None => slice_opened i (Some 0%nat) f1 | Some _ => f1 end).

Definition serial (content : bytes) (results : list (nat * option bytes)) f : Prop :=
  nf_content f = content ∧ nf_results f = results ∧ nf_closing f = O ∧ length (nf_calls f) = length results
  ∧ (nf_handle f = None ∧ nf_handles f = [] ∨ nf_handle f = Some 0%nat ∧ nf_handles f = [0%nat]).

Lemma read_one_serial content rs f r :
  serial content rs f → serial content (rs ++ [(length rs, Some (u8slice r.1 r.2 content))]) (read_one f r).
Proof.
  intros (Hc & Hr & Hcl & Hlen & Hh). destruct r as [off len]. unfold read_one, slice. cbn [fst snd].
  assert (Hat : ∀ x : option slice_call, (nf_calls f ++ [x]) !! length (nf_calls f) = Some x)
    by (intros x; by rewrite list_lookup_middle).
  destruct Hh as [[E1 E2]|[E1 E2]]; rewrite E1; cbv zeta.
  - unfold slice_opened. cbn [set_calls nf_calls]. rewrite Hat. cbn [mjoin option_join].
    unfold slice_read. cbn [set_calls set_handle nf_calls nf_content]. rewrite insert_app_r_alt, Nat.sub_diag by lia.
    change (<[0%nat:=Some (Reading off len)]> [Some (Opening off len)]) with [Some (Reading off len)].
    rewrite Hat. cbn [mjoin option_join fmap option_fmap option_map]. rewrite Z.min_id.
    unfold serial. cbn. rewrite length_insert, !length_app, E2, Hc, Hr, Hlen. cbn. split_and!; try done; by right.
  - rewrite E2. rewrite decide_True by (by left). unfold slice_read. cbn [set_calls nf_calls nf_content]. rewrite Hat.
    cbn [mjoin option_join fmap option_fmap option_map]. rewrite Z.min_id.
    unfold serial. cbn. rewrite length_insert, !length_app, E1, E2, Hc, Hr, Hlen. cbn. split_and!; try done; by right.
Qed.

(** Reads that are awaited one after the other get the bytes they asked for, on one
    handle at most, which [close] closes. *)
Theorem node_source_serial content reads :
  let f := fold_left read_one reads (newNodeFileSource content) in
  nf_results f = imap (λ i r, (i, Some (u8slice r.1 r.2 content))) reads
  ∧ (length (nf_handles f) ≤ 1)%nat ∧ nf_handles (nf_closed (nf_close f)) = [].
Proof.
  assert (Hs : serial content (imap (λ i r, (i, Some (u8slice r.1 r.2 content))) reads) (fold_left read_one reads (newNodeFileSource content))).
  { induction reads as [|r reads IH] using rev_ind; [repeat split; by left|].
    rewrite fold_left_app, imap_app. cbn [fold_left imap]. rewrite Nat.add_0_r.
    apply (read_one_serial _ _ _ r) in IH. by rewrite length_imap in IH. }
  cbv zeta. destruct Hs as (_ & Hr & Hc & _ & [[E1 E2]|[E1 E2]]); (split; [done|]); unfold nf_close; rewrite E1, E2; (split; [cbn; lia|]).
  - unfold nf_closed. by rewrite Hc.
  - unfold nf_closed. cbn. by rewrite Hc.
Qed.
End reading.

(** * Runs *)

Module sinks.
#[export] Instance engine : JsEngine := 64.
Definition meta (name : jsstr) : FileMetadata := mkMeta name [] 4.
Definition disk : Disk := mkDisk [(js "in/report.pdf", [1; 2])] 0.
Definition chunks : list (Z * bytes) := [(2, [30; 40]); (0, [10; 20])].
Definition sink : NodeFileSink := nk_open (meta (js "x/report.pdf")) (intoDirectory (js "in")).
End sinks.
Import sinks.
Lemma chunks_within : Forall (within 4) chunks.
Proof. unfold chunks. repeat constructor; by vm_compute. Qed.

Lemma node_sink_file_witness :
  let s := nk_writes chunks (nk_opened true (sink, mkDisk [] 0)) in
  mget (js "in/report.pdf") (dk_files s.2) = Some [10; 20; 30; 40] ∧ (nk_close true s).2 = Some (js "in/report.pdf")
  ∧ dk_files (nk_abort true true s).2 = [] ∧ dk_handles (nk_abort true true s).2 = 0%nat.
Proof.
  destruct (node_sink_file (js "in") (meta (js "x/report.pdf")) chunks (mkDisk [] 0)) as (file & mem & Hm & Hf & _ & Heq & _ & Hc & _ & _ & _ & _ & Hh);
    [vm_compute; by split|apply chunks_within|].
  cbv zeta. split; [|split; [exact Hc|split; [by vm_compute|exact Hh]]].
  transitivity (Some file); [exact Hf|]. f_equal. rewrite Heq.
  - injection Hm as <-. by vm_compute.
  - exists (2, [30; 40]). split; [left|done].
Defined.

Lemma node_sink_inside_witness :
  join (js "/srv/in/../up") (sanitizeFileName (js "../../etc/passwd")) = js "/srv/up/passwd".
Proof. destruct (node_sink_inside (js "/srv/in/../up") (js "../../etc/passwd")) as (_ & _ & ->); by vm_compute. Defined.

Lemma access_sink_file_witness :
  fa_file (fa_close true (fa_writes chunks (fa_open true (mkAccess [9; 9] None)).1)).1 = [10; 20; 30; 40].
Proof.
  destruct (access_sink_file 4 chunks (mkAccess [9; 9] None)) as (_ & _ & _ & _ & _); [lia|apply chunks_within|by vm_compute].
Defined.

(** The name [ ..] leads to the parent of the directory. *)
Example out_of_directory : nk_path (nk_open (meta (js " ..")) (intoDirectory (js "/srv/in"))) = js "/srv".
Proof. by vm_compute. Qed.

(** A file that could not be opened for writing is deleted by [abort], which is what
    the receiver calls then. *)
Example foreign_file_deleted :
  let s := nk_opened false (sink, disk) in s.2 = disk ∧ dk_files (nk_abort true true s).2 = [].
Proof. by vm_compute. Qed.

(** A transfer that is cancelled while the file is being opened: the handle stays open
    and the file stays. *)
Example opened_after_abort :
  let s := nk_opened true (nk_abort true true (sink, mkDisk [] 0)) in
  dk_handles s.2 = 1%nat ∧ mget (js "in/report.pdf") (dk_files s.2) = Some [].
Proof. by vm_compute. Qed.

(** A write of fewer bytes than asked for is a success. *)
Example short_write_unnoticed :
  let '(s, threw) := nk_write true (Some 1%nat) 2 [30; 40] (nk_opened true (sink, mkDisk [] 0)) in
  threw = false ∧ mget (js "in/report.pdf") (dk_files s.2) = Some [0; 0; 30].
Proof. by vm_compute. Qed.

(** Two calls before the file is open open it twice, and one handle is never closed. *)
Example two_handles :
  let f := slice_opened 1 (Some 1%nat) (slice_opened 0 (Some 0%nat) (slice 2 2 (slice 0 2 (newNodeFileSource [1; 2; 3; 4])))) in
  nf_handles (nf_closed (nf_close (slice_read 0 (Some 2) (slice_read 1 (Some 2) f)))) = [0%nat].
Proof. by vm_compute. Qed.
