(* ===== verification/Transfer.v ===== *)
(** The lifecycle every file transfer follows
    (packages/sdk/src/filetransfer/Transfer.ts): the state machine, its
    transition table, failure, and progress.

    [Transfer] is abstract: a subclass provides [_onTerminal] and
    [_notifyRemoteFailure].  Here it is the interface [TransferOps] of a type that
    holds the base record; [SendTransfer] and [ReceiveTransfer] are instances. *)

From Stdlib Require Import SpecFloat.
From S2P Require Import Prelude JsNumber Uint8Array Framing Sink.

Inductive TransferState :=
| Idle | Offered | Accepted | Active | Paused | Completing | Completed | Failed | Cancelled.

#[export] Instance transfer_state_eq_dec : EqDecision TransferState.
Proof. solve_decision. Defined.

Definition LEGAL_TRANSITIONS (s : TransferState) : list TransferState :=
  match s with
  | Idle => [Offered]
  | Offered => [Accepted]
  | Accepted => [Active]
  | Active => [Paused; Completing]
  | Paused => [Active]
  | Completing => [Completed]
  | Completed => []
  | Failed => []
  | Cancelled => []
  end.

Definition TERMINAL : list TransferState := [Completed; Failed; Cancelled].

(** Events, in emission order in the log of the transfer. *)
Inductive TransferEvent :=
| StateChanged (next previous : TransferState)
| ProgressEvent (transferredBytes transferredChunks : Z)
| CompleteEvent
| ErrorEvent (code : FileTransferErrorCode).

Record Transfer := mkTransfer {
  tb_id : jsstr;
  tb_peerId : jsstr;
  tb_metadata : FileMetadata;
  tb_chunkSize : Z;
  tb_totalChunks : Z;
  tb_state : TransferState;
  tb_transferredBytes : Z;
  tb_transferredChunks : Z;
  tb_events : list TransferEvent;
}.

Definition newTransfer (id peerId : jsstr) (metadata : FileMetadata) (chunkSize totalChunks : Z)
    : Transfer :=
  mkTransfer id peerId metadata chunkSize totalChunks Idle 0 0 [].

Definition tb_with_state (s : TransferState) (t : Transfer) : Transfer :=
  mkTransfer (tb_id t) (tb_peerId t) (tb_metadata t) (tb_chunkSize t) (tb_totalChunks t) s
    (tb_transferredBytes t) (tb_transferredChunks t) (tb_events t).
Definition tb_emit (e : TransferEvent) (t : Transfer) : Transfer :=
  mkTransfer (tb_id t) (tb_peerId t) (tb_metadata t) (tb_chunkSize t) (tb_totalChunks t)
    (tb_state t) (tb_transferredBytes t) (tb_transferredChunks t) (tb_events t ++ [e]).
Definition tb_count (bytes : Z) (t : Transfer) : Transfer :=
  mkTransfer (tb_id t) (tb_peerId t) (tb_metadata t) (tb_chunkSize t) (tb_totalChunks t)
    (tb_state t) (tb_transferredBytes t + bytes) (tb_transferredChunks t + 1) (tb_events t).

Definition tb_terminal (t : Transfer) : bool := bool_decide (tb_state t ∈ TERMINAL).

(** [emitProgress]. *)
Definition tb_progress (t : Transfer) : Transfer :=
  tb_emit (ProgressEvent (tb_transferredBytes t) (tb_transferredChunks t)) t.

(** [progress().ratio]. *)
Definition num_min (a b : num) : num :=
  if isNaN a || isNaN b then num_nan else if num_lt b a then b else a.
Definition progress_ratio (t : Transfer) : num :=
  let total := md_size (tb_metadata t) in
  if decide (0 < total)
  then num_min num_one (num_div (num_of_Z (tb_transferredBytes t)) (num_of_Z total))
  else num_zero.

(** * The abstract class *)

Class TransferOps (T : Type) := {
  base : T → Transfer;
  set_base : Transfer → T → T;
  onTerminal : T → T;
  notifyRemoteFailure : FileTransferErrorCode → T → T;
}.

(** What a subclass must keep to: the hooks leave the lifecycle alone. *)
Class TransferLaws (T : Type) `{TransferOps T} := {
  base_set b t : base (set_base b t) = b;
  base_onTerminal t : base (onTerminal t) = base t;
  base_notify e t : tb_terminal (base t) = true → base (notifyRemoteFailure e t) = base t;
}.

Section ops.
Context {T : Type} `{TransferOps T}.
Implicit Types (t : T).

Definition state t : TransferState := tb_state (base t).
Definition isTerminal t : bool := tb_terminal (base t).
Definition on_base (f : Transfer → Transfer) t : T := set_base (f (base t)) t.
Definition emit (e : TransferEvent) t : T := on_base (tb_emit e) t.

Definition transitionTo (next : TransferState) t : T * bool :=
  if decide (state t = next) then (t, true)
  else
    let forcedTerminal := bool_decide (next = Failed) || bool_decide (next = Cancelled) in
    if isTerminal t then (t, false)
    else if negb forcedTerminal && negb (bool_decide (next ∈ LEGAL_TRANSITIONS (state t)))
    then (t, false)
    else
      let previous := state t in
      let t1 := on_base (tb_with_state next) t in
      let t2 := emit (StateChanged next previous) t1 in
      (if bool_decide (next ∈ TERMINAL) then onTerminal t2 else t2, true).

Definition fail (e : FileTransferErrorCode) (notifyRemote : bool) t : T :=
  if isTerminal t then t
  else
    let t1 := (transitionTo Failed t).1 in
    let t2 := if notifyRemote then notifyRemoteFailure e t1 else t1 in
    emit (ErrorEvent e) t2.

(** [_markCancelled] of both subclasses. *)
Definition markCancelled (reason : bool) t : T :=
  if isTerminal t then t
  else
    let t1 := (transitionTo Cancelled t).1 in
    if reason then emit (ErrorEvent CancelledCode) t1 else t1.
End ops.

(** * The lifecycle *)

(** The states a transfer went through, oldest first, from its events. *)
Definition changes (es : list TransferEvent) : list (TransferState * TransferState) :=
  omap (λ e, match e with StateChanged next prev => Some (prev, next) | _ => None end) es.

(** An edge of the documented machine. *)
Definition legal_edge (a b : TransferState) : Prop :=
  (a ∉ TERMINAL) ∧ (b = Failed ∨ b = Cancelled ∨ b ∈ LEGAL_TRANSITIONS a).

(** The edges form a path from [a] to [b]. *)
Fixpoint path (a : TransferState) (es : list (TransferState * TransferState))
    (b : TransferState) : Prop :=
  match es with
  | [] => a = b
  | (p, n) :: es' => p = a ∧ legal_edge p n ∧ path n es' b
  end.

Lemma path_snoc a es b c : path a es b → legal_edge b c → path a (es ++ [(b, c)]) c.
Proof.
  revert a. induction es as [|[p n] es IH]; intros a; simpl; [by intros ->|].
  intros (-> & He & Hp) Hc. auto.
Qed.

Lemma changes_app l k : changes (l ++ k) = changes l ++ changes k.
Proof. apply omap_app. Qed.

(** The lifecycle invariant of a transfer. *)
Definition lifecycle (b : Transfer) : Prop := path Idle (changes (tb_events b)) (tb_state b).

Lemma lifecycle_new id p m c n : lifecycle (newTransfer id p m c n).
Proof. done. Qed.

Lemma lifecycle_emit e b :
  (∀ n p, e ≠ StateChanged n p) → lifecycle b → lifecycle (tb_emit e b).
Proof.
  unfold lifecycle. simpl. intros He Hb. rewrite changes_app.
  destruct e; try (by rewrite app_nil_r). by destruct (He next previous).
Qed.

Lemma lifecycle_count n b : lifecycle b → lifecycle (tb_count n b).
Proof. done. Qed.

Section laws.
Context {T : Type} `{TransferLaws T}.
Implicit Types (t : T).

Lemma base_on_base f t : base (on_base f t) = f (base t).
Proof. apply base_set. Qed.

Lemma isTerminal_spec t : isTerminal t = true ↔ state t ∈ TERMINAL.
Proof. apply bool_decide_eq_true. Qed.

(** What [transitionTo] does to the base record. *)
Lemma transitionTo_base next t :
  (state t = next ∧ transitionTo next t = (t, true))
  ∨ (state t ≠ next ∧ ¬ legal_edge (state t) next ∧ transitionTo next t = (t, false))
  ∨ (state t ≠ next ∧ legal_edge (state t) next ∧ (transitionTo next t).2 = true
     ∧ base (transitionTo next t).1
       = tb_emit (StateChanged next (state t)) (tb_with_state next (base t))).
Proof.
  unfold transitionTo. destruct (decide (state t = next)) as [|Hne]; [by left|]. right.
  destruct (isTerminal t) eqn:Et.
  { left. split; [done|]. split; [|done]. apply isTerminal_spec in Et. by intros []. }
  assert (state t ∉ TERMINAL) as Hnt by (rewrite <- isTerminal_spec, Et; done).
  destruct (bool_decide_reflect (next = Failed)) as [Hf|Hf]; cbn [orb negb andb].
  - right. split; [done|]. split; [split; auto|]. split; [done|].
    destruct (bool_decide (next ∈ TERMINAL)); simpl; unfold emit;
      by rewrite ?base_onTerminal, !base_on_base.
  - destruct (bool_decide_reflect (next = Cancelled)) as [Hc|Hc]; cbn [orb negb andb].
    + right. split; [done|]. split; [split; auto|]. split; [done|].
      destruct (bool_decide (next ∈ TERMINAL)); simpl; unfold emit;
        by rewrite ?base_onTerminal, !base_on_base.
    + destruct (bool_decide_reflect (next ∈ LEGAL_TRANSITIONS (state t))); cbn [negb].
      * right. split; [done|]. split; [split; auto|]. split; [done|].
        destruct (bool_decide (next ∈ TERMINAL)); simpl; unfold emit;
          by rewrite ?base_onTerminal, !base_on_base.
      * left. split; [done|]. split; [|done]. intros [_ [|[|]]]; done.
Qed.

Lemma lifecycle_transition next t :
  lifecycle (base t) → lifecycle (base (transitionTo next t).1).
Proof.
  intros Hl. destruct (transitionTo_base next t) as [[_ ->]|[(_ & _ & ->)|(_ & He & _ & ->)]];
    [done..|].
  unfold lifecycle. simpl. rewrite changes_app. by apply path_snoc.
Qed.

Lemma transition_terminal next t : isTerminal t = true → (transitionTo next t).1 = t.
Proof.
  intros Ht%isTerminal_spec.
  destruct (transitionTo_base next t) as [[_ ->]|[(_ & _ & ->)|(_ & [Hn _] & _)]]; done.
Qed.

(** From a state that is not terminal a forced transition always happens. *)
Lemma transition_forced next t :
  next = Failed ∨ next = Cancelled → isTerminal t = false →
  base (transitionTo next t).1
  = tb_emit (StateChanged next (state t)) (tb_with_state next (base t)).
Proof.
  intros Hn Ht. assert (state t ∉ TERMINAL) as Hnt by (by rewrite <- isTerminal_spec, Ht).
  destruct (transitionTo_base next t) as [[Hs _]|[(_ & Hno & _)|(_ & _ & _ & ->)]]; [| |done].
  - exfalso. apply Hnt. rewrite Hs. destruct Hn as [->| ->]; set_solver.
  - exfalso. apply Hno. split; [done|]. naive_solver.
Qed.

Lemma base_fail e n t :
  base (fail e n t) = if isTerminal t then base t
    else tb_emit (ErrorEvent e) (tb_emit (StateChanged Failed (state t)) (tb_with_state Failed (base t))).
Proof.
  unfold fail. destruct (isTerminal t) eqn:Et; [done|]. unfold emit. rewrite base_on_base. f_equal.
  destruct n; [rewrite base_notify|]; rewrite transition_forced; auto.
Qed.

Lemma base_markCancelled r t :
  base (markCancelled r t) = if isTerminal t then base t
    else let b := tb_emit (StateChanged Cancelled (state t)) (tb_with_state Cancelled (base t)) in
         if r then tb_emit (ErrorEvent CancelledCode) b else b.
Proof.
  unfold markCancelled. destruct (isTerminal t) eqn:Et; [done|].
  destruct r; unfold emit; rewrite ?base_on_base, transition_forced; auto.
Qed.

Lemma lifecycle_forced next b :
  next = Failed ∨ next = Cancelled → tb_terminal b = false → lifecycle b →
  lifecycle (tb_emit (StateChanged next (tb_state b)) (tb_with_state next b)).
Proof.
  unfold lifecycle. simpl. intros Hn Ht Hb. rewrite changes_app. apply path_snoc; [done|].
  split; [by apply bool_decide_eq_false in Ht|]. naive_solver.
Qed.

Lemma lifecycle_fail e n t : lifecycle (base t) → lifecycle (base (fail e n t)).
Proof.
  intros Hl. rewrite base_fail. destruct (isTerminal t) eqn:Et; [done|].
  apply lifecycle_emit; [done|]. by apply lifecycle_forced; [left| |].
Qed.

Lemma lifecycle_markCancelled r t : lifecycle (base t) → lifecycle (base (markCancelled r t)).
Proof.
  intros Hl. rewrite base_markCancelled. destruct (isTerminal t) eqn:Et; [done|].
  assert (lifecycle (tb_emit (StateChanged Cancelled (state t)) (tb_with_state Cancelled (base t)))).
  { by apply lifecycle_forced; [right| |]. }
  destruct r; [by apply lifecycle_emit|done].
Qed.
End laws.

(** The default hooks of the abstract class do nothing. *)
#[export] Instance plain_transfer : TransferOps Transfer := {
  base t := t;
  set_base b t := b;
  onTerminal t := t;
  notifyRemoteFailure e t := t;
}.
#[export] Instance plain_transfer_laws : TransferLaws Transfer.
Proof. by constructor. Qed.

(** * Any sequence of lifecycle calls *)

Inductive transfer_op :=
| OTransition (next : TransferState)
| OFail (e : FileTransferErrorCode) (notifyRemote : bool)
| OMarkCancelled (reason : bool).

Section run.
Context {T : Type} `{TransferLaws T}.
Implicit Types (t : T).

Definition apply_op t (o : transfer_op) : T :=
  match o with
  | OTransition next => (transitionTo next t).1
  | OFail e n => fail e n t
  | OMarkCancelled r => markCancelled r t
  end.

Lemma lifecycle_run os t : lifecycle (base t) → lifecycle (base (fold_left apply_op os t)).
Proof.
  revert t. induction os as [|o os IH]; intros t Hl; simpl; [done|]. apply IH.
  destruct o; simpl;
    [by apply lifecycle_transition|by apply lifecycle_fail|by apply lifecycle_markCancelled].
Qed.

Lemma terminal_run os t : isTerminal t = true → fold_left apply_op os t = t.
Proof.
  intros Ht. induction os as [|o os IH]; simpl; [done|].
  replace (apply_op t o) with t; [done|]. destruct o; simpl.
  - by rewrite transition_terminal.
  - unfold fail. by rewrite Ht.
  - unfold markCancelled. by rewrite Ht.
Qed.
End run.

(** The last edges of a path that ends in [Completed]. *)
Lemma path_app a es p n b : path a (es ++ [(p, n)]) b → path a es p ∧ legal_edge p n ∧ n = b.
Proof.
  revert a. induction es as [|[q m] es IH]; intros a; simpl; [naive_solver|].
  intros (-> & He & Hp). apply IH in Hp. naive_solver.
Qed.

Lemma path_last a es b :
  path a es b → a = b ∨ ∃ es' p, es = es' ++ [(p, b)] ∧ path a es' p ∧ legal_edge p b.
Proof.
  destruct es as [|[p n] es _] using rev_ind; [by left|].
  intros (Hp & He & ->)%path_app. right. eauto.
Qed.

Lemma path_terminal_end a es b p n :
  path a es b → (p, n) ∈ es → n ∈ TERMINAL → n = b ∧ ∃ es', es = es' ++ [(p, n)].
Proof.
  revert a. induction es as [|[q m] es IH]; intros a; [by intros _ ?%not_elem_of_nil|].
  intros (-> & He & Hp) Hin Hn. apply elem_of_cons in Hin as [[= -> ->]|Hin].
  - destruct es as [|[q' m'] es]; [simpl in Hp; by split; [|exists []]|].
    destruct Hp as (-> & [Hno _] & _). done.
  - destruct (IH _ Hp Hin Hn) as [-> [es' ->]]. split; [done|]. by exists ((a, m) :: es').
Qed.

Lemma completed_path es :
  path Idle es Completed →
  (Active, Completing) ∈ es ∧ (Completing, Completed) ∈ es.
Proof.
  intros Hp. destruct (path_last _ _ _ Hp) as [|(es1 & p & -> & Hp1 & [Hnt He])]; [done|].
  assert (p = Completing) as ->.
  { destruct He as [|[|He]]; [done..|]. destruct p; simpl in He; set_solver. }
  destruct (path_last _ _ _ Hp1) as [|(es2 & q & -> & Hp2 & [Hnt' He'])]; [done|].
  assert (q = Active) as ->.
  { destruct He' as [|[|He']]; [done..|]. destruct q; simpl in He'; set_solver. }
  split; apply elem_of_app; [left|right]; [|left].
  apply elem_of_app. right. left.
Qed.

(** for every subclass whose hooks keep to their contract and every sequence
    of transitions, failures and cancellations of a new transfer: the recorded
    state changes form a path of legal edges from [Idle] to the current state; a
    terminal state is entered at most once, last, and nothing moves or is emitted
    after it; and [Completed] is only reached through [Active] and
    [Completing]. *)
Theorem transfer_lifecycle {T} `{TransferLaws T} (t : T) os os' id p m c n :
  base t = newTransfer id p m c n →
  let t' := fold_left apply_op os t in
  let es := changes (tb_events (base t')) in
  path Idle es (state t')
  ∧ (∀ q s, (q, s) ∈ es → s ∈ TERMINAL → s = state t' ∧ ∃ es', es = es' ++ [(q, s)])
  ∧ (isTerminal t' = true → fold_left apply_op os' t' = t')
  ∧ (state t' = Completed → (Active, Completing) ∈ es ∧ (Completing, Completed) ∈ es).
Proof.
  intros Hb t' es. assert (Hl : path Idle es (state t')).
  { apply (lifecycle_run os t). rewrite Hb. apply lifecycle_new. }
  split; [done|]. split; [intros q s Hin Hs; by apply (path_terminal_end _ _ _ _ _ Hl)|].
  split; [apply terminal_run|]. intros Hc. rewrite Hc in Hl. by apply completed_path.
Qed.

Definition sample_transfer : Transfer :=
  newTransfer (js "t") (js "p") (mkMeta (js "f") [] 3) 2 2.

Lemma transfer_lifecycle_witness :
  state (fold_left apply_op (OTransition <$> [Offered; Accepted; Completed; Active; Completing; Completed; Failed]) sample_transfer)
    = Completed
  ∧ (Active, Completing) ∈ changes (tb_events (base (fold_left apply_op
      (OTransition <$> [Offered; Accepted; Completed; Active; Completing; Completed; Failed]) sample_transfer))).
Proof.
  split; [vm_compute; reflexivity|].
  apply (transfer_lifecycle sample_transfer
    (OTransition <$> [Offered; Accepted; Completed; Active; Completing; Completed; Failed]) []
    (js "t") (js "p") (mkMeta (js "f") [] 3) 2 2); vm_compute; reflexivity.
Defined.

(** The bounds of the reported ratio. *)
Lemma progress_ratio_le t : num_lt num_one (progress_ratio t) = false.
Proof.
  unfold progress_ratio. case_decide; [|done]. unfold num_min.
  destruct (isNaN num_one || isNaN _) eqn:En; [done|].
  destruct (num_lt _ num_one) eqn:El; [by apply num_lt_asym|apply num_lt_irrefl].
Qed.
