(* ===== verification/Schema.v ===== *)
(** Schemas of JSON values and their counterparts of [JSON.stringify]: what the zod
    schemas of the repository are built from (packages/sdk/src/protocol.ts,
    filetransfer/protocol.ts).

    A schema is a function [json → option A]: [None] is a failed [safeParse].  Fields
    the schema does not name are ignored, as in [z.object]. *)

From S2P Require Import Prelude JsMap JsNumber Json.

(** * Combinators *)

(** [z.number().int()]: a safe integer. *)
Definition z_int (v : json) : option Z :=
  match v with
  | JNum x => match num_int x with
              | Some n => if decide (Z.abs n < two53) then Some n else None
              | None => None
              end
  | _ => None
  end.
Definition z_nonnegative (v : json) : option Z :=
  match z_int v with Some n => if decide (0 ≤ n) then Some n else None | None => None end.
Definition z_positive (v : json) : option Z :=
  match z_int v with Some n => if decide (0 < n) then Some n else None | None => None end.
Definition z_string (v : json) : option jsstr :=
  match v with JStr s => Some s | _ => None end.
Definition z_boolean (v : json) : option bool :=
  match v with JBool b => Some b | _ => None end.
Section fields.
Context (fields : jmap jsstr json).

Definition field {A} (k : jsstr) (p : json → option A) : option A :=
  v ← mget k fields; p v.
(** [.optional()]: an absent field is fine, an ill-typed one is not. *)
Definition field_opt {A} (k : jsstr) (p : json → option A) : option (option A) :=
  match mget k fields with
  | None => Some None
  | Some v => Some <$> p v
  end.
End fields.

(** * Writing objects: an [undefined] field is left out. *)

Definition jstr (k : jsstr) (s : jsstr) : jsstr * json := (k, JStr s).
Definition jnum (k : jsstr) (n : Z) : jsstr * json := (k, JNum (num_of_Z n)).
Definition jopt {A} (f : A → jsstr * json) (o : option A) : list (jsstr * json) :=
  match o with Some a => [f a] | None => [] end.

(** * What reading gives back *)

Definition safe (n : Z) : Prop := Z.abs n < two53.
Lemma z_int_of_Z n : safe n → z_int (JNum (num_of_Z n)) = Some n.
Proof. intros. unfold z_int. rewrite num_int_of_Z by done. by rewrite decide_True. Qed.

Lemma z_nonneg_of_Z n : 0 ≤ n ∧ safe n → z_nonnegative (JNum (num_of_Z n)) = Some n.
Proof. intros [? ?]. unfold z_nonnegative. by rewrite z_int_of_Z, decide_True. Qed.

Lemma z_positive_of_Z n : 0 < n ∧ safe n → z_positive (JNum (num_of_Z n)) = Some n.
Proof. intros [? ?]. unfold z_positive. by rewrite z_int_of_Z, decide_True. Qed.

Lemma z_int_inv v n : z_int v = Some n → safe n.
Proof. unfold z_int. destruct v; try done. destruct (num_int x); [|done]. case_decide; [|done]. by intros [= <-]. Qed.

Lemma z_nonneg_inv v n : z_nonnegative v = Some n → 0 ≤ n ∧ safe n.
Proof.
  unfold z_nonnegative. destruct (z_int v) eqn:E; [|done]. case_decide; [|done].
  intros [= <-]. eauto using z_int_inv.
Qed.

Lemma z_positive_inv v n : z_positive v = Some n → 0 < n ∧ safe n.
Proof.
  unfold z_positive. destruct (z_int v) eqn:E; [|done]. case_decide; [|done].
  intros [= <-]. eauto using z_int_inv.
Qed.


Section read.
Context {A : Type} (p : json → option A).
Lemma field_here k v m : field ((k, v) :: m) k p = p v.
Proof. unfold field. simpl. by rewrite decide_True. Qed.
Lemma field_there k k' v m :
  bool_decide (k = k') = false → field ((k', v) :: m) k p = field m k p.
Proof. intros Hk%bool_decide_eq_false. unfold field. simpl. by rewrite decide_False. Qed.
Lemma field_opt_here k v m : field_opt ((k, v) :: m) k p = Some <$> p v.
Proof. unfold field_opt. simpl. by rewrite decide_True. Qed.
Lemma field_opt_there k k' v m :
  bool_decide (k = k') = false → field_opt ((k', v) :: m) k p = field_opt m k p.
Proof. intros Hk%bool_decide_eq_false. unfold field_opt. simpl. by rewrite decide_False. Qed.
Lemma field_opt_nil k : field_opt [] k p = Some None.
Proof. done. Qed.
End read.

(** Reads one field of a literal object. *)
Ltac read_field :=
  first
    [ rewrite field_here | rewrite field_there by (vm_compute; reflexivity)
    | rewrite field_opt_nil | rewrite field_opt_here
    | rewrite field_opt_there by (vm_compute; reflexivity)
    | rewrite z_nonneg_of_Z by done | rewrite z_positive_of_Z by done
    | rewrite z_int_of_Z by done
    | rewrite decide_True by done | rewrite decide_False by (vm_compute; done)
    | progress cbn [option_bind mbind z_string z_boolean fmap option_fmap option_map] ].

Lemma field_Some {A} f k (p : json → option A) a :
  field f k p = Some a → ∃ v, mget k f = Some v ∧ p v = Some a.
Proof. unfold field. destruct (mget k f) as [v|]; [|done]. eauto. Qed.

Lemma field_opt_Some {A} f k (p : json → option A) a :
  field_opt f k p = Some (Some a) → ∃ v, p v = Some a.
Proof.
  unfold field_opt. destruct (mget k f) as [v|]; [|done]. intros Hp. exists v.
  by destruct (p v); inversion Hp.
Qed.

