(* ===== verification/Control.v ===== *)
(** The control channel of file transfers: messages and their schema
    (packages/sdk/src/filetransfer/protocol.ts), the link that queues them until
    the channel opens (ControlLink.ts), and the promises of a data channel
    (channel.ts).

    JSON text is the boundary: a message is serialised to the value that
    [JSON.stringify] writes, and parsed from the value [JSON.parse] returns. *)

From S2P Require Import Prelude JsMap JsNumber Json Schema Uint8Array Framing.

(** * Messages *)

Record OfferMessage := mkOffer {
  of_transferId : jsstr;
  of_version : option Z;
  of_name : jsstr;
  of_mimeType : jsstr;
  of_size : Z;
  of_chunkSize : Z;
  of_totalChunks : Z;
  of_parallelChannels : Z;
  of_checksum : bool;
}.

Inductive ControlMessage :=
| MOffer (o : OfferMessage)
| MAccept (transferId : jsstr) (haveChunks : option (list Z))
| MReject (transferId : jsstr) (reason : option jsstr)
| MResumeRequest (transferId : jsstr) (haveChunks : list Z)
| MSent (transferId : jsstr) (digest : option jsstr)
| MComplete (transferId : jsstr)
| MChecksumMismatch (transferId : jsstr)
| MCancel (transferId : jsstr) (reason : option jsstr)
| MPause (transferId : jsstr)
| MResume (transferId : jsstr).

Definition FT_PROTOCOL_VERSION : Z := 1.

Definition msg_id (m : ControlMessage) : jsstr :=
  match m with
  | MOffer o => of_transferId o
  | MAccept id _ | MReject id _ | MResumeRequest id _ | MSent id _ | MComplete id
  | MChecksumMismatch id | MCancel id _ | MPause id | MResume id => id
  end.

(** [ControlType]. *)
Definition tOffer := js "ft-offer".
Definition tAccept := js "ft-accept".
Definition tReject := js "ft-reject".
Definition tResumeRequest := js "ft-resume-request".
Definition tSent := js "ft-sent".
Definition tComplete := js "ft-complete".
Definition tChecksumMismatch := js "ft-checksum-mismatch".
Definition tCancel := js "ft-cancel".
Definition tPause := js "ft-pause".
Definition tResume := js "ft-resume".

(** Names of the fields. *)
Definition kChecksum := js "checksum".
Definition kChunkSize := js "chunkSize".
Definition kDigest := js "digest".
Definition kHaveChunks := js "haveChunks".
Definition kMimeType := js "mimeType".
Definition kName := js "name".
Definition kParallelChannels := js "parallelChannels".
Definition kReason := js "reason".
Definition kSize := js "size".
Definition kTotalChunks := js "totalChunks".
Definition kTransferId := js "transferId".
Definition kType := js "type".
Definition kVersion := js "version".

(** * The schema *)

Definition z_chunks (v : json) : option (list Z) :=
  match v with JArr l => mapM z_nonnegative l | _ => None end.

Definition parse_offer (f : jmap jsstr json) : option ControlMessage :=
  id ← field f kTransferId z_string;
  version ← field_opt f kVersion z_int;
  name ← field f kName z_string;
  mime ← field f kMimeType z_string;
  size ← field f kSize z_nonnegative;
  chunkSize ← field f kChunkSize z_positive;
  totalChunks ← field f kTotalChunks z_nonnegative;
  parallel ← field f kParallelChannels z_positive;
  checksum ← field f kChecksum z_boolean;
  Some (MOffer (mkOffer id version name mime size chunkSize totalChunks parallel checksum)).

(** [ControlMessageSchema.safeParse]. *)
Definition parseControl (v : json) : option ControlMessage :=
  match v with
  | JObj f =>
      t ← field f kType z_string;
      if decide (t = tOffer) then parse_offer f
      else
        id ← field f kTransferId z_string;
        if decide (t = tAccept) then MAccept id <$> field_opt f kHaveChunks z_chunks
        else if decide (t = tReject) then MReject id <$> field_opt f kReason z_string
        else if decide (t = tResumeRequest) then
          MResumeRequest id <$> field f kHaveChunks z_chunks
        else if decide (t = tSent) then MSent id <$> field_opt f kDigest z_string
        else if decide (t = tComplete) then Some (MComplete id)
        else if decide (t = tChecksumMismatch) then Some (MChecksumMismatch id)
        else if decide (t = tCancel) then MCancel id <$> field_opt f kReason z_string
        else if decide (t = tPause) then Some (MPause id)
        else if decide (t = tResume) then Some (MResume id)
        else None
  | _ => None
  end.

(** [JSON.stringify(msg)]: the fields in the order of the object literals; an
    [undefined] field is left out. *)
Definition jchunks (l : list Z) : jsstr * json :=
  (kHaveChunks, JArr ((λ n, JNum (num_of_Z n)) <$> l)).

Definition toJson (m : ControlMessage) : json :=
  let head t id := [(kType, JStr t); jstr kTransferId id] in
  JObj match m with
  | MOffer o =>
      head tOffer (of_transferId o) ++ jopt (jnum kVersion) (of_version o)
      ++ [jstr kName (of_name o); jstr kMimeType (of_mimeType o); jnum kSize (of_size o);
          jnum kChunkSize (of_chunkSize o); jnum kTotalChunks (of_totalChunks o);
          jnum kParallelChannels (of_parallelChannels o);
          (kChecksum, JBool (of_checksum o))]
  | MAccept id have => head tAccept id ++ jopt jchunks have
  | MReject id reason => head tReject id ++ jopt (jstr kReason) reason
  | MResumeRequest id have => head tResumeRequest id ++ [jchunks have]
  | MSent id digest => head tSent id ++ jopt (jstr kDigest) digest
  | MComplete id => head tComplete id
  | MChecksumMismatch id => head tChecksumMismatch id
  | MCancel id reason => head tCancel id ++ jopt (jstr kReason) reason
  | MPause id => head tPause id
  | MResume id => head tResume id
  end.

(** What the schema promises about the numbers of a message. *)
Definition control_ok (m : ControlMessage) : Prop :=
  match m with
  | MOffer o =>
      (∀ v, of_version o = Some v → safe v)
      ∧ (0 ≤ of_size o ∧ safe (of_size o)) ∧ (0 < of_chunkSize o ∧ safe (of_chunkSize o))
      ∧ (0 ≤ of_totalChunks o ∧ safe (of_totalChunks o))
      ∧ (0 < of_parallelChannels o ∧ safe (of_parallelChannels o))
  | MAccept _ (Some l) | MResumeRequest _ l => Forall (λ n, 0 ≤ n ∧ safe n) l
  | _ => True
  end.

Lemma z_chunks_of_Z l :
  Forall (λ n, 0 ≤ n ∧ safe n) l → mapM z_nonnegative ((λ n, JNum (num_of_Z n)) <$> l) = Some l.
Proof.
  induction 1 as [|n l Hn Hl IH]; [done|]. cbn [fmap list_fmap mapM].
  by rewrite z_nonneg_of_Z, IH.
Qed.

Lemma z_chunks_inv v l : z_chunks v = Some l → Forall (λ n, 0 ≤ n ∧ safe n) l.
Proof.
  destruct v as [| | | |vs|]; try done. simpl. revert l.
  induction vs as [|v vs IH]; intros l; cbn [mapM].
  - intros [= <-]. constructor.
  - destruct (z_nonnegative v) eqn:E; [|done]. cbn. destruct (mapM z_nonnegative vs); [|done].
    cbn. intros [= <-]. constructor; [by eapply z_nonneg_inv|auto].
Qed.

Ltac read_fields :=
  repeat first [ read_field | rewrite z_chunks_of_Z by done | progress cbn [z_chunks] ].

Lemma control_roundtrip_aux m : control_ok m → parseControl (toJson m) = Some m.
Proof.
  destruct m as [[id ver nm mime size ch tot par ck]|id [l|]|id [r|]|id l|id [d|]|id|id|id [r|]|id|id];
    cbn [control_ok]; intros Hok; cbn [parseControl toJson app of_transferId jopt].
  { destruct Hok as (Hv & Hs & Hc & Ht & Hp).
    cbn [of_version of_size of_chunkSize of_totalChunks of_parallelChannels of_name of_mimeType
         of_checksum] in *.
    unfold jstr, jnum. rewrite field_here. cbn [mbind option_bind z_string].
    rewrite decide_True by done. unfold parse_offer.
    destruct ver as [v|]; cbn [jopt app]; [specialize (Hv v eq_refl)|]; read_fields; done. }
  all: unfold jstr, jchunks; by read_fields.
Qed.

Lemma parse_offer_ok f m : parse_offer f = Some m → control_ok m.
Proof.
  unfold parse_offer.
  destruct (field f kTransferId _) as [id|]; [|done]. cbn [mbind option_bind].
  destruct (field_opt f kVersion _) as [v|] eqn:Ev; [|done]. cbn [mbind option_bind].
  destruct (field f kName _) as [nm|]; [|done]. cbn [mbind option_bind].
  destruct (field f kMimeType _) as [mime|]; [|done]. cbn [mbind option_bind].
  destruct (field f kSize _) as [size|] eqn:E1; [|done]. cbn [mbind option_bind].
  destruct (field f kChunkSize _) as [ch|] eqn:E2; [|done]. cbn [mbind option_bind].
  destruct (field f kTotalChunks _) as [tot|] eqn:E3; [|done]. cbn [mbind option_bind].
  destruct (field f kParallelChannels _) as [par|] eqn:E4; [|done]. cbn [mbind option_bind].
  destruct (field f kChecksum _) as [ck|]; [|done]. cbn [mbind option_bind].
  intros [= <-]. simpl.
  apply field_Some in E1 as (? & _ & E1), E2 as (? & _ & E2), E3 as (? & _ & E3), E4 as (? & _ & E4).
  split; [intros w ->; apply field_opt_Some in Ev as (? & Ev); by eapply z_int_inv|].
  split; [by eapply z_nonneg_inv|]. split; [by eapply z_positive_inv|].
  split; [by eapply z_nonneg_inv|by eapply z_positive_inv].
Qed.

Lemma parseControl_ok v m' : parseControl v = Some m' → control_ok m'.
Proof.
  destruct v as [| | | | |f]; try done. cbn [parseControl].
  destruct (field f kType _) as [t|]; [|done]. cbn [mbind option_bind].
  destruct (decide (t = tOffer)); [apply parse_offer_ok|].
  destruct (field f kTransferId _) as [id|]; [|done]. cbn [mbind option_bind].
  destruct (decide (t = tAccept)).
  { destruct (field_opt f kHaveChunks _) as [[l|]|] eqn:E; [| |done]; intros [= <-]; [|done].
    apply field_opt_Some in E as (? & E). by eapply z_chunks_inv. }
  destruct (decide (t = tReject)); [by destruct (field_opt _ _ _); [intros [= <-]|]|].
  destruct (decide (t = tResumeRequest)).
  { destruct (field f kHaveChunks _) as [l|] eqn:E; [|done]; intros [= <-].
    apply field_Some in E as (? & _ & E). by eapply z_chunks_inv. }
  destruct (decide (t = tSent)); [by destruct (field_opt _ _ _); [intros [= <-]|]|].
  destruct (decide (t = tComplete)); [by intros [= <-]|].
  destruct (decide (t = tChecksumMismatch)); [by intros [= <-]|].
  destruct (decide (t = tCancel)); [by destruct (field_opt _ _ _); [intros [= <-]|]|].
  destruct (decide (t = tPause)); [by intros [= <-]|].
  destruct (decide (t = tResume)); [by intros [= <-]|done].
Qed.

(** C40: a message that the schema allows is parsed back from what it serialises
    to, and every message the schema lets through has numbers in range: sizes and
    counts are non-negative safe integers, chunk sizes and lane counts positive. *)
Theorem control_roundtrip m v m' :
  (control_ok m → parseControl (toJson m) = Some m)
  ∧ (parseControl v = Some m' → control_ok m').
Proof. split; [apply control_roundtrip_aux|apply parseControl_ok]. Qed.

Lemma control_roundtrip_witness :
  parseControl (toJson (MAccept (js "t") (Some [0; 5]))) = Some (MAccept (js "t") (Some [0; 5])).
Proof.
  apply (proj1 (control_roundtrip (MAccept (js "t") (Some [0; 5])) JNull (MComplete []))).
  repeat constructor; by vm_compute.
Defined.

(** * ControlLink *)

Inductive readyState := Connecting | Open | Closing | Closed.
#[export] Instance ready_eq_dec : EqDecision readyState.
Proof. solve_decision. Defined.

(** The channel's state, the backlog, and the frames handed to the channel. *)
Record ControlLink := mkLink {
  cl_ready : readyState;
  cl_queue : list json;
  cl_sent : list json;
}.

Definition MAX_QUEUE : Z := 1024.

Definition link_flush (l : ControlLink) : ControlLink :=
  mkLink (cl_ready l) [] (cl_sent l ++ cl_queue l).

(** The constructor: an open channel is flushed at once, otherwise on ['open']. *)
Definition newControlLink (ready : readyState) : ControlLink :=
  let l := mkLink ready [] [] in
  if decide (ready = Open) then link_flush l else l.

Definition link_isOpen (l : ControlLink) : bool := bool_decide (cl_ready l = Open).

Definition link_send (msg : ControlMessage) (l : ControlLink) : ControlLink :=
  let raw := toJson msg in
  if decide (cl_ready l = Open) then mkLink (cl_ready l) (cl_queue l) (cl_sent l ++ [raw])
  else
    let queue := if decide (MAX_QUEUE ≤ Z.of_nat (length (cl_queue l)))
                 then tail (cl_queue l) else cl_queue l in
    mkLink (cl_ready l) (queue ++ [raw]) (cl_sent l).

(** [close] swallows what the channel throws. *)
Definition link_close (l : ControlLink) : ControlLink :=
  mkLink (if decide (cl_ready l = Closed) then Closed else Closing) (cl_queue l) (cl_sent l).

(** The channel opens and fires ['open']. *)
Definition link_opened (l : ControlLink) : ControlLink :=
  if decide (cl_ready l = Connecting) then link_flush (mkLink Open (cl_queue l) (cl_sent l)) else l.

(** The newest [n] elements. *)
Definition newest {A} (n : nat) (l : list A) : list A := drop (length l - n) l.

Lemma link_backlog ms l :
  cl_ready l ≠ Open → (length (cl_queue l) ≤ 1024)%nat →
  fold_left (λ l m, link_send m l) ms l
  = mkLink (cl_ready l) (newest 1024 (cl_queue l ++ (toJson <$> ms))) (cl_sent l).
Proof.
  revert l. induction ms as [|m ms IH]; intros l Hr Hq; cbn [fold_left fmap list_fmap].
  - rewrite app_nil_r. unfold newest. replace (_ - 1024)%nat with 0%nat by lia. by destruct l.
  - assert (Hs : link_send m l = mkLink (cl_ready l) (newest 1024 (cl_queue l ++ [toJson m])) (cl_sent l)).
    { unfold link_send. rewrite decide_False by done. unfold MAX_QUEUE, newest. rewrite length_app.
      cbn [length]. f_equal. destruct (decide (1024 ≤ Z.of_nat (length (cl_queue l)))).
      - replace (length (cl_queue l) + 1 - 1024)%nat with 1%nat by lia.
        destruct (cl_queue l); [simpl in *; lia|done].
      - by replace (length (cl_queue l) + 1 - 1024)%nat with 0%nat by lia. }
    rewrite Hs, IH; [|done|unfold newest; cbn [cl_queue]; rewrite length_drop, length_app; cbn [length]; lia].
    cbn [cl_ready cl_queue cl_sent]. f_equal. unfold newest.
    rewrite !length_app, length_drop, !length_app, length_fmap. cbn [length].
    change (toJson m :: (toJson <$> ms)) with ([toJson m] ++ (toJson <$> ms)).
    rewrite (app_assoc (cl_queue l)). set (q := cl_queue l ++ [toJson m]).
    assert (Hql : length q = (length (cl_queue l) + 1)%nat) by (unfold q; rewrite length_app; done).
    rewrite <- (drop_app_le q) by lia. rewrite drop_drop. f_equal.
    rewrite length_fmap. lia.
Qed.

Lemma link_open_sends ms l :
  cl_ready l = Open →
  fold_left (λ l m, link_send m l) ms l = mkLink Open (cl_queue l) (cl_sent l ++ (toJson <$> ms)).
Proof.
  revert l. induction ms as [|m ms IH]; intros [r q s] Hr; cbn in Hr; subst; cbn [fold_left].
  - by rewrite app_nil_r.
  - unfold link_send at 2. rewrite decide_True by done. rewrite IH by done. cbn [cl_queue cl_sent].
    by rewrite <- app_assoc.
Qed.

(** control messages sent before the channel opens are delivered when it
    does, in order and before anything sent later, except that only the newest
    1024 are kept; until then the backlog never exceeds 1024. *)
Theorem control_link_fifo ms ms' :
  let l := fold_left (λ l m, link_send m l) ms (newControlLink Connecting) in
  (length (cl_queue l) ≤ 1024)%nat ∧ cl_sent l = []
  ∧ fold_left (λ l m, link_send m l) ms' (link_opened l)
    = mkLink Open [] (newest 1024 (toJson <$> ms) ++ (toJson <$> ms')).
Proof.
  intros l. assert (Hl : l = mkLink Connecting (newest 1024 (toJson <$> ms)) []).
  { unfold l. by rewrite link_backlog by (simpl; lia || done). }
  rewrite Hl. split; [|split; [done|]].
  - unfold newest. cbn [cl_queue]. rewrite length_drop. lia.
  - by rewrite link_open_sends.
Qed.

(** * Waiting on a data channel *)

(** A promise of the channel: settled, or waiting for an event. *)
Inductive channel_wait := WResolved | WRejected (e : FileTransferErrorCode) | WPending.
Inductive channel_event := EvOpen | EvBufferedAmountLow | EvClose | EvError.

Definition waitForOpen (ready : readyState) : channel_wait :=
  match ready with
  | Open => WResolved
  | Closing | Closed => WRejected ChannelClosed
  | Connecting => WPending
  end.

(** The listeners of a pending [waitForOpen]. *)
Definition wait_open_event (e : channel_event) : channel_wait :=
  match e with
  | EvOpen => WResolved
  | EvClose | EvError => WRejected ChannelClosed
  | EvBufferedAmountLow => WPending
  end.

Definition awaitDrain (ready : readyState) (bufferedAmount highWaterMark : Z) : channel_wait :=
  if decide (bufferedAmount ≤ highWaterMark) then WResolved
  else if decide (ready = Open) then WPending else WRejected ChannelClosed.

(** The listeners of a pending [awaitDrain]. *)
Definition drain_event (e : channel_event) : channel_wait :=
  match e with
  | EvBufferedAmountLow => WResolved
  | EvClose | EvError => WRejected ChannelClosed
  | EvOpen => WPending
  end.
