(* ===== verification/Reassembly.v ===== *)
(** Chunks of a file and their reassembly: what the receiver of a file transfer
    writes, independently of the order in which it writes it. *)

From S2P Require Import Prelude JsMap Uint8Array Checksum.

(** The chunks of a file of [size] bytes, [cs] bytes each but the last. *)
Section chunks.
Context (size cs total : Z).

Definition chunk_len (seq : Z) : Z := Z.min cs (size - seq * cs).

(** A frame the receiver lets through. *)
Definition job_ok (j : Z * bytes) : Prop :=
  0 ≤ j.1 < total ∧ blen j.2 ≤ cs ∧ j.1 * cs + blen j.2 ≤ size.

Definition sum_bytes (js : list (Z * bytes)) : Z := foldr (λ j n, blen j.2 + n) 0 js.

Definition write_all (ws : list (Z * bytes)) (b : bytes) : option bytes :=
  foldl (λ acc j, acc ≫= λ b, u8set b j.2 (j.1 * cs)) (Some b) ws.

Lemma write_all_snoc ws j b : write_all (ws ++ [j]) b = write_all ws b ≫= λ b, u8set b j.2 (j.1 * cs).
Proof. unfold write_all. by rewrite foldl_app. Qed.

Lemma sum_bytes_app l k : sum_bytes (l ++ k) = sum_bytes l + sum_bytes k.
Proof. induction l as [|j l IH]; simpl; [done|]. rewrite IH. lia. Qed.

Lemma sum_bytes_nonneg js : 0 ≤ sum_bytes js.
Proof.
  induction js as [|j js IH]; [done|]. change (0 ≤ blen j.2 + sum_bytes js).
  pose proof (blen_nonneg j.2). lia.
Qed.

(** Distinct chunks do not overlap: each write stays readable. *)
Lemma write_all_spec ws :
  0 < cs → 0 ≤ size → Forall job_ok ws → NoDup ws.*1 →
  ∃ b, write_all ws (u8new size) = Some b ∧ blen b = size
    ∧ ∀ s d i, (s, d) ∈ ws → s * cs ≤ Z.of_nat i < s * cs + blen d →
        b !! i = d !! (i - Z.to_nat (s * cs))%nat.
Proof.
  intros Hcs Hsize. induction ws as [|[s d] ws IH] using rev_ind; intros Hok Hnd.
  { exists (u8new size). split; [done|]. split; [by apply blen_u8new|].
    by intros ??? ?%not_elem_of_nil. }
  apply Forall_app in Hok as [Hok (Hs & Hd & Hsd)%Forall_singleton]. cbn in Hs, Hd, Hsd.
  rewrite fmap_app in Hnd. apply NoDup_app in Hnd as (Hnd & Hni & _).
  destruct (IH Hok Hnd) as (b & Hb & Hl & Hi). rewrite write_all_snoc, Hb. cbn.
  destruct (u8set_some b d (s * cs)) as (b' & -> & Hl' & Hi'); [nia|lia|].
  exists b'. split; [done|]. split; [lia|].
  intros s' d' i [Hin|Hin]%elem_of_app Hr.
  - rewrite Hi', decide_False; [by eapply Hi|].
    assert (s ≠ s').
    { intros ->. eapply (Hni s'); [apply list_elem_of_fmap; by exists (s', d')|left]. }
    rewrite Forall_forall in Hok. destruct (Hok _ Hin) as (? & ? & ?). cbn in *.
    intros ?. assert (s < s' ∨ s' < s) as [] by lia; nia.
  - apply list_elem_of_singleton in Hin as [= -> ->]. by rewrite Hi', decide_True by lia.
Qed.

(** Distinct sequence numbers below [total], at least [total] of them: all. *)
Lemma full_elem (l : list Z) s :
  NoDup l → Forall (λ x, 0 ≤ x < total) l → total ≤ Z.of_nat (length l) → 0 ≤ s < total → s ∈ l.
Proof.
  intros Hnd Hall Hlen Hs. destruct (decide (s ∈ l)) as [|Hni]; [done|]. exfalso.
  assert (Hsub : s :: l ⊆+ seqZ 0 total).
  { apply NoDup_submseteq; [by constructor|]. rewrite Forall_forall in Hall.
    intros x [->|Hx]%elem_of_cons; apply elem_of_seqZ; [lia|]. specialize (Hall x Hx). lia. }
  apply submseteq_length in Hsub. rewrite length_seqZ in Hsub. cbn in Hsub. lia.
Qed.

Lemma length_le_total (l : list Z) :
  NoDup l → Forall (λ x, 0 ≤ x < total) l → 0 ≤ total → Z.of_nat (length l) ≤ total.
Proof.
  intros Hnd Hall Ht.
  assert (Hsub : l ⊆+ seqZ 0 total).
  { apply NoDup_submseteq; [done|]. rewrite Forall_forall in Hall.
    intros x Hx. apply elem_of_seqZ. specialize (Hall x Hx). lia. }
  apply submseteq_length in Hsub. rewrite length_seqZ in Hsub. lia.
Qed.

(** The sender's number of chunks, [Math.ceil(size / chunkSize)]. *)
Definition ceil_div : Z := - ((- size) / cs).

Lemma ceil_div_bounds :
  0 < cs → 0 ≤ size →
  0 ≤ ceil_div ∧ size ≤ ceil_div * cs < size + cs ∧ (0 < size → (ceil_div - 1) * cs < size).
Proof.
  intros Hcs Hsize. unfold ceil_div. pose proof (Z.div_mod (- size) cs ltac:(lia)).
  pose proof (Z.mod_pos_bound (- size) cs Hcs). nia.
Qed.

Lemma sum_chunk_len n :
  0 < cs → 0 ≤ Z.of_nat n ≤ ceil_div → 0 ≤ size →
  foldr (λ s a, chunk_len s + a) 0 (seqZ 0 (Z.of_nat n)) = Z.min size (Z.of_nat n * cs).
Proof.
  intros Hcs Hn Hsize. destruct (ceil_div_bounds Hcs Hsize) as (H1 & H2 & _).
  assert (Hgen : ∀ k a, foldr (λ s a, chunk_len s + a) a k
    = foldr (λ s a, chunk_len s + a) 0 k + a).
  { induction k as [|s k IHk]; intros a; simpl; [lia|]. rewrite IHk. lia. }
  induction n as [|n IH]; [simpl; lia|].
  rewrite Nat2Z.inj_succ, <- Z.add_1_r, seqZ_app by lia. rewrite foldr_app.
  change (seqZ (0 + Z.of_nat n) 1) with [0 + Z.of_nat n]. cbn [foldr].
  rewrite Hgen, IH by lia. unfold chunk_len. nia.
Qed.

(** No set of distinct frames carries more than the file. *)
Lemma sum_bytes_le js :
  0 < cs → 0 ≤ size → total = ceil_div → Forall job_ok js → NoDup js.*1 → sum_bytes js ≤ size.
Proof.
  intros Hcs Hsize Ht Hok Hnd. destruct (ceil_div_bounds Hcs Hsize) as (H1 & H2 & H3).
  assert (Hle : sum_bytes js ≤ foldr (λ s a, chunk_len s + a) 0 js.*1).
  { clear Hnd. induction Hok as [|[s d] js (? & ? & ?) Hok IH]; cbn in *; [lia|].
    change (blen d + sum_bytes js ≤ chunk_len s + foldr (λ s a, chunk_len s + a) 0 js.*1).
    assert (blen d ≤ chunk_len s) by (unfold chunk_len; lia). lia. }
  assert (Hsub : js.*1 ⊆+ seqZ 0 total).
  { apply NoDup_submseteq; [done|]. intros x ([s d] & -> & Hin)%list_elem_of_fmap.
    rewrite Forall_forall in Hok. destruct (Hok _ Hin). cbn in *. apply elem_of_seqZ. lia. }
  assert (Hpos : ∀ s, s ∈ seqZ 0 total → 0 ≤ chunk_len s).
  { intros s Hs%elem_of_seqZ. unfold chunk_len. assert (0 < size) by nia. nia. }
  assert (Hmono : ∀ l k : list Z, l ⊆+ k → (∀ s, s ∈ k → 0 ≤ chunk_len s) →
    foldr (λ s a, chunk_len s + a) 0 l ≤ foldr (λ s a, chunk_len s + a) 0 k).
  { induction 1 as [|x l k Hlk IH|x y l|x l k Hlk IH|l k m Hlk IH Hkm IH']; intros Hp; simpl.
    - lia.
    - assert (∀ s, s ∈ k → 0 ≤ chunk_len s) as Hp' by (intros; apply Hp; by right).
      specialize (IH Hp'). lia.
    - lia.
    - assert (0 ≤ chunk_len x) by (apply Hp; left).
      assert (∀ s, s ∈ k → 0 ≤ chunk_len s) as Hp' by (intros; apply Hp; by right).
      specialize (IH Hp'). lia.
    - etrans; [apply IH|by apply IH']. intros s Hs. apply Hp. by eapply elem_of_submseteq. }
  specialize (Hmono _ _ Hsub Hpos).
  assert (foldr (λ s a, chunk_len s + a) 0 (seqZ 0 total) = Z.min size (total * cs)) as Heq.
  { pose proof (sum_chunk_len (Z.to_nat total) Hcs) as Hs. rewrite Z2Nat.id in Hs by lia.
    apply Hs; lia. }
  lia.
Qed.
End chunks.

(** The chunk [seq] of the file [f]. *)
Definition chunk_of (f : bytes) (cs seq : Z) : bytes :=
  u8slice (seq * cs) (chunk_len (blen f) cs seq) f.

(** Writing every chunk of [f], in any order, gives [f]. *)
Lemma reassemble f cs ws :
  0 < cs → NoDup ws.*1 → Forall (λ j, 0 ≤ j.1 < ceil_div (blen f) cs ∧ j.2 = chunk_of f cs j.1) ws →
  ceil_div (blen f) cs ≤ Z.of_nat (length ws) → write_all cs ws (u8new (blen f)) = Some f.
Proof.
  intros Hcs Hnd Hall Hlen. pose proof (blen_nonneg f) as Hf.
  destruct (ceil_div_bounds (blen f) cs Hcs Hf) as (Ht & Hb & Hlast).
  assert (Hcl : ∀ s, 0 ≤ s < ceil_div (blen f) cs → 0 ≤ chunk_len (blen f) cs s
    ∧ blen (chunk_of f cs s) = chunk_len (blen f) cs s).
  { intros s Hs. unfold chunk_of, chunk_len. assert (0 < blen f) by nia.
    split; [nia|]. apply blen_u8slice; nia. }
  assert (Hok : Forall (job_ok (blen f) cs (ceil_div (blen f) cs)) ws).
  { eapply Forall_impl; [exact Hall|]. intros [s d] [Hs Hd0]. cbn in Hs, Hd0. subst d.
    destruct (Hcl s Hs) as [? Hd]. split; [done|]. cbn. rewrite Hd. unfold chunk_len. lia. }
  destruct (write_all_spec _ _ _ _ Hcs Hf Hok Hnd) as (b & -> & Hl & Hi). f_equal.
  apply list_eq_same_length with (length f); [done|unfold blen in *; lia|].
  intros i x y Hlt Hx Hy. set (s := Z.of_nat i / cs).
  assert (Hs : s * cs ≤ Z.of_nat i < s * cs + cs).
  { pose proof (Z.div_mod (Z.of_nat i) cs ltac:(lia)).
    pose proof (Z.mod_pos_bound (Z.of_nat i) cs Hcs). unfold s. nia. }
  assert (0 ≤ s) by (apply Z.div_pos; lia).
  assert (Hs' : 0 ≤ s < ceil_div (blen f) cs) by (unfold blen in *; nia).
  assert (Hin : s ∈ ws.*1).
  { apply (full_elem (ceil_div (blen f) cs)); [done| |by rewrite length_fmap|done].
    apply Forall_fmap. eapply Forall_impl; [exact Hall|]. by intros ? []. }
  apply list_elem_of_fmap in Hin as ([s0 d] & Hs0 & Hin). cbn in Hs0.
  rewrite Forall_forall in Hall. destruct (Hall _ Hin) as [_ Hd]. cbn in Hd. rewrite <- Hs0 in Hd.
  destruct (Hcl s Hs') as [_ Hcd].
  rewrite (Hi s d i) in Hx; [| |].
  - subst d. unfold chunk_of in Hx. rewrite u8slice_lookup in Hx by nia.
    destruct (decide _) as [|]; [|done].
    replace (Z.to_nat (s * cs) + (i - Z.to_nat (s * cs)))%nat with i in Hx by lia. congruence.
  - by rewrite Hs0.
  - rewrite Hd, Hcd. unfold chunk_len, blen in *. lia.
Qed.
