(* ===== verification/ReceiveTransfer.v ===== *)
(** The receiving side of a transfer
    (packages/sdk/src/filetransfer/ReceiveTransfer.ts).

    The class is a set of synchronous handlers that interleave at their [await]s.
    Each stretch of code between two awaits is one action of the model; what is
    suspended is in the state: messages being decoded ([rt_inbox]), the write
    chain ([rt_chain]), the opening of the sink ([rt_opened]) and the completion
    in progress ([rt_phase]).  Any order of actions is a run; an action that is
    not enabled does nothing.  [rt_control_up] says whether [sendControl] delivers
    or throws, and may change at any time. *)

From S2P Require Import Prelude JsMap JsNumber Uint8Array Framing Checksum Sink Transfer Schema Control Reassembly.

(** The opening of the sink: its promise is pending, then resolved. *)
Inductive open_state := NotOpened | Opening (ok : bool) | Opened.

(** Where [_tryComplete] is suspended. *)
Inductive phase :=
| PIdle
| PWaitChain
| PWaitDigest (local : option jsstr)
| PWaitClose (r : option SinkResult)
| PDone.

(** What leaves the transfer: control messages, the cancel that carries an error's
    message, closed channels. *)
Inductive rt_output :=
| OutControl (m : ControlMessage)
| OutCancelError (code : FileTransferErrorCode)
| OutCloseChannel (channel : Z).

(** [ev.data]: an [ArrayBuffer] (or a view, or a [Blob]), or something else. *)
Inductive message_data := MsgBinary (data : bytes) | MsgOther.

Record ReceiveTransfer (K : Type) := mkReceive {
  rt_base : Transfer;
  rt_checksum : bool;
  rt_received : list Z;
  rt_channels : list Z;
  rt_sink : option K;
  rt_digest : option Sha256Digest;
  rt_expected : option jsstr;
  rt_senderDone : bool;
  rt_chain : list (Z * bytes);
  rt_hashed : bool;
  rt_result : option SinkResult;
  rt_sinkFinalized : bool;
  rt_completing : bool;
  rt_opened : open_state;
  rt_phase : phase;
  rt_inbox : list message_data;
  rt_control_up : bool;
  rt_out : list rt_output;
}.
Arguments mkReceive {K}.
Arguments rt_base {K} _.
Arguments rt_checksum {K} _.
Arguments rt_received {K} _.
Arguments rt_channels {K} _.
Arguments rt_sink {K} _.
Arguments rt_digest {K} _.
Arguments rt_expected {K} _.
Arguments rt_senderDone {K} _.
Arguments rt_chain {K} _.
Arguments rt_hashed {K} _.
Arguments rt_result {K} _.
Arguments rt_sinkFinalized {K} _.
Arguments rt_completing {K} _.
Arguments rt_opened {K} _.
Arguments rt_phase {K} _.
Arguments rt_inbox {K} _.
Arguments rt_control_up {K} _.
Arguments rt_out {K} _.

Section receive.
Context {K : Type} `{StorageSink K} `{SubtleCrypto}.
Abbreviation RT := (ReceiveTransfer K).
Implicit Types (t : RT).

(** Field updates. *)
Definition s_base (x : Transfer) t : RT :=
  mkReceive x (rt_checksum t) (rt_received t) (rt_channels t) (rt_sink t) (rt_digest t)
    (rt_expected t) (rt_senderDone t) (rt_chain t) (rt_hashed t) (rt_result t)
    (rt_sinkFinalized t) (rt_completing t) (rt_opened t) (rt_phase t) (rt_inbox t)
    (rt_control_up t) (rt_out t).
Definition s_received (x : list Z) t : RT :=
  mkReceive (rt_base t) (rt_checksum t) x (rt_channels t) (rt_sink t) (rt_digest t)
    (rt_expected t) (rt_senderDone t) (rt_chain t) (rt_hashed t) (rt_result t)
    (rt_sinkFinalized t) (rt_completing t) (rt_opened t) (rt_phase t) (rt_inbox t)
    (rt_control_up t) (rt_out t).
Definition s_channels (x : list Z) t : RT :=
  mkReceive (rt_base t) (rt_checksum t) (rt_received t) x (rt_sink t) (rt_digest t)
    (rt_expected t) (rt_senderDone t) (rt_chain t) (rt_hashed t) (rt_result t)
    (rt_sinkFinalized t) (rt_completing t) (rt_opened t) (rt_phase t) (rt_inbox t)
    (rt_control_up t) (rt_out t).
Definition s_sink (x : option K) t : RT :=
  mkReceive (rt_base t) (rt_checksum t) (rt_received t) (rt_channels t) x (rt_digest t)
    (rt_expected t) (rt_senderDone t) (rt_chain t) (rt_hashed t) (rt_result t)
    (rt_sinkFinalized t) (rt_completing t) (rt_opened t) (rt_phase t) (rt_inbox t)
    (rt_control_up t) (rt_out t).
Definition s_digest (x : option Sha256Digest) t : RT :=
  mkReceive (rt_base t) (rt_checksum t) (rt_received t) (rt_channels t) (rt_sink t) x
    (rt_expected t) (rt_senderDone t) (rt_chain t) (rt_hashed t) (rt_result t)
    (rt_sinkFinalized t) (rt_completing t) (rt_opened t) (rt_phase t) (rt_inbox t)
    (rt_control_up t) (rt_out t).
Definition s_expected (x : option jsstr) t : RT :=
  mkReceive (rt_base t) (rt_checksum t) (rt_received t) (rt_channels t) (rt_sink t)
    (rt_digest t) x (rt_senderDone t) (rt_chain t) (rt_hashed t) (rt_result t)
    (rt_sinkFinalized t) (rt_completing t) (rt_opened t) (rt_phase t) (rt_inbox t)
    (rt_control_up t) (rt_out t).
Definition s_senderDone (x : bool) t : RT :=
  mkReceive (rt_base t) (rt_checksum t) (rt_received t) (rt_channels t) (rt_sink t)
    (rt_digest t) (rt_expected t) x (rt_chain t) (rt_hashed t) (rt_result t)
    (rt_sinkFinalized t) (rt_completing t) (rt_opened t) (rt_phase t) (rt_inbox t)
    (rt_control_up t) (rt_out t).
Definition s_chain (x : list (Z * bytes)) t : RT :=
  mkReceive (rt_base t) (rt_checksum t) (rt_received t) (rt_channels t) (rt_sink t)
    (rt_digest t) (rt_expected t) (rt_senderDone t) x (rt_hashed t) (rt_result t)
    (rt_sinkFinalized t) (rt_completing t) (rt_opened t) (rt_phase t) (rt_inbox t)
    (rt_control_up t) (rt_out t).
Definition s_hashed (x : bool) t : RT :=
  mkReceive (rt_base t) (rt_checksum t) (rt_received t) (rt_channels t) (rt_sink t)
    (rt_digest t) (rt_expected t) (rt_senderDone t) (rt_chain t) x (rt_result t)
    (rt_sinkFinalized t) (rt_completing t) (rt_opened t) (rt_phase t) (rt_inbox t)
    (rt_control_up t) (rt_out t).
Definition s_result (x : option SinkResult) t : RT :=
  mkReceive (rt_base t) (rt_checksum t) (rt_received t) (rt_channels t) (rt_sink t)
    (rt_digest t) (rt_expected t) (rt_senderDone t) (rt_chain t) (rt_hashed t) x
    (rt_sinkFinalized t) (rt_completing t) (rt_opened t) (rt_phase t) (rt_inbox t)
    (rt_control_up t) (rt_out t).
Definition s_sinkFinalized (x : bool) t : RT :=
  mkReceive (rt_base t) (rt_checksum t) (rt_received t) (rt_channels t) (rt_sink t)
    (rt_digest t) (rt_expected t) (rt_senderDone t) (rt_chain t) (rt_hashed t) (rt_result t)
    x (rt_completing t) (rt_opened t) (rt_phase t) (rt_inbox t) (rt_control_up t) (rt_out
    t).
Definition s_completing (x : bool) t : RT :=
  mkReceive (rt_base t) (rt_checksum t) (rt_received t) (rt_channels t) (rt_sink t)
    (rt_digest t) (rt_expected t) (rt_senderDone t) (rt_chain t) (rt_hashed t) (rt_result t)
    (rt_sinkFinalized t) x (rt_opened t) (rt_phase t) (rt_inbox t) (rt_control_up t) (rt_out
    t).
Definition s_opened (x : open_state) t : RT :=
  mkReceive (rt_base t) (rt_checksum t) (rt_received t) (rt_channels t) (rt_sink t)
    (rt_digest t) (rt_expected t) (rt_senderDone t) (rt_chain t) (rt_hashed t) (rt_result t)
    (rt_sinkFinalized t) (rt_completing t) x (rt_phase t) (rt_inbox t) (rt_control_up t)
    (rt_out t).
Definition s_phase (x : phase) t : RT :=
  mkReceive (rt_base t) (rt_checksum t) (rt_received t) (rt_channels t) (rt_sink t)
    (rt_digest t) (rt_expected t) (rt_senderDone t) (rt_chain t) (rt_hashed t) (rt_result t)
    (rt_sinkFinalized t) (rt_completing t) (rt_opened t) x (rt_inbox t) (rt_control_up t)
    (rt_out t).
Definition s_inbox (x : list message_data) t : RT :=
  mkReceive (rt_base t) (rt_checksum t) (rt_received t) (rt_channels t) (rt_sink t)
    (rt_digest t) (rt_expected t) (rt_senderDone t) (rt_chain t) (rt_hashed t) (rt_result t)
    (rt_sinkFinalized t) (rt_completing t) (rt_opened t) (rt_phase t) x (rt_control_up t)
    (rt_out t).
Definition s_control_up (x : bool) t : RT :=
  mkReceive (rt_base t) (rt_checksum t) (rt_received t) (rt_channels t) (rt_sink t)
    (rt_digest t) (rt_expected t) (rt_senderDone t) (rt_chain t) (rt_hashed t) (rt_result t)
    (rt_sinkFinalized t) (rt_completing t) (rt_opened t) (rt_phase t) (rt_inbox t) x (rt_out
    t).
Definition s_out (x : list rt_output) t : RT :=
  mkReceive (rt_base t) (rt_checksum t) (rt_received t) (rt_channels t) (rt_sink t)
    (rt_digest t) (rt_expected t) (rt_senderDone t) (rt_chain t) (rt_hashed t) (rt_result t)
    (rt_sinkFinalized t) (rt_completing t) (rt_opened t) (rt_phase t) (rt_inbox t)
    (rt_control_up t) x.

Definition rt_emit_out (o : rt_output) t : RT := s_out (rt_out t ++ [o]) t.

(** [this._sendControl(msg)]; the boolean says that it threw. *)
Definition sendControl (m : ControlMessage) t : RT * bool :=
  if rt_control_up t then (rt_emit_out (OutControl m) t, false) else (t, true).

(** [_abortSink]. *)
Definition abortSink t : RT :=
  if rt_sinkFinalized t then t
  else match rt_sink t with
       | None => t
       | Some k => s_sink (Some (sink_abort k)) (s_sinkFinalized true t)
       end.

(** [_onTerminal]. *)
Definition rt_onTerminal t : RT :=
  let t1 := if decide (tb_state (rt_base t) = Completed) then t else abortSink t in
  s_channels [] (s_out (rt_out t1 ++ (OutCloseChannel <$> rt_channels t1)) t1).

(** [_notifyRemoteFailure] swallows what [sendControl] throws. *)
Definition rt_notify (e : FileTransferErrorCode) t : RT :=
  if rt_control_up t then rt_emit_out (OutCancelError e) t else t.

#[export] Instance receive_ops : TransferOps RT := {
  base := rt_base;
  set_base := s_base;
  onTerminal := rt_onTerminal;
  notifyRemoteFailure := rt_notify;
}.

Definition rt_id t : jsstr := tb_id (rt_base t).
Definition rt_size t : Z := md_size (tb_metadata (rt_base t)).
Definition rt_chunkSize t : Z := tb_chunkSize (rt_base t).
Definition rt_totalChunks t : Z := tb_totalChunks (rt_base t).

Definition newReceive (id peerId : jsstr) (metadata : FileMetadata)
    (chunkSize totalChunks : Z) (checksum : bool) : RT :=
  (transitionTo Offered
    (mkReceive (newTransfer id peerId metadata chunkSize totalChunks) checksum [] [] None None None
       false [] false None false false NotOpened PIdle [] true [])).1.

(** [requestResume]. *)
Definition requestResume t : RT :=
  if isTerminal t || bool_decide (state t = Offered) then t
  else match rt_sink t with
       | None => t
       | Some _ => (sendControl (MResumeRequest (rt_id t) (rt_received t)) t).1
       end.

(** [accept], up to the pending promise of [open]; a synchronous exception of
    [open] escapes to the caller, and is the boolean. *)
Definition accept (sink : K) t : RT * bool :=
  if decide (state t ≠ Offered) then (fail InvalidState false t, false)
  else
    let t1 := s_sink (Some sink) t in
    let t2 := s_digest (if rt_checksum t1 then Some newDigest else None) t1 in
    let t3 := (transitionTo Accepted t2).1 in
    let '(k, outcome) := sink_open (tb_metadata (rt_base t3)) sink in
    let t4 := s_sink (Some k) t3 in
    match outcome with
    | OpenOk => (s_opened (Opening true) t4, false)
    | OpenRejects => (s_opened (Opening false) t4, false)
    | OpenThrows => (t4, true)
    end.

(** The continuation of [open]. *)
Definition accept_opened t : RT :=
  match rt_opened t with
  | Opening true =>
      let t1 := (transitionTo Active (s_opened Opened t)).1 in
      let '(t2, threw) := sendControl (MAccept (rt_id t1) (Some (rt_received t1))) t1 in
      if threw : bool then fail SinkWriteFailed true t2 else t2
  | Opening false => fail SinkWriteFailed true (s_opened NotOpened t)
  | _ => t
  end.

Definition reject (reason : option jsstr) t : RT :=
  if decide (state t ≠ Offered) then t
  else
    let '(t1, threw) := sendControl (MReject (rt_id t) reason) t in
    if threw : bool then t1 else (transitionTo Cancelled t1).1.

Definition no_sink t : bool := match rt_sink t with None => true | Some _ => false end.

Definition attachChannel (channel : Z) t : RT := s_channels (sadd channel (rt_channels t)) t.

(** [_tryComplete], up to its first await. *)
Definition tryComplete t : RT :=
  if isTerminal t || no_sink t || negb (rt_senderDone t)
     || bool_decide (Z.of_nat (length (rt_received t)) < rt_totalChunks t)
     || rt_completing t
  then t
  else s_phase PWaitChain (s_completing true t).

(** [_enqueueChunk]. *)
Definition enqueueChunk (seq : Z) (b : bytes) t : RT :=
  if no_sink t then t else s_chain (rt_chain t ++ [(seq, b)]) t.

(** [_onMessage], up to the await of [toArrayBuffer]. *)
Definition onMessage (data : message_data) t : RT :=
  if isTerminal t || no_sink t then t else s_inbox (rt_inbox t ++ [data]) t.

(** [toArrayBuffer] then [decodeFrame]. *)
Definition decode_message (data : message_data) : result FileTransferErrorCode (Z * bytes) :=
  match data with
  | MsgBinary b => decodeFrame b
  | MsgOther => Throw InvalidFrame
  end.

(** [_onMessage] after the await: the checks, then the chunk is recorded. *)
Definition onFrame (seq : Z) (payload : bytes) t : RT :=
  if decide (seq < 0 ∨ rt_totalChunks t ≤ seq) then fail InvalidFrame true t
  else if decide (rt_chunkSize t < blen payload) then fail InvalidFrame true t
  else if decide (rt_size t < seq * rt_chunkSize t + blen payload) then fail InvalidFrame true t
  else if decide (seq ∈ rt_received t) then t
  else
    let t1 := s_received (rt_received t ++ [seq]) t in
    let t2 := on_base (tb_count (blen payload)) t1 in
    let t3 := on_base tb_progress t2 in
    tryComplete (enqueueChunk seq payload t3).

Definition decode_next t : RT :=
  match rt_inbox t with
  | [] => t
  | data :: rest =>
      let t1 := s_inbox rest t in
      match decode_message data with
      | Throw e => fail InvalidFrame true t1
      | Ok (seq, payload) => onFrame seq payload t1
      end
  end.

(** A job of the write chain, up to the write: the digest is updated;
    [crypto] says that WebCrypto is available. *)
Definition write_begin (crypto : bool) t : RT :=
  match rt_chain t with
  | [] => t
  | (seq, b) :: rest =>
      if rt_hashed t then t
      else if isTerminal t then s_chain rest t
      else match rt_digest t with
           | None => s_hashed true t
           | Some d =>
               if crypto then s_digest (Some (update seq b d)) (s_hashed true t)
               else abortSink (fail SinkWriteFailed true (s_chain rest t))
           end
  end.

(** The write itself. *)
Definition write_end t : RT :=
  match rt_chain t with
  | [] => t
  | (seq, b) :: rest =>
      if negb (rt_hashed t) then t
      else match rt_sink t with
           | None => t
           | Some k =>
               let '(k', threw) := sink_write (seq * rt_chunkSize t) b k in
               let t1 := s_chain rest (s_hashed false (s_sink (Some k') t)) in
               if threw : bool then abortSink (fail SinkWriteFailed true t1) else t1
           end
  end.

(** A mismatch: the sender is told, the sink dropped, the transfer failed; an
    exception of [sendControl] ends the completion there. *)
Definition mismatch t : RT :=
  let '(t1, threw) := sendControl (MChecksumMismatch (rt_id t)) t in
  if threw : bool then s_phase PDone t1
  else s_phase PDone (fail ChecksumMismatchCode false (abortSink t1)).

(** The last part of [_tryComplete], up to the await of [close]. *)
Definition begin_close t : RT :=
  match rt_sink t with
  | None => s_phase PDone t
  | Some k =>
      let t1 := (transitionTo Completing t).1 in
      let '(k', r) := sink_close k in
      s_phase (PWaitClose r) (s_sink (Some k') t1)
  end.

(** [_tryComplete] after the write chain is drained. *)
Definition verify t : RT :=
  match rt_phase t, rt_chain t with
  | PWaitChain, [] =>
      if isTerminal t then s_phase PDone t
      else match rt_digest t with
           | None => begin_close t
           | Some d =>
               match rt_expected t with
               | None => mismatch t
               | Some _ => s_phase (PWaitDigest (finalize d)) t
               end
           end
  | _, _ => t
  end.

(** [_tryComplete] after [finalize]. *)
Definition verify_digest t : RT :=
  match rt_phase t with
  | PWaitDigest (Some local) =>
      if decide (Some local ≠ rt_expected t) then mismatch t else begin_close t
  | PWaitDigest None => s_phase PDone t
  | _ => t
  end.

(** [_tryComplete] after [close]. *)
Definition close_done t : RT :=
  match rt_phase t with
  | PWaitClose None => s_phase PDone (fail SinkWriteFailed true t)
  | PWaitClose (Some r) =>
      let t1 := s_phase PDone (s_sinkFinalized true (s_result (Some r) t)) in
      let '(t2, threw) := sendControl (MComplete (rt_id t1)) t1 in
      if threw : bool then t2
      else
        let '(t3, moved) := transitionTo Completed t2 in
        if moved : bool then emit CompleteEvent t3 else t3
  | _ => t
  end.

Definition handleControl (m : ControlMessage) t : RT :=
  match m with
  | MSent _ digest => tryComplete (s_expected digest (s_senderDone true t))
  | MCancel _ reason => markCancelled (bool_decide (reason ≠ None)) t
  | _ => t
  end.

Definition pause t : RT :=
  if decide (state t = Active)
  then (sendControl (MPause (rt_id t)) (transitionTo Paused t).1).1 else t.

Definition resume t : RT :=
  if decide (state t = Paused)
  then (sendControl (MResume (rt_id t)) (transitionTo Active t).1).1 else t.

(** [cancel]; an exception of [sendControl] leaves the transfer as it was. *)
Definition cancel (reason : option jsstr) t : RT :=
  if isTerminal t then t
  else
    let '(t1, threw) := sendControl (MCancel (rt_id t) reason) t in
    if threw : bool then t1 else markCancelled (bool_decide (reason ≠ None)) t1.

(** * Runs *)

Inductive rt_action :=
| AAccept (sink : K)
| AOpened
| AReject (reason : option jsstr)
| AAttach (channel : Z)
| AMessage (data : message_data)
| ADecode
| AWriteBegin (crypto : bool)
| AWriteEnd
| AVerify
| ADigest
| AClose
| AControl (m : ControlMessage)
| APause
| AResume
| ACancel (reason : option jsstr)
| ARequestResume
| AControlUp (up : bool).

Definition rt_step t (a : rt_action) : RT :=
  match a with
  | AAccept sink => (accept sink t).1
  | AOpened => accept_opened t
  | AReject reason => reject reason t
  | AAttach channel => attachChannel channel t
  | AMessage data => onMessage data t
  | ADecode => decode_next t
  | AWriteBegin crypto => write_begin crypto t
  | AWriteEnd => write_end t
  | AVerify => verify t
  | ADigest => verify_digest t
  | AClose => close_done t
  | AControl m => handleControl m t
  | APause => pause t
  | AResume => resume t
  | ACancel reason => cancel reason t
  | ARequestResume => requestResume t
  | AControlUp up => s_control_up up t
  end.

Definition rt_run (as_ : list rt_action) t : RT := fold_left rt_step as_ t.

(** One turn of the event loop: an event, then what it makes ready. *)
Definition microtasks : list rt_action :=
  [AOpened; ADecode; AWriteBegin true; AWriteEnd; AVerify; ADigest; AClose].
Definition turn t (a : rt_action) : RT := rt_run microtasks (rt_step t a).
End receive.
Arguments rt_action : clear implicits.

(** * The hooks keep their contract *)

Section receive_lemmas.
Context {K : Type} `{StorageSink K} `{SubtleCrypto}.
Abbreviation RT := (ReceiveTransfer K).
Implicit Types (t : RT).

Lemma abortSink_base t : rt_base (abortSink t) = rt_base t.
Proof. unfold abortSink. destruct (rt_sinkFinalized t); [done|]. by destruct (rt_sink t). Qed.

Lemma onTerminal_base t : rt_base (rt_onTerminal t) = rt_base t.
Proof.
  unfold rt_onTerminal. destruct (decide (tb_state (rt_base t) = Completed)); [done|].
  cbn. apply abortSink_base.
Qed.

#[export] Instance receive_laws : TransferLaws RT.
Proof.
  constructor.
  - done.
  - apply onTerminal_base.
  - intros e t _. cbn. unfold rt_notify. by destruct (rt_control_up t).
Qed.

(** Everything but the base record, the sink, the channels and the output. *)
Definition core t :=
  (rt_received t, rt_digest t, rt_expected t, rt_senderDone t, rt_chain t, rt_hashed t,
   rt_result t, rt_completing t, rt_opened t, rt_phase t, rt_inbox t, rt_checksum t).

Lemma core_abortSink t : core (abortSink t) = core t.
Proof. unfold abortSink. destruct (rt_sinkFinalized t); [done|]. by destruct (rt_sink t). Qed.

Lemma core_onTerminal t : core (rt_onTerminal t) = core t.
Proof.
  unfold rt_onTerminal. destruct (decide (tb_state (rt_base t) = Completed)); [done|].
  etrans; [|apply (core_abortSink t)]. done.
Qed.

Lemma core_transition next t : core (transitionTo next t).1 = core t.
Proof.
  unfold transitionTo. destruct (decide _); [done|]. destruct (isTerminal t); [done|].
  destruct (negb _ && negb _); [done|]. cbn [fst].
  destruct (bool_decide (next ∈ TERMINAL)); [|done]. etrans; [apply core_onTerminal|done].
Qed.

Lemma sink_transition next t : next ∉ TERMINAL → rt_sink (transitionTo next t).1 = rt_sink t.
Proof.
  intros Hn. unfold transitionTo. destruct (decide _); [done|]. destruct (isTerminal t); [done|].
  destruct (negb _ && negb _); [done|]. cbn [fst]. by rewrite bool_decide_eq_false_2.
Qed.

Lemma sink_completed t : rt_sink (transitionTo Completed t).1 = rt_sink t.
Proof.
  unfold transitionTo. destruct (decide _); [done|]. destruct (isTerminal t); [done|].
  destruct (negb _ && negb _); [done|]. cbn [fst].
  rewrite bool_decide_eq_true_2 by set_solver. by cbn.
Qed.

Lemma core_fail e n t : core (fail e n t) = core t.
Proof.
  unfold fail. destruct (isTerminal t); [done|].
  change (core (emit (ErrorEvent e) ?x)) with (core x).
  destruct n; [|apply core_transition]. cbn [notifyRemoteFailure receive_ops].
  unfold rt_notify. destruct (rt_control_up _);
    [change (core (rt_emit_out ?o ?x)) with (core x)|]; apply core_transition.
Qed.

Lemma core_markCancelled r t : core (markCancelled r t) = core t.
Proof.
  unfold markCancelled. destruct (isTerminal t); [done|].
  destruct r; [change (core (emit ?e ?x)) with (core x)|]; apply core_transition.
Qed.

Lemma sendControl_spec m t :
  core (sendControl m t).1 = core t ∧ rt_base (sendControl m t).1 = rt_base t
  ∧ rt_sink (sendControl m t).1 = rt_sink t.
Proof. unfold sendControl. by destruct (rt_control_up t). Qed.
End receive_lemmas.

(** * The invariant of a run *)

(** The run concerns one offer; [Good] holds of the frames that arrive, [GoodDigest]
    of the digests of the [ft-sent] messages. *)
Section invariant.
Context {K : Type} `{StorageSinkLaws K} `{SubtleCrypto}.
Abbreviation RT := (ReceiveTransfer K).
Context (meta : FileMetadata) (cs total : Z) (checksum : bool).
Context (Good : Z → bytes → Prop) (GoodDigest : option jsstr → Prop).
Implicit Types (t : RT) (frames written : list (Z * bytes)).

Abbreviation size := (md_size meta).

Definition good_frame (j : Z * bytes) : Prop := job_ok size cs total j ∧ Good j.1 j.2.
Definition good_message (d : message_data) : Prop :=
  ∀ seq p, decode_message d = Ok (seq, p) → Good seq p.

Definition opened_ok t : Prop := rt_opened t = Opening true ∨ rt_opened t = Opened.

(** What the sink's result must be. *)
Definition result_ok written (r : SinkResult) : Prop :=
  (∃ b, sr_bytes r = Some b ∧ write_all cs written (u8new size) = Some b)
  ∧ (checksum = true → ∃ D, GoodDigest (Some D) ∧ finalize (updates written newDigest) = Some D).

Definition phase_ok written t : Prop :=
  match rt_phase t with
  | PIdle | PWaitChain | PDone => True
  | PWaitDigest l => rt_chain t = [] ∧ ∃ d, rt_digest t = Some d ∧ l = finalize d
  | PWaitClose r =>
      rt_chain t = [] ∧ ∀ r', r = Some r' → state t = Completing → result_ok written r'
  end.

Definition closing (p : phase) : Prop :=
  match p with PWaitClose _ | PDone => True | _ => False end.

(** While the transfer is not over: what was written, hashed and queued is what
    was received. *)
Record live frames written t : Prop := {
  live_frames : frames = written ++ rt_chain t;
  live_sink k : rt_sink t = Some k → opened_ok t → ¬ closing (rt_phase t) →
    write_all cs written (u8new size) = Some (sink_contents k);
  live_digest :
    match rt_digest t with
    | None => checksum = false ∨ rt_sink t = None
    | Some d => checksum = true
        ∧ d = updates (written ++ take (if rt_hashed t then 1 else 0)%nat (rt_chain t)) newDigest
    end;
  live_hashed : rt_hashed t = true → rt_chain t ≠ [];
  live_phase : phase_ok written t;
}.

Record static_ok (b : Transfer) : Prop := {
  st_meta : tb_metadata b = meta;
  st_cs : tb_chunkSize b = cs;
  st_total : tb_totalChunks b = total;
  st_life : lifecycle b;
}.

Record frames_ok frames t : Prop := {
  fr_received : rt_received t = frames.*1;
  fr_nodup : NoDup frames.*1;
  fr_good : Forall good_frame frames;
  fr_chunks : tb_transferredChunks (rt_base t) = Z.of_nat (length frames);
  fr_bytes : tb_transferredBytes (rt_base t) = sum_bytes frames;
  fr_chain : ∀ j, j ∈ rt_chain t → j ∈ frames;
}.

Record core_ok t : Prop := {
  co_checksum : rt_checksum t = checksum;
  co_inbox : Forall good_message (rt_inbox t);
  co_phase : rt_phase t ≠ PIdle → rt_completing t = true;
  co_full : rt_completing t = true → total ≤ Z.of_nat (length (rt_received t)) ∧ rt_senderDone t = true;
  co_expected : rt_senderDone t = true → GoodDigest (rt_expected t);
}.

Record sink_ok t : Prop := {
  sk_none : rt_sink t = None → rt_received t = [] ∧ rt_chain t = [] ∧ rt_inbox t = [];
  sk_offered : state t = Offered → rt_sink t = None;
  sk_opened : state t ∈ [Active; Paused; Completing; Completed] → rt_opened t = Opened;
  sk_opened_some : rt_opened t ≠ NotOpened → rt_sink t ≠ None;
  sk_phase : rt_sink t = None → rt_phase t = PIdle;
  sk_idle : state t ≠ Idle;
}.

Record INV0 frames t : Prop := {
  inv_static : static_ok (rt_base t);
  inv_frames : frames_ok frames t;
  inv_core : core_ok t;
  inv_sink : sink_ok t;
}.

Definition final frames written t : Prop :=
  state t = Completed →
    frames = written ∧ rt_phase t = PDone ∧ rt_completing t = true
    ∧ ∃ r, rt_result t = Some r ∧ result_ok written r.

Definition INV frames written t : Prop :=
  INV0 frames t ∧ (isTerminal t = false → live frames written t) ∧ final frames written t.

(** * Preservation: the lifecycle moves *)

Lemma static_transition next t : static_ok (rt_base t) → static_ok (rt_base (transitionTo next t).1).
Proof.
  intros [S1 S2 S3 S4]. pose proof (lifecycle_transition next t S4) as Hl.
  destruct (transitionTo_base next t) as [[_ ->]|[(_ & _ & ->)|(_ & _ & _ & Hb)]]; [by constructor..|].
  cbn [base receive_ops] in Hb, Hl. rewrite Hb in *. by constructor.
Qed.

Lemma static_fail e n t : static_ok (rt_base t) → static_ok (rt_base (fail e n t)).
Proof.
  intros [S1 S2 S3 S4]. pose proof (lifecycle_fail e n t S4) as Hl. pose proof (base_fail e n t) as Hb.
  cbn [base receive_ops] in Hb, Hl. rewrite Hb in *. destruct (isTerminal t); by constructor.
Qed.

Lemma static_mark r t : static_ok (rt_base t) → static_ok (rt_base (markCancelled r t)).
Proof.
  intros [S1 S2 S3 S4]. pose proof (lifecycle_markCancelled r t S4) as Hl.
  pose proof (base_markCancelled r t) as Hb.
  cbn [base receive_ops] in Hb, Hl. rewrite Hb in *.
  destruct (isTerminal t), r; by constructor.
Qed.

(** A step that ends the transfer without completing it, and changes nothing
    else but the sink, the channels and the output. *)
Lemma INV_end frames written t t' :
  core t' = core t → static_ok (rt_base t') →
  tb_transferredChunks (rt_base t') = tb_transferredChunks (rt_base t) →
  tb_transferredBytes (rt_base t') = tb_transferredBytes (rt_base t) →
  (rt_sink t' = None ↔ rt_sink t = None) →
  state t' = Failed ∨ state t' = Cancelled →
  INV0 frames t → INV frames written t'.
Proof.
  unfold core. intros Hc Hst Hb1 Hb2 Hs Hstate [_ [] [] []].
  injection Hc as Hr Hd He Hsd Hch Hh Hres Hcp Hop Hph Hin Hck.
  assert (Hnc : (state t' ∉ [Active; Paused; Completing; Completed]) ∧ state t' ≠ Offered ∧ state t' ≠ Idle).
  { destruct Hstate as [-> | ->]; split_and!; set_solver. }
  destruct Hnc as (Hn1 & Hn2 & Hn3). split; [constructor|split].
  - done.
  - constructor; rewrite ?Hr, ?Hb1, ?Hb2, ?Hch; done.
  - constructor; rewrite ?Hck, ?Hin, ?Hph, ?Hcp, ?Hr, ?Hsd, ?He; done.
  - constructor; try done.
    + intros ?%Hs. rewrite Hr, Hch, Hin. auto.
    + rewrite Hop. intros ? ?%Hs. by apply sk_opened_some0.
    + rewrite Hph. intros ?%Hs. auto.
  - intros Ht. exfalso. unfold isTerminal, tb_terminal in Ht. apply bool_decide_eq_false in Ht.
    apply Ht. change (tb_state (base t')) with (state t').
    destruct Hstate as [-> | ->]; set_solver.
  - intros Hcomp. rewrite Hcomp in Hstate. by destruct Hstate.
Qed.

Lemma sink_abort_none t : rt_sink (abortSink t) = None ↔ rt_sink t = None.
Proof.
  unfold abortSink. destruct (rt_sinkFinalized t); [done|]. by destruct (rt_sink t) eqn:E; [|rewrite E].
Qed.

Lemma sink_transition_none next t : rt_sink (transitionTo next t).1 = None ↔ rt_sink t = None.
Proof.
  unfold transitionTo. destruct (decide _); [done|]. destruct (isTerminal t); [done|].
  destruct (negb _ && negb _); [done|]. cbn [fst].
  destruct (bool_decide (next ∈ TERMINAL)); [|done]. cbn [onTerminal receive_ops].
  unfold rt_onTerminal. destruct (decide _); [done|]. etrans; [apply sink_abort_none|done].
Qed.

Lemma sink_fail_none e n t : rt_sink (fail e n t) = None ↔ rt_sink t = None.
Proof.
  unfold fail. destruct (isTerminal t); [done|].
  change (rt_sink (emit (ErrorEvent e) ?x)) with (rt_sink x).
  destruct n; [|apply sink_transition_none]. cbn [notifyRemoteFailure receive_ops].
  unfold rt_notify. destruct (rt_control_up _); apply sink_transition_none.
Qed.

Lemma sink_mark_none r t : rt_sink (markCancelled r t) = None ↔ rt_sink t = None.
Proof.
  unfold markCancelled. destruct (isTerminal t); [done|].
  destruct r; apply sink_transition_none.
Qed.

Lemma INV_fail0 frames written e n t :
  INV0 frames t → isTerminal t = false → INV frames written (fail e n t).
Proof.
  intros HI Et. pose proof (base_fail e n t) as Hb. rewrite Et in Hb. cbn [base receive_ops] in Hb.
  eapply INV_end; [apply core_fail|apply static_fail, HI|by rewrite Hb..|apply sink_fail_none| |done].
  left. unfold state. cbn [base receive_ops]. by rewrite Hb.
Qed.

Lemma INV_fail frames written e n t : INV frames written t → INV frames written (fail e n t).
Proof.
  intros HI. destruct (isTerminal t) eqn:Et; [unfold fail; by rewrite Et|].
  apply INV_fail0; [apply HI|done].
Qed.

Lemma INV_cancelled frames written t :
  INV frames written t → INV frames written (transitionTo Cancelled t).1.
Proof.
  intros HI. destruct (isTerminal t) eqn:Et; [by rewrite transition_terminal|].
  pose proof (transition_forced Cancelled t (or_intror eq_refl) Et) as Hb. cbn [base receive_ops] in Hb.
  eapply INV_end; [apply core_transition|apply static_transition, HI|by rewrite Hb..
    |apply sink_transition_none| |apply HI].
  right. unfold state. cbn [base receive_ops]. by rewrite Hb.
Qed.

Lemma INV_mark frames written r t : INV frames written t → INV frames written (markCancelled r t).
Proof.
  intros HI. destruct (isTerminal t) eqn:Et; [unfold markCancelled; by rewrite Et|].
  pose proof (base_markCancelled r t) as Hb. rewrite Et in Hb. cbn [base receive_ops] in Hb.
  eapply INV_end; [apply core_markCancelled|apply static_mark, HI| | |apply sink_mark_none| |apply HI];
    rewrite ?Hb; try (by destruct r).
  right. unfold state. cbn [base receive_ops]. rewrite Hb. by destruct r.
Qed.

(** A step that moves the state within the live part of the machine, or not at
    all, and leaves the rest. *)
Lemma INV_move frames written t t' :
  core t' = core t → rt_sink t' = rt_sink t → static_ok (rt_base t') →
  tb_transferredChunks (rt_base t') = tb_transferredChunks (rt_base t) →
  tb_transferredBytes (rt_base t') = tb_transferredBytes (rt_base t) →
  state t' = state t
    ∨ (isTerminal t = false ∧ state t' ∈ [Active; Paused; Completing] ∧ rt_opened t = Opened
       ∧ (state t' = Completing → ¬ closing (rt_phase t))) →
  INV frames written t → INV frames written t'.
Proof.
  unfold core. intros Hc Hs Hst Hb1 Hb2 Hstate [[_ [] [] []] [Hlive Hfin]].
  injection Hc as Hr Hd He Hsd Hch Hh Hres Hcp Hop Hph Hin Hck.
  split; [constructor|split].
  - done.
  - constructor; rewrite ?Hr, ?Hb1, ?Hb2, ?Hch; done.
  - constructor; rewrite ?Hck, ?Hin, ?Hph, ?Hcp, ?Hr, ?Hsd, ?He; done.
  - constructor; rewrite ?Hs, ?Hr, ?Hch, ?Hin, ?Hop, ?Hph; try done.
    all: destruct Hstate as [-> | (_ & Hst' & Hop' & _)]; try done.
    + intros E. rewrite E in Hst'. set_solver.
    + intros E. rewrite E in Hst'. set_solver.
  - intros Ht. destruct Hlive as [L1 L2 L3 L5 L4].
    { destruct Hstate as [Heq|[Ht' _]]; [|done]. revert Ht. unfold isTerminal, tb_terminal.
      change (tb_state (base ?x)) with (state x). by rewrite Heq. }
    constructor; rewrite ?Hch, ?Hd, ?Hs, ?Hh; [done| |done|done|].
    + intros k. unfold opened_ok. rewrite Hop, Hph. apply L2.
    + unfold phase_ok in *. rewrite Hph, Hch, Hd. destruct (rt_phase t) eqn:Ep; try done.
      destruct L4 as [? L4]. split; [done|]. intros r' Hr' Hco. apply L4; [done|].
      destruct Hstate as [Heq|(_ & _ & _ & Hnc)]; [congruence|]. by destruct (Hnc Hco).
  - unfold final. rewrite Hph, Hcp, Hres. intros Hco. apply Hfin.
    destruct Hstate as [<-|(_ & Hst' & _)]; [done|]. rewrite Hco in Hst'. set_solver.
Qed.

Lemma INV_transition frames written next t :
  next ∈ [Active; Paused; Completing] → rt_opened t = Opened →
  (next = Completing → ¬ closing (rt_phase t)) →
  INV frames written t → INV frames written (transitionTo next t).1.
Proof.
  intros Hn Hop Hnc HI.
  destruct (transitionTo_base next t) as [[_ ->]|[(_ & _ & ->)|(_ & [Hnt _] & _ & Hb)]]; [done..|].
  cbn [base receive_ops] in Hb.
  assert (Hnx : state (transitionTo next t).1 = next).
  { unfold state at 1. cbn [base receive_ops]. by rewrite Hb. }
  eapply INV_move; [apply core_transition|apply sink_transition; set_solver
    |apply static_transition, HI|by rewrite Hb..| |done].
  right. rewrite Hnx. split_and!; try done.
  destruct (isTerminal t) eqn:E; [|done]. by apply isTerminal_spec in E.
Qed.

Lemma INV_control frames written m t :
  INV frames written t → INV frames written (sendControl m t).1.
Proof.
  intros HI. destruct (sendControl_spec m t) as (Hc & Hb & Hs).
  eapply INV_move; [done|done|rewrite Hb; apply HI|by rewrite Hb..| |done].
  left. unfold state. cbn [base receive_ops]. by rewrite Hb.
Qed.

Lemma INV0_abort frames t : INV0 frames t → INV0 frames (abortSink t).
Proof.
  intros [Hst [] [] []]. pose proof (core_abortSink t) as Hc. unfold core in Hc.
  injection Hc as Hr Hd He Hsd Hch Hh Hres Hcp Hop Hph Hin Hck.
  pose proof (abortSink_base t) as Hb. pose proof (sink_abort_none t) as Hn.
  assert (Hs : state (abortSink t) = state t) by (unfold state; cbn [base receive_ops]; by rewrite Hb).
  constructor.
  - by rewrite Hb.
  - constructor; rewrite ?Hr, ?Hb, ?Hch; done.
  - constructor; rewrite ?Hck, ?Hin, ?Hph, ?Hcp, ?Hr, ?Hsd, ?He; done.
  - constructor; rewrite ?Hr, ?Hch, ?Hin, ?Hop, ?Hs, ?Hph; try done; rewrite Hn; done.
Qed.

Lemma INV_abort frames written t :
  isTerminal t = true → INV frames written t → INV frames written (abortSink t).
Proof.
  intros Ht [HI [_ Hfin]]. split; [by apply INV0_abort|].
  pose proof (core_abortSink t) as Hc. unfold core in Hc.
  injection Hc as Hr Hd He Hsd Hch Hh Hres Hcp Hop Hph Hin Hck.
  unfold isTerminal, final, state in *. cbn [base receive_ops] in *. rewrite abortSink_base.
  split; [congruence|]. by rewrite Hph, Hcp, Hres.
Qed.

(** * Preservation: messages and frames *)

Lemma INV_tryComplete frames written t :
  INV frames written t → INV frames written (tryComplete t).
Proof.
  intros HI. unfold tryComplete.
  destruct (isTerminal t) eqn:Et; [done|]. destruct (no_sink t) eqn:Ens; [done|].
  destruct (rt_senderDone t) eqn:Esd; [|done]. cbn [negb orb].
  destruct (bool_decide_reflect (Z.of_nat (length (rt_received t)) < rt_totalChunks t)) as [|Hlen]; [done|].
  destruct (rt_completing t) eqn:Ec; [done|]. cbn [orb].
  destruct HI as [[Hst [] [] []] [Hlive Hfin]]. destruct (Hlive Et) as [L1 L2 L3 L5 L4].
  assert (rt_phase t = PIdle) as Hph.
  { destruct (rt_phase t) eqn:E; [done|..]; rewrite co_phase0 in Ec; done. }
  split; [constructor; [done|by constructor| |]|split].
  - constructor; try done. cbn. intros _. unfold rt_totalChunks in Hlen.
    rewrite (st_total _ Hst) in Hlen. split; [lia|done].
  - constructor; try done. cbn. intros E. unfold no_sink in Ens. by rewrite E in Ens.
  - intros _. constructor; cbn; try done. intros k Hk Ho _. apply L2; [done..|]. rewrite Hph. by intros [].
  - intros Hco. exfalso. unfold isTerminal, tb_terminal in Et. apply bool_decide_eq_false in Et.
    apply Et. change (tb_state (base t)) with (state t). unfold final in Hfin.
    change (state (s_phase ?p (s_completing ?c t))) with (state t) in Hco. rewrite Hco. set_solver.
Qed.

Lemma INV_sent frames written d t :
  GoodDigest d → INV frames written t →
  INV frames written (s_expected d (s_senderDone true t)).
Proof.
  intros Hd [[Hst [] [] []] [Hlive Hfin]]. split; [constructor; [done|by constructor| |by constructor]|split].
  - constructor; try done. cbn. intros Hc. split; [by apply co_full0|done].
  - intros Ht. destruct (Hlive Ht) as [L1 L2 L3 L5 L4]. by constructor.
  - done.
Qed.

Definition good_control (m : ControlMessage) : Prop :=
  match m with MSent _ d => GoodDigest d | _ => True end.

Lemma INV_handleControl frames written m t :
  good_control m → INV frames written t → INV frames written (handleControl m t).
Proof.
  intros Hm HI. destruct m; try done; cbn in *.
  - by apply INV_tryComplete, INV_sent.
  - by apply INV_mark.
Qed.

Lemma INV_onMessage frames written d t :
  good_message d → INV frames written t → INV frames written (onMessage d t).
Proof.
  intros Hd HI. unfold onMessage. destruct (isTerminal t || no_sink t) eqn:E; [done|].
  apply orb_false_iff in E as [_ Hns]. unfold no_sink in Hns.
  destruct HI as [[Hst [] [] []] [Hlive Hfin]].
  split; [constructor; [done|by constructor|..]|split].
  - constructor; try done. cbn. apply Forall_app. by split; [|constructor].
  - constructor; try done. cbn. intros Hs. by rewrite Hs in Hns.
  - intros Ht. destruct (Hlive Ht) as [L1 L2 L3 L5 L4]. by constructor.
  - done.
Qed.

(** A frame that passes the checks. *)
Lemma INV_onFrame frames written seq p t :
  Good seq p → rt_sink t ≠ None → INV frames written t →
  ∃ frames', INV frames' written (onFrame seq p t).
Proof.
  intros Hg Hsk HI. unfold onFrame.
  destruct (decide (seq < 0 ∨ rt_totalChunks t ≤ seq)); [eexists; by apply INV_fail|].
  destruct (decide (rt_chunkSize t < blen p)); [eexists; by apply INV_fail|].
  destruct (decide (rt_size t < seq * rt_chunkSize t + blen p)); [eexists; by apply INV_fail|].
  destruct (decide (seq ∈ rt_received t)) as [|Hni]; [by eexists|].
  exists (frames ++ [(seq, p)]). apply INV_tryComplete.
  destruct HI as [[[S1 S2 S3 S4] [] [] []] [Hlive Hfin]].
  unfold rt_totalChunks, rt_chunkSize, rt_size in *. rewrite S1, S2, S3 in *.
  assert (Hnf : ¬ (rt_completing t = true)).
  { intros Hc. apply Hni, (full_elem total); [by rewrite fr_received0| |by apply co_full0|lia].
    rewrite fr_received0. apply Forall_fmap. eapply Forall_impl; [exact fr_good0|].
    intros j [(? & _) _]. done. }
  unfold enqueueChunk. destruct (no_sink _) eqn:Ens.
  { unfold no_sink in Ens. cbn in Ens. by destruct (rt_sink t). }
  split; [constructor|split].
  - constructor; try done. unfold lifecycle. cbn. rewrite changes_app. cbn. by rewrite app_nil_r.
  - constructor; cbn.
    + by rewrite fmap_app, fr_received0.
    + rewrite fmap_app. apply NoDup_snoc; [done|]. by rewrite <- fr_received0.
    + apply Forall_app. split; [done|]. constructor; [|done]. split; [|done].
      split; cbn; [lia|]. split; lia.
    + rewrite length_app. cbn [length]. lia.
    + rewrite sum_bytes_app. cbn. lia.
    + intros j [Hj|Hj]%elem_of_app; apply elem_of_app; [left; auto|by right].
  - by constructor.
  - by constructor.
  - intros Ht. destruct (Hlive Ht) as [L1 L2 L3 L5 L4].
    assert (Hph : rt_phase t = PIdle).
    { destruct (rt_phase t) eqn:E; [done|..]; exfalso; by apply Hnf, co_phase0. }
    constructor; cbn.
    + by rewrite L1, app_assoc.
    + intros k Hk Ho Hcl. by apply L2.
    + destruct (rt_digest t); [|done]. destruct L3 as [? ->]. split; [done|]. do 2 f_equal.
      destruct (rt_hashed t) eqn:Eh; [|done].
      by destruct (rt_chain t) eqn:Ech; [destruct (L5 eq_refl)|].
    + intros _. by destruct (rt_chain t).
    + unfold phase_ok. cbn. by rewrite Hph.
  - intros Hco. change (state _) with (state t) in Hco. destruct (Hfin Hco) as (_ & _ & Hc & _). done.
Qed.

Lemma INV_inbox frames written rest t :
  Forall good_message rest → (rt_inbox t = [] → rest = []) →
  INV frames written t → INV frames written (s_inbox rest t).
Proof.
  intros Hg Hr [[Hst [] [] []] [Hlive Hfin]].
  split; [constructor; [done|by constructor|by constructor|]|split].
  - constructor; try done. cbn. intros E. destruct (sk_none0 E) as (? & ? & ?). auto.
  - intros Ht. destruct (Hlive Ht). by constructor.
  - done.
Qed.

Lemma INV_decode frames written t :
  INV frames written t → ∃ frames', INV frames' written (decode_next t).
Proof.
  intros HI. unfold decode_next. destruct (rt_inbox t) as [|d rest] eqn:Ein; [by eexists|].
  pose proof (co_inbox _ (inv_core _ _ (proj1 HI))) as Hgood. rewrite Ein in Hgood.
  apply Forall_cons in Hgood as [Hd Hrest].
  assert (HI' : INV frames written (s_inbox rest t)).
  { apply INV_inbox; [done| |done]. by rewrite Ein. }
  destruct (decode_message d) as [[seq p]|] eqn:Ed; [|eexists; by apply INV_fail].
  eapply INV_onFrame; [by apply Hd| |exact HI']. cbn. intros Hs.
  destruct (sk_none _ (inv_sink _ _ (proj1 HI)) Hs) as (_ & _ & Hi). congruence.
Qed.

(** * Preservation: the write chain *)

(** Popping a job; the live part is re-established by the caller. *)
Lemma INV0_pop frames job rest h t :
  rt_chain t = job :: rest → INV0 frames t → INV0 frames (s_chain rest (s_hashed h t)).
Proof.
  intros Hch [Hst [] [] []]. constructor; [done| |by constructor|].
  - constructor; try done. cbn. intros j Hj. apply fr_chain0. rewrite Hch. by right.
  - constructor; try done. cbn. intros E. destruct (sk_none0 E) as (? & Hc & _). congruence.
Qed.

Lemma INV_ended frames written t t' :
  INV0 frames t' → isTerminal t' = true → state t' = state t → rt_phase t' = rt_phase t →
  rt_completing t' = rt_completing t → rt_result t' = rt_result t →
  final frames written t → INV frames written t'.
Proof.
  intros HI Ht Hs Hp Hc Hr Hf. split; [done|]. split; [by rewrite Ht|].
  unfold final. by rewrite Hs, Hp, Hc, Hr.
Qed.

Lemma final_live frames written t : isTerminal t = false → final frames written t.
Proof.
  intros Ht Hco. exfalso. unfold isTerminal, tb_terminal in Ht. apply bool_decide_eq_false in Ht.
  apply Ht. change (tb_state (base t)) with (state t). rewrite Hco. set_solver.
Qed.

Lemma terminal_fail e n t : isTerminal (fail e n t) = true.
Proof.
  pose proof (base_fail e n t) as Hb. unfold isTerminal. rewrite Hb.
  destruct (isTerminal t) eqn:E; [done|]. by apply bool_decide_eq_true_2; set_solver.
Qed.

Lemma INV_write_begin crypto frames written t :
  INV frames written t → INV frames written (write_begin crypto t).
Proof.
  intros HI. unfold write_begin. destruct (rt_chain t) as [|[seq b] rest] eqn:Ech; [done|].
  destruct (rt_hashed t) eqn:Eh; [done|]. destruct (isTerminal t) eqn:Et.
  { eapply INV_ended; [|done..|apply HI].
    pose proof (INV0_pop frames _ _ false t Ech (proj1 HI)) as H'. by destruct t; cbn in *; subst. }
  destruct HI as [H0' [Hlive Hfin]]. destruct (Hlive Et) as [L1 L2 L3 L5 L4].
  destruct (rt_digest t) as [d|] eqn:Ed; [destruct crypto|].
  - destruct H0' as [Hst [] [] []].
    split; [constructor; [done|by constructor..]|split; [|by apply final_live]].
    intros _. constructor; cbn; try done.
    + rewrite Ech. destruct L3 as [? ->]. split; [done|]. rewrite Eh, Ech. cbn [take].
      by rewrite app_nil_r, updates_app.
    + intros _. by rewrite Ech.
    + unfold phase_ok in *. cbn. destruct (rt_phase t); try done. by destruct L4; rewrite Ech in *.
  - apply INV_abort; [apply terminal_fail|]. apply INV_fail0; [|done].
    pose proof (INV0_pop frames _ _ false t Ech H0') as H'. by destruct t; cbn in *; subst.
  - destruct H0' as [Hst [] [] []].
    split; [constructor; [done|by constructor..]|split; [|by apply final_live]].
    intros _. constructor; cbn; try done.
    + by rewrite Ed.
    + intros _. by rewrite Ech.
Qed.

Context (Hcs : 0 < cs) (Hsize : 0 ≤ size).

Lemma INV_write_end frames written t :
  INV frames written t → ∃ written', INV frames written' (write_end t).
Proof.
  intros HI. unfold write_end. destruct (rt_chain t) as [|[seq b] rest] eqn:Ech; [by eexists|].
  destruct (rt_hashed t) eqn:Eh; cbn [negb]; [|by eexists].
  destruct (rt_sink t) as [k|] eqn:Esk; [|by eexists].
  destruct (sink_write (seq * rt_chunkSize t) b k) as [k' threw] eqn:Ew.
  set (t1 := s_chain rest (s_hashed false (s_sink (Some k') t))).
  assert (HI1 : INV0 frames t1).
  { assert (HI2 : INV0 frames (s_sink (Some k') t)).
    { destruct (proj1 HI) as [Hst [] [] []]. constructor; [done|by constructor..|].
      constructor; try done. cbn. intros Ho. apply sk_offered0 in Ho. congruence. }
    by apply (INV0_pop frames (seq, b) rest false) in HI2. }
  destruct (isTerminal t) eqn:Et.
  { exists written. assert (INV frames written t1) as H1' by (by eapply INV_ended; [..|apply HI]).
    destruct threw; [|done]. apply INV_abort; [apply terminal_fail|by apply INV_fail]. }
  destruct threw.
  { exists written. apply INV_abort; [apply terminal_fail|]. by apply INV_fail0. }
  destruct HI as [[[S1 S2 S3 S4] [] [] []] [Hlive _]]. destruct (Hlive Et) as [L1 L2 L3 L5 L4].
  exists (written ++ [(seq, b)]). split; [done|]. split; [|by apply final_live].
  intros _. constructor; cbn.
  - rewrite L1, Ech. by rewrite <- app_assoc.
  - intros k0 [= <-] Ho Hcl. rewrite write_all_snoc.
    rewrite (L2 k Esk Ho Hcl). cbn [mbind option_bind fst snd].
    assert (Hok : job_ok size cs total (seq, b)).
    { rewrite Forall_forall in fr_good0. apply fr_good0, fr_chain0. rewrite Ech. left. }
    destruct Hok as ((Hs0 & _) & _ & Hin). cbn in Hin, Hs0.
    unfold rt_chunkSize in Ew. rewrite S2 in Ew.
    apply (sink_write_law _ _ _ _) in Ew; [done|nia|].
    assert (Hw : Forall (job_ok size cs total) written ∧ NoDup written.*1).
    { rewrite L1 in fr_good0, fr_nodup0. apply Forall_app in fr_good0 as [Hg _].
      rewrite fmap_app in fr_nodup0. apply NoDup_app in fr_nodup0 as (? & _). split; [|done].
      eapply Forall_impl; [exact Hg|]. by intros ? []. }
    destruct (write_all_spec size cs total written Hcs Hsize) as (c & Hc & Hl & _); [apply Hw..|].
    rewrite (L2 k Esk Ho Hcl) in Hc. injection Hc as ->. lia.
  - destruct (rt_digest t); [|naive_solver]. destruct L3 as [? ->]. split; [done|].
    rewrite Eh, Ech. cbn [take]. by rewrite app_nil_r.
  - done.
  - unfold phase_ok in *. cbn. destruct (rt_phase t); try done; by destruct L4; rewrite Ech in *.
Qed.

(** * Preservation: accepting *)

Lemma s_opened_id t : s_opened (rt_opened t) t = t.
Proof. by destruct t. Qed.

Lemma INV_accept sink frames written t :
  INV frames written t → ∃ written', INV frames written' (accept sink t).1.
Proof.
  intros HI. unfold accept. destruct (decide (state t ≠ Offered)) as [|Hof].
  { exists written. cbn. by apply INV_fail. }
  assert (state t = Offered) as Ho by (by destruct (decide (state t = Offered))). clear Hof.
  set (t2 := s_digest _ (s_sink _ t)). cbn zeta.
  destruct (sink_open _ sink) as [k outcome] eqn:Eop.
  destruct HI as [[[S1 S2 S3 S4] [] [] []] [Hlive Hfin]].
  destruct (sk_none0 (sk_offered0 Ho)) as (Hr & Hch & Hin).
  assert (Hfr : frames = []).
  { rewrite fr_received0 in Hr. by destruct frames. }
  assert (Et : isTerminal t = false).
  { unfold isTerminal, tb_terminal. change (tb_state (base t)) with (state t). by rewrite Ho. }
  destruct (Hlive Et) as [L1 L2 L3 L5 L4].
  assert (Hnop : rt_opened t = NotOpened).
  { destruct (rt_opened t); [done|..]; by destruct sk_opened_some0; [|apply sk_offered0]. }
  assert (Hbase : rt_base (transitionTo Accepted t2).1
    = tb_emit (StateChanged Accepted Offered) (tb_with_state Accepted (rt_base t))).
  { destruct (transitionTo_base Accepted t2) as [[E _]|[(_ & Hno & _)|(_ & _ & _ & Hb)]].
    - change (state t = Accepted) in E. congruence.
    - change (state t2) with (state t) in Hno. rewrite Ho in Hno. destruct Hno. split; set_solver.
    - cbn [base receive_ops] in Hb. rewrite Hb. change (state t2) with (state t). by rewrite Ho. }
  pose proof (core_transition Accepted t2) as Hc. unfold core in Hc.
  set (t3 := (transitionTo Accepted t2).1) in *. cbn in Hc.
  injection Hc as Cr Cd Ce Csd Cch Ch Cres Ccp Cop Cph Cin Cck.
  pose proof (sk_phase0 (sk_offered0 Ho)) as Hph.
  assert (written = []) as -> by (rewrite Hfr, Hch, app_nil_r in L1; done).
  exists []. subst frames.
  assert (Hh : rt_hashed t = false).
  { destruct (rt_hashed t); [|done]. by destruct (L5 eq_refl). }
  assert (Hgen : ∀ o, (o = NotOpened ∨ ∃ b, o = Opening b) → (o = Opening true → sink_contents k = u8new size) →
    INV [] [] (s_opened o (s_sink (Some k) t3))).
  { intros o Hocase Hcont. split; [constructor|split; [|intros Hco]].
    - cbn. rewrite Hbase. constructor; try done. unfold lifecycle. cbn. rewrite changes_app. cbn.
      apply path_snoc; [unfold lifecycle in S4|split; set_solver].
      change (tb_state (rt_base t)) with (state t) in S4. by rewrite Ho in S4.
    - constructor; cbn; rewrite ?Cr, ?Cch, ?Hbase; try done.
    - constructor; cbn; rewrite ?Cck, ?Cin, ?Cph, ?Ccp, ?Cr, ?Csd, ?Ce; done.
    - constructor; try done; unfold state; cbn; rewrite ?Hbase; try done. cbn. set_solver.
    - intros _. constructor; cbn; rewrite ?Cch, ?Hch, ?Ch, ?Hh; try done.
      + intros k0 [= <-] Hop _. cbn. f_equal. symmetry. apply Hcont.
        destruct Hop as [Hop|Hop]; cbn in Hop; [done|]. subst o. by destruct Hocase as [|[]].
      + rewrite Cd. rewrite <- co_checksum0. change (rt_checksum (s_sink (Some sink) t)) with (rt_checksum t).
        destruct (rt_checksum t); [done|by left].
      + unfold phase_ok. cbn. by rewrite Cph, Hph.
    - exfalso. unfold state in Hco. cbn in Hco. by rewrite Hbase in Hco. }
  destruct outcome; cbn [fst].
  - apply Hgen; [eauto|]. intros _. cbn in Hbase. rewrite Hbase in Eop. cbn in Eop.
    rewrite S1 in Eop. by apply sink_open_law in Eop.
  - assert (Ho3 : rt_opened (s_sink (Some k) t3) = NotOpened) by (cbn; by rewrite Cop).
    rewrite <- (s_opened_id (s_sink (Some k) t3)), Ho3. apply Hgen; [by left|done].
  - apply Hgen; [eauto|done].
Qed.

Lemma INV_opened frames written t :
  rt_opened t = Opening true → INV frames written t → INV frames written (s_opened Opened t).
Proof.
  intros Ho [[Hst [] [] []] [Hlive Hfin]]. split; [constructor; [done|by constructor..|]|split].
  - constructor; try done. cbn. intros _. apply sk_opened_some0. by rewrite Ho.
  - intros Ht. destruct (Hlive Ht) as [L1 L2 L3 L5 L4]. constructor; try done.
    intros k Hk _. apply L2; [done|by left].
  - done.
Qed.

Lemma INV_not_opened frames written t :
  rt_opened t = Opening false → INV frames written t → INV frames written (s_opened NotOpened t).
Proof.
  intros Ho [[Hst [] [] []] [Hlive Hfin]]. split; [constructor; [done|by constructor..|]|split].
  - constructor; try done. cbn. intros Hs%sk_opened0. congruence.
  - intros Ht. destruct (Hlive Ht) as [L1 L2 L3 L5 L4]. constructor; try done.
    intros k Hk [Hop|Hop]; done.
  - done.
Qed.

Lemma INV_accept_opened frames written t :
  INV frames written t → INV frames written (accept_opened t).
Proof.
  intros HI. unfold accept_opened. destruct (rt_opened t) as [|[]|] eqn:Eo; [done| | |done].
  - apply (INV_opened _ _ _ Eo) in HI.
    apply (INV_transition frames written Active) in HI; [|set_solver|done|done].
    set (t1 := (transitionTo Active _).1) in *.
    pose proof (INV_control frames written (MAccept (rt_id t1) (Some (rt_received t1))) t1 HI) as HI2.
    destruct (sendControl _ t1) as [t2 []]; [by apply INV_fail|done].
  - apply INV_fail. by apply INV_not_opened.
Qed.

(** Changes that no part of the invariant looks at. *)
Lemma INV_out frames written t t' :
  core t' = core t → rt_sink t' = rt_sink t → rt_base t' = rt_base t →
  INV frames written t → INV frames written t'.
Proof.
  intros Hc Hs Hb HI. eapply INV_move; [done|done|rewrite Hb; apply HI|by rewrite Hb..| |done].
  left. unfold state. cbn [base receive_ops]. by rewrite Hb.
Qed.

Lemma INV_user frames written t :
  INV frames written t →
  (∀ r, INV frames written (reject r t)) ∧ (∀ r, INV frames written (cancel r t))
  ∧ INV frames written (pause t) ∧ INV frames written (resume t)
  ∧ INV frames written (requestResume t) ∧ (∀ c, INV frames written (attachChannel c t))
  ∧ (∀ u, INV frames written (s_control_up u t)).
Proof.
  intros HI. pose proof (sk_opened _ (inv_sink _ _ (proj1 HI))) as Hop.
  split_and!; intros.
  - unfold reject. destruct (decide (state t ≠ Offered)); [done|].
    pose proof (INV_control frames written (MReject (rt_id t) r) t HI) as HI'.
    destruct (sendControl _ t) as [t1 []]; [done|by apply INV_cancelled].
  - unfold cancel. destruct (isTerminal t); [done|].
    pose proof (INV_control frames written (MCancel (rt_id t) r) t HI) as HI'.
    destruct (sendControl _ t) as [t1 []]; [done|by apply INV_mark].
  - unfold pause. destruct (decide (state t = Active)) as [Ha|]; [|done].
    apply INV_control, INV_transition; [set_solver|apply Hop; rewrite Ha; set_solver|done|done].
  - unfold resume. destruct (decide (state t = Paused)) as [Ha|]; [|done].
    apply INV_control, INV_transition; [set_solver|apply Hop; rewrite Ha; set_solver|done|done].
  - unfold requestResume. destruct (_ || _); [done|]. destruct (rt_sink t); [|done].
    by apply INV_control.
  - by apply (INV_out frames written t).
  - by apply (INV_out frames written t).
Qed.

(** * Preservation: completing *)

Lemma INV_done frames written p t :
  p = PDone → rt_completing t = true → rt_sink t ≠ None →
  INV frames written t → INV frames written (s_phase p t).
Proof.
  intros -> Hc Hs [[Hst [] [] []] [Hlive Hfin]].
  split; [constructor; [done|by constructor..]|split].
  - intros Ht. destruct (Hlive Ht) as [L1 L2 L3 L5 L4]. by constructor.
  - intros Hco. destruct (Hfin Hco) as (? & ? & ? & ?). done.
Qed.

Lemma INV_mismatch frames written t :
  rt_completing t = true → rt_sink t ≠ None → INV frames written t → INV frames written (mismatch t).
Proof.
  intros Hc Hs HI. unfold mismatch.
  pose proof (INV_control frames written (MChecksumMismatch (rt_id t)) t HI) as HI'.
  destruct (sendControl_spec (MChecksumMismatch (rt_id t)) t) as (Hcore & Hb & Hsk).
  destruct (sendControl _ t) as [t1 threw]. cbn [fst] in *.
  assert (Hc1 : rt_completing t1 = true) by (unfold core in Hcore; congruence).
  destruct threw; [apply INV_done; [done|done|congruence|done]|].
  pose proof (core_abortSink t1) as Ha. pose proof (core_fail ChecksumMismatchCode false (abortSink t1)) as Hf.
  apply INV_done; [done|unfold core in Hf, Ha; congruence| |].
  - by rewrite sink_fail_none, sink_abort_none, Hsk.
  - destruct (isTerminal t1) eqn:Et.
    + apply INV_fail. by apply INV_abort.
    + apply INV_fail0; [apply INV0_abort, HI'|]. unfold isTerminal in *.
      cbn [base receive_ops] in *. by rewrite abortSink_base.
Qed.

Definition digest_verified written : Prop :=
  checksum = true → ∃ D, GoodDigest (Some D) ∧ finalize (updates written newDigest) = Some D.

Lemma INV_begin_close frames written t :
  rt_phase t ≠ PIdle → ¬ closing (rt_phase t) →
  (isTerminal t = false → rt_chain t = [] ∧ digest_verified written) →
  INV frames written t → INV frames written (begin_close t).
Proof.
  intros Hph Hncl Hdig HI. unfold begin_close.
  pose proof (co_phase _ (inv_core _ _ (proj1 HI)) Hph) as Hcomp.
  destruct (rt_sink t) as [k|] eqn:Esk.
  2: { pose proof (sk_phase _ (inv_sink _ _ (proj1 HI)) Esk). done. }
  assert (HI1 : INV frames written (transitionTo Completing t).1).
  { destruct (transitionTo_base Completing t) as [[_ ->]|[(_ & _ & ->)|(_ & [_ He] & _)]]; [done..|].
    apply INV_transition; [set_solver| |done|done].
    apply (sk_opened _ (inv_sink _ _ (proj1 HI))).
    destruct He as [|[|He]]; [done..|]. destruct (state t); cbn in He; set_solver. }
  assert (Hdig1 : isTerminal (transitionTo Completing t).1 = false →
    rt_chain t = [] ∧ digest_verified written).
  { intros Ht. apply Hdig. destruct (isTerminal t) eqn:E; [|done].
    by rewrite transition_terminal, E in Ht. }
  pose proof (core_transition Completing t) as Hc. unfold core in Hc.
  assert (Hsk1 : rt_sink (transitionTo Completing t).1 = Some k).
  { rewrite sink_transition; [done|set_solver]. }
  set (t1 := (transitionTo Completing t).1) in *. clear HI Hdig.
  assert (Hcht : rt_chain t1 = rt_chain t) by congruence. rewrite <- Hcht in Hdig1. clear Hcht.
  assert (Hcomp1 : rt_completing t1 = true) by congruence.
  assert (Hncl1 : ¬ closing (rt_phase t1)) by (replace (rt_phase t1) with (rt_phase t) by congruence; done).
  clearbody t1. destruct (sink_close k) as [k' r] eqn:Ecl.
  destruct HI1 as [[Hst [] [] []] [Hlive Hfin]]. split; [constructor; [done|by constructor..|]|split].
  - constructor; try done; cbn; try (intros; congruence).
    intros Ho%sk_offered0. congruence.
  - intros Ht. destruct (Hlive Ht) as [L1 L2 L3 L5 L4]. constructor; try done.
    + cbn. destruct (rt_digest t1); [done|]. destruct L3 as [|]; [by left|congruence].
    + unfold phase_ok. cbn. split; [by apply Hdig1|]. intros r' -> Hco. split; [|by apply Hdig1].
      exists (sink_contents k). split; [by eapply sink_close_law|].
      apply L2; [done| |done]. right. apply sk_opened0.
      change (state _) with (state t1) in Hco. rewrite Hco. set_solver.
  - intros Hco. change (state _) with (state t1) in Hco. exfalso. apply Hncl1.
    destruct (Hfin Hco) as (_ & -> & _). done.
Qed.

Lemma INV_verify frames written t : INV frames written t → INV frames written (verify t).
Proof.
  intros HI. unfold verify. destruct (rt_phase t) eqn:Ep; try done.
  destruct (rt_chain t) eqn:Ech; [|done].
  assert (Hc : rt_completing t = true) by (apply (co_phase _ (inv_core _ _ (proj1 HI))); by rewrite Ep).
  assert (Hs : rt_sink t ≠ None).
  { intros E. pose proof (sk_phase _ (inv_sink _ _ (proj1 HI)) E). congruence. }
  destruct (isTerminal t) eqn:Et; [by apply INV_done|].
  destruct (proj1 (proj2 HI) Et) as [L1 L2 L3 L5 L4].
  destruct (rt_digest t) as [d|] eqn:Ed.
  - destruct (rt_expected t) eqn:Ee; [|by apply INV_mismatch].
    destruct HI as [[Hst [] [] []] [Hlive Hfin]]. split; [constructor; [done|by constructor..]|split].
    + intros _. constructor; try done.
      * intros k0 Hk Ho _. apply L2; [done..|]. rewrite Ep. by intros [].
      * cbn. by rewrite Ed.
      * unfold phase_ok. cbn. split; [done|]. by exists d.
    + by apply final_live.
  - apply INV_begin_close; [by rewrite Ep|rewrite Ep; by intros []| |done].
    intros _. split; [done|]. intros Hck. destruct L3 as [|]; [congruence|done].
Qed.

Lemma INV_verify_digest frames written t :
  INV frames written t → INV frames written (verify_digest t).
Proof.
  intros HI. unfold verify_digest. destruct (rt_phase t) as [| |[local|]| |] eqn:Ep; try done.
  all: assert (Hc : rt_completing t = true) by (apply (co_phase _ (inv_core _ _ (proj1 HI))); by rewrite Ep).
  all: assert (Hs : rt_sink t ≠ None)
    by (intros E; pose proof (sk_phase _ (inv_sink _ _ (proj1 HI)) E); congruence).
  - destruct (decide (Some local ≠ rt_expected t)) as [|Heq]; [by apply INV_mismatch|].
    assert (rt_expected t = Some local) as Hex.
    { destruct (decide (rt_expected t = Some local)); [done|]. destruct Heq. congruence. }
    apply INV_begin_close; [by rewrite Ep|rewrite Ep; by intros []| |done]. intros Et.
    destruct (proj1 (proj2 HI) Et) as [L1 L2 L3 L5 L4]. unfold phase_ok in L4. rewrite Ep in L4.
    destruct L4 as (Hch & d & Hd & Hl). rewrite Hd in L3. destruct L3 as [Hck Hdg].
    split; [done|]. intros _. exists local. split.
    + rewrite <- Hex. apply (co_expected _ (inv_core _ _ (proj1 HI))).
      by apply (co_full _ (inv_core _ _ (proj1 HI))).
    + rewrite Hl, Hdg, Hch, take_nil, app_nil_r. done.
  - by apply INV_done.
Qed.

(** The transition that completes the transfer. *)
Lemma INV_completed frames written t2 t3 r :
  core (emit CompleteEvent t3) = core t2 → static_ok (rt_base t3) →
  tb_transferredChunks (rt_base t3) = tb_transferredChunks (rt_base t2) →
  tb_transferredBytes (rt_base t3) = tb_transferredBytes (rt_base t2) →
  state t3 = Completed → rt_sink t2 ≠ None → rt_sink t3 = rt_sink t2 →
  rt_phase t2 = PDone → rt_completing t2 = true → rt_result t2 = Some r →
  frames = written ∧ result_ok written r → rt_opened t2 = Opened →
  INV0 frames t2 → INV frames written (emit CompleteEvent t3).
Proof.
  unfold core. intros Hcore [S1 S2 S3 S4] Hb1 Hb2 Hst Hsk Hsk3 Hp Hc Hr [Hfw Hres] Hop [_ [] [] []].
  injection Hcore as Cr Cd Ce Csd Cch Ch Cres Ccp Cop Cph Cin Cck.
  split; [constructor|split].
  - constructor; try done. apply lifecycle_emit; done.
  - constructor; cbn; rewrite ?Cr, ?Cch, ?Hb1, ?Hb2; done.
  - constructor; cbn; rewrite ?Cck, ?Cin, ?Cph, ?Ccp, ?Cr, ?Csd, ?Ce; done.
  - assert (Hst' : state (emit CompleteEvent t3) = Completed) by done.
    constructor; rewrite ?Hst'; cbn; rewrite ?Hsk3, ?Cr, ?Cch, ?Cin, ?Cph, ?Cop; try done.
  - unfold isTerminal, tb_terminal. change (tb_state (base (emit CompleteEvent t3))) with (state t3).
    rewrite Hst. done.
  - intros _. cbn. rewrite Cph, Ccp, Cres. split; [done|]. split; [done|]. split; [done|]. by exists r.
Qed.

Lemma INV_close_done frames written t :
  INV frames written t → INV frames written (close_done t).
Proof.
  intros HI. unfold close_done. destruct (rt_phase t) as [| | |[r|]|] eqn:Ep; try done.
  all: assert (Hc : rt_completing t = true) by (apply (co_phase _ (inv_core _ _ (proj1 HI))); by rewrite Ep).
  all: assert (Hs : rt_sink t ≠ None)
    by (intros E; pose proof (sk_phase _ (inv_sink _ _ (proj1 HI)) E); congruence).
  2: { apply INV_done; [done| | |by apply INV_fail].
       - pose proof (core_fail SinkWriteFailed true t) as Hf. unfold core in Hf. congruence.
       - by rewrite sink_fail_none. }
  set (t1 := s_phase PDone (s_sinkFinalized true (s_result (Some r) t))).
  assert (Hnco : state t ≠ Completed).
  { intros Hco. destruct (proj2 (proj2 HI) Hco) as (_ & E & _). congruence. }
  assert (HI1 : INV frames written t1).
  { destruct HI as [[Hst [] [] []] [Hlive Hfin]]. split; [constructor; [done|by constructor..]|split].
    - intros Ht. destruct (Hlive Ht) as [L1 L2 L3 L5 L4]. by constructor.
    - intros Hco. change (state t1) with (state t) in Hco. done. }
  pose proof (INV_control frames written (MComplete (rt_id t1)) t1 HI1) as HI2.
  destruct (sendControl_spec (MComplete (rt_id t1)) t1) as (Hcore & Hb & Hsk).
  destruct (sendControl _ t1) as [t2 threw]. cbn [fst] in *. destruct threw; [done|].
  assert (Hst2 : state t2 = state t) by (unfold state; cbn [base receive_ops]; by rewrite Hb).
  pose proof (core_transition Completed t2) as Hcore3. pose proof (sink_completed t2) as Hsk3.
  pose proof (static_transition Completed t2 (inv_static _ _ (proj1 HI2))) as Hstat.
  destruct (transitionTo_base Completed t2) as [[E _]|[(_ & _ & ->)|(_ & [Hnt He] & Hm & Hb3)]];
    [congruence|done|].
  destruct (transitionTo Completed t2) as [t3 moved]. cbn [fst snd] in *. subst moved.
  cbn [base receive_ops] in Hb3.
  assert (Hcompleting : state t = Completing).
  { rewrite Hst2 in He. destruct He as [|[|He]]; [done..|]. destruct (state t); cbn in He; set_solver. }
  unfold core in Hcore. cbn in Hcore.
  injection Hcore as Dr Dd De Dsd Dch Dh Dres Dcp Dop Dph Din Dck.
  apply INV_completed with t2 r; try done; try congruence; try (by rewrite Hb3).
  - unfold state at 1. cbn [base receive_ops]. by rewrite Hb3.
  - by rewrite Hsk.
  - assert (Ht : isTerminal t = false).
    { destruct (isTerminal t) eqn:E; [|done]. apply isTerminal_spec in E. rewrite Hcompleting in E. set_solver. }
    destruct (proj1 (proj2 HI) Ht) as [L1 _ _ _ L4]. unfold phase_ok in L4. rewrite Ep in L4.
    destruct L4 as [Hch L4]. split; [by rewrite L1, Hch, app_nil_r|]. by apply L4.
  - rewrite Dop. apply (sk_opened _ (inv_sink _ _ (proj1 HI))). rewrite Hcompleting. set_solver.
  - apply HI2.
Qed.




(** * Every run *)

Definition good_action (a : rt_action K) : Prop :=
  match a with
  | AMessage d => good_message d
  | AControl m => good_control m
  | _ => True
  end.

Definition inv t : Prop := ∃ frames written, INV frames written t.

Lemma inv_step a t : good_action a → inv t → inv (rt_step t a).
Proof.
  intros Ha (frames & written & HI).
  destruct (INV_user _ _ _ HI) as (U1 & U2 & U3 & U4 & U5 & U6 & U7).
  destruct a; cbn in Ha |- *; try (by exists frames, written).
  - destruct (INV_accept sink _ _ _ HI) as [w' HI']. by exists frames, w'.
  - exists frames, written. by apply INV_accept_opened.
  - exists frames, written. by apply INV_onMessage.
  - destruct (INV_decode _ _ _ HI) as [f' HI']. by exists f', written.
  - exists frames, written. by apply INV_write_begin.
  - destruct (INV_write_end _ _ _ HI) as [w' HI']. by exists frames, w'.
  - exists frames, written. by apply INV_verify.
  - exists frames, written. by apply INV_verify_digest.
  - exists frames, written. by apply INV_close_done.
  - exists frames, written. by apply INV_handleControl.
Qed.

Lemma inv_run as_ t : Forall good_action as_ → inv t → inv (rt_run as_ t).
Proof.
  revert t. induction as_ as [|a as_ IH]; intros t Hg Hi; [done|].
  apply Forall_cons in Hg as [Ha Hg]. cbn. apply IH; [done|]. by apply inv_step.
Qed.

Lemma inv_new id peer : inv (newReceive id peer meta cs total checksum).
Proof.
  exists [], []. split; [constructor|split].
  - constructor; try done. unfold lifecycle. cbn. split; [done|]. split; [split; set_solver|done].
  - constructor; try done. cbn. constructor.
  - constructor; try done.
  - constructor; try done. unfold state. cbn. set_solver.
  - intros _. constructor; try done. by right.
  - done.
Qed.
End invariant.

(** * What a receiver guarantees *)

(** The chunks of a file, by sequence number. *)
Definition chunks_of (f : bytes) (cs : Z) : list (Z * bytes) :=
  (λ s, (s, chunk_of f cs s)) <$> seqZ 0 (ceil_div (blen f) cs).

Lemma chunks_of_keys f cs : (chunks_of f cs).*1 = seqZ 0 (ceil_div (blen f) cs).
Proof.
  unfold chunks_of. rewrite <- list_fmap_compose. rewrite <- (list_fmap_id (seqZ _ _)) at 2.
  by apply list_fmap_ext.
Qed.

Section theorems.
Context {K : Type} `{StorageSinkLaws K} `{SubtleCryptoLaws}.
Abbreviation RT := (ReceiveTransfer K).
Implicit Types (t : RT).

(** C5: whatever frames, control messages, sink and crypto failures and user calls
    come in whatever order, a receiver of a consistent offer records every chunk
    at most once and only chunks of the file, reports exactly what it recorded —
    never more chunks or bytes than the file has — and only ever queues writes
    that lie inside the declared size. *)
Theorem receive_safe id peer meta cs checksum as_ :
  0 < cs → 0 ≤ md_size meta →
  let total := ceil_div (md_size meta) cs in
  let t := rt_run as_ (newReceive (K := K) id peer meta cs total checksum) in
  NoDup (rt_received t) ∧ Forall (λ s, 0 ≤ s < total) (rt_received t)
  ∧ tb_transferredChunks (rt_base t) = Z.of_nat (length (rt_received t))
  ∧ tb_transferredChunks (rt_base t) ≤ total
  ∧ 0 ≤ tb_transferredBytes (rt_base t) ≤ md_size meta
  ∧ ∀ s b, (s, b) ∈ rt_chain t → 0 ≤ s * cs ∧ s * cs + blen b ≤ md_size meta.
Proof.
  intros Hcs Hsize total t.
  destruct (inv_run meta cs total checksum (λ _ _, True) (λ _, True) Hcs Hsize as_
    (newReceive id peer meta cs total checksum)) as (frames & written & [_ [] _ _] & _).
  - apply Forall_forall. intros [] _; try done. by destruct m.
  - by apply inv_new.
  - destruct (ceil_div_bounds (md_size meta) cs Hcs Hsize) as (Ht & _).
    assert (Hjobs : Forall (job_ok (md_size meta) cs total) frames).
    { eapply Forall_impl; [exact fr_good0|]. by intros ? []. }
    assert (Hkeys : Forall (λ s, 0 ≤ s < total) frames.*1).
    { apply Forall_fmap. eapply Forall_impl; [exact Hjobs|]. by intros ? []. }
    fold t in fr_received0, fr_chunks0, fr_bytes0, fr_chain0.
    rewrite fr_received0, fr_chunks0, fr_bytes0, length_fmap.
    split; [done|]. split; [done|]. split; [done|]. split; [|split; [split|]].
    + rewrite <- (length_fmap fst). by apply length_le_total.
    + apply sum_bytes_nonneg.
    + by apply (sum_bytes_le (md_size meta) cs total).
    + intros s b Hin%fr_chain0. rewrite Forall_forall in Hjobs.
      destruct (Hjobs _ Hin) as (? & _ & ?). cbn in *. split; [nia|done].
Qed.

(** What is known of a completed transfer. *)
Lemma receive_completed id peer meta cs total checksum Good GoodDigest as_ :
  0 < cs → 0 ≤ md_size meta →
  Forall (good_action Good GoodDigest) as_ →
  let t := rt_run as_ (newReceive (K := K) id peer meta cs total checksum) in
  state t = Completed →
  ∃ written r, rt_result t = Some r ∧ result_ok meta cs checksum GoodDigest written r
    ∧ NoDup written.*1 ∧ Forall (good_frame meta cs total Good) written
    ∧ total ≤ Z.of_nat (length written).
Proof.
  intros Hcs Hsize Hg t Hco.
  destruct (inv_run meta cs total checksum Good GoodDigest Hcs Hsize as_
    (newReceive id peer meta cs total checksum) Hg (inv_new _ _ _ _ _ _ Hcs Hsize id peer))
    as (frames & written & [_ [] [] _] & _ & Hfin).
  destruct (Hfin Hco) as (-> & _ & Hc & r & Hr & Hok). exists written, r.
  split; [done|]. split; [done|]. split; [done|]. split; [done|].
  destruct (co_full0 Hc) as [Hlen _]. by rewrite fr_received0, length_fmap in Hlen.
Qed.

Lemma receive_honest id peer meta cs checksum f as_ :
  0 < cs → md_size meta = blen f →
  let total := ceil_div (blen f) cs in
  (∀ d seq p, AMessage d ∈ as_ → decode_message d = Ok (seq, p) → 0 ≤ seq < total →
     p = chunk_of f cs seq) →
  let t := rt_run as_ (newReceive (K := K) id peer meta cs total checksum) in
  state t = Completed →
  ∃ r, rt_result t = Some r ∧ sr_bytes r = Some f.
Proof.
  intros Hcs Hsize total Hhon t Hco.
  destruct (receive_completed id peer meta cs total checksum
    (λ seq p, 0 ≤ seq < total → p = chunk_of f cs seq) (λ _, True) as_)
    as (written & r & Hr & [(b & Hb & Hw) _] & Hnd & Hg & Hlen); [done| | |done|].
  - rewrite Hsize. apply blen_nonneg.
  - apply Forall_forall. intros [] Ha; try done; [|by destruct m]. cbn.
    intros seq p Hd Hs. by eapply Hhon.
  - exists r. split; [done|]. rewrite Hb, <- Hw, Hsize. apply reassemble; [done|done| |done].
    eapply Forall_impl; [exact Hg|]. intros j [(Hj & _) Hgj]. split; [done|by apply Hgj].
Qed.

(** C2: when every frame that arrives for a chunk of the file [f] carries that
    chunk — in any order, repeated, on any channel, mixed with any control
    messages and user calls — a transfer that completes has exactly [f] as its
    result. *)
Theorem receive_exact id peer meta cs checksum f as_ :
  0 < cs → md_size meta = blen f →
  let total := ceil_div (blen f) cs in
  (∀ d seq p, AMessage d ∈ as_ → decode_message d = Ok (seq, p) → 0 ≤ seq < total →
     p = chunk_of f cs seq) →
  let t := rt_run as_ (newReceive (K := K) id peer meta cs total checksum) in
  state t = Completed →
  ∃ r, rt_result t = Some r ∧ sr_bytes r = Some f.
Proof. apply receive_honest. Qed.

Lemma full_perm total (l : list Z) :
  NoDup l → Forall (λ x, 0 ≤ x < total) l → total ≤ Z.of_nat (length l) → l ≡ₚ seqZ 0 total.
Proof.
  intros Hnd Hall Hlen. apply NoDup_Permutation; [done|apply NoDup_seqZ|]. intros s.
  rewrite elem_of_seqZ. split.
  - intros Hs. rewrite Forall_forall in Hall. specialize (Hall s Hs). lia.
  - intros Hs. apply (full_elem total); [done..|lia].
Qed.

End theorems.
