(* ===== verification/ReceiveLive.v ===== *)
(** Progress of the receiver: with a sink that works and an honest sender, every
    schedule that delivers each chunk at least once and the [ft-sent] message
    completes the transfer; and the one case in which it does not — completion
    while the transfer is paused. *)

From S2P Require Import Prelude JsMap JsNumber Uint8Array Framing Checksum Sink Transfer Schema Control Reassembly ReceiveTransfer.

(** What the other side does, one turn of the event loop each: a chunk of [f]
    arrives, or the announcement that all were sent. *)
Inductive delivery := DChunk (seq : Z) | DSent.

Section terminal.
Context {K : Type} `{StorageSink K} `{SubtleCrypto}.
Implicit Types (t : ReceiveTransfer K).

Lemma state_emit e t : state (emit e t) = state t.
Proof. done. Qed.

Lemma state_base t t' : rt_base t = rt_base t' → state t = state t'.
Proof. unfold state. cbn [base receive_ops]. by intros ->. Qed.

Lemma terminal_transition next t : isTerminal t = true → state (transitionTo next t).1 = state t.
Proof. intros Ht. by rewrite transition_terminal. Qed.

Lemma terminal_fail_id e n t : isTerminal t = true → fail e n t = t.
Proof. intros Ht. unfold fail. by rewrite Ht. Qed.

Lemma terminal_mark_id r t : isTerminal t = true → markCancelled r t = t.
Proof. intros Ht. unfold markCancelled. by rewrite Ht. Qed.

Lemma state_control m t : state (sendControl m t).1 = state t.
Proof. apply state_base, sendControl_spec. Qed.

Lemma state_abort t : state (abortSink t) = state t.
Proof. apply state_base, abortSink_base. Qed.

Lemma terminal_same t t' : state t' = state t → isTerminal t = true → isTerminal t' = true.
Proof. intros Hs Ht%isTerminal_spec. apply isTerminal_spec. by rewrite Hs. Qed.

Lemma terminal_mismatch t : isTerminal t = true → state (mismatch t) = state t.
Proof.
  intros Ht. unfold mismatch. pose proof (state_control (MChecksumMismatch (rt_id t)) t) as Hs.
  destruct (sendControl _ t) as [t1 []]; cbn [fst] in Hs; [done|].
  change (state (s_phase PDone ?x)) with (state x).
  rewrite terminal_fail_id; [by rewrite state_abort|].
  apply (terminal_same t); [by rewrite state_abort|done].
Qed.

Lemma terminal_begin_close t : isTerminal t = true → state (begin_close t) = state t.
Proof.
  intros Ht. unfold begin_close. destruct (rt_sink t) as [k|]; [|done].
  destruct (sink_close k) as [k' r]. change (state (s_phase ?p (s_sink ?k ?x))) with (state x).
  by apply terminal_transition.
Qed.

Lemma terminal_onFrame seq p t : isTerminal t = true → state (onFrame seq p t) = state t.
Proof.
  intros Ht. unfold onFrame. rewrite !(terminal_fail_id _ _ _ Ht).
  repeat case_decide; try done.
  assert (Htc : ∀ x : ReceiveTransfer K, state (tryComplete x) = state x).
  { intros x. unfold tryComplete. by destruct (_ || _). }
  rewrite Htc. unfold enqueueChunk. by destruct (no_sink _).
Qed.

(** Nothing moves a transfer that is over. *)
Lemma terminal_step a t : isTerminal t = true → state (rt_step t a) = state t.
Proof.
  intros Ht. pose proof (proj1 (isTerminal_spec t) Ht) as Hst.
  assert (Hns : ∀ s, s ∉ TERMINAL → state t ≠ s) by (intros s Hs E; by rewrite E in Hst).
  destruct a; cbn [rt_step]; try done.
  - unfold accept. rewrite decide_True; [by rewrite terminal_fail_id|]. apply Hns. set_solver.
  - unfold accept_opened. destruct (rt_opened t) as [|[]|]; try done.
    + assert (Hs1 : state (transitionTo Active (s_opened Opened t)).1 = state t)
        by (by apply (terminal_transition Active (s_opened Opened t))).
      set (t1 := (transitionTo Active _).1) in *.
      pose proof (state_control (MAccept (rt_id t1) (Some (rt_received t1))) t1) as Hs2.
      destruct (sendControl _ t1) as [t2 []]; cbn [fst] in Hs2; [|congruence].
      rewrite terminal_fail_id; [congruence|]. apply (terminal_same t); [congruence|done].
    + by rewrite terminal_fail_id.
  - unfold reject. rewrite decide_True; [done|]. apply Hns. set_solver.
  - unfold onMessage. by rewrite Ht.
  - unfold decode_next. destruct (rt_inbox t) as [|d rest]; [done|].
    destruct (decode_message d) as [[seq p]|]; [by apply (terminal_onFrame seq p (s_inbox rest t))|].
    by rewrite terminal_fail_id.
  - unfold write_begin. destruct (rt_chain t) as [|[seq b] rest]; [done|].
    destruct (rt_hashed t); [done|]. by rewrite Ht.
  - unfold write_end. destruct (rt_chain t) as [|[seq b] rest]; [done|].
    destruct (negb (rt_hashed t)); [done|]. destruct (rt_sink t) as [k|]; [|done].
    destruct (sink_write _ b k) as [k' []]; [|done]. rewrite state_abort, terminal_fail_id; done.
  - unfold verify. destruct (rt_phase t); try done. destruct (rt_chain t); [|done]. by rewrite Ht.
  - unfold verify_digest. destruct (rt_phase t) as [| |[l|]| |]; try done.
    case_decide; [by apply terminal_mismatch|by apply terminal_begin_close].
  - unfold close_done. destruct (rt_phase t) as [| | |[r|]|]; try done.
    + set (t1 := s_phase PDone _). pose proof (state_control (MComplete (rt_id t1)) t1) as Hs.
      destruct (sendControl _ t1) as [t2 []]; cbn [fst] in Hs; [done|].
      assert (Hs2 : state t2 = state t) by done.
      pose proof (terminal_transition Completed t2 (terminal_same t t2 Hs2 Ht)) as Hs3.
      destruct (transitionTo Completed t2) as [t3 []]; cbn [fst] in Hs3; rewrite ?state_emit; congruence.
    + by rewrite terminal_fail_id.
  - destruct m; try done; cbn.
    + unfold tryComplete. by destruct (_ || _).
    + by rewrite terminal_mark_id.
  - unfold pause. rewrite decide_False; [done|]. apply Hns. set_solver.
  - unfold resume. rewrite decide_False; [done|]. apply Hns. set_solver.
  - unfold cancel. by rewrite Ht.
  - unfold requestResume. by rewrite Ht.
Qed.

Lemma terminal_state as_ t : isTerminal t = true → state (rt_run as_ t) = state t.
Proof.
  revert t. induction as_ as [|a as_ IH]; intros t Ht; [done|].
  change (rt_run (a :: as_) t) with (rt_run as_ (rt_step t a)).
  pose proof (terminal_step a t Ht) as Hs. rewrite IH, Hs; [done|].
  by apply (terminal_same t).
Qed.

Lemma terminal_turn a t : isTerminal t = true → state (turn t a) = state t.
Proof.
  intros Ht. pose proof (terminal_step a t Ht) as Hs. unfold turn. rewrite terminal_state; [done|].
  by apply (terminal_same t).
Qed.

Lemma rt_run_app as_ bs t : rt_run (as_ ++ bs) t = rt_run bs (rt_run as_ t).
Proof. apply fold_left_app. Qed.

Lemma rt_run_cons a as_ t : rt_run (a :: as_) t = rt_run as_ (rt_step t a).
Proof. apply fold_left_cons. Qed.

Lemma turn_run a t : turn t a = rt_run (a :: microtasks) t.
Proof. rewrite rt_run_cons. unfold turn. reflexivity. Qed.

Lemma microtask_message m : AMessage m ∈ (microtasks : list (rt_action K)) → False.
Proof.
  unfold microtasks. intros Hm. repeat (apply elem_of_cons in Hm as [?|Hm]; [done|]).
  by apply not_elem_of_nil in Hm.
Qed.
End terminal.

Section live.
Context `{JsEngine} `{SubtleCryptoLaws}.
Abbreviation RT := (ReceiveTransfer MemorySink).
Context (id peer : jsstr) (meta : FileMetadata) (cs : Z) (checksum : bool) (f : bytes).
Abbreviation total := (ceil_div (blen f) cs).
Context (Hcs : 0 < cs) (Hsize : md_size meta = blen f) (Hfit : blen f ≤ max_byte_length)
  (Htot : total < 4294967296).

(** The digest an honest sender announces. *)
Definition announced : option jsstr :=
  if checksum then finalize (updates (chunks_of f cs) newDigest) else None.

Definition action_of (d : delivery) : rt_action MemorySink :=
  match d with
  | DChunk s => AMessage (MsgBinary (encodeFrame s (chunk_of f cs s)))
  | DSent => AControl (MSent id announced)
  end.

Definition valid_delivery (d : delivery) : Prop :=
  match d with DChunk s => 0 ≤ s < total | DSent => True end.

(** Between two turns of an unfinished transfer nothing is suspended. *)
Definition quiet (recv : list Z) (sent : bool) (t : RT) : Prop :=
  ∃ tb tc ev chans buf mime dig res fin out,
    t = mkReceive (mkTransfer id peer meta cs total Active tb tc ev) checksum recv chans
          (Some (mkMemorySink (Some buf) mime)) dig (if sent then announced else None) sent [] false
          res fin false Opened PIdle [] true out
    ∧ blen buf = blen f
    ∧ (dig = if checksum then Some (updates ((λ s, (s, chunk_of f cs s)) <$> recv) newDigest) else None).

Lemma chunk_fits s : 0 ≤ s < total →
  blen (chunk_of f cs s) ≤ cs ∧ s * cs + blen (chunk_of f cs s) ≤ blen f.
Proof.
  intros Hs. pose proof (blen_nonneg f) as Hf.
  destruct (ceil_div_bounds (blen f) cs Hcs Hf) as (H1' & H2' & H3').
  assert (0 < blen f) by nia.
  unfold chunk_of, chunk_len. rewrite blen_u8slice; nia.
Qed.

(** The last three awaits, once everything is written. *)
Lemma finish b chans k dig exp sd res fin out recv :
  tb_state b = Active →
  match dig with None => True | Some d => ∃ l, finalize d = Some l ∧ exp = Some l end →
  state (rt_run [AVerify; ADigest; AClose]
    (mkReceive b checksum recv chans (Some k) dig exp sd [] false res fin true Opened PWaitChain [] true out
     : RT)) = Completed.
Proof.
  destruct b as [i p m c n st tb tc ev]. cbn [tb_state]. intros -> Hd.
  destruct dig as [d|].
  - destruct Hd as (l & Hl & ->). set (t := mkReceive _ _ _ _ _ _ _ _ _ _ _ _ _ _ _ _ _ _).
    assert (Hv : verify t = s_phase (PWaitDigest (Some l)) t) by (rewrite <- Hl; reflexivity).
    cbn [rt_run fold_left rt_step]. rewrite Hv.
    assert (Hd : verify_digest (s_phase (PWaitDigest (Some l)) t)
      = begin_close (s_phase (PWaitDigest (Some l)) t)).
    { unfold verify_digest. cbn [rt_phase s_phase]. rewrite decide_False; [done|]. by intros []. }
    rewrite Hd. reflexivity.
  - done.
Qed.

(** What a turn does to the chunk that arrives. *)
Lemma turn_chunk recv sent t s :
  0 ≤ s < total → Forall (λ x, 0 ≤ x < total) recv → NoDup recv → quiet recv sent t →
  ((s ∈ recv) ∧ turn t (action_of (DChunk s)) = t)
  ∨ ((s ∉ recv) ∧ ∃ t', turn t (action_of (DChunk s)) =
       rt_run [AVerify; ADigest; AClose]
         (if decide (sent = true ∧ total ≤ Z.of_nat (length (recv ++ [s])))
          then s_phase PWaitChain (s_completing true t') else t')
     ∧ quiet (recv ++ [s]) sent t').
Proof.
  intros Hs Hrecv Hnd (tb & tc & ev & chans & buf & mime & dig & res & fin & out & -> & Hbuf & ->).
  destruct (chunk_fits s Hs) as [Hlen Hin].
  assert (Hdec : decode_message (MsgBinary (encodeFrame s (chunk_of f cs s))) = Ok (s, chunk_of f cs s)).
  { cbn. apply decodeFrame_encode. lia. }
  set (p := chunk_of f cs s) in *.
  set (t := mkReceive _ _ _ _ _ _ _ _ _ _ _ _ _ _ _ _ _ _).
  assert (Hrun : turn t (action_of (DChunk s))
    = rt_run [AWriteBegin true; AWriteEnd; AVerify; ADigest; AClose] (onFrame s p t)).
  { assert (Hd : decode_next (accept_opened (onMessage (MsgBinary (encodeFrame s p)) t)) = onFrame s p t).
    { change (accept_opened (onMessage ?d t)) with (s_inbox [d] t).
      unfold decode_next. cbn [rt_inbox s_inbox]. by rewrite Hdec. }
    unfold turn, microtasks. cbn [rt_run fold_left rt_step action_of]. fold p. by rewrite Hd. }
  rewrite Hrun. unfold onFrame. change (rt_totalChunks t) with total. change (rt_chunkSize t) with cs.
  change (rt_size t) with (md_size meta). rewrite Hsize.
  rewrite decide_False by lia. rewrite decide_False by lia. rewrite decide_False by lia.
  change (rt_received t) with recv.
  destruct (decide (s ∈ recv)) as [Hin'|Hni]; [left; split; [done|]; by destruct checksum|]. right.
  split; [done|].
  (* the state after the chunk is recorded and written *)
  destruct (u8set_some buf p (s * cs)) as (buf' & Hset & Hbuf' & _); [lia|lia|].
  set (t3 := on_base tb_progress (on_base (tb_count (blen p)) (s_received (recv ++ [s]) t))).
  assert (Henq : enqueueChunk s p t3 = s_chain [(s, p)] t3) by reflexivity. rewrite Henq.
  set (done_ := bool_decide (sent = true ∧ total ≤ Z.of_nat (length (recv ++ [s])))).
  assert (Htc : tryComplete (s_chain [(s, p)] t3)
    = if done_ then s_phase PWaitChain (s_completing true (s_chain [(s, p)] t3)) else s_chain [(s, p)] t3).
  { unfold tryComplete, done_. change (isTerminal _) with false. change (no_sink _) with false.
    change (rt_senderDone _) with sent. change (rt_received _) with (recv ++ [s]).
    change (rt_totalChunks _) with total. change (rt_completing _) with false.
    destruct sent; cbn [negb orb]; [|by rewrite bool_decide_eq_false_2 by (by intros [])].
    destruct (bool_decide_reflect (Z.of_nat (length (recv ++ [s])) < total)) as [|Hge]; cbn [orb].
    - rewrite bool_decide_eq_false_2; [done|]. intros []. lia.
    - rewrite bool_decide_eq_true_2; [done|]. split; [done|lia]. }
  assert (Hw : sink_write (s * cs) p (mkMemorySink (Some buf) mime) = (mkMemorySink (Some buf') mime, false)).
  { cbn [sink_write memory_sink]. unfold ms_write. cbn [ms_buffer mbind option_bind].
    rewrite decide_False by lia. cbn [mbind option_bind]. by rewrite Hset. }
  set (dig' := if checksum then Some (updates ((λ s, (s, chunk_of f cs s)) <$> (recv ++ [s])) newDigest) else None).
  set (t' := s_digest dig' (s_sink (Some (mkMemorySink (Some buf') mime)) t3)).
  exists t'. split.
  2: { exists (tb + blen p), (tc + 1), (tb_events (rt_base t3)), chans, buf', mime, dig', res, fin, out.
       split; [reflexivity|]. split; [lia|done]. }
  assert (Hstep : ∀ c ph, write_end (write_begin true (s_phase ph (s_completing c (s_chain [(s, p)] t3))))
    = s_phase ph (s_completing c t')).
  { intros c ph. unfold write_begin. cbn [rt_chain s_phase s_completing s_chain rt_hashed].
    change (isTerminal _) with false. change (rt_hashed t3) with false.
    change (rt_digest _) with (if checksum then Some (updates ((λ s, (s, chunk_of f cs s)) <$> recv) newDigest) else None).
    unfold t', dig'. destruct checksum; cbn iota.
    - unfold write_end. cbn [rt_chain s_digest s_hashed s_phase s_completing s_chain rt_hashed negb rt_sink].
      change (rt_sink t3) with (Some (mkMemorySink (Some buf) mime)). cbn iota.
      change (rt_chunkSize _) with cs. rewrite Hw. rewrite fmap_app, updates_app. reflexivity.
    - unfold write_end. cbn [rt_chain s_digest s_hashed s_phase s_completing s_chain rt_hashed negb rt_sink].
      change (rt_sink t3) with (Some (mkMemorySink (Some buf) mime)). cbn iota.
      change (rt_chunkSize _) with cs. rewrite Hw. reflexivity. }
  rewrite Htc. change [AWriteBegin true; AWriteEnd; AVerify; ADigest; AClose] with
    ([AWriteBegin true; AWriteEnd] ++ [AVerify; ADigest; AClose] : list (rt_action MemorySink)).
  unfold rt_run. rewrite fold_left_app. f_equal. cbn [fold_left rt_step]. unfold done_.
  destruct (decide (sent = true ∧ total ≤ Z.of_nat (length (recv ++ [s])))) as [Hd|Hd].
  - rewrite bool_decide_eq_true_2 by done. apply Hstep.
  - rewrite bool_decide_eq_false_2 by done. apply (Hstep false PIdle).
Qed.

Lemma quiet_idle recv sent t : quiet recv sent t → rt_run [AVerify; ADigest; AClose] t = t.
Proof. by intros (tb & tc & ev & chans & buf & mime & dig & res & fin & out & -> & _). Qed.

(** A full set of received chunks has the announced digest. *)
Lemma full_digest recv :
  NoDup recv → Forall (λ x, 0 ≤ x < total) recv → total ≤ Z.of_nat (length recv) →
  checksum = true →
  ∃ l, finalize (updates ((λ s, (s, chunk_of f cs s)) <$> recv) newDigest) = Some l ∧ announced = Some l.
Proof.
  intros Hnd Hall Hlen Hck. unfold announced. rewrite Hck.
  assert (Hkeys : ((λ s, (s, chunk_of f cs s)) <$> recv).*1 = recv).
  { rewrite <- list_fmap_compose. rewrite <- (list_fmap_id recv) at 2. by apply list_fmap_ext. }
  assert (Hp : recv ≡ₚ seqZ 0 total) by (by apply full_perm).
  rewrite (finalize_perm ((λ s, (s, chunk_of f cs s)) <$> recv) (chunks_of f cs)).
  - rewrite finalize_spec; [eauto|]. rewrite chunks_of_keys. apply NoDup_seqZ.
  - by rewrite Hkeys.
  - unfold chunks_of. by rewrite Hp.
Qed.

(** The last chunk, or the announcement, completes the transfer. *)
Lemma quiet_finish recv t :
  NoDup recv → Forall (λ x, 0 ≤ x < total) recv → total ≤ Z.of_nat (length recv) →
  quiet recv true t →
  state (rt_run [AVerify; ADigest; AClose] (s_phase PWaitChain (s_completing true t))) = Completed.
Proof.
  intros Hnd Hall Hlen (tb & tc & ev & chans & buf & mime & dig & res & fin & out & -> & _ & ->).
  apply finish; [done|]. destruct checksum eqn:Hck; [|done].
  by apply full_digest.
Qed.

(** What a turn does to the announcement. *)
Lemma idle_prefix (x : RT) :
  rt_opened x = Opened → rt_inbox x = [] → rt_chain x = [] →
  rt_run microtasks x = rt_run [AVerify; ADigest; AClose] x.
Proof.
  intros Ho Hi Hc. unfold microtasks, rt_run. cbn [fold_left rt_step].
  assert (accept_opened x = x) as -> by (unfold accept_opened; by rewrite Ho).
  assert (decode_next x = x) as -> by (unfold decode_next; by rewrite Hi).
  assert (write_begin true x = x) as -> by (unfold write_begin; by rewrite Hc).
  assert (write_end x = x) as -> by (unfold write_end; by rewrite Hc).
  done.
Qed.

Section sent.
Context (tb tc : Z) (ev : list TransferEvent) (recv chans : list Z) (k : MemorySink)
  (dig : option Sha256Digest) (res : option SinkResult) (fin : bool) (out : list rt_output).

(** A quiet receiver before and after. *)
Definition quiet_state (exp : option jsstr) (sent : bool) : RT :=
  mkReceive (mkTransfer id peer meta cs total Active tb tc ev) checksum recv chans
    (Some k) dig exp sent [] false res fin false Opened PIdle [] true out.

Lemma turn_sent exp sent :
  turn (quiet_state exp sent) (AControl (MSent id announced))
  = rt_run [AVerify; ADigest; AClose]
      (if decide (total ≤ Z.of_nat (length recv))
       then s_phase PWaitChain (s_completing true (quiet_state announced true))
       else quiet_state announced true).
Proof.
  unfold turn. cbn [rt_step handleControl].
  assert (s_expected announced (s_senderDone true (quiet_state exp sent)) = quiet_state announced true)
    as -> by reflexivity.
  assert (Htc : tryComplete (quiet_state announced true) = if decide (total ≤ Z.of_nat (length recv))
    then s_phase PWaitChain (s_completing true (quiet_state announced true)) else quiet_state announced true).
  { unfold tryComplete.
    assert (isTerminal (quiet_state announced true) = false) as -> by reflexivity.
    cbn [no_sink quiet_state rt_sink rt_senderDone rt_received rt_completing negb orb].
    unfold rt_totalChunks. cbn [rt_base quiet_state tb_totalChunks].
    destruct (bool_decide_reflect (Z.of_nat (length recv) < total)); cbn [orb].
    - by rewrite decide_False by lia.
    - by rewrite decide_True by lia. }
  rewrite Htc. apply idle_prefix; by destruct (decide (total ≤ Z.of_nat (length recv))).
Qed.
End sent.

Definition progress (ds : list delivery) (t : RT) : Prop :=
  state t = Completed
  ∨ ∃ recv sent, quiet recv sent t ∧ NoDup recv ∧ Forall (λ x, 0 ≤ x < total) recv
      ∧ (∀ s, DChunk s ∈ ds → s ∈ recv) ∧ (DSent ∈ ds → sent = true)
      ∧ ¬ (sent = true ∧ total ≤ Z.of_nat (length recv)).

Lemma progress_turn ds t d :
  valid_delivery d → progress ds t → progress (ds ++ [d]) (turn t (action_of d)).
Proof.
  intros Hv [Hco|(recv & sent & Hq & Hnd & Hall & Hch & Hse & Hno)].
  { left. rewrite terminal_turn; [done|]. apply isTerminal_spec. rewrite Hco. by apply (bool_decide_unpack _). }
  destruct d as [s|].
  - destruct (turn_chunk recv sent t s Hv Hall Hnd Hq) as [[Hin ->]|(Hni & t' & -> & Hq')].
    { right. exists recv, sent. split_and!; try done.
      - intros s' [?|[= ->]%list_elem_of_singleton]%elem_of_app; auto.
      - intros [?|?%list_elem_of_singleton]%elem_of_app; auto. done. }
    assert (Hnd' : NoDup (recv ++ [s])) by (by apply NoDup_snoc).
    assert (Hall' : Forall (λ x, 0 ≤ x < total) (recv ++ [s])) by (apply Forall_app; by split; [|constructor]).
    destruct (decide (sent = true ∧ total ≤ Z.of_nat (length (recv ++ [s])))) as [[-> Hfull]|Hn].
    { left. by apply (quiet_finish (recv ++ [s])). }
    right. rewrite (quiet_idle _ _ _ Hq'). exists (recv ++ [s]), sent. split_and!; try done.
    + intros s' [?|[= ->]%list_elem_of_singleton]%elem_of_app; apply elem_of_app; [left; auto|right; left].
    + intros [?|?%list_elem_of_singleton]%elem_of_app; auto. done.
  - destruct Hq as (tb & tc & ev & chans & buf & mime & dig & res & fin & out & -> & Hbuf & Hdig).
    set (t' := mkReceive (mkTransfer id peer meta cs total Active tb tc ev) checksum recv chans
          (Some (mkMemorySink (Some buf) mime)) dig announced true [] false
          res fin false Opened PIdle [] true out).
    assert (Hq' : quiet recv true t').
    { exists tb, tc, ev, chans, buf, mime, dig, res, fin, out. split; [reflexivity|]. by split. }
    change (action_of DSent) with (AControl (K := MemorySink) (MSent id announced)).
    change (mkReceive _ _ _ _ _ _ _ _ _ _ _ _ _ _ _ _ _ _) with
      (quiet_state tb tc ev recv chans (mkMemorySink (Some buf) mime) dig res fin out (if sent then announced else None) sent).
    rewrite turn_sent. change (quiet_state _ _ _ _ _ _ _ _ _ _ announced true) with t'.
    destruct (decide (total ≤ Z.of_nat (length recv))) as [Hfull|Hn].
    { left. by apply (quiet_finish recv). }
    right. rewrite (quiet_idle _ _ _ Hq'). exists recv, true. split_and!; try done.
    + intros s' [?|?%list_elem_of_singleton]%elem_of_app; auto. done.
    + by intros [].
Qed.

(** One delivery, and what it makes ready. *)
Definition deliver (t : RT) (d : delivery) : RT := turn t (action_of d).
#[local] Strategy expand [deliver].

Lemma deliver_turn t d : deliver t d = turn t (action_of d).
Proof. exact eq_refl. Qed.

Lemma progress_deliver ds t d :
  valid_delivery d → progress ds t → progress (ds ++ [d]) (deliver t d).
Proof. exact (progress_turn ds t d). Qed.

Lemma progress_turns ds ds' t :
  Forall valid_delivery ds' → progress ds t →
  progress (ds ++ ds') (fold_left deliver ds' t).
Proof.
  revert ds t. induction ds' as [|d ds' IH]; intros ds t Hv Hp; [by rewrite app_nil_r|].
  rewrite fold_left_cons.
  apply Forall_cons in Hv as [Hd Hv].
  replace (ds ++ d :: ds') with ((ds ++ [d]) ++ ds') by (by rewrite <- app_assoc).
  apply IH; [done|]. by apply progress_deliver.
Qed.

Definition started : RT :=
  turn (newReceive id peer meta cs total checksum) (AAccept newMemorySink).

(** The receiver while its sink opens, and once it is open. *)
Definition opening (ms : MemorySink) : RT :=
  mkReceive (mkTransfer id peer meta cs total Accepted 0 0
      [StateChanged Offered Idle; StateChanged Accepted Offered])
    checksum [] [] (Some ms) (if checksum then Some newDigest else None) None false [] false None false
    false (Opening true) PIdle [] true [].
Definition opened (ms : MemorySink) : RT :=
  mkReceive (mkTransfer id peer meta cs total Active 0 0
      [StateChanged Offered Idle; StateChanged Accepted Offered; StateChanged Active Accepted])
    checksum [] [] (Some ms) (if checksum then Some newDigest else None) None false [] false None false
    false Opened PIdle [] true [OutControl (MAccept id (Some []))].

Lemma new_receive_eq :
  newReceive (K := MemorySink) id peer meta cs total checksum
  = mkReceive (mkTransfer id peer meta cs total Offered 0 0 [StateChanged Offered Idle]) checksum [] []
      None None None false [] false None false false NotOpened PIdle [] true [].
Proof. reflexivity. Qed.

Lemma accept_opening ms :
  sink_open meta newMemorySink = (ms, OpenOk) →
  (accept newMemorySink (newReceive (K := MemorySink) id peer meta cs total checksum)).1 = opening ms.
Proof.
  intros Hopen. rewrite new_receive_eq. set (t := mkReceive _ _ _ _ _ _ _ _ _ _ _ _ _ _ _ _ _ _).
  unfold accept. change (state t) with Offered. rewrite decide_False by (intros E; by apply E). cbv zeta.
  assert (Htr : (transitionTo Accepted (s_digest (if rt_checksum (s_sink (Some newMemorySink) t)
      then Some newDigest else None) (s_sink (Some newMemorySink) t))).1
    = mkReceive (mkTransfer id peer meta cs total Accepted 0 0
        [StateChanged Offered Idle; StateChanged Accepted Offered])
      checksum [] [] (Some newMemorySink) (if checksum then Some newDigest else None) None false [] false
      None false false NotOpened PIdle [] true []) by reflexivity.
  rewrite Htr. cbn [rt_base tb_metadata]. rewrite Hopen. reflexivity.
Qed.

Lemma opening_opened ms : rt_run microtasks (opening ms) = opened ms.
Proof.
  unfold microtasks. rewrite rt_run_cons. cbn [rt_step].
  assert (accept_opened (opening ms) = opened ms) as -> by reflexivity.
  reflexivity.
Qed.

Lemma started_opened ms : sink_open meta newMemorySink = (ms, OpenOk) → started = opened ms.
Proof.
  intros Hopen. unfold started, turn. cbn [rt_step]. by rewrite (accept_opening ms Hopen), opening_opened.
Qed.

Lemma progress_started : progress [] started.
Proof.
  right. exists [], false. split; [|split; [constructor|split; [constructor|split; [|split]]]].
  - set (ms := mkMemorySink (Some (u8new (blen f)))
      (if decide (md_mimeType meta = []) then ms_mime newMemorySink else md_mimeType meta)).
    assert (Hopen : sink_open meta newMemorySink = (ms, OpenOk)).
    { cbn [sink_open memory_sink]. unfold ms_open. rewrite Hsize, u8alloc_some; [done|].
      split; [apply blen_nonneg|done]. }
    assert (Hst : started = opened ms) by (by apply started_opened).
    rewrite Hst. unfold quiet, opened.
    exists 0, 0, [StateChanged Offered Idle; StateChanged Accepted Offered; StateChanged Active Accepted],
      [], (u8new (blen f)), (ms_mime ms), (if checksum then Some newDigest else None), None, false,
      [OutControl (MAccept id (Some []))].
    split; [reflexivity|]. split; [apply blen_u8new, blen_nonneg|done].
  - by intros s ?%not_elem_of_nil.
  - by intros ?%not_elem_of_nil.
  - by intros [].
Qed.

Lemma started_run : started
  = rt_run (AAccept newMemorySink :: microtasks) (newReceive id peer meta cs total checksum).
Proof. unfold started. rewrite turn_run. reflexivity. Qed.

(** The turns are a run of the receiver. *)
Lemma turns_run ds t :
  ∃ as_, fold_left deliver ds t = rt_run as_ t
    ∧ ∀ m, AMessage m ∈ as_ → ∃ s, DChunk s ∈ ds ∧ m = MsgBinary (encodeFrame s (chunk_of f cs s)).
Proof.
  revert t. induction ds as [|d ds IH]; intros t.
  { exists []. split; [done|]. by intros m ?%not_elem_of_nil. }
  destruct (IH (deliver t d)) as (as_ & Heq & Has). rewrite fold_left_cons, Heq.
  exists ((action_of d :: microtasks) ++ as_). unfold deliver.
  rewrite turn_run, rt_run_app. split; [reflexivity|].
  intros m [Hm|Hm]%elem_of_app.
  - apply elem_of_cons in Hm as [Hm|Hm]; [|by apply microtask_message in Hm].
    destruct d as [s|]; [|done]. exists s. split; [left|]. by injection Hm.
  - destruct (Has m Hm) as (s & ? & ?). exists s. split; [by right|done].
Qed.

Lemma all_delivered ds t :
  progress ds t → (∀ s, 0 ≤ s < total → DChunk s ∈ ds) → DSent ∈ ds → state t = Completed.
Proof.
  intros [Hco|(recv & sent & _ & Hnd & Hr & Hch & Hse & Hno)] Hall Hsent; [done|].
  exfalso. apply Hno. split; [by apply Hse|].
  assert (Hsub : seqZ 0 total ⊆+ recv).
  { apply NoDup_submseteq; [apply NoDup_seqZ|]. intros s Hs%elem_of_seqZ. apply Hch, Hall. lia. }
  apply submseteq_length in Hsub. rewrite length_seqZ in Hsub. lia.
Qed.

(** The run behind the turns, and its frames. *)
Lemma deliveries_run ds :
  Forall valid_delivery ds →
  ∃ as_, fold_left deliver ds started = rt_run as_ (newReceive id peer meta cs total checksum)
    ∧ ∀ d seq p, AMessage d ∈ as_ → decode_message d = Ok (seq, p) → 0 ≤ seq < total →
        p = chunk_of f cs seq.
Proof.
  intros Hv. destruct (turns_run ds started) as (as_ & Heq & Has).
  exists ((AAccept newMemorySink :: microtasks) ++ as_). split.
  { rewrite Heq, started_run, rt_run_app. reflexivity. }
  intros d seq p [[Hd|Hd]%elem_of_cons|Hd]%elem_of_app Hdec Hseq; [done| |].
  - by apply microtask_message in Hd.
  - destruct (Has d Hd) as (s & Hs & ->). cbn [decode_message] in Hdec. rewrite Forall_forall in Hv.
    specialize (Hv _ Hs). cbn [valid_delivery] in Hv. rewrite decodeFrame_encode in Hdec by lia.
    by injection Hdec as <- <-.
Qed.
End live.

Lemma deliveries_complete `{JsEngine} `{SubtleCryptoLaws} id peer meta cs checksum f ds :
  0 < cs → md_size meta = blen f → blen f ≤ max_byte_length →
  let total := ceil_div (blen f) cs in
  total < 4294967296 →
  Forall (valid_delivery cs f) ds → (∀ s, 0 ≤ s < total → DChunk s ∈ ds) → DSent ∈ ds →
  let t := fold_left (deliver id cs checksum f) ds
             (started id peer meta cs checksum f) in
  state t = Completed ∧ ∃ r, rt_result t = Some r ∧ sr_bytes r = Some f.
Proof.
  intros Hcs Hsize Hfit total Htot Hv Hall Hsent t.
  pose proof (progress_started id peer meta cs checksum f Hsize Hfit) as H0'.
  pose proof (progress_turns id peer meta cs checksum f Hcs Hsize Htot [] ds _ Hv H0') as Hp.
  pose proof (all_delivered id peer meta cs checksum f ([] ++ ds) _ Hp Hall Hsent) as Hco.
  split; [exact Hco|].
  destruct (deliveries_run id peer meta cs checksum f Htot ds Hv) as (as_ & Heq & Has).
  unfold t. rewrite Heq in Hco |- *.
  exact (receive_honest id peer meta cs checksum f as_ Hcs Hsize Has Hco).
Qed.


(** * Concrete runs *)

Module Sample.
Import TestDigest TestEngine.

Definition file : bytes := [1; 2; 3; 4; 5].
Definition meta : FileMetadata := mkMeta (js "f") (js "text/plain") 5.
Definition fresh (checksum : bool) : ReceiveTransfer MemorySink :=
  newReceive (js "t") (js "p") meta 2 3 checksum.

Definition frame (s : Z) : rt_action MemorySink := AMessage (MsgBinary (encodeFrame s (chunk_of file 2 s))).
Definition digest : option jsstr := finalize (updates (chunks_of file 2) newDigest).

(** Accept, the chunks out of order with one repeated, a write at a time, and the
    announcement. *)
Definition script (announce : option jsstr) : list (rt_action MemorySink) :=
  [AAccept newMemorySink; AOpened; frame 2; frame 0; ADecode; AWriteBegin true; frame 2; ADecode; ADecode;
   AControl (MSent (js "t") announce); AWriteEnd; AWriteBegin true; AWriteEnd;
   frame 1; ADecode; AWriteBegin true; AWriteEnd; AVerify; ADigest; AClose].

(** The same up to the last write, then a pause, then the completion. *)
Definition paused_script : list (rt_action MemorySink) :=
  [AAccept newMemorySink; AOpened; frame 2; ADecode; frame 0; ADecode; frame 1; ADecode;
   AWriteBegin true; AWriteEnd; AWriteBegin true; AWriteEnd; AWriteBegin true; AWriteEnd;
   APause; AControl (MSent (js "t") None); AVerify; ADigest; AClose].
End Sample.

Import TestDigest TestEngine.

Abbreviation sample_run ck :=
  (rt_run (K := MemorySink) (Sample.script (if ck then Sample.digest else None))
     (newReceive (js "t") (js "p") Sample.meta 2 (ceil_div (blen Sample.file) 2) ck)).

Lemma receive_safe_witness :
  0 < 2 ∧ tb_transferredChunks (rt_base (rt_run (Sample.script None)
      (newReceive (K := MemorySink) (js "t") (js "p") Sample.meta 2 (ceil_div (md_size Sample.meta) 2) false)))
    ≤ ceil_div (md_size Sample.meta) 2.
Proof.
  split; [done|].
  destruct (receive_safe (js "t") (js "p") Sample.meta 2 false (Sample.script None) eq_refl
    ltac:(by vm_compute)) as (_ & _ & _ & Hle & _).
  exact Hle.
Defined.

Lemma sample_frames D d seq p :
  AMessage d ∈ Sample.script D → decode_message d = Ok (seq, p) → p = chunk_of Sample.file 2 seq.
Proof.
  intros Hd. assert (Hall : Forall (λ a, match a with AMessage d =>
      match decode_message d with Ok (s, q) => q = chunk_of Sample.file 2 s | Throw _ => True end
      | _ => True end) (Sample.script D)).
  { repeat constructor. }
  rewrite Forall_forall in Hall. specialize (Hall _ Hd). cbn beta iota in Hall. intros E. by rewrite E in Hall.
Qed.

Lemma sample_sent D i d : AControl (MSent i (Some d)) ∈ Sample.script D → D = Some d.
Proof.
  intros Hin. assert (Hall : Forall (λ a, match a with AControl (MSent _ (Some d)) => D = Some d
      | _ => True end) (Sample.script D)) by (destruct D; repeat constructor).
  rewrite Forall_forall in Hall. exact (Hall _ Hin).
Qed.

Lemma receive_exact_witness :
  state (sample_run false) = Completed
  ∧ ∃ r, rt_result (sample_run false) = Some r ∧ sr_bytes r = Some Sample.file.
Proof.
  assert (Hco : state (sample_run false) = Completed) by (by vm_compute).
  split; [exact Hco|].
  pose proof (receive_exact (K := MemorySink) (js "t") (js "p") Sample.meta 2 false Sample.file
    (Sample.script None) eq_refl eq_refl) as HR.
  cbv zeta in HR. apply HR; [|exact Hco].
  intros d seq p Hd Hdec _. exact (sample_frames None d seq p Hd Hdec).
Defined.



(** The completion ran to its end, and the transfer is not [Completed]. *)
Section stuck.
Context {K : Type} `{StorageSink K} `{SubtleCrypto}.
Implicit Types (t : ReceiveTransfer K).

Definition stuck t : Prop :=
  rt_phase t = PDone ∧ rt_completing t = true ∧ state t ≠ Completed.

Lemma stuck_same t t' :
  rt_phase t' = rt_phase t → rt_completing t' = rt_completing t → state t' = state t →
  stuck t → stuck t'.
Proof. by intros Hp Hc Hs (? & ? & ?); unfold stuck; rewrite Hp, Hc, Hs. Qed.

Lemma stuck_core t t' : core t' = core t → (state t ≠ Completed → state t' ≠ Completed) →
  stuck t → stuck t'.
Proof.
  intros Hc Hs (Hp & Hco & Hst). unfold core in Hc. simplify_eq.
  split; [congruence|]. split; [congruence|auto].
Qed.

Lemma stuck_transition next t : next ≠ Completed → stuck t → stuck (transitionTo next t).1.
Proof.
  intros Hn. apply stuck_core; [apply core_transition|].
  destruct (transitionTo_base next t) as [[_ ->]|[(_ & _ & ->)|(_ & _ & _ & E)]]; [done..|].
  intros _. unfold state. by rewrite E.
Qed.

Lemma stuck_fail e n t : stuck t → stuck (fail e n t).
Proof.
  intros Ht. apply (stuck_core _ _ (core_fail e n t)); [|done]. intros Hs. unfold fail.
  destruct (isTerminal t); [done|]. rewrite state_emit.
  destruct n; [rewrite (state_base _ (transitionTo Failed t).1) by
    (cbn [notifyRemoteFailure receive_ops]; unfold rt_notify; by destruct (rt_control_up _))|];
    by apply (stuck_transition Failed t).
Qed.

Lemma stuck_mark r t : stuck t → stuck (markCancelled r t).
Proof.
  intros Ht. apply (stuck_core _ _ (core_markCancelled r t)); [|done]. intros Hs.
  unfold markCancelled. destruct (isTerminal t); [done|].
  destruct r; rewrite ?state_emit; by apply (stuck_transition Cancelled t).
Qed.

Lemma stuck_control m t : stuck t → stuck (sendControl m t).1.
Proof. unfold sendControl. by destruct (rt_control_up t). Qed.

Lemma stuck_abort t : stuck t → stuck (abortSink t).
Proof. apply stuck_core; [apply core_abortSink|]. by rewrite state_abort. Qed.

Lemma stuck_tryComplete t : stuck t → tryComplete t = t.
Proof. intros (_ & Hc & _). unfold tryComplete. by rewrite Hc, orb_true_r. Qed.

Lemma stuck_onFrame seq p t : stuck t → stuck (onFrame seq p t).
Proof.
  intros Ht. unfold onFrame. repeat destruct (decide _); try exact Ht; try (by apply stuck_fail).
  assert (stuck (enqueueChunk seq p (on_base tb_progress (on_base (tb_count (blen p))
            (s_received (rt_received t ++ [seq]) t))))) as Hq
    by (unfold enqueueChunk; destruct (no_sink _); exact Ht).
  cbv zeta. rewrite stuck_tryComplete; exact Hq.
Qed.

Lemma stuck_step a t : stuck t → stuck (rt_step t a).
Proof.
  intros Ht. pose proof Ht as (Hp & Hc & Hs). destruct a; cbn [rt_step].
  - unfold accept. destruct (decide _); [by apply stuck_fail|].
    destruct (sink_open _ _) as [k []]; cbn [fst]; eapply stuck_same;
      try (by apply (stuck_transition Accepted
        (s_digest (if rt_checksum t then Some newDigest else None) (s_sink (Some sink) t))));
      reflexivity.
  - unfold accept_opened. destruct (rt_opened t) as [|[]|]; [done| | |done].
    + pose proof (stuck_control (MAccept (rt_id (transitionTo Active (s_opened Opened t)).1)
        (Some (rt_received (transitionTo Active (s_opened Opened t)).1))) _
        (stuck_transition Active (s_opened Opened t) ltac:(done) Ht)) as Hx.
      destruct (sendControl _ _) as [t2 []]; [by apply stuck_fail|done].
    + by apply stuck_fail.
  - unfold reject. destruct (decide _); [done|].
    pose proof (stuck_control (MReject (rt_id t) reason) t Ht) as Hx.
    destruct (sendControl _ _) as [t2 []]; [done|by apply stuck_transition].
  - done.
  - unfold onMessage. by destruct (isTerminal t || no_sink t).
  - unfold decode_next. destruct (rt_inbox t); [done|].
    destruct (decode_message m) as [[]|]; [by apply stuck_onFrame|by apply stuck_fail].
  - unfold write_begin. destruct (rt_chain t) as [|[] rest]; [done|].
    destruct (rt_hashed t); [done|]. destruct (isTerminal t); [done|].
    destruct (rt_digest t); [|done]. destruct crypto; [done|].
    by apply stuck_abort, stuck_fail.
  - unfold write_end. destruct (rt_chain t) as [|[] rest]; [done|].
    destruct (negb _); [done|]. destruct (rt_sink t); [|done].
    destruct (sink_write _ _ _) as [k' []]; [|done]. by apply stuck_abort, stuck_fail.
  - unfold verify. by rewrite Hp.
  - unfold verify_digest. by rewrite Hp.
  - unfold close_done. by rewrite Hp.
  - destruct m; try done; cbn [handleControl].
    + by rewrite stuck_tryComplete.
    + by apply stuck_mark.
  - unfold pause. destruct (decide _); [|done]. by apply stuck_control, stuck_transition.
  - unfold resume. destruct (decide _); [|done]. by apply stuck_control, stuck_transition.
  - unfold cancel. destruct (isTerminal t); [done|].
    pose proof (stuck_control (MCancel (rt_id t) reason) t Ht) as Hx.
    destruct (sendControl _ _) as [t2 []]; [done|by apply stuck_mark].
  - unfold requestResume. destruct (_ || _); [done|]. destruct (rt_sink t); [|done].
    by apply stuck_control.
  - done.
Qed.

Lemma stuck_run as_ t : stuck t → stuck (rt_run as_ t).
Proof. revert t. induction as_ as [|a as_ IH]; intros t Ht; [done|]. by apply IH, stuck_step. Qed.
End stuck.

(** * What a receiver never changes *)

Section fixed.
Context {K : Type} `{StorageSink K} `{SubtleCrypto}.
Implicit Types (t : ReceiveTransfer K).

Definition fixed_base (b : Transfer) :=
  (tb_id b, tb_peerId b, tb_metadata b, tb_chunkSize b, tb_totalChunks b).
Definition fixed t := (fixed_base (rt_base t), rt_checksum t).

Lemma fixed_core t t' :
  core t' = core t → fixed_base (rt_base t') = fixed_base (rt_base t) → fixed t' = fixed t.
Proof. unfold core, fixed. intros Hc Hb. congruence. Qed.

Lemma fixed_transition next t : fixed (transitionTo next t).1 = fixed t.
Proof.
  apply fixed_core; [apply core_transition|].
  destruct (transitionTo_base next t) as [[_ ->]|[(_ & _ & ->)|(_ & _ & _ & E)]]; [done..|].
  change (fixed_base (base (transitionTo next t).1) = fixed_base (base t)). by rewrite E.
Qed.

Lemma fixed_fail e n t : fixed (fail e n t) = fixed t.
Proof.
  unfold fail. destruct (isTerminal t); [done|].
  change (fixed (emit (ErrorEvent e) ?x)) with (fixed x).
  rewrite <- (fixed_transition Failed t). destruct n; [|done]. cbn [notifyRemoteFailure receive_ops].
  unfold rt_notify. by destruct (rt_control_up _).
Qed.

Lemma fixed_mark r t : fixed (markCancelled r t) = fixed t.
Proof.
  unfold markCancelled. destruct (isTerminal t); [done|].
  rewrite <- (fixed_transition Cancelled t). by destruct r.
Qed.

Lemma fixed_control m t : fixed (sendControl m t).1 = fixed t.
Proof. unfold sendControl. by destruct (rt_control_up t). Qed.

Lemma fixed_abort t : fixed (abortSink t) = fixed t.
Proof. unfold abortSink. destruct (rt_sinkFinalized t); [done|]. by destruct (rt_sink t). Qed.

Lemma fixed_tryComplete t : fixed (tryComplete t) = fixed t.
Proof. unfold tryComplete. by destruct (_ || _). Qed.

Lemma fixed_onFrame seq p t : fixed (onFrame seq p t) = fixed t.
Proof.
  unfold onFrame. repeat destruct (decide _); try done; try apply fixed_fail.
  cbv zeta. rewrite fixed_tryComplete. unfold enqueueChunk. by destruct (no_sink _).
Qed.

Lemma fixed_mismatch t : fixed (mismatch t) = fixed t.
Proof.
  unfold mismatch. pose proof (fixed_control (MChecksumMismatch (rt_id t)) t) as Hc.
  destruct (sendControl _ t) as [t1 []]; [done|].
  change (fixed (s_phase PDone ?x)) with (fixed x). by rewrite fixed_fail, fixed_abort.
Qed.

Lemma fixed_begin_close t : fixed (begin_close t) = fixed t.
Proof.
  unfold begin_close. destruct (rt_sink t); [|done]. cbv zeta. destruct (sink_close _) as [k' r].
  apply (fixed_transition Completing).
Qed.

Lemma fixed_close_done t : fixed (close_done t) = fixed t.
Proof.
  unfold close_done. destruct (rt_phase t) as [| | |[r|]|]; try done; cbv zeta.
  - set (t1 := s_phase PDone _). assert (fixed t1 = fixed t) as H1 by done.
    pose proof (fixed_control (MComplete (rt_id t1)) t1) as H2.
    destruct (sendControl _ t1) as [t2 []]; cbn in H2; [by rewrite H2|].
    pose proof (fixed_transition Completed t2) as H3.
    destruct (transitionTo Completed t2) as [t3 []]; cbn in H3; [|by rewrite H3, H2].
    change (fixed (emit CompleteEvent t3)) with (fixed t3). by rewrite H3, H2.
  - apply (fixed_fail SinkWriteFailed true t).
Qed.

Lemma fixed_accept_opened t : fixed (accept_opened t) = fixed t.
Proof.
  unfold accept_opened. destruct (rt_opened t) as [|[]|]; try done;
    [|apply (fixed_fail SinkWriteFailed true (s_opened NotOpened t))]. cbv zeta.
  set (t1 := (transitionTo Active _).1).
  assert (fixed t1 = fixed t) as H1 by (apply (fixed_transition Active (s_opened Opened t))).
  pose proof (fixed_control (MAccept (rt_id t1) (Some (rt_received t1))) t1) as H2.
  destruct (sendControl _ t1) as [t2 []]; cbn in H2; [rewrite fixed_fail|]; congruence.
Qed.

Lemma fixed_step a t : fixed (rt_step t a) = fixed t.
Proof.
  destruct a; cbn [rt_step]; try done;
    try (first [apply fixed_accept_opened|apply fixed_close_done]).
  - unfold accept. destruct (decide _); [apply fixed_fail|]. cbv zeta.
    pose proof (fixed_transition Accepted
      (s_digest (if rt_checksum t then Some newDigest else None) (s_sink (Some sink) t))) as H1.
    destruct (sink_open _ _) as [k []]; exact H1.
  - unfold reject. destruct (decide _); [done|].
    pose proof (fixed_control (MReject (rt_id t) reason) t) as H1.
    destruct (sendControl _ t) as [t1 []]; cbn in H1; [done|]. by rewrite fixed_transition.
  - unfold onMessage. by destruct (_ || _).
  - unfold decode_next. destruct (rt_inbox t); [done|]. cbv zeta.
    destruct (decode_message m) as [[seq b]|]; [apply (fixed_onFrame seq b (s_inbox l t))|apply (fixed_fail InvalidFrame true (s_inbox l t))].
  - unfold write_begin. destruct (rt_chain t) as [|[] rest]; [done|]. destruct (rt_hashed t); [done|].
    destruct (isTerminal t); [done|]. destruct (rt_digest t); [|done]. destruct crypto; [done|].
    rewrite fixed_abort. apply (fixed_fail SinkWriteFailed true (s_chain rest t)).
  - unfold write_end. destruct (rt_chain t) as [|[] rest]; [done|]. destruct (negb _); [done|].
    destruct (rt_sink t); [|done]. destruct (sink_write _ _ _) as [k' []]; [|done]. cbv zeta.
    by rewrite fixed_abort, fixed_fail.
  - unfold verify. destruct (rt_phase t), (rt_chain t); try done. destruct (isTerminal t); [done|].
    destruct (rt_digest t); [|apply fixed_begin_close]. destruct (rt_expected t); [done|apply fixed_mismatch].
  - unfold verify_digest. destruct (rt_phase t) as [| |[]| |]; try done.
    destruct (decide _); [apply fixed_mismatch|apply fixed_begin_close].
  - destruct m; try done; cbn [handleControl];
      [apply (fixed_tryComplete (s_expected digest (s_senderDone true t)))|apply fixed_mark].
  - unfold pause. destruct (decide _); [|done]. by rewrite fixed_control, fixed_transition.
  - unfold resume. destruct (decide _); [|done]. by rewrite fixed_control, fixed_transition.
  - unfold cancel. destruct (isTerminal t); [done|].
    pose proof (fixed_control (MCancel (rt_id t) reason) t) as H1.
    destruct (sendControl _ t) as [t1 []]; cbn in H1; [done|]. by rewrite fixed_mark.
  - unfold requestResume. destruct (_ || _); [done|]. destruct (rt_sink t); [|done]. apply fixed_control.
Qed.
End fixed.

(** * Two defects *)

(** A receiver that pauses while its completion waits for the last write closes the
    sink, tells the sender the transfer is complete, and stays paused: no further
    action completes it. *)
Theorem paused_completion_stuck as_ :
  let t := rt_run Sample.paused_script (Sample.fresh false) in
  state t = Paused
  ∧ OutControl (MComplete (js "t")) ∈ rt_out t
  ∧ (∃ r, rt_result t = Some r ∧ sr_bytes r = Some Sample.file)
  ∧ state (rt_run as_ t) ≠ Completed.
Proof.
  cbv zeta. split; [by vm_compute|]. split; [|split].
  - assert (last (rt_out (rt_run Sample.paused_script (Sample.fresh false)))
            = Some (OutControl (MComplete (js "t")))) as Hl by (by vm_compute).
    apply last_Some in Hl as [l ->]. set_solver.
  - assert ((r ← rt_result (rt_run Sample.paused_script (Sample.fresh false)); sr_bytes r)
            = Some Sample.file) as Hr by (by vm_compute).
    apply bind_Some in Hr. exact Hr.
  - apply (stuck_run as_). split; [by vm_compute|]. split; [by vm_compute|].
    assert (state (rt_run Sample.paused_script (Sample.fresh false)) = Paused) as -> by (by vm_compute).
    discriminate.
Qed.

(** A sink whose [open] throws at once (a [MemorySink] that cannot allocate) makes
    [accept] throw, and the transfer stays accepted instead of failing. *)
Theorem accept_throws {K} `{StorageSink K} `{SubtleCrypto} (t : ReceiveTransfer K) sink :
  state t = Offered → (sink_open (tb_metadata (rt_base t)) sink).2 = OpenThrows →
  (accept sink t).2 = true ∧ state (accept sink t).1 = Accepted.
Proof.
  intros Ho Hs. unfold accept. rewrite decide_False by (intros Hn; exact (Hn Ho)). cbv zeta.
  set (t2 := s_digest _ _). assert (state t2 = Offered) as Ho2 by exact Ho.
  destruct (transitionTo_base Accepted t2) as [[E _]|[(_ & Hl & _)|(_ & _ & _ & E)]].
  - by rewrite Ho2 in E.
  - destruct Hl. rewrite Ho2. split; [set_solver|right; right; set_solver].
  - assert (tb_metadata (rt_base (transitionTo Accepted t2).1) = tb_metadata (rt_base t)) as ->.
    { exact (f_equal tb_metadata E). }
    destruct (sink_open _ _) as [k o] eqn:Eo. cbn in Hs. subst o. split; [done|].
    exact (f_equal tb_state E).
Qed.

Lemma accept_throws_witness :
  let meta := mkMeta (js "f") (js "text/plain") (2 ^ 40) in
  let t := newReceive (K := MemorySink) (js "t") (js "p") meta 2 3 false in
  (accept newMemorySink t).2 = true ∧ state (accept newMemorySink t).1 = Accepted.
Proof.
  intros meta t. apply (accept_throws t newMemorySink); by vm_compute.
Defined.
