(* ===== verification/SendTransfer.v ===== *)
(** The sending side of a transfer
    (packages/sdk/src/filetransfer/SendTransfer.ts).

    [_run] starts one worker per data channel; the workers of a run, and runs that
    have been superseded, interleave at their [await]s.  A worker is a value that
    says where it is suspended ([wloc]), a run ([Run]) holds its workers, and each
    stretch of code between two awaits is one action; what the stretch learns from
    outside (what the source returns, how much a channel has buffered, whether
    WebCrypto is there) comes with the action. *)

From S2P Require Import Prelude JsMap Uint8Array Framing Checksum Sink Transfer Schema Control Reassembly.

(** [FileSource]; reading may also fail, which an action decides. *)
Record FileSource := mkSource {
  fs_name : jsstr;
  fs_mimeType : jsstr;
  fs_size : Z;
  fs_slice : Z → Z → bytes;
}.

(** The read-only fields, from [SendTransferParams]. *)
Record SendParams := mkSendParams {
  sp_source : FileSource;
  sp_highWaterMark : Z;
  sp_lowWaterMark : Z;
  sp_checksum : bool;
  sp_offerTimeoutMs : Z;
  sp_resumable : bool;
}.

(** What the offer timer's [stillWaiting] tests. *)
Inductive offer_timer := StartTimer | ReofferTimer.

(** Where a worker is suspended: [waitForOpen], [_pauseGate] (released or not),
    [source.slice], [digest.update], [awaitDrain]; or it returned or threw. *)
Inductive wloc :=
| LOpen (w : channel_wait)
| LGate (released : bool)
| LRead
| LHash (b : bytes)
| LDrain (b : bytes) (w : channel_wait)
| LDone
| LThrew.

Record worker := mkWorker { wk_seq : Z; wk_loc : wloc }.

(** Where [_run] is suspended: [Promise.all], [finalize], or nowhere any more. *)
Inductive run_phase := RWorkers | RFinalize | REnd.

(** One call of [_run]; worker [i] streams over [ru_channels !! i]. *)
Record Run := mkRun {
  ru_gen : Z;
  ru_have : list Z;
  ru_digest : option Sha256Digest;
  ru_channels : list Z;
  ru_workers : list worker;
  ru_rejected : option FileTransferErrorCode;
  ru_phase : run_phase;
}.

(** What leaves the transfer.  The number of the run is not sent: it says which
    call of [_run] the frame or the announcement comes from. *)
Inductive st_output :=
| SOControl (m : ControlMessage)
| SOCancelError (code : FileTransferErrorCode)
| SOSent (run : nat) (digest : option jsstr)
| SOFrame (run : nat) (seq channel : Z) (data : bytes)
| SOCloseChannel (channel : Z)
| SOCloseSource.

Record SendTransfer := mkSend {
  st_base : Transfer;
  st_params : SendParams;
  st_channels : list Z;
  st_timer : option offer_timer;
  st_interrupted : bool;
  st_pendingPause : bool;
  st_sentSeqs : list Z;
  st_gen : Z;
  st_runs : list Run;
  st_ready : gmap Z readyState;
  st_control_up : bool;
  st_out : list st_output;
}.

(** Field updates. *)
Definition su_base (x : Transfer) (t : SendTransfer) : SendTransfer :=
  mkSend x (st_params t) (st_channels t) (st_timer t) (st_interrupted t)
    (st_pendingPause t) (st_sentSeqs t) (st_gen t) (st_runs t) (st_ready t)
    (st_control_up t) (st_out t).
Definition su_channels (x : list Z) (t : SendTransfer) : SendTransfer :=
  mkSend (st_base t) (st_params t) x (st_timer t) (st_interrupted t) (st_pendingPause t)
    (st_sentSeqs t) (st_gen t) (st_runs t) (st_ready t) (st_control_up t) (st_out t).
Definition su_timer (x : option offer_timer) (t : SendTransfer) : SendTransfer :=
  mkSend (st_base t) (st_params t) (st_channels t) x (st_interrupted t)
    (st_pendingPause t) (st_sentSeqs t) (st_gen t) (st_runs t) (st_ready t)
    (st_control_up t) (st_out t).
Definition su_interrupted (x : bool) (t : SendTransfer) : SendTransfer :=
  mkSend (st_base t) (st_params t) (st_channels t) (st_timer t) x (st_pendingPause t)
    (st_sentSeqs t) (st_gen t) (st_runs t) (st_ready t) (st_control_up t) (st_out t).
Definition su_pendingPause (x : bool) (t : SendTransfer) : SendTransfer :=
  mkSend (st_base t) (st_params t) (st_channels t) (st_timer t) (st_interrupted t) x
    (st_sentSeqs t) (st_gen t) (st_runs t) (st_ready t) (st_control_up t) (st_out t).
Definition su_sentSeqs (x : list Z) (t : SendTransfer) : SendTransfer :=
  mkSend (st_base t) (st_params t) (st_channels t) (st_timer t) (st_interrupted t)
    (st_pendingPause t) x (st_gen t) (st_runs t) (st_ready t) (st_control_up t)
    (st_out t).
Definition su_gen (x : Z) (t : SendTransfer) : SendTransfer :=
  mkSend (st_base t) (st_params t) (st_channels t) (st_timer t) (st_interrupted t)
    (st_pendingPause t) (st_sentSeqs t) x (st_runs t) (st_ready t) (st_control_up t)
    (st_out t).
Definition su_runs (x : list Run) (t : SendTransfer) : SendTransfer :=
  mkSend (st_base t) (st_params t) (st_channels t) (st_timer t) (st_interrupted t)
    (st_pendingPause t) (st_sentSeqs t) (st_gen t) x (st_ready t) (st_control_up t)
    (st_out t).
Definition su_ready (x : gmap Z readyState) (t : SendTransfer) : SendTransfer :=
  mkSend (st_base t) (st_params t) (st_channels t) (st_timer t) (st_interrupted t)
    (st_pendingPause t) (st_sentSeqs t) (st_gen t) (st_runs t) x (st_control_up t)
    (st_out t).
Definition su_control_up (x : bool) (t : SendTransfer) : SendTransfer :=
  mkSend (st_base t) (st_params t) (st_channels t) (st_timer t) (st_interrupted t)
    (st_pendingPause t) (st_sentSeqs t) (st_gen t) (st_runs t) (st_ready t) x (st_out t).
Definition su_out (x : list st_output) (t : SendTransfer) : SendTransfer :=
  mkSend (st_base t) (st_params t) (st_channels t) (st_timer t) (st_interrupted t)
    (st_pendingPause t) (st_sentSeqs t) (st_gen t) (st_runs t) (st_ready t)
    (st_control_up t) x.

Section send.
Context `{SubtleCrypto}.
Implicit Types (t : SendTransfer).

Definition st_emit_out (o : st_output) t : SendTransfer := su_out (st_out t ++ [o]) t.
Definition st_id t : jsstr := tb_id (st_base t).
Definition st_totalChunks t : Z := tb_totalChunks (st_base t).
Definition st_chunkSize t : Z := tb_chunkSize (st_base t).
Definition st_size t : Z := md_size (tb_metadata (st_base t)).
Definition ready_of (ch : Z) t : readyState := default Connecting (st_ready t !! ch).

Definition clearOfferTimer t : SendTransfer := su_timer None t.

(** Every promise in [_resumeWaiters] is resolved: the workers parked at the
    pause gate. *)
Definition release (w : worker) : worker :=
  match wk_loc w with LGate false => mkWorker (wk_seq w) (LGate true) | _ => w end.
Definition run_workers (f : list worker → list worker) (r : Run) : Run :=
  mkRun (ru_gen r) (ru_have r) (ru_digest r) (ru_channels r) (f (ru_workers r)) (ru_rejected r)
    (ru_phase r).
Definition release_waiters t : SendTransfer :=
  su_runs (run_workers (fmap release) <$> st_runs t) t.

Definition close_channel (ch : Z) t : SendTransfer :=
  st_emit_out (SOCloseChannel ch)
    (su_ready (<[ch := if decide (ready_of ch t = Closed) then Closed else Closing]> (st_ready t)) t).
Definition close_channels (chs : list Z) t : SendTransfer :=
  fold_left (λ t ch, close_channel ch t) chs t.

(** [_onTerminal]. *)
Definition st_onTerminal t : SendTransfer :=
  let t1 := clearOfferTimer t in
  let t2 := su_gen (st_gen t1 + 1) t1 in
  let t3 := release_waiters t2 in
  st_emit_out SOCloseSource (close_channels (st_channels t3) t3).

(** [_notifyRemoteFailure]: when [sendControl] throws, [_safeControl] fails a
    transfer that has failed already. *)
Definition st_notify (e : FileTransferErrorCode) t : SendTransfer :=
  if st_control_up t then st_emit_out (SOCancelError e) t else t.

#[export] Instance send_ops : TransferOps SendTransfer := {
  base := st_base;
  set_base := su_base;
  onTerminal := st_onTerminal;
  notifyRemoteFailure := st_notify;
}.

(** [_safeControl]. *)
Definition safeControl (o : st_output) t : SendTransfer :=
  if st_control_up t then st_emit_out o t else fail ChannelClosed false t.

Definition newSend (id peerId : jsstr) (p : SendParams) (channels : list Z) (chunkSize : Z)
    : SendTransfer :=
  let source := sp_source p in
  let metadata := mkMeta (fs_name source) (fs_mimeType source) (fs_size source) in
  let totalChunks := ceil_div (md_size metadata) chunkSize in
  mkSend (newTransfer id peerId metadata chunkSize totalChunks) p channels None false false [] 0 []
    ∅ true [].

Definition offer_of t : OfferMessage :=
  mkOffer (st_id t) (Some FT_PROTOCOL_VERSION) (md_name (tb_metadata (st_base t)))
    (md_mimeType (tb_metadata (st_base t))) (st_size t) (st_chunkSize t) (st_totalChunks t)
    (Z.of_nat (length (st_channels t))) (sp_checksum (st_params t)).
Definition sendOffer t : SendTransfer := safeControl (SOControl (MOffer (offer_of t))) t.

Definition armOfferTimeout (k : offer_timer) t : SendTransfer :=
  let t1 := clearOfferTimer t in
  if decide (sp_offerTimeoutMs (st_params t1) ≤ 0) then t1 else su_timer (Some k) t1.

Definition still_waiting (k : offer_timer) t : bool :=
  match k with
  | StartTimer => bool_decide (state t = Offered)
  | ReofferTimer => st_interrupted t && negb (isTerminal t)
  end.

(** The timer fires. *)
Definition on_offer_timeout t : SendTransfer :=
  match st_timer t with
  | None => t
  | Some k =>
      let t1 := su_timer None t in
      if still_waiting k t1 then fail TimeoutCode true t1 else t1
  end.

Definition start t : SendTransfer :=
  let '(t1, moved) := transitionTo Offered t in
  if moved : bool then
    let t2 := sendOffer t1 in
    if decide (state t2 = Offered) then armOfferTimeout StartTimer t2 else t2
  else t1.

Definition reoffer (channels : list Z) t : SendTransfer :=
  if isTerminal t || negb (st_interrupted t) then t
  else
    let t1 := close_channels (filter (λ ch, ch ∉ channels) (st_channels t)) t in
    armOfferTimeout ReofferTimer (sendOffer (su_channels channels t1)).

(** [_markCancelled]. *)
Definition st_markCancelled (reason : bool) t : SendTransfer :=
  if isTerminal t then t else markCancelled reason (clearOfferTimer t).

Definition applyPause t : SendTransfer * bool :=
  if decide (state t = Accepted) then (su_pendingPause true t, true)
  else if decide (state t ≠ Active) then (t, false)
  else transitionTo Paused t.

Definition applyResume t : SendTransfer * bool :=
  if decide (state t = Accepted ∧ st_pendingPause t = true) then (su_pendingPause false t, true)
  else if decide (state t ≠ Paused) then (t, false)
  else
    let '(t1, moved) := transitionTo Active t in
    if moved : bool then (release_waiters t1, true) else (t1, false).

(** [_run] up to its first await: the workers of the run have called
    [waitForOpen]. *)
Definition start_run (haveChunks : list Z) (gen : Z) t : SendTransfer :=
  let t1 := if decide (state t = Accepted) then (transitionTo Active t).1 else t in
  if decide (state t1 ≠ Active) then t1
  else
    let t2 := if st_pendingPause t1 then (transitionTo Paused (su_pendingPause false t1)).1 else t1 in
    let digest := if sp_checksum (st_params t2) then Some newDigest else None in
    let workers := imap (λ i ch, mkWorker (Z.of_nat i) (LOpen (waitForOpen (ready_of ch t2))))
                     (st_channels t2) in
    su_runs (st_runs t2 ++ [mkRun gen haveChunks digest (st_channels t2) workers None RWorkers]) t2.

Definition begin (haveChunks : list Z) t : SendTransfer :=
  let t0 := clearOfferTimer t in
  let go t := let gen := st_gen t + 1 in start_run haveChunks gen (su_gen gen t) in
  if decide (state t0 = Offered) then
    let '(t1, moved) := transitionTo Accepted t0 in
    if moved : bool then go t1 else t1
  else if decide (state t0 = Paused ∧ st_interrupted t0 = true) then
    let '(t1, moved) := applyResume (su_interrupted false t0) in
    if moved : bool then go t1 else t1
  else t0.

Definition st_handleControl (m : ControlMessage) t : SendTransfer :=
  let t0 := clearOfferTimer t in
  match m with
  | MAccept _ haveChunks => begin (set_of (default [] haveChunks)) t0
  | MResumeRequest _ haveChunks => begin (set_of haveChunks) t0
  | MReject _ _ => fail OfferRejected false t0
  | MComplete _ =>
      let '(t1, moved) := transitionTo Completed t0 in
      if moved : bool then emit CompleteEvent t1 else t1
  | MChecksumMismatch _ => fail ChecksumMismatchCode false t0
  | MPause _ => (applyPause t0).1
  | MResume _ => (applyResume t0).1
  | MCancel _ reason => st_markCancelled (bool_decide (reason ≠ None)) t0
  | _ => t0
  end.

Definition st_pause t : SendTransfer :=
  let '(t1, done) := applyPause t in
  if done : bool then safeControl (SOControl (MPause (st_id t1))) t1 else t1.

Definition st_resume t : SendTransfer :=
  let '(t1, done) := applyResume t in
  if done : bool then safeControl (SOControl (MResume (st_id t1))) t1 else t1.

Definition st_cancel (reason : option jsstr) t : SendTransfer :=
  if isTerminal t then t
  else
    let t1 := safeControl (SOControl (MCancel (st_id t) reason)) t in
    st_markCancelled (bool_decide (reason ≠ None)) t1.

(** * Workers *)

(** What a continuation meets outside: an exception of [source.slice] (its code),
    WebCrypto, the channel's buffered amount, and whether [channel.send] works. *)
Record env := mkEnv {
  e_read : option FileTransferErrorCode;
  e_crypto : bool;
  e_buffered : Z;
  e_send_ok : bool;
}.

Definition set_worker (k i : nat) (w : worker) t : SendTransfer :=
  su_runs (alter (run_workers <[i := w]>) k (st_runs t)) t.

(** A worker throws: [Promise.all] takes the first exception. *)
Definition worker_throw (k i : nat) (w : worker) (e : FileTransferErrorCode) t : SendTransfer :=
  su_runs (alter (λ r, mkRun (ru_gen r) (ru_have r) (ru_digest r) (ru_channels r)
                         (<[i := mkWorker (wk_seq w) LThrew]> (ru_workers r))
                         (match ru_rejected r with None => Some e | some => some end) (ru_phase r))
             k (st_runs t)) t.

Definition set_digest (k : nat) (d : Sha256Digest) t : SendTransfer :=
  su_runs (alter (λ r, mkRun (ru_gen r) (ru_have r) (Some d) (ru_channels r) (ru_workers r)
                         (ru_rejected r) (ru_phase r)) k (st_runs t)) t.

(** [this.isTerminal || gen !== this._gen]. *)
Definition dead (r : Run) t : bool := isTerminal t || negb (bool_decide (ru_gen r = st_gen t)).

(** From the head of the loop to the await of the pause gate. *)
Definition loop_head (r : Run) (seq : Z) t : worker :=
  if decide (st_totalChunks t ≤ seq) then mkWorker seq LDone
  else if dead r t then mkWorker seq LDone
  else mkWorker seq (LGate (bool_decide (state t ≠ Paused))).

Definition next_seq (r : Run) (seq : Z) : Z := seq + Z.of_nat (length (ru_channels r)).

(** The chunk a worker reads. *)
Definition chunk_length (seq : Z) t : Z :=
  let offset := seq * st_chunkSize t in Z.min (st_chunkSize t) (st_size t - offset).
Definition read_chunk (seq : Z) t : bytes :=
  fs_slice (sp_source (st_params t)) (seq * st_chunkSize t) (chunk_length seq t).

(** Each unique chunk is counted once. *)
Definition count_sent (seq : Z) t : SendTransfer :=
  if decide (seq ∈ st_sentSeqs t) then t
  else on_base (tb_count (chunk_length seq t)) (su_sentSeqs (st_sentSeqs t ++ [seq]) t).

(** After [awaitDrain]. *)
Definition send_chunk (ev : env) (k i : nat) (r : Run) (ch seq : Z) (b : bytes) t : SendTransfer :=
  let w := mkWorker seq LDone in
  if dead r t then set_worker k i w t
  else if decide (ready_of ch t ≠ Open) then worker_throw k i w ChannelClosed t
  else if negb (e_send_ok ev) then worker_throw k i w SourceReadFailed t
  else
    let t1 := st_emit_out (SOFrame k seq ch (encodeFrame seq b)) t in
    let t2 := on_base tb_progress (count_sent seq t1) in
    set_worker k i (loop_head r (next_seq r seq) t2) t2.

Definition to_drain (ev : env) (ch seq : Z) (b : bytes) t : worker :=
  mkWorker seq (LDrain b (awaitDrain (ready_of ch t) (e_buffered ev)
    (sp_highWaterMark (st_params t)))).

(** One continuation of worker [i] of run [k]. *)
Definition worker_step (ev : env) (k i : nat) t : SendTransfer :=
  match st_runs t !! k with
  | None => t
  | Some r =>
      match ru_workers r !! i, ru_channels r !! i with
      | Some w, Some ch =>
          let seq := wk_seq w in
          let need := negb (bool_decide (seq ∈ ru_have r)) in
          match wk_loc w with
          | LOpen WResolved => set_worker k i (loop_head r seq t) t
          | LOpen (WRejected e) => worker_throw k i w e t
          | LGate true =>
              if dead r t then set_worker k i (mkWorker seq LDone) t
              else match need, ru_digest r with
                   | false, None => set_worker k i (loop_head r (next_seq r seq) t) t
                   | _, _ => set_worker k i (mkWorker seq LRead) t
                   end
          | LRead =>
              match e_read ev with
              | Some e => worker_throw k i w e t
              | None =>
                  let b := read_chunk seq t in
                  match ru_digest r with
                  | Some _ =>
                      if e_crypto ev then set_worker k i (mkWorker seq (LHash b)) t
                      else worker_throw k i w InvalidState t
                  | None => set_worker k i (to_drain ev ch seq b t) t
                  end
              end
          | LHash b =>
              match ru_digest r with
              | None => t
              | Some d =>
                  let t1 := set_digest k (update seq b d) t in
                  if need then set_worker k i (to_drain ev ch seq b t1) t1
                  else set_worker k i (loop_head r (next_seq r seq) t1) t1
              end
          | LDrain b WResolved => send_chunk ev k i r ch seq b t
          | LDrain _ (WRejected e) => worker_throw k i w e t
          | _ => t
          end
      | _, _ => t
      end
  end.

Definition set_phase (k : nat) (p : run_phase) t : SendTransfer :=
  su_runs (alter (λ r, mkRun (ru_gen r) (ru_have r) (ru_digest r) (ru_channels r) (ru_workers r)
                         (ru_rejected r) p) k (st_runs t)) t.

(** The end of [_run]. *)
Definition announce (k : nat) (hex : option jsstr) t : SendTransfer :=
  safeControl (SOSent k hex) (transitionTo Completing t).1.

Definition is_done (w : worker) : bool := match wk_loc w with LDone => true | _ => false end.

(** [_run] after [Promise.all]. *)
Definition run_joined (k : nat) t : SendTransfer :=
  match st_runs t !! k with
  | Some (mkRun gen have digest chans workers None RWorkers as r) =>
      if forallb is_done workers then
        if dead r t then set_phase k REnd t
        else match digest with
             | Some _ => set_phase k RFinalize t
             | None => announce k None (set_phase k REnd t)
             end
      else t
  | _ => t
  end.

(** [_run] after [finalize]. *)
Definition run_finalized (crypto : bool) (k : nat) t : SendTransfer :=
  match st_runs t !! k with
  | Some (mkRun gen have (Some d) chans workers None RFinalize as r) =>
      match crypto, finalize d with
      | true, Some hex => announce k (Some hex) (set_phase k REnd t)
      | _, _ => su_runs (alter (λ r, mkRun gen have (Some d) chans workers (Some InvalidState) RFinalize)
                           k (st_runs t)) t
      end
  | _ => t
  end.

(** [_interrupt]. *)
Definition interrupt t : SendTransfer :=
  if decide (state t = Active) then
    let '(t1, moved) := transitionTo Paused t in
    if moved : bool then su_interrupted true t1 else t1
  else t.

(** The [catch] of [_begin]. *)
Definition run_caught (k : nat) t : SendTransfer :=
  match st_runs t !! k with
  | Some (mkRun gen _ _ _ _ (Some e) (RWorkers | RFinalize)) =>
      let t1 := set_phase k REnd t in
      if decide (gen ≠ st_gen t1) then t1
      else if sp_resumable (st_params t1) && bool_decide (e = ChannelClosed) && negb (isTerminal t1)
      then interrupt t1
      else fail e true t1
  | _ => t
  end.

(** An event of a channel, and its pending promises. *)
Definition wake (ch : Z) (ev : channel_event) (r : Run) : Run :=
  run_workers (imap (λ i w,
    if decide (ru_channels r !! i = Some ch) then
      match wk_loc w with
      | LOpen WPending => mkWorker (wk_seq w) (LOpen (wait_open_event ev))
      | LDrain b WPending => mkWorker (wk_seq w) (LDrain b (drain_event ev))
      | _ => w
      end
    else w)) r.

Definition channel_event_step (ch : Z) (ev : channel_event) t : SendTransfer :=
  let t1 := match ev with
            | EvOpen => su_ready (<[ch := Open]> (st_ready t)) t
            | EvClose => su_ready (<[ch := Closed]> (st_ready t)) t
            | _ => t
            end in
  su_runs (wake ch ev <$> st_runs t1) t1.

(** * Runs *)

Inductive st_action :=
| SStart
| SReoffer (channels : list Z)
| STimer
| SControl (m : ControlMessage)
| SPause
| SResume
| SCancel (reason : option jsstr)
| SWorker (ev : env) (k i : nat)
| SJoined (k : nat)
| SFinalized (crypto : bool) (k : nat)
| SCaught (k : nat)
| SChannel (ch : Z) (ev : channel_event)
| SClosing (ch : Z)
| SControlUp (up : bool).

Definition st_step t (a : st_action) : SendTransfer :=
  match a with
  | SStart => start t
  | SReoffer channels => reoffer channels t
  | STimer => on_offer_timeout t
  | SControl m => st_handleControl m t
  | SPause => st_pause t
  | SResume => st_resume t
  | SCancel reason => st_cancel reason t
  | SWorker ev k i => worker_step ev k i t
  | SJoined k => run_joined k t
  | SFinalized crypto k => run_finalized crypto k t
  | SCaught k => run_caught k t
  | SChannel ch ev => channel_event_step ch ev t
  | SClosing ch => su_ready (<[ch := Closing]> (st_ready t)) t
  | SControlUp up => su_control_up up t
  end.

Definition st_run (as_ : list st_action) t : SendTransfer := fold_left st_step as_ t.
End send.
