(* ===== verification/SendLemmas.v ===== *)
(** Lemmas on the sending side: which operations leave the runs alone, and the
    invariant of a run that its workers keep. *)

From S2P Require Import Prelude JsMap Uint8Array Framing Checksum Sink Transfer Schema Control Reassembly SendTransfer.

(** * Calm operations *)

(** Workers that differ only in the promise they wait for. *)
Definition wsim (w w' : worker) : Prop :=
  wk_seq w' = wk_seq w ∧
  match wk_loc w, wk_loc w' with
  | LOpen _, LOpen _ => True
  | LGate _, LGate _ => True
  | LDrain b _, LDrain b' _ => b = b'
  | l, l' => l = l'
  end.

#[export] Instance wsim_preorder : PreOrder wsim.
Proof.
  split.
  - intros [s l]. split; [done|]. by destruct l.
  - intros [s1 l1] [s2 l2] [s3 l3] [H1 L1] [H2 L2]. split; cbn in *; [congruence|].
    destruct l1, l2; try done; destruct l3; try done; congruence.
Qed.

Record rsim (r r' : Run) : Prop := {
  rs_gen : ru_gen r' = ru_gen r;
  rs_have : ru_have r' = ru_have r;
  rs_digest : ru_digest r' = ru_digest r;
  rs_channels : ru_channels r' = ru_channels r;
  rs_workers : Forall2 wsim (ru_workers r) (ru_workers r');
  rs_phase : ru_phase r' = ru_phase r ∨ ru_phase r' = REnd;
}.

#[export] Instance rsim_preorder : PreOrder rsim.
Proof.
  split.
  - intros r. constructor; auto. reflexivity.
  - intros r1 r2 r3 [] []. constructor; try congruence.
    + by etrans.
    + destruct rs_phase1 as [->|]; auto.
Qed.

(** A frame or an announcement leaves the transfer. *)
Definition quiet (o : st_output) : Prop :=
  match o with SOFrame _ _ _ _ | SOSent _ _ => False | _ => True end.

Definition statics (t : SendTransfer) :=
  (st_params t, tb_metadata (st_base t), tb_chunkSize (st_base t), tb_totalChunks (st_base t)).
Definition counts (t : SendTransfer) :=
  (tb_transferredBytes (st_base t), tb_transferredChunks (st_base t), st_sentSeqs t).

Definition ids (t : SendTransfer) := (tb_id (st_base t), tb_peerId (st_base t)).

(** Nothing but the promises of the workers, the state and the other fields of
    the transfer moved. *)
Record calm (t t' : SendTransfer) : Prop := {
  calm_statics : statics t' = statics t;
  calm_counts : counts t' = counts t;
  calm_gen : st_gen t ≤ st_gen t';
  calm_terminal : tb_terminal (st_base t) = true → tb_terminal (st_base t') = true;
  calm_runs : Forall2 rsim (st_runs t) (st_runs t');
  calm_out : ∃ l, st_out t' = st_out t ++ l ∧ Forall quiet l;
  calm_ids : ids t' = ids t;
}.

#[export] Instance calm_preorder : PreOrder calm.
Proof.
  split.
  - intros t. constructor; auto; [lia|reflexivity|]. exists []. by rewrite app_nil_r.
  - intros t1 t2 t3 [] []. constructor; try congruence; [lia|auto|by etrans|].
    destruct calm_out0 as (l & El & Hl), calm_out1 as (k & Ek & Hk).
    exists (l ++ k). split; [by rewrite Ek, El, app_assoc|by apply Forall_app].
Qed.

Ltac calm_fields :=
  constructor; try done; try (cbn; lia); try (cbn; reflexivity); try (exists []; by rewrite app_nil_r).

Section calm.
Context `{SubtleCrypto}.
Implicit Types (t : SendTransfer).

(** Operations that leave the runs and the base record as they are. *)
Lemma calm_same t t' :
  st_base t' = st_base t → st_params t' = st_params t → st_sentSeqs t' = st_sentSeqs t →
  st_gen t' = st_gen t → st_runs t' = st_runs t → st_out t' = st_out t → calm t t'.
Proof.
  intros Hb Hp Hs Hg Hr Ho. constructor.
  - unfold statics. congruence.
  - unfold counts. congruence.
  - lia.
  - by rewrite Hb.
  - rewrite Hr. reflexivity.
  - exists []. by rewrite app_nil_r.
  - unfold ids. by rewrite Hb.
Qed.

Lemma calm_emit_out o t : quiet o → calm t (st_emit_out o t).
Proof. intros Ho. calm_fields. exists [o]. auto. Qed.

Lemma release_sim w : wsim w (release w).
Proof. destruct w as [s []]; try done. by destruct released. Qed.

Lemma run_workers_sim f r : (∀ ws, Forall2 wsim ws (f ws)) → rsim r (run_workers f r).
Proof. intros Hf. by constructor; auto. Qed.

Lemma calm_release t : calm t (release_waiters t).
Proof.
  calm_fields. cbn.
  apply Forall2_fmap_r, Forall_Forall2_diag, Forall_true. intros r. apply run_workers_sim. intros ws.
  apply Forall2_fmap_r, Forall_Forall2_diag, Forall_true, release_sim.
Qed.

Lemma calm_close_channels chs t : calm t (close_channels chs t).
Proof.
  revert t. induction chs as [|ch chs IH]; intros t; [reflexivity|].
  change (calm t (close_channels chs (close_channel ch t))).
  etrans; [|apply IH]. unfold close_channel. etrans; [|by apply calm_emit_out]. by apply calm_same.
Qed.

Lemma onTerminal_calm t : calm t (st_onTerminal t).
Proof.
  unfold st_onTerminal. cbv zeta. etrans; [|by apply calm_emit_out].
  etrans; [|apply calm_close_channels]. etrans; [|apply calm_release].
  calm_fields.
Qed.

Lemma close_channels_base chs t : st_base (close_channels chs t) = st_base t.
Proof. revert t. induction chs as [|ch chs IH]; intros t; [done|]. apply (IH (close_channel ch t)). Qed.

#[export] Instance send_laws : TransferLaws SendTransfer.
Proof.
  constructor.
  - done.
  - intros t. cbn. by rewrite close_channels_base.
  - intros e t _. cbn. unfold st_notify. by destruct (st_control_up t).
Qed.

(** A change of the base record that keeps the counters and does not leave a
    terminal state. *)
Lemma calm_on_base f t :
  (∀ b, (tb_metadata (f b), tb_chunkSize (f b), tb_totalChunks (f b), tb_transferredBytes (f b),
         tb_transferredChunks (f b), tb_id (f b), tb_peerId (f b))
        = (tb_metadata b, tb_chunkSize b, tb_totalChunks b, tb_transferredBytes b, tb_transferredChunks b,
           tb_id b, tb_peerId b)) →
  (tb_terminal (st_base t) = true → tb_terminal (f (st_base t)) = true) → calm t (on_base f t).
Proof.
  intros Hf Ht. specialize (Hf (st_base t)). injection Hf as H1 H2 H3 H4 H5 H6 H7. constructor.
  - unfold statics. cbn. congruence.
  - unfold counts. cbn. congruence.
  - cbn. lia.
  - exact Ht.
  - cbn. reflexivity.
  - exists []. by rewrite app_nil_r.
  - unfold ids. cbn. congruence.
Qed.

Lemma calm_emit e t : calm t (emit e t).
Proof. by apply calm_on_base. Qed.

Lemma calm_transition next t : calm t (transitionTo next t).1.
Proof.
  unfold transitionTo. destruct (decide _); [reflexivity|]. destruct (isTerminal t) eqn:Et; [reflexivity|].
  destruct (negb _ && negb _); [reflexivity|]. cbn [fst].
  assert (calm t (emit (StateChanged next (state t)) (on_base (tb_with_state next) t))) as Hc.
  { etrans; [|apply calm_emit]. apply calm_on_base; [done|]. intros Hx.
    change (isTerminal t = true) in Hx. congruence. }
  destruct (bool_decide _); [|done]. etrans; [exact Hc|apply onTerminal_calm].
Qed.

Lemma calm_fail e n t : calm t (fail e n t).
Proof.
  unfold fail. destruct (isTerminal t); [reflexivity|]. etrans; [|apply calm_emit].
  etrans; [apply (calm_transition Failed)|]. destruct n; [|reflexivity]. cbn.
  unfold st_notify. destruct (st_control_up _); [by apply calm_emit_out|reflexivity].
Qed.

Lemma calm_control o t : quiet o → calm t (safeControl o t).
Proof.
  intros Ho. unfold safeControl. destruct (st_control_up t); [by apply calm_emit_out|apply calm_fail].
Qed.

Lemma calm_mark r t : calm t (st_markCancelled r t).
Proof.
  unfold st_markCancelled. destruct (isTerminal t); [reflexivity|].
  trans (clearOfferTimer t); [by apply calm_same|].
  unfold markCancelled. destruct (isTerminal _); [reflexivity|].
  etrans; [apply (calm_transition Cancelled)|]. destruct r; [apply calm_emit|reflexivity].
Qed.

Lemma calm_clear t : calm t (clearOfferTimer t).
Proof. by apply calm_same. Qed.

Lemma calm_arm k t : calm t (armOfferTimeout k t).
Proof. unfold armOfferTimeout. cbv zeta. destruct (decide _); by apply calm_same. Qed.

Lemma calm_offer t : calm t (sendOffer t).
Proof. by apply calm_control. Qed.

Lemma calm_timeout t : calm t (on_offer_timeout t).
Proof.
  unfold on_offer_timeout. destruct (st_timer t); [|reflexivity]. cbv zeta.
  trans (su_timer None t); [by apply calm_same|].
  destruct (still_waiting _ _); [apply calm_fail|reflexivity].
Qed.

Lemma calm_start t : calm t (start t).
Proof.
  unfold start. destruct (transitionTo Offered t) as [t1 moved] eqn:E.
  assert (calm t t1) as H1 by (pose proof (calm_transition Offered t) as Hx; by rewrite E in Hx).
  destruct moved; [|done]. cbv zeta. etrans; [exact H1|]. etrans; [apply calm_offer|].
  destruct (decide _); [apply calm_arm|reflexivity].
Qed.

Lemma calm_reoffer chs t : calm t (reoffer chs t).
Proof.
  unfold reoffer. destruct (_ || _); [reflexivity|]. cbv zeta. etrans; [|apply calm_arm].
  etrans; [|apply calm_offer]. etrans; [apply calm_close_channels|]. by apply calm_same.
Qed.

Lemma calm_applyPause t : calm t (applyPause t).1.
Proof.
  unfold applyPause. destruct (decide _); [by apply calm_same|].
  destruct (decide _); [reflexivity|apply calm_transition].
Qed.

Lemma calm_applyResume t : calm t (applyResume t).1.
Proof.
  unfold applyResume. destruct (decide _); [by apply calm_same|].
  destruct (decide _); [reflexivity|].
  destruct (transitionTo Active t) as [t1 moved] eqn:E.
  assert (calm t t1) as H1 by (pose proof (calm_transition Active t) as Hx; by rewrite E in Hx).
  destruct moved; [|done]. etrans; [exact H1|apply calm_release].
Qed.

Lemma calm_pause t : calm t (st_pause t).
Proof.
  unfold st_pause. pose proof (calm_applyPause t) as Hp. destruct (applyPause t) as [t1 []]; [|done].
  etrans; [exact Hp|by apply calm_control].
Qed.

Lemma calm_resume t : calm t (st_resume t).
Proof.
  unfold st_resume. pose proof (calm_applyResume t) as Hp. destruct (applyResume t) as [t1 []]; [|done].
  etrans; [exact Hp|by apply calm_control].
Qed.

Lemma calm_cancel r t : calm t (st_cancel r t).
Proof.
  unfold st_cancel. destruct (isTerminal t); [reflexivity|]. cbv zeta.
  etrans; [|apply calm_mark]. by apply calm_control.
Qed.

Lemma calm_interrupt t : calm t (interrupt t).
Proof.
  unfold interrupt. destruct (decide _); [|reflexivity].
  pose proof (calm_transition Paused t) as Hp. destruct (transitionTo Paused t) as [t1 []]; [|done].
  etrans; [exact Hp|by apply calm_same].
Qed.

Lemma calm_phase_end k t : calm t (set_phase k REnd t).
Proof.
  calm_fields. cbn.
  apply Forall2_same_length_lookup_2; [by rewrite length_alter|]. intros k' r r' Hr Hr'.
  destruct (decide (k = k')) as [<-|Hne].
  - rewrite list_lookup_alter_eq, Hr in Hr'. simplify_eq/=. constructor; auto. reflexivity.
  - rewrite list_lookup_alter_ne in Hr' by done. simplify_eq. reflexivity.
Qed.
End calm.

(** * The invariant of the runs *)

(** The frames of run [k], oldest first: sequence number, channel, data. *)
Definition frames_of (k : nat) (out : list st_output) : list (Z * Z * bytes) :=
  omap (λ o, match o with
             | SOFrame k' seq ch data => if decide (k' = k) then Some (seq, ch, data) else None
             | _ => None end) out.
Definition seqs_of (k : nat) (out : list st_output) : list Z := (frames_of k out).*1.*1.

Lemma frames_of_app k l l' : frames_of k (l ++ l') = frames_of k l ++ frames_of k l'.
Proof. apply omap_app. Qed.

Lemma frames_of_quiet k l : Forall quiet l → frames_of k l = [].
Proof. induction 1 as [|o l Ho _ IH]; [done|]. by destruct o. Qed.

Lemma seqs_of_app k l l' : seqs_of k (l ++ l') = seqs_of k l ++ seqs_of k l'.
Proof. unfold seqs_of. by rewrite frames_of_app, !fmap_app. Qed.

Lemma sent_quiet k hex l : Forall quiet l → SOSent k hex ∉ l.
Proof. intros Hl Hin. rewrite Forall_forall in Hl. exact (Hl _ Hin). Qed.

(** The sequence numbers worker [i] of [n] is in charge of. *)
Definition lane (n i j : Z) : Prop := ∃ q, 0 ≤ q ∧ j = i + q * n.

Lemma lane_start n i : lane n i i.
Proof. exists 0. lia. Qed.

Lemma lane_next n i j : lane n i j → lane n i (j + n).
Proof. intros (q & ? & ->). exists (q + 1). lia. Qed.

Lemma lane_inj n i i' j : 0 ≤ i < n → 0 ≤ i' < n → lane n i j → lane n i' j → i = i'.
Proof.
  intros Hi Hi' (q & Hq & ->) (q' & Hq' & E).
  assert (q = q') by nia. nia.
Qed.

(** Nothing of the lane lies strictly between two steps. *)
Lemma lane_between n i s j : 0 ≤ i < n → lane n i s → lane n i j → j < s + n ↔ j < s ∨ j = s.
Proof.
  intros Hi (q & Hq & ->) (q' & Hq' & ->). split; [|nia]. intros Hlt.
  assert (q' ≤ q) by nia. destruct (decide (q' = q)) as [->|]; [by right|left; nia].
Qed.

Lemma lane_mod n i j : 0 ≤ i < n → lane n i j → j mod n = i.
Proof. intros Hi (q & Hq & ->). rewrite Z_mod_plus_full. apply Z.mod_small. lia. Qed.

Lemma lane_of n j : 0 < n → 0 ≤ j → lane n (j mod n) j.
Proof.
  intros Hn Hj. exists (j / n). split; [apply Z.div_pos; lia|].
  pose proof (Z.div_mod j n). lia.
Qed.

Section runs.
Context `{SubtleCrypto}.
Implicit Types (t : SendTransfer) (r : Run).

(** What worker [i] has hashed: everything of its lane below this number. *)
Definition hashed_to t (w : worker) : option Z :=
  match wk_loc w with
  | LThrew => None
  | LDone => if decide (st_totalChunks t ≤ wk_seq w) then Some (wk_seq w) else None
  | LDrain _ _ => Some (wk_seq w + 1)
  | _ => Some (wk_seq w)
  end.

Definition stride r : Z := Z.of_nat (length (ru_channels r)).

Definition loc_ok t r (w : worker) : Prop :=
  let seq := wk_seq w in
  match wk_loc w with
  | LOpen _ | LThrew => True
  | LGate _ => seq < st_totalChunks t
  | LRead => seq < st_totalChunks t ∧ (seq ∉ ru_have r ∨ ru_digest r ≠ None)
  | LHash b => seq < st_totalChunks t ∧ b = read_chunk seq t ∧ ru_digest r ≠ None
  | LDrain b _ => seq < st_totalChunks t ∧ b = read_chunk seq t ∧ seq ∉ ru_have r
  | LDone => st_totalChunks t ≤ seq ∨ dead r t = true
  end.

(** [sent] and [hs] are what the run sent and hashed. *)
Record worker_ok t r (sent hs : list Z) (i : nat) (w : worker) : Prop := {
  wo_lane : lane (stride r) (Z.of_nat i) (wk_seq w);
  wo_loc : loc_ok t r w;
  wo_sent j : lane (stride r) (Z.of_nat i) j →
    j ∈ sent ↔ j < wk_seq w ∧ j < st_totalChunks t ∧ j ∉ ru_have r;
  wo_hashed j h : ru_digest r ≠ None → hashed_to t w = Some h → lane (stride r) (Z.of_nat i) j →
    j ∈ hs ↔ j < h ∧ j < st_totalChunks t;
}.

Definition frame_ok t r (f : Z * Z * bytes) : Prop :=
  let '(seq, ch, data) := f in
  0 ≤ seq < st_totalChunks t ∧ (seq ∉ ru_have r) ∧ data = encodeFrame seq (read_chunk seq t)
  ∧ ru_channels r !! Z.to_nat (seq mod stride r) = Some ch.

(** The worker ended because its lane was finished. *)
Definition finished t (w : worker) : Prop := wk_loc w = LDone ∧ st_totalChunks t ≤ wk_seq w.

Definition chunks_read t (hs : list Z) : list (Z * bytes) := (λ j, (j, read_chunk j t)) <$> hs.

Record hashed_ok t r (hs : list Z) : Prop := {
  ho_nodup : NoDup hs;
  ho_range : Forall (λ j, 0 ≤ j < st_totalChunks t) hs;
  ho_digest d : ru_digest r = Some d → d = updates (chunks_read t hs) newDigest;
}.

Record run_ok t (k : nat) r : Prop := {
  rk_len : length (ru_workers r) = length (ru_channels r);
  rk_gen : ru_gen r ≤ st_gen t;
  rk_checksum : ru_digest r ≠ None ↔ sp_checksum (st_params t) = true;
  rk_frames : Forall (frame_ok t r) (frames_of k (st_out t));
  rk_nodup : NoDup (seqs_of k (st_out t));
  rk_workers : ∃ hs, hashed_ok t r hs ∧
    ∀ i w, ru_workers r !! i = Some w → worker_ok t r (seqs_of k (st_out t)) hs i w;
  rk_final : ru_phase r = RFinalize → Forall (finished t) (ru_workers r);
  rk_sent hex : SOSent k hex ∈ st_out t →
    ru_phase r = REnd ∧ Forall (finished t) (ru_workers r) ∧ hex = (d ← ru_digest r; finalize d);
}.

(** Every run; the generations grow, and no output is of a run to come. *)
Record runs_ok t : Prop := {
  ro_runs k r : st_runs t !! k = Some r → run_ok t k r;
  ro_gens k k' r r' : st_runs t !! k = Some r → st_runs t !! k' = Some r' → (k < k')%nat →
    ru_gen r < ru_gen r';
  ro_frames k : (length (st_runs t) ≤ k)%nat → frames_of k (st_out t) = [];
  ro_sent k hex : SOSent k hex ∈ st_out t → (k < length (st_runs t))%nat;
}.

(** * Calm operations keep it *)

Lemma calm_total t t' : statics t' = statics t → st_totalChunks t' = st_totalChunks t.
Proof. unfold statics, st_totalChunks. congruence. Qed.

Lemma calm_chunk t t' j : statics t' = statics t → read_chunk j t' = read_chunk j t.
Proof.
  unfold statics, read_chunk, chunk_length, st_chunkSize, st_size. intros [= -> -> -> _]. done.
Qed.

Lemma calm_dead t t' r :
  st_gen t ≤ st_gen t' → (tb_terminal (st_base t) = true → tb_terminal (st_base t') = true) →
  ru_gen r ≤ st_gen t → dead r t = true → dead r t' = true.
Proof.
  unfold dead, isTerminal. cbn. intros Hg Ht Hr [Hx|Hx]%orb_true_iff; apply orb_true_iff; [auto|].
  right. apply negb_true_iff, bool_decide_eq_false in Hx. apply negb_true_iff, bool_decide_eq_false. lia.
Qed.

Lemma finished_sim t t' w w' : statics t' = statics t → wsim w w' → finished t w → finished t' w'.
Proof.
  intros Hs [Hseq Hl] [Hd Ht]. unfold finished. rewrite Hseq, (calm_total _ _ Hs). split; [|done].
  rewrite Hd in Hl. by destruct (wk_loc w').
Qed.

Lemma finished_all t t' ws ws' :
  statics t' = statics t → Forall2 wsim ws ws' → Forall (finished t) ws → Forall (finished t') ws'.
Proof.
  intros Hs Hw Hf. apply Forall_lookup. intros i w' Hw'.
  apply (Forall2_lookup_r _ _ _ _ _ Hw) in Hw' as (w & Hw0 & Hsim).
  rewrite Forall_lookup in Hf. eapply finished_sim; eauto.
Qed.

Lemma worker_ok_sim t t' r r' sent hs i w w' :
  statics t' = statics t → (dead r t = true → dead r' t' = true) → rsim r r' → wsim w w' →
  worker_ok t r sent hs i w → worker_ok t' r' sent hs i w'.
Proof.
  intros Hs Hdead [Hg Hh Hd Hc _ _] [Hseq Hl] [Ol Oc Os Oh].
  pose proof (calm_total _ _ Hs) as Ht.
  constructor; unfold stride in *; rewrite ?Hseq, ?Hc, ?Ht, ?Hh, ?Hd; [done| |done|].
  - pose proof (calm_chunk t t' (wk_seq w) Hs) as Hch. unfold loc_ok in *.
    rewrite Hseq, Ht, Hh, Hd, Hch. clear Hs Hch.
    destruct (wk_loc w), (wk_loc w'); try done; simplify_eq; try done.
    destruct Oc as [|]; auto.
  - intros j h Hn Hh'. apply Oh; [done|]. unfold hashed_to in *. rewrite Hseq, Ht in Hh'.
    destruct (wk_loc w), (wk_loc w'); simplify_eq/=; done.
Qed.

Lemma frame_ok_sim t t' r r' f :
  statics t' = statics t → rsim r r' → frame_ok t r f → frame_ok t' r' f.
Proof.
  intros Hs [_ Hh _ Hc _ _]. destruct f as [[seq ch] data]. unfold frame_ok, stride.
  by rewrite Hh, Hc, (calm_total _ _ Hs), (calm_chunk _ _ seq Hs).
Qed.

Lemma hashed_ok_sim t t' r r' hs :
  statics t' = statics t → rsim r r' → hashed_ok t r hs → hashed_ok t' r' hs.
Proof.
  intros Hs [_ _ Hd _ _ _] [Hn Hr Hu]. constructor; [done|by rewrite (calm_total _ _ Hs)|].
  intros d. rewrite Hd. intros Hx. rewrite (Hu d Hx). f_equal. unfold chunks_read.
  apply list_fmap_ext. intros _ j _. by rewrite (calm_chunk _ _ j Hs).
Qed.

Lemma still_run t t' k r r' l :
  statics t' = statics t → st_gen t ≤ st_gen t' →
  (tb_terminal (st_base t) = true → tb_terminal (st_base t') = true) →
  st_out t' = st_out t ++ l → frames_of k l = [] → (∀ hex, SOSent k hex ∉ l) →
  rsim r r' → run_ok t k r → run_ok t' k r'.
Proof.
  intros Hs Hg Ht Hout Hl Hl' Hr [O1 O2 O3 O4 O5 (hs & Oh & Ow) O7 O8].
  assert (frames_of k (st_out t') = frames_of k (st_out t)) as Hfr
    by (by rewrite Hout, frames_of_app, Hl, app_nil_r).
  assert (seqs_of k (st_out t') = seqs_of k (st_out t)) as Hsq by (unfold seqs_of; by rewrite Hfr).
  pose proof Hr as [Rg Rh Rd Rc Rw Rp].
  assert (dead r t = true → dead r' t' = true) as Hdead.
  { intros Hx. rewrite <- (calm_dead t t' r Hg Ht O2 Hx). unfold dead. by rewrite Rg. }
  constructor.
  - apply Forall2_length in Rw. congruence.
  - lia.
  - rewrite Rd. unfold statics in Hs. by injection Hs as -> _ _ _.
  - rewrite Hfr. eapply Forall_impl; [exact O4|]. intros f. by apply frame_ok_sim.
  - by rewrite Hsq.
  - exists hs. split; [by eapply hashed_ok_sim|]. intros i w' Hw'. rewrite Hsq.
    destruct (Forall2_lookup_r _ _ _ _ _ Rw Hw') as (w & Hw & Hsim). by eapply worker_ok_sim; eauto.
  - intros Hph. destruct Rp as [Rp|Rp]; [|congruence]. rewrite Rp in Hph.
    eapply finished_all; eauto.
  - intros hex. rewrite Hout. intros [Hin|Hin]%elem_of_app; [|by destruct (Hl' hex)].
    destruct (O8 hex Hin) as (Hp & Hf & ->). rewrite Rd. split; [|split; [|done]].
    + destruct Rp as [->|]; done.
    + eapply finished_all; eauto.
Qed.

Lemma calm_run t t' k r r' :
  calm t t' → rsim r r' → run_ok t k r → run_ok t' k r'.
Proof.
  intros [Hs _ Hg Ht _ (l & Hout & Hl)]. eapply still_run; [done..| |].
  - by apply frames_of_quiet.
  - intros hex. by apply sent_quiet.
Qed.

Lemma calm_ok t t' : calm t t' → runs_ok t → runs_ok t'.
Proof.
  intros Hc [O1 O2 O3 O4]. pose proof Hc as [Hs _ _ _ Hr (l & Hout & Hl)].
  pose proof (Forall2_length _ _ _ Hr) as Hlen. constructor.
  - intros k r' Hk. destruct (Forall2_lookup_r _ _ _ _ _ Hr Hk) as (r & Hk' & Hsim).
    eapply calm_run; eauto.
  - intros k k' r r' Hk Hk'. destruct (Forall2_lookup_r _ _ _ _ _ Hr Hk) as (r0 & E & Hsim).
    destruct (Forall2_lookup_r _ _ _ _ _ Hr Hk') as (r0' & E' & Hsim').
    destruct Hsim as [-> _ _ _ _ _], Hsim' as [-> _ _ _ _ _]. eauto.
  - intros k Hk. rewrite Hout, frames_of_app, (frames_of_quiet k l Hl), app_nil_r. apply O3. lia.
  - intros k hex. rewrite Hout. intros [Hin|Hin]%elem_of_app; [|by destruct (sent_quiet k hex l Hl)].
    rewrite <- Hlen. eauto.
Qed.
End runs.
