(* ===== verification/SendInvariant.v ===== *)
(** Every action of the sending side keeps the invariant of its runs, and what a
    sender guarantees. *)

From S2P Require Import Prelude JsMap Uint8Array Framing Checksum Sink Transfer Schema Control Reassembly SendTransfer SendLemmas.

Section moves.
Context `{SubtleCrypto}.
Implicit Types (t : SendTransfer) (r : Run).

(** * One run moves *)

Lemma runs_move t t' k r r' l :
  runs_ok t → st_runs t !! k = Some r →
  statics t' = statics t → st_gen t' = st_gen t →
  (tb_terminal (st_base t) = true → tb_terminal (st_base t') = true) →
  st_out t' = st_out t ++ l → (∀ k', k' ≠ k → frames_of k' l = []) →
  (∀ k' hex, k' ≠ k → SOSent k' hex ∉ l) →
  st_runs t' = <[k := r']> (st_runs t) → ru_gen r' = ru_gen r → run_ok t' k r' → runs_ok t'.
Proof.
  intros [O1 O2 O3 O4] Hk Hs Hg Ht Hout Hf Hse Hr Hrg Hok.
  pose proof (lookup_lt_Some _ _ _ Hk) as Hlt.
  assert (Hlk : ∀ k' r0, st_runs t' !! k' = Some r0 →
    (k' = k ∧ r0 = r') ∨ (k' ≠ k ∧ st_runs t !! k' = Some r0)).
  { intros k' r0. rewrite Hr. destruct (decide (k' = k)) as [->|Hne].
    - rewrite list_lookup_insert_eq by done. intros [= ->]. by left.
    - rewrite list_lookup_insert_ne by done. by right. }
  assert (Hgen : ∀ k' r0, st_runs t' !! k' = Some r0 → ∃ r1, st_runs t !! k' = Some r1 ∧ ru_gen r1 = ru_gen r0).
  { intros k' r0 [[-> ->]|[_ ?]]%Hlk; eauto. }
  constructor.
  - intros k' r0 [[-> ->]|[Hne Hk']]%Hlk; [done|].
    eapply (still_run t t' k' r0 r0 l); try done; [lia|by apply Hf|intros hex; by apply Hse|auto].
  - intros k1 k2 r1 r2 Hk1 Hk2 Hlt12.
    destruct (Hgen _ _ Hk1) as (q1 & E1 & <-), (Hgen _ _ Hk2) as (q2 & E2 & <-). eauto.
  - intros k'. rewrite Hr, length_insert. intros Hk'. rewrite Hout, frames_of_app, Hf by lia.
    by rewrite O3.
  - intros k' hex. rewrite Hout, Hr, length_insert. intros [Hin|Hin]%elem_of_app; [eauto|].
    destruct (decide (k' = k)) as [->|Hne]; [done|]. by destruct (Hse k' hex).
Qed.

(** A worker that has not ended moves on: it sends [fs] and hashes [hh], all of
    its own lane. *)
Lemma run_move t t' k r r' hs hh fs l i w w' :
  run_ok t k r → hashed_ok t r hs →
  (∀ i w, ru_workers r !! i = Some w → worker_ok t r (seqs_of k (st_out t)) hs i w) →
  ru_workers r !! i = Some w → wk_loc w ≠ LDone →
  statics t' = statics t → st_gen t' = st_gen t →
  (tb_terminal (st_base t) = true → tb_terminal (st_base t') = true) →
  st_out t' = st_out t ++ l → frames_of k l = fs → (∀ hex, SOSent k hex ∉ l) →
  ru_gen r' = ru_gen r → ru_have r' = ru_have r → ru_channels r' = ru_channels r →
  ru_phase r' = ru_phase r → (ru_digest r' = None ↔ ru_digest r = None) →
  ru_workers r' = <[i := w']> (ru_workers r) →
  Forall (lane (stride r) (Z.of_nat i)) (fs.*1.*1 ++ hh) →
  Forall (frame_ok t r) fs → NoDup (seqs_of k (st_out t) ++ fs.*1.*1) →
  hashed_ok t' r' (hs ++ hh) →
  worker_ok t' r' (seqs_of k (st_out t) ++ fs.*1.*1) (hs ++ hh) i w' →
  run_ok t' k r'.
Proof.
  intros [O1 O2 O3 O4 O5 _ O7 O8] Hh Hws Hw Hnd Hs Hg Ht Hout Hfs Hse Rg Rh Rc Rp Rd Rw Hlane Hfr Hdup Hh' Hw'.
  apply Forall_app in Hlane as [Hl1 Hl2].
  pose proof (lookup_lt_Some _ _ _ Hw) as Hlt.
  assert (seqs_of k (st_out t') = seqs_of k (st_out t) ++ fs.*1.*1) as Hsq
    by (rewrite Hout, seqs_of_app; unfold seqs_of at 2; by rewrite Hfs).
  assert (Hnf : ¬ Forall (finished t) (ru_workers r)).
  { intros Hf. rewrite Forall_lookup in Hf. by destruct (Hf _ _ Hw). }
  assert (Hdn : ru_digest r ≠ None → ru_digest r' ≠ None) by (intros Hx Hy; by apply Hx, Rd).
  assert (Hdn' : ru_digest r' ≠ None → ru_digest r ≠ None) by (intros Hx Hy; by apply Hx, Rd).
  assert (Hfok : ∀ f, frame_ok t r f → frame_ok t' r' f).
  { intros [[seq ch] data]. unfold frame_ok, stride.
    by rewrite Rh, Rc, (calm_total _ _ Hs), (calm_chunk _ _ seq Hs). }
  constructor.
  - by rewrite Rw, length_insert, Rc.
  - lia.
  - unfold statics in Hs. injection Hs as -> _ _ _. rewrite <- O3. split; auto.
  - rewrite Hout, frames_of_app, Hfs. apply Forall_app. split.
    + eapply Forall_impl; [exact O4|apply Hfok].
    + eapply Forall_impl; [exact Hfr|apply Hfok].
  - by rewrite Hsq.
  - exists (hs ++ hh). split; [done|]. intros i2 w2. rewrite Rw, Hsq.
    destruct (decide (i2 = i)) as [->|Hne].
    { rewrite list_lookup_insert_eq by done. by intros [= <-]. }
    rewrite list_lookup_insert_ne by done. intros Hw2.
    pose proof (lookup_lt_Some _ _ _ Hw2) as Hlt2.
    destruct (Hws _ _ Hw2) as [Wl Wc Ws Wh].
    assert (Hoff : ∀ l j, Forall (lane (stride r) (Z.of_nat i)) l → lane (stride r) (Z.of_nat i2) j → j ∉ l).
    { intros l0 j Hl0 Hj Hin. rewrite Forall_forall in Hl0.
      assert (Z.of_nat i2 = Z.of_nat i); [|lia].
      apply (lane_inj (stride r) _ _ j); [unfold stride; lia..|done|auto]. }
    constructor; unfold stride; rewrite ?Rc; fold (stride r); rewrite ?(calm_total _ _ Hs), ?Rh; [done| | |].
    + unfold loc_ok in *. rewrite (calm_total _ _ Hs), (calm_chunk _ _ (wk_seq w2) Hs), Rh.
      destruct (wk_loc w2); try exact Wc.
      * destruct Wc as [? [?|?]]; auto.
      * destruct Wc as (? & ? & ?). auto.
      * destruct Wc as [|Wc]; [by left|right].
      rewrite <- (calm_dead t t' r ltac:(lia) Ht O2 Wc). unfold dead. by rewrite Rg.
    + intros j Hj. rewrite elem_of_app, (Ws j Hj). pose proof (Hoff _ j Hl1 Hj). tauto.
    + intros j h Hd Hj' Hj. unfold hashed_to in *. rewrite (calm_total _ _ Hs) in Hj'.
      rewrite elem_of_app, (Wh j h) by auto. pose proof (Hoff _ j Hl2 Hj). tauto.
  - rewrite Rp. intros Hx. by destruct (Hnf (O7 Hx)).
  - intros hex. rewrite Hout. intros [Hin|Hin]%elem_of_app; [|by destruct (Hse hex)].
    destruct (O8 hex Hin) as (_ & Hf & _). by destruct (Hnf Hf).
Qed.

Lemma alter_insert (f : Run → Run) k r (l : list Run) : l !! k = Some r → alter f k l = <[k := f r]> l.
Proof.
  intros Hk. apply list_eq. intros j. destruct (decide (j = k)) as [->|Hne].
  - rewrite list_lookup_alter_eq, Hk, list_lookup_insert_eq; [done|by eapply lookup_lt_Some].
  - by rewrite list_lookup_alter_ne, list_lookup_insert_ne.
Qed.

(** * The moves of a worker *)

(** The worker goes on to another place, without sending or hashing. *)
Lemma move_quiet t k r r' g i w w' :
  runs_ok t → st_runs t !! k = Some r → ru_workers r !! i = Some w → wk_loc w ≠ LDone →
  g r = r' → ru_gen r' = ru_gen r → ru_have r' = ru_have r → ru_channels r' = ru_channels r →
  ru_phase r' = ru_phase r → ru_digest r' = ru_digest r →
  ru_workers r' = <[i := w']> (ru_workers r) →
  (∀ sent hs, worker_ok t r sent hs i w → worker_ok t r sent hs i w') →
  runs_ok (su_runs (alter g k (st_runs t)) t).
Proof.
  intros Hok Hk Hw Hnd Hg Rg Rh Rc Rp Rd Rw Hstep. pose proof (ro_runs _ Hok _ _ Hk) as Hr.
  destruct (rk_workers _ _ _ Hr) as (hs & Hh & Hws). pose proof (Hws _ _ Hw) as Hwk.
  apply (runs_move t _ k r r' []); try done.
  - by rewrite app_nil_r.
  - intros. by apply not_elem_of_nil.
  - cbn. by rewrite (alter_insert g k r), Hg.
  - eapply (run_move t _ k r r' hs [] [] [] i w w'); try done; cbn [fmap list_fmap app]; rewrite ?app_nil_r;
      try done.
    + intros hex. apply not_elem_of_nil.
    + by rewrite Rd.
    + exact (rk_nodup _ _ _ Hr).
    + destruct Hh. constructor; [done|done|by rewrite Rd].
    + destruct (Hstep _ _ Hwk) as [Wl Wc Ws Wh].
      constructor; unfold stride, loc_ok, dead; rewrite ?Rg, ?Rh, ?Rc, ?Rd; assumption.
Qed.

Lemma set_worker_ok t k r i w w' :
  runs_ok t → st_runs t !! k = Some r → ru_workers r !! i = Some w → wk_loc w ≠ LDone →
  (∀ sent hs, worker_ok t r sent hs i w → worker_ok t r sent hs i w') → runs_ok (set_worker k i w' t).
Proof.
  intros. unfold set_worker.
  by apply (move_quiet t k r (run_workers <[i := w']> r) (run_workers <[i := w']>) i w w').
Qed.

Lemma worker_throw_ok t k r i w e :
  runs_ok t → st_runs t !! k = Some r → ru_workers r !! i = Some w → wk_loc w ≠ LDone →
  runs_ok (worker_throw k i w e t).
Proof.
  intros Hok Hk Hw Hnd. unfold worker_throw.
  eapply (move_quiet t k r _ _ i w (mkWorker (wk_seq w) LThrew)); try done.
  intros sent hs [Wl _ Ws _]. by constructor.
Qed.

(** The head of the loop, at a number of the lane up to which all is done. *)
Lemma loop_head_ok t r r0 sent hs i s :
  ru_gen r0 = ru_gen r → lane (stride r) (Z.of_nat i) s →
  (∀ j, lane (stride r) (Z.of_nat i) j → j ∈ sent ↔ j < s ∧ j < st_totalChunks t ∧ j ∉ ru_have r) →
  (ru_digest r ≠ None → ∀ j, lane (stride r) (Z.of_nat i) j → j ∈ hs ↔ j < s ∧ j < st_totalChunks t) →
  worker_ok t r sent hs i (loop_head r0 s t).
Proof.
  intros Hg Hl Hs Hh. assert (dead r0 t = dead r t) as Hd by (unfold dead; by rewrite Hg).
  unfold loop_head. destruct (decide (st_totalChunks t ≤ s)) as [Ht|Ht].
  { constructor; [done|by left|done|]. intros j h Hn. cbn. rewrite decide_True by done.
    intros [= <-]. auto. }
  destruct (dead r0 t) eqn:E.
  { constructor; [done|right; congruence|done|]. intros j h Hn. cbn. by rewrite decide_False. }
  constructor; [done|cbn; lia|done|]. intros j h Hn [= <-]. auto.
Qed.

Lemma worker_bound t k r i w : run_ok t k r → ru_workers r !! i = Some w → 0 ≤ Z.of_nat i < stride r.
Proof.
  intros Hr Hw. apply lookup_lt_Some in Hw. rewrite (rk_len _ _ _ Hr) in Hw. unfold stride. lia.
Qed.

(** A worker that has dealt with its number goes to the next one. *)
Lemma next_ok t r r0 sent hs i s :
  ru_gen r0 = ru_gen r → 0 ≤ Z.of_nat i < stride r → stride r0 = stride r →
  lane (stride r) (Z.of_nat i) s → s < st_totalChunks t →
  (∀ j, lane (stride r) (Z.of_nat i) j →
     j ∈ sent ↔ (j < s ∨ j = s) ∧ j < st_totalChunks t ∧ j ∉ ru_have r) →
  (ru_digest r ≠ None → ∀ j, lane (stride r) (Z.of_nat i) j →
     j ∈ hs ↔ (j < s ∨ j = s) ∧ j < st_totalChunks t) →
  worker_ok t r sent hs i (loop_head r0 (next_seq r0 s) t).
Proof.
  intros Hg Hi Hst Hl Ht Hs Hh. unfold next_seq. fold (stride r0). rewrite Hst.
  apply loop_head_ok; [done|by apply lane_next| |].
  - intros j Hj. rewrite (Hs j Hj), (lane_between _ _ s j Hi) by done. done.
  - intros Hn j Hj. rewrite (Hh Hn j Hj), (lane_between _ _ s j Hi) by done. done.
Qed.

(** The worker's chunk is hashed, and the worker goes on. *)
Lemma move_hash t k r i w b d w' wt :
  runs_ok t → st_runs t !! k = Some r → ru_workers r !! i = Some w → wk_loc w = LHash b →
  ru_digest r = Some d →
  w' = (if negb (bool_decide (wk_seq w ∈ ru_have r)) then mkWorker (wk_seq w) (LDrain b wt)
        else loop_head r (next_seq r (wk_seq w)) t) →
  runs_ok (set_worker k i w' (set_digest k (update (wk_seq w) b d) t)).
Proof.
  intros Hok Hk Hw Hloc Hd Hw'. pose proof (ro_runs _ Hok _ _ Hk) as Hr.
  destruct (rk_workers _ _ _ Hr) as (hs & Hh & Hws). pose proof (Hws _ _ Hw) as Hwk.
  pose proof (worker_bound _ _ _ _ _ Hr Hw) as Hi.
  destruct Hwk as [Wl Wc Ws Wh]. pose proof Wc as Wc'. unfold loc_ok in Wc'. rewrite Hloc in Wc'.
  destruct Wc' as (Hlt & Hb & _).
  assert (Hh1 : ∀ j, lane (stride r) (Z.of_nat i) j → j ∈ hs ↔ j < wk_seq w ∧ j < st_totalChunks t).
  { intros j. apply Wh; [by rewrite Hd|]. unfold hashed_to. by rewrite Hloc. }
  set (r1 := mkRun (ru_gen r) (ru_have r) (Some (update (wk_seq w) b d)) (ru_channels r)
               (ru_workers r) (ru_rejected r) (ru_phase r)).
  set (r' := run_workers <[i := w']> r1).
  assert (Hruns : st_runs (set_worker k i w' (set_digest k (update (wk_seq w) b d) t))
                  = <[k := r']> (st_runs t)).
  { unfold set_worker, set_digest. cbn. rewrite (alter_insert _ k r (st_runs t)) by done.
    rewrite (alter_insert _ k r1); [by rewrite list_insert_insert_eq|].
    apply list_lookup_insert_eq. by eapply lookup_lt_Some. }
  assert (Hnin : wk_seq w ∉ hs) by (rewrite Hh1 by done; lia).
  assert (Hge : 0 ≤ wk_seq w) by (destruct Wl as (q & ? & ->); nia).
  apply (runs_move t _ k r r' []); try done.
  - by rewrite app_nil_r.
  - intros. by apply not_elem_of_nil.
  - eapply (run_move t _ k r r' hs [wk_seq w] [] [] i w w'); try done; cbn [fmap list_fmap app];
      rewrite ?app_nil_r; try done.
    + by rewrite Hloc.
    + intros hex. apply not_elem_of_nil.
    + by rewrite Hd.
    + by apply Forall_singleton.
    + exact (rk_nodup _ _ _ Hr).
    + destruct Hh as [Hn Hrg Hu]. constructor.
      * by apply NoDup_snoc.
      * apply Forall_app. split; [done|]. apply Forall_singleton.
        change (0 ≤ wk_seq w < st_totalChunks t). lia.
      * intros d' [= <-]. rewrite (Hu _ Hd). unfold chunks_read. rewrite fmap_app, updates_app.
        by rewrite Hb.
    + apply (worker_ok_sim t _ r' r' _ _ _ w' w'); [done|done|reflexivity|reflexivity|].
      assert (Hs' : ∀ j, lane (stride r) (Z.of_nat i) j →
        j ∈ hs ++ [wk_seq w] ↔ (j < wk_seq w ∨ j = wk_seq w) ∧ j < st_totalChunks t).
      { intros j Hj. rewrite elem_of_app, (Hh1 j Hj), list_elem_of_singleton.
        split; [|tauto]. intros [?| ->]; [tauto|auto]. }
      destruct (bool_decide_reflect (wk_seq w ∈ ru_have r)) as [Hv|Hv]; cbn [negb] in Hw'.
      * rewrite Hw'. apply (next_ok t r' r); try done.
        intros j Hj. rewrite (Ws j Hj). split; [tauto|]. intros ([?| ->] & ? & ?); tauto.
      * rewrite Hw'. constructor; [done|by cbn|intros j Hj; apply (Ws j Hj)|].
        intros j h _ [= <-] Hj. rewrite (Hs' j Hj). cbn. lia.
Qed.

(** The chunk is sent and counted, and the worker goes on. *)
Lemma move_send ev t k r i w ch b :
  runs_ok t → st_runs t !! k = Some r → ru_workers r !! i = Some w → ru_channels r !! i = Some ch →
  wk_loc w = LDrain b WResolved →
  let t1 := st_emit_out (SOFrame k (wk_seq w) ch (encodeFrame (wk_seq w) b)) t in
  let t2 := on_base tb_progress (count_sent (wk_seq w) t1) in
  e_send_ok ev = true → runs_ok (set_worker k i (loop_head r (next_seq r (wk_seq w)) t2) t2).
Proof.
  intros Hok Hk Hw Hch Hloc t1 t2 _. pose proof (ro_runs _ Hok _ _ Hk) as Hr.
  destruct (rk_workers _ _ _ Hr) as (hs & Hh & Hws). pose proof (Hws _ _ Hw) as Hwk.
  pose proof (worker_bound _ _ _ _ _ Hr Hw) as Hi.
  destruct Hwk as [Wl Wc Ws Wh]. pose proof Wc as Wc'. unfold loc_ok in Wc'. rewrite Hloc in Wc'.
  destruct Wc' as (Hlt & Hb & Hneed).
  set (w' := loop_head r (next_seq r (wk_seq w)) t2). set (r' := run_workers <[i := w']> r).
  set (f := SOFrame k (wk_seq w) ch (encodeFrame (wk_seq w) b)).
  assert (Ht2 : statics t2 = statics t ∧ st_gen t2 = st_gen t ∧ st_out t2 = st_out t ++ [f]
    ∧ tb_terminal (st_base t2) = tb_terminal (st_base t) ∧ st_runs t2 = st_runs t).
  { unfold t2, count_sent. destruct (decide _); done. }
  destruct Ht2 as (Hst & Hg & Hout & Hterm & Hruns).
  assert (Hge : 0 ≤ wk_seq w) by (destruct Wl as (q & ? & ->); nia).
  assert (Hfr : frames_of k [f] = [(wk_seq w, ch, encodeFrame (wk_seq w) b)])
    by (cbn; by rewrite decide_True).
  assert (Hnin : wk_seq w ∉ seqs_of k (st_out t)) by (rewrite (Ws _ Wl); lia).
  apply (runs_move t _ k r r' [f]); try done.
  - change (tb_terminal (st_base t) = true → tb_terminal (st_base t2) = true). by rewrite Hterm.
  - intros k' Hne. cbn. by rewrite decide_False by (intros ->; done).
  - intros k' hex Hne Hin%list_elem_of_singleton. done.
  - change (alter (run_workers <[i := w']>) k (st_runs t2) = <[k := r']> (st_runs t)).
    by rewrite Hruns, (alter_insert _ k r).
  - eapply (run_move t _ k r r' hs [] [(wk_seq w, ch, encodeFrame (wk_seq w) b)] [f] i w w');
      try done; cbn [fmap list_fmap app fst]; rewrite ?app_nil_r; try done.
    + by rewrite Hloc.
    + change (tb_terminal (st_base t) = true → tb_terminal (st_base t2) = true). by rewrite Hterm.
    + intros hex Hin%list_elem_of_singleton. done.
    + by apply Forall_singleton.
    + apply Forall_singleton. unfold frame_ok. rewrite Hb. split; [lia|]. split; [done|]. split; [done|].
      by rewrite (lane_mod _ _ _ Hi Wl), Nat2Z.id.
    + apply NoDup_snoc; [exact (rk_nodup _ _ _ Hr)|done].
    + destruct Hh as [Hn Hrg Hu]. constructor; [done|by rewrite (calm_total t)|].
      intros d Hd. rewrite (Hu d Hd). f_equal. unfold chunks_read. apply list_fmap_ext.
      intros _ j _. by rewrite (calm_chunk t (set_worker k i w' t2) j Hst).
    + apply (worker_ok_sim t2 _ r' r' _ _ _ w' w'); [done|done|reflexivity|reflexivity|].
      pose proof (calm_total t t2 Hst) as Htt. clearbody t2.
      apply (next_ok t2 r' r); rewrite ?Htt; try done.
      * intros j Hj. rewrite elem_of_app, (Ws j Hj), list_elem_of_singleton.
        split; [|tauto]. intros [?| ->]; [tauto|auto].
      * intros Hn j Hj. rewrite (Wh j (wk_seq w + 1) Hn); [lia| |done]. unfold hashed_to. by rewrite Hloc.
Qed.

(** The steps of a worker that passed the pause gate, has read its chunk, or may send
    it. *)
Lemma worker_gate_ok k i r w ch t :
  runs_ok t → st_runs t !! k = Some r → ru_workers r !! i = Some w → ru_channels r !! i = Some ch →
  wk_loc w = LGate true →
  runs_ok (if dead r t then set_worker k i (mkWorker (wk_seq w) LDone) t
           else match negb (bool_decide (wk_seq w ∈ ru_have r)), ru_digest r with
                | false, None => set_worker k i (loop_head r (next_seq r (wk_seq w)) t) t
                | _, _ => set_worker k i (mkWorker (wk_seq w) LRead) t
                end).
Proof.
  intros Hok Hk Hw Hch Hloc. pose proof (ro_runs _ Hok _ _ Hk) as Hr. pose proof (worker_bound _ _ _ _ _ Hr Hw) as Hi.
  destruct (dead r t) eqn:Hdead.
  { eapply set_worker_ok; [done..|by rewrite Hloc|]. intros sent hs [Wl Wc Ws Wh].
    unfold loc_ok in Wc. rewrite Hloc in Wc. constructor; [done|by right|done|].
    intros j h Hn. unfold hashed_to. cbn. by rewrite decide_False by lia. }
  assert (runs_ok (set_worker k i (mkWorker (wk_seq w) LRead) t) ∨
          (wk_seq w ∈ ru_have r ∧ ru_digest r = None)) as Hcase.
  { destruct (decide (wk_seq w ∈ ru_have r ∧ ru_digest r = None)) as [|Hx]; [by right|left].
    eapply set_worker_ok; [done..|by rewrite Hloc|]. intros sent hs [Wl Wc Ws Wh].
    unfold loc_ok in Wc. rewrite Hloc in Wc. constructor; try done.
    - split; [done|]. destruct (decide (wk_seq w ∈ ru_have r)); [right; auto|by left].
    - intros j h Hn Hx'. apply Wh; [done|]. unfold hashed_to in *. by rewrite Hloc. }
  destruct (bool_decide_reflect (wk_seq w ∈ ru_have r)) as [Hv|Hv]; cbn [negb];
    [destruct (ru_digest r) eqn:Hd|]; try (destruct Hcase as [|[]]; done).
  eapply set_worker_ok; [done..|by rewrite Hloc|]. intros sent hs [Wl Wc Ws Wh].
  unfold loc_ok in Wc. rewrite Hloc in Wc. apply next_ok; try done.
  intros j Hj. rewrite (Ws j Hj). split; [tauto|]. intros ([?| ->] & ? & ?); tauto.
Qed.

Lemma worker_read_ok ev k i r w ch t :
  runs_ok t → st_runs t !! k = Some r → ru_workers r !! i = Some w → ru_channels r !! i = Some ch →
  wk_loc w = LRead →
  runs_ok (match e_read ev with
           | Some e => worker_throw k i w e t
           | None =>
               match ru_digest r with
               | Some _ => if e_crypto ev then set_worker k i (mkWorker (wk_seq w) (LHash (read_chunk (wk_seq w) t))) t
                           else worker_throw k i w InvalidState t
               | None => set_worker k i (to_drain ev ch (wk_seq w) (read_chunk (wk_seq w) t) t) t
               end
           end).
Proof.
  intros Hok Hk Hw Hch Hloc. pose proof (ro_runs _ Hok _ _ Hk) as Hr. pose proof (worker_bound _ _ _ _ _ Hr Hw) as Hi.
  destruct (e_read ev) as [e|]; [by eapply worker_throw_ok; [done..|rewrite Hloc]|].
  destruct (ru_digest r) as [d|] eqn:Hd; [destruct (e_crypto ev)|].
  + eapply set_worker_ok; [done..|by rewrite Hloc|]. intros sent hs [Wl Wc Ws Wh].
    unfold loc_ok in Wc. rewrite Hloc in Wc. destruct Wc as [Hlt _]. constructor; try done.
    * split; [done|]. split; [done|]. by rewrite Hd.
    * intros j h Hn Hx'. apply Wh; [done|]. unfold hashed_to in *. by rewrite Hloc.
  + by eapply worker_throw_ok; [done..|rewrite Hloc].
  + eapply set_worker_ok; [done..|by rewrite Hloc|]. intros sent hs [Wl Wc Ws Wh].
    unfold loc_ok in Wc. rewrite Hloc in Wc. destruct Wc as [Hlt [Hn|Hn]]; [|by destruct (Hn Hd)].
    constructor; done.
Qed.

Lemma worker_drained_ok ev k i r w ch b t :
  runs_ok t → st_runs t !! k = Some r → ru_workers r !! i = Some w → ru_channels r !! i = Some ch →
  wk_loc w = LDrain b WResolved → runs_ok (send_chunk ev k i r ch (wk_seq w) b t).
Proof.
  intros Hok Hk Hw Hch Hloc. pose proof (ro_runs _ Hok _ _ Hk) as Hr. pose proof (worker_bound _ _ _ _ _ Hr Hw) as Hi.
  unfold send_chunk. destruct (dead r t) eqn:Hdead.
  { eapply set_worker_ok; [done..|by rewrite Hloc|]. intros sent hs [Wl Wc Ws Wh].
    unfold loc_ok in Wc. rewrite Hloc in Wc. destruct Wc as [Hlt _]. constructor; [done|by right|done|].
    intros j h Hn. unfold hashed_to. cbn. by rewrite decide_False by lia. }
  assert (∀ e, runs_ok (worker_throw k i (mkWorker (wk_seq w) LDone) e t)) as Hthrow.
  { intros e. change (worker_throw k i (mkWorker (wk_seq w) LDone) e t) with (worker_throw k i w e t).
    eapply worker_throw_ok; [done..|by rewrite Hloc]. }
  destruct (decide _); [apply Hthrow|]. destruct (e_send_ok ev) eqn:Hsend; cbn [negb]; [|apply Hthrow].
  by eapply (move_send ev).
Qed.

Lemma worker_step_ok ev k i t : runs_ok t → runs_ok (worker_step ev k i t).
Proof.
  intros Hok. unfold worker_step. destruct (st_runs t !! k) as [r|] eqn:Hk; [|done].
  destruct (ru_workers r !! i) as [w|] eqn:Hw; [|done].
  destruct (ru_channels r !! i) as [ch|] eqn:Hch; [|done]. cbv zeta.
  pose proof (ro_runs _ Hok _ _ Hk) as Hr. pose proof (worker_bound _ _ _ _ _ Hr Hw) as Hi.
  destruct (wk_loc w) as [[| |]|[]| |b|b [| |]| |] eqn:Hloc; try exact Hok.
  - (* the channel opened *)
    eapply set_worker_ok; [done..|by rewrite Hloc|]. intros sent hs [Wl Wc Ws Wh].
    apply loop_head_ok; try done. intros Hn j. apply Wh; [done|]. unfold hashed_to. by rewrite Hloc.
  - eapply worker_throw_ok; [done..|by rewrite Hloc].
  - (* the pause gate was passed *)
    by eapply worker_gate_ok.
  - (* the source answered *)
    by eapply worker_read_ok.
  - (* the hash is there *)
    destruct (ru_digest r) as [d|] eqn:Hd; [|done].
    destruct (bool_decide_reflect (wk_seq w ∈ ru_have r)) as [Hv|Hv]; cbn [negb].
    + change (loop_head r (next_seq r (wk_seq w)) (set_digest k (update (wk_seq w) b d) t))
        with (loop_head r (next_seq r (wk_seq w)) t).
      eapply (move_hash _ _ _ _ _ _ _ _ WPending); [done..|]. by rewrite bool_decide_eq_true_2.
    + eapply move_hash; [done..|]. by rewrite bool_decide_eq_false_2.
  - (* the channel drained *)
    by eapply worker_drained_ok.
  - eapply worker_throw_ok; [done..|by rewrite Hloc].
Qed.

(** * The other moves of a run *)

Lemma start_run_ok have gen t :
  runs_ok t → (∀ k r, st_runs t !! k = Some r → ru_gen r < gen) → gen ≤ st_gen t →
  runs_ok (start_run have gen t).
Proof.
  intros Hok Hgen Hle. unfold start_run. cbv zeta.
  set (t1 := if decide (state t = Accepted) then _ else t).
  assert (calm t t1) as H1 by (unfold t1; destruct (decide _); [apply calm_transition|reflexivity]).
  destruct (decide (state t1 ≠ Active)); [by eapply calm_ok|].
  set (t2 := if st_pendingPause t1 then _ else t1).
  assert (calm t t2) as H2.
  { etrans; [exact H1|]. unfold t2. destruct (st_pendingPause t1); [|reflexivity].
    etrans; [|apply calm_transition]. by apply calm_same. }
  clearbody t2. pose proof (calm_ok _ _ H2 Hok) as [O1 O2 O3 O4].
  assert (Hgen2 : ∀ k r, st_runs t2 !! k = Some r → ru_gen r < gen).
  { intros k r' Hk. destruct (Forall2_lookup_r _ _ _ _ _ (calm_runs _ _ H2) Hk) as (r & Hk' & Hsim).
    rewrite (rs_gen _ _ Hsim). eauto. }
  pose proof (calm_gen _ _ H2) as Hg2.
  set (new := mkRun gen have _ _ _ None RWorkers).
  set (t3 := su_runs (st_runs t2 ++ [new]) t2).
  assert (Hlk : ∀ k r, st_runs t3 !! k = Some r →
    st_runs t2 !! k = Some r ∨ (k = length (st_runs t2) ∧ r = new)).
  { intros k r [|[Hk Hx]]%lookup_app_Some; [by left|].
    right. apply list_lookup_singleton_Some in Hx as [Hx ->]. split; [lia|done]. }
  constructor.
  - intros k r [Hk|[-> ->]]%Hlk.
    { apply (still_run t2 t3 k r r []); try done;
        [by rewrite app_nil_r|intros hex; apply not_elem_of_nil|auto]. }
    assert (Hfr : frames_of (length (st_runs t2)) (st_out t3) = []) by (apply O3; lia).
    assert (Hsq : seqs_of (length (st_runs t2)) (st_out t3) = []) by (unfold seqs_of; by rewrite Hfr).
    constructor.
    + cbn. by rewrite length_imap.
    + cbn. lia.
    + cbn. by destruct (sp_checksum (st_params t2)).
    + by rewrite Hfr.
    + rewrite Hsq. constructor.
    + exists []. split.
      { constructor; [constructor|by constructor|]. cbn. by destruct (sp_checksum _); intros d [= <-]. }
      rewrite Hsq. cbn. intros i w. rewrite list_lookup_imap.
      intros (ch & Hch & ->)%fmap_Some. constructor; [apply lane_start|done| |].
      * intros j (q & Hq & ->). split; [by intros ?%elem_of_nil|]. intros [Hx _]. cbn [wk_seq] in Hx.
        assert (0 ≤ q * stride new) by (apply Z.mul_nonneg_nonneg; unfold stride; lia). lia.
      * intros j h _ [= <-] (q & Hq & ->). split; [by intros ?%elem_of_nil|]. intros [Hx _].
        cbn [wk_seq] in Hx.
        assert (0 ≤ q * stride new) by (apply Z.mul_nonneg_nonneg; unfold stride; lia). lia.
    + done.
    + intros hex Hin%O4. lia.
  - intros k k' r r' [Hk|[-> ->]]%Hlk [Hk'|[-> ->]]%Hlk Hlt; [eauto| | |lia].
    + apply Hgen2 in Hk. done.
    + apply lookup_lt_Some in Hk'. lia.
  - intros k. cbn. rewrite length_app. intros Hk. apply O3. lia.
  - intros k hex Hin%O4. cbn. rewrite length_app. lia.
Qed.

Lemma begin_ok have t : runs_ok t → runs_ok (begin have t).
Proof.
  intros Hok. unfold begin. cbv zeta.
  assert (Hgo : ∀ t1, calm t t1 → runs_ok (start_run have (st_gen t1 + 1) (su_gen (st_gen t1 + 1) t1))).
  { intros t1 H1. assert (calm t (su_gen (st_gen t1 + 1) t1)) as H2.
    { etrans; [exact H1|]. by calm_fields. }
    apply start_run_ok; [by eapply calm_ok| |cbn; lia].
    intros k r Hk. pose proof (rk_gen _ _ _ (ro_runs _ (calm_ok _ _ H1 Hok) _ _ Hk)). lia. }
  pose proof (calm_clear t) as H0. destruct (decide _); [|destruct (decide _)].
  - pose proof (calm_transition Accepted (clearOfferTimer t)) as H1.
    destruct (transitionTo _ _) as [t1 []]; [apply Hgo|eapply calm_ok; [|done]]; by etrans.
  - assert (calm t (su_interrupted false (clearOfferTimer t))) as H1 by (by etrans; [|apply calm_same]).
    pose proof (calm_applyResume (su_interrupted false (clearOfferTimer t))) as H2.
    destruct (applyResume _) as [t1 []]; [apply Hgo|eapply calm_ok; [|done]]; by etrans.
  - by eapply calm_ok.
Qed.

Lemma st_handleControl_ok m t : runs_ok t → runs_ok (st_handleControl m t).
Proof.
  intros Hok. unfold st_handleControl. cbv zeta. pose proof (calm_clear t) as H0.
  pose proof (calm_ok _ _ H0 Hok) as Hok0.
  destruct m; try exact Hok0; try (by apply begin_ok);
    try (eapply calm_ok; [|exact Hok0]; first [apply calm_fail|apply calm_applyPause|apply calm_applyResume|apply calm_mark]).
  pose proof (calm_transition Completed (clearOfferTimer t)) as H1.
  destruct (transitionTo _ _) as [t1 []]; eapply calm_ok; [|exact Hok0|exact H1|exact Hok0].
  etrans; [exact H1|apply calm_emit].
Qed.

Lemma run_done t k r :
  run_ok t k r → forallb is_done (ru_workers r) = true → dead r t = false →
  Forall (finished t) (ru_workers r).
Proof.
  intros Hr Hall Hd. destruct (rk_workers _ _ _ Hr) as (hs & _ & Hws).
  apply Forall_lookup. intros i w Hw. destruct (Hws _ _ Hw) as [_ Hloc _ _].
  rewrite forallb_forall in Hall. specialize (Hall w (proj1 (list_elem_of_In _ _) (list_elem_of_lookup_2 _ _ _ Hw))).
  unfold is_done in Hall. unfold loc_ok in Hloc. destruct (wk_loc w) eqn:El; try done.
  split; [done|]. destruct Hloc as [|Hloc]; [done|]. congruence.
Qed.

Lemma finalize_phase_ok t k r :
  runs_ok t → st_runs t !! k = Some r → ru_phase r = RWorkers → Forall (finished t) (ru_workers r) →
  runs_ok (set_phase k RFinalize t).
Proof.
  intros Hok Hk Hp Hf. unfold set_phase.
  set (r' := mkRun (ru_gen r) (ru_have r) (ru_digest r) (ru_channels r) (ru_workers r) (ru_rejected r) RFinalize).
  apply (runs_move t _ k r r' []); try done.
  - by rewrite app_nil_r.
  - intros. apply not_elem_of_nil.
  - cbn. by rewrite (alter_insert _ k r).
  - destruct (ro_runs _ Hok _ _ Hk) as [O1 O2 O3 O4 O5 (hs & [Hn Hrg Hu] & Hws) _ O8].
    constructor; try done.
    + exists hs. split; [by constructor|]. intros i w Hw. destruct (Hws _ _ Hw). by constructor.
    + intros hex Hin. destruct (O8 hex Hin) as (Hx & _). congruence.
Qed.

(** The announcement of a run that has ended. *)
Lemma announce_ok k hex t r :
  runs_ok t → st_runs t !! k = Some r → ru_phase r = REnd → Forall (finished t) (ru_workers r) →
  hex = (d ← ru_digest r; finalize d) → runs_ok (announce k hex t).
Proof.
  intros Hok Hk Hp Hf Hhex. unfold announce. pose proof (calm_transition Completing t) as Hc.
  pose proof (calm_ok _ _ Hc Hok) as Hok1.
  destruct (Forall2_lookup_l _ _ _ _ _ (calm_runs _ _ Hc) Hk) as (r1 & Hk1 & Hsim).
  destruct (transitionTo Completing t) as [t1 moved]. cbn [fst] in *.
  unfold safeControl. destruct (st_control_up t1); [|eapply calm_ok; [apply calm_fail|done]].
  assert (Hp1 : ru_phase r1 = REnd) by (destruct (rs_phase _ _ Hsim); congruence).
  assert (Hf1 : Forall (finished t1) (ru_workers r1)).
  { eapply finished_all; [apply (calm_statics _ _ Hc)|apply (rs_workers _ _ Hsim)|done]. }
  apply (runs_move t1 _ k r1 r1 [SOSent k hex]); try done.
  - intros k' hex' Hne [= -> _]%list_elem_of_singleton. done.
  - cbn. by rewrite list_insert_id.
  - destruct (ro_runs _ Hok1 _ _ Hk1) as [O1 O2 O3 O4 O5 (hs & [Hn Hrg Hu] & Hws) O7 O8].
    assert (Hfr : frames_of k (st_out (st_emit_out (SOSent k hex) t1)) = frames_of k (st_out t1))
      by (unfold st_emit_out, su_out; cbn [st_out]; by rewrite frames_of_app, app_nil_r).
    assert (Hsq : seqs_of k (st_out (st_emit_out (SOSent k hex) t1)) = seqs_of k (st_out t1))
      by (unfold seqs_of; by rewrite Hfr).
    constructor; try done.
    + by rewrite Hfr.
    + by rewrite Hsq.
    + exists hs. split; [by constructor|]. intros i w Hw. rewrite Hsq. destruct (Hws _ _ Hw). by constructor.
    + intros hex'. cbn. intros [Hin|[= ->]%list_elem_of_singleton]%elem_of_app; [by apply O8|].
      split; [done|]. split; [done|]. by rewrite (rs_digest _ _ Hsim).
Qed.

Lemma set_phase_lookup k p t r : st_runs t !! k = Some r →
  st_runs (set_phase k p t) !! k
  = Some (mkRun (ru_gen r) (ru_have r) (ru_digest r) (ru_channels r) (ru_workers r) (ru_rejected r) p).
Proof. intros Hk. cbn. by rewrite list_lookup_alter_eq, Hk. Qed.

Lemma run_joined_ok k t : runs_ok t → runs_ok (run_joined k t).
Proof.
  intros Hok. unfold run_joined.
  destruct (st_runs t !! k) as [[gen have digest chans workers [] []]|] eqn:Hk; try exact Hok.
  set (r := mkRun gen have digest chans workers None RWorkers) in *.
  destruct (forallb is_done workers) eqn:Hall; [|done]. cbv zeta.
  destruct (dead r t) eqn:Hdead; [eapply calm_ok; [apply calm_phase_end|done]|].
  pose proof (run_done t k r (ro_runs _ Hok _ _ Hk) Hall Hdead) as Hf.
  destruct digest as [d|]; [by eapply finalize_phase_ok|].
  eapply announce_ok; [eapply calm_ok; [apply calm_phase_end|done]|by apply set_phase_lookup|done|exact Hf|done].
Qed.

Lemma run_finalized_ok crypto k t : runs_ok t → runs_ok (run_finalized crypto k t).
Proof.
  intros Hok. unfold run_finalized.
  destruct (st_runs t !! k) as [[gen have [d|] chans workers [] []]|] eqn:Hk; try exact Hok.
  set (r := mkRun gen have (Some d) chans workers None RFinalize) in *.
  pose proof (rk_final _ _ _ (ro_runs _ Hok _ _ Hk) eq_refl) as Hf.
  assert (runs_ok (su_runs (alter (λ r, mkRun gen have (Some d) chans workers (Some InvalidState) RFinalize)
                     k (st_runs t)) t)) as Hrej.
  { set (r' := mkRun gen have (Some d) chans workers (Some InvalidState) RFinalize).
    apply (runs_move t _ k r r' []); try done.
    - by rewrite app_nil_r.
    - intros. apply not_elem_of_nil.
    - cbn. by rewrite (alter_insert _ k r).
    - destruct (ro_runs _ Hok _ _ Hk) as [O1 O2 O3 O4 O5 (hs & [Hn Hrg Hu] & Hws) O7 O8].
      constructor; try done. exists hs. split; [by constructor|]. intros i w Hw.
      destruct (Hws _ _ Hw). by constructor. }
  destruct crypto; [|done]. destruct (finalize d) as [hex|] eqn:Ed; [|done].
  eapply announce_ok; [eapply calm_ok; [apply calm_phase_end|done]|by apply set_phase_lookup|done|exact Hf|].
  cbn. by rewrite Ed.
Qed.

Lemma run_caught_calm k t : calm t (run_caught k t).
Proof.
  unfold run_caught.
  destruct (st_runs t !! k) as [[gen have digest chans workers [e|] []]|] eqn:Hk; try reflexivity; cbv zeta;
    (etrans; [apply (calm_phase_end k)|]; destruct (decide _); [reflexivity|];
     destruct (_ && _); [apply calm_interrupt|apply calm_fail]).
Qed.

Lemma wake_sim ch ev r : rsim r (wake ch ev r).
Proof.
  constructor; try done; [|by left]. cbn. apply Forall2_same_length_lookup_2; [by rewrite length_imap|].
  intros i w w' Hw. rewrite list_lookup_imap, Hw. intros [= <-].
  destruct (decide _); [|reflexivity]. destruct w as [s [[]| | | |b []| |]]; try reflexivity; done.
Qed.

Lemma channel_event_calm ch ev t : calm t (channel_event_step ch ev t).
Proof.
  unfold channel_event_step. cbv zeta.
  assert (Hw : ∀ t1, calm t1 (su_runs (wake ch ev <$> st_runs t1) t1)).
  { intros t1. calm_fields. cbn. apply Forall2_fmap_r, Forall_Forall2_diag, Forall_true.
    intros r. apply wake_sim. }
  destruct ev; (etrans; [|apply Hw]); try reflexivity; by apply calm_same.
Qed.

Lemma st_step_ok a t : runs_ok t → runs_ok (st_step t a).
Proof.
  intros Hok. destruct a; cbn [st_step];
    first [by apply st_handleControl_ok|by apply worker_step_ok|by apply run_joined_ok
          |by apply run_finalized_ok|eapply calm_ok; [|exact Hok]].
  - apply calm_start.
  - apply calm_reoffer.
  - apply calm_timeout.
  - apply calm_pause.
  - apply calm_resume.
  - apply calm_cancel.
  - apply run_caught_calm.
  - apply channel_event_calm.
  - by apply calm_same.
  - by apply calm_same.
Qed.

Lemma st_run_ok as_ t : runs_ok t → runs_ok (st_run as_ t).
Proof. revert t. induction as_ as [|a as_ IH]; intros t Hok; [done|]. by apply IH, st_step_ok. Qed.

Lemma new_ok id peer p chans cs : runs_ok (newSend id peer p chans cs).
Proof.
  constructor; cbn.
  - intros k r. by rewrite lookup_nil.
  - intros k k' r r'. by rewrite lookup_nil.
  - done.
  - intros k hex ?%elem_of_nil. done.
Qed.
End moves.
