(* ===== verification/SendTheorems.v ===== *)
(** What a sender guarantees: each chunk once per run, one run at a time,
    progress within the file. *)

From S2P Require Import Prelude JsMap Uint8Array Framing Checksum Sink Transfer Schema Control Reassembly SendTransfer SendLemmas SendInvariant.

Section outputs.
Context `{SubtleCrypto}.
Implicit Types (t : SendTransfer) (r : Run).

(** * What a step sends and counts *)

(** A frame leaves only from a live run, on an open channel. *)
Definition guarded t (o : st_output) : Prop :=
  match o with
  | SOFrame k _ ch _ => ∃ r, st_runs t !! k = Some r ∧ dead r t = false ∧ ready_of ch t = Open
  | _ => True
  end.

(** A chunk is counted when it is first sent. *)
Record sends t t' : Prop := {
  sends_statics : statics t' = statics t;
  sends_out : ∃ l, st_out t' = st_out t ++ l ∧ Forall (guarded t) l;
  sends_counts : counts t' = counts t ∨ ∃ k seq, (seq ∉ st_sentSeqs t) ∧ seq ∈ seqs_of k (st_out t') ∧
    counts t' = (tb_transferredBytes (st_base t) + chunk_length seq t,
                 tb_transferredChunks (st_base t) + 1, st_sentSeqs t ++ [seq]);
  sends_ids : ids t' = ids t;
}.

(** Steps without a frame. *)
Definition unsent (o : st_output) : Prop := match o with SOFrame _ _ _ _ => False | _ => True end.
Record silent t t' : Prop := {
  silent_statics : statics t' = statics t;
  silent_counts : counts t' = counts t;
  silent_out : ∃ l, st_out t' = st_out t ++ l ∧ Forall unsent l;
  silent_ids : ids t' = ids t;
}.

#[export] Instance silent_preorder : PreOrder silent.
Proof.
  split.
  - intros t. constructor; try done. exists []. by rewrite app_nil_r.
  - intros t1 t2 t3 [Hs Hc (l & Ho & Hl) Hi] [Hs' Hc' (l' & Ho' & Hl') Hi'].
    constructor; [congruence..| |congruence].
    exists (l ++ l'). split; [by rewrite Ho', Ho, app_assoc|by apply Forall_app].
Qed.

Lemma calm_silent t t' : calm t t' → silent t t'.
Proof.
  intros [Hs Hc _ _ _ (l & Ho & Hl) Hi]. constructor; [done..| |done].
  exists l. split; [done|]. eapply Forall_impl; [exact Hl|]. by intros [].
Qed.

Lemma silent_same t t' :
  statics t' = statics t → counts t' = counts t → st_out t' = st_out t → ids t' = ids t → silent t t'.
Proof. intros Hs Hc Ho Hi. constructor; [done..| |done]. exists []. by rewrite app_nil_r. Qed.

Lemma silent_sends t t' : silent t t' → sends t t'.
Proof.
  intros [Hs Hc (l & Ho & Hl) Hi]. constructor; [done| |by left|done].
  exists l. split; [done|]. eapply Forall_impl; [exact Hl|]. by intros [].
Qed.

Lemma start_run_silent have gen t : silent t (start_run have gen t).
Proof.
  unfold start_run. cbv zeta. set (t1 := if decide (state t = Accepted) then _ else t).
  trans t1; [unfold t1; destruct (decide _); [apply calm_silent, calm_transition|reflexivity]|].
  destruct (decide (state t1 ≠ Active)); [reflexivity|]. set (t2 := if st_pendingPause t1 then _ else t1).
  trans t2; [|by apply silent_same]. unfold t2. destruct (st_pendingPause t1); [|reflexivity].
  etrans; [|apply calm_silent, calm_transition]. by apply silent_same.
Qed.

Lemma begin_silent have t : silent t (begin have t).
Proof.
  unfold begin. cbv zeta. trans (clearOfferTimer t); [by apply silent_same|].
  assert (Hgo : ∀ t1, silent t1 (start_run have (st_gen t1 + 1) (su_gen (st_gen t1 + 1) t1))).
  { intros t1. etrans; [|apply start_run_silent]. by apply silent_same. }
  destruct (decide _); [|destruct (decide _); [|reflexivity]].
  - pose proof (calm_transition Accepted (clearOfferTimer t)) as H1%calm_silent.
    destruct (transitionTo _ _) as [t1 []]; [|done]. by etrans.
  - trans (su_interrupted false (clearOfferTimer t)); [by apply silent_same|].
    pose proof (calm_applyResume (su_interrupted false (clearOfferTimer t))) as H1%calm_silent.
    destruct (applyResume _) as [t1 []]; [|done]. by etrans.
Qed.

Lemma handleControl_silent m t : silent t (st_handleControl m t).
Proof.
  unfold st_handleControl. cbv zeta. trans (clearOfferTimer t); [by apply silent_same|].
  destruct m; try reflexivity; try apply begin_silent; try apply calm_silent;
    first [apply calm_fail|apply calm_applyPause|apply calm_applyResume|apply calm_mark|idtac].
  pose proof (calm_transition Completed (clearOfferTimer t)) as H1.
  destruct (transitionTo _ _) as [t1 []]; [|done]. etrans; [exact H1|apply calm_emit].
Qed.

Lemma announce_silent k hex t : silent t (announce k hex t).
Proof.
  unfold announce. trans (transitionTo Completing t).1; [apply calm_silent, calm_transition|].
  unfold safeControl. destruct (st_control_up _); [|apply calm_silent, calm_fail].
  constructor; try done. exists [SOSent k hex]. split; [done|]. by apply Forall_singleton.
Qed.

Lemma run_joined_silent k t : silent t (run_joined k t).
Proof.
  unfold run_joined. destruct (st_runs t !! k) as [[? ? [d|] ? ? [] []]|]; try reflexivity;
    (destruct (forallb _ _); [|reflexivity]; cbv zeta; destruct (dead _ _); [by apply silent_same|]);
    [by apply silent_same|].
  etrans; [|apply announce_silent]. by apply silent_same.
Qed.

Lemma run_finalized_silent crypto k t : silent t (run_finalized crypto k t).
Proof.
  unfold run_finalized. destruct (st_runs t !! k) as [[? ? [d|] ? ? [] []]|]; try reflexivity.
  destruct crypto; [|by apply silent_same]. destruct (finalize d); [|by apply silent_same].
  etrans; [|apply announce_silent]. by apply silent_same.
Qed.

Lemma worker_step_sends ev k i t : sends t (worker_step ev k i t).
Proof.
  assert (Hw : ∀ w, sends t (set_worker k i w t)) by (intros; by apply silent_sends, silent_same).
  assert (Ht : ∀ w e, sends t (worker_throw k i w e t)) by (intros; by apply silent_sends, silent_same).
  unfold worker_step. destruct (st_runs t !! k) as [r|] eqn:Hk; [|by apply silent_sends].
  destruct (ru_workers r !! i) as [w|]; [|by apply silent_sends].
  destruct (ru_channels r !! i) as [ch|]; [|by apply silent_sends]. cbv zeta.
  destruct (wk_loc w) as [[| |]|[]| |b|b [| |]| |]; auto; try (by apply silent_sends).
  - destruct (dead r t); [auto|]. destruct (negb _), (ru_digest r); auto.
  - destruct (e_read ev); [auto|]. destruct (ru_digest r); [destruct (e_crypto ev)|]; auto.
  - destruct (ru_digest r); [|by apply silent_sends]. destruct (negb _); by apply silent_sends, silent_same.
  - unfold send_chunk. destruct (dead r t) eqn:Hd; [auto|]. destruct (decide _) as [|Hop]; [auto|].
    destruct (negb (e_send_ok ev)); [auto|]. cbv zeta.
    set (f := SOFrame k (wk_seq w) ch (encodeFrame (wk_seq w) b)).
    set (t1 := st_emit_out f t).
    assert (Hseq : wk_seq w ∈ seqs_of k (st_out t1)).
    { unfold t1, st_emit_out, su_out. cbn [st_out]. rewrite seqs_of_app. apply elem_of_app. right.
      unfold seqs_of, f. cbn. rewrite decide_True by done. cbn. by left. }
    constructor.
    + cbn. unfold count_sent. by destruct (decide _).
    + exists [f]. split; [unfold count_sent; by destruct (decide _)|]. apply Forall_singleton.
      exists r. split; [done|]. split; [done|]. by destruct (decide (ready_of ch t = Open)).
    + unfold count_sent. destruct (decide _) as [|Hn]; [by left|right].
      exists k, (wk_seq w). split; [exact Hn|]. split; [exact Hseq|done].
    + unfold count_sent. by destruct (decide _).
Qed.

Lemma st_step_sends a t : sends t (st_step t a).
Proof.
  destruct a; cbn [st_step]; try apply worker_step_sends; apply silent_sends;
    first [apply handleControl_silent|apply run_joined_silent|apply run_finalized_silent|apply calm_silent].
  - apply calm_start.
  - apply calm_reoffer.
  - apply calm_timeout.
  - apply calm_pause.
  - apply calm_resume.
  - apply calm_cancel.
  - apply run_caught_calm.
  - apply channel_event_calm.
  - by apply calm_same.
  - by apply calm_same.
Qed.

Lemma st_step_ids a t : ids (st_step t a) = ids t.
Proof. apply (sends_ids _ _ (st_step_sends a t)). Qed.

Lemma st_run_statics as_ t : statics (st_run as_ t) = statics t.
Proof.
  revert t. induction as_ as [|a as_ IH]; intros t; [done|]. unfold st_run. rewrite fold_left_cons.
  etrans; [apply IH|apply (sends_statics _ _ (st_step_sends a t))].
Qed.
End outputs.

(** * Each chunk once *)

(** The chunk [j] of a source, and how many there are. *)
Definition source_chunk (s : FileSource) (cs j : Z) : bytes :=
  fs_slice s (j * cs) (Z.min cs (fs_size s - j * cs)).
Definition source_chunks (s : FileSource) (cs : Z) : list (Z * bytes) :=
  (λ j, (j, source_chunk s cs j)) <$> seqZ 0 (ceil_div (fs_size s) cs).

Section theorems.
Context `{SubtleCryptoLaws}.
Implicit Types (t : SendTransfer) (r : Run).

Section transfer.
Context (id peer : jsstr) (p : SendParams) (chans : list Z) (cs : Z).
Abbreviation source := (sp_source p).
Abbreviation total := (ceil_div (fs_size source) cs).

Lemma run_statics as_ (t := st_run as_ (newSend id peer p chans cs)) :
  st_params t = p ∧ st_totalChunks t = total ∧ st_size t = fs_size source ∧ st_chunkSize t = cs
  ∧ (∀ j, read_chunk j t = source_chunk source cs j).
Proof.
  pose proof (st_run_statics as_ (newSend id peer p chans cs)) as Hs. fold t in Hs. clearbody t.
  unfold statics in Hs. cbn in Hs. injection Hs as Hp Hm Hc Ht.
  unfold st_totalChunks, st_size, st_chunkSize, read_chunk, chunk_length, st_chunkSize, st_size.
  rewrite Hp, Hm, Hc, Ht. done.
Qed.

Lemma run_inv as_ : runs_ok (st_run as_ (newSend id peer p chans cs)).
Proof. apply st_run_ok, new_ok. Qed.

(** All the lanes together are all the chunks. *)
Lemma run_complete t k r (P : list Z) :
  run_ok t k r → ru_channels r ≠ [] → Forall (finished t) (ru_workers r) →
  (∀ i w j, ru_workers r !! i = Some w → lane (stride r) (Z.of_nat i) j →
     0 ≤ j < st_totalChunks t → st_totalChunks t ≤ wk_seq w → wk_loc w = LDone → j ∈ P) →
  ∀ j, 0 ≤ j < st_totalChunks t → j ∈ P.
Proof.
  intros Hr Hne Hf HP j Hj.
  assert (0 < stride r) as Hn by (unfold stride; destruct (ru_channels r); [done|cbn; lia]).
  pose proof (Z.mod_pos_bound j _ Hn) as Hm. set (i := Z.to_nat (j mod stride r)).
  assert (∃ w, ru_workers r !! i = Some w) as [w Hw].
  { apply lookup_lt_is_Some. rewrite (rk_len _ _ _ Hr). unfold i, stride in *. lia. }
  rewrite Forall_lookup in Hf. destruct (Hf _ _ Hw) as [Hd Ht].
  apply (HP i w j Hw); [|done..]. unfold i. rewrite Z2Nat.id by lia. apply lane_of; lia.
Qed.

Lemma send_once as_ k r :
  let t := st_run as_ (newSend id peer p chans cs) in
  st_runs t !! k = Some r →
  NoDup (seqs_of k (st_out t))
  ∧ Forall (λ '(seq, ch, data), 0 ≤ seq < total ∧ (seq ∉ ru_have r)
       ∧ data = encodeFrame seq (source_chunk source cs seq)
       ∧ ru_channels r !! Z.to_nat (seq mod Z.of_nat (length (ru_channels r))) = Some ch)
      (frames_of k (st_out t))
  ∧ ∀ hex, SOSent k hex ∈ st_out t → ru_channels r ≠ [] →
      (∀ j, 0 ≤ j < total → (j ∉ ru_have r) → j ∈ seqs_of k (st_out t))
      ∧ hex = (if sp_checksum p then finalize (updates (source_chunks source cs) newDigest) else None).
Proof.
  intros t Hk. pose proof (run_inv as_) as Hok. destruct (run_statics as_) as (Hp & Ht & _ & _ & Hc).
  fold t in Hok, Hp, Ht, Hc. clearbody t.
  pose proof (ro_runs _ Hok _ _ Hk) as Hr. destruct (rk_workers _ _ _ Hr) as (hs & Hh & Hws).
  split; [exact (rk_nodup _ _ _ Hr)|]. split.
  { eapply Forall_impl; [exact (rk_frames _ _ _ Hr)|]. intros [[seq ch] data].
    unfold frame_ok. by rewrite Ht, Hc. }
  intros hex Hin Hne. destruct (rk_sent _ _ _ Hr hex Hin) as (_ & Hf & ->). split.
  - intros j Hj Hni. rewrite <- Ht in Hj. destruct (decide (j ∈ seqs_of k (st_out t))); [done|].
    apply (run_complete t k r (seqs_of k (st_out t) ++ ru_have r) Hr Hne Hf) in Hj;
      [by apply elem_of_app in Hj as [|]|].
    intros i w j' Hw Hl Hj' Hle _. apply elem_of_app.
    destruct (decide (j' ∈ ru_have r)); [by right|left]. apply (wo_sent _ _ _ _ _ _ (Hws _ _ Hw) j' Hl).
    split; [lia|]. split; [lia|done].
  - pose proof (rk_checksum _ _ _ Hr) as Hck. rewrite Hp in Hck.
    destruct (ru_digest r) as [d|] eqn:Hd; cbn [mbind option_bind].
    2:{ destruct (sp_checksum p); [|done]. by destruct (proj2 Hck eq_refl). }
    rewrite (proj1 Hck) by done. destruct Hh as [Hnd Hrg Hu]. rewrite (Hu d Hd).
    assert (Hall : ∀ j, 0 ≤ j < st_totalChunks t → j ∈ hs).
    { apply (run_complete t k r hs Hr Hne Hf). intros i w j Hw Hl Hj Hle Hdone.
      apply (wo_hashed _ _ _ _ _ _ (Hws _ _ Hw) j (wk_seq w)); [by rewrite Hd| |done|lia].
      unfold hashed_to. by rewrite Hdone, decide_True. }
    assert (Hperm : hs ≡ₚ seqZ 0 total).
    { apply NoDup_Permutation; [done|apply NoDup_seqZ|]. intros j. rewrite elem_of_seqZ.
      rewrite Forall_forall in Hrg. split; [intros Hj; specialize (Hrg j Hj); lia|].
      intros Hj. apply Hall. lia. }
    apply finalize_perm; unfold chunks_read, source_chunks.
    + rewrite <- list_fmap_compose. by rewrite list_fmap_id.
    + rewrite Hperm. apply Permutation_refl'. apply list_fmap_ext. intros _ j _. by rewrite Hc.
Qed.

(** C6: A run never sends a chunk twice, nor one the receiver has, and every frame is
    the chunk of the source its number says, on the channel its lane belongs to,
    whatever happens in between: pauses, other runs, closing channels, failing
    reads.  When a run announces that it has sent the file, every chunk the
    receiver lacked was sent, and the digest is that of all the chunks. *)
Theorem send_exactly_once as_ k r :
  let t := st_run as_ (newSend id peer p chans cs) in
  st_runs t !! k = Some r →
  NoDup (seqs_of k (st_out t))
  ∧ Forall (λ '(seq, ch, data), 0 ≤ seq < total ∧ (seq ∉ ru_have r)
       ∧ data = encodeFrame seq (source_chunk source cs seq)
       ∧ ru_channels r !! Z.to_nat (seq mod Z.of_nat (length (ru_channels r))) = Some ch)
      (frames_of k (st_out t))
  ∧ ∀ hex, SOSent k hex ∈ st_out t → ru_channels r ≠ [] →
      (∀ j, 0 ≤ j < total → (j ∉ ru_have r) → j ∈ seqs_of k (st_out t))
      ∧ hex = (if sp_checksum p then finalize (updates (source_chunks source cs) newDigest) else None).
Proof. apply send_once. Qed.

(** * One run at a time *)

(** Only the newest run sends, and only while the transfer is not over: a run that
    a resume has superseded, or that outlives its transfer, never sends again. *)
Theorem send_single_run as_ a k seq ch data :
  let t := st_run as_ (newSend id peer p chans cs) in
  SOFrame k seq ch data ∈ drop (length (st_out t)) (st_out (st_step t a)) →
  isTerminal t = false ∧ Datatypes.S k = length (st_runs t) ∧ ready_of ch t = Open.
Proof.
  intros t Hin. pose proof (run_inv as_) as Hok. fold t in Hok. clearbody t.
  destruct (sends_out _ _ (st_step_sends a t)) as (l & Ho & Hl). rewrite Ho, drop_app_length in Hin.
  rewrite Forall_forall in Hl. destruct (Hl _ Hin) as (r & Hk & Hd & Hop).
  unfold dead in Hd. apply orb_false_iff in Hd as [Ht Hg]. split; [done|]. split; [|done].
  apply negb_false_iff, bool_decide_eq_true in Hg. pose proof (lookup_lt_Some _ _ _ Hk).
  destruct (decide (Datatypes.S k = length (st_runs t))) as [|Hne]; [done|exfalso].
  destruct (lookup_lt_is_Some_2 (st_runs t) (Datatypes.S k)) as [r' Hk']; [lia|].
  pose proof (ro_gens _ Hok _ _ _ _ Hk Hk' ltac:(lia)).
  pose proof (rk_gen _ _ _ (ro_runs _ Hok _ _ Hk')). lia.
Qed.

(** * Progress *)

Definition sum_lengths t (l : list Z) : Z := foldr (λ j a, chunk_length j t + a) 0 l.

Record counts_ok t : Prop := {
  ct_nodup : NoDup (st_sentSeqs t);
  ct_range : Forall (λ j, 0 ≤ j < st_totalChunks t) (st_sentSeqs t);
  ct_chunks : tb_transferredChunks (st_base t) = Z.of_nat (length (st_sentSeqs t));
  ct_bytes : tb_transferredBytes (st_base t) = sum_lengths t (st_sentSeqs t);
}.

Lemma sum_lengths_statics t t' l : statics t' = statics t → sum_lengths t' l = sum_lengths t l.
Proof.
  intros Hs. assert (∀ j, chunk_length j t' = chunk_length j t) as Hc.
  { intros j. unfold statics in Hs. injection Hs as _ Hm Hcs _.
    unfold chunk_length, st_chunkSize, st_size. by rewrite Hm, Hcs. }
  unfold sum_lengths. induction l as [|j l IH]; [done|]. cbn. by rewrite IH, Hc.
Qed.

Lemma sum_lengths_snoc t l j : sum_lengths t (l ++ [j]) = sum_lengths t l + chunk_length j t.
Proof. unfold sum_lengths. induction l as [|i l IH]; cbn; [lia|]. rewrite IH. lia. Qed.

Lemma counts_step t t' : runs_ok t' → sends t t' → counts_ok t → counts_ok t'.
Proof.
  intros Hok [Hs _ Hc] [C1 C2 C3 C4]. pose proof (calm_total _ _ Hs) as Htot.
  destruct Hc as [Hc|(k & seq & Hn & Hin & Hc)]; unfold counts in Hc; injection Hc as Hb Hk Hl.
  - constructor; rewrite ?Hl, ?Htot, ?Hk, ?Hb; try done. by rewrite (sum_lengths_statics t t').
  - assert (0 ≤ seq < st_totalChunks t') as Hr.
    { destruct (decide (k < length (st_runs t'))%nat) as [Hlt|Hge].
      - apply lookup_lt_is_Some in Hlt as [r Hr]. pose proof (rk_frames _ _ _ (ro_runs _ Hok _ _ Hr)) as Hf.
        apply list_elem_of_fmap in Hin as ([s ch] & Es & Hin).
        apply list_elem_of_fmap in Hin as ([[s' ch'] d] & Es' & Hin). cbn in Es, Es'. simplify_eq.
        rewrite Forall_forall in Hf. apply (Hf _ Hin).
      - unfold seqs_of in Hin. rewrite (ro_frames _ Hok) in Hin by lia. by apply elem_of_nil in Hin. }
    constructor; rewrite ?Hl, ?Hk, ?Hb.
    + by apply NoDup_snoc.
    + apply Forall_app. split; [by rewrite Htot|by apply Forall_singleton].
    + rewrite length_app. cbn. lia.
    + by rewrite (sum_lengths_statics t t'), sum_lengths_snoc, C4.
Qed.

Lemma counts_run as_ t : runs_ok t → counts_ok t → counts_ok (st_run as_ t).
Proof.
  revert t. induction as_ as [|a as_ IH]; intros t Hok Hc; [done|]. unfold st_run. rewrite fold_left_cons.
  apply IH; [by apply st_step_ok|]. eapply counts_step; [by apply st_step_ok|apply st_step_sends|done].
Qed.

(** What [progress()] reports counts each chunk once, over all the runs of a
    transfer: never more chunks or bytes than the file has, however often the
    transfer is resumed. *)
Theorem send_progress as_ :
  0 < cs → 0 ≤ fs_size source →
  let t := st_run as_ (newSend id peer p chans cs) in
  0 ≤ tb_transferredChunks (st_base t) ≤ total ∧ 0 ≤ tb_transferredBytes (st_base t) ≤ fs_size source
  ∧ (tb_transferredChunks (st_base t) = total → tb_transferredBytes (st_base t) = fs_size source).
Proof.
  intros Hcs Hsz t.
  assert (counts_ok t) as [C1 C2 C3 C4].
  { apply counts_run; [apply new_ok|]. constructor; cbn; [constructor|constructor|done|done]. }
  destruct (run_statics as_) as (_ & Ht & Hz & Hc & _). fold t in Ht, Hz, Hc. clearbody t.
  rewrite Ht in C2. destruct (ceil_div_bounds (fs_size source) cs Hcs Hsz) as (Hb1 & Hb2 & Hb3).
  assert (Hlen : ∀ j, chunk_length j t = chunk_len (fs_size source) cs j)
    by (intros j; unfold chunk_length, chunk_len; by rewrite Hz, Hc).
  set (js := (λ j, (j, u8new (chunk_length j t))) <$> st_sentSeqs t).
  assert (Hk : js.*1 = st_sentSeqs t).
  { unfold js. rewrite <- list_fmap_compose. by rewrite list_fmap_id. }
  assert (Hpos : ∀ j, 0 ≤ j < total → 0 ≤ chunk_length j t).
  { intros j Hj. rewrite Hlen. unfold chunk_len. nia. }
  assert (Hsum : sum_bytes js = sum_lengths t (st_sentSeqs t)).
  { unfold js. clear -C2 Hpos. induction C2 as [|j l Hj _ IH]; [done|]. cbn. unfold sum_bytes in IH.
    rewrite IH, blen_u8new by auto. done. }
  assert (Hjob : Forall (job_ok (fs_size source) cs total) js).
  { unfold js. apply Forall_fmap. eapply Forall_impl; [exact C2|]. intros j Hj. cbn in Hj.
    pose proof (Hpos j Hj) as Hp0. split; [done|]. cbn. rewrite blen_u8new by done. rewrite Hlen in *.
    unfold chunk_len in *. lia. }
  pose proof (sum_bytes_le (fs_size source) cs total js Hcs Hsz eq_refl Hjob ltac:(by rewrite Hk)) as Hle.
  pose proof (sum_bytes_nonneg js). rewrite C3, C4, <- Hsum.
  pose proof (length_le_total total _ C1 C2 Hb1). split; [lia|]. split; [lia|]. intros Hfull.
  assert (Hperm : st_sentSeqs t ≡ₚ seqZ 0 total).
  { apply NoDup_Permutation; [done|apply NoDup_seqZ|]. intros j. rewrite elem_of_seqZ.
    rewrite Forall_forall in C2. split; [intros Hj; specialize (C2 j Hj); lia|].
    intros Hj. apply (full_elem total); [done|by apply Forall_forall|lia|lia]. }
  rewrite Hsum. unfold sum_lengths.
  assert (∀ l l' : list Z, l ≡ₚ l' →
    foldr (λ j a, chunk_length j t + a) 0 l = foldr (λ j a, chunk_length j t + a) 0 l') as Hf.
  { induction 1; cbn; lia. }
  rewrite (Hf _ _ Hperm).
  assert (foldr (λ j a, chunk_length j t + a) 0 (seqZ 0 total)
          = foldr (λ s a, chunk_len (fs_size source) cs s + a) 0 (seqZ 0 total)) as ->.
  { generalize (seqZ 0 total). induction l as [|j l IH]; [done|]. cbn. by rewrite IH, Hlen. }
  pose proof (sum_chunk_len (fs_size source) cs (Z.to_nat total) Hcs) as Hs. rewrite Z2Nat.id in Hs by lia.
  rewrite Hs by lia. lia.
Qed.
End transfer.
End theorems.
