(* ===== verification/EndToEnd.v ===== *)
(** Sender and receiver together: what a run of [SendTransfer] sends, delivered in
    any order and with repetitions, completes a [ReceiveTransfer] with the file. *)

From S2P Require Import Prelude JsMap Uint8Array Framing Checksum Sink Transfer Schema Control Reassembly ReceiveTransfer ReceiveLive SendTransfer SendLemmas SendInvariant SendTheorems.

(** A source that holds the bytes [f]. *)
Definition honest (s : FileSource) (f : bytes) : Prop :=
  fs_size s = blen f ∧ ∀ off len, fs_slice s off len = u8slice off len f.

(** What run [k] sends over the network. *)
Definition sent_by (k : nat) (o : st_output) : Prop :=
  match o with
  | SOFrame k' _ _ _ => k' = k
  | SOSent k' _ => k' = k
  | _ => False
  end.

(** How the receiver of the offer [id] meets it. *)
Definition arrival (id : jsstr) (o : st_output) : rt_action MemorySink :=
  match o with
  | SOFrame _ _ _ data => AMessage (MsgBinary data)
  | SOSent _ digest => AControl (MSent id digest)
  | _ => ARequestResume
  end.

Section end_to_end.
Context `{JsEngine} `{SubtleCryptoLaws}.

Lemma honest_chunk s f cs j : honest s f → source_chunk s cs j = chunk_of f cs j.
Proof. intros [Hs Hf]. unfold source_chunk, chunk_of, chunk_len. by rewrite Hf, Hs. Qed.

Lemma honest_chunks s f cs : honest s f → source_chunks s cs = chunks_of f cs.
Proof.
  intros Hh. unfold source_chunks, chunks_of. rewrite (proj1 Hh). apply list_fmap_ext.
  intros _ j _. by rewrite (honest_chunk s f).
Qed.

(** The frames and the announcement of a run as deliveries of the file. *)
Definition delivery_of (o : st_output) : delivery :=
  match o with SOFrame _ seq _ _ => DChunk seq | _ => DSent end.

Lemma frames_of_elem k out seq ch data :
  (seq, ch, data) ∈ frames_of k out ↔ SOFrame k seq ch data ∈ out.
Proof.
  unfold frames_of. rewrite list_elem_of_omap. split.
  - intros ([| | |k' ? ? ?| |] & Hin & Hx); try done. destruct (decide (k' = k)) as [->|]; [|done].
    by injection Hx as -> -> ->.
  - intros Hin. eexists. split; [exact Hin|]. cbn. by rewrite decide_True.
Qed.

(** Each thing the run sends arrives as the delivery it stands for. *)
Lemma arrival_delivery id peer p chans cs f as_ k r o :
  honest (sp_source p) f →
  let t := st_run as_ (newSend id peer p chans cs) in
  st_runs t !! k = Some r → ru_channels r ≠ [] → sent_by k o → o ∈ st_out t →
  arrival id o = action_of id cs (sp_checksum p) f (delivery_of o) ∧ valid_delivery cs f (delivery_of o).
Proof.
  intros Hh t Hk Hne Hby Hin.
  destruct (send_once id peer p chans cs as_ k r Hk) as (_ & Hf & Hs).
  destruct o as [| |k' hex|k' seq ch data| |]; try done; cbn in Hby; subst k'.
  - destruct (Hs hex Hin Hne) as [_ ->]. split; [|done]. cbn. unfold announced.
    by rewrite (honest_chunks _ f).
  - apply frames_of_elem in Hin. rewrite Forall_forall in Hf. specialize (Hf _ Hin). cbn in Hf.
    destruct Hf as (Hr & _ & -> & _). rewrite (honest_chunk _ f) by done.
    split; [done|]. cbn. by rewrite <- (proj1 Hh).
Qed.

(** C1: End to end: when a run of the sender (with whatever pauses, failures and other
    runs around it) announces that the file is sent, and the receiver had nothing
    before, then delivering what that run sent — each frame and the announcement
    at least once, in any order across the channels — completes a receiver that
    accepted the offer, with the file of the source as its result. *)
Theorem send_receive id peer peer' p chans cs f as_ k r hex os :
  honest (sp_source p) f → 0 < cs → blen f ≤ max_byte_length → ceil_div (blen f) cs < 4294967296 →
  let t := st_run as_ (newSend id peer p chans cs) in
  st_runs t !! k = Some r → ru_have r = [] → ru_channels r ≠ [] → SOSent k hex ∈ st_out t →
  (∀ o, o ∈ os ↔ sent_by k o ∧ o ∈ st_out t) →
  let offer := offer_of t in
  let rt := fold_left (λ rt o, turn rt (arrival id o)) os
    (turn (newReceive id peer' (mkMeta (of_name offer) (of_mimeType offer) (of_size offer))
             (of_chunkSize offer) (of_totalChunks offer) (of_checksum offer))
       (AAccept newMemorySink)) in
  state rt = Completed ∧ ∃ res, rt_result rt = Some res ∧ sr_bytes res = Some f.
Proof.
  intros Hh Hcs Hfit Htot t Hk Hhave Hne Hsent Hos offer rt.
  destruct (run_statics id peer p chans cs as_) as (Hp & Ht & Hsz & Hc & _). fold t in Hp, Ht, Hsz, Hc.
  set (meta := mkMeta (of_name offer) (of_mimeType offer) (of_size offer)) in *.
  assert (Hmeta : md_size meta = blen f) by (unfold meta, offer; cbn; by rewrite Hsz, (proj1 Hh)).
  assert (Hrt : rt = fold_left (deliver id cs (sp_checksum p) f) (delivery_of <$> os)
                       (started id peer' meta cs (sp_checksum p) f)).
  { unfold rt, started, offer, offer_of. cbn [of_chunkSize of_totalChunks of_checksum].
    rewrite Hc, Ht, Hp, (proj1 Hh).
    generalize (turn (newReceive (K := MemorySink) id peer' meta cs (ceil_div (blen f) cs) (sp_checksum p))
                  (AAccept newMemorySink)).
    assert (Hall : ∀ o, o ∈ os → arrival id o = action_of id cs (sp_checksum p) f (delivery_of o)).
    { intros o [Hby Hin]%Hos. by eapply arrival_delivery. }
    clear -Hall. induction os as [|o os IH]; intros x; [done|]. rewrite fmap_cons, !fold_left_cons.
    rewrite (Hall o) by left. rewrite deliver_turn. generalize (turn x). intros g.
    apply (IH (λ o' Ho', Hall o' (list_elem_of_further _ _ _ Ho'))). }
  rewrite Hrt.
  apply (deliveries_complete id peer' meta cs (sp_checksum p) f (delivery_of <$> os) Hcs Hmeta Hfit Htot).
  - apply Forall_fmap, Forall_forall. intros o [Hby Hin]%Hos. by eapply arrival_delivery.
  - intros s Hs. destruct (send_once id peer p chans cs as_ k r Hk) as (_ & _ & Hfin).
    destruct (Hfin hex Hsent Hne) as [Hall _]. rewrite (proj1 Hh) in Hall.
    specialize (Hall s Hs ltac:(rewrite Hhave; apply not_elem_of_nil)).
    apply list_elem_of_fmap in Hall as ([s0 ch] & Es & Hin).
    apply list_elem_of_fmap in Hin as ([[s1 ch1] d] & Es1 & Hin). cbn in Es, Es1. simplify_eq.
    apply frames_of_elem in Hin. apply list_elem_of_fmap. exists (SOFrame k s1 ch1 d).
    split; [done|]. by apply Hos.
  - apply list_elem_of_fmap. exists (SOSent k hex). split; [done|]. by apply Hos.
Qed.
End end_to_end.

(** * Concrete runs *)

#[export] Instance sent_by_dec k o : Decision (sent_by k o).
Proof. destruct o; cbn; apply _. Defined.

Module SendSample.
Export TestDigest TestEngine.
Definition file : bytes := [1; 2; 3; 4; 5].
Definition source : FileSource := mkSource (js "f") (js "text/plain") 5 (λ off len, u8slice off len file).
Definition params : SendParams := mkSendParams source 100 10 true 1000 true.
Definition fresh : SendTransfer := newSend (js "t") (js "p") params [1; 2] 2.

(** The outside at its best, and a channel with a full buffer. *)
Definition fine : env := mkEnv None true 0 true.
Definition full : env := mkEnv None true 1000 true.
Definition W (i : nat) : st_action := SWorker fine 0 i.
Definition offered : list st_action :=
  [SStart; SChannel 1 EvOpen; SChannel 2 EvOpen; SControl (MAccept (js "t") None)].

(** The two workers take turns. *)
Definition script : list st_action :=
  offered ++ concat (replicate 10 [W 0; W 1]) ++ [SJoined 0; SFinalized true 0].

(** Both workers have passed the pause gate for the last time when the user
    pauses. *)
Definition late_pause : list st_action :=
  offered ++ concat (replicate 6 [W 0; W 1]) ++ replicate 1 (W 0) ++ [SPause]
  ++ replicate 6 (W 0) ++ [SJoined 0; SFinalized true 0].

(** A worker waits for its full channel when the user pauses; the channel closes. *)
Definition drop_while_paused : list st_action :=
  offered ++ [W 0; W 0; W 0; SWorker full 0 0; W 1; SPause; SChannel 1 EvClose; W 0; SCaught 0].
End SendSample.
Import SendSample.

Abbreviation sample_send := (st_run script fresh).

Lemma sample_run_0 : is_Some (st_runs sample_send !! 0%nat).
Proof. vm_compute. by eexists. Qed.

Lemma send_exactly_once_witness :
  seqs_of 0 (st_out sample_send) = [0; 1; 2] ∧ NoDup (seqs_of 0 (st_out sample_send)).
Proof.
  split; [by vm_compute|]. destruct sample_run_0 as [r Hk].
  exact (proj1 (send_exactly_once (js "t") (js "p") params [1; 2] 2 script 0 r Hk)).
Defined.
