(* ===== verification/SendDefects.v ===== *)
(** Two ways in which a sender never completes, and concrete runs of sender and
    receiver. *)

From S2P Require Import Prelude JsMap Uint8Array Framing Checksum Sink Transfer Schema Control Reassembly ReceiveTransfer ReceiveLive SendTransfer SendLemmas SendInvariant SendTheorems EndToEnd.

(** * A sender that can never complete *)

Section lost.
Context `{SubtleCrypto}.
Implicit Types (t : SendTransfer).

(** No run is left, no resume is expected, and the file was not completed. *)
Record lost t : Prop := {
  lo_state : state t ∈ [Active; Paused; Failed; Cancelled];
  lo_interrupted : st_interrupted t = false;
  lo_runs : Forall (λ r, ru_phase r = REnd) (st_runs t);
}.

Lemma lost_calm t t' : calm t t' → state t' ∈ [Active; Paused; Failed; Cancelled] →
  st_interrupted t' = st_interrupted t → lost t → lost t'.
Proof.
  intros Hc Hs Hi [_ Li Lr]. constructor; [done|congruence|].
  apply Forall_lookup. intros k r' Hk.
  destruct (Forall2_lookup_r _ _ _ _ _ (calm_runs _ _ Hc) Hk) as (r & Hr & Hsim).
  rewrite Forall_lookup in Lr. destruct (rs_phase _ _ Hsim) as [->|]; [eauto|done].
Qed.

Lemma lost_same t t' : calm t t' → state t' = state t → st_interrupted t' = st_interrupted t →
  lost t → lost t'.
Proof. intros Hc Hs Hi Hl. eapply lost_calm; eauto. rewrite Hs. apply Hl. Qed.

Lemma interrupted_close chs t : st_interrupted (close_channels chs t) = st_interrupted t.
Proof. revert t. induction chs as [|ch chs IH]; intros t; [done|]. apply (IH (close_channel ch t)). Qed.

Lemma interrupted_transition next t : st_interrupted (transitionTo next t).1 = st_interrupted t.
Proof.
  unfold transitionTo. destruct (decide _); [done|]. destruct (isTerminal t); [done|].
  destruct (negb _ && negb _); [done|]. cbn [fst]. destruct (bool_decide _); [|done].
  cbn. by rewrite interrupted_close.
Qed.

Lemma lost_transition next t : next ≠ Completing → lost t → lost (transitionTo next t).1.
Proof.
  intros Hn Hl. eapply lost_calm; [apply calm_transition| |apply interrupted_transition|done].
  pose proof (lo_state _ Hl) as Hs.
  destruct (transitionTo_base next t) as [[_ ->]|[(_ & _ & ->)|(_ & [_ Hleg] & _ & E)]]; [done..|].
  unfold state. rewrite E. change (next ∈ [Active; Paused; Failed; Cancelled]).
  destruct Hleg as [->|[->|Hin]]; [set_solver..|].
  rewrite !elem_of_cons, elem_of_nil in Hs. destruct Hs as [Hs|[Hs|[Hs|[Hs|[]]]]]; rewrite Hs in Hin;
    cbn in Hin; set_solver.
Qed.

Lemma lost_emit e t : lost t → lost (emit e t).
Proof. apply lost_same; [apply calm_emit|done..]. Qed.

Lemma lost_fail e n t : lost t → lost (fail e n t).
Proof.
  intros Hl. unfold fail. destruct (isTerminal t); [done|].
  apply (lost_transition Failed) in Hl; [|done]. apply lost_emit.
  destruct n; [|exact Hl]. cbn. unfold st_notify. destruct (st_control_up _); [|exact Hl].
  eapply (lost_same (transitionTo Failed t).1); [by apply calm_emit_out|done|done|done].
Qed.

Lemma lost_control o t : quiet o → lost t → lost (safeControl o t).
Proof.
  intros Ho Hl. unfold safeControl. destruct (st_control_up t); [|by apply lost_fail].
  by eapply lost_same; [apply calm_emit_out|..].
Qed.

Lemma lost_clear t : lost t → lost (clearOfferTimer t).
Proof. apply lost_same; [apply calm_clear|done..]. Qed.

Lemma lost_mark r t : lost t → lost (st_markCancelled r t).
Proof.
  intros Hl. unfold st_markCancelled. destruct (isTerminal t); [done|]. apply lost_clear in Hl.
  unfold markCancelled. destruct (isTerminal _); [done|].
  apply (lost_transition Cancelled) in Hl; [|done].
  destruct r; [by apply lost_emit|done].
Qed.

Lemma lost_pause t : lost t → lost (applyPause t).1.
Proof.
  intros Hl. unfold applyPause. destruct (decide _); [apply (lost_same t); [by apply calm_same|done..]|].
  destruct (decide _); [done|by apply lost_transition].
Qed.

Lemma lost_resume t : lost t → lost (applyResume t).1.
Proof.
  intros Hl. unfold applyResume. destruct (decide _); [apply (lost_same t); [by apply calm_same|done..]|].
  destruct (decide _); [done|]. apply (lost_transition Active) in Hl; [|done].
  destruct (transitionTo Active t) as [t1 []]; [|done].
  eapply lost_same; [apply calm_release|done..|exact Hl].
Qed.

Lemma lost_begin have t : lost t → begin have t = clearOfferTimer t.
Proof.
  intros [Hs Hi _]. unfold begin. cbv zeta.
  change (state (clearOfferTimer t)) with (state t).
  change (st_interrupted (clearOfferTimer t)) with (st_interrupted t).
  rewrite decide_False by (intros E; rewrite E in Hs; set_solver).
  by rewrite decide_False by (intros [_ E]; congruence).
Qed.

Lemma lost_handleControl m t : lost t → lost (st_handleControl m t).
Proof.
  intros Hl. unfold st_handleControl. cbv zeta. apply lost_clear in Hl.
  destruct m; try exact Hl; try (by rewrite lost_begin; [apply lost_clear|]).
  - by apply lost_fail.
  - apply (lost_transition Completed) in Hl; [|done].
    destruct (transitionTo Completed (clearOfferTimer t)) as [t1 []]; [by apply lost_emit|done].
  - by apply lost_fail.
  - by apply lost_mark.
  - by apply lost_pause.
  - by apply lost_resume.
Qed.

Lemma lost_ended t k r : lost t → st_runs t !! k = Some r → ru_phase r = REnd.
Proof. intros [_ _ Hr] Hk. by eapply Forall_lookup_1 in Hr. Qed.

Lemma lost_alter f k t : (∀ r, ru_phase (f r) = ru_phase r) → lost t → lost (su_runs (alter f k (st_runs t)) t).
Proof.
  intros Hf [Ls Li Lr]. constructor; [done..|]. cbn. apply Forall_lookup. intros k' r'.
  rewrite Forall_lookup in Lr. destruct (decide (k = k')) as [<-|Hne].
  - rewrite list_lookup_alter_eq. intros (r & Hr & ->)%fmap_Some. rewrite Hf. eauto.
  - rewrite list_lookup_alter_ne by done. eauto.
Qed.

Lemma lost_worker ev k i t : lost t → lost (worker_step ev k i t).
Proof.
  intros Hl. assert (Hw : ∀ w, lost (set_worker k i w t)) by (intros; by apply lost_alter).
  assert (Ht : ∀ w e, lost (worker_throw k i w e t)) by (intros; by apply lost_alter).
  unfold worker_step. destruct (st_runs t !! k) as [r|] eqn:Hk; [|done].
  destruct (ru_workers r !! i) as [w|]; [|done]. destruct (ru_channels r !! i) as [ch|]; [|done].
  cbv zeta. destruct (wk_loc w) as [[| |]|[]| |b|b [| |]| |]; auto.
  - destruct (dead r t); [auto|]. destruct (negb _), (ru_digest r); auto.
  - destruct (e_read ev); [auto|]. destruct (ru_digest r); [destruct (e_crypto ev)|]; auto.
  - destruct (ru_digest r); [|done]. destruct (negb _); by apply lost_alter, lost_alter.
  - unfold send_chunk. destruct (dead r t); [auto|]. destruct (decide _); [auto|].
    destruct (negb (e_send_ok ev)); [auto|]. cbv zeta. apply lost_alter; [done|].
    unfold count_sent. destruct Hl. by destruct (decide _).
Qed.

Lemma lost_step a t : lost t → lost (st_step t a).
Proof.
  intros Hl. destruct a; cbn [st_step].
  - unfold start. pose proof (lost_transition Offered t ltac:(done) Hl) as H1.
    destruct (transitionTo Offered t) as [t1 []]; [|done]. cbv zeta.
    assert (lost (sendOffer t1)) as H2 by (by apply lost_control).
    destruct (decide _); [|done].
    eapply lost_same; [apply calm_arm| | |done]; unfold armOfferTimeout; by destruct (decide _).
  - unfold reoffer. by rewrite (lo_interrupted _ Hl), orb_true_r.
  - unfold on_offer_timeout. destruct (st_timer t); [|done]. cbv zeta.
    assert (lost (su_timer None t)) as H1 by (apply (lost_same t); [by apply calm_same|done..]).
    destruct (still_waiting _ _); [by apply lost_fail|done].
  - by apply lost_handleControl.
  - unfold st_pause. pose proof (lost_pause t Hl) as H1. destruct (applyPause t) as [t1 []]; [|done].
    by apply lost_control.
  - unfold st_resume. pose proof (lost_resume t Hl) as H1. destruct (applyResume t) as [t1 []]; [|done].
    by apply lost_control.
  - unfold st_cancel. destruct (isTerminal t); [done|]. by apply lost_mark, lost_control.
  - by apply lost_worker.
  - unfold run_joined. destruct (st_runs t !! k) as [[? ? ? ? ? [] []]|] eqn:Hk; try done.
    by pose proof (lost_ended _ _ _ Hl Hk).
  - unfold run_finalized. destruct (st_runs t !! k) as [[? ? [] ? ? [] []]|] eqn:Hk; try done.
    by pose proof (lost_ended _ _ _ Hl Hk).
  - unfold run_caught. destruct (st_runs t !! k) as [[? ? ? ? ? [] []]|] eqn:Hk; try done;
      by pose proof (lost_ended _ _ _ Hl Hk).
  - eapply lost_same; [apply channel_event_calm| | |done]; by destruct ev.
  - apply (lost_same t); [by apply calm_same|done..].
  - apply (lost_same t); [by apply calm_same|done..].
Qed.

Lemma lost_forever as_ t : lost t → state (st_run as_ t) ≠ Completed.
Proof.
  revert t. induction as_ as [|a as_ IH]; intros t Hl.
  - pose proof (lo_state _ Hl) as Hs. intros E. cbn in E. rewrite E in Hs. set_solver.
  - unfold st_run. rewrite fold_left_cons. by apply IH, lost_step.
Qed.

(** [lost], decided. *)
Definition lost_b t : bool :=
  bool_decide (state t ∈ [Active; Paused; Failed; Cancelled]) && negb (st_interrupted t)
  && forallb (λ r, match ru_phase r with REnd => true | _ => false end) (st_runs t).

Lemma lost_b_ok t : lost_b t = true → lost t.
Proof.
  unfold lost_b. intros [[Hs%bool_decide_eq_true Hi%negb_true_iff]%andb_true_iff Hr]%andb_true_iff.
  constructor; [done..|]. apply Forall_forall. intros r Hin.
  rewrite forallb_forall in Hr. specialize (Hr r (proj1 (list_elem_of_In _ _) Hin)).
  by destruct (ru_phase r).
Qed.
End lost.

Import SendSample.

(** A user who pauses when the last chunks are on their way: the sender announces
    that it is done, but stays paused, and the receiver's [ft-complete] is ignored
    (before and after a resume): whatever happens, the transfer never completes. *)
Theorem pause_at_end_stuck as_ :
  let t := st_run late_pause fresh in
  state t = Paused ∧ (∃ hex, SOSent 0 hex ∈ st_out t) ∧ seqs_of 0 (st_out t) = [0; 1; 2]
  ∧ state (st_run as_ t) ≠ Completed.
Proof.
  cbv zeta. split; [by vm_compute|]. split; [|split; [by vm_compute|]].
  - assert (∃ hex, last (st_out (st_run late_pause fresh)) = Some (SOSent 0 hex)) as [hex Hl]
      by (eexists; vm_compute; reflexivity).
    apply last_Some in Hl as [l ->]. exists hex. set_solver.
  - apply lost_forever, lost_b_ok. by vm_compute.
Qed.

(** A resumable transfer whose channel drops while it is paused, with a worker
    waiting for that channel's buffer: the drop is forgotten ([_interrupt] looks
    for [Active]), so that the transfer cannot be resumed and never completes. *)
Theorem drop_while_paused_stuck as_ :
  let t := st_run drop_while_paused fresh in
  sp_resumable (st_params t) = true ∧ state t = Paused ∧ st_interrupted t = false
  ∧ state (st_run as_ t) ≠ Completed.
Proof.
  cbv zeta. split; [by vm_compute|]. split; [by vm_compute|]. split; [by vm_compute|].
  apply lost_forever, lost_b_ok. by vm_compute.
Qed.

(** [start] on a transfer that is already offered sends the offer again. *)
Theorem start_twice :
  st_out (st_run [SStart; SStart] fresh)
  = [SOControl (MOffer (offer_of fresh)); SOControl (MOffer (offer_of fresh))].
Proof. by vm_compute. Qed.

(** * Witnesses *)

Lemma send_single_run_witness :
  let t := st_run (offered ++ [W 0; W 0; W 0; W 0]) fresh in
  SOFrame 0 0 1 (encodeFrame 0 [1; 2]) ∈ drop (length (st_out t)) (st_out (st_step t (W 0)))
  ∧ Datatypes.S 0 = length (st_runs t).
Proof.
  cbv zeta.
  assert (SOFrame 0 0 1 (encodeFrame 0 [1; 2]) ∈
    drop (length (st_out (st_run (offered ++ [W 0; W 0; W 0; W 0]) fresh)))
      (st_out (st_step (st_run (offered ++ [W 0; W 0; W 0; W 0]) fresh) (W 0)))) as Hin
    by (vm_compute; left).
  split; [exact Hin|].
  exact (proj1 (proj2 (send_single_run (js "t") (js "p") params [1; 2] 2
    (offered ++ [W 0; W 0; W 0; W 0]) (W 0) 0 0 1 _ Hin))).
Defined.

Lemma send_progress_witness :
  tb_transferredChunks (st_base sample_send) = 3 ∧ tb_transferredBytes (st_base sample_send) = 5.
Proof.
  assert (Hc : tb_transferredChunks (st_base sample_send) = 3) by (by vm_compute).
  split; [exact Hc|].
  destruct (send_progress (js "t") (js "p") params [1; 2] 2 script eq_refl ltac:(by vm_compute))
    as (_ & _ & Hf).
  exact (Hf Hc).
Defined.

(** The frames of the sample run arrive last to first. *)
Lemma send_receive_witness :
  let t := sample_send in
  let offer := offer_of t in
  let rt := fold_left (λ rt o, turn rt (arrival (js "t") o)) (reverse (filter (sent_by 0) (st_out t)))
    (turn (newReceive (js "t") (js "q") (mkMeta (of_name offer) (of_mimeType offer) (of_size offer))
             (of_chunkSize offer) (of_totalChunks offer) (of_checksum offer))
       (AAccept newMemorySink)) in
  state rt = Completed ∧ ∃ res, rt_result rt = Some res ∧ sr_bytes res = Some file.
Proof.
  destruct (st_runs sample_send !! 0%nat) as [r|] eqn:Hk.
  2:{ exfalso. destruct sample_run_0 as [r E]. rewrite Hk in E. discriminate E. }
  assert (Hr : ru_have r = [] ∧ ru_channels r = [1; 2]).
  { assert ((λ r, (ru_have r, ru_channels r)) <$> Some r = Some ([], [1; 2])) as E
      by (rewrite <- Hk; vm_compute; reflexivity).
    clear Hk. injection E as -> ->. done. }
  destruct Hr as [Hh Hc].
  assert (∃ hex, last (st_out sample_send) = Some (SOSent 0 hex)) as [hex Hl]
    by (eexists; vm_compute; reflexivity).
  apply (send_receive (js "t") (js "p") (js "q") params [1; 2] 2 file script 0 r hex
           (reverse (filter (sent_by 0) (st_out sample_send)))); try exact Hk; try exact Hh.
  - by split.
  - done.
  - by vm_compute.
  - by vm_compute.
  - by rewrite Hc.
  - exact (last_Some_elem_of _ _ Hl).
  - intros o. rewrite elem_of_reverse, list_elem_of_filter. done.
Defined.
