(* ===== verification/FileTransferManager.v ===== *)
(** The manager of file transfers
    (packages/sdk/src/filetransfer/FileTransferManager.ts, with [resolveTuning] of
    types.ts and source/BlobFileSource.ts).

    Transfers are objects: the manager's map and the application hold references
    to them, here indices into [fm_objects].  A transfer's [sendControl] throws
    exactly when no control link to its peer exists and none can be opened, so
    that this is known before the transfer's operation runs; the messages it sent
    are then passed to the link.  The hub is outside: [conn peer] says whether it
    gives out a channel to [peer]. *)

From S2P Require Import Prelude JsMap JsNumber Json Uint8Array Framing Checksum Sink Transfer Schema Control Reassembly ReceiveTransfer SendTransfer.

(** * Tuning *)

(** Options with every field optional: [TransferTuning], [FileTransferOptions],
    [SendOptions] and [Partial<ResolvedTuning>]. *)
Record TransferTuning := mkTuning {
  tu_chunkSize : option Z;
  tu_highWaterMark : option Z;
  tu_lowWaterMark : option Z;
  tu_parallelChannels : option Z;
  tu_checksum : option bool;
  tu_maxFileSize : option Z;
  tu_offerTimeoutMs : option Z;
  tu_resumable : option bool;
}.

Record ResolvedTuning := mkResolved {
  rv_chunkSize : Z;
  rv_highWaterMark : Z;
  rv_lowWaterMark : Z;
  rv_parallelChannels : Z;
  rv_checksum : bool;
  rv_maxFileSize : option Z;
  rv_offerTimeoutMs : Z;
  rv_resumable : bool;
}.

Definition DEFAULT_CHUNK_SIZE : Z := 16 * 1024 - 8.
Definition DEFAULT_HIGH_WATER_MARK : Z := 4 * 1024 * 1024.
Definition DEFAULT_LOW_WATER_MARK : Z := 256 * 1024.
Definition DEFAULT_PARALLEL_CHANNELS : Z := 1.
Definition DEFAULT_OFFER_TIMEOUT_MS : Z := 30000.

(** [a ?? b ?? c]. *)
Definition nullish {A} (a b : option A) (c : A) : A :=
  match a with Some x => x | None => default c b end.

Definition resolveTuning (opts base : TransferTuning) : ResolvedTuning :=
  mkResolved
    (nullish (tu_chunkSize opts) (tu_chunkSize base) DEFAULT_CHUNK_SIZE)
    (nullish (tu_highWaterMark opts) (tu_highWaterMark base) DEFAULT_HIGH_WATER_MARK)
    (nullish (tu_lowWaterMark opts) (tu_lowWaterMark base) DEFAULT_LOW_WATER_MARK)
    (nullish (tu_parallelChannels opts) (tu_parallelChannels base) DEFAULT_PARALLEL_CHANNELS)
    (nullish (tu_checksum opts) (tu_checksum base) true)
    (match tu_maxFileSize opts with Some x => Some x | None => tu_maxFileSize base end)
    (nullish (tu_offerTimeoutMs opts) (tu_offerTimeoutMs base) DEFAULT_OFFER_TIMEOUT_MS)
    (nullish (tu_resumable opts) (tu_resumable base) false).

(** Resolved options as the base of the next resolution. *)
Definition as_base (t : ResolvedTuning) : TransferTuning :=
  mkTuning (Some (rv_chunkSize t)) (Some (rv_highWaterMark t)) (Some (rv_lowWaterMark t))
    (Some (rv_parallelChannels t)) (Some (rv_checksum t)) (rv_maxFileSize t)
    (Some (rv_offerTimeoutMs t)) (Some (rv_resumable t)).
Definition no_options : TransferTuning := mkTuning None None None None None None None None.

(** * Sources *)

(** [SendInput]: a custom source, or a [Blob] with its bytes, type and (of a
    [File]) name. *)
Inductive SendInput :=
| InSource (s : FileSource)
| InBlob (contents : bytes) (type : jsstr) (name : option jsstr).

(** [Blob.slice] clamps its range to the contents. *)
Definition blob_slice (contents : bytes) (off len : Z) : bytes := u8slice off len contents.

Definition BlobFileSource (contents : bytes) (type : jsstr) (fileName name : option jsstr) : FileSource :=
  mkSource (nullish name fileName (js "file"))
    (if decide (type = []) then js "application/octet-stream" else type)
    (blen contents) (blob_slice contents).

Definition toSource (input : SendInput) : FileSource :=
  match input with
  | InSource s => s
  | InBlob contents type name => BlobFileSource contents type name None
  end.

(** * State *)

Record PeerControl := mkPeerControl { pc_out : option nat; pc_in : option nat }.

(** Events of the manager, and channels it closes. *)
Inductive fm_event :=
| FmIncomingOffer (object : nat)
| FmError (code : FileTransferErrorCode)
| FmCloseChannel (channel : Z).

Section manager.
Context {K : Type} `{StorageSink K} `{SubtleCrypto}.

(** The text of an error, which [_notifyRemoteFailure] sends along. *)
Context (error_message : FileTransferErrorCode → jsstr).

Inductive any_transfer :=
| ASend (t : SendTransfer)
| ARecv (t : ReceiveTransfer K).

Definition at_base (o : any_transfer) : Transfer :=
  match o with ASend t => st_base t | ARecv t => rt_base t end.
Definition at_terminal (o : any_transfer) : bool := tb_terminal (at_base o).

Record FileTransferManager := mkManager {
  fm_tuning : ResolvedTuning;
  fm_transfers : jmap jsstr nat;
  fm_objects : list any_transfer;
  fm_control : jmap jsstr PeerControl;
  fm_links : list (jsstr * ControlLink);
  fm_pendingChannels : jmap jsstr (list Z);
  fm_pendingTimers : list jsstr;
  fm_closed : bool;
  fm_next : Z;
  fm_out : list fm_event;
}.
Implicit Types (m : FileTransferManager).

Definition fu_transfers (x : jmap jsstr nat) m : FileTransferManager :=
  mkManager (fm_tuning m) x (fm_objects m) (fm_control m) (fm_links m) (fm_pendingChannels m)
    (fm_pendingTimers m) (fm_closed m) (fm_next m) (fm_out m).
Definition fu_objects (x : list any_transfer) m : FileTransferManager :=
  mkManager (fm_tuning m) (fm_transfers m) x (fm_control m) (fm_links m) (fm_pendingChannels m)
    (fm_pendingTimers m) (fm_closed m) (fm_next m) (fm_out m).
Definition fu_links (c : jmap jsstr PeerControl) (x : list (jsstr * ControlLink)) m : FileTransferManager :=
  mkManager (fm_tuning m) (fm_transfers m) (fm_objects m) c x (fm_pendingChannels m)
    (fm_pendingTimers m) (fm_closed m) (fm_next m) (fm_out m).
Definition fu_pending (x : jmap jsstr (list Z)) (timers : list jsstr) m : FileTransferManager :=
  mkManager (fm_tuning m) (fm_transfers m) (fm_objects m) (fm_control m) (fm_links m) x timers
    (fm_closed m) (fm_next m) (fm_out m).
Definition fu_closed m : FileTransferManager :=
  mkManager (fm_tuning m) (fm_transfers m) (fm_objects m) (fm_control m) (fm_links m)
    (fm_pendingChannels m) (fm_pendingTimers m) true (fm_next m) (fm_out m).
Definition fu_next (x : Z) m : FileTransferManager :=
  mkManager (fm_tuning m) (fm_transfers m) (fm_objects m) (fm_control m) (fm_links m)
    (fm_pendingChannels m) (fm_pendingTimers m) (fm_closed m) x (fm_out m).
Definition fm_emit (e : fm_event) m : FileTransferManager :=
  mkManager (fm_tuning m) (fm_transfers m) (fm_objects m) (fm_control m) (fm_links m)
    (fm_pendingChannels m) (fm_pendingTimers m) (fm_closed m) (fm_next m) (fm_out m ++ [e]).

Definition newManager (options : TransferTuning) : FileTransferManager :=
  mkManager (resolveTuning options no_options) [] [] [] [] [] [] false 0 [].

(** * Control links *)

Definition peerControl (peer : jsstr) m : PeerControl :=
  default (mkPeerControl None None) (mget peer (fm_control m)).

Definition add_link (peer : jsstr) (ready : readyState) m : FileTransferManager * nat :=
  (fu_links (fm_control m) (fm_links m ++ [(peer, newControlLink ready)]) m, length (fm_links m)).

(** [_ensureSendLink]; without a connection it throws, after [_peerControl] has
    made its entry. *)
Definition ensureSendLink (conn : jsstr → bool) (peer : jsstr) m : FileTransferManager * option nat :=
  let pc := peerControl peer m in
  let m0 := fu_links (mset peer pc (fm_control m)) (fm_links m) m in
  match pc_out pc, pc_in pc with
  | Some i, _ => (m0, Some i)
  | None, Some i => (m0, Some i)
  | None, None =>
      if conn peer then
        let '(m1, i) := add_link peer Connecting m0 in
        (fu_links (mset peer (mkPeerControl (Some i) (pc_in pc)) (fm_control m1)) (fm_links m1) m1, Some i)
      else (m0, None)
  end.

(** [_sendControl]; the boolean says that it threw. *)
Definition fm_sendControl (conn : jsstr → bool) (peer : jsstr) (msg : ControlMessage) m
    : FileTransferManager * bool :=
  match ensureSendLink conn peer m with
  | (m1, Some i) =>
      (fu_links (fm_control m1) (alter (λ l, (l.1, link_send msg l.2)) i (fm_links m1)) m1, false)
  | (m1, None) => (m1, true)
  end.

Definition can_send (conn : jsstr → bool) (peer : jsstr) m : bool :=
  let pc := peerControl peer m in
  match pc_out pc, pc_in pc with None, None => conn peer | _, _ => true end.

(** * Transfers *)

(** The control messages among the outputs of a transfer. *)
Definition send_message (t : SendTransfer) (o : st_output) : option ControlMessage :=
  match o with
  | SOControl msg => Some msg
  | SOSent _ hex => Some (MSent (st_id t) hex)
  | SOCancelError e => Some (MCancel (st_id t) (Some (error_message e)))
  | _ => None
  end.
Definition recv_message (t : ReceiveTransfer K) (o : rt_output) : option ControlMessage :=
  match o with
  | OutControl msg => Some msg
  | OutCancelError e => Some (MCancel (rt_id t) (Some (error_message e)))
  | OutCloseChannel _ => None
  end.

Definition messages (o o' : any_transfer) : list ControlMessage :=
  match o, o' with
  | ASend t, ASend t' => omap (send_message t') (drop (length (st_out t)) (st_out t'))
  | ARecv t, ARecv t' => omap (recv_message t') (drop (length (rt_out t)) (rt_out t'))
  | _, _ => []
  end.

Definition set_up (up : bool) (o : any_transfer) : any_transfer :=
  match o with ASend t => ASend (su_control_up up t) | ARecv t => ARecv (s_control_up up t) end.

(** An operation of the transfer [h]: it runs with [sendControl] bound to the
    manager, and the manager's listener forgets it when it ends. *)
Definition with_transfer (conn : jsstr → bool) (h : nat) (f : any_transfer → any_transfer) m
    : FileTransferManager :=
  match fm_objects m !! h with
  | None => m
  | Some o =>
      let peer := tb_peerId (at_base o) in
      let o0 := set_up (can_send conn peer m) o in
      let o1 := f o0 in
      let m1 := fu_objects (<[h := o1]> (fm_objects m)) m in
      let m2 := if negb (at_terminal o0) && at_terminal o1
                then fu_transfers (mdel (tb_id (at_base o1)) (fm_transfers m1)) m1 else m1 in
      fold_left (λ m msg, (fm_sendControl conn peer msg m).1) (messages o0 o1) m2
  end.

Definition on_send (f : SendTransfer → SendTransfer) (o : any_transfer) : any_transfer :=
  match o with ASend t => ASend (f t) | ARecv t => ARecv t end.
Definition on_recv (f : ReceiveTransfer K → ReceiveTransfer K) (o : any_transfer) : any_transfer :=
  match o with ASend t => ASend t | ARecv t => ARecv (f t) end.

(** [_register]. *)
Definition fm_register (o : any_transfer) m : FileTransferManager * nat :=
  let h := length (fm_objects m) in
  (fu_transfers (mset (tb_id (at_base o)) h (fm_transfers m)) (fu_objects (fm_objects m ++ [o]) m), h).

Definition lookup_transfer (id : jsstr) m : option (nat * any_transfer) :=
  h ← mget id (fm_transfers m); o ← fm_objects m !! h; Some (h, o).

(** [_openChannels]: [count] channels of the hub, with the numbers that follow. *)
Definition openChannels (conn : jsstr → bool) (peer : jsstr) (count : Z) m
    : FileTransferManager * option (list Z) :=
  if decide (count ≤ 0) then (m, Some [])
  else if conn peer then (fu_next (fm_next m + count) m, Some (seqZ (fm_next m) count))
  else (m, None).

(** [sendFile]; [newId] is what [randomId.next()] gives. *)
Definition sendFile (conn : jsstr → bool) (peer : jsstr) (input : SendInput) (opts : TransferTuning)
    (transferId : option jsstr) (newId : jsstr) m
    : FileTransferManager * result FileTransferErrorCode nat :=
  if fm_closed m then (m, Throw InvalidState)
  else
    let tuning := resolveTuning opts (as_base (fm_tuning m)) in
    let source := toSource input in
    let id := default newId transferId in
    match openChannels conn peer (rv_parallelChannels tuning) m with
    | (m1, None) => (m1, Throw ChannelClosed)
    | (m1, Some channels) =>
        let transfer := newSend id peer
          (mkSendParams source (rv_highWaterMark tuning) (rv_lowWaterMark tuning) (rv_checksum tuning)
             (rv_offerTimeoutMs tuning) (rv_resumable tuning)) channels (rv_chunkSize tuning) in
        let '(m2, h) := fm_register (ASend transfer) m1 in
        (with_transfer conn h (on_send start) m2, Ok h)
    end.

Definition resumeSend (conn : jsstr → bool) (transferId : jsstr) m
    : FileTransferManager * result FileTransferErrorCode unit :=
  match lookup_transfer transferId m with
  | Some (h, ASend t) =>
      if negb (st_interrupted t) then (m, Ok ())
      else match openChannels conn (tb_peerId (st_base t)) (Z.of_nat (length (st_channels t))) m with
           | (m1, None) => (m1, Throw ChannelClosed)
           | (m1, Some channels) => (with_transfer conn h (on_send (reoffer channels)) m1, Ok ())
           end
  | _ => (m, Ok ())
  end.

(** * Inbound channels *)

(** [_discardPendingChannels]. *)
Definition discardPendingChannels (transferId : jsstr) m : FileTransferManager :=
  let m1 := fu_pending (fm_pendingChannels m) (sdel transferId (fm_pendingTimers m)) m in
  match mget transferId (fm_pendingChannels m1) with
  | None => m1
  | Some pending =>
      fold_left (λ m ch, fm_emit (FmCloseChannel ch) m) pending
        (fu_pending (mdel transferId (fm_pendingChannels m1)) (fm_pendingTimers m1) m1)
  end.

(** [_handleInboundChannel]; for the control channel it also gives the new link. *)
Definition handleInboundChannel (conn : jsstr → bool) (peer label : jsstr) (channel : Z)
    (ready : readyState) m : FileTransferManager :=
  if fm_closed m then m
  else if decide (label = CONTROL_CHANNEL_LABEL) then
    let '(m1, i) := add_link peer ready m in
    fu_links (mset peer (mkPeerControl (pc_out (peerControl peer m1)) (Some i)) (fm_control m1))
      (fm_links m1) m1
  else match parseDataChannelLabel label with
       | None => m
       | Some (transferId, _) =>
           match lookup_transfer transferId m with
           | Some (h, ARecv t) => with_transfer conn h (on_recv (attachChannel channel)) m
           | _ =>
               let l := default [] (mget transferId (fm_pendingChannels m)) ++ [channel] in
               fu_pending (mset transferId l (fm_pendingChannels m)) (sadd transferId (fm_pendingTimers m)) m
           end
       end.

(** * Control messages *)

(** The test an offer must pass. *)
Definition offer_rejected (tuning : ResolvedTuning) (msg : OfferMessage) : option jsstr :=
  let expectedChunks := if decide (of_size msg = 0) then 0 else ceil_div (of_size msg) (of_chunkSize msg) in
  let tooLarge := match rv_maxFileSize tuning with Some n => bool_decide (n < of_size msg) | None => false end in
  let checksumRequired := rv_checksum tuning && negb (of_checksum msg) in
  if negb (bool_decide (of_totalChunks msg = expectedChunks)) || tooLarge || checksumRequired then
    Some (if tooLarge then js "file exceeds size limit"
          else if checksumRequired then js "checksum required"
          else js "inconsistent offer")
  else None.

Definition fm_onOffer (conn : jsstr → bool) (peer : jsstr) (msg : OfferMessage) m : FileTransferManager :=
  let id := of_transferId msg in
  match lookup_transfer id m with
  | Some (h, ARecv t) => with_transfer conn h (on_recv requestResume) m
  | Some (_, ASend _) => m
  | None =>
      match offer_rejected (fm_tuning m) msg with
      | Some reason =>
          let '(m1, threw) := fm_sendControl conn peer (MReject id (Some reason)) m in
          if threw : bool then m1
          else discardPendingChannels id (fm_emit (FmError InvalidFrame) m1)
      | None =>
          let metadata := mkMeta (of_name msg) (of_mimeType msg) (of_size msg) in
          let transfer := newReceive id peer metadata (of_chunkSize msg) (of_totalChunks msg)
                            (of_checksum msg) in
          let '(m1, h) := fm_register (ARecv transfer) m in
          let m2 := match mget id (fm_pendingChannels m1) with
                    | Some pending =>
                        let attach m ch := with_transfer conn h (on_recv (attachChannel ch)) m in
                        let m' := fold_left attach pending m1 in
                        fu_pending (mdel id (fm_pendingChannels m')) (sdel id (fm_pendingTimers m')) m'
                    | None => m1
                    end in
          fm_emit (FmIncomingOffer h) m2
      end
  end.

(** [_routeControl]. *)
Definition routeControl (conn : jsstr → bool) (peer : jsstr) (msg : ControlMessage) m
    : FileTransferManager :=
  match msg with
  | MOffer o => fm_onOffer conn peer o m
  | _ =>
      match lookup_transfer (msg_id msg) m with
      | Some (h, ASend _) => with_transfer conn h (on_send (st_handleControl msg)) m
      | Some (h, ARecv _) => with_transfer conn h (on_recv (handleControl msg)) m
      | None => m
      end
  end.

(** [_onControlRaw]. *)
Definition onControlRaw (conn : jsstr → bool) (peer : jsstr) (raw : frame) m : FileTransferManager :=
  match raw with
  | NotJson => fm_emit (FmError InvalidFrame) m
  | Json v => match parseControl v with None => m | Some msg => routeControl conn peer msg m end
  end.

(** * Closing *)

Definition cancel_any (reason : option jsstr) (o : any_transfer) : any_transfer :=
  match o with ASend t => ASend (st_cancel reason t) | ARecv t => ARecv (cancel reason t) end.

(** A receive transfer's [cancel] throws when its message cannot be sent, and the
    exception leaves [close]; then the rest is not done. *)
Fixpoint cancel_all (conn : jsstr → bool) (hs : list nat) m : FileTransferManager * bool :=
  match hs with
  | [] => (m, false)
  | h :: hs' =>
      match fm_objects m !! h with
      | None => cancel_all conn hs' m
      | Some o =>
          let threw := match o with
                       | ARecv t => negb (isTerminal t) && negb (can_send conn (tb_peerId (rt_base t)) m)
                       | ASend _ => false end in
          let m1 := with_transfer conn h (cancel_any (Some (js "manager closed"))) m in
          if threw : bool then (m1, true) else cancel_all conn hs' m1
      end
  end.

Definition close_link (i : option nat) (ls : list (jsstr * ControlLink)) : list (jsstr * ControlLink) :=
  match i with Some i => alter (λ l, (l.1, link_close l.2)) i ls | None => ls end.

Definition fm_close (conn : jsstr → bool) m : FileTransferManager * bool :=
  if fm_closed m then (m, false)
  else
    let m1 := fu_closed m in
    match cancel_all conn (mvals (fm_transfers m1)) m1 with
    | (m2, true) => (m2, true)
    | (m2, false) =>
        let m3 := fu_transfers [] m2 in
        let links := fold_left (λ ls pc, close_link (pc_in pc) (close_link (pc_out pc) ls))
                       (mvals (fm_control m3)) (fm_links m3) in
        let m4 := fu_links [] links m3 in
        (fold_left (λ m id, discardPendingChannels id m) (mkeys (fm_pendingChannels m4)) m4, false)
    end.

(** * Runs *)

Inductive fm_action :=
| FSendFile (peer : jsstr) (input : SendInput) (opts : TransferTuning) (transferId : option jsstr)
    (newId : jsstr)
| FResumeSend (transferId : jsstr)
| FInbound (peer label : jsstr) (channel : Z) (ready : readyState)
| FRaw (link : nat) (raw : frame)
| FLinkOpened (link : nat)
| FTimer (transferId : jsstr)
| FSendAction (h : nat) (a : st_action)
| FRecvAction (h : nat) (a : rt_action K)
| FClose.

(** [conn] is what the hub answers at the time. *)
Definition fm_step (conn : jsstr → bool) (a : fm_action) m : FileTransferManager :=
  match a with
  | FSendFile peer input opts transferId newId => (sendFile conn peer input opts transferId newId m).1
  | FResumeSend transferId => (resumeSend conn transferId m).1
  | FInbound peer label channel ready => handleInboundChannel conn peer label channel ready m
  | FRaw link raw =>
      match fm_links m !! link with
      | Some (peer, _) => onControlRaw conn peer raw m
      | None => m
      end
  | FLinkOpened link => fu_links (fm_control m) (alter (λ l, (l.1, link_opened l.2)) link (fm_links m)) m
  | FTimer transferId =>
      if bool_decide (transferId ∈ fm_pendingTimers m) then discardPendingChannels transferId m else m
  | FSendAction h a => with_transfer conn h (on_send (λ t, st_step t a)) m
  | FRecvAction h a => with_transfer conn h (on_recv (λ t, rt_step t a)) m
  | FClose => (fm_close conn m).1
  end.

Definition fm_run (as_ : list ((jsstr → bool) * fm_action)) m : FileTransferManager :=
  fold_left (λ m a, fm_step a.1 a.2 m) as_ m.
End manager.
Arguments any_transfer : clear implicits.
Arguments FileTransferManager : clear implicits.
Arguments fm_action : clear implicits.
