(* ===== verification/ManagerTheorems.v ===== *)
(** What the manager of file transfers guarantees. *)

From S2P Require Import Prelude JsMap JsNumber Json Uint8Array Framing Checksum Sink Transfer Schema Control Reassembly ReceiveTransfer ReceiveLive SendTransfer SendLemmas SendInvariant SendTheorems FileTransferManager.

Section manager.
Context {K : Type} `{StorageSink K} `{SubtleCrypto}.
Context (error_message : FileTransferErrorCode → jsstr).
Abbreviation manager := (FileTransferManager K).
Implicit Types (m : manager) (o : any_transfer K).

(** * Operations of one transfer *)

(** What an operation never changes. *)
Definition same_transfer o o' : Prop :=
  match o, o' with
  | ASend t, ASend t' => ids t' = ids t
  | ARecv t, ARecv t' => fixed t' = fixed t
  | _, _ => False
  end.

#[export] Instance same_transfer_preorder : PreOrder same_transfer.
Proof.
  split.
  - by intros [].
  - intros [] [] []; cbn; try done; congruence.
Qed.

Lemma same_id o o' : same_transfer o o' → tb_id (at_base o') = tb_id (at_base o).
Proof. destruct o, o'; try done; cbn; unfold ids, fixed, fixed_base; congruence. Qed.

Lemma same_peer o o' : same_transfer o o' → tb_peerId (at_base o') = tb_peerId (at_base o).
Proof. destruct o, o'; try done; cbn; unfold ids, fixed, fixed_base; congruence. Qed.

Lemma same_up up o : same_transfer o (set_up up o).
Proof. by destruct o. Qed.

Lemma same_send a o : same_transfer o (on_send (λ t, st_step t a) o).
Proof. destruct o; [apply st_step_ids|done]. Qed.

Lemma same_recv a o : same_transfer o (on_recv (λ t, rt_step t a) o).
Proof. destruct o; [done|]. cbn -[fixed]. apply fixed_step. Qed.

(** * Links *)

Definition has_link (peer : jsstr) m : Prop :=
  pc_out (peerControl peer m) ≠ None ∨ pc_in (peerControl peer m) ≠ None.

(** Nothing but the links moved, and no peer lost its link. *)
Record only_links m m' : Prop := {
  ol_objects : fm_objects m' = fm_objects m;
  ol_transfers : fm_transfers m' = fm_transfers m;
  ol_pending : fm_pendingChannels m' = fm_pendingChannels m;
  ol_timers : fm_pendingTimers m' = fm_pendingTimers m;
  ol_closed : fm_closed m' = fm_closed m;
  ol_tuning : fm_tuning m' = fm_tuning m;
  ol_out : fm_out m' = fm_out m;
  ol_link peer : has_link peer m → has_link peer m';
  ol_links i peer l : fm_links m' !! i = Some (peer, l) →
    has_link peer m' ∨ ∃ l', fm_links m !! i = Some (peer, l');
}.

#[export] Instance only_links_preorder : PreOrder only_links.
Proof.
  split.
  - intros m. constructor; try done. intros i peer l Hl. right. eauto.
  - intros m1 m2 m3 [] []. constructor; try congruence; [auto|].
    intros i peer l Hl. destruct (ol_links1 i peer l Hl) as [|[l' Hl']]; [auto|].
    destruct (ol_links0 i peer l' Hl'); auto.
Qed.

Lemma peerControl_mset peer peer' pc m ls :
  peerControl peer (fu_links (mset peer' pc (fm_control m)) ls m)
  = if decide (peer = peer') then pc else peerControl peer m.
Proof. unfold peerControl. cbn. rewrite mget_mset. by destruct (decide _). Qed.

Lemma ensure_only conn peer m :
  let '(m', i) := ensureSendLink conn peer m in
  only_links m m' ∧ (i ≠ None ↔ can_send conn peer m = true) ∧ (i ≠ None → has_link peer m').
Proof.
  unfold ensureSendLink, can_send. cbv zeta.
  set (pc := peerControl peer m). set (m0 := fu_links (mset peer pc (fm_control m)) (fm_links m) m).
  assert (Hp : ∀ p, peerControl p m0 = peerControl p m).
  { intros p. unfold m0. rewrite peerControl_mset. by destruct (decide _) as [->|]. }
  assert (E0 : only_links m m0).
  { constructor; try done; [intros p; unfold has_link; by rewrite Hp|].
    intros i p l Hl. right. eauto. }
  destruct (pc_out pc) as [i|] eqn:Eo; [|destruct (pc_in pc) as [i|] eqn:Ei; [|destruct (conn peer) eqn:Ec]].
  - split; [done|]. split; [done|]. intros _. left. rewrite Hp. fold pc. by rewrite Eo.
  - split; [done|]. split; [done|]. intros _. right. rewrite Hp. fold pc. by rewrite Ei.
  - unfold add_link. cbn [fst snd].
    set (m1 := fu_links (fm_control m0) (fm_links m0 ++ [(peer, newControlLink Connecting)]) m0).
    set (m2 := fu_links (mset peer (mkPeerControl (Some (length (fm_links m0))) None) (fm_control m1))
                 (fm_links m1) m1).
    assert (Hp2 : ∀ p, peerControl p m2 = if decide (p = peer)
      then mkPeerControl (Some (length (fm_links m0))) None else peerControl p m0).
    { intros p. unfold m2. by rewrite peerControl_mset. }
    assert (Hl2 : has_link peer m2) by (left; rewrite Hp2, decide_True by done; done).
    split; [|split; [by split; intros _|intros _; exact Hl2]].
    etrans; [exact E0|]. constructor; try done.
    + intros p Hl. destruct (decide (p = peer)) as [->|Hne]; [done|].
      unfold has_link. rewrite Hp2, decide_False by done. exact Hl.
    + intros i p l. unfold m2. cbn. intros [Hl|[_ Hl]]%lookup_app_Some; [by eauto|].
      apply list_lookup_singleton_Some in Hl as [_ [= <- _]]. by left.
  - split; [done|]. split; [by split|done].
Qed.

Lemma sendControl_only conn peer msg m :
  only_links m (fm_sendControl conn peer msg m).1
  ∧ (fm_sendControl conn peer msg m).2 = negb (can_send conn peer m).
Proof.
  unfold fm_sendControl. pose proof (ensure_only conn peer m) as He.
  destruct (ensureSendLink conn peer m) as [m1 [i|]]; destruct He as (Ho & Hc & Hl); cbn [fst snd].
  - split; [|by rewrite (proj1 Hc ltac:(done))]. etrans; [exact Ho|]. constructor; try done.
    intros j p l Hj. cbn in Hj. right. destruct (decide (i = j)) as [<-|Hne].
    + rewrite list_lookup_alter_eq in Hj. destruct (fm_links m1 !! i) as [[p' l']|]; [|done].
      cbn in Hj. injection Hj as -> _. eauto.
    + rewrite list_lookup_alter_ne in Hj by done. eauto.
  - split; [done|]. destruct (can_send conn peer m); [|done]. by destruct (proj2 Hc).
Qed.

Lemma send_all_only conn peer msgs m :
  only_links m (fold_left (λ m msg, (fm_sendControl conn peer msg m).1) msgs m).
Proof.
  revert m. induction msgs as [|msg msgs IH]; intros m; [reflexivity|].
  rewrite fold_left_cons. etrans; [apply (sendControl_only conn peer msg)|apply IH].
Qed.

Lemma can_send_link conn peer m : has_link peer m → can_send conn peer m = true.
Proof. unfold has_link, can_send. intros [Hl|Hl];
  destruct (pc_out (peerControl peer m)), (pc_in (peerControl peer m)); done. Qed.

(** * The invariant *)

(** The options the manager was made with. *)
Context (tuning : ResolvedTuning).

(** An offer that was let through. *)
Definition accepted_offer (t : ReceiveTransfer K) : Prop :=
  let b := rt_base t in
  let size := md_size (tb_metadata b) in
  0 < tb_chunkSize b ∧ 0 ≤ size ∧ tb_totalChunks b = ceil_div size (tb_chunkSize b)
  ∧ (∀ n, rv_maxFileSize tuning = Some n → size ≤ n) ∧ (rv_checksum tuning = true → rt_checksum t = true).

Record mgr_ok m : Prop := {
  mk_wf : mwf (fm_transfers m);
  mk_registered id h : mget id (fm_transfers m) = Some h →
    ∃ o, fm_objects m !! h = Some o ∧ tb_id (at_base o) = id ∧ at_terminal o = false;
  mk_offers h t : fm_objects m !! h = Some (ARecv t) → accepted_offer t;
  mk_timers id : id ∈ fm_pendingTimers m ↔ is_Some (mget id (fm_pendingChannels m));
  mk_waiting id h t : mget id (fm_transfers m) = Some h → fm_objects m !! h = Some (ARecv t) →
    mget id (fm_pendingChannels m) = None;
  mk_links i peer l : fm_closed m = false → fm_links m !! i = Some (peer, l) → has_link peer m;
  mk_peers h t : fm_closed m = false → fm_objects m !! h = Some (ARecv t) →
    has_link (tb_peerId (rt_base t)) m;
  mk_tuning : fm_tuning m = tuning;
}.

Lemma accepted_same t t' : fixed t' = fixed t → accepted_offer t → accepted_offer t'.
Proof.
  unfold fixed, fixed_base, accepted_offer. intros Hf. injection Hf as _ _ -> -> -> ->. done.
Qed.

Lemma only_links_ok m m' : only_links m m' → mgr_ok m → mgr_ok m'.
Proof.
  intros [Ho Ht Hp Hti Hc Htu _ Hl Hls] [O1 O2 O3 O4 O5 O6 O7 O8].
  constructor; rewrite ?Ho, ?Ht, ?Hp, ?Hti, ?Hc, ?Htu; try done.
  - intros i peer l Hcl Hi. destruct (Hls i peer l Hi) as [|[l' Hl']]; [done|eauto].
  - intros h t Hcl Hh. eauto.
Qed.

(** An operation of transfer [h]. *)
Lemma with_transfer_spec conn h f m o :
  fm_objects m !! h = Some o →
  let o0 := set_up (can_send conn (tb_peerId (at_base o)) m) o in
  ∃ m1, only_links m1 (with_transfer error_message conn h f m) ∧
    m1 = (let m' := fu_objects (<[h := f o0]> (fm_objects m)) m in
          if negb (at_terminal o0) && at_terminal (f o0)
          then fu_transfers (mdel (tb_id (at_base (f o0))) (fm_transfers m)) m' else m').
Proof.
  intros Ho o0. unfold with_transfer. rewrite Ho. cbv zeta. fold o0.
  eexists. split; [apply send_all_only|]. done.
Qed.

Lemma with_transfer_ok conn h f m :
  (∀ o, same_transfer o (f o)) → mgr_ok m → mgr_ok (with_transfer error_message conn h f m).
Proof.
  intros Hf Hok. destruct (fm_objects m !! h) as [o|] eqn:Ho.
  2:{ unfold with_transfer. by rewrite Ho. }
  destruct (with_transfer_spec conn h f m o Ho) as (m1 & Honly & Hm1).
  eapply only_links_ok; [exact Honly|]. clear Honly.
  set (o0 := set_up (can_send conn (tb_peerId (at_base o)) m) o) in *.
  assert (Hsame : same_transfer o (f o0)) by (etrans; [apply same_up|apply Hf]).
  pose proof (same_id _ _ Hsame) as Hid.
  assert (Hterm0 : at_terminal o0 = at_terminal o) by (by destruct o).
  destruct Hok as [O1 O2 O3 O4 O5 O6 O7 O8].
  assert (Hlt : (h < length (fm_objects m))%nat) by (by eapply lookup_lt_Some).
  (* the objects *)
  assert (Hobj : ∀ h' o', <[h := f o0]> (fm_objects m) !! h' = Some o' →
    ∃ o1, fm_objects m !! h' = Some o1 ∧ same_transfer o1 o' ∧ (h' = h ∨ o1 = o')).
  { intros h' o'. destruct (decide (h' = h)) as [->|Hne].
    - rewrite list_lookup_insert_eq by done. intros [= <-]. eauto.
    - rewrite list_lookup_insert_ne by done. intros Hh. exists o'. split; [done|]. split; [reflexivity|by right]. }
  assert (Hrecv : ∀ h' t', <[h := f o0]> (fm_objects m) !! h' = Some (ARecv t') →
    ∃ t, fm_objects m !! h' = Some (ARecv t) ∧ fixed t' = fixed t).
  { intros h' t' Hh. destruct (Hobj _ _ Hh) as ([] & Hh' & Hs & _); [done|]. eauto. }
  set (gone := negb (at_terminal o0) && at_terminal (f o0)) in *.
  assert (Htr : ∀ id h', mget id (fm_transfers m1) = Some h' →
    mget id (fm_transfers m) = Some h' ∧ (gone = true → id ≠ tb_id (at_base o))).
  { intros id h'. rewrite Hm1. cbv zeta. destruct gone; cbn; [|by split].
    rewrite mget_mdel, Hid. destruct (decide _); [done|]. by split. }
  assert (Hfields : fm_objects m1 = <[h := f o0]> (fm_objects m) ∧ fm_pendingChannels m1 = fm_pendingChannels m
    ∧ fm_pendingTimers m1 = fm_pendingTimers m ∧ fm_closed m1 = fm_closed m ∧ fm_tuning m1 = fm_tuning m
    ∧ fm_links m1 = fm_links m ∧ fm_control m1 = fm_control m) by (rewrite Hm1; cbv zeta; by destruct gone).
  destruct Hfields as (F1 & F2 & F3 & F4 & F5 & F6 & F7).
  assert (Hlink : ∀ p, has_link p m1 ↔ has_link p m) by (intros p; unfold has_link, peerControl; by rewrite F7).
  constructor; rewrite ?F1, ?F2, ?F3, ?F4, ?F5, ?F6.
  - rewrite Hm1. cbv zeta. destruct gone; cbn; [by apply mwf_mdel|done].
  - intros id h' Hh. destruct (Htr id h' Hh) as [Hh' Hg].
    destruct (O2 id h' Hh') as (o1 & Ho1 & Hid1 & Hterm1).
    destruct (decide (h' = h)) as [->|Hne].
    + rewrite Ho in Ho1. injection Ho1 as <-. exists (f o0). rewrite list_lookup_insert_eq by done.
      split; [done|]. split; [congruence|]. destruct (at_terminal (f o0)) eqn:Et; [|done].
      exfalso. apply Hg; [|done]. unfold gone. by rewrite Hterm0, Hterm1.
    + exists o1. by rewrite list_lookup_insert_ne.
  - intros h' t' Hh. destruct (Hrecv _ _ Hh) as (t & Hh' & Hfx). eapply accepted_same; eauto.
  - done.
  - intros id h' t' Hh Hh2. destruct (Hrecv _ _ Hh2) as (t & Hh' & _). destruct (Htr _ _ Hh). eauto.
  - intros i peer l Hc Hi. apply Hlink. eauto.
  - intros h' t' Hc Hh. destruct (Hrecv _ _ Hh) as (t & Hh' & Hfx). apply Hlink.
    unfold fixed, fixed_base in Hfx. injection Hfx as _ -> _ _ _ _. eauto.
  - exact O8.
Qed.

(** * Attaching channels *)

Lemma attach_spec conn h ch m t :
  fm_objects m !! h = Some (ARecv t) →
  ∃ t', with_transfer error_message conn h (on_recv (attachChannel ch)) m
        = fu_objects (<[h := ARecv t']> (fm_objects m)) m
    ∧ rt_base t' = rt_base t ∧ rt_checksum t' = rt_checksum t ∧ rt_channels t' = sadd ch (rt_channels t).
Proof.
  intros Ho. unfold with_transfer. rewrite Ho. cbv zeta. cbn [set_up on_recv messages].
  set (t0 := s_control_up _ t). exists (attachChannel ch t0).
  assert (omap (recv_message error_message (attachChannel ch t0))
            (drop (length (rt_out t0)) (rt_out (attachChannel ch t0))) = []) as ->.
  { change (rt_out (attachChannel ch t0)) with (rt_out t0). by rewrite drop_all. }
  assert (negb (at_terminal (ARecv t0)) && at_terminal (ARecv (attachChannel ch t0)) = false) as ->.
  { change (at_terminal (ARecv (attachChannel ch t0))) with (at_terminal (ARecv t0)).
    by destruct (at_terminal _). }
  done.
Qed.

Lemma attach_all conn h chs m t :
  fm_objects m !! h = Some (ARecv t) →
  ∃ t', fold_left (λ m ch, with_transfer error_message conn h (on_recv (attachChannel ch)) m) chs m
        = fu_objects (<[h := ARecv t']> (fm_objects m)) m
    ∧ rt_base t' = rt_base t ∧ rt_checksum t' = rt_checksum t
    ∧ rt_channels t' = fold_left (λ s x, sadd x s) chs (rt_channels t).
Proof.
  revert m t. induction chs as [|ch chs IH]; intros m t Ho.
  - exists t. split; [|done]. cbn. rewrite list_insert_id by done. by destruct m.
  - rewrite !fold_left_cons. destruct (attach_spec conn h ch m t Ho) as (t1 & -> & Hb & Hc & Hch).
    assert (Hlt : (h < length (fm_objects m))%nat) by (by eapply lookup_lt_Some).
    destruct (IH (fu_objects (<[h := ARecv t1]> (fm_objects m)) m) t1) as (t' & -> & Hb' & Hc' & Hch').
    { cbn. by rewrite list_lookup_insert_eq. }
    exists t'. split; [cbn; by rewrite list_insert_insert_eq|]. rewrite <- Hch. split; [congruence|].
    split; [congruence|done].
Qed.

(** * Every step keeps the invariant *)

Lemma pending_out e m : mgr_ok m → mgr_ok (fm_emit e m).
Proof. intros []. by constructor. Qed.

Lemma discard_ok id m : mgr_ok m → mgr_ok (discardPendingChannels id m).
Proof.
  intros [O1 O2 O3 O4 O5 O6 O7 O8]. unfold discardPendingChannels. cbv zeta.
  change (fm_pendingChannels (fu_pending ?p ?q m)) with p.
  assert (Hemit : ∀ pending m0, mgr_ok m0 → mgr_ok (fold_left (λ m ch, fm_emit (FmCloseChannel ch) m) pending m0)).
  { induction pending as [|ch pending IH]; intros m0 Hm0; [done|]. rewrite fold_left_cons. by apply IH, pending_out. }
  destruct (mget id (fm_pendingChannels m)) as [pending|] eqn:Ep; [apply Hemit|]; constructor; try done; cbn.
  - intros id'. rewrite elem_of_sdel, mget_mdel, O4. destruct (decide (id' = id)) as [->|]; [|tauto].
    split; [tauto|intros [? [=]]].
  - intros id' h t Hh Ht. rewrite mget_mdel. destruct (decide _); [done|]. eauto.
  - intros id'. rewrite elem_of_sdel, O4. split; [tauto|]. intros Hs. split; [|done].
    intros ->. rewrite Ep in Hs. by destruct Hs.
Qed.

Lemma register_send_ok t m : tb_terminal (st_base t) = false → mgr_ok m → mgr_ok (fm_register (ASend t) m).1.
Proof.
  intros Ht [O1 O2 O3 O4 O5 O6 O7 O8]. unfold fm_register. cbn [fst].
  assert (Hlk : ∀ h t', (fm_objects m ++ [ASend t]) !! h = Some (ARecv t') → fm_objects m !! h = Some (ARecv t')).
  { intros h t' [|[_ Hx]]%lookup_app_Some; [done|]. by apply list_lookup_singleton_Some in Hx as []. }
  constructor; try done; cbn.
  - by apply mwf_mset.
  - intros id h. rewrite mget_mset. destruct (decide (id = tb_id (st_base t))) as [->|Hne].
    + intros [= <-]. exists (ASend t). by rewrite lookup_app_r, Nat.sub_diag by lia.
    + intros Hh. destruct (O2 id h Hh) as (o & Ho & Hid & Hterm). exists o. split; [|done].
      by apply lookup_app_l_Some.
  - intros h t' Hh%Hlk. eauto.
  - intros id h t'. rewrite mget_mset. destruct (decide (id = tb_id (st_base t))) as [->|Hne].
    + intros [= <-] Hh%Hlk. apply lookup_lt_Some in Hh. lia.
    + intros Hh Hh2%Hlk. eauto.
  - intros h t' Hc Hh%Hlk. eauto.
Qed.

Lemma open_ok conn peer n m m1 r : openChannels conn peer n m = (m1, r) → mgr_ok m → mgr_ok m1.
Proof.
  unfold openChannels. destruct (decide (n ≤ 0)); [by intros [= <- _]|].
  destruct (conn peer); intros [= <- _]; [|done]. intros []. by constructor.
Qed.

Lemma same_step_send a : ∀ o, same_transfer o (on_send (λ t, st_step t a) o).
Proof. intros o. apply same_send. Qed.

Lemma sendFile_ok conn peer input opts tid newId m :
  mgr_ok m → mgr_ok (sendFile error_message conn peer input opts tid newId m).1.
Proof.
  intros Hok. unfold sendFile. destruct (fm_closed m); [done|]. cbv zeta.
  destruct (openChannels _ _ _ m) as [m1 [chs|]] eqn:Eo; [|by eapply open_ok].
  apply (open_ok _ _ _ _ _ _ Eo) in Hok.
  set (t := newSend _ _ _ _ _). pose proof (register_send_ok t m1 eq_refl Hok) as Hr.
  destruct (fm_register (ASend t) m1) as [m2 h]. apply with_transfer_ok; [apply (same_send SStart)|done].
Qed.

Lemma resumeSend_ok conn id m : mgr_ok m → mgr_ok (resumeSend error_message conn id m).1.
Proof.
  intros Hok. unfold resumeSend. destruct (lookup_transfer id m) as [[h []]|]; try done.
  destruct (negb _); [done|]. destruct (openChannels _ _ _ m) as [m1 [chs|]] eqn:Eo; [|by eapply open_ok].
  apply with_transfer_ok; [apply (same_send (SReoffer chs))|by eapply open_ok].
Qed.

Lemma lookup_transfer_Some id m h o :
  lookup_transfer id m = Some (h, o) ↔ mget id (fm_transfers m) = Some h ∧ fm_objects m !! h = Some o.
Proof.
  unfold lookup_transfer. destruct (mget id (fm_transfers m)) as [h'|]; cbn; [|by split; [|intros []]].
  destruct (fm_objects m !! h') as [o'|] eqn:E; cbn.
  - split; [intros [= <- <-]; done|]. intros [[= ->] Ho]. congruence.
  - split; [done|]. intros [[= ->] Ho]. congruence.
Qed.

Lemma add_in_link_ok peer ready m :
  mgr_ok m →
  let '(m1, i) := add_link peer ready m in
  mgr_ok (fu_links (mset peer (mkPeerControl (pc_out (peerControl peer m1)) (Some i)) (fm_control m1))
            (fm_links m1) m1).
Proof.
  intros Hok. unfold add_link.
  set (m1 := fu_links (fm_control m) (fm_links m ++ [(peer, newControlLink ready)]) m).
  set (m2 := fu_links (mset peer _ (fm_control m1)) (fm_links m1) m1).
  assert (Hl : ∀ p, has_link p m ∨ p = peer → has_link p m2).
  { intros p Hp. unfold has_link. unfold m2. rewrite peerControl_mset.
    destruct (decide (p = peer)) as [->|Hne]; [by right|]. destruct Hp as [Hp|]; [exact Hp|done]. }
  destruct Hok as [O1 O2 O3 O4 O5 O6 O7 O8]. constructor; try done.
  - intros i p l Hc Hi. cbn in Hi. apply Hl. apply lookup_app_Some in Hi as [Hi|[_ Hi]]; [left; eauto|].
    apply list_lookup_singleton_Some in Hi as [_ [= <- _]]. by right.
  - intros h t Hc Hh. apply Hl. left. eauto.
Qed.

Lemma inbound_ok conn peer label ch ready m :
  mgr_ok m → mgr_ok (handleInboundChannel error_message conn peer label ch ready m).
Proof.
  intros Hok. unfold handleInboundChannel. destruct (fm_closed m); [done|].
  destruct (decide _); [by apply add_in_link_ok|].
  destruct (parseDataChannelLabel label) as [[id lane_no]|]; [|done].
  assert (Hpend : (∀ h t, lookup_transfer id m ≠ Some (h, ARecv t)) → mgr_ok
    (fu_pending (mset id (default [] (mget id (fm_pendingChannels m)) ++ [ch]) (fm_pendingChannels m))
       (sadd id (fm_pendingTimers m)) m)).
  { intros Hno. destruct Hok as [O1 O2 O3 O4 O5 O6 O7 O8]. constructor; try done; cbn.
    - intros id'. rewrite elem_of_sadd, mget_mset, O4. destruct (decide (id' = id)) as [->|]; [|tauto].
      split; [eauto|auto].
    - intros id' h t Hh Ht. rewrite mget_mset. destruct (decide (id' = id)) as [->|]; [|eauto].
      destruct (Hno h t). by apply lookup_transfer_Some. }
  destruct (lookup_transfer id m) as [[h [t|t]]|] eqn:El; [by apply Hpend| |by apply Hpend].
  apply with_transfer_ok; [apply (same_recv (AAttach ch))|done].
Qed.

(** An offer whose numbers the schema let through. *)
Lemma offer_accepted peer msg :
  control_ok (MOffer msg) → offer_rejected tuning msg = None →
  accepted_offer (newReceive (of_transferId msg) peer (mkMeta (of_name msg) (of_mimeType msg) (of_size msg))
    (of_chunkSize msg) (of_totalChunks msg) (of_checksum msg)).
Proof.
  intros (_ & (Hs & _) & (Hcs & _) & _) Er. unfold offer_rejected in Er. cbv zeta in Er. destruct (_ || _) eqn:E; [done|].
  apply orb_false_iff in E as [[E1 E2]%orb_false_iff E3]. apply negb_false_iff, bool_decide_eq_true in E1.
  set (t := newReceive _ _ _ _ _ _).
  assert (tb_metadata (rt_base t) = mkMeta (of_name msg) (of_mimeType msg) (of_size msg)) as Hm by done.
  assert (tb_chunkSize (rt_base t) = of_chunkSize msg) as Hch by done.
  assert (tb_totalChunks (rt_base t) = of_totalChunks msg) as Htc by done.
  assert (rt_checksum t = of_checksum msg) as Hck by done.
  unfold accepted_offer. rewrite Hm, Hch, Htc, Hck. cbn. split_and!; [done|done| | |].
  - rewrite E1. destruct (decide (of_size msg = 0)) as [->|]; [|done].
    unfold ceil_div. change (- 0) with 0. rewrite Z.div_0_l; [done|]. lia.
  - intros mx En. rewrite En in E2. apply bool_decide_eq_false in E2. lia.
  - intros Hc. rewrite Hc in E3. by destruct (of_checksum msg).
Qed.

(** The channels that waited for an offer are attached to its receive [h]. *)
Lemma waiting_attached conn h id m m1 t :
  mgr_ok m → fm_objects m1 = fm_objects m ++ [ARecv t] → h = length (fm_objects m) →
  fm_pendingChannels m1 = fm_pendingChannels m → fm_pendingTimers m1 = fm_pendingTimers m →
  ∃ t' pend tim,
    match mget id (fm_pendingChannels m1) with
    | Some pending =>
        let m' := fold_left (λ m ch, with_transfer error_message conn h (on_recv (attachChannel ch)) m) pending m1 in
        fu_pending (mdel id (fm_pendingChannels m')) (sdel id (fm_pendingTimers m')) m'
    | None => m1
    end = fu_pending pend tim (fu_objects (fm_objects m ++ [ARecv t']) m1)
    ∧ rt_base t' = rt_base t ∧ rt_checksum t' = rt_checksum t
    ∧ mget id pend = None ∧ (id ∉ tim) ∧ (∀ id', id' ≠ id → mget id' pend = mget id' (fm_pendingChannels m))
    ∧ (∀ id', id' ≠ id → id' ∈ tim ↔ id' ∈ fm_pendingTimers m).
Proof.
  intros Hok Ho -> Hp Ht.
  assert (Hobj : fm_objects m1 !! length (fm_objects m) = Some (ARecv t)) by (by rewrite Ho, lookup_app_r, Nat.sub_diag by lia).
  destruct (mget id (fm_pendingChannels m1)) as [pending|] eqn:Ep; cbv zeta.
  - destruct (attach_all conn _ pending m1 t Hobj) as (t' & -> & Hb & Hc & _).
    exists t', (mdel id (fm_pendingChannels m)), (sdel id (fm_pendingTimers m)). cbn. rewrite Ho, Hp, Ht.
    split; [f_equal; f_equal; by rewrite insert_app_r_alt, Nat.sub_diag by lia|].
    split_and!; [done|done|by rewrite mget_mdel_eq|rewrite elem_of_sdel; tauto|intros; by rewrite mget_mdel_ne|].
    intros id' Hne. rewrite elem_of_sdel. tauto.
  - exists t, (fm_pendingChannels m), (fm_pendingTimers m). rewrite <- Ho, <- Hp, <- Ht, Ep. split; [by destruct m1|].
    split_and!; try done. rewrite Ht, (mk_timers _ Hok), <- Hp, Ep. by intros [].
Qed.

Lemma offer_ok conn peer msg m :
  mgr_ok m → (fm_closed m = false → has_link peer m) → control_ok (MOffer msg) →
  mgr_ok (fm_onOffer error_message conn peer msg m).
Proof.
  intros Hok Hlink Hctl. unfold fm_onOffer. cbv zeta.
  destruct (lookup_transfer (of_transferId msg) m) as [[h [t|t]]|] eqn:El; [done| |].
  { apply with_transfer_ok; [apply (same_recv ARequestResume)|done]. }
  rewrite (mk_tuning _ Hok). destruct (offer_rejected tuning msg) as [reason|] eqn:Er.
  { pose proof (sendControl_only conn peer (MReject (of_transferId msg) (Some reason)) m) as [Ho _].
    destruct (fm_sendControl _ _ _ m) as [m1 []]; cbn in Ho; [by eapply only_links_ok|].
    apply discard_ok, pending_out. by eapply only_links_ok. }
  apply pending_out. pose proof (offer_accepted peer msg Hctl Er) as Hacc.
  unfold fm_register. cbn [fst snd at_base]. cbv zeta. set (t := newReceive _ _ _ _ _ _) in *. set (id := of_transferId msg) in *.
  set (m1 := fu_transfers _ _). set (h := length (fm_objects m)).
  pose proof (waiting_attached conn h id m m1 t Hok eq_refl eq_refl eq_refl eq_refl) as Hwait. cbv zeta in Hwait.
  destruct Hwait as (t' & pend & tim & -> & Hb & Hc & Hp1 & Hp2 & Hp3 & Hp4).
  destruct Hok as [O1 O2 O3 O4 O5 O6 O7 O8].
  assert (Hlk : ∀ h' t0, (fm_objects m ++ [ARecv t']) !! h' = Some (ARecv t0) →
    fm_objects m !! h' = Some (ARecv t0) ∨ (h' = h ∧ t0 = t')).
  { intros h' t0 [|[Hle Hx]]%lookup_app_Some; [by left|]. right.
    apply list_lookup_singleton_Some in Hx as [Hx [= ->]]. split; [unfold h; lia|done]. }
  constructor; cbn; try done.
  - by apply mwf_mset.
  - intros id' h'. change (tb_id (rt_base t)) with id. rewrite mget_mset. destruct (decide (id' = id)) as [->|Hne].
    + intros [= <-]. exists (ARecv t'). rewrite lookup_app_r, Nat.sub_diag by (unfold h; lia).
      split; [done|]. unfold at_terminal. cbn. by rewrite Hb.
    + intros Hh. destruct (O2 id' h' Hh) as (o & Ho & Hid & Hterm). exists o. split; [by apply lookup_app_l_Some|done].
  - intros h' t0 [Hh|[-> ->]]%Hlk; [eauto|]. unfold accepted_offer in *. by rewrite Hb, Hc.
  - intros id'. destruct (decide (id' = id)) as [->|Hne]; [rewrite Hp1; split; [tauto|by intros []]|]. by rewrite Hp3, Hp4, O4.
  - intros id' h' t0. change (tb_id (rt_base t)) with id. rewrite mget_mset.
    destruct (decide (id' = id)) as [->|Hne]; [done|]. intros Hh [Hh2|[-> ->]]%Hlk; [rewrite Hp3 by done; eauto|].
    destruct (O2 id' h Hh) as (o & Ho & _). apply lookup_lt_Some in Ho. unfold h in Ho. lia.
  - intros h' t0 Hcl [Hh|[-> ->]]%Hlk; [exact (O7 h' t0 Hcl Hh)|]. rewrite Hb. exact (Hlink Hcl).
Qed.

Lemma route_ok conn peer msg m :
  mgr_ok m → (fm_closed m = false → has_link peer m) → control_ok msg →
  mgr_ok (routeControl error_message conn peer msg m).
Proof.
  intros Hok Hl Hc. unfold routeControl.
  assert (Hs : ∀ msg o, same_transfer o (on_send (st_handleControl msg) o))
    by (intros; apply (same_send (SControl _))).
  assert (Hr : ∀ msg o, same_transfer o (on_recv (handleControl msg) o))
    by (intros; apply (same_recv (AControl _))).
  destruct msg; [by apply offer_ok|..];
    (destruct (lookup_transfer _ m) as [[h []]|]; [| |done]; by apply with_transfer_ok).
Qed.

Lemma raw_ok conn peer raw m :
  mgr_ok m → (fm_closed m = false → has_link peer m) → mgr_ok (onControlRaw error_message conn peer raw m).
Proof.
  intros Hok Hl. unfold onControlRaw. destruct raw as [|v]; [by apply pending_out|].
  destruct (parseControl v) as [msg|] eqn:Ep; [|done]. apply route_ok; [done..|]. by eapply parseControl_ok.
Qed.

Lemma same_cancel r : ∀ o, same_transfer o (cancel_any r o).
Proof. intros [t|t]; [apply (st_step_ids (SCancel r))|cbn -[fixed]; apply (fixed_step (ACancel r))]. Qed.

Lemma cancel_all_ok conn hs m : mgr_ok m → mgr_ok (cancel_all error_message conn hs m).1.
Proof.
  revert m. induction hs as [|h hs IH]; intros m Hok; [done|]. cbn [cancel_all].
  destruct (fm_objects m !! h) as [o|]; [|by apply IH]. cbv zeta.
  assert (mgr_ok (with_transfer error_message conn h (cancel_any (Some (js "manager closed"))) m)) as H1
    by (apply with_transfer_ok; [apply same_cancel|done]).
  destruct (match o with ASend _ => false | ARecv _ => _ end); [done|by apply IH].
Qed.

Lemma with_transfer_closed conn h f m : fm_closed (with_transfer error_message conn h f m) = fm_closed m.
Proof.
  destruct (fm_objects m !! h) as [o|] eqn:Ho; [|unfold with_transfer; by rewrite Ho].
  destruct (with_transfer_spec conn h f m o Ho) as (m1 & Honly & Hm1).
  rewrite (ol_closed _ _ Honly), Hm1. cbv zeta. by destruct (_ && _).
Qed.

Lemma cancel_all_closed conn hs m : fm_closed (cancel_all error_message conn hs m).1 = fm_closed m.
Proof.
  revert m. induction hs as [|h hs IH]; intros m; [done|]. cbn [cancel_all].
  destruct (fm_objects m !! h) as [o|]; [|by apply IH]. cbv zeta.
  destruct (match o with ASend _ => false | ARecv _ => _ end); [apply with_transfer_closed|].
  rewrite IH. apply with_transfer_closed.
Qed.

Lemma close_ok conn m : mgr_ok m → mgr_ok (fm_close error_message conn m).1.
Proof.
  intros Hok. unfold fm_close. destruct (fm_closed m); [done|]. cbv zeta.
  assert (mgr_ok (fu_closed m)) as H1 by (destruct Hok; by constructor).
  pose proof (cancel_all_ok conn (mvals (fm_transfers m)) (fu_closed m) H1) as H2.
  pose proof (cancel_all_closed conn (mvals (fm_transfers m)) (fu_closed m)) as Hc.
  cbn in Hc. change (fm_transfers (fu_closed m)) with (fm_transfers m).
  destruct (cancel_all _ _ _ (fu_closed m)) as [m2 []]; cbn in H2, Hc; [done|]. cbn [fst].
  match goal with |- mgr_ok (fold_left _ _ ?x) => set (m4 := x) end.
  assert (mgr_ok m4) as H4.
  { destruct H2 as [O1 O2 O3 O4 O5 O6 O7 O8]. constructor; cbn; try done; try (by constructor);
      intros; congruence. }
  clearbody m4. revert H4. generalize (mkeys (fm_pendingChannels m4)). intros l. revert m4.
  induction l as [|id l IH]; intros m4 H4; [done|]. rewrite fold_left_cons. by apply IH, discard_ok.
Qed.

Lemma fm_step_ok conn a m : mgr_ok m → mgr_ok (fm_step error_message conn a m).
Proof.
  intros Hok. destruct a; cbn [fm_step].
  - by apply sendFile_ok.
  - by apply resumeSend_ok.
  - by apply inbound_ok.
  - destruct (fm_links m !! link) as [[peer l]|] eqn:El; [|done]. apply raw_ok; [done|].
    intros Hc. by eapply mk_links.
  - destruct Hok as [O1 O2 O3 O4 O5 O6 O7 O8]. constructor; try done. cbn. intros i peer l Hc.
    destruct (decide (link = i)) as [<-|Hne].
    + rewrite list_lookup_alter_eq. destruct (fm_links m !! link) as [[p' l']|] eqn:E; [|done].
      intros [= <- _]. eauto.
    + rewrite list_lookup_alter_ne by done. eauto.
  - destruct (bool_decide _); [by apply discard_ok|done].
  - apply with_transfer_ok; [apply same_send|done].
  - apply with_transfer_ok; [apply same_recv|done].
  - by apply close_ok.
Qed.

Lemma fm_run_ok as_ m : mgr_ok m → mgr_ok (fm_run error_message as_ m).
Proof.
  revert m. induction as_ as [|a as_ IH]; intros m Hok; [done|]. unfold fm_run. rewrite fold_left_cons.
  by apply IH, fm_step_ok.
Qed.

Lemma new_manager_ok options : tuning = resolveTuning options no_options → mgr_ok (newManager options).
Proof.
  intros Htu.
  constructor; cbn; try done; try (by constructor); intros; try (by rewrite lookup_nil in * ).
  split; [by intros ?%elem_of_nil|by intros []].
Qed.
End manager.

Section theorems.
Context {K : Type} `{StorageSink K} `{SubtleCrypto}.
Context (error_message : FileTransferErrorCode → jsstr).
Abbreviation manager := (FileTransferManager K).
Implicit Types (m : manager) (o : any_transfer K).

(** The registry over every run — sends, offers, channels, control messages of
    any peer, timers, application calls, closing: each registered id leads to a
    transfer of that id that has not ended; the channels that wait for an offer are
    exactly those a timer will discard, and none waits for a receive that is
    registered already. *)
Theorem manager_registry options as_ :
  let m := fm_run error_message as_ (newManager options) in
  (∀ id h, mget id (fm_transfers m) = Some h →
     ∃ o, fm_objects m !! h = Some o ∧ tb_id (at_base o) = id ∧ at_terminal o = false)
  ∧ (∀ id, id ∈ fm_pendingTimers m ↔ is_Some (mget id (fm_pendingChannels m)))
  ∧ (∀ id h t, lookup_transfer id m = Some (h, ARecv t) → mget id (fm_pendingChannels m) = None).
Proof.
  intros m. assert (mgr_ok (resolveTuning options no_options) m) as Hok
    by (by apply fm_run_ok, new_manager_ok).
  split; [apply (mk_registered _ _ Hok)|]. split; [apply (mk_timers _ _ Hok)|].
  intros id h t [Hh Ht]%lookup_transfer_Some. eapply (mk_waiting _ _ Hok); eauto.
Qed.

(** Every transfer the manager receives comes from an offer that was checked: its
    chunks are a positive size, as many as the declared size needs, the size is
    within the limit, and it is verified if the manager requires checksums.  No
    sequence of messages makes the manager receive on other terms. *)
Theorem offers_checked options as_ h t :
  let m := fm_run error_message as_ (newManager options) in
  fm_objects m !! h = Some (ARecv t) →
  accepted_offer (resolveTuning options no_options) t.
Proof.
  intros m. apply (mk_offers _ m). by apply fm_run_ok, new_manager_ok.
Qed.

(** The channels of one transfer, as the hub announces them. *)
Abbreviation announced := (jsstr * jsstr * Z * readyState)%type.
Definition channel_of (id : jsstr) (c : announced) : Prop :=
  c.1.1.2 ≠ CONTROL_CHANNEL_LABEL ∧ ∃ n, parseDataChannelLabel c.1.1.2 = Some (id, n).
Definition announce_channel conn m (c : announced) : manager :=
  handleInboundChannel error_message conn c.1.1.1 c.1.1.2 c.1.2 c.2 m.

(** Before the offer the channels wait, the offer attaches them, and later ones are
    attached at once. *)
Lemma early_channels conn id l m :
  Forall (channel_of id) l → fm_closed m = false → lookup_transfer id m = None →
  ∃ pend tim, fold_left (announce_channel conn) l m = fu_pending pend tim m
    ∧ default [] (mget id pend) = default [] (mget id (fm_pendingChannels m)) ++ l.*1.*2.
Proof.
  revert m. induction l as [|c l IH]; intros m Hl Hc Hn.
  { exists (fm_pendingChannels m), (fm_pendingTimers m). split; [by destruct m|by rewrite app_nil_r]. }
  apply Forall_cons in Hl as [[Hlab [n Hparse]] Hl]. rewrite fold_left_cons.
  unfold announce_channel at 2. unfold handleInboundChannel. rewrite Hc, decide_False, Hparse, Hn by done. cbv zeta.
  set (p := mset id _ _).
  destruct (IH (fu_pending p (sadd id (fm_pendingTimers m)) m) Hl Hc Hn) as (pend & tim & -> & Hp).
  exists pend, tim. split; [done|]. rewrite Hp. cbn. unfold p. rewrite mget_mset_eq. cbn. by rewrite <- app_assoc.
Qed.

Lemma offer_attaches conn peer msg pend tim chs m :
  let id := of_transferId msg in let m1 := fu_pending pend tim m in
  fm_closed m = false → lookup_transfer id m = None → offer_rejected (fm_tuning m) msg = None →
  default [] (mget id pend) = chs →
  ∃ h t, fm_closed (fm_onOffer error_message conn peer msg m1) = false
    ∧ lookup_transfer id (fm_onOffer error_message conn peer msg m1) = Some (h, ARecv t)
    ∧ rt_channels t = set_of chs ∧ mget id (fm_pendingChannels (fm_onOffer error_message conn peer msg m1)) = None.
Proof.
  intros id m1 Hopen Hnone Hoff Hp. exists (length (fm_objects m)).
  unfold fm_onOffer. cbv zeta. fold id. change (lookup_transfer id m1) with (lookup_transfer id m).
  rewrite Hnone. change (fm_tuning m1) with (fm_tuning m). rewrite Hoff.
  unfold fm_register. cbn [fst snd at_base]. cbv zeta.
  set (t := newReceive _ _ _ _ _ _). set (m2 := fu_transfers _ _).
  set (h := length (fm_objects m)). change (length (fm_objects m1)) with h.
  assert (Hobj : fm_objects m2 !! h = Some (ARecv t)) by (cbn; by rewrite lookup_app_r, Nat.sub_diag by lia).
  assert (Hreg : mget id (fm_transfers m2) = Some h) by (cbn; by rewrite mget_mset_eq).
  change (fm_pendingChannels m2) with pend. destruct (mget id pend) as [l|] eqn:El; cbn in Hp.
  - subst l. destruct (attach_all error_message conn h chs m2 t Hobj) as (t' & -> & _ & _ & Hch).
    exists t'. split; [done|]. split; [|split; [exact Hch|cbn; apply mget_mdel_eq]].
    apply lookup_transfer_Some. split; [exact Hreg|]. cbn. rewrite list_lookup_insert_eq; [done|].
    rewrite length_app. cbn. unfold h. lia.
  - exists t. split; [done|]. split; [apply lookup_transfer_Some; split; [exact Hreg|exact Hobj]|].
    rewrite <- Hp. split; [done|exact El].
Qed.

Lemma late_channels conn id l h t m :
  Forall (channel_of id) l → fm_closed m = false → lookup_transfer id m = Some (h, ARecv t) → mget id (fm_pendingChannels m) = None →
  let m' := fold_left (announce_channel conn) l m in
  ∃ t', lookup_transfer id m' = Some (h, ARecv t')
    ∧ rt_channels t' = fold_left (λ s x, sadd x s) l.*1.*2 (rt_channels t) ∧ mget id (fm_pendingChannels m') = None.
Proof.
  revert t m. induction l as [|c l IH]; intros t m Hl Hc Hlk Hp; [by exists t|].
  apply Forall_cons in Hl as [[Hlab [n Hparse]] Hl]. rewrite fmap_cons, fmap_cons, !fold_left_cons.
  pose proof (proj1 (lookup_transfer_Some _ _ _ _) Hlk) as [Hreg Hobj].
  assert (Hstep : announce_channel conn m c = with_transfer error_message conn h (on_recv (attachChannel c.1.2)) m).
  { unfold announce_channel, handleInboundChannel. by rewrite Hc, decide_False, Hparse, Hlk by done. }
  rewrite Hstep. destruct (attach_spec error_message conn _ c.1.2 m t Hobj) as (t' & -> & _ & _ & Hch).
  rewrite <- Hch. apply (IH t'); [done|exact Hc| |exact Hp].
  apply lookup_transfer_Some. split; [exact Hreg|]. cbn. apply list_lookup_insert_eq. by eapply lookup_lt_Some.
Qed.

(** C7: Channels of one transfer that arrive before its offer, after it, or partly:
    the receive gets the same channels, in the order of their arrival, and none is
    left waiting. *)
Theorem channels_meet_offer conn peer msg (before after : list (jsstr * jsstr * Z * readyState)) m :
  let id := of_transferId msg in
  let inbound m c := handleInboundChannel error_message conn c.1.1.1 c.1.1.2 c.1.2 c.2 m in
  fm_closed m = false → lookup_transfer id m = None → mget id (fm_pendingChannels m) = None →
  offer_rejected (fm_tuning m) msg = None →
  Forall (λ c, c.1.1.2 ≠ CONTROL_CHANNEL_LABEL ∧ ∃ n, parseDataChannelLabel c.1.1.2 = Some (id, n))
    (before ++ after) →
  let m' := fold_left inbound after (fm_onOffer error_message conn peer msg (fold_left inbound before m)) in
  ∃ h t, lookup_transfer id m' = Some (h, ARecv t)
    ∧ rt_channels t = set_of ((before ++ after).*1.*2) ∧ mget id (fm_pendingChannels m') = None.
Proof.
  intros id inbound Hopen Hnone Hpend Hoff Hall. apply Forall_app in Hall as [Hb Ha].
  destruct (early_channels conn id before m Hb Hopen Hnone) as (pend & tim & E & Hp).
  rewrite Hpend in Hp. cbn in Hp. cbv zeta. change inbound with (announce_channel conn). rewrite E.
  destruct (offer_attaches conn peer msg pend tim _ m Hopen Hnone Hoff Hp) as (h & t & Hc1 & Hl1 & Hch1 & Hp1).
  destruct (late_channels conn id after h t _ Ha Hc1 Hl1 Hp1) as (t' & Hl2 & Hch2 & Hp2).
  exists h, t'. split; [exact Hl2|]. split; [|exact Hp2]. rewrite Hch2, Hch1, !fmap_app. unfold set_of. by rewrite fold_left_app.
Qed.
End theorems.
