(* ===== verification/ManagerClose.v ===== *)
(** Closing the manager of file transfers; and what its routing does not check. *)

From S2P Require Import Prelude JsMap JsNumber Json Uint8Array Framing Checksum Sink Transfer Schema Control Reassembly ReceiveTransfer ReceiveLive SendTransfer SendLemmas SendInvariant SendTheorems FileTransferManager ManagerTheorems.

Section terminal.
Context {T : Type} `{TransferLaws T}.

Lemma isTerminal_fail e n (t : T) : isTerminal (fail e n t) = true.
Proof.
  unfold isTerminal. rewrite base_fail. destruct (isTerminal t) eqn:Et; [done|]. by apply bool_decide_eq_true_2; set_solver.
Qed.

Lemma isTerminal_mark r (t : T) : isTerminal (markCancelled r t) = true.
Proof.
  unfold isTerminal. rewrite base_markCancelled. destruct (isTerminal t) eqn:Et; [done|].
  destruct r; by apply bool_decide_eq_true_2; set_solver.
Qed.

Lemma state_mark r (t : T) : isTerminal t = false → state (markCancelled r t) = Cancelled.
Proof. intros Et. unfold state. rewrite base_markCancelled, Et. by destruct r. Qed.
End terminal.

Section manager.
Context {K : Type} `{StorageSink K} `{SubtleCrypto}.
Context (error_message : FileTransferErrorCode → jsstr).
Abbreviation manager := (FileTransferManager K).
Implicit Types (m : manager) (o : any_transfer K).

(** A transfer that can reach its peer ends when it is cancelled. *)
Lemma cancel_ends r o up :
  (∀ t, o = ARecv t → up = true) → at_terminal (cancel_any r (set_up up o)) = true.
Proof.
  intros Hup. destruct o as [t|t]; cbn -[st_cancel cancel]; unfold at_terminal; cbn -[st_cancel cancel].
  - unfold st_cancel. destruct (isTerminal (su_control_up up t)) eqn:Et; [exact Et|].
    unfold st_markCancelled. destruct (isTerminal (safeControl _ _)) eqn:Et2; [exact Et2|].
    change (isTerminal (markCancelled (bool_decide (r ≠ None)) (clearOfferTimer
      (safeControl (SOControl (MCancel (st_id (su_control_up up t)) r)) (su_control_up up t)))) = true).
    apply isTerminal_mark.
  - rewrite (Hup t eq_refl). unfold cancel. destruct (isTerminal (s_control_up true t)) eqn:Et; [exact Et|].
    cbn [sendControl rt_control_up s_control_up].
    exact (isTerminal_mark (bool_decide (r ≠ None)) (rt_emit_out (OutControl (MCancel (rt_id t) r)) (s_control_up true t))).
Qed.

Lemma cancel_ended r o : at_terminal o = true → cancel_any r o = o.
Proof.
  destruct o as [t|t]; intros Ht; cbn -[st_cancel cancel].
  - unfold st_cancel. change (isTerminal t) with (at_terminal (ASend t : any_transfer K)). by rewrite Ht.
  - unfold cancel. change (isTerminal t) with (at_terminal (ARecv t)). by rewrite Ht.
Qed.

Definition receives_linked m : Prop :=
  ∀ h t, fm_objects m !! h = Some (ARecv t) → has_link (tb_peerId (rt_base t)) m.

Lemma with_transfer_objects conn h f m o :
  fm_objects m !! h = Some o →
  fm_objects (with_transfer error_message conn h f m)
  = <[h := f (set_up (can_send conn (tb_peerId (at_base o)) m) o)]> (fm_objects m).
Proof.
  intros Ho. destruct (with_transfer_spec error_message conn h f m o Ho) as (m1 & Honly & ->).
  rewrite (ol_objects _ _ Honly). cbv zeta. by destruct (_ && _).
Qed.

(** What cancelling leaves: every transfer is the one it was, those that had ended
    have, and so have those of [hs]. *)
Record cancelled_to (hs : list nat) m m' : Prop := {
  ct_objects h o : fm_objects m !! h = Some o →
    ∃ o', fm_objects m' !! h = Some o' ∧ same_transfer o o'
      ∧ (at_terminal o = true ∨ h ∈ hs → at_terminal o' = true);
  ct_linked : receives_linked m';
  ct_pending : fm_pendingChannels m' = fm_pendingChannels m;
  ct_timers : fm_pendingTimers m' = fm_pendingTimers m;
  ct_closed : fm_closed m' = fm_closed m;
}.

Lemma cancel_one conn r h o m :
  fm_objects m !! h = Some o → receives_linked m →
  cancelled_to [h] m (with_transfer error_message conn h (cancel_any r) m).
Proof.
  intros Ho Hl. destruct (with_transfer_spec error_message conn h (cancel_any r) m o Ho) as (m1 & Honly & Hm1).
  set (o0 := set_up (can_send conn (tb_peerId (at_base o)) m) o) in *.
  assert (Hsame : same_transfer o (cancel_any r o0)) by (etrans; [apply same_up|apply same_cancel]).
  assert (Hlt : (h < length (fm_objects m))%nat) by (by eapply lookup_lt_Some).
  assert (Hfields : fm_objects m1 = <[h := cancel_any r o0]> (fm_objects m)
    ∧ fm_pendingChannels m1 = fm_pendingChannels m ∧ fm_pendingTimers m1 = fm_pendingTimers m
    ∧ fm_closed m1 = fm_closed m ∧ fm_control m1 = fm_control m)
    by (rewrite Hm1; cbv zeta; by destruct (_ && _)).
  destruct Hfields as (F1 & F2 & F3 & F4 & F7).
  pose proof (ol_pending _ _ Honly). pose proof (ol_timers _ _ Honly). pose proof (ol_closed _ _ Honly).
  constructor; [| |congruence..].
  - intros h' o'. rewrite (ol_objects _ _ Honly), F1. destruct (decide (h' = h)) as [->|Hne].
    + rewrite Ho, list_lookup_insert_eq by done. intros [= <-]. exists (cancel_any r o0).
      split; [done|]. split; [done|]. intros _. apply cancel_ends. intros t ->.
      by apply can_send_link, (Hl h).
    + rewrite list_lookup_insert_ne by done. intros Ho'. exists o'. split; [done|]. split; [reflexivity|].
      intros [|Hin%list_elem_of_singleton]; [done|]. by destruct Hne.
  - intros h' t. rewrite (ol_objects _ _ Honly), F1. intros Hh. apply (ol_link _ _ Honly).
    unfold has_link, peerControl. rewrite F7. change (has_link (tb_peerId (rt_base t)) m).
    destruct (decide (h' = h)) as [->|Hne].
    + rewrite list_lookup_insert_eq in Hh by done. injection Hh as Hh. rewrite Hh in Hsame.
      pose proof (same_peer _ _ Hsame) as Hp. cbn in Hp. rewrite Hp.
      destruct o as [|t0]; [done|]. by apply (Hl h).
    + rewrite list_lookup_insert_ne in Hh by done. by apply (Hl h').
Qed.

Lemma cancel_all_spec conn hs m :
  receives_linked m →
  let '(m', threw) := cancel_all error_message conn hs m in threw = false ∧ cancelled_to hs m m'.
Proof.
  revert m. induction hs as [|h hs IH]; intros m Hl.
  { split; [done|]. constructor; try done. intros h o Ho. exists o. split; [done|]. split; [reflexivity|].
    intros [|Hin%elem_of_nil]; done. }
  cbn [cancel_all]. destruct (fm_objects m !! h) as [o|] eqn:Ho.
  2:{ specialize (IH m Hl). destruct (cancel_all _ _ hs m) as [m' threw]. destruct IH as [-> [D1 D2 D3 D4 D5]].
      split; [done|]. constructor; try done. intros h' o' Ho'.
      destruct (D1 h' o' Ho') as (o1 & H1' & Hs & Ht). exists o1. split; [done|]. split; [done|].
      intros [|Hin%elem_of_cons]; [by auto|]. destruct Hin as [->|]; [congruence|auto]. }
  cbv zeta. set (threw := match o with ASend _ => false | ARecv t => _ end).
  assert (threw = false) as ->.
  { unfold threw. destruct o as [|t]; [done|]. rewrite can_send_link by (by apply (Hl h)). by rewrite andb_false_r. }
  pose proof (cancel_one conn (Some (js "manager closed")) h o m Ho Hl) as [C1 C2 C3 C4 C5].
  specialize (IH _ C2). destruct (cancel_all _ _ hs _) as [m' threw']. destruct IH as [-> [D1 D2 D3 D4 D5]].
  split; [done|]. constructor; [|done|congruence..].
  intros h' o' Ho'. destruct (C1 h' o' Ho') as (o1 & Ho1 & Hs1 & Ht1).
  destruct (D1 h' o1 Ho1) as (o2 & Ho2 & Hs2 & Ht2). exists o2. split; [done|]. split; [by etrans|].
  intros [Hin|Hin%elem_of_cons].
  - by auto.
  - apply Ht2. destruct Hin as [->|]; [left; apply Ht1; right; by apply list_elem_of_singleton|by right].
Qed.

Definition with_out (l : list fm_event) m : manager :=
  mkManager (fm_tuning m) (fm_transfers m) (fm_objects m) (fm_control m) (fm_links m) (fm_pendingChannels m)
    (fm_pendingTimers m) (fm_closed m) (fm_next m) l.

Lemma emit_all chs m :
  fold_left (λ m ch, fm_emit (FmCloseChannel ch) m) chs m = with_out (fm_out m ++ (FmCloseChannel <$> chs)) m.
Proof.
  revert m. induction chs as [|ch chs IH]; intros m; [cbn; rewrite app_nil_r; by destruct m|].
  rewrite fold_left_cons, IH, fmap_cons. unfold with_out. cbn. by rewrite <- app_assoc.
Qed.

(** [_discardPendingChannels] in one equation. *)
Lemma discard_spec id m :
  discardPendingChannels id m
  = with_out (fm_out m ++ (FmCloseChannel <$> default [] (mget id (fm_pendingChannels m))))
      (fu_pending (mdel id (fm_pendingChannels m)) (sdel id (fm_pendingTimers m)) m).
Proof.
  unfold discardPendingChannels. cbv zeta. cbn [fm_pendingChannels fu_pending].
  destruct (mget id (fm_pendingChannels m)) as [l|] eqn:El; [by rewrite emit_all|].
  cbn. rewrite app_nil_r, mdel_notin by (by apply mget_None_keys). by destruct m.
Qed.

(** Discarding every transfer's channels empties the table and closes them all. *)
Lemma discard_all ids m :
  ∃ p t l, fold_left (λ m id, discardPendingChannels id m) ids m = with_out (fm_out m ++ l) (fu_pending p t m)
    ∧ (∀ id, mget id p = if decide (id ∈ ids) then None else mget id (fm_pendingChannels m))
    ∧ (∀ id, id ∈ t ↔ id ∈ fm_pendingTimers m ∧ id ∉ ids)
    ∧ (∀ id chs ch, id ∈ ids → mget id (fm_pendingChannels m) = Some chs → ch ∈ chs → FmCloseChannel ch ∈ l).
Proof.
  revert m. induction ids as [|id ids IH]; intros m.
  - exists (fm_pendingChannels m), (fm_pendingTimers m), []. rewrite app_nil_r. split; [by destruct m|].
    split; [intros; by rewrite decide_False by apply not_elem_of_nil|].
    split; [intros; pose proof (not_elem_of_nil id); tauto|]. by intros id chs ch ?%elem_of_nil.
  - rewrite fold_left_cons, discard_spec. set (l0 := FmCloseChannel <$> _).
    set (m0 := with_out _ _). destruct (IH m0) as (p & t & l & -> & Hp & Ht & Hl).
    exists p, t, (l0 ++ l). split; [unfold m0, with_out; cbn; by rewrite <- app_assoc|]. split; [|split].
    + intros id'. rewrite Hp. unfold m0. cbn. rewrite mget_mdel.
      destruct (decide (id' ∈ ids)) as [Hin|Hn]; [by rewrite decide_True by (by right)|].
      destruct (decide (id' = id)) as [->|Hne]; [by rewrite decide_True by (by left)|].
      by rewrite decide_False by (by intros [|]%elem_of_cons).
    + intros id'. rewrite Ht. unfold m0. cbn. rewrite elem_of_sdel, elem_of_cons. tauto.
    + intros id' chs ch Hin Hg Hch. apply elem_of_app. destruct (decide (id' = id)) as [->|Hne].
      * left. unfold l0. rewrite Hg. by apply list_elem_of_fmap_2.
      * right. apply elem_of_cons in Hin as [|Hin]; [done|]. eapply (Hl id'); [done| |done].
        unfold m0. cbn. by rewrite mget_mdel_ne.
Qed.

(** [close] of a manager that is open. *)
Lemma close_spec conn tuning m :
  mgr_ok tuning m → fm_closed m = false →
  let '(m', threw) := fm_close error_message conn m in
  threw = false ∧ fm_closed m' = true ∧ fm_transfers m' = [] ∧ fm_control m' = []
  ∧ (∀ id, mget id (fm_pendingChannels m') = None) ∧ (∀ id, id ∉ fm_pendingTimers m')
  ∧ (∀ id h o, lookup_transfer id m = Some (h, o) →
       ∃ o', fm_objects m' !! h = Some o' ∧ same_transfer o o' ∧ at_terminal o' = true)
  ∧ (∀ id chs ch, mget id (fm_pendingChannels m) = Some chs → ch ∈ chs → FmCloseChannel ch ∈ fm_out m').
Proof.
  intros Hok Hopen. unfold fm_close. rewrite Hopen. cbv zeta.
  change (fm_transfers (fu_closed m)) with (fm_transfers m).
  assert (Hl : receives_linked (fu_closed m)).
  { intros h t Ht. exact (mk_peers _ _ Hok h t Hopen Ht). }
  pose proof (cancel_all_spec conn (mvals (fm_transfers m)) (fu_closed m) Hl) as Hc.
  destruct (cancel_all _ _ _ (fu_closed m)) as [m2 threw]. destruct Hc as [-> [C1 _ C3 C4 C5]].
  match goal with |- context [fold_left _ _ ?x] => set (m4 := x) end.
  match goal with |- context [fold_left _ ?k m4] => set (ks := k) end.
  destruct (discard_all ks m4) as (p & t & l & -> & Hp & Ht & Hcl).
  assert (Hks : ∀ id, id ∈ ks ↔ is_Some (mget id (fm_pendingChannels m))).
  { intros id. unfold ks. rewrite <- mget_is_Some_keys. change (fm_pendingChannels m4) with (fm_pendingChannels m2).
    by rewrite C3. }
  split; [done|]. split; [exact C5|]. split; [done|]. split; [done|]. split; [|split; [|split]].
  - intros id. change (mget id p = None). rewrite Hp. destruct (decide (id ∈ ks)) as [|Hn]; [done|].
    change (fm_pendingChannels m4) with (fm_pendingChannels m2). rewrite C3.
    rewrite Hks in Hn. by apply eq_None_not_Some.
  - intros id. change (id ∉ t). rewrite Ht. intros [Hin Hn]. apply Hn, Hks.
    apply (mk_timers _ _ Hok). change (fm_pendingTimers m4) with (fm_pendingTimers m2) in Hin. by rewrite C4 in Hin.
  - intros id h o [Hh Ho]%lookup_transfer_Some. destruct (C1 h o Ho) as (o' & Ho' & Hs & Hterm).
    exists o'. split; [exact Ho'|]. split; [done|]. apply Hterm. right.
    apply list_elem_of_fmap. exists (id, h). split; [done|]. by apply mget_elem.
  - intros id chs ch Hg Hch. cbn. apply elem_of_app. right. apply (Hcl id chs); [apply Hks; eauto| |done].
    change (fm_pendingChannels m4) with (fm_pendingChannels m2). by rewrite C3.
Qed.
End manager.

Section theorems.
Context {K : Type} `{StorageSink K} `{SubtleCrypto}.
Context (error_message : FileTransferErrorCode → jsstr).
Abbreviation manager := (FileTransferManager K).


(** Who may cancel a receive: any peer.  Control messages are matched by transfer
    id alone, so that a cancellation from [peer] ends the transfer with
    [tb_peerId (rt_base t)], the same or not. *)
Theorem any_peer_cancels conn peer id h (t : ReceiveTransfer K) r m :
  lookup_transfer id m = Some (h, ARecv t) → isTerminal t = false →
  ∃ t', fm_objects (routeControl error_message conn peer (MCancel id r) m) !! h = Some (ARecv t')
    ∧ fixed t' = fixed t ∧ state t' = Cancelled.
Proof.
  intros Hl Ht. unfold routeControl. cbn [msg_id]. rewrite Hl.
  apply lookup_transfer_Some in Hl as [Hh Ho].
  rewrite (with_transfer_objects error_message conn h _ m _ Ho).
  set (t0 := s_control_up (can_send conn (tb_peerId (at_base (ARecv t))) m) t).
  exists (markCancelled (bool_decide (r ≠ None)) t0). split; [|split].
  - rewrite list_lookup_insert_eq by (by eapply lookup_lt_Some). done.
  - exact (fixed_step (AControl (MCancel id r)) t0).
  - by apply state_mark.
Qed.
End theorems.

(** * Concrete runs *)

Module ManagerSample.
Export TestDigest TestEngine.
Abbreviation sample := (FileTransferManager MemorySink).
Definition message_of (e : FileTransferErrorCode) : jsstr := js "failed".
Definition online (peer : jsstr) : bool := true.
Definition id : jsstr := js "t-1".
Definition offer : OfferMessage := mkOffer id (Some 1) (js "f") (js "text/plain") 5 2 3 2 true.
Definition run (as_ : list (fm_action MemorySink)) (m : sample) : sample :=
  fm_run message_of ((λ a, (online, a)) <$> as_) m.
Definition fresh : sample := newManager no_options.
Definition raw (m : ControlMessage) : frame := Json (toJson m).
(** The control channel of a peer, its offer, and a data channel on either side of it. *)
Definition inbound : list (fm_action MemorySink) :=
  [FInbound (js "p") CONTROL_CHANNEL_LABEL 7 Open;
   FInbound (js "p") (dataChannelLabel id 1) 8 Open;
   FRaw 0 (raw (MOffer offer));
   FInbound (js "p") (dataChannelLabel id 0) 9 Open;
   FInbound (js "q") (dataChannelLabel (js "unknown") 0) 10 Open].
Definition send_twice : list (fm_action MemorySink) :=
  let file := InBlob [1; 2; 3] [] (Some (js "f")) in
  [FSendFile (js "p") file no_options (Some id) (js "r"); FSendFile (js "q") file no_options (Some id) (js "r")].
End ManagerSample.
Import ManagerSample.

Abbreviation received := (fm_run message_of ((λ a, (online, a)) <$> inbound) (newManager (K := MemorySink) no_options)).

(** A registered receive, as far as it is looked at here. *)
Definition receive_summary (m : sample) : option (nat * bool * list Z) :=
  match lookup_transfer id m with
  | Some (h, ARecv t) => Some (h, isTerminal t, rt_channels t)
  | _ => None
  end.
Lemma receive_summary_spec (m : sample) h b l :
  receive_summary m = Some (h, b, l) →
  ∃ t, lookup_transfer id m = Some (h, ARecv t) ∧ isTerminal t = b ∧ rt_channels t = l.
Proof.
  unfold receive_summary. destruct (lookup_transfer id m) as [[h' [t|t]]|]; [done| |done].
  intros [= -> <- <-]. eauto.
Qed.

Lemma received_object : ∃ t : ReceiveTransfer MemorySink,
  lookup_transfer id received = Some (0%nat, ARecv t) ∧ isTerminal t = false ∧ rt_channels t = [8; 9].
Proof. apply receive_summary_spec. by vm_compute. Qed.

(** Two transfers under one id: the second takes the first one's place, which
    [close] then leaves running; and the end of the first removes the second. *)
Theorem duplicate_ids :
  at_terminal <$> fm_objects (run (send_twice ++ [FClose]) fresh) = [false; true]
  ∧ (let m := run (send_twice ++ [FSendAction 0 (SCancel None)]) fresh in
     at_terminal <$> fm_objects m = [true; false] ∧ fm_transfers m = []).
Proof. split; [by vm_compute|]. cbv zeta. split; by vm_compute. Qed.

(** * Witnesses *)

Lemma offers_checked_witness : ∃ t, fm_objects received !! 0%nat = Some (ARecv t)
  ∧ accepted_offer (resolveTuning no_options no_options) t.
Proof.
  destruct received_object as (t & [Hh Ho]%lookup_transfer_Some & _). exists t. split; [exact Ho|].
  exact (offers_checked message_of no_options ((λ a, (online, a)) <$> inbound) 0 t Ho).
Defined.


Lemma manager_registry_witness : mget id (fm_pendingChannels received) = None
  ∧ is_Some (mget (js "unknown") (fm_pendingChannels received)).
Proof.
  destruct (manager_registry message_of no_options ((λ a, (online, a)) <$> inbound)) as (_ & Ht & Hw).
  split.
  - destruct received_object as (t & Ht' & _). exact (Hw id 0%nat t Ht').
  - apply Ht. by apply (bool_decide_eq_true_1 _); vm_compute.
Defined.

Lemma channels_meet_offer_witness : ∃ t : ReceiveTransfer MemorySink,
  lookup_transfer id (run [FInbound (js "p") (dataChannelLabel id 1) 8 Open] fresh) = None
  ∧ rt_channels t = [8; 9].
Proof.
  assert (Hl : lookup_transfer id fresh = None) by reflexivity.
  assert (Hr : offer_rejected (fm_tuning fresh) offer = None) by (by vm_compute).
  assert (Hc : Forall (λ c : jsstr * jsstr * Z * readyState, c.1.1.2 ≠ CONTROL_CHANNEL_LABEL
      ∧ ∃ n, parseDataChannelLabel c.1.1.2 = Some (id, n))
    ([(js "p", dataChannelLabel id 1, 8, Open)] ++ [(js "p", dataChannelLabel id 0, 9, Open)])).
  { apply Forall_app; split; apply Forall_singleton; cbn [fst snd].
    - split; [by apply (bool_decide_eq_false_1 _); vm_compute|].
      exists (num_of_Z 1). by vm_compute.
    - split; [by apply (bool_decide_eq_false_1 _); vm_compute|].
      exists (num_of_Z 0). by vm_compute. }
  destruct (channels_meet_offer message_of online (js "p") offer
    [(js "p", dataChannelLabel id 1, 8, Open)] [(js "p", dataChannelLabel id 0, 9, Open)] fresh
    eq_refl Hl eq_refl Hr Hc) as (h & t & _ & Hch & _).
  exists t. split; [by vm_compute|]. rewrite Hch. by vm_compute.
Defined.
