(* ===== verification/CascadePlan.v ===== *)
(** The fan-out tree of a broadcast: [planCascadeTree]
    (packages/sfu/src/CascadeTree.ts).

    The nodes of a plan are shared objects: the frontier of the loop, the plan's
    map and the leaves refer to the same ones.  A plan under construction is
    therefore a heap of nodes, and [nodes] and the frontier hold references. *)

From S2P Require Import Prelude JsMap.

Inductive CascadeRole := Origin | Relay | Edge.
#[export] Instance CascadeRole_eq_dec : EqDecision CascadeRole.
Proof. solve_decision. Defined.

Record CascadePlanNode := mkPlanNode {
  pn_id : jsstr;
  pn_role : CascadeRole;
  pn_parentId : option jsstr;
  pn_children : list jsstr;
  pn_tier : Z;
  pn_viewerSlots : Z;
}.

Definition CascadeLink : Type := jsstr * jsstr.

(** [originId], [viewerCount], [fanout], [viewersPerNode], [availableNodeIds],
    [capacityOf]. *)
Record plan_params := mkPlanParams {
  pp_originId : jsstr;
  pp_viewerCount : Z;
  pp_fanout : Z;
  pp_viewersPerNode : Z;
  pp_availableNodeIds : list jsstr;
  pp_capacityOf : option (jsstr → Z);
}.

(** The state of the loop. *)
Record growing := mkGrowing {
  gr_heap : list CascadePlanNode;
  gr_nodes : jmap jsstr nat;
  gr_links : list CascadeLink;
}.

Record CascadePlan := mkPlan {
  pl_origin : jsstr;
  pl_heap : list CascadePlanNode;
  pl_nodes : jmap jsstr nat;
  pl_links : list CascadeLink;
  pl_edges : list jsstr;
  pl_tiers : Z;
  pl_servedViewers : Z;
  pl_unmetViewers : Z;
}.

Definition pn_with_children (c : list jsstr) (n : CascadePlanNode) : CascadePlanNode :=
  mkPlanNode (pn_id n) (pn_role n) (pn_parentId n) c (pn_tier n) (pn_viewerSlots n).
Definition pn_with_role (r : CascadeRole) (n : CascadePlanNode) : CascadePlanNode :=
  mkPlanNode (pn_id n) r (pn_parentId n) (pn_children n) (pn_tier n) (pn_viewerSlots n).
Definition pn_with_slots (s : Z) (n : CascadePlanNode) : CascadePlanNode :=
  mkPlanNode (pn_id n) (pn_role n) (pn_parentId n) (pn_children n) (pn_tier n) s.

Definition root_node (originId : jsstr) : CascadePlanNode := mkPlanNode originId Origin None [] 0 0.

Definition capFor (p : plan_params) (id : jsstr) : Z :=
  if decide (id = pp_originId p) then pp_viewersPerNode p
  else match pp_capacityOf p with Some f => f id | None => pp_viewersPerNode p end.

(** A new child of the node [parent]; its reference is the last one. *)
Definition attach_child (parent : nat) (tier : Z) (childId : jsstr) (g : growing) : growing :=
  match gr_heap g !! parent with
  | None => g
  | Some p =>
      let child := mkPlanNode childId Edge (Some (pn_id p)) [] (tier + 1) 0 in
      mkGrowing (alter (λ n, pn_with_children (pn_children n ++ [childId]) n) parent (gr_heap g) ++ [child])
        (mset childId (length (gr_heap g)) (gr_nodes g))
        (gr_links g ++ [(pn_id p, childId)])
  end.

(** [for (let i = 0; i < fanout && pool.length > 0; i++)]; the references of the
    children, and what is left of the pool. *)
Fixpoint attach_children (fanout : Z) (parent : nat) (tier i : Z) (pool : list jsstr) (g : growing)
    : growing * list nat * list jsstr :=
  match pool with
  | [] => (g, [], [])
  | childId :: pool' =>
      if decide (i < fanout) then
        let '(g', next, rest) := attach_children fanout parent tier (i + 1) pool' (attach_child parent tier childId g) in
        (g', length (gr_heap g) :: next, rest)
      else (g, [], pool)
  end.

(** [for (const parent of frontier)]. *)
Fixpoint expand (fanout : Z) (frontier : list nat) (tier : Z) (pool : list jsstr) (g : growing)
    : growing * list nat * list jsstr :=
  match frontier with
  | [] => (g, [], pool)
  | parent :: frontier' =>
      let '(g1, next, rest) := attach_children fanout parent tier 0 pool g in
      match rest with
      | [] => (g1, next, [])
      | _ :: _ =>
          let '(g2, next', rest') := expand fanout frontier' tier rest g1 in
          (g2, next ++ next', rest')
      end
  end.

(** Parents that are not the origin become relays. *)
Definition promote1 (n : CascadePlanNode) : CascadePlanNode :=
  if negb (bool_decide (pn_children n = [])) && negb (bool_decide (pn_role n = Origin))
  then pn_with_role Relay n else n.
Definition promote (frontier : list nat) (g : growing) : growing :=
  mkGrowing (fold_left (λ h i, alter promote1 i h) frontier (gr_heap g)) (gr_nodes g) (gr_links g).

(** The [while] loop; every pass that does not end it takes from the pool. *)
Fixpoint grow (fuel : nat) (p : plan_params) (frontier : list nat) (tier : Z) (pool : list jsstr)
    (g : growing) : option (growing * Z) :=
  match fuel with
  | O => None
  | S fuel' =>
      if decide (Z.of_nat (length frontier) * pp_viewersPerNode p < pp_viewerCount p ∧ pool ≠ []) then
        let '(g1, next, rest) := expand (pp_fanout p) frontier tier pool g in
        match next with
        | [] => Some (g1, tier)
        | _ :: _ => grow fuel' p next (tier + 1) rest (promote frontier g1)
        end
      else Some (g, tier)
  end.

(** [for (const leaf of leaves)]; what remains. *)
Fixpoint seat (p : plan_params) (leaves : list nat) (remaining : Z) (h : list CascadePlanNode)
    : list CascadePlanNode * Z :=
  match leaves with
  | [] => (h, remaining)
  | leaf :: leaves' =>
      if decide (remaining ≤ 0) then (h, remaining)
      else match h !! leaf with
           | None => seat p leaves' remaining h
           | Some n =>
               let slots := Z.min (capFor p (pn_id n)) remaining in
               seat p leaves' (remaining - slots) (<[leaf := pn_with_slots slots n]> h)
           end
  end.

Definition is_leaf (h : list CascadePlanNode) (i : nat) : bool :=
  match h !! i with Some n => bool_decide (pn_children n = []) | None => false end.
Definition has_viewers (h : list CascadePlanNode) (i : nat) : bool :=
  match h !! i with Some n => bool_decide (0 < pn_viewerSlots n) | None => false end.

(** [planCascadeTree]; [None] where it throws [InvalidArgumentError]. *)
Definition planCascadeTree (p : plan_params) : option CascadePlan :=
  if decide (pp_fanout p < 1 ∨ pp_viewersPerNode p < 1) then None
  else
    let originId := pp_originId p in
    let pool := filter (λ id, id ≠ originId) (pp_availableNodeIds p) in
    let g0 := mkGrowing [root_node originId] [(originId, 0%nat)] [] in
    match grow (S (length pool)) p [0%nat] 0 pool g0 with
    | None => None
    | Some (g, tier) =>
        let leaves := filter (λ i, is_leaf (gr_heap g) i = true) (mvals (gr_nodes g)) in
        let '(h, remaining) := seat p leaves (pp_viewerCount p) (gr_heap g) in
        Some (mkPlan originId h (gr_nodes g) (gr_links g)
                (omap (λ i, pn_id <$> h !! i) (filter (λ i, has_viewers h i = true) leaves))
                (tier + 1) (pp_viewerCount p - remaining) remaining)
    end.

(** [plan.nodes.get(id)]. *)
Definition plan_node (id : jsstr) (pl : CascadePlan) : option CascadePlanNode :=
  i ← mget id (pl_nodes pl); pl_heap pl !! i.
