(* ===== verification/CascadePlanTheorems.v ===== *)
(** A cascade plan is a tree over the origin, seats as many viewers as its leaves
    hold, and is found in as many passes as there are nodes. *)

From S2P Require Import Prelude JsMap CascadePlan.

(** * The shape of a plan *)

(** Everything but the children, the roles and the viewers. *)
Definition shape (h : list CascadePlanNode) : list (jsstr * option jsstr) :=
  (λ n, (pn_id n, pn_parentId n)) <$> h.
Definition ids_of (s : list (jsstr * option jsstr)) : list jsstr := s.*1.
Definition links_of (s : list (jsstr * option jsstr)) : list CascadeLink :=
  omap (λ x, (λ q, (q, x.1)) <$> x.2) s.
Definition kids (id : jsstr) (s : list (jsstr * option jsstr)) : list jsstr :=
  omap (λ x, if decide (x.2 = Some id) then Some x.1 else None) s.

Lemma links_of_app s1 s2 : links_of (s1 ++ s2) = links_of s1 ++ links_of s2.
Proof. apply omap_app. Qed.
Lemma kids_app id s1 s2 : kids id (s1 ++ s2) = kids id s1 ++ kids id s2.
Proof. apply omap_app. Qed.
Lemma ids_of_shape h : ids_of (shape h) = pn_id <$> h.
Proof. unfold ids_of, shape. rewrite <- list_fmap_compose. done. Qed.

Lemma shape_lookup h i : shape h !! i = (λ n, (pn_id n, pn_parentId n)) <$> h !! i.
Proof. apply list_lookup_fmap. Qed.

Lemma shape_alter f i h :
  (∀ n, pn_id (f n) = pn_id n ∧ pn_parentId (f n) = pn_parentId n) → shape (alter f i h) = shape h.
Proof.
  intros Hf. apply list_eq. intros j. rewrite !shape_lookup. destruct (decide (i = j)) as [<-|Hne].
  - rewrite list_lookup_alter_eq. destruct (h !! i) as [n|]; [|done]. cbn. by destruct (Hf n) as [-> ->].
  - by rewrite list_lookup_alter_ne.
Qed.

Lemma kids_fresh id s : (∀ x, x ∈ s → x.2 ≠ Some id) → kids id s = [].
Proof.
  intros Hs. induction s as [|x s IH]; [done|]. unfold kids in *. cbn.
  rewrite decide_False by (apply Hs; left). cbn. apply IH. intros y Hy. apply Hs. by right.
Qed.

(** * The invariant of the loop *)

Record tree_ok (p : plan_params) (g : growing) : Prop := {
  tr_ids : NoDup (ids_of (shape (gr_heap g)));
  tr_nodes : gr_nodes g = zip (ids_of (shape (gr_heap g))) (seq 0 (length (gr_heap g)));
  tr_links : gr_links g = links_of (shape (gr_heap g));
  tr_kids i n : gr_heap g !! i = Some n → pn_children n = kids (pn_id n) (shape (gr_heap g));
  tr_fanout i n : gr_heap g !! i = Some n → Z.of_nat (length (pn_children n)) ≤ pp_fanout p;
  tr_root : ∃ n, gr_heap g !! 0%nat = Some n ∧ pn_id n = pp_originId p ∧ pn_parentId n = None
    ∧ pn_tier n = 0 ∧ pn_role n = Origin;
  tr_parent i n : (0 < i)%nat → gr_heap g !! i = Some n → pn_role n ≠ Origin ∧
    ∃ j q, (j < i)%nat ∧ gr_heap g !! j = Some q ∧ pn_parentId n = Some (pn_id q) ∧ pn_tier n = pn_tier q + 1;
  tr_slots i n : gr_heap g !! i = Some n → pn_viewerSlots n = 0;
}.

(** The new child. *)
Definition child_node (pid : jsstr) (tier : Z) (childId : jsstr) : CascadePlanNode :=
  mkPlanNode childId Edge (Some pid) [] (tier + 1) 0.
Definition add_kids (l : list jsstr) (n : CascadePlanNode) : CascadePlanNode :=
  pn_with_children (pn_children n ++ l) n.

Lemma attach_child_eq parent tier childId g q :
  gr_heap g !! parent = Some q →
  attach_child parent tier childId g
  = mkGrowing (alter (add_kids [childId]) parent (gr_heap g) ++ [child_node (pn_id q) tier childId])
      (mset childId (length (gr_heap g)) (gr_nodes g)) (gr_links g ++ [(pn_id q, childId)]).
Proof. intros Hq. unfold attach_child. by rewrite Hq. Qed.

Lemma attach_child_heap parent tier childId g q i n :
  gr_heap g !! parent = Some q →
  gr_heap (attach_child parent tier childId g) !! i = Some n →
  (∃ m, gr_heap g !! i = Some m ∧ n = if decide (i = parent) then add_kids [childId] m else m)
  ∨ (i = length (gr_heap g) ∧ n = child_node (pn_id q) tier childId).
Proof.
  intros Hq. rewrite (attach_child_eq _ _ _ _ q Hq). cbn [gr_heap].
  intros [Hi|[Hle Hi]]%lookup_app_Some.
  - left. destruct (decide (i = parent)) as [->|Hne].
    + rewrite list_lookup_alter_eq, Hq in Hi. injection Hi as <-. eauto.
    + rewrite list_lookup_alter_ne in Hi by done. eauto.
  - right. rewrite length_alter in Hle, Hi. apply list_lookup_singleton_Some in Hi as [Hi <-]. split; [lia|done].
Qed.

Lemma attach_child_shape parent tier childId g q :
  gr_heap g !! parent = Some q →
  shape (gr_heap (attach_child parent tier childId g)) = shape (gr_heap g) ++ [(childId, Some (pn_id q))].
Proof.
  intros Hq. rewrite (attach_child_eq _ _ _ _ q Hq). cbn [gr_heap]. unfold shape at 1. rewrite fmap_app.
  change ((λ n, (pn_id n, pn_parentId n)) <$> alter (add_kids [childId]) parent (gr_heap g))
    with (shape (alter (add_kids [childId]) parent (gr_heap g))). by rewrite shape_alter.
Qed.

Lemma zip_snoc {A B} (l : list A) (k : list B) a b :
  length l = length k → zip (l ++ [a]) (k ++ [b]) = zip l k ++ [(a, b)].
Proof. intros. by rewrite zip_with_app. Qed.

(** The children of a node are what its links say, after one more. *)
Lemma attach_child_kids p parent tier childId g q i n :
  tree_ok p g → gr_heap g !! parent = Some q → (childId ∉ ids_of (shape (gr_heap g))) →
  gr_heap (attach_child parent tier childId g) !! i = Some n →
  pn_children n = kids (pn_id n) (shape (gr_heap (attach_child parent tier childId g))).
Proof.
  intros [O1 O2 O3 O4 O5 O6 O7 O8] Hq Hfresh.
  pose proof (attach_child_shape parent tier childId g q Hq) as Hs.
  pose proof (attach_child_heap parent tier childId g q i n Hq) as Hh. intros Hi. apply Hh in Hi. revert Hi.
  intros [(m & Hm & ->)|[-> ->]]; rewrite Hs, kids_app.
  - destruct (decide (i = parent)) as [->|Hne].
    + rewrite Hq in Hm. injection Hm as <-. cbn [add_kids pn_with_children pn_children pn_id].
      rewrite (O4 parent q Hq). f_equal. unfold kids. cbn. by rewrite decide_True.
    + rewrite (O4 i m Hm). unfold kids at 3. cbn. rewrite decide_False; [by rewrite app_nil_r|].
      intros [= E]. apply Hne. eapply (NoDup_lookup _ _ _ (pn_id m) O1); rewrite ids_of_shape, list_lookup_fmap.
      * by rewrite Hm.
      * rewrite Hq. cbn. congruence.
  - cbn [child_node pn_children pn_id]. symmetry. apply app_nil. split.
    + apply kids_fresh. intros x Hx E. apply list_elem_of_fmap in Hx as (m & -> & Hm).
      apply list_elem_of_lookup in Hm as [k Hk]. cbn in E. destruct k as [|k].
      * destruct O6 as (r & Hr & _ & Hp & _). rewrite Hr in Hk. injection Hk as ->. congruence.
      * destruct (O7 (S k) m ltac:(lia) Hk) as (_ & j & q' & _ & Hj & Hp & _). rewrite Hp in E. injection E as E.
         apply Hfresh. rewrite ids_of_shape. apply list_elem_of_fmap. exists q'. split; [done|].
         by eapply list_elem_of_lookup_2.
    + unfold kids. cbn. rewrite decide_False; [done|]. intros [= E]. apply Hfresh. rewrite <- E, ids_of_shape.
      apply list_elem_of_fmap. exists q. split; [done|]. by eapply list_elem_of_lookup_2.
Qed.

Lemma attach_child_ok p parent tier childId g q :
  tree_ok p g → gr_heap g !! parent = Some q → pn_tier q = tier →
  (childId ∉ ids_of (shape (gr_heap g))) → Z.of_nat (length (pn_children q)) < pp_fanout p →
  tree_ok p (attach_child parent tier childId g).
Proof.
  intros Hok Hq Ht Hfresh Hlen. pose proof Hok as [O1 O2 O3 O4 O5 O6 O7 O8].
  pose proof (attach_child_shape parent tier childId g q Hq) as Hs.
  pose proof (λ i n, attach_child_heap parent tier childId g q i n Hq) as Hh.
  assert (Hlid : length (ids_of (shape (gr_heap g))) = length (gr_heap g))
    by (unfold ids_of, shape; by rewrite !length_fmap).
  assert (Hpar : (parent < length (gr_heap g))%nat) by (by eapply lookup_lt_Some).
  assert (Hsame : ∀ i n, gr_heap g !! i = Some n → ∃ n', gr_heap (attach_child parent tier childId g) !! i = Some n'
    ∧ pn_id n' = pn_id n ∧ pn_tier n' = pn_tier n ∧ pn_parentId n' = pn_parentId n ∧ pn_role n' = pn_role n).
  { intros i n Hi. rewrite (attach_child_eq _ _ _ _ q Hq). cbn [gr_heap].
    rewrite lookup_app_l by (rewrite length_alter; by eapply lookup_lt_Some).
    destruct (decide (parent = i)) as [<-|Hne].
    - rewrite list_lookup_alter_eq, Hi. by eexists.
    - rewrite list_lookup_alter_ne by done. by exists n. }
  constructor.
  - rewrite Hs. unfold ids_of. rewrite fmap_app. by apply NoDup_snoc.
  - rewrite Hs. unfold ids_of. rewrite fmap_app. rewrite (attach_child_eq _ _ _ _ q Hq). cbn [gr_nodes gr_heap].
    rewrite length_app, length_alter, Nat.add_1_r, seq_S. cbn [fmap list_fmap].
    rewrite zip_snoc by (rewrite length_seq; exact Hlid). rewrite mset_absent, O2; [done|].
    rewrite O2. apply mget_None_keys. unfold mkeys. rewrite fst_zip; [done|].
    rewrite length_seq. lia.
  - rewrite Hs, links_of_app. rewrite (attach_child_eq _ _ _ _ q Hq). cbn [gr_links]. by rewrite O3.
  - intros i n. by apply (attach_child_kids p parent tier childId g q).
  - intros i n. intros [(m & Hm & ->)|[-> ->]]%Hh.
    + destruct (decide (i = parent)) as [->|Hne]; [|by eapply O5].
      rewrite Hq in Hm. injection Hm as <-. cbn [add_kids pn_with_children pn_children]. rewrite length_app. cbn. lia.
    + cbn. pose proof (O5 parent q Hq). lia.
  - destruct O6 as (r & Hr & R1 & R2 & R3 & R4). destruct (Hsame 0%nat r Hr) as (r' & Hr' & E1 & E2 & E3 & E4).
    exists r'. split; [done|]. repeat split; congruence.
  - intros i n Hi. intros [(m & Hm & ->)|[-> ->]]%Hh.
    + destruct (O7 i m Hi Hm) as (Hr & j & q' & Hj & Hq' & Hp & Ht').
      destruct (Hsame j q' Hq') as (q2 & Hq2 & E1 & E2 & _).
      split; [by destruct (decide _)|]. exists j, q2. split; [done|]. split; [done|].
      rewrite E1, E2. by destruct (decide (i = parent)).
    + split; [done|]. destruct (Hsame parent q Hq) as (q2 & Hq2 & E1 & E2 & _).
      exists parent, q2. rewrite E1, E2. split; [done|]. split; [done|]. cbn. by rewrite Ht.
  - intros i n. intros [(m & Hm & ->)|[-> ->]]%Hh; [|done]. destruct (decide _); exact (O8 i m Hm).
Qed.

(** * The loops *)

(** Attaching the children [l] in one go. *)
Definition attach_all (parent : nat) (tier : Z) (l : list jsstr) (g : growing) : growing :=
  fold_left (λ g c, attach_child parent tier c g) l g.

Lemma attach_children_spec fanout parent tier i pool g :
  i ≤ fanout →
  let '(g', next, rest) := attach_children fanout parent tier i pool g in
  ∃ taken, pool = taken ++ rest ∧ g' = attach_all parent tier taken g
    ∧ length next = length taken ∧ i + Z.of_nat (length taken) ≤ fanout
    ∧ (rest ≠ [] → i + Z.of_nat (length taken) = fanout).
Proof.
  revert i g. induction pool as [|c pool IH]; intros i g Hi; cbn [attach_children].
  { exists []. cbn. repeat split; [lia|done]. }
  destruct (decide (i < fanout)) as [Hlt|Hge].
  - specialize (IH (i + 1) (attach_child parent tier c g) ltac:(lia)).
    destruct (attach_children _ _ _ _ pool _) as [[g' next] rest].
    destruct IH as (taken & -> & -> & Hn & Hle & Hr). exists (c :: taken).
    split; [done|]. split; [done|]. cbn [length]. split; [by rewrite Hn|]. split; [lia|].
    intros Hne. specialize (Hr Hne). lia.
  - exists []. cbn. repeat split; lia.
Qed.

Lemma attach_child_length parent tier c g q :
  gr_heap g !! parent = Some q → length (gr_heap (attach_child parent tier c g)) = S (length (gr_heap g)).
Proof.
  intros Hq. rewrite (attach_child_eq _ _ _ _ q Hq). cbn [gr_heap].
  rewrite length_app, length_alter. cbn. lia.
Qed.

Lemma attach_children_next fanout parent tier i pool g q :
  gr_heap g !! parent = Some q →
  let '(g', next, rest) := attach_children fanout parent tier i pool g in
  next = seq (length (gr_heap g)) (length next).
Proof.
  revert i g q. induction pool as [|c pool IH]; intros i g q Hq; cbn [attach_children]; [done|].
  destruct (decide _); [|done].
  assert (∃ q', gr_heap (attach_child parent tier c g) !! parent = Some q') as [q' Hq'].
  { rewrite (attach_child_eq _ _ _ _ q Hq). cbn [gr_heap].
    rewrite lookup_app_l by (rewrite length_alter; by eapply lookup_lt_Some).
    rewrite list_lookup_alter_eq, Hq. by eexists. }
  specialize (IH (i + 1) _ q' Hq'). destruct (attach_children _ _ _ _ pool _) as [[g' next] rest].
  rewrite (attach_child_length _ _ _ _ q Hq) in IH. cbn [length seq]. by f_equal.
Qed.

(** The nodes after a parent's children were attached. *)
Lemma attach_all_spec p parent tier l g q :
  tree_ok p g → gr_heap g !! parent = Some q → pn_tier q = tier →
  NoDup l → (∀ c, c ∈ l → c ∉ ids_of (shape (gr_heap g))) →
  Z.of_nat (length (pn_children q) + length l) ≤ pp_fanout p →
  let g' := attach_all parent tier l g in
  tree_ok p g'
  ∧ gr_heap g' = alter (add_kids l) parent (gr_heap g) ++ (child_node (pn_id q) tier <$> l).
Proof.
  revert g q. induction l as [|c l IH]; intros g q Hok Hq Ht Hnd Hfresh Hlen; cbn [attach_all fold_left].
  { split; [done|]. cbn. rewrite app_nil_r, list_alter_id; [done|].
    intros n. unfold add_kids. rewrite app_nil_r. by destruct n. }
  apply NoDup_cons in Hnd as [Hc Hnd].
  assert (Hok1 : tree_ok p (attach_child parent tier c g))
    by (eapply attach_child_ok; [done..|apply Hfresh; left|cbn [length] in Hlen; lia]).
  assert (Hpl : (parent < length (gr_heap g))%nat) by (by eapply lookup_lt_Some).
  assert (Hq1 : gr_heap (attach_child parent tier c g) !! parent = Some (add_kids [c] q)).
  { rewrite (attach_child_eq _ _ _ _ q Hq). cbn [gr_heap]. rewrite lookup_app_l by (by rewrite length_alter).
    by rewrite list_lookup_alter_eq, Hq. }
  destruct (IH _ (add_kids [c] q) Hok1 Hq1 Ht Hnd) as [Hok' Hh'].
  - intros x Hx. rewrite (attach_child_shape _ _ _ _ q Hq). unfold ids_of. rewrite fmap_app, elem_of_app.
    intros [Hin|Hin%list_elem_of_singleton]; [by apply (Hfresh x); [right|]|]. by subst.
  - cbn [add_kids pn_with_children pn_children]. rewrite length_app. cbn [length] in *. lia.
  - split; [exact Hok'|]. unfold attach_all in Hh'. rewrite Hh', (attach_child_eq _ _ _ _ q Hq). cbn [gr_heap].
    rewrite alter_app_l by (by rewrite length_alter). rewrite <- app_assoc. f_equal.
    rewrite list_alter_alter_eq. apply list_alter_ext; [|done]. intros n _. unfold add_kids, compose. cbn.
    by rewrite <- app_assoc.
Qed.

(** The nodes that are expanded together: of one tier, and without children. *)
Definition frontier_ok (l : list nat) (tier : Z) (g : growing) : Prop :=
  NoDup l ∧ ∀ i, i ∈ l → ∃ n, gr_heap g !! i = Some n ∧ pn_tier n = tier ∧ pn_children n = [].

(** What [expand] does to the nodes that were there, and the ones it makes. *)
Record expanded (l : list nat) (tier : Z) (g g' : growing) (next : list nat) : Prop := {
  ex_next : next = seq (length (gr_heap g)) (length (gr_heap g') - length (gr_heap g));
  ex_length : (length (gr_heap g) ≤ length (gr_heap g'))%nat;
  ex_old i n : gr_heap g !! i = Some n → ∃ n', gr_heap g' !! i = Some n'
    ∧ pn_role n' = pn_role n ∧ pn_tier n' = pn_tier n ∧ (i ∉ l → n' = n);
  ex_new i n : (length (gr_heap g) ≤ i)%nat → gr_heap g' !! i = Some n →
    pn_tier n = tier + 1 ∧ pn_children n = [] ∧ pn_role n = Edge;
}.

Lemma expanded_nil tier g : expanded [] tier g g [].
Proof.
  constructor; [by rewrite Nat.sub_diag|lia| |].
  - intros i n Hi. by exists n.
  - intros i n Hle Hi%lookup_lt_Some. lia.
Qed.

Lemma expanded_one parent l tier g q :
  gr_heap g !! parent = Some q →
  let g' := attach_all parent tier l g in
  gr_heap g' = alter (add_kids l) parent (gr_heap g) ++ (child_node (pn_id q) tier <$> l) →
  expanded [parent] tier g g' (seq (length (gr_heap g)) (length l)).
Proof.
  intros Hq g' Hg'. assert (Hlen : length (gr_heap g') = (length (gr_heap g) + length l)%nat)
    by (by rewrite Hg', length_app, length_alter, length_fmap).
  constructor.
  - f_equal. lia.
  - lia.
  - intros i n Hi. rewrite Hg', lookup_app_l by (rewrite length_alter; by eapply lookup_lt_Some).
    destruct (decide (parent = i)) as [<-|Hne].
    + rewrite list_lookup_alter_eq, Hi. eexists. split; [done|]. repeat split.
      intros Hn. exfalso. apply Hn. by left.
    + rewrite list_lookup_alter_ne by done. by exists n.
  - intros i n Hle. rewrite Hg', lookup_app_r by (by rewrite length_alter).
    rewrite list_lookup_fmap. destruct (l !! _) as [c|]; [|done]. cbn. by intros [= <-].
Qed.

Lemma expanded_step parent l tier g g1 g2 next1 next2 :
  (∀ j, j ∈ l → (j < length (gr_heap g))%nat) →
  expanded [parent] tier g g1 next1 → expanded l tier g1 g2 next2 →
  expanded (parent :: l) tier g g2 (next1 ++ next2).
Proof.
  intros Hl [A1 A2 A3 A4] [B1 B2 B3 B4]. constructor.
  - rewrite A1, B1.
    replace (length (gr_heap g2) - length (gr_heap g))%nat with
      ((length (gr_heap g1) - length (gr_heap g)) + (length (gr_heap g2) - length (gr_heap g1)))%nat by lia.
    rewrite seq_app. f_equal. f_equal. lia.
  - lia.
  - intros i n Hi. destruct (A3 i n Hi) as (n1 & Hi1 & R1 & T1 & S1).
    destruct (B3 i n1 Hi1) as (n2 & Hi2 & R2 & T2 & S2). exists n2. split; [done|].
    split; [congruence|]. split; [congruence|]. intros Hn. apply not_elem_of_cons in Hn as [Hn1 Hn2].
    rewrite S2 by done. apply S1. by intros ?%list_elem_of_singleton.
  - intros i n Hle Hi. destruct (decide (length (gr_heap g1) ≤ i)%nat) as [Hge|Hlt]; [by apply (B4 i n)|].
    destruct (gr_heap g1 !! i) as [n1|] eqn:E1; [|apply lookup_ge_None in E1; lia].
    destruct (A4 i n1 Hle E1) as (T1 & C1 & R1). destruct (B3 i n1 E1) as (n2 & Hi2 & R2 & T2 & S2).
    rewrite Hi in Hi2. injection Hi2 as <-. rewrite S2; [done|]. intros Hin%Hl. lia.
Qed.

Lemma expanded_mono l l' tier g g' next :
  expanded l tier g g' next → l ⊆ l' → expanded l' tier g g' next.
Proof.
  intros [A1 A2 A3 A4] Hl. constructor; [done..| |done]. intros i n Hi.
  destruct (A3 i n Hi) as (n' & Hi' & R & T & Hs). exists n'. split; [done|]. split; [done|]. split; [done|].
  intros Hn. apply Hs. intros Hin. by apply Hn, Hl.
Qed.

Lemma expand_spec p l tier pool g :
  tree_ok p g → 1 ≤ pp_fanout p → frontier_ok l tier g → NoDup pool →
  (∀ c, c ∈ pool → c ∉ ids_of (shape (gr_heap g))) →
  let '(g', next, rest) := expand (pp_fanout p) l tier pool g in
  tree_ok p g' ∧ expanded l tier g g' next
  ∧ ∃ taken, pool = taken ++ rest ∧ ids_of (shape (gr_heap g')) = ids_of (shape (gr_heap g)) ++ taken
      ∧ (l ≠ [] → pool ≠ [] → taken ≠ []).
Proof.
  revert pool g. induction l as [|parent l IH]; intros pool g Hok Hf Hfr Hnd Hdis; cbn [expand].
  { split; [done|]. split; [apply expanded_nil|]. exists []. by rewrite app_nil_r. }
  destruct Hfr as [Hndl Hfr]. apply NoDup_cons in Hndl as [Hpl Hndl].
  destruct (Hfr parent ltac:(by left)) as (q & Hq & Ht & Hch).
  pose proof (attach_children_spec (pp_fanout p) parent tier 0 pool g ltac:(lia)) as Hs.
  pose proof (attach_children_next (pp_fanout p) parent tier 0 pool g q Hq) as Hn.
  destruct (attach_children _ _ _ _ pool g) as [[g1 next] rest].
  destruct Hs as (taken & -> & -> & Hlen & Hle & Hrest).
  apply NoDup_app in Hnd as (Hnt & Hsep & Hnr).
  destruct (attach_all_spec p parent tier taken g q Hok Hq Ht Hnt) as [Hok1 Hh1].
  { intros c Hc. apply Hdis, elem_of_app. by left. }
  { rewrite Hch. cbn [length]. lia. }
  pose proof (expanded_one parent taken tier g q Hq Hh1) as He1. rewrite <- Hlen, <- Hn in He1.
  assert (Hids1 : ids_of (shape (gr_heap (attach_all parent tier taken g))) = ids_of (shape (gr_heap g)) ++ taken).
  { rewrite !ids_of_shape, Hh1, fmap_app, <- list_fmap_compose.
    f_equal; [by rewrite <- !ids_of_shape, shape_alter|]. by apply list_fmap_id. }
  destruct rest as [|c rest].
  - split; [exact Hok1|]. split.
    + eapply expanded_mono; [exact He1|]. intros i ->%list_elem_of_singleton. by left.
    + exists taken. split; [done|]. split; [done|]. by rewrite app_nil_r.
  - assert (Hfr1 : frontier_ok l tier (attach_all parent tier taken g)).
    { split; [done|]. intros i Hi. destruct (Hfr i ltac:(by right)) as (n & Hn' & Tn & Cn).
      destruct (ex_old _ _ _ _ _ He1 i n Hn') as (n' & Hi' & _ & _ & Hsame). exists n'. split; [done|].
      rewrite Hsame; [done|]. intros ->%list_elem_of_singleton. done. }
    assert (Hdis1 : ∀ x, x ∈ c :: rest → x ∉ ids_of (shape (gr_heap (attach_all parent tier taken g)))).
    { intros x Hx. rewrite Hids1, elem_of_app. intros [Hin|Hin]; [|by apply (Hsep x)].
      apply (Hdis x); [apply elem_of_app; by right|done]. }
    specialize (IH (c :: rest) _ Hok1 Hf Hfr1 Hnr Hdis1).
    destruct (expand (pp_fanout p) l tier (c :: rest) _) as [[g2 next'] rest'].
    destruct IH as (Hok2 & He2 & taken' & Hp & Hids2 & _). split; [done|]. split.
    + eapply expanded_step; [|exact He1|exact He2].
      intros j Hj. destruct (Hfr j ltac:(by right)) as (n & Hn' & _). by eapply lookup_lt_Some.
    + exists (taken ++ taken'). rewrite Hp, Hids2, Hids1, !app_assoc. split; [done|]. split; [done|].
      intros _ _ [Hnil _]%app_nil. rewrite Hnil in Hrest. cbn [length] in Hrest. specialize (Hrest ltac:(done)). lia.
Qed.

(** * Promotion *)

Lemma promote1_same n :
  pn_id (promote1 n) = pn_id n ∧ pn_parentId (promote1 n) = pn_parentId n
  ∧ pn_children (promote1 n) = pn_children n ∧ pn_tier (promote1 n) = pn_tier n
  ∧ pn_viewerSlots (promote1 n) = pn_viewerSlots n ∧ (pn_role (promote1 n) = Origin ↔ pn_role n = Origin).
Proof.
  unfold promote1. destruct (negb (bool_decide (pn_children n = [])) && negb (bool_decide (pn_role n = Origin))) eqn:E;
    [|done]. repeat split; [done|]. intros Hr. by rewrite (bool_decide_eq_true_2 _ Hr), andb_false_r in E.
Qed.

Lemma promote_lookup l g i :
  NoDup l →
  gr_heap (promote l g) !! i = (if decide (i ∈ l) then promote1 else id) <$> gr_heap g !! i.
Proof.
  cbn [promote gr_heap]. generalize (gr_heap g). induction l as [|j l IH]; intros h Hnd.
  { rewrite decide_False by apply not_elem_of_nil. cbn. by destruct (h !! i). }
  apply NoDup_cons in Hnd as [Hj Hnd]. rewrite fold_left_cons, IH by done.
  destruct (decide (j = i)) as [<-|Hne].
  - rewrite list_lookup_alter_eq, decide_False, decide_True by (done || by left). by destruct (h !! j).
  - rewrite list_lookup_alter_ne by done. destruct (decide (i ∈ l)) as [Hin|Hn].
    + by rewrite decide_True by (by right).
    + by rewrite decide_False by (intros [|]%elem_of_cons; congruence).
Qed.

(** A node after promotion, and before. *)
Lemma promote_inv l g i n :
  NoDup l → gr_heap (promote l g) !! i = Some n →
  ∃ m, gr_heap g !! i = Some m ∧ n = if decide (i ∈ l) then promote1 m else m.
Proof.
  intros Hnd. rewrite promote_lookup by done. destruct (gr_heap g !! i) as [m|]; [|done]. cbn.
  destruct (decide _); intros [= <-]; eauto.
Qed.

Lemma promote_shape l g : shape (gr_heap (promote l g)) = shape (gr_heap g).
Proof.
  cbn [promote gr_heap]. generalize (gr_heap g). induction l as [|j l IH]; intros h; [done|].
  rewrite fold_left_cons, IH. apply shape_alter. intros n. by destruct (promote1_same n) as (-> & -> & _).
Qed.

Lemma promote_ok p l g : NoDup l → tree_ok p g → tree_ok p (promote l g).
Proof.
  intros Hnd [O1 O2 O3 O4 O5 O6 O7 O8].
  assert (Hlen : length (gr_heap (promote l g)) = length (gr_heap g)).
  { rewrite <- (length_fmap (λ n, (pn_id n, pn_parentId n)) (gr_heap (promote l g))).
    change (length (shape (gr_heap (promote l g))) = length (gr_heap g)). rewrite promote_shape.
    apply length_fmap. }
  assert (Hback : ∀ i n, gr_heap (promote l g) !! i = Some n → ∃ m, gr_heap g !! i = Some m
    ∧ pn_id n = pn_id m ∧ pn_parentId n = pn_parentId m ∧ pn_children n = pn_children m ∧ pn_tier n = pn_tier m
    ∧ pn_viewerSlots n = pn_viewerSlots m ∧ (pn_role n = Origin ↔ pn_role m = Origin)).
  { intros i n Hi. destruct (promote_inv l g i n Hnd Hi) as (m & Hm & ->). exists m. split; [done|].
    destruct (decide _); [apply promote1_same|done]. }
  assert (Hfwd : ∀ i m, gr_heap g !! i = Some m → ∃ n, gr_heap (promote l g) !! i = Some n).
  { intros i m Hm. rewrite promote_lookup, Hm by done. by eexists. }
  constructor; rewrite ?promote_shape, ?Hlen; try done.
  - intros i n Hi. destruct (Hback i n Hi) as (m & Hm & -> & _ & -> & _). eauto.
  - intros i n Hi. destruct (Hback i n Hi) as (m & Hm & _ & _ & -> & _). eauto.
  - destruct O6 as (r & Hr & R1 & R2 & R3 & R4). destruct (Hfwd 0%nat r Hr) as [n Hn].
    destruct (Hback _ _ Hn) as (m & Hm & E1 & E2 & _ & E3 & _ & E4). rewrite Hr in Hm. injection Hm as <-.
    exists n. rewrite E1, E2, E3, E4. done.
  - intros i n Hi Hn. destruct (Hback i n Hn) as (m & Hm & E1 & E2 & _ & E3 & _ & E4).
    destruct (O7 i m Hi Hm) as (Hr & j & q & Hj & Hq & Hp & Ht). split; [by rewrite E4|].
    destruct (Hfwd j q Hq) as [q' Hq']. destruct (Hback _ _ Hq') as (q2 & Hq2 & F1 & F2 & _ & F3 & _).
    rewrite Hq in Hq2. injection Hq2 as <-. exists j, q'. rewrite E2, E3, F1, F3. done.
  - intros i n Hi. destruct (Hback i n Hi) as (m & Hm & _ & _ & _ & _ & -> & _). eauto.
Qed.

(** * The whole loop *)

Definition roles_ok (h : list CascadePlanNode) : Prop :=
  ∀ i n, (0 < i)%nat → h !! i = Some n → pn_role n = if decide (pn_children n = []) then Edge else Relay.

(** At the head of the loop. *)
Record loop_ok (p : plan_params) (l : list nat) (tier : Z) (pool : list jsstr) (g : growing) : Prop := {
  lp_tree : tree_ok p g;
  lp_frontier : frontier_ok l tier g;
  lp_nonempty : l ≠ [];
  lp_tiers i n : gr_heap g !! i = Some n → 0 ≤ pn_tier n ≤ tier;
  lp_roles : roles_ok (gr_heap g);
  lp_pool : NoDup (ids_of (shape (gr_heap g)) ++ pool);
}.

Lemma loop_step p l tier pool g g1 next rest :
  1 ≤ pp_fanout p → loop_ok p l tier pool g → pool ≠ [] →
  expand (pp_fanout p) l tier pool g = (g1, next, rest) →
  loop_ok p next (tier + 1) rest (promote l g1)
  ∧ ids_of (shape (gr_heap (promote l g1))) ++ rest = ids_of (shape (gr_heap g)) ++ pool
  ∧ (length rest < length pool)%nat.
Proof.
  intros Hf [Htree Hfr Hne Htiers Hroles Hpool] Hp He.
  apply NoDup_app in Hpool as (Hi & Hsep & Hnp).
  pose proof (expand_spec p l tier pool g Htree Hf Hfr Hnp ltac:(intros c Hc Hin; by apply (Hsep c))) as Hs.
  rewrite He in Hs. destruct Hs as (Hok1 & [E1 E2 E3 E4] & taken & -> & Hids & Htaken).
  specialize (Htaken Hne Hp).
  assert (Hlen : (length (gr_heap g1) - length (gr_heap g) = length taken)%nat).
  { apply (f_equal length) in Hids. unfold ids_of, shape in Hids.
    rewrite length_app, !length_fmap in Hids. lia. }
  destruct Hfr as [Hnd Hfr].
  assert (Hold : ∀ i, i ∈ l → (i < length (gr_heap g))%nat).
  { intros i Hin. destruct (Hfr i Hin) as (n & Hn & _). by eapply lookup_lt_Some. }
  assert (Hnew : ∀ i n, (length (gr_heap g) ≤ i)%nat → gr_heap (promote l g1) !! i = Some n → gr_heap g1 !! i = Some n).
  { intros i n Hle Hn. destruct (promote_inv _ _ _ _ Hnd Hn) as (m & Hm & ->).
    rewrite decide_False; [done|]. intros Hin%Hold. lia. }
  split; [constructor|split].
  - by apply promote_ok.
  - split; [rewrite E1; apply NoDup_seq|]. intros i Hin. rewrite E1 in Hin. apply elem_of_seq in Hin.
    assert (Hlt : (i < length (gr_heap g1))%nat) by lia. apply lookup_lt_is_Some in Hlt as [n Hn].
    destruct (E4 i n ltac:(lia) Hn) as (T & C & _). exists n. split; [|done].
    rewrite promote_lookup, Hn by done. rewrite decide_False; [done|]. intros Hin'%Hold. lia.
  - intros ->. destruct taken as [|c taken]; [done|]. cbn in Hlen. rewrite Hlen in E1. done.
  - intros i n Hn. destruct (promote_inv _ _ _ _ Hnd Hn) as (m & Hm & ->).
    assert (pn_tier (if decide (i ∈ l) then promote1 m else m) = pn_tier m) as ->
      by (destruct (decide _); [apply promote1_same|done]).
    destruct (decide (length (gr_heap g) ≤ i)%nat) as [Hge|Hlt].
    + destruct (E4 i m Hge Hm) as (-> & _). destruct l as [|j l]; [done|].
      destruct (Hfr j ltac:(by left)) as (nj & Hj & Tj & _). pose proof (Htiers j nj Hj). lia.
    + destruct (gr_heap g !! i) as [n0|] eqn:E0; [|apply lookup_ge_None in E0; lia].
      destruct (E3 i n0 E0) as (n1 & Hn1 & _ & T1 & _). rewrite Hm in Hn1. injection Hn1 as <-.
      pose proof (Htiers i n0 E0). lia.
  - intros i n Hi0 Hn. destruct (decide (length (gr_heap g) ≤ i)%nat) as [Hge|Hlt].
    + apply Hnew in Hn; [|done]. destruct (E4 i n Hge Hn) as (_ & -> & ->). done.
    + destruct (promote_inv _ _ _ _ Hnd Hn) as (m & Hm & ->).
      destruct (gr_heap g !! i) as [n0|] eqn:E0; [|apply lookup_ge_None in E0; lia].
      destruct (E3 i n0 E0) as (n1 & Hn1 & R1 & T1 & S1). rewrite Hm in Hn1. injection Hn1 as <-.
      destruct (decide (i ∈ l)) as [Hin|Hn'].
      * destruct (Hfr i Hin) as (nf & Hnf & _ & Cf). rewrite E0 in Hnf. injection Hnf as <-.
        pose proof (Hroles i n0 Hi0 E0) as Hr. rewrite Cf in Hr. rewrite decide_True in Hr by done.
        unfold promote1. rewrite R1, Hr, (bool_decide_eq_false_2 (Edge = Origin)) by done.
        destruct (decide (pn_children m = [])) as [Hc|Hc].
        -- rewrite bool_decide_eq_true_2 by done. cbn [negb andb]. by rewrite R1, Hr, decide_True.
        -- rewrite bool_decide_eq_false_2 by done. cbn [negb andb]. cbn. by rewrite decide_False.
      * rewrite (S1 Hn'). by apply (Hroles i).
  - rewrite promote_shape, Hids, <- app_assoc. apply NoDup_app. done.
  - rewrite promote_shape, Hids. by rewrite <- app_assoc.
  - rewrite length_app. destruct taken; [done|]. cbn. lia.
Qed.

Lemma grow_spec fuel p l tier pool g :
  1 ≤ pp_fanout p → loop_ok p l tier pool g → (length pool < fuel)%nat →
  ∃ g' tier' l' rest, grow fuel p l tier pool g = Some (g', tier') ∧ loop_ok p l' tier' rest g'
    ∧ ids_of (shape (gr_heap g')) ++ rest = ids_of (shape (gr_heap g)) ++ pool ∧ tier ≤ tier'
    ∧ (pp_viewerCount p ≤ Z.of_nat (length l') * pp_viewersPerNode p ∨ rest = []).
Proof.
  intros Hf. revert l tier pool g. induction fuel as [|fuel IH]; intros l tier pool g Hok Hlt; [lia|].
  cbn [grow]. destruct (decide (Z.of_nat (length l) * pp_viewersPerNode p < pp_viewerCount p ∧ pool ≠ []))
    as [[Hmore Hp]|Hstop].
  - destruct (expand (pp_fanout p) l tier pool g) as [[g1 next] rest] eqn:He.
    destruct (loop_step p l tier pool g g1 next rest Hf Hok Hp He) as (Hok1 & Hids & Hlen).
    destruct next as [|i next]; [by destruct (lp_nonempty _ _ _ _ _ Hok1)|].
    destruct (IH _ _ _ _ Hok1 ltac:(lia)) as (g' & tier' & l' & rest' & -> & Hok' & Hids' & Ht & Hend).
    exists g', tier', l', rest'. rewrite Hids'. repeat (split; [done|]). split; [lia|done].
  - exists g, tier, l, pool. do 4 (split; [done|]).
    destruct (decide (pool = [])) as [->|Hne]; [by right|]. left. apply Z.nlt_ge. tauto.
Qed.

Lemma loop_start p :
  1 ≤ pp_fanout p → NoDup (pp_availableNodeIds p) →
  loop_ok p [0%nat] 0 (filter (λ id, id ≠ pp_originId p) (pp_availableNodeIds p))
    (mkGrowing [root_node (pp_originId p)] [(pp_originId p, 0%nat)] []).
Proof.
  intros Hf Hnd.
  assert (Hone : ∀ i (n : CascadePlanNode), [root_node (pp_originId p)] !! i = Some n →
    i = 0%nat ∧ n = root_node (pp_originId p)).
  { intros i n Hi. by apply list_lookup_singleton_Some in Hi as [-> <-]. }
  constructor; cbn [gr_heap gr_nodes gr_links]; try done.
  - constructor; cbn [gr_heap gr_nodes gr_links]; try done.
    + apply NoDup_singleton.
    + intros i n [-> ->]%Hone. done.
    + intros i n [-> ->]%Hone. cbn. lia.
    + by eexists.
    + intros i n Hi [-> _]%Hone. lia.
    + by intros i n [_ ->]%Hone.
  - split; [apply NoDup_singleton|]. intros i ->%list_elem_of_singleton. by eexists.
  - by intros i n [_ ->]%Hone.
  - intros i n Hi [-> _]%Hone. lia.
  - cbn. apply NoDup_cons. split; [|by apply NoDup_filter]. intros [Hx _]%list_elem_of_filter. done.
Qed.

(** * Seating *)

Definition viewers (h : list CascadePlanNode) : Z := foldr (λ n acc, pn_viewerSlots n + acc) 0 h.

Lemma viewers_insert h i n n' :
  h !! i = Some n → viewers (<[i := n']> h) = viewers h - pn_viewerSlots n + pn_viewerSlots n'.
Proof.
  revert i. induction h as [|m h IH]; intros [|i] Hi; try done; cbn.
  - injection Hi as ->. fold (viewers h). lia.
  - change (pn_viewerSlots m + viewers (<[i := n']> h) = pn_viewerSlots m + viewers h - pn_viewerSlots n + pn_viewerSlots n').
    rewrite (IH i Hi). lia.
Qed.

Lemma viewers_zero h : (∀ i n, h !! i = Some n → pn_viewerSlots n = 0) → viewers h = 0.
Proof.
  induction h as [|m h IH]; intros Hz; [done|]. cbn. fold (viewers h). rewrite (Hz 0%nat m eq_refl).
  rewrite IH; [done|]. intros i n Hi. by apply (Hz (S i)).
Qed.

Lemma with_slots_twice a b n : pn_with_slots a (pn_with_slots b n) = pn_with_slots a n.
Proof. done. Qed.
Lemma with_slots_same n : pn_with_slots (pn_viewerSlots n) n = n.
Proof. by destruct n. Qed.

(** What [leaves] can hold. *)
Definition capacity_of (p : plan_params) (h : list CascadePlanNode) (leaves : list nat) : Z :=
  foldr (λ i acc, match h !! i with Some n => capFor p (pn_id n) | None => 0 end + acc) 0 leaves.

Lemma capacity_nonneg p h l : (∀ id, 0 ≤ capFor p id) → 0 ≤ capacity_of p h l.
Proof.
  intros Hcap. induction l as [|i l IHl]; [done|]. cbn. fold (capacity_of p h l).
  destruct (h !! i) as [n|]; [pose proof (Hcap (pn_id n))|]; lia.
Qed.

Lemma seat_spec p leaves remaining h :
  NoDup leaves → 0 ≤ remaining → (∀ id, 0 ≤ capFor p id) →
  (∀ i n, i ∈ leaves → h !! i = Some n → pn_viewerSlots n = 0) →
  let '(h', remaining') := seat p leaves remaining h in
  0 ≤ remaining' ∧ viewers h' = viewers h + remaining - remaining'
  ∧ remaining' = Z.max 0 (remaining - capacity_of p h leaves)
  ∧ length h' = length h
  ∧ ∀ i n, h !! i = Some n → ∃ s, h' !! i = Some (pn_with_slots s n)
      ∧ (i ∉ leaves → s = pn_viewerSlots n)
      ∧ (i ∈ leaves → 0 ≤ s ≤ capFor p (pn_id n) ∧ (0 < remaining' → s = capFor p (pn_id n))).
Proof.
  intros Hnd Hrem Hcap. revert remaining h Hrem. induction leaves as [|leaf leaves IH]; intros remaining h Hrem Hz.
  { cbn. split; [done|]. split; [lia|]. split; [lia|]. split; [done|]. intros i n Hi. exists (pn_viewerSlots n).
    rewrite with_slots_same. split; [done|]. split; [done|]. by intros ?%elem_of_nil. }
  apply NoDup_cons in Hnd as [Hl Hnd]. cbn [seat].
  destruct (decide (remaining ≤ 0)) as [Hle|Hgt].
  { pose proof (capacity_nonneg p h (leaf :: leaves) Hcap) as Hp.
    split; [done|]. split; [lia|]. split; [lia|]. split; [done|]. intros i n Hi. exists (pn_viewerSlots n).
    rewrite with_slots_same. split; [done|]. split; [done|]. intros Hin. rewrite (Hz i n Hin Hi).
    pose proof (Hcap (pn_id n)). split; [lia|]. intros. lia. }
  destruct (h !! leaf) as [n0|] eqn:E0.
  - set (slots := Z.min (capFor p (pn_id n0)) remaining).
    pose proof (Hcap (pn_id n0)) as Hc0.
    set (h1 := <[leaf := pn_with_slots slots n0]> h).
    assert (Hlen : (leaf < length h)%nat) by (by eapply lookup_lt_Some).
    specialize (IH Hnd (remaining - slots) h1 ltac:(lia)).
    assert (Hcapeq : capacity_of p h1 leaves = capacity_of p h leaves).
    { clear -Hl E0. unfold h1. induction leaves as [|i leaves IHl]; [done|]. apply not_elem_of_cons in Hl as [Hne Hl].
      cbn. fold (capacity_of p h leaves) (capacity_of p (<[leaf := pn_with_slots slots n0]> h) leaves).
      rewrite list_lookup_insert_ne by done. by rewrite IHl. }
    destruct (seat p leaves (remaining - slots) h1) as [h' rem'].
    destruct IH as (I1 & I2 & I3 & I4 & I5).
    { intros i n Hin. unfold h1. rewrite list_lookup_insert_ne by (by intros ->). apply Hz. by right. }
    split; [done|]. split; [|split; [|split]].
    + rewrite I2. unfold h1. rewrite (viewers_insert _ _ _ _ E0), (Hz leaf n0) by (done || by left). cbn. lia.
    + rewrite I3, Hcapeq. cbn. fold (capacity_of p h leaves). rewrite E0.
      pose proof (capacity_nonneg p h leaves Hcap). unfold slots. lia.
    + rewrite I4. unfold h1. apply length_insert.
    + intros i n Hi. destruct (decide (i = leaf)) as [->|Hne].
      * rewrite E0 in Hi. injection Hi as <-.
        destruct (I5 leaf (pn_with_slots slots n0)) as (s & Hs & Hs1 & _).
        { unfold h1. by apply list_lookup_insert_eq. }
        exists s. rewrite Hs. split; [done|]. rewrite (Hs1 Hl). cbn. split; [intros Hn; exfalso; apply Hn; by left|].
        intros _. split; [lia|]. intros. pose proof (capacity_nonneg p h1 leaves Hcap). unfold slots in *. lia.
      * destruct (I5 i n) as (s & Hs & Hs1 & Hs2).
        { unfold h1. by rewrite list_lookup_insert_ne. }
        exists s. split; [done|]. split.
        -- intros Hn. apply Hs1. intros Hin. apply Hn. by right.
        -- intros [|Hin]%elem_of_cons; [done|]. by apply Hs2.
  - specialize (IH Hnd remaining h ltac:(lia)). destruct (seat p leaves remaining h) as [h' rem'].
    destruct IH as (I1 & I2 & I3 & I4 & I5); [intros i n Hin; apply Hz; by right|].
    split; [done|]. split; [done|]. split; [|split; [done|]].
    + rewrite I3. cbn. fold (capacity_of p h leaves). rewrite E0. lia.
    + intros i n Hi. destruct (I5 i n Hi) as (s & Hs & Hs1 & Hs2). exists s. split; [done|]. split.
      * intros Hn. apply Hs1. intros Hin. apply Hn. by right.
      * intros [->|Hin]%elem_of_cons; [congruence|by apply Hs2].
Qed.

(** * The plan *)

(** [[...plan.nodes.values()]]. *)
Definition plan_values (pl : CascadePlan) : list CascadePlanNode :=
  omap (λ i, pl_heap pl !! i) (mvals (pl_nodes pl)).

(** How a plan came about. *)
Record made_by (p : plan_params) (pl : CascadePlan) (g : growing) (tier : Z) (l : list nat)
    (rest : list jsstr) : Prop := {
  mb_fanout : 1 ≤ pp_fanout p ∧ 1 ≤ pp_viewersPerNode p;
  mb_loop : loop_ok p l tier rest g;
  mb_ids : ids_of (shape (gr_heap g)) ++ rest
    = pp_originId p :: filter (λ id, id ≠ pp_originId p) (pp_availableNodeIds p);
  mb_end : pp_viewerCount p ≤ Z.of_nat (length l) * pp_viewersPerNode p ∨ rest = [];
  mb_nodes : pl_nodes pl = gr_nodes g;
  mb_links : pl_links pl = gr_links g;
  mb_tiers : pl_tiers pl = tier + 1;
  mb_seat : seat p (filter (λ i, is_leaf (gr_heap g) i = true) (mvals (gr_nodes g))) (pp_viewerCount p) (gr_heap g)
    = (pl_heap pl, pl_unmetViewers pl);
  mb_served : pl_servedViewers pl = pp_viewerCount p - pl_unmetViewers pl;
  mb_edges : pl_edges pl = omap (λ i, pn_id <$> pl_heap pl !! i) (filter (λ i, has_viewers (pl_heap pl) i = true)
    (filter (λ i, is_leaf (gr_heap g) i = true) (mvals (gr_nodes g))));
}.

Lemma plan_made p : NoDup (pp_availableNodeIds p) →
  (planCascadeTree p = None ↔ pp_fanout p < 1 ∨ pp_viewersPerNode p < 1)
  ∧ ∀ pl, planCascadeTree p = Some pl → ∃ g tier l rest, made_by p pl g tier l rest.
Proof.
  intros Hnd. unfold planCascadeTree. destruct (decide (pp_fanout p < 1 ∨ pp_viewersPerNode p < 1)) as [Hbad|Hok].
  { split; [done|]. done. }
  set (pool := filter (λ id, id ≠ pp_originId p) (pp_availableNodeIds p)).
  destruct (grow_spec (S (length pool)) p [0%nat] 0 pool _ ltac:(lia) (loop_start p ltac:(lia) Hnd) ltac:(lia))
    as (g & tier & l & rest & -> & Hloop & Hids & Ht & Hend).
  destruct (seat p _ (pp_viewerCount p) (gr_heap g)) as [h remaining] eqn:Eseat.
  split; [split; [done|tauto]|]. intros pl [= <-]. exists g, tier, l, rest.
  constructor; cbn [pl_nodes pl_links pl_tiers pl_heap pl_unmetViewers pl_servedViewers pl_edges]; try done. lia.
Qed.

Section plan.
Context (p : plan_params) (pl : CascadePlan) (g : growing) (tier : Z) (l : list nat) (rest : list jsstr).
Context (Hmade : made_by p pl g tier l rest).

Lemma made_tree : tree_ok p g.
Proof. apply (lp_tree _ _ _ _ _ (mb_loop _ _ _ _ _ _ Hmade)). Qed.

Lemma length_ids : length (ids_of (shape (gr_heap g))) = length (gr_heap g).
Proof. unfold ids_of, shape. by rewrite !length_fmap. Qed.

Lemma made_refs : mvals (gr_nodes g) = seq 0 (length (gr_heap g)).
Proof.
  rewrite (tr_nodes _ _ made_tree). unfold mvals. apply snd_zip. by rewrite length_seq, length_ids.
Qed.

Lemma node_ref id i : mget id (gr_nodes g) = Some i ↔ ∃ n, gr_heap g !! i = Some n ∧ pn_id n = id.
Proof.
  assert (Hlk : ∀ id i, (id, i) ∈ gr_nodes g ↔ ids_of (shape (gr_heap g)) !! i = Some id).
  { intros id' i'. rewrite (tr_nodes _ _ made_tree), list_elem_of_lookup. split.
    - intros [k Hk]. apply lookup_zip_with_Some in Hk as (x & y & [= -> ->] & Hx & Hy).
      apply lookup_seq in Hy as [-> _]. done.
    - intros Hi. exists i'. apply lookup_zip_with_Some. exists id', i'. split; [done|]. split; [done|].
      apply lookup_seq. split; [lia|]. apply lookup_lt_Some in Hi. by rewrite length_ids in Hi. }
  assert (Hwf : mwf (gr_nodes g)).
  { unfold mwf. rewrite (tr_nodes _ _ made_tree), fst_zip by (rewrite length_seq, length_ids; lia). apply (tr_ids _ _ made_tree). }
  assert (mget id (gr_nodes g) = Some i ↔ (id, i) ∈ gr_nodes g) as ->
    by (split; [apply mget_elem|by apply elem_mget]).
  rewrite Hlk, ids_of_shape, list_lookup_fmap. destruct (gr_heap g !! i) as [n|]; cbn.
  - split; [intros [= <-]; eauto|]. by intros (n' & [= <-] & ->).
  - split; [done|]. by intros (n' & [=] & _).
Qed.

(** The leaves that are seated. *)
Definition leaf_refs : list nat := filter (λ i, is_leaf (gr_heap g) i = true) (mvals (gr_nodes g)).
Lemma leaf_refs_spec i n : gr_heap g !! i = Some n → i ∈ leaf_refs ↔ pn_children n = [].
Proof.
  intros Hi. unfold leaf_refs. rewrite list_elem_of_filter, made_refs. unfold is_leaf. rewrite Hi, bool_decide_eq_true.
  split; [tauto|]. intros Hc. split; [done|]. apply elem_of_seq. apply lookup_lt_Some in Hi. lia.
Qed.
Lemma leaf_refs_nodup : NoDup leaf_refs.
Proof. unfold leaf_refs. rewrite made_refs. apply NoDup_filter, NoDup_seq. Qed.

Lemma links_elem a b :
  (a, b) ∈ pl_links pl ↔ ∃ i n, gr_heap g !! i = Some n ∧ pn_id n = b ∧ pn_parentId n = Some a.
Proof.
  rewrite (mb_links _ _ _ _ _ _ Hmade), (tr_links _ _ made_tree). unfold links_of. rewrite list_elem_of_omap. split.
  - intros (x & Hx & Hp). apply list_elem_of_fmap in Hx as (n & -> & Hn). cbn in Hp.
    destruct (pn_parentId n) as [q|] eqn:Eq; [|done]. injection Hp as -> <-.
    apply list_elem_of_lookup in Hn as [i Hi]. by exists i, n.
  - intros (i & n & Hi & <- & Hp). exists (pn_id n, pn_parentId n). split; [|cbn; by rewrite Hp].
    apply list_elem_of_fmap. exists n. split; [done|]. by eapply list_elem_of_lookup_2.
Qed.

Lemma kids_elem i n c : gr_heap g !! i = Some n → c ∈ pn_children n ↔ (pn_id n, c) ∈ pl_links pl.
Proof.
  intros Hi. rewrite (tr_kids _ _ made_tree i n Hi), links_elem. unfold kids. rewrite list_elem_of_omap. split.
  - intros (x & Hx & Hp). apply list_elem_of_fmap in Hx as (m & -> & Hm). cbn in Hp.
    destruct (decide (pn_parentId m = Some (pn_id n))) as [Hpar|]; [|done]. injection Hp as <-.
    apply list_elem_of_lookup in Hm as [j Hj]. by exists j, m.
  - intros (j & m & Hj & <- & Hp). exists (pn_id m, pn_parentId m). cbn. rewrite decide_True by done. split; [|done].
    apply list_elem_of_fmap. exists m. split; [done|]. by eapply list_elem_of_lookup_2.
Qed.

(** The way down from the origin. *)
Lemma reached i n : gr_heap g !! i = Some n →
  nsteps (λ a b, (a, b) ∈ pl_links pl) (Z.to_nat (pn_tier n)) (pp_originId p) (pn_id n).
Proof.
  revert n. induction (lt_wf i) as [i _ IH]. intros n Hi. destruct i as [|i].
  - destruct (tr_root _ _ made_tree) as (r & Hr & Hid & _ & Ht & _). rewrite Hi in Hr. injection Hr as <-.
    rewrite Ht, Hid. constructor.
  - destruct (tr_parent _ _ made_tree (S i) n ltac:(lia) Hi) as (_ & j & q & Hj & Hq & Hp & Ht).
    pose proof (lp_tiers _ _ _ _ _ (mb_loop _ _ _ _ _ _ Hmade) j q Hq) as Hb.
    rewrite Ht, Z2Nat.inj_add by lia. rewrite Nat.add_comm. cbn [Nat.add Z.to_nat Pos.to_nat Pos.iter_op].
    change (Pos.to_nat 1) with 1%nat. rewrite Nat.add_comm. eapply nsteps_trans; [by apply (IH j)|].
    apply nsteps_once. apply links_elem. by exists (S i), n.
Qed.

Lemma links_targets s : NoDup (s.*1) → NoDup ((links_of s).*2) ∧ ∀ b, b ∈ (links_of s).*2 → b ∈ s.*1.
Proof.
  induction s as [|[b [a|]] s IH]; intros Hnd; cbn.
  - split; [constructor|]. done.
  - apply NoDup_cons in Hnd as [Hb Hnd]. destruct (IH Hnd) as [H1' H2']. split.
    + apply NoDup_cons. split; [|done]. by intros ?%H2'.
    + intros x [->|Hx]%elem_of_cons; [left|right; auto].
  - apply NoDup_cons in Hnd as [Hb Hnd]. destruct (IH Hnd) as [H1' H2']. split; [done|]. intros x Hx. right. auto.
Qed.
End plan.

(** Where a node of the plan comes from: the loop's node, seated. *)
Lemma plan_node_inv p pl g tier l rest id n' :
  made_by p pl g tier l rest → 0 ≤ pp_viewerCount p → (∀ id, 0 ≤ capFor p id) →
  plan_node id pl = Some n' →
  ∃ i n s, gr_heap g !! i = Some n ∧ pn_id n = id ∧ n' = pn_with_slots s n ∧ pl_heap pl !! i = Some n'
    ∧ (pn_children n ≠ [] → s = 0)
    ∧ (pn_children n = [] → 0 ≤ s ≤ capFor p id ∧ (0 < pl_unmetViewers pl → s = capFor p id)).
Proof.
  intros Hm Hv Hcap. unfold plan_node. rewrite (mb_nodes _ _ _ _ _ _ Hm).
  destruct (mget id (gr_nodes g)) as [i|] eqn:Ei; [|done]. cbn. intros Hi.
  apply (node_ref p pl g tier l rest Hm) in Ei as (n & Hn & <-).
  pose proof (made_tree p pl g tier l rest Hm) as Ht.
  pose proof (seat_spec p (leaf_refs g) (pp_viewerCount p) (gr_heap g) (leaf_refs_nodup p pl g tier l rest Hm)
    Hv Hcap ltac:(intros; by eapply (tr_slots _ _ Ht))) as Hs.
  unfold leaf_refs in Hs. rewrite (mb_seat _ _ _ _ _ _ Hm) in Hs. destruct Hs as (_ & _ & _ & _ & Hs).
  destruct (Hs i n Hn) as (s & Hs1 & Hs2 & Hs3). rewrite Hi in Hs1. injection Hs1 as ->.
  pose proof (leaf_refs_spec p pl g tier l rest Hm i n Hn) as Hleaf.
  exists i, n, s. split; [done|]. split; [done|]. split; [done|]. split; [done|]. split.
  - intros Hc. rewrite Hs2; [by eapply (tr_slots _ _ Ht)|]. unfold leaf_refs in Hleaf. tauto.
  - intros Hc. apply Hs3. by apply Hleaf.
Qed.

(** C16: [planCascadeTree] throws exactly on a fan-out or a capacity below one, and
    otherwise returns a plan: the loop ends. *)
Theorem plan_total p :
  NoDup (pp_availableNodeIds p) →
  planCascadeTree p = None ↔ pp_fanout p < 1 ∨ pp_viewersPerNode p < 1.
Proof. intros Hnd. apply (plan_made p Hnd). Qed.

(** C10: A plan is a tree over the origin: every node is an available one, reached from
    the origin by as many links as its tier says, and within the tiers the plan
    counts; it has at most [fanout] children, which are the nodes it has links to;
    every node but the origin is linked from exactly one node; and the roles follow
    the structure. *)
Theorem plan_tree p pl :
  planCascadeTree p = Some pl → NoDup (pp_availableNodeIds p) →
  0 ≤ pp_viewerCount p → (∀ id, 0 ≤ capFor p id) →
  (∃ r, plan_node (pp_originId p) pl = Some r ∧ pn_parentId r = None ∧ pn_tier r = 0 ∧ pn_role r = Origin)
  ∧ (∀ id n, plan_node id pl = Some n →
       pn_id n = id ∧ (id = pp_originId p ∨ id ∈ pp_availableNodeIds p) ∧ 0 ≤ pn_tier n < pl_tiers pl
       ∧ nsteps (λ a b, (a, b) ∈ pl_links pl) (Z.to_nat (pn_tier n)) (pp_originId p) id
       ∧ Z.of_nat (length (pn_children n)) ≤ pp_fanout p ∧ (∀ c, c ∈ pn_children n ↔ (id, c) ∈ pl_links pl)
       ∧ (id ≠ pp_originId p → pn_role n = if decide (pn_children n = []) then Edge else Relay))
  ∧ NoDup (pl_links pl).*2
  ∧ (∀ id, id ∈ (pl_links pl).*2 ↔ id ≠ pp_originId p ∧ is_Some (plan_node id pl)).
Proof.
  intros Hp Hnd Hv Hcap. destruct (proj2 (plan_made p Hnd) pl Hp) as (g & tier & l & rest & Hm).
  pose proof (made_tree p pl g tier l rest Hm) as Ht. pose proof (mb_loop _ _ _ _ _ _ Hm) as Hl.
  destruct (tr_root _ _ Ht) as (r & Hr & R1 & R2 & R3 & R4).
  assert (Hget : ∀ i n, gr_heap g !! i = Some n → is_Some (plan_node (pn_id n) pl)).
  { intros i n Hi. unfold plan_node. rewrite (mb_nodes _ _ _ _ _ _ Hm).
    rewrite (proj2 (node_ref p pl g tier l rest Hm (pn_id n) i)) by eauto. cbn.
    pose proof (mb_seat _ _ _ _ _ _ Hm) as Hs.
    pose proof (seat_spec p (leaf_refs g) (pp_viewerCount p) (gr_heap g) (leaf_refs_nodup p pl g tier l rest Hm)
      Hv Hcap ltac:(intros; by eapply (tr_slots _ _ Ht))) as Hss.
    unfold leaf_refs in Hss. rewrite Hs in Hss. destruct Hss as (_ & _ & _ & _ & Hss).
    destruct (Hss i n Hi) as (s & -> & _). by eexists. }
  assert (Hzero : ∀ i n, gr_heap g !! i = Some n → pn_id n = pp_originId p ↔ i = 0%nat).
  { intros i n Hi. split; [|intros ->; congruence]. intros Hid.
    eapply (NoDup_lookup _ _ _ (pn_id n) (tr_ids _ _ Ht)); rewrite ids_of_shape, list_lookup_fmap.
    - by rewrite Hi.
    - rewrite Hr. cbn. congruence. }
  split; [|split; [|split]].
  - destruct (Hget 0%nat r Hr) as [r' Hr']. rewrite R1 in Hr'.
    destruct (plan_node_inv _ _ _ _ _ _ _ _ Hm Hv Hcap Hr') as (i & n & s & Hi & Hid & -> & _).
    apply (Hzero i n Hi) in Hid as ->. rewrite Hr in Hi. injection Hi as <-. by eexists.
  - intros id n' Hn'. destruct (plan_node_inv _ _ _ _ _ _ _ _ Hm Hv Hcap Hn') as (i & n & s & Hi & <- & -> & _).
    cbn. pose proof (lp_tiers _ _ _ _ _ Hl i n Hi) as Htier. rewrite (mb_tiers _ _ _ _ _ _ Hm).
    split; [done|]. split.
    { assert (Hin : pn_id n ∈ ids_of (shape (gr_heap g)) ++ rest).
      { apply elem_of_app. left. rewrite ids_of_shape. apply list_elem_of_fmap. exists n. split; [done|].
        by eapply list_elem_of_lookup_2. }
      rewrite (mb_ids _ _ _ _ _ _ Hm) in Hin. apply elem_of_cons in Hin as [|Hin]; [by left|]. right.
      by apply list_elem_of_filter in Hin as []. }
    split; [lia|]. split; [by apply (reached p pl g tier l rest Hm i)|].
    split; [by apply (tr_fanout _ _ Ht i)|]. split; [by intros c; apply (kids_elem p pl g tier l rest Hm i)|].
    intros Hne. apply (lp_roles _ _ _ _ _ Hl i n); [|done]. destruct i; [|lia].
    exfalso. apply Hne. by apply (Hzero 0%nat).
  - rewrite (mb_links _ _ _ _ _ _ Hm), (tr_links _ _ Ht). apply links_targets, (tr_ids _ _ Ht).
  - intros id. split.
    + intros Hin. apply list_elem_of_fmap in Hin as ([a b] & -> & Hin). cbn.
      apply (links_elem p pl g tier l rest Hm) in Hin as (i & n & Hi & <- & Hpar). split; [|by eapply Hget].
      intros Hid. apply (Hzero i n Hi) in Hid as ->. congruence.
    + intros [Hne [n' Hn']]. destruct (plan_node_inv _ _ _ _ _ _ _ _ Hm Hv Hcap Hn') as (i & n & s & Hi & <- & -> & _).
      destruct i as [|i]; [by destruct Hne; apply (Hzero 0%nat)|].
      destruct (tr_parent _ _ Ht (S i) n ltac:(lia) Hi) as (_ & j & q & _ & Hq & Hpar & _).
      apply list_elem_of_fmap. exists (pn_id q, pn_id n). split; [done|].
      apply (links_elem p pl g tier l rest Hm). by exists (S i), n.
Qed.

Lemma omap_seq {A} (h : list A) (k : nat) : k = length h → omap (λ i, h !! i) (seq 0 k) = h.
Proof.
  intros ->. induction h as [|x h IH] using rev_ind; [done|]. rewrite length_app. cbn [length].
  rewrite Nat.add_1_r, seq_S, omap_app. cbn. rewrite lookup_app_r, Nat.sub_diag by lia. cbn. f_equal.
  rewrite <- IH at 2. apply list_omap_ext. apply Forall2_same_length_lookup_2; [done|].
  intros i a b Ha Hb. rewrite Ha in Hb. injection Hb as <-. apply lookup_seq in Ha as [-> Hlt]. cbn.
  by rewrite lookup_app_l.
Qed.

Lemma capacity_uniform p h leaves v :
  (∀ id, capFor p id = v) → (∀ i, i ∈ leaves → is_Some (h !! i)) →
  capacity_of p h leaves = Z.of_nat (length leaves) * v.
Proof.
  intros Hv. induction leaves as [|i leaves IH]; intros Hs; [done|]. cbn. fold (capacity_of p h leaves).
  destruct (Hs i ltac:(by left)) as [n ->]. rewrite Hv, IH by (intros; apply Hs; by right). lia.
Qed.

(** C11: The seats: viewers sit at leaves only, no leaf takes more than it can hold, the
    seats add up to the viewers the plan says it serves, and those it does not serve
    are left out because every leaf is full.  When all nodes hold the same, they are
    left out only if every available node is in the tree. *)
Theorem plan_seats p pl :
  planCascadeTree p = Some pl → NoDup (pp_availableNodeIds p) →
  0 ≤ pp_viewerCount p → (∀ id, 0 ≤ capFor p id) →
  0 ≤ pl_unmetViewers pl ∧ pl_servedViewers pl + pl_unmetViewers pl = pp_viewerCount p
  ∧ viewers (plan_values pl) = pl_servedViewers pl
  ∧ (∀ id n, plan_node id pl = Some n →
       (pn_children n ≠ [] → pn_viewerSlots n = 0)
       ∧ (pn_children n = [] → 0 ≤ pn_viewerSlots n ≤ capFor p id
            ∧ (0 < pl_unmetViewers pl → pn_viewerSlots n = capFor p id)))
  ∧ (pp_capacityOf p = None → 0 < pl_unmetViewers pl →
       ∀ id, id ∈ pp_availableNodeIds p → is_Some (plan_node id pl)).
Proof.
  intros Hp Hnd Hv Hcap. destruct (proj2 (plan_made p Hnd) pl Hp) as (g & tier & l & rest & Hm).
  pose proof (made_tree p pl g tier l rest Hm) as Ht. pose proof (mb_loop _ _ _ _ _ _ Hm) as Hl.
  pose proof (seat_spec p (leaf_refs g) (pp_viewerCount p) (gr_heap g) (leaf_refs_nodup p pl g tier l rest Hm)
    Hv Hcap ltac:(intros; by eapply (tr_slots _ _ Ht))) as Hs.
  unfold leaf_refs in Hs. rewrite (mb_seat _ _ _ _ _ _ Hm) in Hs. destruct Hs as (S1 & S2 & S3 & S4 & S5).
  rewrite (viewers_zero (gr_heap g)) in S2 by apply (tr_slots _ _ Ht).
  rewrite (mb_served _ _ _ _ _ _ Hm).
  split; [done|]. split; [lia|]. split; [|split].
  - unfold plan_values. rewrite (mb_nodes _ _ _ _ _ _ Hm), (made_refs p pl g tier l rest Hm), omap_seq by done. lia.
  - intros id n' Hn'. destruct (plan_node_inv _ _ _ _ _ _ _ _ Hm Hv Hcap Hn') as (i & n & s & Hi & _ & -> & _ & Hs).
    exact Hs.
  - intros Huni Hunmet id Hid.
    assert (Hrest : rest = []).
    { destruct (mb_end _ _ _ _ _ _ Hm) as [Hend|]; [|done]. exfalso.
      rewrite (capacity_uniform p _ _ (pp_viewersPerNode p)) in S3.
      - assert (length l ≤ length (leaf_refs g))%nat as Hle.
        { destruct (lp_frontier _ _ _ _ _ Hl) as [Hndl Hfr]. apply submseteq_length, NoDup_submseteq; [done|].
          intros i Hi. destruct (Hfr i Hi) as (n & Hn & _ & Hc).
          by apply (leaf_refs_spec p pl g tier l rest Hm i n Hn). }
        unfold leaf_refs in Hle. pose proof (proj2 (mb_fanout _ _ _ _ _ _ Hm)). nia.
      - intros id'. unfold capFor. rewrite Huni. by destruct (decide _).
      - intros i Hi. apply list_elem_of_filter in Hi as [_ Hi]. rewrite (made_refs p pl g tier l rest Hm) in Hi.
        apply elem_of_seq in Hi. apply lookup_lt_is_Some. lia. }
    assert (Hin : id ∈ ids_of (shape (gr_heap g))).
    { pose proof (mb_ids _ _ _ _ _ _ Hm) as Hids. rewrite Hrest, app_nil_r in Hids. rewrite Hids.
      destruct (decide (id = pp_originId p)) as [->|Hne]; [by left|]. right. by apply list_elem_of_filter. }
    rewrite ids_of_shape in Hin. apply list_elem_of_fmap in Hin as (n & -> & Hn).
    apply list_elem_of_lookup in Hn as [i Hi]. unfold plan_node. rewrite (mb_nodes _ _ _ _ _ _ Hm).
    rewrite (proj2 (node_ref p pl g tier l rest Hm (pn_id n) i)) by eauto. cbn.
    destruct (S5 i n Hi) as (s & -> & _). by eexists.
Qed.

(** * A concrete plan *)

(** 250 viewers, a hundred to a node, two children each: two tiers under the origin. *)
Definition example_params : plan_params :=
  mkPlanParams (js "o") 250 2 100 [js "a"; js "b"; js "c"; js "d"; js "e"] None.
Definition example_plan : CascadePlan :=
  default (mkPlan [] [] [] [] [] 0 0 0) (planCascadeTree example_params).

Lemma example_planned : planCascadeTree example_params = Some example_plan.
Proof. vm_compute. reflexivity. Qed.
Lemma example_nodup : NoDup (pp_availableNodeIds example_params).
Proof. apply (bool_decide_unpack _). vm_compute. exact I. Qed.
Lemma example_cap id : 0 ≤ capFor example_params id.
Proof. unfold capFor. cbn. destruct (decide _); lia. Qed.

Lemma plan_total_witness :
  ¬ (planCascadeTree example_params = None)
  ∧ planCascadeTree (mkPlanParams (js "o") 250 0 100 [js "a"] None) = None.
Proof.
  split.
  - rewrite (plan_total example_params example_nodup). cbn. lia.
  - apply plan_total; [apply NoDup_singleton|]. cbn. lia.
Defined.

Lemma plan_tree_witness :
  pl_tiers example_plan = 3 ∧ NoDup (pl_links example_plan).*2
  ∧ nsteps (λ a b, (a, b) ∈ pl_links example_plan) 2 (js "o") (js "d").
Proof.
  destruct (plan_tree example_params example_plan example_planned example_nodup ltac:(done) example_cap)
    as (_ & Hnodes & Hnd & _).
  split; [vm_compute; reflexivity|]. split; [exact Hnd|].
  destruct (plan_node (js "d") example_plan) as [n|] eqn:En; [|vm_compute in En; discriminate].
  pose proof (Hnodes (js "d") n En) as (_ & _ & _ & Hn & _). vm_compute in En. injection En as <-. exact Hn.
Defined.

Lemma plan_seats_witness :
  pl_edges example_plan = [js "c"; js "d"; js "e"] ∧ viewers (plan_values example_plan) = 250
  ∧ pl_servedViewers example_plan + pl_unmetViewers example_plan = 250.
Proof.
  destruct (plan_seats example_params example_plan example_planned example_nodup ltac:(done) example_cap)
    as (_ & Hsum & Hv & _).
  split; [vm_compute; reflexivity|]. split; [|exact Hsum]. rewrite Hv. vm_compute. reflexivity.
Defined.
