(* ===== verification/Sfu.v ===== *)
(** Nodes, clusters, failure tracking and health checks
    (packages/sfu/src/SfuNode.ts, SfuCluster.ts, NodeFailureTracker.ts,
    HealthChecker.ts).

    Nodes are shared objects: the cluster, the tracker and its client refer to
    them, and a node that left the cluster may still be referred to.  A [World]
    holds the heap of nodes, the cluster, one tracker, and the state [A] of the
    tracker's client, which is told of lost nodes through the interface
    [FailureClient].  Listeners of the application do not call back. *)

From S2P Require Import Prelude JsMap.

(** * Nodes *)

Inductive BandwidthQuality := QHigh | QMedium | QLow.

Inductive SfuNodeEvent :=
| EvLoad (load : Z)
| EvOverloaded
| EvFailed
| EvRecovered
| EvDraining
| EvDrained
| EvBandwidthEstimate (q : BandwidthQuality).

(** A pending call of [drain]: suspended on its promise, or about to continue. *)
Inductive drain_phase := NotDraining | DrainWaiting | DrainResolved.
#[export] Instance drain_phase_eq_dec : EqDecision drain_phase.
Proof. solve_decision. Defined.

Record SfuNode := mkSfuNode {
  nd_id : jsstr;
  nd_region : jsstr;
  nd_capacity : Z;
  nd_load : Z;
  nd_failed : bool;
  nd_draining : bool;
  nd_rooms : list jsstr;
  nd_drain : drain_phase;
  nd_collecting : bool;
  nd_out : list SfuNodeEvent;
}.
Implicit Types (n : SfuNode).

Definition DEFAULT_CAPACITY : Z := 100.

Definition newSfuNode (id region : jsstr) (capacity : option Z) : SfuNode :=
  mkSfuNode id region (default DEFAULT_CAPACITY capacity) 0 false false [] NotDraining false [].

Definition nd_emit (e : SfuNodeEvent) n : SfuNode :=
  mkSfuNode (nd_id n) (nd_region n) (nd_capacity n) (nd_load n) (nd_failed n) (nd_draining n)
    (nd_rooms n) (nd_drain n) (nd_collecting n) (nd_out n ++ [e]).
Definition nd_set_load (x : Z) n : SfuNode :=
  mkSfuNode (nd_id n) (nd_region n) (nd_capacity n) x (nd_failed n) (nd_draining n)
    (nd_rooms n) (nd_drain n) (nd_collecting n) (nd_out n).
Definition nd_set_failed (x : bool) n : SfuNode :=
  mkSfuNode (nd_id n) (nd_region n) (nd_capacity n) (nd_load n) x (nd_draining n)
    (nd_rooms n) (nd_drain n) (nd_collecting n) (nd_out n).
Definition nd_set_drain (d : bool) (x : drain_phase) n : SfuNode :=
  mkSfuNode (nd_id n) (nd_region n) (nd_capacity n) (nd_load n) (nd_failed n) d
    (nd_rooms n) x (nd_collecting n) (nd_out n).
Definition nd_set_rooms (x : list jsstr) n : SfuNode :=
  mkSfuNode (nd_id n) (nd_region n) (nd_capacity n) (nd_load n) (nd_failed n) (nd_draining n)
    x (nd_drain n) (nd_collecting n) (nd_out n).
Definition nd_set_collecting (x : bool) n : SfuNode :=
  mkSfuNode (nd_id n) (nd_region n) (nd_capacity n) (nd_load n) (nd_failed n) (nd_draining n)
    (nd_rooms n) (nd_drain n) x (nd_out n).

Definition isOverloaded n : bool := bool_decide (nd_capacity n ≤ nd_load n).

(** [_drainResolvers], run and cleared. *)
Definition resolve_drain n : SfuNode :=
  match nd_drain n with DrainWaiting => nd_set_drain (nd_draining n) DrainResolved n | _ => n end.

(** [reportLoad]; the boolean says that it emitted [Overloaded]. *)
Definition reportLoad (x : Z) n : SfuNode * bool :=
  let wasOverloaded := isOverloaded n in
  let n1 := nd_emit (EvLoad x) (nd_set_load x n) in
  if negb wasOverloaded && isOverloaded n1 then (nd_emit EvOverloaded n1, true) else (n1, false).

Definition stopStatsCollection n : SfuNode := nd_set_collecting false n.
Definition startStatsCollection n : SfuNode := nd_set_collecting true (stopStatsCollection n).
Definition reportBandwidthQuality (q : BandwidthQuality) n : SfuNode := nd_emit (EvBandwidthEstimate q) n.

(** [markFailed]; the boolean says that it emitted [Failed]. *)
Definition markFailed n : SfuNode * bool :=
  if nd_failed n then (n, false)
  else
    let n1 := stopStatsCollection (nd_set_failed true n) in
    let n2 := if nd_draining n1 then resolve_drain n1 else n1 in
    (nd_emit EvFailed n2, true).

(** [markRecovered]; the boolean says that it emitted [Recovered]. *)
Definition markRecovered n : SfuNode * bool :=
  if nd_failed n then (nd_emit EvRecovered (nd_set_failed false n), true) else (n, false).

Definition trackRoom (roomId : jsstr) n : SfuNode := nd_set_rooms (sadd roomId (nd_rooms n)) n.
Definition untrackRoom (roomId : jsstr) n : SfuNode :=
  let n1 := nd_set_rooms (sdel roomId (nd_rooms n)) n in
  if nd_draining n1 && bool_decide (nd_rooms n1 = []) then resolve_drain n1 else n1.

(** [drain] up to its promise. *)
Definition drain n : SfuNode :=
  if nd_draining n then n
  else
    let n1 := stopStatsCollection (nd_set_drain true (nd_drain n) n) in
    let n2 := nd_emit EvDraining n1 in
    nd_set_drain true (if decide (nd_rooms n2 = []) then DrainResolved else DrainWaiting) n2.
(** The timeout of a drain. *)
Definition drain_timeout n : SfuNode := resolve_drain n.
(** [drain] after its promise. *)
Definition drain_done n : SfuNode :=
  match nd_drain n with
  | DrainResolved => nd_emit EvDrained (nd_set_drain false NotDraining n)
  | _ => n
  end.

(** * The cluster, its health checks, and a tracker *)

Inductive SfuClusterEvent :=
| NodeAdded (node : nat)
| NodeRemoved (node : nat)
| ClusterOverloaded
| ClusterError (id : jsstr)
| OnRebalance (id : jsstr) (failed : bool).

Record SfuCluster := mkCluster {
  cl_nodes : jmap jsstr nat;
  cl_failStreak : jmap jsstr Z;
  cl_passStreak : jmap jsstr Z;
  cl_failureThreshold : option Z;
  cl_recoveryThreshold : option Z;
  cl_checking : bool;
  cl_inFlight : list jsstr;
  cl_probes : list (option nat);
  cl_out : list SfuClusterEvent;
}.

(** [NodeFailureTracker]: the node each id's listeners are attached to, the ids
    that were reported, and whether it listens to the cluster. *)
Record NodeFailureTracker := mkTracker {
  tk_listeners : jmap jsstr nat;
  tk_gone : list jsstr;
  tk_on : bool;
}.

(** What a client of the tracker does when it is told that a node is gone; it sees
    the cluster's nodes. *)
Class FailureClient (A : Type) :=
  onGone : nat → jmap jsstr nat → list SfuNode → A → list SfuNode * A.

Record World (A : Type) := mkWorld {
  wd_heap : list SfuNode;
  wd_cluster : SfuCluster;
  wd_tracker : NodeFailureTracker;
  wd_client : A;
}.
Arguments mkWorld {_}. Arguments wd_heap {_}. Arguments wd_cluster {_}.
Arguments wd_tracker {_}. Arguments wd_client {_}.

Definition clu_nodes (x : jmap jsstr nat) (c : SfuCluster) : SfuCluster :=
  mkCluster x (cl_failStreak c) (cl_passStreak c) (cl_failureThreshold c) (cl_recoveryThreshold c)
    (cl_checking c) (cl_inFlight c) (cl_probes c) (cl_out c).
Definition clu_streaks (f p : jmap jsstr Z) (c : SfuCluster) : SfuCluster :=
  mkCluster (cl_nodes c) f p (cl_failureThreshold c) (cl_recoveryThreshold c)
    (cl_checking c) (cl_inFlight c) (cl_probes c) (cl_out c).
Definition clu_checking (x : bool) (c : SfuCluster) : SfuCluster :=
  mkCluster (cl_nodes c) (cl_failStreak c) (cl_passStreak c) (cl_failureThreshold c) (cl_recoveryThreshold c)
    x (cl_inFlight c) (cl_probes c) (cl_out c).
Definition clu_probes (fl : list jsstr) (x : list (option nat)) (c : SfuCluster) : SfuCluster :=
  mkCluster (cl_nodes c) (cl_failStreak c) (cl_passStreak c) (cl_failureThreshold c) (cl_recoveryThreshold c)
    (cl_checking c) fl x (cl_out c).
Definition clu_emit (e : SfuClusterEvent) (c : SfuCluster) : SfuCluster :=
  mkCluster (cl_nodes c) (cl_failStreak c) (cl_passStreak c) (cl_failureThreshold c) (cl_recoveryThreshold c)
    (cl_checking c) (cl_inFlight c) (cl_probes c) (cl_out c ++ [e]).

Section world.
Context {A : Type} `{FailureClient A}.
Abbreviation world := (World A).
Implicit Types (w : world).

Definition wd_set_heap (x : list SfuNode) w : world := mkWorld x (wd_cluster w) (wd_tracker w) (wd_client w).
Definition on_cluster (f : SfuCluster → SfuCluster) w : world :=
  mkWorld (wd_heap w) (f (wd_cluster w)) (wd_tracker w) (wd_client w).
Definition on_tracker (f : NodeFailureTracker → NodeFailureTracker) w : world :=
  mkWorld (wd_heap w) (wd_cluster w) (f (wd_tracker w)) (wd_client w).
Definition on_node (r : nat) (f : SfuNode → SfuNode) w : world := wd_set_heap (alter f r (wd_heap w)) w.

Definition node_id (h : list SfuNode) (r : nat) : jsstr := default [] (nd_id <$> h !! r).

(** [nodes], [getActiveNodes]. *)
Definition cluster_nodes (c : SfuCluster) : list nat := mvals (cl_nodes c).
Definition is_active (h : list SfuNode) (r : nat) : bool :=
  match h !! r with Some n => negb (nd_failed n) && negb (nd_draining n) | None => false end.
Definition active_refs (h : list SfuNode) (nodes : jmap jsstr nat) : list nat :=
  filter (λ r, is_active h r = true) (mvals nodes).

(** * The tracker *)

Definition fireGone (r : nat) w : world :=
  let id := node_id (wd_heap w) r in
  if decide (id ∈ tk_gone (wd_tracker w)) then w
  else
    let w1 := on_tracker (λ t, mkTracker (tk_listeners t) (sadd id (tk_gone t)) (tk_on t)) w in
    let '(h, a) := onGone r (cl_nodes (wd_cluster w1)) (wd_heap w1) (wd_client w1) in
    mkWorld h (wd_cluster w1) (wd_tracker w1) a.

Definition tk_attach (id : jsstr) (r : nat) (t : NodeFailureTracker) : NodeFailureTracker :=
  if mhas id (tk_listeners t) then t
  else mkTracker (mset id r (tk_listeners t)) (sdel id (tk_gone t)) (tk_on t).
Definition tk_detach (id : jsstr) (t : NodeFailureTracker) : NodeFailureTracker :=
  mkTracker (mdel id (tk_listeners t)) (tk_gone t) (tk_on t).
Definition tk_recovered (id : jsstr) (t : NodeFailureTracker) : NodeFailureTracker :=
  mkTracker (tk_listeners t) (sdel id (tk_gone t)) (tk_on t).

(** The tracker's constructor, on a cluster's nodes. *)
Definition newTracker (h : list SfuNode) (nodes : list nat) : NodeFailureTracker :=
  fold_left (λ t r, tk_attach (node_id h r) r t) nodes (mkTracker [] [] true).

(** [dispose]. *)
Definition tk_dispose (t : NodeFailureTracker) : NodeFailureTracker := mkTracker [] [] false.

(** The node [r] emitted [Failed] or [Recovered]: the listeners on that very node. *)
Definition listens (r : nat) w : bool :=
  bool_decide (mget (node_id (wd_heap w) r) (tk_listeners (wd_tracker w)) = Some r).
Definition on_failed (r : nat) w : world := if listens r w then fireGone r w else w.
Definition on_recovered (r : nat) w : world :=
  if listens r w then on_tracker (tk_recovered (node_id (wd_heap w) r)) w else w.

(** The cluster emitted [NodeAdded] or [NodeRemoved]. *)
Definition on_node_added (r : nat) w : world :=
  if tk_on (wd_tracker w) then on_tracker (tk_attach (node_id (wd_heap w) r) r) w else w.
Definition on_node_removed (r : nat) w : world :=
  if tk_on (wd_tracker w) then
    let w1 := on_tracker (tk_detach (node_id (wd_heap w) r)) w in
    match wd_heap w1 !! r with
    | Some n => if nd_draining n then w1 else fireGone r w1
    | None => w1
    end
  else w.

(** * The cluster *)

(** [_checkAllOverloaded]. *)
Definition checkAllOverloaded w : world :=
  let active := active_refs (wd_heap w) (cl_nodes (wd_cluster w)) in
  let over r := match wd_heap w !! r with Some n => isOverloaded n | None => false end in
  if negb (bool_decide (active = [])) && forallb over active
  then on_cluster (clu_emit ClusterOverloaded) w else w.

Definition removeNode (id : jsstr) w : world * bool :=
  match mget id (cl_nodes (wd_cluster w)) with
  | None => (w, false)
  | Some r =>
      let w1 := on_cluster (λ c, clu_streaks (mdel id (cl_failStreak c)) (mdel id (cl_passStreak c))
                  (clu_nodes (mdel id (cl_nodes c)) c)) w in
      let w2 := on_cluster (clu_emit (NodeRemoved r)) w1 in
      (on_node_removed r w2, true)
  end.

(** [addNode] of the node with reference [r]. *)
Definition addNode (r : nat) w : world :=
  let id := node_id (wd_heap w) r in
  let w1 := if mhas id (cl_nodes (wd_cluster w)) then (removeNode id w).1 else w in
  let w2 := on_cluster (λ c, clu_nodes (mset id r (cl_nodes c)) c) w1 in
  on_node_added r (on_cluster (clu_emit (NodeAdded r)) w2).

Definition rebalance w : world :=
  let bad r := match wd_heap w !! r with Some n => nd_draining n || nd_failed n | None => false end in
  let hit := filter (λ r, bad r = true) (cluster_nodes (wd_cluster w)) in
  let call w r := match wd_heap w !! r with
                  | Some n => on_cluster (clu_emit (OnRebalance (nd_id n) (nd_failed n))) w
                  | None => w end in
  let w1 := fold_left call hit w in
  match hit with [] => w1 | _ => on_cluster (clu_emit ClusterOverloaded) w1 end.

(** Operations of a node, with the reactions of the cluster and the tracker. *)
Definition report_load (r : nat) (x : Z) w : world :=
  match wd_heap w !! r with
  | None => w
  | Some n =>
      let '(n', over) := reportLoad x n in
      let w1 := wd_set_heap (<[r := n']> (wd_heap w)) w in
      if over && bool_decide (mget (nd_id n) (cl_nodes (wd_cluster w)) = Some r)
      then checkAllOverloaded w1 else w1
  end.
Definition mark_failed (r : nat) w : world :=
  match wd_heap w !! r with
  | None => w
  | Some n =>
      let '(n', emitted) := markFailed n in
      let w1 := wd_set_heap (<[r := n']> (wd_heap w)) w in
      if emitted : bool then on_failed r w1 else w1
  end.
Definition mark_recovered (r : nat) w : world :=
  match wd_heap w !! r with
  | None => w
  | Some n =>
      let '(n', emitted) := markRecovered n in
      let w1 := wd_set_heap (<[r := n']> (wd_heap w)) w in
      if emitted : bool then on_recovered r w1 else w1
  end.

(** [_onHealthResult]. *)
Definition onHealthResult (r : nat) (healthy : bool) w : world :=
  match wd_heap w !! r with
  | None => w
  | Some n =>
      let id := nd_id n in
      let c := wd_cluster w in
      if healthy then
        let w1 := on_cluster (λ c, clu_streaks (mdel id (cl_failStreak c)) (cl_passStreak c) c) w in
        if nd_failed n then
          let streak := default 0 (mget id (cl_passStreak c)) + 1 in
          let w2 := on_cluster (λ c, clu_streaks (cl_failStreak c) (mset id streak (cl_passStreak c)) c) w1 in
          if decide (default 2 (cl_recoveryThreshold c) ≤ streak) then
            mark_recovered r (on_cluster (λ c, clu_streaks (cl_failStreak c) (mdel id (cl_passStreak c)) c) w2)
          else w2
        else w1
      else
        let streak := default 0 (mget id (cl_failStreak c)) + 1 in
        let w1 := on_cluster (λ c, clu_streaks (mset id streak (cl_failStreak c)) (mdel id (cl_passStreak c)) c) w in
        if negb (nd_failed n) && bool_decide (default 3 (cl_failureThreshold c) ≤ streak) then
          let w2 := mark_failed r (on_cluster (λ c, clu_streaks (mdel id (cl_failStreak c)) (cl_passStreak c) c) w1) in
          rebalance (on_cluster (clu_emit (ClusterError id)) w2)
        else w1
  end.

(** [_tick]: a probe for each node that does not drain and has none; a probe that
    has ended is [None]. *)
Definition health_tick w : world :=
  if cl_checking (wd_cluster w) then
    let probe w r := match wd_heap w !! r with
      | Some n => if nd_draining n || bool_decide (nd_id n ∈ cl_inFlight (wd_cluster w)) then w
                  else on_cluster (λ c, clu_probes (sadd (nd_id n) (cl_inFlight c)) (cl_probes c ++ [Some r]) c) w
      | None => w end in
    fold_left probe (cluster_nodes (wd_cluster w)) w
  else w.

(** The probe [k] settles: healthy, unhealthy, or (a rejection or the timeout)
    neither, which counts as unhealthy. *)
Definition probe_settled (k : nat) (outcome : option bool) w : world :=
  match mjoin (cl_probes (wd_cluster w) !! k) with
  | None => w
  | Some r =>
      let id := node_id (wd_heap w) r in
      let w1 := if cl_checking (wd_cluster w) && mhas id (cl_nodes (wd_cluster w))
                then onHealthResult r (default false outcome) w else w in
      on_cluster (λ c, clu_probes (sdel id (cl_inFlight c)) (<[k := None]> (cl_probes c)) c) w1
  end.
End world.

(** The handlers given to the membership reconciler. *)
Section membership.
Context {A : Type} `{FailureClient A}.
Definition member_added (id : jsstr) (region : option jsstr) (w : World A) : World A :=
  if mhas id (cl_nodes (wd_cluster w)) then w
  else addNode (length (wd_heap w))
         (wd_set_heap (wd_heap w ++ [newSfuNode id (default (js "default") region) None]) w).
Definition member_removed (id : jsstr) (w : World A) : World A := (removeNode id w).1.
End membership.

Definition newCluster (failureThreshold recoveryThreshold : option Z) : SfuCluster :=
  mkCluster [] [] [] failureThreshold recoveryThreshold false [] [] [].
