(* ===== verification/Placement.v ===== *)
(** Which node takes a room (packages/sfu/src/PlacementStrategy.ts). *)

From S2P Require Import Prelude JsMap JsNumber Uint8Array HashRing Sfu.

(** What a cluster promises its clients about a strategy: it answers with one of
    the candidates, and answers when there is one. *)
Class PlacementStrategy (S : Type) :=
  select : list SfuNode → list nat → option jsstr → option jsstr → S → option nat * S.

Class PlacementLaws (S : Type) `{PlacementStrategy S} := {
  select_in h candidates region key s r :
    (select h candidates region key s).1 = Some r → r ∈ candidates;
}.

(** An optional string is false when absent or empty. *)
Definition regionalPool (h : list SfuNode) (candidates : list nat) (region : option jsstr) : list nat :=
  match region with
  | None | Some [] => candidates
  | Some region =>
      let regional := filter (λ r, (nd_region <$> h !! r) = Some region) candidates in
      match regional with [] => candidates | _ => regional end
  end.

Definition load_of (h : list SfuNode) (r : nat) : Z := default 0 (nd_load <$> h !! r).

(** * The least loaded node *)

Inductive LeastLoadedStrategy := LeastLoaded.

(** [pool.reduce((min, n) => (n.load < min.load ? n : min))]. *)
Definition least (h : list SfuNode) (pool : list nat) : option nat :=
  match pool with
  | [] => None
  | r :: pool' => Some (fold_left (λ min n, if decide (load_of h n < load_of h min) then n else min) pool' r)
  end.

#[export] Instance least_loaded : PlacementStrategy LeastLoadedStrategy :=
  λ h candidates region _ s,
    (match candidates with [] => None | _ => least h (regionalPool h candidates region) end, s).

(** * Pinning by consistent hashing *)

Record HashRingStrategy := mkHashRingStrategy {
  hr_ring : option ring;
  hr_sig : jsstr;
}.
Definition newHashRingStrategy : HashRingStrategy := mkHashRingStrategy None [].

(** The order of [Array.prototype.sort] on strings: by code units. *)
Fixpoint str_le (a b : jsstr) : bool :=
  match a, b with
  | [], _ => true
  | _ :: _, [] => false
  | x :: a', y :: b' => if decide (x < y) then true else if decide (y < x) then false else str_le a' b'
  end.
Fixpoint join (sep : jsstr) (l : list jsstr) : jsstr :=
  match l with
  | [] => []
  | [x] => x
  | x :: l' => x ++ sep ++ join sep l'
  end.

(** [Math.max(1, n.capacity)]. *)
Definition weight_of (h : list SfuNode) (r : nat) : Z := Z.max 1 (default 0 (nd_capacity <$> h !! r)).
Definition ring_nodes (h : list SfuNode) (pool : list nat) : list (jsstr * Z) :=
  (λ r, (node_id h r, weight_of h r)) <$> pool.
Definition signature_part (n : jsstr * Z) : jsstr := n.1 ++ js ":" ++ print_int n.2.
Definition signature (nodes : list (jsstr * Z)) : jsstr :=
  join (js "|") (stable_sort str_le (signature_part <$> nodes)).

(** [new HashRing(nodes)]; the weights are finite, so that [add] does not throw. *)
Definition ring_of (nodes : list (jsstr * Z)) : ring :=
  fold_left (λ r n, match add (RingNode n.1 (Some (num_of_Z n.2))) r with Ok r' => r' | Throw _ => r end)
    nodes newHashRing.

Definition ringFor (h : list SfuNode) (pool : list nat) (s : HashRingStrategy) : ring * HashRingStrategy :=
  let nodes := ring_nodes h pool in
  let sig := signature nodes in
  match hr_ring s with
  | Some ring => if decide (sig ≠ hr_sig s) then (ring_of nodes, mkHashRingStrategy (Some (ring_of nodes)) sig)
                 else (ring, s)
  | None => (ring_of nodes, mkHashRingStrategy (Some (ring_of nodes)) sig)
  end.

Section hash_ring.
Context (Math_log : num → num).

(** [new Map(pool.map((n) => [n.id, n]))]. *)
Definition by_id (h : list SfuNode) (pool : list nat) : jmap jsstr nat :=
  fold_left (λ m r, mset (node_id h r) r m) pool [].

Definition hash_select (h : list SfuNode) (candidates : list nat) (region key : option jsstr)
    (s : HashRingStrategy) : option nat * HashRingStrategy :=
  match candidates with
  | [] => (None, s)
  | _ =>
      let pool := regionalPool h candidates region in
      match key with
      | None => (head pool, s)
      | Some key =>
          let '(ring, s') := ringFor h pool s in
          (id ← get Math_log key ring; mget id (by_id h pool), s')
      end
  end.
End hash_ring.

(** * What the strategies guarantee *)

Lemma regionalPool_sub h candidates region r : r ∈ regionalPool h candidates region → r ∈ candidates.
Proof.
  unfold regionalPool. destruct region as [[|c region]|]; [done| |done].
  destruct (filter _ candidates) as [|r0 l] eqn:E; [done|]. intros Hin. rewrite <- E in Hin.
  by apply list_elem_of_filter in Hin as [].
Qed.

(** The first of the least loaded nodes. *)
Definition first_least (h : list SfuNode) (pool : list nat) (r : nat) : Prop :=
  ∃ before after, pool = before ++ r :: after
    ∧ Forall (λ r', load_of h r < load_of h r') before ∧ Forall (λ r', load_of h r ≤ load_of h r') after.

Lemma least_spec h pool r : least h pool = Some r → first_least h pool r.
Proof.
  destruct pool as [|r0 pool]; [done|]. cbn. intros [= <-].
  generalize (eq_refl (load_of h r0)). generalize (load_of h r0) at 2. intros z _. clear z.
  revert r0. induction pool as [|y pool IH]; intros m; [by exists [], []|]. rewrite fold_left_cons.
  destruct (decide (load_of h y < load_of h m)) as [Hlt|Hge].
  - destruct (IH y) as (b & a & E & Hb & Ha). set (x := fold_left _ pool y) in *.
    assert (load_of h x ≤ load_of h y).
    { destruct b as [|y' b]; [by injection E as <- _|]. injection E as <- E.
      apply Forall_cons in Hb as [Hy _]. lia. }
    exists (m :: b), a. rewrite E. split; [done|]. split; [|done]. apply Forall_cons. split; [lia|done].
  - destruct (IH m) as (b & a & E & Hb & Ha). set (x := fold_left _ pool m) in *.
    destruct b as [|m' b]; injection E as Em Epool.
    + exists [], (y :: a). cbn. rewrite <- Em, Epool. split; [done|]. split; [done|].
      apply Forall_cons. split; [lia|]. by rewrite Em.
    + subst m'. apply Forall_cons in Hb as [Hm Hb]. exists (m :: y :: b), a. rewrite Epool. split; [done|].
      split; [|done]. repeat (apply Forall_cons; split); [done|lia|done].
Qed.

Lemma first_least_elem h pool r : first_least h pool r → r ∈ pool.
Proof. intros (b & a & -> & _). set_solver. Qed.

#[export] Instance least_loaded_laws : PlacementLaws LeastLoadedStrategy.
Proof.
  constructor. intros h candidates region key s r. unfold select, least_loaded. cbn [fst].
  destruct candidates as [|r0 l]; [done|]. intros Hr%least_spec%first_least_elem. by eapply regionalPool_sub.
Qed.

(** With candidates there is a choice: the first of the least loaded nodes of the
    region, or of all when the region has none. *)
Theorem least_loaded_correct h candidates region key :
  candidates ≠ [] →
  ∃ r, (select h candidates region key LeastLoaded).1 = Some r
    ∧ first_least h (regionalPool h candidates region) r.
Proof.
  intros Hne. unfold select, least_loaded. cbn [fst]. destruct candidates as [|r0 l]; [done|].
  destruct (least h (regionalPool h (r0 :: l) region)) as [r|] eqn:E; [by exists r; split; [|apply least_spec]|].
  exfalso. assert (regionalPool h (r0 :: l) region ≠ []) as Hp.
  { unfold regionalPool. destruct region as [[|c region]|]; [done| |done].
    by destruct (filter _ (r0 :: l)). }
  by destruct (regionalPool h (r0 :: l) region).
Qed.

Lemma by_id_pool h pool id r : mget id (by_id h pool) = Some r → r ∈ pool ∧ node_id h r = id.
Proof.
  unfold by_id. assert (Hf : ∀ l m, (∀ r, mget id m = Some r → r ∈ pool ∧ node_id h r = id) → l ⊆ pool →
    ∀ r, mget id (fold_left (λ m r, mset (node_id h r) r m) l m) = Some r → r ∈ pool ∧ node_id h r = id).
  { induction l as [|x l IH]; intros m Hm Hl r'; [apply Hm|]. rewrite fold_left_cons. apply IH; [|set_solver].
    intros r2. rewrite mget_mset. destruct (decide (id = node_id h x)) as [->|]; [|apply Hm].
    intros [= <-]. split; [set_solver|done]. }
  apply Hf; [done|done].
Qed.

Section hash_laws.
Context (Math_log : num → num).
#[local] Instance hash_placement : PlacementStrategy HashRingStrategy := hash_select Math_log.

Lemma hash_laws : PlacementLaws HashRingStrategy.
Proof.
  constructor. intros h candidates region key s r. unfold select, hash_placement, hash_select.
  destruct candidates as [|r0 l]; [done|]. set (pool := regionalPool h (r0 :: l) region).
  destruct key as [key|]; cbn [fst].
  - destruct (ringFor h pool s) as [ring s']. cbn [fst]. destruct (get Math_log key ring) as [id|]; [|done]. cbn.
    intros [Hr _]%by_id_pool. by eapply regionalPool_sub.
  - destruct pool as [|r1 l'] eqn:E; [done|]. cbn. intros [= <-]. apply (regionalPool_sub h (r0 :: l) region). fold pool. rewrite E. left.
Qed.
End hash_laws.

(** The signature does not determine the ring: two pools of two nodes and one have
    the same signature, and the strategy that pinned rooms on the first ring
    answers a key of the second with nothing. *)
Example signature_collision :
  let h := [newSfuNode (js "a") [] (Some 1); newSfuNode (js "b") [] (Some 2);
            newSfuNode (js "a:1|b") [] (Some 2)] in
  signature (ring_nodes h [0; 1]%nat) = signature (ring_nodes h [2%nat])
  ∧ (hash_select log_approx h [2%nat] None (Some (js "room"))
       (hash_select log_approx h [0; 1]%nat None (Some (js "room")) newHashRingStrategy).2).1 = None
  ∧ (hash_select log_approx h [2%nat] None (Some (js "room")) newHashRingStrategy).1 = Some 2%nat.
Proof. cbv zeta. split; [|split]; by vm_compute. Qed.
