(* ===== verification/CascadingRouter.v ===== *)
(** Rooms on nodes, and cascades over further nodes
    (packages/sfu/src/CascadingRouter.ts): a client of the failure tracker. *)

From S2P Require Import Prelude JsMap Sfu Placement.

Inductive CascadingRouterEvent :=
| RoomAssigned (roomId : jsstr) (node : nat)
| CascadeCreated (roomId : jsstr) (fromNode toNode : nat)
| RoomDetached (roomId : jsstr)
| CascadeDropped (roomId : jsstr) (node : nat).

Record CascadingRouter := mkRouter {
  cr_assignments : jmap jsstr nat;
  cr_cascadeLinks : jmap jsstr (list nat);
  cr_out : list CascadingRouterEvent;
}.
Definition newRouter : CascadingRouter := mkRouter [] [] [].
Implicit Types (c : CascadingRouter).

Definition cr_emit (e : CascadingRouterEvent) c : CascadingRouter :=
  mkRouter (cr_assignments c) (cr_cascadeLinks c) (cr_out c ++ [e]).
Definition cr_set_assignments (x : jmap jsstr nat) c : CascadingRouter := mkRouter x (cr_cascadeLinks c) (cr_out c).
Definition cr_set_links (x : jmap jsstr (list nat)) c : CascadingRouter := mkRouter (cr_assignments c) x (cr_out c).

(** [node.untrackRoom(roomId)] and [node.trackRoom(roomId)] on the heap. *)
Definition untrack (roomId : jsstr) (r : nat) (h : list SfuNode) : list SfuNode := alter (untrackRoom roomId) r h.
Definition track (roomId : jsstr) (r : nat) (h : list SfuNode) : list SfuNode := alter (trackRoom roomId) r h.

(** [_handleNodeGone], first loop: the rooms whose primary is gone. *)
Definition clear_primary (r : nat) (st : list SfuNode * CascadingRouter) (x : jsstr * nat)
    : list SfuNode * CascadingRouter :=
  let '(h, c) := st in
  let '(roomId, assigned) := x in
  if decide (node_id h assigned = node_id h r) then
    let h1 := untrack roomId r h in
    let c1 := cr_set_assignments (mdel roomId (cr_assignments c)) c in
    let cascades := default [] (mget roomId (cr_cascadeLinks c1)) in
    let h2 := fold_left (λ h n, untrack roomId n h) cascades h1 in
    let c2 := fold_left (λ c n, cr_emit (CascadeDropped roomId n) c) cascades c1 in
    let c3 := cr_set_links (mdel roomId (cr_cascadeLinks c2)) c2 in
    (h2, cr_emit (RoomDetached roomId) c3)
  else (h, c).

(** Second loop: the cascades over it. *)
Definition clear_cascade (r : nat) (st : list SfuNode * CascadingRouter) (x : jsstr * list nat)
    : list SfuNode * CascadingRouter :=
  let '(h, c) := st in
  let '(roomId, nodes) := x in
  let filtered := filter (λ n, node_id h n ≠ node_id h r) nodes in
  if decide (length filtered = length nodes) then (h, c)
  else
    let c1 := cr_emit (CascadeDropped roomId r) c in
    (untrack roomId r h,
     match filtered with
     | [] => cr_set_links (mdel roomId (cr_cascadeLinks c1)) c1
     | _ => cr_set_links (mset roomId filtered (cr_cascadeLinks c1)) c1
     end).

Definition handleNodeGone (r : nat) (h : list SfuNode) (c : CascadingRouter) : list SfuNode * CascadingRouter :=
  let st1 := fold_left (clear_primary r) (cr_assignments c) (h, c) in
  fold_left (clear_cascade r) (cr_cascadeLinks st1.2) st1.

#[export] Instance router_client : FailureClient CascadingRouter := λ r _ h c, handleNodeGone r h c.

(** A router, its cluster and the strategy that places rooms. *)
Section router.
Context {S : Type} `{PlacementStrategy S}.

Definition router_world : Type := World CascadingRouter * S.

(** [attachRoom]; [None] where it throws [NoAvailableNodeError]. *)
Definition attachRoom (roomId : jsstr) (preferredRegion : option jsstr) (ws : router_world)
    : router_world * option nat :=
  let '(w, s) := ws in
  match select (wd_heap w) (active_refs (wd_heap w) (cl_nodes (wd_cluster w))) preferredRegion (Some roomId) s with
  | (None, s') => ((w, s'), None)
  | (Some node, s') =>
      let c := wd_client w in
      let put h c := mkWorld h (wd_cluster w) (wd_tracker w) c in
      match mget roomId (cr_assignments c) with
      | Some existing =>
          if decide (node_id (wd_heap w) existing ≠ node_id (wd_heap w) node) then
            let links := default [] (mget roomId (cr_cascadeLinks c)) in
            if existsb (λ n, bool_decide (node_id (wd_heap w) n = node_id (wd_heap w) node)) links
            then ((w, s'), Some node)
            else
              let c1 := cr_set_links (mset roomId (links ++ [node]) (cr_cascadeLinks c)) c in
              ((put (track roomId node (wd_heap w)) (cr_emit (CascadeCreated roomId existing node) c1), s'), Some node)
          else ((w, s'), Some node)
      | None =>
          let c1 := cr_set_assignments (mset roomId node (cr_assignments c)) c in
          ((put (track roomId node (wd_heap w)) (cr_emit (RoomAssigned roomId node) c1), s'), Some node)
      end
  end.
End router.

(** [detachRoom]. *)
Definition detachRoom (roomId : jsstr) (w : World CascadingRouter) : World CascadingRouter * bool :=
  let c := wd_client w in
  match mget roomId (cr_assignments c) with
  | None => (w, false)
  | Some primary =>
      let h1 := untrack roomId primary (wd_heap w) in
      let c1 := cr_set_assignments (mdel roomId (cr_assignments c)) c in
      let cascades := default [] (mget roomId (cr_cascadeLinks c1)) in
      let h2 := fold_left (λ h n, untrack roomId n h) cascades h1 in
      let c2 := cr_set_links (mdel roomId (cr_cascadeLinks c1)) c1 in
      (mkWorld h2 (wd_cluster w) (wd_tracker w) (cr_emit (RoomDetached roomId) c2), true)
  end.

Definition assignmentCount (c : CascadingRouter) : nat := msize (cr_assignments c).
Definition getAssignment (roomId : jsstr) (c : CascadingRouter) : option nat := mget roomId (cr_assignments c).
Definition getCascadeNodes (roomId : jsstr) (c : CascadingRouter) : list nat :=
  default [] (mget roomId (cr_cascadeLinks c)).
