(* ===== verification/CascadeTree.v ===== *)
(** The fan-out trees of rooms over a cluster (packages/sfu/src/CascadeTree.ts): a
    client of the failure tracker; and the bridge that turns their links into media
    pipes (CascadeBridge.ts, ReferenceSfuMedia.ts). *)

From S2P Require Import Prelude JsMap CascadePlan Sfu.

Inductive CascadeTreeEvent :=
| TreeBuilt (roomId : jsstr) (plan : CascadePlan)
| LinkCreated (roomId from to : jsstr)
| LinkDropped (roomId from to : jsstr)
| LeafAssigned (roomId nodeId : jsstr) (viewerSlots : Z)
| TreeDropped (roomId : jsstr)
| CapacityShortfall (roomId : jsstr) (unmetViewers : Z)
| OriginLost (roomId originId : jsstr).

Record RoomTree := mkRoomTree {
  rm_originId : jsstr;
  rm_viewerCount : Z;
  rm_plan : CascadePlan;
}.

Record CascadeTree := mkTree {
  ct_fanout : Z;
  ct_viewersPerNode : Z;
  ct_rooms : jmap jsstr RoomTree;
  ct_out : list CascadeTreeEvent;
}.
Definition newCascadeTree (fanout viewersPerNode : option Z) : CascadeTree :=
  mkTree (default 8 fanout) (default 1000 viewersPerNode) [] [].
Implicit Types (t : CascadeTree).

Definition ct_emit (e : CascadeTreeEvent) t : CascadeTree :=
  mkTree (ct_fanout t) (ct_viewersPerNode t) (ct_rooms t) (ct_out t ++ [e]).
Definition ct_emits (es : list CascadeTreeEvent) t : CascadeTree :=
  mkTree (ct_fanout t) (ct_viewersPerNode t) (ct_rooms t) (ct_out t ++ es).
Definition ct_set_rooms (x : jmap jsstr RoomTree) t : CascadeTree :=
  mkTree (ct_fanout t) (ct_viewersPerNode t) x (ct_out t).

Definition cascadeLinkKey (from to : jsstr) : jsstr := from ++ js ">" ++ to.
Definition linkKey (l : CascadeLink) : jsstr := cascadeLinkKey l.1 l.2.

(** [_nodeIndex]: the cluster's nodes are keyed by their ids already. *)
Definition on_index (id : jsstr) (f : SfuNode → SfuNode) (nodes : jmap jsstr nat) (h : list SfuNode) : list SfuNode :=
  match mget id nodes with Some r => alter f r h | None => h end.

Definition activePool (originId : jsstr) (nodes : jmap jsstr nat) (h : list SfuNode) : list jsstr :=
  node_id h <$> filter (λ r, node_id h r ≠ originId) (active_refs h nodes).

(** [_diff]. *)
Definition diff (roomId : jsstr) (oldPlan : option CascadePlan) (newPlan : CascadePlan) : list CascadeTreeEvent :=
  let old := match oldPlan with Some p => pl_links p | None => [] end in
  ((λ l, LinkDropped roomId l.1 l.2) <$> filter (λ l, linkKey l ∉ linkKey <$> pl_links newPlan) old)
  ++ ((λ l, LinkCreated roomId l.1 l.2) <$> filter (λ l, linkKey l ∉ linkKey <$> old) (pl_links newPlan)).

Definition build_params (originId : jsstr) (viewerCount : Z) (nodes : jmap jsstr nat) (h : list SfuNode) t : plan_params :=
  mkPlanParams originId viewerCount (ct_fanout t) (ct_viewersPerNode t) (activePool originId nodes h)
    (Some (λ id, match mget id nodes with
                 | Some r => default (ct_viewersPerNode t) (nd_capacity <$> h !! r)
                 | None => ct_viewersPerNode t end)).

(** [build]; the plan is [None] where planning throws. *)
Definition build (roomId originId : jsstr) (viewerCount : Z) (nodes : jmap jsstr nat) (h : list SfuNode) t
    : list SfuNode * CascadeTree * option CascadePlan :=
  match planCascadeTree (build_params originId viewerCount nodes h t) with
  | None => (h, t, None)
  | Some plan =>
      let prev := rm_plan <$> mget roomId (ct_rooms t) in
      let t1 := ct_emits (diff roomId prev plan) t in
      let nowIds := mkeys (pl_nodes plan) in
      let oldIds := match prev with Some p => mkeys (pl_nodes p) | None => [] end in
      let h1 := fold_left (λ h id, if decide (id ∈ nowIds) then h else on_index id (untrackRoom roomId) nodes h) oldIds h in
      let h2 := fold_left (λ h id, on_index id (trackRoom roomId) nodes h) nowIds h1 in
      let t2 := ct_set_rooms (mset roomId (mkRoomTree originId viewerCount plan) (ct_rooms t1)) t1 in
      let t3 := ct_emits ((λ id, LeafAssigned roomId id (default 0 (pn_viewerSlots <$> plan_node id plan))) <$> pl_edges plan) t2 in
      let t4 := if decide (0 < pl_unmetViewers plan)
                then ct_emit (CapacityShortfall roomId (pl_unmetViewers plan)) t3 else t3 in
      (h2, ct_emit (TreeBuilt roomId plan) t4, Some plan)
  end.

(** [detach]. *)
Definition tree_detach (roomId : jsstr) (nodes : jmap jsstr nat) (h : list SfuNode) t
    : list SfuNode * CascadeTree * bool :=
  match mget roomId (ct_rooms t) with
  | None => (h, t, false)
  | Some room =>
      let h1 := fold_left (λ h id, on_index id (untrackRoom roomId) nodes h) (mkeys (pl_nodes (rm_plan room))) h in
      let t1 := ct_emits ((λ l, LinkDropped roomId l.1 l.2) <$> pl_links (rm_plan room)) t in
      (h1, ct_emit (TreeDropped roomId) (ct_set_rooms (mdel roomId (ct_rooms t1)) t1), true)
  end.

Definition getPlan (roomId : jsstr) t : option CascadePlan := rm_plan <$> mget roomId (ct_rooms t).

(** [_onNodeGone], for one room. *)
Definition room_node_gone (nodeId : jsstr) (nodes : jmap jsstr nat) (st : list SfuNode * CascadeTree)
    (x : jsstr * RoomTree) : list SfuNode * CascadeTree :=
  let '(h, t) := st in
  let '(roomId, room) := x in
  if mhas nodeId (pl_nodes (rm_plan room)) then
    if decide (nodeId = rm_originId room) then
      let '(h1, t1, _) := tree_detach roomId nodes h t in
      (h1, ct_emit (OriginLost roomId nodeId) t1)
    else (build roomId (rm_originId room) (rm_viewerCount room) nodes h t).1
  else (h, t).
Definition onNodeGone (nodeId : jsstr) (nodes : jmap jsstr nat) (h : list SfuNode) t : list SfuNode * CascadeTree :=
  fold_left (room_node_gone nodeId nodes) (ct_rooms t) (h, t).

#[export] Instance tree_client : FailureClient CascadeTree := λ r nodes h t, onNodeGone (node_id h r) nodes h t.

(** The operations on the world of a tree and its cluster. *)
Definition tree_build (roomId originId : jsstr) (viewerCount : Z) (w : World CascadeTree)
    : World CascadeTree * option CascadePlan :=
  let '(h, t, plan) := build roomId originId viewerCount (cl_nodes (wd_cluster w)) (wd_heap w) (wd_client w) in
  (mkWorld h (wd_cluster w) (wd_tracker w) t, plan).
Definition tree_drop (roomId : jsstr) (w : World CascadeTree) : World CascadeTree * bool :=
  let '(h, t, b) := tree_detach roomId (cl_nodes (wd_cluster w)) (wd_heap w) (wd_client w) in
  (mkWorld h (wd_cluster w) (wd_tracker w) t, b).

(** * The media plane *)

(** [ReferenceSfuMedia]: the links of each room, by key, and the calls of its
    driver. *)
Inductive driver_call :=
| OnPipeLink (roomId from to : jsstr)
| OnUnpipeLink (roomId from to : jsstr)
| OnAddRoute (roomId nodeId : jsstr)
| OnRemoveRoute (roomId : jsstr) (nodeIds : list jsstr)
| OnRemoveCascadeRoute (roomId nodeId : jsstr).

Record ReferenceSfuMedia := mkMedia {
  md_routes : jmap jsstr (list jsstr);
  md_links : jmap jsstr (list jsstr);
  md_calls : list driver_call;
}.
Definition newMedia : ReferenceSfuMedia := mkMedia [] [] [].
Implicit Types (m : ReferenceSfuMedia).

Definition pipeLink (roomId from to : jsstr) m : ReferenceSfuMedia :=
  let set := default [] (mget roomId (md_links m)) in
  let key := cascadeLinkKey from to in
  if shas key set then m
  else mkMedia (md_routes m) (mset roomId (sadd key set) (md_links m)) (md_calls m ++ [OnPipeLink roomId from to]).

Definition unpipeLink (roomId from to : jsstr) m : ReferenceSfuMedia :=
  let key := cascadeLinkKey from to in
  match mget roomId (md_links m) with
  | None => m
  | Some set =>
      if shas key set then
        let set' := sdel key set in
        mkMedia (md_routes m)
          (if decide (set' = []) then mdel roomId (md_links m) else mset roomId set' (md_links m))
          (md_calls m ++ [OnUnpipeLink roomId from to])
      else m
  end.

Definition getLinks (roomId : jsstr) m : list jsstr := default [] (mget roomId (md_links m)).

Definition addRoute (roomId nodeId : jsstr) m : ReferenceSfuMedia :=
  let set := default [] (mget roomId (md_routes m)) in
  if shas nodeId set then m
  else mkMedia (mset roomId (sadd nodeId set) (md_routes m)) (md_links m) (md_calls m ++ [OnAddRoute roomId nodeId]).

Definition removeRoute (roomId : jsstr) m : ReferenceSfuMedia :=
  match mget roomId (md_routes m) with
  | None => m
  | Some set => mkMedia (mdel roomId (md_routes m)) (md_links m) (md_calls m ++ [OnRemoveRoute roomId set])
  end.

Definition removeCascadeRoute (roomId nodeId : jsstr) m : ReferenceSfuMedia :=
  match mget roomId (md_routes m) with
  | None => m
  | Some set =>
      if shas nodeId set then
        let set' := sdel nodeId set in
        mkMedia (if decide (set' = []) then mdel roomId (md_routes m) else mset roomId set' (md_routes m))
          (md_links m) (md_calls m ++ [OnRemoveCascadeRoute roomId nodeId])
      else m
  end.

Definition getRoutes (roomId : jsstr) m : list jsstr := default [] (mget roomId (md_routes m)).

(** * The bridge *)

Record CascadeBridge := mkBridge {
  br_attached : bool;
  br_links : jmap jsstr (jmap jsstr (jsstr * jsstr));
  br_media : ReferenceSfuMedia;
}.
Implicit Types (b : CascadeBridge).

Definition br_on_created (roomId from to : jsstr) b : CascadeBridge :=
  let links := default [] (mget roomId (br_links b)) in
  mkBridge (br_attached b) (mset roomId (mset (cascadeLinkKey from to) (from, to) links) (br_links b))
    (pipeLink roomId from to (br_media b)).

Definition br_on_dropped (roomId from to : jsstr) b : CascadeBridge :=
  let links' := match mget roomId (br_links b) with
                | Some links =>
                    let l := mdel (cascadeLinkKey from to) links in
                    if decide (l = []) then mdel roomId (br_links b) else mset roomId l (br_links b)
                | None => br_links b
                end in
  mkBridge (br_attached b) links' (unpipeLink roomId from to (br_media b)).

Definition br_on_tree_dropped (roomId : jsstr) b : CascadeBridge :=
  mkBridge (br_attached b) (mdel roomId (br_links b)) (br_media b).

(** What the attached bridge does on an event of the tree. *)
Definition br_event b (e : CascadeTreeEvent) : CascadeBridge :=
  if br_attached b then
    match e with
    | LinkCreated roomId from to => br_on_created roomId from to b
    | LinkDropped roomId from to => br_on_dropped roomId from to b
    | TreeDropped roomId => br_on_tree_dropped roomId b
    | _ => b
    end
  else b.
Definition br_events (es : list CascadeTreeEvent) b : CascadeBridge := fold_left br_event es b.

Definition br_attach b : CascadeBridge := mkBridge true (br_links b) (br_media b).
Definition br_detach b : CascadeBridge :=
  if br_attached b then
    let all := x ← br_links b; (λ l, (x.1, l.2.1, l.2.2)) <$> x.2 in
    mkBridge false [] (fold_left (λ m l, unpipeLink l.1.1 l.1.2 l.2 m) all (br_media b))
  else b.
