(* ===== verification/SfuTheorems.v ===== *)
(** A client of the failure tracker never keeps a node that is lost, whatever
    happens to the cluster; and what health checks decide. *)

From S2P Require Import Prelude JsMap Sfu.

(** * Heaps that differ in what rooms and statistics do *)

Definition node_core (n : SfuNode) : jsstr * jsstr * Z * bool * bool :=
  (nd_id n, nd_region n, nd_capacity n, nd_failed n, nd_draining n).
Definition heap_core (h : list SfuNode) : list (jsstr * jsstr * Z * bool * bool) := node_core <$> h.

Lemma core_lookup h h' r : heap_core h' = heap_core h → node_core <$> h' !! r = node_core <$> h !! r.
Proof. intros Hc. rewrite <- !list_lookup_fmap. unfold heap_core in Hc. by rewrite Hc. Qed.

Lemma core_id h h' r : heap_core h' = heap_core h → node_id h' r = node_id h r.
Proof.
  intros Hc%(core_lookup _ _ r). unfold node_id. destruct (h' !! r) as [n'|], (h !! r) as [n|]; try done.
  cbn in *. unfold node_core in Hc. by injection Hc as -> _ _ _ _.
Qed.

Lemma core_failed h h' r : heap_core h' = heap_core h → nd_failed <$> h' !! r = nd_failed <$> h !! r.
Proof.
  intros Hc%(core_lookup _ _ r). destruct (h' !! r) as [n'|], (h !! r) as [n|]; try done.
  cbn in *. unfold node_core in Hc. by injection Hc as _ _ _ -> _.
Qed.

Lemma core_active h h' r : heap_core h' = heap_core h → is_active h' r = is_active h r.
Proof.
  intros Hc%(core_lookup _ _ r). unfold is_active. destruct (h' !! r) as [n'|], (h !! r) as [n|]; try done.
  cbn in *. unfold node_core in Hc. by injection Hc as _ _ _ -> ->.
Qed.

Lemma core_alter f r h : (∀ n, node_core (f n) = node_core n) → heap_core (alter f r h) = heap_core h.
Proof.
  intros Hf. unfold heap_core. apply list_eq. intros i. rewrite !list_lookup_fmap.
  destruct (decide (r = i)) as [<-|Hne].
  - rewrite list_lookup_alter_eq. destruct (h !! r) as [n|]; [|done]. cbn. by rewrite Hf.
  - by rewrite list_lookup_alter_ne.
Qed.

Lemma core_resolve n : node_core (resolve_drain n) = node_core n.
Proof. unfold resolve_drain. by destruct (nd_drain n). Qed.
Lemma core_track room n : node_core (trackRoom room n) = node_core n.
Proof. done. Qed.
Lemma core_untrack room n : node_core (untrackRoom room n) = node_core n.
Proof. unfold untrackRoom. cbv zeta. destruct (_ && _); [|done]. by rewrite core_resolve. Qed.

Lemma NoDup_fmap_filter {B C} (f : B → C) (P : B → Prop) `{∀ x, Decision (P x)} l :
  NoDup (f <$> l) → NoDup (f <$> filter P l).
Proof.
  induction l as [|x l IH]; [done|]. rewrite fmap_cons. intros [Hx Hnd]%NoDup_cons. rewrite filter_cons.
  destruct (decide (P x)); [|auto]. rewrite fmap_cons. apply NoDup_cons. split; [|auto].
  intros (y & Ey & Hy)%list_elem_of_fmap. apply Hx. apply list_elem_of_filter in Hy as [_ Hy].
  apply list_elem_of_fmap. eauto.
Qed.

(** * Clients *)

(** The ids a client refers to, the invariant it keeps, which may speak of the rooms
    of nodes, and what it does when it is told of a loss: it forgets that id, and
    takes up only nodes that are active. *)
Definition active_id (nodes : jmap jsstr nat) (h : list SfuNode) (id : jsstr) : Prop :=
  ∃ r, mget id nodes = Some r ∧ is_active h r = true.

(** The cluster's nodes are filed under their ids. *)
Definition nodes_ok (nodes : jmap jsstr nat) (h : list SfuNode) : Prop :=
  mwf nodes ∧ ∀ id r, mget id nodes = Some r → (r < length h)%nat ∧ node_id h r = id.

Class FailureClientLaws (A : Type) `{FailureClient A} := {
  mentions : list SfuNode → A → jsstr → Prop;
  client_inv : list SfuNode → A → Prop;
  mentions_snoc h n a id : client_inv h a → mentions (h ++ [n]) a id → mentions h a id;
  mentions_alter h r f a id : (∀ n, nd_id (f n) = nd_id n) → mentions (alter f r h) a id → mentions h a id;
  client_inv_snoc h n a : client_inv h a → client_inv (h ++ [n]) a;
  client_inv_alter h r f a : (∀ n, nd_id (f n) = nd_id n ∧ nd_rooms (f n) = nd_rooms n) →
    client_inv h a → client_inv (alter f r h) a;
  onGone_spec r nodes h a : ∀ h' a', onGone r nodes h a = (h', a') → client_inv h a →
    nodes_ok nodes h → ¬ active_id nodes h (node_id h r) →
    heap_core h' = heap_core h ∧ client_inv h' a'
    ∧ (∀ id, mentions h' a' id → id ≠ node_id h r ∧ (mentions h a id ∨ active_id nodes h id));
}.

Section client.
Context {A : Type} `{FailureClientLaws A}.
Abbreviation world := (World A).
Implicit Types (w : world).

Definition failed_ref (h : list SfuNode) (r : nat) : Prop := nd_failed <$> h !! r = Some true.

(** The cluster's books agree, and the client refers to no node that was reported. *)
Record world_ok w : Prop := {
  wo_wf : mwf (cl_nodes (wd_cluster w));
  wo_ids id r : mget id (cl_nodes (wd_cluster w)) = Some r →
    (r < length (wd_heap w))%nat ∧ node_id (wd_heap w) r = id;
  wo_on : tk_on (wd_tracker w) = true;
  wo_listeners id : mget id (tk_listeners (wd_tracker w)) = mget id (cl_nodes (wd_cluster w));
  wo_gone id r : mget id (cl_nodes (wd_cluster w)) = Some r →
    id ∈ tk_gone (wd_tracker w) ↔ failed_ref (wd_heap w) r;
  wo_client id : mentions (wd_heap w) (wd_client w) id → id ∉ tk_gone (wd_tracker w);
  wo_inv : client_inv (wd_heap w) (wd_client w);
}.

Lemma fireGone_ok r w :
  mwf (cl_nodes (wd_cluster w)) →
  (∀ id r', mget id (cl_nodes (wd_cluster w)) = Some r' → (r' < length (wd_heap w))%nat ∧ node_id (wd_heap w) r' = id) →
  tk_on (wd_tracker w) = true →
  (∀ id, mget id (tk_listeners (wd_tracker w)) = mget id (cl_nodes (wd_cluster w))) →
  (∀ id r', mget id (cl_nodes (wd_cluster w)) = Some r' → id ≠ node_id (wd_heap w) r →
     id ∈ tk_gone (wd_tracker w) ↔ failed_ref (wd_heap w) r') →
  (∀ r', mget (node_id (wd_heap w) r) (cl_nodes (wd_cluster w)) = Some r' → failed_ref (wd_heap w) r') →
  (∀ id, mentions (wd_heap w) (wd_client w) id → id ∉ tk_gone (wd_tracker w)) →
  client_inv (wd_heap w) (wd_client w) →
  world_ok (fireGone r w).
Proof.
  intros O1 O2 O3 O4 O5 O6 O7 O8. unfold fireGone. cbv zeta. set (id0 := node_id (wd_heap w) r) in *.
  destruct (decide (id0 ∈ tk_gone (wd_tracker w))) as [Hin|Hn].
  { constructor; try done. intros id r' Hr. destruct (decide (id = id0)) as [->|Hne]; [|by apply O5].
    split; [intros _; by apply O6|done]. }
  destruct (onGone r _ _ _) as [h' a'] eqn:Eg. apply onGone_spec in Eg as (Hcore & Hinv & Hm); [|exact O8|by split|];
    [cbn in Hcore, Hm|].
  2: { intros (r' & Hr' & Hact). specialize (O6 r' Hr'). unfold failed_ref in O6. unfold is_active in Hact. cbn in *.
    destruct (wd_heap w !! r') as [n|]; [|done]. cbn in O6. injection O6 as O6. by rewrite O6 in Hact. }
  assert (Hfail : ∀ r', failed_ref h' r' ↔ failed_ref (wd_heap w) r').
  { intros r'. unfold failed_ref. by rewrite (core_failed _ _ r' Hcore). }
  constructor; cbn; try done.
  - intros id r' Hr. rewrite (core_id _ _ r' Hcore). split; [|by apply O2].
    apply (f_equal length) in Hcore. unfold heap_core in Hcore. rewrite !length_fmap in Hcore. rewrite Hcore.
    by apply (O2 id).
  - intros id r' Hr. rewrite Hfail, elem_of_sadd. destruct (decide (id = id0)) as [->|Hne].
    + split; [intros _; by apply O6|by left].
    + rewrite <- (O5 id r' Hr Hne). tauto.
  - intros id Hid. destruct (Hm id Hid) as [Hne [Hold|(r' & Hr & Hact)]]; rewrite elem_of_sadd.
    + intros [|Hin]; [done|]. by apply (O7 id).
    + intros [|Hin]; [done|]. apply (O5 id r' Hr Hne) in Hin. unfold is_active in Hact. unfold failed_ref in Hin.
      destruct (wd_heap w !! r') as [n|]; [|done]. cbn in Hin. injection Hin as Hin. by rewrite Hin in Hact.
Qed.

Lemma removeNode_ok id w : world_ok w → world_ok (removeNode id w).1.
Proof.
  intros [O1 O2 O3 O4 O5 O6 O7]. unfold removeNode. destruct (mget id (cl_nodes (wd_cluster w))) as [r|] eqn:Er;
    [|by constructor].
  destruct (O2 id r Er) as [Hlt Hid]. cbn [fst]. unfold on_node_removed. cbn [on_cluster wd_tracker wd_heap].
  rewrite O3. cbv zeta. cbn [on_tracker on_cluster wd_heap]. rewrite Hid.
  assert (Hget : ∀ id' r', mget id' (mdel id (cl_nodes (wd_cluster w))) = Some r' →
    id' ≠ id ∧ mget id' (cl_nodes (wd_cluster w)) = Some r').
  { intros id' r'. rewrite mget_mdel. destruct (decide (id' = id)); [done|]. by split. }
  destruct (wd_heap w !! r) as [n|] eqn:En; [|apply lookup_ge_None in En; lia].
  destruct (nd_draining n).
  - constructor; cbn; try done.
    + by apply mwf_mdel.
    + intros id' r' [_ Hr]%Hget. by apply O2.
    + intros id'. rewrite !mget_mdel. by destruct (decide _).
    + intros id' r' [_ Hr]%Hget. by apply O5.
  - apply fireGone_ok; cbn; try done.
    + by apply mwf_mdel.
    + intros id' r' [_ Hr]%Hget. by apply O2.
    + intros id'. rewrite !mget_mdel. by destruct (decide _).
    + intros id' r' [_ Hr]%Hget _. by apply O5.
    + intros r' [Hne _]%Hget. by destruct Hne.
Qed.

Lemma addNode_ok r n w :
  wd_heap w !! r = Some n → nd_failed n = false → world_ok w → world_ok (addNode r w).
Proof.
  intros Hr Hf Hok. unfold addNode. cbv zeta. set (id := node_id (wd_heap w) r).
  set (w1 := if mhas id (cl_nodes (wd_cluster w)) then (removeNode id w).1 else w).
  assert (H1' : world_ok w1 ∧ heap_core (wd_heap w1) = heap_core (wd_heap w) ∧ mget id (cl_nodes (wd_cluster w1)) = None).
  { unfold w1. destruct (mhas id (cl_nodes (wd_cluster w))) eqn:Eh; [|split; [done|]; split; [done|by apply mhas_false]].
    split; [by apply removeNode_ok|]. unfold removeNode. apply mhas_true in Eh as [r0 E0]. rewrite E0. cbn [fst].
    unfold on_node_removed. cbn [on_cluster wd_tracker]. rewrite (wo_on _ Hok). cbv zeta.
    assert (Hfg : ∀ w2 : world, client_inv (wd_heap w2) (wd_client w2) →
      nodes_ok (cl_nodes (wd_cluster w2)) (wd_heap w2) → mget (node_id (wd_heap w2) r0) (cl_nodes (wd_cluster w2)) = None →
      heap_core (wd_heap (fireGone r0 w2)) = heap_core (wd_heap w2)
      ∧ cl_nodes (wd_cluster (fireGone r0 w2)) = cl_nodes (wd_cluster w2)).
    { intros w2 Hinv Hn2 Hg2. unfold fireGone. cbv zeta. destruct (decide _); [done|].
      destruct (onGone r0 _ _ _) as [h' a'] eqn:Eg. apply onGone_spec in Eg as [Hcore _]; [done..|].
      intros (r' & Hr' & _). cbn in Hr'. congruence. }
    assert (Hdel : nodes_ok (mdel id (cl_nodes (wd_cluster w))) (wd_heap w)).
    { split; [apply mwf_mdel, Hok|]. intros id' r'. rewrite mget_mdel. destruct (decide _); [done|]. apply (wo_ids _ Hok). }
    destruct (wd_heap _ !! r0) as [n0|]; [|split; [done|apply mget_mdel_eq]].
    destruct (nd_draining n0); [split; [done|apply mget_mdel_eq]|].
    match goal with |- context [fireGone r0 ?w2] => destruct (Hfg w2 (wo_inv _ Hok) Hdel) as [-> ->] end.
    { cbn. rewrite (proj2 (wo_ids _ Hok id r0 E0)). apply mget_mdel_eq. }
    split; [done|apply mget_mdel_eq]. }
  destruct H1' as ([O1 O2 O3 O4 O5 O6 O7] & Hcore & Hnone). clearbody w1.
  assert (Hid : node_id (wd_heap w1) r = id) by apply (core_id _ _ r Hcore).
  assert (Hnf : ¬ failed_ref (wd_heap w1) r).
  { unfold failed_ref. rewrite (core_failed _ _ r Hcore), Hr. cbn. congruence. }
  assert (Hlen : (r < length (wd_heap w1))%nat).
  { apply (f_equal length) in Hcore. unfold heap_core in Hcore. rewrite !length_fmap in Hcore. rewrite Hcore.
    by eapply lookup_lt_Some. }
  unfold on_node_added. cbn [on_cluster wd_tracker]. rewrite O3. unfold tk_attach, on_tracker.
  cbn [on_cluster wd_tracker wd_heap wd_cluster wd_client]. rewrite Hid.
  replace (mhas id (tk_listeners (wd_tracker w1))) with false
    by (symmetry; apply mhas_false; by rewrite O4).
  constructor; cbn; try done.
  - by apply mwf_mset.
  - intros id' r'. rewrite mget_mset. destruct (decide (id' = id)) as [->|]; [|by apply O2]. intros [= <-]. done.
  - intros id'. rewrite !mget_mset. by destruct (decide _).
  - intros id' r'. rewrite mget_mset, elem_of_sdel. destruct (decide (id' = id)) as [->|Hne].
    + intros [= <-]. tauto.
    + intros Hr'. rewrite (O5 id' r' Hr'). tauto.
  - intros id' Hm. rewrite elem_of_sdel. intros [_ Hg]. by apply (O6 id').
Qed.

(** A node's operation that leaves its failure alone, but may start or end a drain. *)
Lemma node_ok r f w :
  (∀ n, nd_id (f n) = nd_id n ∧ nd_failed (f n) = nd_failed n ∧ nd_rooms (f n) = nd_rooms n) →
  world_ok w → world_ok (on_node r f w).
Proof.
  intros Hf [O1 O2 O3 O4 O5 O6 O7].
  assert (Hid : ∀ r', node_id (alter f r (wd_heap w)) r' = node_id (wd_heap w) r').
  { intros r'. unfold node_id. destruct (decide (r = r')) as [<-|Hne].
    - rewrite list_lookup_alter_eq. destruct (wd_heap w !! r) as [n|]; [|done]. cbn. apply Hf.
    - by rewrite list_lookup_alter_ne. }
  assert (Hfail : ∀ r', failed_ref (alter f r (wd_heap w)) r' ↔ failed_ref (wd_heap w) r').
  { intros r'. unfold failed_ref. destruct (decide (r = r')) as [<-|Hne].
    - rewrite list_lookup_alter_eq. destruct (wd_heap w !! r) as [n|]; [|done]. cbn. by destruct (Hf n) as (_ & -> & _).
    - by rewrite list_lookup_alter_ne. }
  constructor; cbn; try done.
  - intros id r' Hr. rewrite Hid, length_alter. by apply O2.
  - intros id r' Hr. rewrite Hfail. by apply O5.
  - intros id Hm. apply O6. eapply (mentions_alter (wd_heap w)); [|exact Hm]. apply Hf.
  - apply client_inv_alter; [|done]. intros n. split; apply Hf.
Qed.

Lemma insert_is_alter {B} (f : B → B) (l : list B) i x : l !! i = Some x → <[i := f x]> l = alter f i l.
Proof.
  intros Hi. apply list_eq. intros j. destruct (decide (i = j)) as [<-|Hne].
  - rewrite list_lookup_insert_eq by (by eapply lookup_lt_Some). by rewrite list_lookup_alter_eq, Hi.
  - by rewrite list_lookup_insert_ne, list_lookup_alter_ne.
Qed.

Lemma cluster_ok f w :
  (∀ c, cl_nodes (f c) = cl_nodes c) → world_ok w → world_ok (on_cluster f w).
Proof. intros Hf [O1 O2 O3 O4 O5 O6 O7]. constructor; cbn; rewrite ?Hf; done. Qed.

Lemma checkAll_ok w : world_ok w → world_ok (checkAllOverloaded w).
Proof. intros Hok. unfold checkAllOverloaded. cbv zeta. destruct (_ && _); [by apply cluster_ok|done]. Qed.

Lemma reportLoad_same x n : nd_id (reportLoad x n).1 = nd_id n ∧ nd_failed (reportLoad x n).1 = nd_failed n
  ∧ nd_rooms (reportLoad x n).1 = nd_rooms n.
Proof. unfold reportLoad. cbv zeta. by destruct (_ && _). Qed.

Lemma report_load_ok r x w : world_ok w → world_ok (report_load r x w).
Proof.
  intros Hok. unfold report_load. destruct (wd_heap w !! r) as [n|] eqn:Hr; [|done].
  pose proof (node_ok r (λ n, (reportLoad x n).1) w (reportLoad_same x) Hok) as H1'.
  unfold on_node in H1'. rewrite <- (insert_is_alter _ _ _ _ Hr) in H1'.
  destruct (reportLoad x n) as [n' over]. cbn [fst] in H1'. destruct (_ && _); [by apply checkAll_ok|done].
Qed.

(** A node's failure flag is set or cleared, and the tracker hears of it. *)
Lemma markFailed_spec n : nd_failed n = false →
  ∃ n', markFailed n = (n', true) ∧ nd_id n' = nd_id n ∧ nd_failed n' = true ∧ nd_rooms n' = nd_rooms n.
Proof.
  intros Hf. unfold markFailed. rewrite Hf. cbv zeta. eexists. split; [done|].
  destruct (nd_draining _); [|done]. unfold resolve_drain. by destruct (nd_drain _).
Qed.

Lemma node_id_insert h r n n' y : h !! r = Some n → nd_id n' = nd_id n → node_id (<[r := n']> h) y = node_id h y.
Proof.
  intros Hr Hid. unfold node_id. destruct (decide (r = y)) as [<-|Hne].
  - rewrite list_lookup_insert_eq, Hr by (by eapply lookup_lt_Some). cbn. by rewrite Hid.
  - by rewrite list_lookup_insert_ne.
Qed.

Lemma mark_failed_ok r w : world_ok w → world_ok (mark_failed r w).
Proof.
  intros Hok. unfold mark_failed. destruct (wd_heap w !! r) as [n|] eqn:Hr; [|done].
  destruct (nd_failed n) eqn:Ef; [unfold markFailed; rewrite Ef, list_insert_id by done; by destruct w|].
  destruct (markFailed_spec n Ef) as (n' & -> & Hid' & Hf' & Hrooms'). set (h := <[r := n']> (wd_heap w)).
  assert (Hlt : (r < length (wd_heap w))%nat) by (by eapply lookup_lt_Some).
  assert (Hid : ∀ r', node_id h r' = node_id (wd_heap w) r') by (intros; by eapply node_id_insert).
  assert (Hfail : ∀ r', failed_ref h r' ↔ r' = r ∨ failed_ref (wd_heap w) r').
  { intros r'. unfold failed_ref, h. destruct (decide (r = r')) as [<-|Hne].
    - rewrite list_lookup_insert_eq by done. cbn. rewrite Hf'. naive_solver.
    - rewrite list_lookup_insert_ne by done. naive_solver. }
  destruct Hok as [O1 O2 O3 O4 O5 O6 O7]. cbv beta iota.
  set (f := λ m, mkSfuNode (nd_id m) (nd_region n') (nd_capacity n') (nd_load n') (nd_failed n') (nd_draining n')
    (nd_rooms m) (nd_drain n') (nd_collecting n') (nd_out n')).
  assert (Hh : h = alter f r (wd_heap w)).
  { unfold h. rewrite (list_insert_alter (wd_heap w) r n'). apply list_alter_ext; [|done]. intros m Hm.
    rewrite Hr in Hm. injection Hm as <-. unfold f. rewrite <- Hid', <- Hrooms'. by destruct n'. }
  assert (Hment : ∀ id, mentions h (wd_client w) id → mentions (wd_heap w) (wd_client w) id)
    by (intros id; rewrite Hh; by apply mentions_alter).
  assert (Hinv : client_inv h (wd_client w)) by (rewrite Hh; by apply client_inv_alter).
  unfold on_failed, listens. cbn [wd_set_heap wd_heap wd_tracker]. rewrite Hid, O4.
  destruct (bool_decide_reflect (mget (node_id (wd_heap w) r) (cl_nodes (wd_cluster w)) = Some r)) as [Hreg|Hreg].
  - apply fireGone_ok; cbn; try done.
    + intros id r' Hr'. rewrite Hid. unfold h. rewrite length_insert. by apply O2.
    + intros id r' Hr' Hne. rewrite Hfail, (O5 id r' Hr'). split; [by right|]. intros [->|]; [|done].
      destruct Hne. rewrite Hid. symmetry. by apply O2.
    + intros r'. rewrite Hid, Hreg. intros [= <-]. apply Hfail. by left.
    + intros id Hm. by apply O6, Hment.
  - constructor; cbn; try done.
    + intros id r' Hr'. rewrite Hid. unfold h. rewrite length_insert. by apply O2.
    + intros id r' Hr'. rewrite Hfail, (O5 id r' Hr'). split; [by right|]. intros [->|]; [|done].
      destruct Hreg. by rewrite (proj2 (O2 id r Hr')).
    + intros id Hm. by apply O6, Hment.
Qed.

Lemma mark_recovered_ok r w : world_ok w → world_ok (mark_recovered r w).
Proof.
  intros Hok. unfold mark_recovered. destruct (wd_heap w !! r) as [n|] eqn:Hr; [|done].
  unfold markRecovered. destruct (nd_failed n) eqn:Ef; [|rewrite list_insert_id by done; by destruct w].
  set (f := λ m : SfuNode, nd_emit EvRecovered (nd_set_failed false m)).
  change (nd_emit EvRecovered (nd_set_failed false n)) with (f n). rewrite (insert_is_alter f _ _ _ Hr).
  set (h := alter f r (wd_heap w)).
  assert (Hid : ∀ r', node_id h r' = node_id (wd_heap w) r').
  { intros r'. unfold node_id, h. destruct (decide (r = r')) as [<-|Hne].
    - by rewrite list_lookup_alter_eq, Hr.
    - by rewrite list_lookup_alter_ne. }
  assert (Hfail : ∀ r', failed_ref h r' ↔ r' ≠ r ∧ failed_ref (wd_heap w) r').
  { intros r'. unfold failed_ref, h. destruct (decide (r = r')) as [<-|Hne].
    - rewrite list_lookup_alter_eq, Hr. cbn. naive_solver.
    - rewrite list_lookup_alter_ne by done. naive_solver. }
  destruct Hok as [O1 O2 O3 O4 O5 O6 O7]. unfold on_recovered, listens. cbn [wd_set_heap wd_heap wd_tracker].
  rewrite Hid, O4. set (id0 := node_id (wd_heap w) r) in *.
  assert (Hment : ∀ id, mentions h (wd_client w) id → mentions (wd_heap w) (wd_client w) id)
    by (intros id; by apply mentions_alter).
  assert (Hinv : client_inv h (wd_client w)) by (by apply client_inv_alter).
  destruct (bool_decide_reflect (mget id0 (cl_nodes (wd_cluster w)) = Some r)) as [Hreg|Hreg].
  - constructor; cbn; try done.
    + intros id r' Hr'. rewrite Hid. unfold h. rewrite length_alter. by apply O2.
    + intros id r' Hr'. rewrite Hfail, elem_of_sdel, (O5 id r' Hr'). split.
      * intros [Hne Hf]. split; [|done]. intros ->. destruct Hne. symmetry. by apply O2.
      * intros [Hne Hf]. split; [|done]. intros ->. rewrite Hreg in Hr'. congruence.
    + intros id Hm. rewrite elem_of_sdel. intros [_ Hg]. by apply (O6 id); [apply Hment|].
  - constructor; cbn; try done.
    + intros id r' Hr'. rewrite Hid. unfold h. rewrite length_alter. by apply O2.
    + intros id r' Hr'. rewrite Hfail, (O5 id r' Hr'). split; [|tauto]. intros Hf. split; [|done].
      intros ->. destruct Hreg. unfold id0. by rewrite (proj2 (O2 id r Hr')).
    + intros id Hm. by apply O6, Hment.
Qed.

Lemma rebalance_ok w : world_ok w → world_ok (rebalance w).
Proof.
  intros Hok. unfold rebalance. cbv zeta. set (hit := filter _ _).
  match goal with |- context [fold_left ?f hit w] => set (w1 := fold_left f hit w) end.
  assert (world_ok w1) as H1'.
  { unfold w1. clearbody hit. clear w1.
    assert (Hf : ∀ l w1, world_ok w1 → world_ok (fold_left (λ w r, match wd_heap w !! r with
      | Some n => on_cluster (clu_emit (OnRebalance (nd_id n) (nd_failed n))) w | None => w end) l w1)).
    { induction l as [|r l IH]; intros w1 H1'; [done|]. rewrite fold_left_cons. apply IH.
      destruct (wd_heap w1 !! r); [by apply cluster_ok|done]. }
    by apply Hf. }
  destruct hit; [done|by apply cluster_ok].
Qed.

Lemma onHealthResult_ok r b w : world_ok w → world_ok (onHealthResult r b w).
Proof.
  intros Hok. unfold onHealthResult. destruct (wd_heap w !! r) as [n|]; [|done]. cbv zeta.
  destruct b.
  - destruct (nd_failed n); [|by apply cluster_ok]. destruct (decide _); [|by repeat apply cluster_ok].
    by apply mark_recovered_ok; repeat apply cluster_ok.
  - destruct (_ && _); [|by apply cluster_ok].
    apply rebalance_ok, cluster_ok; [done|]. by apply mark_failed_ok; repeat apply cluster_ok.
Qed.

Lemma health_tick_ok w : world_ok w → world_ok (health_tick w).
Proof.
  intros Hok. unfold health_tick. destruct (cl_checking (wd_cluster w)); [|done]. cbv zeta.
  generalize (cluster_nodes (wd_cluster w)). intros l. revert w Hok.
  induction l as [|r l IH]; intros w Hok; [done|]. rewrite fold_left_cons. apply IH.
  destruct (wd_heap w !! r) as [n|]; [|done]. destruct (_ || _); [done|by apply cluster_ok].
Qed.

Lemma probe_settled_ok k o w : world_ok w → world_ok (probe_settled k o w).
Proof.
  intros Hok. unfold probe_settled. destruct (mjoin _) as [r|]; [|done]. cbv zeta. apply cluster_ok; [done|].
  destruct (_ && _); [by apply onHealthResult_ok|done].
Qed.

Lemma new_node_ok n w : world_ok w → world_ok (wd_set_heap (wd_heap w ++ [n]) w).
Proof.
  intros [O1 O2 O3 O4 O5 O6 O7].
  assert (Hlk : ∀ r, (r < length (wd_heap w))%nat → (wd_heap w ++ [n]) !! r = wd_heap w !! r)
    by (intros; by apply lookup_app_l).
  constructor; cbn; try done.
  - intros id r Hr. destruct (O2 id r Hr) as [Hlt Hid]. rewrite length_app. split; [cbn; lia|].
    unfold node_id. by rewrite Hlk.
  - intros id r Hr. unfold failed_ref. rewrite Hlk by (by apply (O2 id)). by apply O5.
  - intros id Hm. by eapply O6, (mentions_snoc (wd_heap w) n).
  - by apply client_inv_snoc.
Qed.

(** * The steps of a cluster *)

Inductive sfu_step : world → world → Prop :=
| step_new id region capacity w :
    sfu_step w (addNode (length (wd_heap w)) (wd_set_heap (wd_heap w ++ [newSfuNode id region capacity]) w))
| step_add r n w : wd_heap w !! r = Some n → nd_failed n = false → sfu_step w (addNode r w)
| step_remove id w : sfu_step w (removeNode id w).1
| step_load r x w : sfu_step w (report_load r x w)
| step_fail r w : sfu_step w (mark_failed r w)
| step_recover r w : sfu_step w (mark_recovered r w)
| step_drain r w : sfu_step w (on_node r drain w)
| step_drain_timeout r w : sfu_step w (on_node r drain_timeout w)
| step_drain_done r w : sfu_step w (on_node r drain_done w)
| step_collect r w : sfu_step w (on_node r startStatsCollection w)
| step_estimate r q w : sfu_step w (on_node r (reportBandwidthQuality q) w)
| step_checking b w : sfu_step w (on_cluster (clu_checking b) w)
| step_tick w : sfu_step w (health_tick w)
| step_probe k o w : sfu_step w (probe_settled k o w)
| step_rebalance w : sfu_step w (rebalance w).

Lemma sfu_step_ok w w' : sfu_step w w' → world_ok w → world_ok w'.
Proof.
  intros Hs Hok. destruct Hs.
  - apply (addNode_ok _ (newSfuNode id region capacity)); [|done|by apply new_node_ok]. cbn. by rewrite lookup_app_r, Nat.sub_diag by lia.
  - by eapply addNode_ok.
  - by apply removeNode_ok.
  - by apply report_load_ok.
  - by apply mark_failed_ok.
  - by apply mark_recovered_ok.
  - apply node_ok; [|done]. intros n. unfold drain. by destruct (nd_draining n).
  - apply node_ok; [|done]. intros n. unfold drain_timeout, resolve_drain. by destruct (nd_drain n).
  - apply node_ok; [|done]. intros n. unfold drain_done. by destruct (nd_drain n).
  - by apply node_ok.
  - by apply node_ok.
  - by apply cluster_ok.
  - by apply health_tick_ok.
  - by apply probe_settled_ok.
  - by apply rebalance_ok.
Qed.

(** The client acts by itself: rooms come and go on nodes, and what it refers to it
    referred to before, or is active. *)
Lemma client_ok h a w :
  heap_core h = heap_core (wd_heap w) → client_inv h a →
  (∀ id, mentions h a id → mentions (wd_heap w) (wd_client w) id ∨ active_id (cl_nodes (wd_cluster w)) (wd_heap w) id) →
  world_ok w → world_ok (mkWorld h (wd_cluster w) (wd_tracker w) a).
Proof.
  intros Hcore Hinv Hm [O1 O2 O3 O4 O5 O6 O7].
  assert (Hlen : length h = length (wd_heap w)).
  { apply (f_equal length) in Hcore. unfold heap_core in Hcore. by rewrite !length_fmap in Hcore. }
  constructor; cbn; try done.
  - intros id r Hr. rewrite (core_id _ _ r Hcore), Hlen. by apply O2.
  - intros id r Hr. unfold failed_ref. rewrite (core_failed _ _ r Hcore). by apply O5.
  - intros id [Hold|(r & Hr & Hact)]%Hm; [by apply O6|].
    rewrite (O5 id r Hr). unfold failed_ref. unfold is_active in Hact.
    destruct (wd_heap w !! r) as [n|]; [|done]. cbn. intros [= E]. by rewrite E in Hact.
Qed.

(** A client of a new cluster that refers to nothing. *)
Lemma new_world_ok f r a :
  (∀ id, ¬ mentions [] a id) → client_inv [] a → world_ok (mkWorld [] (newCluster f r) (newTracker [] []) a).
Proof. intros Hm Hi. constructor; cbn; try done; [by constructor|]. intros id Hid. by destruct (Hm id). Qed.

(** What the client refers to and the cluster knows has not failed. *)
Lemma mentioned_live w id r :
  world_ok w → mentions (wd_heap w) (wd_client w) id → mget id (cl_nodes (wd_cluster w)) = Some r →
  nd_failed <$> wd_heap w !! r = Some false.
Proof.
  intros Hok Hm Hr. destruct (wo_ids _ Hok id r Hr) as [Hlt _]. apply lookup_lt_is_Some in Hlt as [n Hn].
  pose proof (wo_client _ Hok id Hm) as Hg. rewrite (wo_gone _ Hok id r Hr) in Hg. unfold failed_ref in Hg.
  rewrite Hn in *. cbn in *. destruct (nd_failed n); [by destruct Hg|done].
Qed.
End client.
