(* ===== verification/RouterTheorems.v ===== *)
(** The cascading router over a cluster: cascades hang on a primary, the nodes of a
    room know it, and no room stays on a node that failed. *)

From S2P Require Import Prelude JsMap Sfu SfuTheorems Placement CascadingRouter.

Implicit Types (c : CascadingRouter) (h : list SfuNode).

(** The nodes of a room. *)
Definition refers c (room : jsstr) (r : nat) : Prop :=
  mget room (cr_assignments c) = Some r ∨ ∃ l, mget room (cr_cascadeLinks c) = Some l ∧ r ∈ l.
Definition tracks h (room : jsstr) (r : nat) : Prop := ∃ n, h !! r = Some n ∧ room ∈ nd_rooms n.

Record router_ok h c : Prop := {
  ro_assignments : mwf (cr_assignments c);
  ro_links : mwf (cr_cascadeLinks c);
  ro_cascade room l : mget room (cr_cascadeLinks c) = Some l →
    l ≠ [] ∧ ∃ p, mget room (cr_assignments c) = Some p ∧ NoDup (node_id h <$> p :: l);
  ro_tracked room r : refers c room r → tracks h room r;
}.

(** * Heaps *)

Lemma node_id_alter f r h x : (∀ n, nd_id (f n) = nd_id n) → node_id (alter f r h) x = node_id h x.
Proof.
  intros Hf. unfold node_id. destruct (decide (r = x)) as [<-|Hne].
  - rewrite list_lookup_alter_eq. destruct (h !! r) as [n|]; [|done]. cbn. by rewrite Hf.
  - by rewrite list_lookup_alter_ne.
Qed.

Lemma ids_core h h' (l : list nat) : heap_core h' = heap_core h → node_id h' <$> l = node_id h <$> l.
Proof. intros Hc. apply list_fmap_ext. intros _ x _. by apply core_id. Qed.

Lemma core_untrack_at room r h : heap_core (untrack room r h) = heap_core h.
Proof. apply core_alter, core_untrack. Qed.
Lemma core_track_at room r h : heap_core (track room r h) = heap_core h.
Proof. by apply core_alter. Qed.

Lemma rooms_untrack room n : nd_rooms (untrackRoom room n) = sdel room (nd_rooms n).
Proof. unfold untrackRoom. cbv zeta. destruct (_ && _); [|done]. unfold resolve_drain. by destruct (nd_drain _). Qed.

Lemma tracks_untrack room r h room' x :
  tracks h room' x → room' ≠ room ∨ x ≠ r → tracks (untrack room r h) room' x.
Proof.
  intros (n & Hn & Hin) Hne. unfold tracks, untrack. destruct (decide (r = x)) as [->|Hx].
  - rewrite list_lookup_alter_eq, Hn. cbn. eexists. split; [done|]. rewrite rooms_untrack, elem_of_sdel.
    split; [destruct Hne; congruence|done].
  - rewrite list_lookup_alter_ne by done. eauto.
Qed.

Lemma tracks_track room r h room' x : tracks h room' x → tracks (track room r h) room' x.
Proof.
  intros (n & Hn & Hin). unfold tracks, track. destruct (decide (r = x)) as [->|Hx].
  - rewrite list_lookup_alter_eq, Hn. cbn. eexists. split; [done|]. apply elem_of_sadd. by right.
  - rewrite list_lookup_alter_ne by done. eauto.
Qed.

Lemma tracks_new room r h : (r < length h)%nat → tracks (track room r h) room r.
Proof.
  intros [n Hn]%lookup_lt_is_Some. unfold tracks, track. rewrite list_lookup_alter_eq, Hn. cbn.
  eexists. split; [done|]. apply elem_of_sadd. by left.
Qed.

Lemma untrack_all_core room l h : heap_core (fold_left (λ h n, untrack room n h) l h) = heap_core h.
Proof.
  revert h. induction l as [|r l IH]; intros h; [done|]. rewrite fold_left_cons, IH. apply core_untrack_at.
Qed.
Lemma untrack_all_tracks room l h room' x :
  room' ≠ room → tracks h room' x → tracks (fold_left (λ h n, untrack room n h) l h) room' x.
Proof.
  intros Hne. revert h. induction l as [|r l IH]; intros h Ht; [done|]. rewrite fold_left_cons.
  apply IH, tracks_untrack; auto.
Qed.

(** * Forgetting a room *)

(** Both detaching a room and losing its primary remove what is known of it. *)
Lemma router_ok_forget h h' c c' room :
  heap_core h' = heap_core h →
  (∀ room' x, room' ≠ room → tracks h room' x → tracks h' room' x) →
  cr_assignments c' = mdel room (cr_assignments c) → cr_cascadeLinks c' = mdel room (cr_cascadeLinks c) →
  router_ok h c → router_ok h' c'.
Proof.
  intros Hcore Ht Ha Hl [O1 O2 O3 O4]. constructor; rewrite ?Ha, ?Hl.
  - by apply mwf_mdel.
  - by apply mwf_mdel.
  - intros room' l. rewrite !mget_mdel. destruct (decide (room' = room)); [done|]. intros Hr.
    setoid_rewrite (ids_core h h'); [|done]. by apply O3.
  - intros room' x. unfold refers. rewrite Ha, Hl, !mget_mdel. destruct (decide (room' = room)) as [|Hne].
    + by intros [|(l & [=] & _)].
    + intros Hr. apply Ht; [done|]. by apply O4.
Qed.

Lemma emits_same (es : list nat) room c :
  cr_assignments (fold_left (λ c n, cr_emit (CascadeDropped room n) c) es c) = cr_assignments c
  ∧ cr_cascadeLinks (fold_left (λ c n, cr_emit (CascadeDropped room n) c) es c) = cr_cascadeLinks c.
Proof. revert c. induction es as [|e es IH]; intros c; [done|]. rewrite fold_left_cons. apply (IH (cr_emit _ c)). Qed.

Lemma clear_primary_cases r h c room x :
  let '(h', c') := clear_primary r (h, c) (room, x) in
  (node_id h x ≠ node_id h r ∧ h' = h ∧ c' = c)
  ∨ (node_id h x = node_id h r ∧ heap_core h' = heap_core h
     ∧ (∀ room' y, room' ≠ room → tracks h room' y → tracks h' room' y)
     ∧ cr_assignments c' = mdel room (cr_assignments c) ∧ cr_cascadeLinks c' = mdel room (cr_cascadeLinks c)).
Proof.
  unfold clear_primary. destruct (decide _) as [Heq|Hne]; [|by left]. right. split; [done|].
  cbv zeta. set (cascades := default [] _). set (c1 := cr_set_assignments _ c).
  destruct (emits_same cascades room c1) as [Ea El].
  split; [by rewrite untrack_all_core, core_untrack_at|]. split.
  - intros room' y Hr Ht. apply untrack_all_tracks; [done|]. apply tracks_untrack; auto.
  - split; [exact Ea|exact (f_equal (mdel room) El)].
Qed.

(** * A lost node *)

Section gone.
Context (r : nat) (h0 : list SfuNode) (c0 : CascadingRouter).
Abbreviation id0 := (node_id h0 r).

Record clearing h c : Prop := {
  cg_core : heap_core h = heap_core h0;
  cg_ok : router_ok h c;
  cg_sub room x : refers c room x → refers c0 room x;
}.

Lemma clear_primaries rem h c :
  clearing h c → NoDup rem.*1 →
  (∀ room x, mget room (cr_assignments c) = Some x → node_id h0 x ≠ id0 ∨ mget room rem = Some x) →
  let '(h', c') := fold_left (clear_primary r) rem (h, c) in
  clearing h' c' ∧ ∀ room x, mget room (cr_assignments c') = Some x → node_id h0 x ≠ id0.
Proof.
  revert h c. induction rem as [|[room0 x0] rem IH]; intros h c Hc Hnd Hrem.
  { split; [done|]. intros room x Hx. destruct (Hrem room x Hx) as [|[=]]; done. }
  rewrite fold_left_cons. apply NoDup_cons in Hnd as [Hr0 Hnd].
  pose proof (clear_primary_cases r h c room0 x0) as Hcase.
  destruct (clear_primary r (h, c) (room0, x0)) as [h1 c1].
  destruct Hc as [Hcore Hok Hsub]. rewrite !(core_id _ _ _ Hcore) in Hcase.
  destruct Hcase as [(Hne & -> & ->)|(Heq & Hcore1 & Ht & Ha & Hl)]; apply IH; try done.
  - intros room x Hx. destruct (Hrem room x Hx) as [|Hm]; [by left|]. cbn in Hm.
    destruct (decide (room = room0)) as [->|]; [left; by injection Hm as <-|by right].
  - constructor; [congruence|by eapply router_ok_forget|]. intros room x. unfold refers. rewrite Ha, Hl, !mget_mdel.
    destruct (decide (room = room0)); [by intros [|(l & [=] & _)]|apply Hsub].
  - intros room x. rewrite Ha, mget_mdel. destruct (decide (room = room0)); [done|]. intros Hx.
    destruct (Hrem room x Hx) as [|Hm]; [by left|]. right. cbn in Hm. by rewrite decide_False in Hm.
Qed.

Lemma filter_same_length {B} (P : B → Prop) `{∀ x, Decision (P x)} l :
  length (filter P l) = length l → Forall P l.
Proof.
  induction l as [|x l IH]; [done|]. rewrite filter_cons. destruct (decide (P x)) as [Hp|Hp]; cbn.
  - intros [= E]. apply Forall_cons. auto.
  - intros E. pose proof (length_filter P l). lia.
Qed.

(** One room: its cascade to the node goes, and the node forgets the room. *)
Lemma clear_cascade_cases h c room0 l0 :
  let filtered := filter (λ x, node_id h x ≠ node_id h r) l0 in
  let '(h', c') := clear_cascade r (h, c) (room0, l0) in
  (Forall (λ x, node_id h x ≠ node_id h r) l0 ∧ h' = h ∧ c' = c)
  ∨ (h' = untrack room0 r h ∧ cr_assignments c' = cr_assignments c
     ∧ (mwf (cr_cascadeLinks c) → mwf (cr_cascadeLinks c'))
     ∧ ∀ room, mget room (cr_cascadeLinks c') =
         if decide (room = room0) then match filtered with [] => None | _ => Some filtered end
         else mget room (cr_cascadeLinks c)).
Proof.
  cbv zeta. unfold clear_cascade. cbv zeta. set (filtered := filter _ l0).
  destruct (decide (length filtered = length l0)) as [Hlen|Hlen]; [by apply filter_same_length in Hlen; left|].
  right. split; [done|]. destruct filtered as [|y fl]; cbn; (split; [done|]); (split; [intros; by (apply mwf_mdel || apply mwf_mset)|]).
  - intros room. by rewrite mget_mdel.
  - intros room. by rewrite mget_mset.
Qed.

Lemma cascade_cleared h c c2 room0 l0 filtered :
  clearing h c → mget room0 (cr_cascadeLinks c) = Some l0 →
  (∀ room x, mget room (cr_assignments c) = Some x → node_id h0 x ≠ id0) →
  filtered = filter (λ x, node_id h x ≠ node_id h r) l0 →
  cr_assignments c2 = cr_assignments c → mwf (cr_cascadeLinks c2) →
  (∀ room, mget room (cr_cascadeLinks c2) =
     if decide (room = room0) then match filtered with [] => None | _ => Some filtered end
     else mget room (cr_cascadeLinks c)) →
  clearing (untrack room0 r h) c2.
Proof.
  intros [Hcore [O1 O2 O3 O4] Hsub] Hl0 Hprim Ef Ha Hwf Hlk.
  assert (Hfl : ∀ x, x ∈ filtered ↔ x ∈ l0 ∧ node_id h0 x ≠ id0).
  { intros x. rewrite Ef, list_elem_of_filter, !(core_id _ _ _ Hcore). tauto. }
  assert (Hat : ∀ l, mget room0 (cr_cascadeLinks c2) = Some l → l = filtered ∧ filtered ≠ []).
  { intros l. rewrite Hlk, decide_True by done. by destruct filtered; [|intros [= <-]]. }
  assert (Hsub2 : ∀ room x, refers c2 room x → refers c room x ∧ (room = room0 → x ≠ r)).
  { intros room x [Hx|(l & Hl & Hx)].
    - rewrite Ha in Hx. split; [by left|]. intros _ ->. by apply (Hprim room r).
    - destruct (decide (room = room0)) as [->|Hne].
      + destruct (Hat l Hl) as [-> _]. apply Hfl in Hx as [Hx0 Hid]. split; [right; eauto|]. intros _ ->. done.
      + rewrite Hlk, decide_False in Hl by done. split; [right; eauto|done]. }
  constructor; [by rewrite core_untrack_at| |intros room x Hx; by apply Hsub, Hsub2].
  constructor; [by rewrite Ha|done| |].
  - intros room l Hl. rewrite Ha. setoid_rewrite (ids_core h); [|apply core_untrack_at].
    destruct (decide (room = room0)) as [->|Hne]; [|rewrite Hlk, decide_False in Hl by done; by apply O3].
    destruct (O3 room0 l0 Hl0) as (_ & p & Hp & Hnd'). destruct (Hat l Hl) as [-> Hf].
    split; [done|]. exists p. split; [done|]. rewrite fmap_cons in Hnd' |- *.
    apply NoDup_cons in Hnd' as [Hn Hnd']. apply NoDup_cons. split; [|rewrite Ef; by apply NoDup_fmap_filter].
    intros Hx. apply Hn. apply list_elem_of_fmap in Hx as (x & Ex & Hx). apply Hfl in Hx as [Hx _].
    apply list_elem_of_fmap. eauto.
  - intros room x Hx. destruct (Hsub2 room x Hx) as [Hr Hne]. apply tracks_untrack; [by apply O4|].
    destruct (decide (room = room0)); [right; auto|by left].
Qed.

Lemma clear_cascades rem h c :
  clearing h c → NoDup rem.*1 →
  (∀ room x, mget room (cr_assignments c) = Some x → node_id h0 x ≠ id0) →
  (∀ room l, (room, l) ∈ rem → mget room (cr_cascadeLinks c) = Some l) →
  (∀ room l, mget room (cr_cascadeLinks c) = Some l → (∀ x, x ∈ l → node_id h0 x ≠ id0) ∨ mget room rem = Some l) →
  let '(h', c') := fold_left (clear_cascade r) rem (h, c) in
  clearing h' c' ∧ ∀ room x, refers c' room x → node_id h0 x ≠ id0.
Proof.
  revert h c. induction rem as [|[room0 l0] rem IH]; intros h c Hc Hnd Hprim Hin Hrem.
  { split; [done|]. intros room x [Hx|(l & Hl & Hx)]; [by eapply Hprim|].
    destruct (Hrem room l Hl) as [Hcl|[=]]. by apply Hcl. }
  rewrite fold_left_cons. apply NoDup_cons in Hnd as [Hr0 Hnd]. pose proof (cg_core _ _ Hc) as Hcore.
  assert (Hl0 : mget room0 (cr_cascadeLinks c) = Some l0) by (apply Hin; by left).
  assert (Hne0 : ∀ room l, (room, l) ∈ rem → room ≠ room0).
  { intros room l Hl ->. apply Hr0. apply list_elem_of_fmap. by exists (room0, l). }
  pose proof (clear_cascade_cases h c room0 l0) as Hcase. cbv zeta in Hcase.
  destruct (clear_cascade r (h, c) (room0, l0)) as [h1 c2].
  destruct Hcase as [(Hall & -> & ->)|(-> & Ha & Hwf & Hlk)]; apply IH; try done.
  - intros room l Hl. apply Hin. by right.
  - intros room l Hl. destruct (Hrem room l Hl) as [|Hm]; [by left|]. cbn in Hm.
    destruct (decide (room = room0)) as [->|]; [|by right]. left. injection Hm as <-.
    rewrite Forall_forall in Hall. intros x Hx. specialize (Hall x Hx). by rewrite !(core_id _ _ _ Hcore) in Hall.
  - eapply (cascade_cleared h c c2 room0 l0); [done..| |done]. apply Hwf. by destruct Hc as [_ [] _].
  - intros room x. rewrite Ha. apply Hprim.
  - intros room l Hl. rewrite Hlk, decide_False by (by eapply Hne0). apply Hin. by right.
  - intros room l. rewrite Hlk. destruct (decide (room = room0)) as [->|Hne].
    + intros Hl. left. intros x Hx. destruct (filter _ l0) eqn:Ef; [done|]. injection Hl as <-. rewrite <- Ef in Hx.
      apply list_elem_of_filter in Hx as [Hx _]. by rewrite !(core_id _ _ _ Hcore) in Hx.
    + intros Hl. destruct (Hrem room l Hl) as [|Hm]; [by left|]. right. cbn in Hm. by rewrite decide_False in Hm.
Qed.

Lemma handleNodeGone_spec :
  router_ok h0 c0 →
  let '(h', c') := handleNodeGone r h0 c0 in
  clearing h' c' ∧ ∀ room x, refers c' room x → node_id h0 x ≠ id0.
Proof.
  intros Hok. unfold handleNodeGone. cbv zeta.
  assert (Hc0 : clearing h0 c0) by by constructor.
  pose proof (clear_primaries (cr_assignments c0) h0 c0 Hc0 (ro_assignments _ _ Hok) ltac:(by right)) as H1'.
  destruct (fold_left (clear_primary r) _ (h0, c0)) as [h1 c1]. destruct H1' as [Hc1 Hp1]. cbn [snd].
  apply clear_cascades; try done.
  - apply (ro_links _ _ (cg_ok _ _ Hc1)).
  - intros room l. apply elem_mget, (ro_links _ _ (cg_ok _ _ Hc1)).
  - by right.
Qed.
End gone.

(** * The router as a client of the tracker *)

Definition router_mentions h c (id : jsstr) : Prop := ∃ room r, refers c room r ∧ node_id h r = id.

#[export, refine] Instance router_laws : FailureClientLaws CascadingRouter := {
  mentions := router_mentions;
  client_inv := router_ok;
}.
Proof.
  - intros h n c id Hok (room & r & Hr & Hid). exists room, r. split; [done|]. rewrite <- Hid. unfold node_id.
    destruct (ro_tracked _ _ Hok room r Hr) as (n' & Hn & _). by rewrite lookup_app_l by (by eapply lookup_lt_Some).
  - intros h r f c id Hf (room & x & Hr & Hid). exists room, x. split; [done|]. by rewrite node_id_alter in Hid.
  - intros h n c [O1 O2 O3 O4]. constructor; try done.
    + intros room l Hl. destruct (O3 room l Hl) as (Hne & p & Hp & Hnd). split; [done|]. exists p. split; [done|].
      replace (node_id (h ++ [n]) <$> p :: l) with (node_id h <$> p :: l); [done|].
      apply list_fmap_ext. intros i x Hx. unfold node_id.
      assert (refers c room x) as Hr.
      { apply list_elem_of_lookup_2, elem_of_cons in Hx as [->|Hx]; [by left|right; eauto]. }
      destruct (O4 room x Hr) as (n' & Hn & _). by rewrite lookup_app_l by (by eapply lookup_lt_Some).
    + intros room x Hr. destruct (O4 room x Hr) as (n' & Hn & Hin). exists n'. split; [|done].
      by apply lookup_app_l_Some.
  - intros h r f c Hf [O1 O2 O3 O4]. constructor; try done.
    + intros room l Hl. destruct (O3 room l Hl) as (Hne & p & Hp & Hnd). split; [done|]. exists p. split; [done|].
      replace (node_id (alter f r h) <$> p :: l) with (node_id h <$> p :: l); [done|].
      apply list_fmap_ext. intros _ x _. symmetry. apply node_id_alter. intros n. apply Hf.
    + intros room x Hr. destruct (O4 room x Hr) as (n & Hn & Hin). unfold tracks.
      destruct (decide (r = x)) as [->|Hne].
      * rewrite list_lookup_alter_eq, Hn. cbn. eexists. split; [done|]. by rewrite (proj2 (Hf n)).
      * rewrite list_lookup_alter_ne by done. eauto.
  - intros r nodes h c h' c' Hg Hok _ _. unfold onGone, router_client in Hg.
    pose proof (handleNodeGone_spec r h c Hok) as Hs. rewrite Hg in Hs. destruct Hs as [[Hcore Hok' Hsub] Hcl].
    split; [done|]. split; [done|]. intros id (room & x & Hr & Hid). rewrite (core_id _ _ x Hcore) in Hid.
    rewrite <- Hid. split; [by apply (Hcl room)|]. left. exists room, x. auto.
Defined.

(** * Attaching and detaching rooms *)

Lemma active_ref_id (w : World CascadingRouter) r :
  world_ok w → r ∈ active_refs (wd_heap w) (cl_nodes (wd_cluster w)) →
  (r < length (wd_heap w))%nat ∧ active_id (cl_nodes (wd_cluster w)) (wd_heap w) (node_id (wd_heap w) r).
Proof.
  intros Hok [Hact Hin]%list_elem_of_filter. unfold mvals in Hin.
  apply list_elem_of_fmap in Hin as ([id r'] & -> & Hin). apply elem_mget in Hin; [|apply (wo_wf _ Hok)].
  cbn in *. destruct (wo_ids _ Hok id r' Hin) as [Hlt ->]. split; [done|]. by exists r'.
Qed.

Lemma NoDup_snoc_id h l r :
  NoDup (node_id h <$> l) → node_id h r ∉ node_id h <$> l → NoDup (node_id h <$> l ++ [r]).
Proof.
  intros Hnd Hn. rewrite fmap_app. apply NoDup_app. split; [done|]. split; [|by apply NoDup_singleton].
  intros id Hid ->%list_elem_of_singleton. done.
Qed.

(** A client that gained one node of a room, which tracks it. *)
Lemma router_ok_gain h c c' room r :
  (r < length h)%nat → router_ok h c →
  mwf (cr_assignments c') → mwf (cr_cascadeLinks c') →
  (∀ room' l, mget room' (cr_cascadeLinks c') = Some l →
    l ≠ [] ∧ ∃ p, mget room' (cr_assignments c') = Some p ∧ NoDup (node_id h <$> p :: l)) →
  (∀ room' x, refers c' room' x → refers c room' x ∨ (room' = room ∧ x = r)) →
  router_ok (track room r h) c'.
Proof.
  intros Hlt [_ _ _ O4] H1' H2' H3' H4'. constructor; try done.
  - intros room' l Hl. setoid_rewrite (ids_core h); [|apply core_track_at]. by apply H3'.
  - intros room' x [Hx|[-> ->]]%H4'; [by apply tracks_track, O4|by apply tracks_new].
Qed.

Section strategy.
Context {S : Type} `{PlacementLaws S}.
Abbreviation rworld := (router_world (S:=S)).

Lemma gain_ok (w : World CascadingRouter) c' room r :
  world_ok w → r ∈ active_refs (wd_heap w) (cl_nodes (wd_cluster w)) →
  router_ok (track room r (wd_heap w)) c' →
  (∀ room' x, refers c' room' x → refers (wd_client w) room' x ∨ (room' = room ∧ x = r)) →
  world_ok (mkWorld (track room r (wd_heap w)) (wd_cluster w) (wd_tracker w) c').
Proof.
  intros Hok Hact Hr Hrefs. destruct (active_ref_id w r Hok Hact) as [Hlt Hid].
  apply client_ok; [apply core_track_at|exact Hr| |exact Hok].
  intros id (room' & x & Hx & <-). rewrite (core_id _ _ x (core_track_at room r (wd_heap w))).
  destruct (Hrefs room' x Hx) as [Hold|[-> ->]]; [left; by exists room', x|by right].
Qed.

Lemma attachRoom_ok room region (ws : rworld) :
  world_ok ws.1 → world_ok (attachRoom room region ws).1.1.
Proof.
  destruct ws as [w s]. cbn [fst]. intros Hok. unfold attachRoom.
  pose proof (select_in (wd_heap w) (active_refs (wd_heap w) (cl_nodes (wd_cluster w))) region (Some room) s) as Hsel.
  destruct (select _ _ region (Some room) s) as [[node|] s']; [|done]. specialize (Hsel node eq_refl). cbv zeta.
  destruct (active_ref_id w node Hok Hsel) as [Hlt _].
  pose proof (wo_inv _ Hok) as Hr. cbn [client_inv router_laws] in Hr. set (c := wd_client w) in *.
  destruct (mget room (cr_assignments c)) as [p|] eqn:Ep.
  - destruct (decide _) as [Hne|]; [|done]. set (links := default [] _). destruct (existsb _ links) eqn:Ee; [done|].
    assert (Hn : node_id (wd_heap w) node ∉ node_id (wd_heap w) <$> links).
    { intros (x & Ex & Hx)%list_elem_of_fmap. apply not_true_iff_false in Ee. apply Ee, existsb_exists.
      exists x. split; [by apply list_elem_of_In|]. by apply bool_decide_eq_true. }
    cbn [fst]. apply gain_ok; [done|done| |].
    + apply (router_ok_gain _ c); cbn; [done|done|apply Hr|apply mwf_mset, Hr| |].
      * intros room' l. rewrite mget_mset. destruct (decide (room' = room)) as [->|]; [|apply Hr].
        intros [= <-]. split; [by destruct links|]. exists p. split; [done|]. apply NoDup_cons.
        assert (Hold : NoDup (node_id (wd_heap w) <$> p :: links)).
        { unfold links. destruct (mget room (cr_cascadeLinks c)) as [l|] eqn:El; cbn; [|apply NoDup_singleton].
          destruct (ro_cascade _ _ Hr room l El) as (_ & p' & Hp' & Hnd). rewrite Ep in Hp'. by injection Hp' as <-. }
        rewrite fmap_cons in Hold. apply NoDup_cons in Hold as [Hp Hold]. split; [|by apply NoDup_snoc_id].
        rewrite fmap_app, elem_of_app. cbn. rewrite list_elem_of_singleton. intros [|]; [done|congruence].
      * intros room' x [Hx|(l & Hl & Hx)]; [left; by left|]. cbn in Hl. rewrite mget_mset in Hl.
        destruct (decide (room' = room)) as [->|]; [|left; right; eauto]. injection Hl as <-.
        apply elem_of_app in Hx as [Hx| ->%list_elem_of_singleton]; [|by right]. left. right.
        unfold links in Hx. destruct (mget room (cr_cascadeLinks c)) as [l|]; [eauto|by apply not_elem_of_nil in Hx].
    + intros room' x [Hx|(l & Hl & Hx)]; [left; by left|]. cbn in Hl. rewrite mget_mset in Hl.
      destruct (decide (room' = room)) as [->|]; [|left; right; eauto]. injection Hl as <-.
      apply elem_of_app in Hx as [Hx| ->%list_elem_of_singleton]; [|by right]. left. right.
      unfold links in Hx. fold c. destruct (mget room (cr_cascadeLinks c)) as [l|]; [eauto|by apply not_elem_of_nil in Hx].
  - assert (Hrefs : ∀ room' x, refers (cr_emit (RoomAssigned room node)
        (cr_set_assignments (mset room node (cr_assignments c)) c)) room' x →
        refers c room' x ∨ (room' = room ∧ x = node)).
    { intros room' x [Hx|Hx]; [|left; by right]. cbn in Hx. rewrite mget_mset in Hx.
      destruct (decide (room' = room)) as [->|]; [injection Hx as <-; by right|left; by left]. }
    cbn [fst]. apply gain_ok; [done|done| |done].
    apply (router_ok_gain _ c); [done|done|apply mwf_mset, Hr|apply Hr| |done].
    intros room' l Hl. destruct (ro_cascade _ _ Hr room' l Hl) as (Hne & p & Hp & Hnd). split; [done|]. exists p.
    cbn. rewrite mget_mset. destruct (decide (room' = room)) as [->|]; [congruence|done].
Qed.

Lemma detachRoom_ok room (w : World CascadingRouter) : world_ok w → world_ok (detachRoom room w).1.
Proof.
  intros Hok. unfold detachRoom. destruct (mget room _) as [p|] eqn:Ep; [|done]. cbv zeta.
  set (links := default [] _). cbn [fst]. pose proof (wo_inv _ Hok) as Hr.
  assert (Hcore : heap_core (fold_left (λ h n, untrack room n h) links (untrack room p (wd_heap w))) = heap_core (wd_heap w)).
  { by rewrite untrack_all_core, core_untrack_at. }
  apply client_ok; [exact Hcore| | |done].
  - eapply (router_ok_forget _ _ _ _ room Hcore); [|done|done|exact Hr].
    intros room' x Hne Ht. apply untrack_all_tracks; [done|]. apply tracks_untrack; auto.
  - intros id (room' & x & Hx & <-). rewrite (core_id _ _ x Hcore). left. exists room', x. split; [|done].
    destruct Hx as [Hx|(l & Hl & Hx)]; cbn in *.
    + left. rewrite mget_mdel in Hx. by destruct (decide _).
    + right. exists l. rewrite mget_mdel in Hl. by destruct (decide _).
Qed.

(** * Every run *)

Inductive router_step : rworld → rworld → Prop :=
| rs_cluster w w' s : sfu_step w w' → router_step (w, s) (w', s)
| rs_attach room region ws : router_step ws (attachRoom room region ws).1
| rs_detach room w s : router_step (w, s) ((detachRoom room w).1, s).

Lemma router_steps_ok ws ws' : rtc router_step ws ws' → world_ok ws.1 → world_ok ws'.1.
Proof.
  induction 1 as [|ws1 ws2 ws3 Hs _ IH]; [done|]. intros Hok. apply IH. destruct Hs; cbn [fst] in *.
  - by eapply sfu_step_ok.
  - by apply attachRoom_ok.
  - by apply detachRoom_ok.
Qed.
End strategy.

Definition new_router_world {S} (failureThreshold recoveryThreshold : option Z) (s : S) : router_world (S:=S) :=
  (mkWorld [] (newCluster failureThreshold recoveryThreshold) (newTracker [] []) newRouter, s).

Lemma new_router_ok {S} f r (s : S) : world_ok (new_router_world f r s).1.
Proof.
  apply new_world_ok.
  - intros id (room & x & [Hx|(l & Hl & _)] & _); discriminate.
  - constructor; try by constructor; try done. intros room x [Hx|(l & Hl & _)]; discriminate.
Qed.


(** Two nodes in two regions, a room on the first cascaded to the second; the second
    fails. *)
Definition example_router : router_world (S:=LeastLoadedStrategy) :=
  let add id region ws :=
    (addNode (length (wd_heap ws.1)) (wd_set_heap (wd_heap ws.1 ++ [newSfuNode id region None]) ws.1), ws.2) in
  let ws := add (js "b") (js "us") (add (js "a") (js "eu") (new_router_world None None LeastLoaded)) in
  (attachRoom (js "room") (Some (js "us")) (attachRoom (js "room") (Some (js "eu")) ws).1).1.

Example example_cascade :
  (getAssignment (js "room") (wd_client example_router.1), getCascadeNodes (js "room") (wd_client example_router.1))
    = (Some 0%nat, [1%nat]).
Proof. vm_compute. reflexivity. Qed.

