(* ===== verification/SfuBridge.v ===== *)
(** The bridge from a cascading router to the media plane of a cluster
    (packages/sfu/src/SfuBridge.ts).

    The media plane is behind an interface; its methods may fail, at once or later,
    which the bridge reports.  Nodes are shared objects (Sfu.v): events name them. *)

From S2P Require Import Prelude JsMap Sfu CascadingRouter CascadeTree.

(** [SfuMediaInterface]; the boolean says that the call did not fail. *)
Class SfuMedia (M : Type) := {
  media_addRoute : jsstr → jsstr → M → M * bool;
  media_removeRoute : jsstr → M → M * bool;
  media_removeCascadeRoute : jsstr → jsstr → M → M * bool;
  media_getRoutes : jsstr → M → list jsstr;
}.

(** What calls that do not fail do to the routes, in the order they were added. *)
Class SfuMediaLaws (M : Type) `{SfuMedia M} := {
  addRoute_same room id (m : M) :
    (media_addRoute room id m).2 = true →
    media_getRoutes room (media_addRoute room id m).1 = sadd id (media_getRoutes room m);
  addRoute_other room room' id (m : M) :
    room' ≠ room → media_getRoutes room' (media_addRoute room id m).1 = media_getRoutes room' m;
  removeRoute_same room (m : M) :
    (media_removeRoute room m).2 = true → media_getRoutes room (media_removeRoute room m).1 = [];
  removeRoute_other room room' (m : M) :
    room' ≠ room → media_getRoutes room' (media_removeRoute room m).1 = media_getRoutes room' m;
  removeCascadeRoute_same room id (m : M) :
    (media_removeCascadeRoute room id m).2 = true →
    media_getRoutes room (media_removeCascadeRoute room id m).1 = sdel id (media_getRoutes room m);
  removeCascadeRoute_other room room' id (m : M) :
    room' ≠ room → media_getRoutes room' (media_removeCascadeRoute room id m).1 = media_getRoutes room' m;
}.

Section bridge.
Context {M : Type} `{SfuMedia M}.

(** [sb_errors]: the rooms of the [RouteError] events. *)
Record SfuBridge := mkSfuBridge {
  sb_attached : bool;
  sb_assignedRooms : list jsstr;
  sb_cascadeRoutes : jmap jsstr (list jsstr);
  sb_media : M;
  sb_errors : list jsstr;
}.
Implicit Types (b : SfuBridge).

Definition newSfuBridge (m : M) : SfuBridge := mkSfuBridge false [] [] m [].

Definition sb_set_rooms (rooms : list jsstr) (routes : jmap jsstr (list jsstr)) b : SfuBridge :=
  mkSfuBridge (sb_attached b) rooms routes (sb_media b) (sb_errors b).

(** [_run]. *)
Definition sb_run (roomId : jsstr) (f : M → M * bool) b : SfuBridge :=
  let '(m, ok) := f (sb_media b) in
  mkSfuBridge (sb_attached b) (sb_assignedRooms b) (sb_cascadeRoutes b) m
    (if ok then sb_errors b else sb_errors b ++ [roomId]).

(** The listeners; nodes come with their ids. *)
Definition onRoomAssigned (roomId nodeId : jsstr) b : SfuBridge :=
  sb_run roomId (media_addRoute roomId nodeId)
    (sb_set_rooms (sadd roomId (sb_assignedRooms b)) (sb_cascadeRoutes b) b).

Definition onCascadeCreated (roomId toId : jsstr) b : SfuBridge :=
  let nodeSet := sadd toId (default [] (mget roomId (sb_cascadeRoutes b))) in
  sb_run roomId (media_addRoute roomId toId)
    (sb_set_rooms (sb_assignedRooms b) (mset roomId nodeSet (sb_cascadeRoutes b)) b).

Definition onRoomDetached (roomId : jsstr) b : SfuBridge :=
  sb_run roomId (media_removeRoute roomId)
    (sb_set_rooms (sdel roomId (sb_assignedRooms b)) (mdel roomId (sb_cascadeRoutes b)) b).

Definition onCascadeDropped (roomId nodeId : jsstr) b : SfuBridge :=
  let routes := match mget roomId (sb_cascadeRoutes b) with
                | Some nodeSet =>
                    let nodeSet' := sdel nodeId nodeSet in
                    if decide (nodeSet' = []) then mdel roomId (sb_cascadeRoutes b)
                    else mset roomId nodeSet' (sb_cascadeRoutes b)
                | None => sb_cascadeRoutes b
                end in
  sb_run roomId (media_removeCascadeRoute roomId nodeId) (sb_set_rooms (sb_assignedRooms b) routes b).

(** What a bridge does on an event of its router. *)
Definition sb_event (nid : nat → jsstr) b (e : CascadingRouterEvent) : SfuBridge :=
  if sb_attached b then
    match e with
    | RoomAssigned roomId node => onRoomAssigned roomId (nid node) b
    | CascadeCreated roomId _ toNode => onCascadeCreated roomId (nid toNode) b
    | RoomDetached roomId => onRoomDetached roomId b
    | CascadeDropped roomId node => onCascadeDropped roomId (nid node) b
    end
  else b.
Definition sb_events (nid : nat → jsstr) (es : list CascadingRouterEvent) b : SfuBridge := fold_left (sb_event nid) es b.

(** [attach] and [detach]. *)
Definition sb_attach b : SfuBridge :=
  mkSfuBridge true (sb_assignedRooms b) (sb_cascadeRoutes b) (sb_media b) (sb_errors b).

Definition remove_assigned b (roomId : jsstr) : SfuBridge := sb_run roomId (media_removeRoute roomId) b.
Definition remove_cascades b (x : jsstr * list jsstr) : SfuBridge :=
  let '(roomId, nodeIds) := x in
  if decide (roomId ∈ sb_assignedRooms b) then b
  else fold_left (λ b nodeId, sb_run roomId (media_removeCascadeRoute roomId nodeId) b) nodeIds b.
Definition sb_detach b : SfuBridge :=
  if sb_attached b then
    let b0 := mkSfuBridge false (sb_assignedRooms b) (sb_cascadeRoutes b) (sb_media b) (sb_errors b) in
    let b1 := fold_left remove_assigned (sb_assignedRooms b0) b0 in
    let b2 := fold_left remove_cascades (sb_cascadeRoutes b1) b1 in
    sb_set_rooms [] [] b2
  else b.
End bridge.
Arguments SfuBridge : clear implicits.

(** The reference media plane is one; it fails for no call. *)
#[export] Instance reference_media : SfuMedia ReferenceSfuMedia := {
  media_addRoute room id m := (addRoute room id m, true);
  media_removeRoute room m := (removeRoute room m, true);
  media_removeCascadeRoute room id m := (removeCascadeRoute room id m, true);
  media_getRoutes := getRoutes;
}.

#[export] Instance reference_media_laws : SfuMediaLaws ReferenceSfuMedia.
Proof.
  constructor; cbn; unfold addRoute, removeRoute, removeCascadeRoute, getRoutes; intros *.
  - intros _. cbv zeta. destruct (shas id _) eqn:E; cbn; [|by rewrite mget_mset_eq].
    apply shas_true in E. unfold sadd. by rewrite decide_True.
  - intros Hne. cbv zeta. destruct (shas id _); [done|]. cbn. by rewrite mget_mset_ne.
  - intros _. destruct (mget room (md_routes m)) eqn:E; cbn; [by rewrite mget_mdel_eq|by rewrite E].
  - intros Hne. destruct (mget room (md_routes m)); [|done]. cbn. by rewrite mget_mdel_ne.
  - intros _. destruct (mget room (md_routes m)) as [set|] eqn:E; [|by rewrite E]. destruct (shas id set) eqn:Es.
    + cbv zeta. cbn. case_decide as Hs; [rewrite mget_mdel_eq; by rewrite Hs|by rewrite mget_mset_eq].
    + rewrite E. cbn. apply shas_false in Es. by rewrite sdel_notin.
  - intros Hne. destruct (mget room (md_routes m)) as [set|]; [|done]. destruct (shas id set); [|done]. cbv zeta. cbn.
    case_decide; [by rewrite mget_mdel_ne|by rewrite mget_mset_ne].
Qed.

(** * The router and its bridge *)

(** The events between two states of a router. *)
Definition new_events (c c' : CascadingRouter) : list CascadingRouterEvent := drop (length (cr_out c)) (cr_out c').

Section world.
Context {M : Type} `{SfuMedia M}.
Abbreviation bridged := (CascadingRouter * SfuBridge M)%type.

(** A router that moved from [c] to [c'], and its bridge. *)
Definition tell (h : list SfuNode) (c c' : CascadingRouter) (b : SfuBridge M) : bridged :=
  (c', sb_events (node_id h) (new_events c c') b).

#[export] Instance bridged_client : FailureClient bridged := λ r _ h cb,
  let '(h', c') := handleNodeGone r h cb.1 in (h', tell h' cb.1 c' cb.2).

Definition on_router {A} (f : World CascadingRouter → World CascadingRouter * A) (w : World bridged) : World bridged * A :=
  let '(w', a) := f (mkWorld (wd_heap w) (wd_cluster w) (wd_tracker w) (wd_client w).1) in
  (mkWorld (wd_heap w') (wd_cluster w') (wd_tracker w') (tell (wd_heap w') (wd_client w).1 (wd_client w') (wd_client w).2), a).
End world.
