(* ===== verification/BridgeTheorems.v ===== *)
(** The routes of the media plane follow the rooms of the cascading router. *)

From S2P Require Import Prelude JsMap Sfu SfuTheorems Placement CascadingRouter RouterTheorems CascadeTree SfuBridge.

Implicit Types (c : CascadingRouter) (h : list SfuNode).

(** * What a router's events say of a room *)

(** The id of its primary and those of its cascades. *)
Definition room_view : Type := option jsstr * list jsstr.
Definition view_ids (v : room_view) : list jsstr := option_list v.1 ++ v.2.

(** An event that cannot follow is [None]. *)
Definition view_step (nid : nat → jsstr) (room : jsstr) (v : room_view) (e : CascadingRouterEvent) : option room_view :=
  match e with
  | RoomAssigned room' n =>
      if decide (room = room') then if decide (v = (None, [])) then Some (Some (nid n), []) else None else Some v
  | CascadeCreated room' _ n =>
      if decide (room = room') then if decide (v.1 = Some (nid n)) then None else Some (v.1, sadd (nid n) v.2) else Some v
  | RoomDetached room' => if decide (room = room') then Some (None, []) else Some v
  | CascadeDropped room' n =>
      if decide (room = room') then if decide (v.1 = Some (nid n)) then None else Some (v.1, sdel (nid n) v.2) else Some v
  end.
Definition view_steps nid room (es : list CascadingRouterEvent) (v : option room_view) : option room_view :=
  fold_left (λ v e, v ← v; view_step nid room v e) es v.

Definition view_of (nid : nat → jsstr) c (room : jsstr) : room_view :=
  (nid <$> mget room (cr_assignments c), nid <$> default [] (mget room (cr_cascadeLinks c))).

(** The router tells what it does. *)
Definition tells nid c c' : Prop :=
  ∃ es, cr_out c' = cr_out c ++ es ∧ ∀ room, view_steps nid room es (Some (view_of nid c room)) = Some (view_of nid c' room).

Lemma view_steps_app nid room es es' v : view_steps nid room (es ++ es') v = view_steps nid room es' (view_steps nid room es v).
Proof. apply fold_left_app. Qed.

Lemma tells_refl nid c : tells nid c c.
Proof. exists []. by rewrite app_nil_r. Qed.
Lemma tells_trans nid c1 c2 c3 : tells nid c1 c2 → tells nid c2 c3 → tells nid c1 c3.
Proof.
  intros (es & E1 & H1) (es' & E2 & H2). exists (es ++ es'). split; [by rewrite E2, E1, app_assoc|].
  intros room. by rewrite view_steps_app, H1.
Qed.

Lemma view_step_NoDup nid room v e v' : view_step nid room v e = Some v' → NoDup (view_ids v) → NoDup (view_ids v').
Proof.
  destruct v as [a l]. unfold view_ids. destruct e; cbn; repeat case_decide; intros [= <-] Hnd; cbn; try done; try constructor.
  - by apply not_elem_of_nil.
  - constructor.
  - destruct a as [a|]; cbn in *; [|by apply NoDup_sadd]. apply NoDup_cons in Hnd as [Ha Hnd]. apply NoDup_cons.
    split; [|by apply NoDup_sadd]. rewrite elem_of_sadd. intros [->|]; done.
  - destruct a as [a|]; cbn in *; [|by apply NoDup_sdel]. apply NoDup_cons in Hnd as [Ha Hnd]. apply NoDup_cons.
    split; [|by apply NoDup_sdel]. rewrite elem_of_sdel. by intros [].
Qed.
Lemma view_steps_NoDup nid room es v v' : view_steps nid room es (Some v) = Some v' → NoDup (view_ids v) → NoDup (view_ids v').
Proof.
  revert v. induction es as [|e es IH]; intros v; [by intros [= ->]|]. unfold view_steps in *. cbn.
  destruct (view_step nid room v e) as [v1|] eqn:E; cbn.
  - intros Hs Hnd. eapply IH; [done|]. by eapply view_step_NoDup.
  - intros Hs. exfalso. clear -Hs. induction es; [done|]. by apply IHes.
Qed.

Definition views_ok nid c : Prop := ∀ room, NoDup (view_ids (view_of nid c room)).
Lemma tells_views nid c c' : tells nid c c' → views_ok nid c → views_ok nid c'.
Proof. intros (es & _ & H) Hv room. by eapply view_steps_NoDup. Qed.

Lemma router_views h c : router_ok h c → views_ok (node_id h) c.
Proof.
  intros [_ _ Hc _] room. unfold view_ids, view_of. cbn. destruct (mget room (cr_cascadeLinks c)) as [l|] eqn:E; cbn.
  - destruct (Hc room l E) as (_ & p & -> & Hnd). done.
  - rewrite app_nil_r. destruct (mget room (cr_assignments c)); cbn; repeat constructor. by apply not_elem_of_nil.
Qed.

(** Events of another room. *)
Definition event_room (e : CascadingRouterEvent) : jsstr :=
  match e with RoomAssigned r _ | CascadeCreated r _ _ | RoomDetached r | CascadeDropped r _ => r end.
Lemma view_other nid room e v : event_room e ≠ room → view_step nid room v e = Some v.
Proof. destruct e; cbn; intros Hne; by rewrite decide_False. Qed.
Lemma views_other nid room es v : Forall (λ e, event_room e ≠ room) es → view_steps nid room es (Some v) = Some v.
Proof.
  intros Hes. induction Hes as [|e es He _ IH]; [done|]. unfold view_steps in *. cbn [fold_left mbind option_bind]. by rewrite view_other.
Qed.

(** A move that concerns one room. *)
Lemma tells_one nid room es c c' :
  cr_out c' = cr_out c ++ es → Forall (λ e, event_room e = room) es →
  (∀ room', room' ≠ room → view_of nid c' room' = view_of nid c room') →
  view_steps nid room es (Some (view_of nid c room)) = Some (view_of nid c' room) →
  tells nid c c'.
Proof.
  intros Ho Hes Hother Hroom. exists es. split; [done|]. intros room'. destruct (decide (room' = room)) as [->|Hne]; [done|].
  rewrite Hother by done. apply views_other. eapply Forall_impl; [done|]. cbn. congruence.
Qed.

(** * A lost node *)

Lemma emits_out (ns : list nat) room c :
  cr_out (fold_left (λ c n, cr_emit (CascadeDropped room n) c) ns c) = cr_out c ++ (CascadeDropped room <$> ns).
Proof.
  revert c. induction ns as [|n ns IH]; intros c; [by rewrite app_nil_r|]. cbn [fold_left]. rewrite IH. cbn. by rewrite <- app_assoc.
Qed.
Lemma drops_view nid room ns (v : room_view) :
  (∀ n, n ∈ ns → v.1 ≠ Some (nid n)) →
  ∃ l, view_steps nid room (CascadeDropped room <$> ns) (Some v) = Some (v.1, l).
Proof.
  revert v. induction ns as [|n ns IH]; intros [a l] Hn; [by exists l|]. unfold view_steps in *. cbn [fmap list_fmap fold_left mbind option_bind view_step].
  rewrite decide_True by done. rewrite decide_False by (apply (Hn n); by left).
  apply (IH (a, sdel (nid n) l)). intros m Hm. apply (Hn m). by right.
Qed.

Section gone.
Context (r : nat) (nid : nat → jsstr).

Lemma primary_tells h c room x :
  (∀ n, node_id h n = nid n) → views_ok nid c → tells nid c (clear_primary r (h, c) (room, x)).2.
Proof.
  intros Hid Hv. unfold clear_primary. case_decide; [|apply tells_refl]. cbv zeta. cbn [snd].
  set (c1 := cr_set_assignments _ c). set (cascades := default [] (mget room (cr_cascadeLinks c1))).
  destruct (emits_same cascades room c1) as [Ea El]. pose proof (emits_out cascades room c1) as Eo.
  set (c2 := fold_left _ cascades c1) in *. clearbody c2.
  apply (tells_one _ room ((CascadeDropped room <$> cascades) ++ [RoomDetached room])).
  - change (cr_out c2 ++ [RoomDetached room] = cr_out c ++ (CascadeDropped room <$> cascades) ++ [RoomDetached room]). by rewrite Eo, app_assoc.
  - apply Forall_app. split; [apply Forall_fmap, Forall_forall; done|by repeat constructor].
  - intros room' Hne. unfold view_of. cbn. rewrite Ea, El. cbn. by rewrite !mget_mdel_ne.
  - rewrite view_steps_app.
    destruct (drops_view nid room cascades (view_of nid c room)) as [l ->].
    { intros n Hn Ha. specialize (Hv room). unfold view_ids in Hv. rewrite Ha in Hv. cbn -[view_of] in Hv. apply NoDup_cons in Hv as [Hv _].
      apply Hv. apply list_elem_of_fmap. eauto. }
    unfold view_steps. cbn. rewrite decide_True by done. unfold view_of. cbn. rewrite Ea, El. cbn. by rewrite !mget_mdel_eq.
Qed.

Lemma primary_core h c x : heap_core (clear_primary r (h, c) x).1 = heap_core h.
Proof.
  destruct x as [room n]. unfold clear_primary. case_decide; [|done]. cbv zeta. cbn [fst]. by rewrite untrack_all_core, core_untrack_at.
Qed.

Lemma primaries_tell rem h c :
  (∀ n, node_id h n = nid n) → views_ok nid c → tells nid c (fold_left (clear_primary r) rem (h, c)).2.
Proof.
  revert h c. induction rem as [|[room x] rem IH]; intros h c Hid Hv; [apply tells_refl|]. cbn [fold_left].
  pose proof (primary_tells h c room x Hid Hv) as Ht. pose proof (primary_core h c (room, x)) as Hcore.
  destruct (clear_primary r (h, c) (room, x)) as [h1 c1]. cbn [fst snd] in *. eapply tells_trans; [done|].
  apply IH; [intros n; by rewrite (core_id _ _ n Hcore)|by eapply tells_views].
Qed.

Lemma filter_ids h (l : list nat) :
  (∀ n, node_id h n = nid n) → filter (λ y, nid r ≠ y) (nid <$> l) = nid <$> filter (λ n, node_id h n ≠ node_id h r) l.
Proof.
  intros Hid. induction l as [|n l IH]; [done|]. rewrite fmap_cons, !filter_cons, IH. pose proof (Hid n). pose proof (Hid r).
  repeat case_decide; congruence || done.
Qed.

Lemma cascade_tells h c room l :
  (∀ n, node_id h n = nid n) → views_ok nid c → mget room (cr_cascadeLinks c) = Some l →
  (∀ x, mget room (cr_assignments c) = Some x → nid x ≠ nid r) →
  let c' := (clear_cascade r (h, c) (room, l)).2 in
  tells nid c c' ∧ cr_assignments c' = cr_assignments c
  ∧ ∀ room', room' ≠ room → mget room' (cr_cascadeLinks c') = mget room' (cr_cascadeLinks c).
Proof.
  intros Hid Hv Hl Hp. unfold clear_cascade. cbv zeta. set (filtered := filter _ l).
  case_decide; [split_and!; [apply tells_refl|done..]|]. cbn [snd]. set (c1 := cr_emit _ c). set (c' := match filtered with [] => _ | _ => _ end).
  assert (cr_assignments c' = cr_assignments c ∧ cr_out c' = cr_out c ++ [CascadeDropped room r]
    ∧ (∀ room', room' ≠ room → mget room' (cr_cascadeLinks c') = mget room' (cr_cascadeLinks c))
    ∧ default [] (mget room (cr_cascadeLinks c')) = filtered) as (Ea & Eo & Hother & Hroom).
  { unfold c'. destruct filtered; cbn; split_and!; try done.
    - intros room' Hne. by rewrite mget_mdel_ne.
    - by rewrite mget_mdel_eq.
    - intros room' Hne. by rewrite mget_mset_ne.
    - by rewrite mget_mset_eq. }
  split_and!; [|done..]. apply (tells_one _ room [CascadeDropped room r]); [done|by repeat constructor| |].
  - intros room' Hne. unfold view_of. by rewrite Ea, Hother.
  - unfold view_steps. cbn [fold_left mbind option_bind view_step]. rewrite decide_True by done. rewrite decide_False.
    + unfold view_of. cbn [fst snd]. rewrite Ea, Hroom, Hl. cbn. rewrite sdel_filter. do 2 f_equal. unfold filtered.
      by apply filter_ids.
    + unfold view_of. cbn. destruct (mget room (cr_assignments c)) eqn:E; [|done]. cbn. intros [= Heq]. by eapply Hp.
Qed.

Lemma cascade_core h c x : heap_core (clear_cascade r (h, c) x).1 = heap_core h.
Proof. destruct x as [room l]. unfold clear_cascade. cbv zeta. case_decide; [done|]. cbn [fst]. apply core_untrack_at. Qed.

Lemma cascades_tell rem h c :
  (∀ n, node_id h n = nid n) → views_ok nid c → NoDup rem.*1 →
  (∀ room l, (room, l) ∈ rem → mget room (cr_cascadeLinks c) = Some l) →
  (∀ room x, mget room (cr_assignments c) = Some x → nid x ≠ nid r) →
  tells nid c (fold_left (clear_cascade r) rem (h, c)).2.
Proof.
  revert h c. induction rem as [|[room l] rem IH]; intros h c Hid Hv Hnd Hin Hp; [apply tells_refl|]. cbn [fold_left].
  apply NoDup_cons in Hnd as [Hr Hnd].
  destruct (cascade_tells h c room l Hid Hv (Hin _ _ ltac:(by left)) (Hp room)) as (Ht & Ea & Hl).
  pose proof (cascade_core h c (room, l)) as Hcore. destruct (clear_cascade r (h, c) (room, l)) as [h1 c1]. cbn [fst snd] in *.
  eapply tells_trans; [done|]. apply IH; [intros n; by rewrite (core_id _ _ n Hcore)|by eapply tells_views|done| |by rewrite Ea].
  intros room' l' Hin'. rewrite Hl; [apply Hin; by right|]. intros ->. apply Hr. by apply (list_elem_of_fmap_2 fst) in Hin'.
Qed.
End gone.

Lemma gone_tells r h c : router_ok h c → tells (node_id h) c (handleNodeGone r h c).2.
Proof.
  intros Hok. unfold handleNodeGone. cbv zeta.
  assert (Hc0 : clearing h c h c) by by constructor.
  pose proof (clear_primaries r h c (cr_assignments c) h c Hc0 (ro_assignments _ _ Hok) ltac:(by right)) as H1.
  pose proof (primaries_tell r (node_id h) (cr_assignments c) h c ltac:(done) (router_views _ _ Hok)) as Ht.
  destruct (fold_left (clear_primary r) (cr_assignments c) (h, c)) as [h1 c1]. destruct H1 as [[Hcore Hok1 _] Hp].
  cbn [snd] in *. eapply tells_trans; [done|]. apply cascades_tell; [|by eapply tells_views, router_views| | |done].
  - intros n. by apply core_id.
  - apply (ro_links _ _ Hok1).
  - intros room l. apply elem_mget, (ro_links _ _ Hok1).
Qed.

(** * What the bridge makes of the events *)

Section media.
Context {M : Type} `{SfuMediaLaws M}.
Abbreviation bridged := (CascadingRouter * SfuBridge M)%type.
Implicit Types (b : SfuBridge M).

(** The bridge shows a room as the router has it, unless a call for it failed. *)
Record shows b (room : jsstr) (v : room_view) : Prop := {
  sh_assigned : room ∈ sb_assignedRooms b ↔ is_Some v.1;
  sh_cascades : default [] (mget room (sb_cascadeRoutes b)) = v.2;
  sh_routes : room ∉ sb_errors b → media_getRoutes room (sb_media b) = view_ids v;
}.

(** A call of the media plane for one room, of which [set] is what it does there. *)
Definition call_ok (room : jsstr) (set : list jsstr → list jsstr) (f : M → M * bool) : Prop :=
  ∀ m, ((f m).2 = true → media_getRoutes room (f m).1 = set (media_getRoutes room m))
       ∧ ∀ room', room' ≠ room → media_getRoutes room' (f m).1 = media_getRoutes room' m.

Lemma call_add room id : call_ok room (sadd id) (media_addRoute room id).
Proof. intros m. split; [apply addRoute_same|intros; by apply addRoute_other]. Qed.
Lemma call_remove room : call_ok room (λ _, []) (media_removeRoute room).
Proof. intros m. split; [apply removeRoute_same|intros; by apply removeRoute_other]. Qed.
Lemma call_remove_cascade room id : call_ok room (sdel id) (media_removeCascadeRoute room id).
Proof. intros m. split; [apply removeCascadeRoute_same|intros; by apply removeCascadeRoute_other]. Qed.

Lemma run_routes room set f b : call_ok room set f →
  let b' := sb_run room f b in
  ((room ∉ sb_errors b') → (room ∉ sb_errors b) ∧ media_getRoutes room (sb_media b') = set (media_getRoutes room (sb_media b)))
  ∧ (∀ room', room' ≠ room → (room' ∈ sb_errors b' ↔ room' ∈ sb_errors b)
       ∧ media_getRoutes room' (sb_media b') = media_getRoutes room' (sb_media b))
  ∧ sb_assignedRooms b' = sb_assignedRooms b ∧ sb_cascadeRoutes b' = sb_cascadeRoutes b ∧ sb_attached b' = sb_attached b.
Proof.
  intros Hf. unfold sb_run. destruct (Hf (sb_media b)) as [H1 H2]. destruct (f (sb_media b)) as [m ok]. cbn in *. split_and!; [| |done..].
  - destruct ok; [by auto|]. rewrite elem_of_app, list_elem_of_singleton. tauto.
  - intros room' Hne. split; [|by apply H2]. destruct ok; [done|]. rewrite elem_of_app, list_elem_of_singleton. naive_solver.
Qed.

(** A listener files the room and makes one call for it. *)
Lemma listener_shows room set f rooms routes b v v' :
  call_ok room set f →
  (room ∈ rooms ↔ is_Some v'.1) → default [] (mget room routes) = v'.2 → set (view_ids v) = view_ids v' →
  shows b room v → shows (sb_run room f (sb_set_rooms rooms routes b)) room v'.
Proof.
  intros Hf Hr Hc Hs [_ _ S3]. destruct (run_routes room set f (sb_set_rooms rooms routes b) Hf) as (R1 & _ & R3 & R4 & _).
  split; [by rewrite R3|by rewrite R4|]. intros [Hn E]%R1. rewrite E. cbn. rewrite S3 by done. done.
Qed.
Lemma listener_other room set f rooms routes b room' v :
  call_ok room set f → room' ≠ room →
  (room' ∈ rooms ↔ room' ∈ sb_assignedRooms b) → mget room' routes = mget room' (sb_cascadeRoutes b) →
  shows b room' v → shows (sb_run room f (sb_set_rooms rooms routes b)) room' v.
Proof.
  intros Hf Hne Hr Hc [S1 S2 S3]. destruct (run_routes room set f (sb_set_rooms rooms routes b) Hf) as (_ & R2 & R3 & R4 & _).
  destruct (R2 room' Hne) as [E1 E2]. split; [by rewrite R3, <- S1|by rewrite R4, <- S2; cbn; rewrite Hc|].
  rewrite E1, E2. exact S3.
Qed.

Lemma attached_event nid b e : sb_attached b = true → sb_attached (sb_event nid b e) = true.
Proof. intros Hb. unfold sb_event, onRoomAssigned, onCascadeCreated, onRoomDetached, onCascadeDropped, sb_run. rewrite Hb. destruct e; by case_match. Qed.

Lemma dropped_routes room id (routes : jmap jsstr (list jsstr)) (set' := match mget room routes with
    | Some s => if decide (sdel id s = []) then mdel room routes else mset room (sdel id s) routes
    | None => routes
    end) room' :
  default [] (mget room' set') = if decide (room' = room) then sdel id (default [] (mget room' routes)) else default [] (mget room' routes).
Proof.
  unfold set'. case_decide as Hr; [subst room'|].
  - destruct (mget room routes) as [s|] eqn:E; cbn; [|by rewrite E]. case_decide as Hs; [by rewrite mget_mdel_eq, Hs|by rewrite mget_mset_eq].
  - destruct (mget room routes) as [s|]; [|done]. case_decide; [by rewrite mget_mdel_ne|by rewrite mget_mset_ne].
Qed.

Lemma view_sadd (a : option jsstr) id l : a ≠ Some id → sadd id (view_ids (a, l)) = view_ids (a, sadd id l).
Proof.
  unfold view_ids. intros Ha. destruct a as [a|]; [|done]. cbn. unfold sadd.
  destruct (decide (id ∈ l)) as [Hl|Hl]; [rewrite decide_True by (by right); done|].
  rewrite decide_False; [done|]. intros [->|]%elem_of_cons; done.
Qed.
Lemma view_sdel (a : option jsstr) id l : a ≠ Some id → sdel id (view_ids (a, l)) = view_ids (a, sdel id l).
Proof. unfold view_ids. intros Ha. destruct a as [a|]; [|done]. cbn. rewrite decide_False; congruence. Qed.

Lemma event_shows nid b e room v v' :
  sb_attached b = true → view_step nid room v e = Some v' → shows b room v → shows (sb_event nid b e) room v'.
Proof.
  intros Hb Hv Hs. unfold sb_event. rewrite Hb. destruct (decide (event_room e = room)) as [<-|Hne].
  - destruct e as [room n|room p n|room|room n]; cbn in Hv, Hs |- *; (case_decide as Hroom; [clear Hroom|done]).
    + case_decide as Hc; [|done]. injection Hv as <-. subst v. eapply listener_shows; [apply call_add| | |  |exact Hs].
      * rewrite elem_of_sadd. split; [by eexists|by left].
      * by destruct Hs.
      * done.
    + case_decide as Hc; [done|]. injection Hv as <-. destruct v as [a l].
      eapply listener_shows; [apply call_add| | | |exact Hs]; cbn.
      * by destruct Hs.
      * rewrite mget_mset_eq. cbn. by rewrite (sh_cascades _ _ _ Hs).
      * by apply view_sadd.
    + injection Hv as <-. eapply listener_shows; [apply call_remove| | | |exact Hs]; cbn.
      * rewrite elem_of_sdel. split; [by intros []|by intros []].
      * by rewrite mget_mdel_eq.
      * done.
    + case_decide as Hc; [done|]. injection Hv as <-. destruct v as [a l].
      eapply listener_shows; [apply call_remove_cascade| | | |exact Hs]; cbn.
      * by destruct Hs.
      * rewrite dropped_routes, decide_True by done. by rewrite (sh_cascades _ _ _ Hs).
      * by apply view_sdel.
  - rewrite (view_other nid room e v Hne) in Hv. injection Hv as <-.
    destruct e as [room' n|room' p n|room'|room' n]; cbn in Hne |- *; pose proof Hs as [S1 S2 S3].
    + eapply listener_other; [apply call_add|done| |done|done]. rewrite elem_of_sadd. naive_solver.
    + eapply listener_other; [apply call_add|done|done| |done]. by rewrite mget_mset_ne.
    + eapply listener_other; [apply call_remove|done| | |done]; [rewrite elem_of_sdel; naive_solver|by rewrite mget_mdel_ne].
    + unfold onCascadeDropped. cbv zeta. set (routes := match mget room' (sb_cascadeRoutes b) with Some _ => _ | None => _ end).
      pose proof (dropped_routes room' (nid n) (sb_cascadeRoutes b) room) as Hd. cbv zeta in Hd. fold routes in Hd. rewrite decide_False in Hd by done.
      destruct (run_routes room' (sdel (nid n)) (media_removeCascadeRoute room' (nid n)) (sb_set_rooms (sb_assignedRooms b) routes b) (call_remove_cascade _ _)) as (_ & R2 & R3 & R4 & _).
      destruct (R2 room ltac:(done)) as [E1 E2]. split; [by rewrite R3|rewrite R4; cbn; by rewrite Hd|by rewrite E1, E2].
Qed.

Lemma events_show nid es b room v v' :
  sb_attached b = true → view_steps nid room es (Some v) = Some v' → shows b room v → shows (sb_events nid es b) room v'.
Proof.
  revert b v. induction es as [|e es IH]; intros b v Hb; [by intros [= ->]|]. unfold view_steps, sb_events in *. cbn.
  destruct (view_step nid room v e) as [v1|] eqn:E; cbn.
  - intros Hs Hsh. eapply IH; [by apply attached_event|done|]. by eapply event_shows.
  - intros Hs. exfalso. clear -Hs. induction es; [done|]. by apply IHes.
Qed.
Lemma attached_events nid es b : sb_attached b = true → sb_attached (sb_events nid es b) = true.
Proof. revert b. induction es as [|e es IH]; intros b Hb; [done|]. by apply IH, attached_event. Qed.

(** * The router and its bridge as one client *)

Definition follows h c b : Prop := sb_attached b = true ∧ ∀ room, shows b room (view_of (node_id h) c room).

Lemma tell_follows h c c' b : tells (node_id h) c c' → follows h c b → follows h (tell h c c' b).1 (tell h c c' b).2.
Proof.
  intros (es & Ho & Hv) [Hb Hs]. unfold tell, new_events. cbn [fst snd]. rewrite Ho, drop_app_length.
  split; [by apply attached_events|]. intros room. by eapply events_show.
Qed.
Lemma follows_heap h h' c b :
  (∀ room x, refers c room x → node_id h' x = node_id h x) → follows h c b → follows h' c b.
Proof.
  intros Hid [Hb Hs]. split; [done|]. intros room. replace (view_of (node_id h') c room) with (view_of (node_id h) c room); [done|].
  unfold view_of. f_equal.
  - destruct (mget room (cr_assignments c)) as [x|] eqn:E; [|done]. cbn. f_equal. symmetry. apply (Hid room). by left.
  - destruct (mget room (cr_cascadeLinks c)) as [l|] eqn:E; [|done]. cbn. apply list_fmap_ext. intros i x Hx. symmetry.
    apply (Hid room). right. exists l. split; [done|]. by eapply list_elem_of_lookup_2.
Qed.

Lemma refers_snoc h n c room x : router_ok h c → refers c room x → node_id (h ++ [n]) x = node_id h x.
Proof.
  intros Hok Hr. destruct (ro_tracked _ _ Hok room x Hr) as (n' & Hn & _). unfold node_id.
  by rewrite lookup_app_l by (by eapply lookup_lt_Some).
Qed.

Definition bridged_ok h (cb : bridged) : Prop := router_ok h cb.1 ∧ follows h cb.1 cb.2.

#[export, refine] Instance bridged_laws : FailureClientLaws bridged := {
  mentions h cb := router_mentions h cb.1;
  client_inv := bridged_ok;
}.
Proof.
  - intros h n cb id [Hok _]. by apply (@mentions_snoc _ _ router_laws).
  - intros h r f cb id Hf. by apply (@mentions_alter _ _ router_laws).
  - intros h n cb [Hok Hf]. split; [by apply (@client_inv_snoc _ _ router_laws)|]. eapply follows_heap; [|done].
    intros room x. by apply refers_snoc.
  - intros h r f cb Hf [Hok Hfo]. split; [by apply (@client_inv_alter _ _ router_laws)|]. eapply follows_heap; [|done].
    intros room x _. apply node_id_alter. intros n. apply Hf.
  - intros r nodes h [c b] h' cb' Hg [Hok Hf] Hn Ha. unfold onGone, bridged_client in Hg. cbn [fst snd] in *.
    pose proof (gone_tells r h c Hok) as Ht. destruct (handleNodeGone r h c) as [h1 c1] eqn:E. injection Hg as <- <-.
    destruct (@onGone_spec _ _ router_laws r nodes h c h1 c1) as (Hcore & Hok1 & Hm); [exact E|done..|].
    split; [done|]. split; [|exact Hm]. split; [done|]. apply tell_follows.
    + destruct Ht as (es & Ho & Hv). exists es. split; [done|]. intros room. cbn [snd] in Hv.
      assert (∀ n, node_id h1 n = node_id h n) as Hid by (intros n; by apply core_id).
      clear -Hv Hid. specialize (Hv room).
      assert (∀ c, view_of (node_id h1) c room = view_of (node_id h) c room) as Hvw.
      { intros c'. unfold view_of. f_equal; [destruct (mget room (cr_assignments c')); [|done]; cbn; by rewrite Hid|].
        apply list_fmap_ext. intros _ x _. apply Hid. }
      rewrite !Hvw, <- Hv. unfold view_steps. generalize (Some (view_of (node_id h) c room)) as v. clear -Hid.
      induction es as [|e es IH]; intros v; [done|]. cbn [fold_left]. rewrite IH. f_equal. destruct v as [v|]; [|done]. cbn.
      destruct e; cbn; by rewrite ?Hid.
    + eapply follows_heap; [|done]. intros room x _. by apply core_id.
Defined.

(** ** Detaching *)

Definition cleared (room : jsstr) b : Prop := room ∉ sb_errors b → media_getRoutes room (sb_media b) = [].

Lemma run_cleared room room' set f b :
  call_ok room' set f → set [] = [] → cleared room b → cleared room (sb_run room' f b).
Proof.
  intros Hf Hset Hc Hn. destruct (run_routes room' set f b Hf) as (R1 & R2 & _). destruct (decide (room = room')) as [->|Hne].
  - destruct (R1 Hn) as [Hn' ->]. by rewrite Hc.
  - destruct (R2 room Hne) as [E1 ->]. apply Hc. by rewrite <- E1.
Qed.
Lemma remove_clears room b : cleared room (remove_assigned b room).
Proof.
  unfold remove_assigned. intros Hn. destruct (run_routes room (λ _, []) _ b (call_remove room)) as (R1 & _).
  by apply R1 in Hn as [_ ->].
Qed.

Lemma assigned_cleared room rooms b :
  room ∈ rooms ∨ cleared room b → cleared room (fold_left remove_assigned rooms b).
Proof.
  revert b. induction rooms as [|room' rooms IH]; intros b Hr; cbn [fold_left].
  { destruct Hr as [Hr|]; [by apply elem_of_nil in Hr|done]. }
  apply IH. destruct Hr as [Hr|Hr].
  - apply elem_of_cons in Hr as [->|Hr]; [right; apply remove_clears|by left].
  - right. eapply run_cleared; [apply call_remove|done|done].
Qed.
Lemma cascades_cleared room routes b : cleared room b → cleared room (fold_left remove_cascades routes b).
Proof.
  revert b. induction routes as [|[room' ids] routes IH]; intros b Hb; [done|]. cbn [fold_left]. apply IH.
  unfold remove_cascades. case_decide; [done|]. revert b Hb H1. induction ids as [|id ids IHi]; intros b Hb Ha; [done|]. cbn [fold_left].
  destruct (run_routes room' (sdel id) _ b (call_remove_cascade room' id)) as (_ & _ & R3 & _). apply IHi; [|by rewrite R3].
  eapply run_cleared; [apply call_remove_cascade|done|done].
Qed.

Lemma detach_cleared h c b room : router_ok h c → follows h c b → cleared room (sb_detach b).
Proof.
  intros Hok [Hb Hs]. unfold sb_detach. rewrite Hb. cbv zeta. apply cascades_cleared, assigned_cleared. cbn.
  specialize (Hs room) as [S1 S2 S3]. unfold view_of in *. cbn in *. destruct (mget room (cr_assignments c)) as [p|] eqn:Ep.
  - left. apply S1. by eexists.
  - right. intros Hn. cbn in Hn |- *. rewrite S3 by done. unfold view_ids. cbn. destruct (mget room (cr_cascadeLinks c)) as [l|] eqn:El; [|done].
    destruct (ro_cascade _ _ Hok room l El) as (_ & p & Hp & _). congruence.
Qed.

(** * Every run *)

Definition router_part (w : World bridged) : World CascadingRouter :=
  mkWorld (wd_heap w) (wd_cluster w) (wd_tracker w) (wd_client w).1.

Lemma router_part_ok w : world_ok w → world_ok (router_part w).
Proof. intros [O1 O2 O3 O4 O5 O6 [O7 _]]. by constructor. Qed.

Lemma on_router_ok {B} (f : World CascadingRouter → World CascadingRouter * B) w :
  let w' := (f (router_part w)).1 in
  world_ok w → world_ok w' → heap_core (wd_heap w') = heap_core (wd_heap w) →
  tells (node_id (wd_heap w')) (wd_client w).1 (wd_client w') → world_ok (on_router f w).1.
Proof.
  cbv zeta. unfold on_router. fold (router_part w). destruct (f (router_part w)) as [w' x]. cbn [fst].
  intros Hok [O1 O2 O3 O4 O5 O6 O7] Hcore Ht. constructor; cbn [wd_heap wd_cluster wd_tracker wd_client]; try done.
  split; [done|]. apply tell_follows; [done|]. eapply follows_heap; [|apply (wo_inv _ Hok)].
  intros room y _. by apply core_id.
Qed.

Section strategy.
Context {S : Type} `{PlacementLaws S}.
Abbreviation bridged_world := (World bridged * S)%type.

Definition bridged_attachRoom (room : jsstr) (region : option jsstr) (ws : bridged_world) : bridged_world * option nat :=
  let '(w, (s, o)) := on_router (λ w, let '((w', s'), o) := attachRoom room region (w, ws.2) in (w', (s', o))) ws.1 in
  ((w, s), o).
Definition bridged_detachRoom (room : jsstr) (w : World bridged) : World bridged * bool := on_router (detachRoom room) w.

Lemma attach_tells room region (ws : router_world (S:=S)) :
  router_ok (wd_heap ws.1) (wd_client ws.1) →
  let w' := (attachRoom room region ws).1.1 in
  heap_core (wd_heap w') = heap_core (wd_heap ws.1) ∧ tells (node_id (wd_heap w')) (wd_client ws.1) (wd_client w').
Proof.
  destruct ws as [w s]. cbn [fst]. intros Hok. unfold attachRoom. destruct (select _ _ region (Some room) s) as [[node|] s']; [|split; [done|apply tells_refl]].
  cbv zeta. set (c := wd_client w) in *. destruct (mget room (cr_assignments c)) as [p|] eqn:Ep.
  - case_decide as Hne; [|split; [done|apply tells_refl]]. set (links := default [] _). destruct (existsb _ links) eqn:Ee; [split; [done|apply tells_refl]|].
    cbn [fst wd_heap wd_client]. pose proof (core_track_at room node (wd_heap w)) as Hcore. split; [done|].
    assert (∀ x, node_id (track room node (wd_heap w)) x = node_id (wd_heap w) x) as Hid by (intros x; by apply core_id).
    apply (tells_one _ room [CascadeCreated room p node]); [done|by repeat constructor| |].
    + intros room' Hr. unfold view_of. cbn. by rewrite mget_mset_ne.
    + unfold view_steps. cbn [fold_left mbind option_bind view_step]. rewrite decide_True by done. rewrite decide_False.
      * unfold view_of. cbn. rewrite Ep, mget_mset_eq. cbn. do 2 f_equal. unfold sadd. rewrite decide_False; [by rewrite fmap_app|].
        intros (x & Ex & Hx)%list_elem_of_fmap. apply not_true_iff_false in Ee. apply Ee, existsb_exists. exists x.
        split; [by apply list_elem_of_In|]. apply bool_decide_eq_true. by rewrite <- !Hid.
      * unfold view_of. cbn. rewrite Ep. cbn. rewrite !Hid. congruence.
  - cbn [fst wd_heap wd_client]. split; [apply core_track_at|].
    apply (tells_one _ room [RoomAssigned room node]); [done|by repeat constructor| |].
    + intros room' Hr. unfold view_of. cbn. by rewrite mget_mset_ne.
    + unfold view_steps. cbn [fold_left mbind option_bind view_step]. rewrite decide_True by done.
      assert (mget room (cr_cascadeLinks c) = None) as El.
      { destruct (mget room (cr_cascadeLinks c)) as [l|] eqn:El; [|done]. destruct (ro_cascade _ _ Hok room l El) as (_ & p & Hp & _). congruence. }
      rewrite decide_True by (unfold view_of; by rewrite Ep, El). unfold view_of. cbn. by rewrite mget_mset_eq, El.
Qed.

Lemma detach_tells room (w : World CascadingRouter) :
  let w' := (detachRoom room w).1 in
  heap_core (wd_heap w') = heap_core (wd_heap w) ∧ tells (node_id (wd_heap w')) (wd_client w) (wd_client w').
Proof.
  unfold detachRoom. destruct (mget room (cr_assignments (wd_client w))) as [p|]; [|split; [done|apply tells_refl]].
  cbv zeta. cbn [fst wd_heap wd_client]. split; [by rewrite untrack_all_core, core_untrack_at|].
  apply (tells_one _ room [RoomDetached room]); [done|by repeat constructor| |].
  - intros room' Hr. unfold view_of. cbn. by rewrite !mget_mdel_ne.
  - unfold view_steps. cbn. rewrite decide_True by done. unfold view_of. cbn. by rewrite !mget_mdel_eq.
Qed.

Inductive bridged_step : bridged_world → bridged_world → Prop :=
| bs_cluster w w' s : sfu_step w w' → bridged_step (w, s) (w', s)
| bs_attach room region ws : bridged_step ws (bridged_attachRoom room region ws).1
| bs_detach room w s : bridged_step (w, s) ((bridged_detachRoom room w).1, s).

Lemma bridged_steps_ok ws ws' : rtc bridged_step ws ws' → world_ok ws.1 → world_ok ws'.1.
Proof.
  induction 1 as [|ws1 ws2 ws3 Hs _ IH]; [done|]. intros Hok. apply IH. destruct Hs as [w w' s|room region [w s]|room w s]; cbn [fst] in *.
  - by eapply sfu_step_ok.
  - unfold bridged_attachRoom. cbn [fst snd]. set (f := λ w, _).
    pose proof (attachRoom_ok room region (router_part w, s) (router_part_ok w Hok)) as Hok'.
    destruct (attach_tells room region (router_part w, s) (wo_inv _ (router_part_ok w Hok))) as [Hcore Ht].
    assert ((f (router_part w)).1 = (attachRoom room region (router_part w, s)).1.1) as Ef by (unfold f; by destruct (attachRoom _ _ _) as [[] ?]).
    pose proof (on_router_ok f w) as Hr. cbv zeta in Hr. rewrite Ef in Hr. specialize (Hr Hok Hok' Hcore Ht).
    by destruct (on_router f w) as [w' [s' o]].
  - destruct (detach_tells room (router_part w)) as [Hcore Ht]. apply on_router_ok; [done| |done|done].
    apply detachRoom_ok, router_part_ok, Hok.
Qed.
End strategy.

Definition new_bridged_world {S} (failureThreshold recoveryThreshold : option Z) (s : S) (m : M) : World bridged * S :=
  (mkWorld [] (newCluster failureThreshold recoveryThreshold) (newTracker [] []) (newRouter, sb_attach (newSfuBridge m)), s).

Lemma new_bridged_ok {S} f r (s : S) (m : M) : (∀ room, media_getRoutes room m = []) → world_ok (new_bridged_world f r s m).1.
Proof.
  intros Hm. pose proof (new_router_ok f r s) as [_ _ _ _ _ _ Hr]. apply new_world_ok.
  - intros id (room & x & [Hx|(l & Hl & _)] & _); discriminate.
  - split; [done|]. split; [done|]. intros room. split; cbn; [|done|intros _; apply Hm].
    split; [intros Hx; by apply elem_of_nil in Hx|by intros []].
Qed.

(** C13: The routes of the media plane follow the router: over every run of a cluster and of
    rooms that are attached and detached, a bridge that was attached from the start has
    for each room exactly the routes to its primary and then to its cascades, in order,
    and none once it is detached, except for rooms for which a call of the media plane
    failed and was reported. *)
Theorem sfu_routes {S} `{PlacementLaws S} (f r : option Z) (s0 : S) (m0 : M) ws :
  (∀ room, media_getRoutes room m0 = []) → rtc bridged_step (new_bridged_world f r s0 m0) ws →
  let '(c, b) := wd_client ws.1 in
  (∀ room, room ∉ sb_errors b →
     media_getRoutes room (sb_media b)
     = node_id (wd_heap ws.1) <$> option_list (getAssignment room c) ++ getCascadeNodes room c)
  ∧ (∀ room, room ∉ sb_errors (sb_detach b) → media_getRoutes room (sb_media (sb_detach b)) = []).
Proof.
  intros Hm Hrun. pose proof (bridged_steps_ok _ _ Hrun (new_bridged_ok f r s0 m0 Hm)) as Hok.
  pose proof (wo_inv _ Hok) as [Hr Hf]. destruct (wd_client ws.1) as [c b]. cbn [fst snd] in *. split.
  - intros room Hn. destruct Hf as [_ Hs]. rewrite (sh_routes _ _ _ (Hs room) Hn). unfold view_ids, view_of, getAssignment, getCascadeNodes.
    cbn. rewrite fmap_app. by destruct (mget room (cr_assignments c)).
  - intros room. by eapply detach_cleared.
Qed.
End media.

(** * Two nodes, a room on the first cascaded to the second; the second fails *)

Definition bridged_world0 := new_bridged_world (M:=ReferenceSfuMedia) None None LeastLoaded newMedia.
Definition bridged_node (id region : jsstr) (w : World (CascadingRouter * SfuBridge ReferenceSfuMedia)) :=
  addNode (length (wd_heap w)) (wd_set_heap (wd_heap w ++ [newSfuNode id region None]) w).
Definition bridged_example : World (CascadingRouter * SfuBridge ReferenceSfuMedia) * LeastLoadedStrategy :=
  let ws := (bridged_node (js "b") (js "us") (bridged_node (js "a") (js "eu") bridged_world0.1), bridged_world0.2) in
  (bridged_attachRoom (js "room") (Some (js "us")) (bridged_attachRoom (js "room") (Some (js "eu")) ws).1).1.

Example routes_before_and_after :
  getRoutes (js "room") (sb_media (wd_client bridged_example.1).2) = [js "a"; js "b"]
  ∧ getRoutes (js "room") (sb_media (wd_client (mark_failed 1 bridged_example.1)).2) = [js "a"].
Proof. by vm_compute. Qed.

Lemma sfu_routes_witness :
  let b := (wd_client (mark_failed 1 bridged_example.1)).2 in
  media_getRoutes (js "room") (sb_media b) = [js "a"] ∧ media_getRoutes (js "room") (sb_media (sb_detach b)) = [].
Proof.
  cbv zeta.
  assert (rtc bridged_step bridged_world0 (mark_failed 1 bridged_example.1, bridged_example.2)) as Hrun.
  { eapply (rtc_r _ (bridged_example.1, bridged_example.2)); [|apply bs_cluster, step_fail].
    rewrite <- surjective_pairing. eapply rtc_l; [apply bs_cluster, (step_new (js "a") (js "eu") None)|].
    eapply rtc_l; [apply bs_cluster, (step_new (js "b") (js "us") None)|].
    eapply rtc_l; [apply bs_attach|]. apply rtc_once, bs_attach. }
  pose proof (sfu_routes None None LeastLoaded newMedia (mark_failed 1 bridged_example.1, bridged_example.2) (λ _, eq_refl) Hrun) as H.
  cbn [fst] in H. destruct (wd_client (mark_failed 1 bridged_example.1)) as [c b] eqn:E. destruct H as [H1 H2]. cbn [snd].
  assert (sb_errors b = [] ∧ sb_errors (sb_detach b) = []) as [E1 E2].
  { assert (b = (wd_client (mark_failed 1 bridged_example.1)).2) as -> by (by rewrite E). by vm_compute. }
  split; [|apply H2; rewrite E2; apply not_elem_of_nil].
  rewrite H1 by (rewrite E1; apply not_elem_of_nil).
  assert (c = (wd_client (mark_failed 1 bridged_example.1)).1) as -> by (by rewrite E). by vm_compute.
Defined.
