(* ===== verification/Bandwidth.v ===== *)
(** Quality tiers from network statistics (packages/sfu/src/SimpleBandwidthEstimator.ts,
    StatsCollector.ts).  Thresholds and measurements are doubles; the lengths of streaks
    are integers. *)

From Stdlib Require Import SpecFloat.
From S2P Require Import Prelude JsNumber Sfu.

Record NetworkStats := mkStats { ns_bitrate : num; ns_packetLoss : num; ns_rtt : num }.

#[export] Instance BandwidthQuality_eq_dec : EqDecision BandwidthQuality.
Proof. solve_decision. Defined.

(** [SimpleBandwidthEstimatorOptions], with their defaults. *)
Record EstimatorOptions := mkEstimatorOptions {
  eo_packetLossHighThreshold : num;
  eo_packetLossMedThreshold : num;
  eo_rttHighThreshold : num;
  eo_rttMedThreshold : num;
  eo_bitrateMinKbps : num;
  eo_downgradeStreak : Z;
  eo_upgradeStreak : Z;
}.
Definition default_options : EstimatorOptions :=
  mkEstimatorOptions (num_div (num_of_Z 1) (num_of_Z 10)) (num_div (num_of_Z 3) (num_of_Z 100))
    (num_of_Z 300) (num_of_Z 150) (num_of_Z 500) 2 3.

(** * The estimator *)

Record Estimator := mkEstimator {
  es_streak : Z;
  es_pendingDir : Z;
  es_lastQuality : BandwidthQuality;
  es_hasSample : bool;
}.
Implicit Types (e : Estimator) (s : NetworkStats).

Definition newEstimator : Estimator := mkEstimator 0 0 QHigh false.

(** [order] and [names]. *)
Definition tier (q : BandwidthQuality) : Z := match q with QLow => 0 | QMedium => 1 | QHigh => 2 end.
Definition quality_at (z : Z) : BandwidthQuality := if decide (z ≤ 0) then QLow else if decide (z = 1) then QMedium else QHigh.

Section estimator.
Context (o : EstimatorOptions).

Definition raw s : BandwidthQuality :=
  if num_lt (eo_packetLossHighThreshold o) (ns_packetLoss s) || num_lt (eo_rttHighThreshold o) (ns_rtt s) then QLow
  else if num_lt (eo_packetLossMedThreshold o) (ns_packetLoss s) || num_lt (eo_rttMedThreshold o) (ns_rtt s)
          || num_lt (ns_bitrate s) (SFmul prec emax (eo_bitrateMinKbps o) (num_of_Z 1000))
  then QMedium else QHigh.

Definition streak_of (dir : Z) : Z := if decide (dir < 0) then eo_downgradeStreak o else eo_upgradeStreak o.

(** [estimate]; it returns [es_lastQuality]. *)
Definition estimate s e : Estimator :=
  if negb (es_hasSample e) then mkEstimator (es_streak e) (es_pendingDir e) (raw s) true
  else
    let committed := tier (es_lastQuality e) in
    let target := tier (raw s) in
    if decide (target = committed) then mkEstimator 0 0 (es_lastQuality e) true
    else
      let dir := if decide (committed < target) then 1 else -1 in
      let streak := if decide (dir ≠ es_pendingDir e) then 1 else es_streak e + 1 in
      if decide (streak_of dir ≤ streak) then mkEstimator 0 0 (quality_at (committed + dir)) true
      else mkEstimator streak dir (es_lastQuality e) true.

Definition reset : Estimator := newEstimator.

(** The estimator after some samples. *)
Definition estimates (l : list NetworkStats) e : Estimator := fold_left (λ e s, estimate s e) l e.
Definition committed (l : list NetworkStats) : Z := tier (es_lastQuality (estimates l newEstimator)).

(** On which side of a tier a sample lies. *)
Definition side (q : Z) s : Z := Z.sgn (tier (raw s) - q).

(** * Hysteresis *)

Lemma committed_snoc l s : estimates (l ++ [s]) newEstimator = estimate s (estimates l newEstimator).
Proof. unfold estimates. by rewrite fold_left_app. Qed.

(** The streak counts the last samples, all on the same side of a tier that did not
    change meanwhile. *)
Record streak_inv (l : list NetworkStats) e : Prop := {
  si_state : e = estimates l newEstimator;
  si_sample : es_hasSample e = true;
  si_count : 0 ≤ es_streak e;
  si_run : ∃ l1 l2, l = l1 ++ l2 ∧ l1 ≠ [] ∧ Z.of_nat (length l2) = es_streak e
    ∧ Forall (λ s, side (committed l) s = es_pendingDir e) l2
    ∧ ∀ p p', l2 = p ++ p' → committed (l1 ++ p) = committed l;
  si_dir : es_streak e ≠ 0 → es_pendingDir e = 1 ∨ es_pendingDir e = -1;
  si_short : es_streak e = 0 ∨ es_streak e < streak_of (es_pendingDir e);
}.

Lemma tier_range q : 0 ≤ tier q ≤ 2.
Proof. destruct q; cbn; lia. Qed.
Lemma tier_at z : 0 ≤ z ≤ 2 → tier (quality_at z) = z.
Proof. intros Hz. unfold quality_at. repeat case_decide; cbn; lia. Qed.

(** What a sample after the first does. *)
Lemma estimate_cases s e :
  es_hasSample e = true → let c := tier (es_lastQuality e) in let d := side c s in
  let n := if decide (d ≠ es_pendingDir e) then 1 else es_streak e + 1 in
  (d = 0 ∧ estimate s e = mkEstimator 0 0 (es_lastQuality e) true)
  ∨ ((d = 1 ∨ d = -1) ∧ streak_of d ≤ n ∧ estimate s e = mkEstimator 0 0 (quality_at (c + d)) true ∧ tier (quality_at (c + d)) = c + d)
  ∨ ((d = 1 ∨ d = -1) ∧ n < streak_of d ∧ estimate s e = mkEstimator n d (es_lastQuality e) true).
Proof.
  intros Hs. cbv zeta. unfold estimate. rewrite Hs. cbv zeta. cbn [negb]. unfold side. set (c := tier (es_lastQuality e)). set (t := tier (raw s)).
  pose proof (tier_range (es_lastQuality e)) as Hc. pose proof (tier_range (raw s)) as Ht. fold c in Hc. fold t in Ht. clearbody c t.
  destruct (decide (t = c)) as [->|Hne]; [left; split; [lia|done]|right].
  assert ((if decide (c < t) then 1 else -1) = Z.sgn (t - c)) as -> by (case_decide; lia).
  set (d := Z.sgn (t - c)). assert (d = 1 ∧ c < t ∨ d = -1 ∧ t < c) as Hd by lia.
  set (n := if decide (d ≠ es_pendingDir e) then 1 else es_streak e + 1). clearbody n.
  case_decide as Hk; [left|right].
  - split; [lia|]. split; [done|]. split; [done|]. apply tier_at. lia.
  - split; [lia|]. split; [lia|done].
Qed.

Lemma streak_first s : streak_inv [s] (estimates [s] newEstimator).
Proof.
  split; cbn; try done; [|by left]. exists [s], []. split_and!; [done..|]. intros p p' Hp. symmetry in Hp. by apply app_nil in Hp as [-> ->].
Qed.

Lemma streak_snoc l s e : streak_inv l e → streak_inv (l ++ [s]) (estimate s e).
Proof.
  intros [Hst Hsm H0 (l1 & l2 & -> & Hne & Hlen & Hall & Hsame) Hdir Hshort]. set (l := l1 ++ l2) in *.
  assert (Hst' : estimate s e = estimates (l ++ [s]) newEstimator) by (by rewrite committed_snoc, Hst).
  assert (Hc : tier (es_lastQuality e) = committed l) by (by rewrite Hst).
  pose proof (estimate_cases s e Hsm) as Hcase. cbv zeta in Hcase. rewrite Hc in Hcase.
  assert (Hempty : ∀ e', estimates (l ++ [s]) newEstimator = e' → es_hasSample e' = true → es_streak e' = 0 → streak_inv (l ++ [s]) e').
  { intros e' <- Hs' Hz. split; try done; [by rewrite Hz| |by left].
    - exists (l ++ [s]), []. rewrite app_nil_r, Hz. split_and!; [done|by destruct l|done|constructor|].
      intros p p' Hp. symmetry in Hp. apply app_nil in Hp as [-> ->]. by rewrite app_nil_r. }
  destruct Hcase as [(Hd & He)|[(Hd & Hk & He & _)|(Hd & Hk & He)]].
  - rewrite He in Hst' |- *. by apply Hempty.
  - rewrite He in Hst' |- *. by apply Hempty.
  - assert (Hc' : committed (l ++ [s]) = committed l) by (unfold committed at 1; rewrite <- Hst', He; done).
    rewrite He in Hst' |- *. split; cbn [es_hasSample es_streak es_pendingDir]; try done.
    + case_decide; lia.
    + rewrite Hc'. case_decide as Hn.
      * exists l, [s]. split_and!; [done|by destruct l1|done|by repeat constructor|].
        intros [|x p] p' Hp; [by rewrite app_nil_r|]. injection Hp as <- Hp. symmetry in Hp. apply app_nil in Hp as [-> ->]. exact Hc'.
      * exists l1, (l2 ++ [s]). unfold l. split_and!; [by rewrite app_assoc|done|rewrite length_app; cbn; lia| |].
        -- apply Forall_app. split; [|repeat constructor]. eapply Forall_impl; [exact Hall|]. intros x Hx. etransitivity; [exact Hx|]. symmetry. exact Hn.
        -- intros p p' Hp. destruct p' as [|x p'] using rev_ind; [rewrite app_nil_r in Hp; subst p; by rewrite app_assoc|].
           rewrite app_assoc in Hp. apply app_inj_tail in Hp as [Hp _]. by eapply Hsame.
    + by right.
Qed.

Lemma streak_reached l : l ≠ [] → streak_inv l (estimates l newEstimator).
Proof.
  induction l as [|s l IH] using rev_ind; [done|]. intros _. destruct l as [|x l]; [apply streak_first|].
  rewrite committed_snoc. apply streak_snoc, IH. done.
Qed.

(** How far a run in direction [d] has come. *)
Definition run_so_far (d : Z) e : Z := if decide (d = es_pendingDir e) then es_streak e else 0.

Lemma no_move d l e :
  d = 1 ∨ d = -1 → es_hasSample e = true → 0 ≤ es_streak e →
  Forall (λ s, side (tier (es_lastQuality e)) s = 0 ∨ side (tier (es_lastQuality e)) s = d) l →
  run_so_far d e + Z.of_nat (length l) < streak_of d → es_lastQuality (estimates l e) = es_lastQuality e.
Proof.
  intros Hd. revert e. induction l as [|s l IH]; intros e Hs H0 Hall Hlen; [done|]. apply Forall_cons in Hall as [Hx Hall].
  cbn [length] in Hlen. change (estimates (s :: l) e) with (estimates l (estimate s e)).
  pose proof (estimate_cases s e Hs) as Hc. cbv zeta in Hc. unfold run_so_far in *.
  destruct Hc as [(Hz & ->)|[(Hd' & Hk & _)|(Hd' & Hk & ->)]].
  - rewrite IH; cbn; try done. repeat case_decide; lia.
  - exfalso. assert (side (tier (es_lastQuality e)) s = d) as Hx' by (destruct Hx; lia). rewrite Hx' in Hk. repeat case_decide; lia.
  - assert (side (tier (es_lastQuality e)) s = d) as Hx' by (destruct Hx; lia). rewrite Hx' in *.
    rewrite IH; cbn [es_hasSample es_streak es_lastQuality es_pendingDir]; try done; [repeat case_decide; lia|].
    rewrite (decide_True (P := d = d)) by done. repeat case_decide; lia.
Qed.

Lemma run_moves d l e :
  d = 1 ∨ d = -1 → es_hasSample e = true → 0 ≤ es_streak e → l ≠ [] →
  Forall (λ s, side (tier (es_lastQuality e)) s = d) l →
  Z.of_nat (length l) ≤ Z.max 1 (streak_of d) ≤ run_so_far d e + Z.of_nat (length l) →
  tier (es_lastQuality (estimates l e)) = tier (es_lastQuality e) + d.
Proof.
  intros Hd. revert e. induction l as [|s l IH]; intros e Hs H0 Hne Hall Hlen; [done|]. apply Forall_cons in Hall as [Hx Hall].
  cbn [length] in Hlen. change (estimates (s :: l) e) with (estimates l (estimate s e)).
  pose proof (estimate_cases s e Hs) as Hc. cbv zeta in Hc. rewrite Hx in Hc. unfold run_so_far in *.
  destruct Hc as [(Hz & _)|[(_ & Hk & -> & Ht)|(_ & Hk & ->)]]; [lia| |].
  - destruct (decide (l = [])) as [->|Hl]; [done|]. rewrite (no_move d); cbn [es_hasSample es_streak es_lastQuality]; try done.
    + rewrite Ht. eapply Forall_impl; [exact Hall|]. unfold side. cbn. lia.
    + unfold run_so_far. cbn. destruct l; [done|]. cbn in *. repeat case_decide; lia.
  - rewrite IH; cbn [es_hasSample es_streak es_lastQuality es_pendingDir]; try done.
    + case_decide; lia.
    + destruct l; [|done]. cbn in Hlen. repeat case_decide; lia.
    + rewrite (decide_True (P := d = d)) by done. repeat case_decide; lia.
Qed.

(** C15: Hysteresis, for the samples after the first, whose tier counts at once: the answer
    moves by one tier at a time, exactly if as many samples in a row as the option for
    that direction says lie on that side of it, through which it has not changed; and so
    many samples in a row on one side do move it by one tier in that direction. *)
Theorem bandwidth_hysteresis l :
  l ≠ [] →
  (∀ s, committed (l ++ [s]) ≠ committed l →
     ∃ d l1 l2, (d = 1 ∨ d = -1) ∧ committed (l ++ [s]) = committed l + d
       ∧ l ++ [s] = l1 ++ l2 ∧ l1 ≠ [] ∧ Z.of_nat (length l2) = Z.max 1 (streak_of d)
       ∧ Forall (λ x, side (committed l) x = d) l2
       ∧ ∀ p x p', l2 = p ++ x :: p' → committed (l1 ++ p) = committed l)
  ∧ (∀ d l2, d = 1 ∨ d = -1 → Z.of_nat (length l2) = Z.max 1 (streak_of d) → Forall (λ x, side (committed l) x = d) l2 →
     committed (l ++ l2) = committed l + d).
Proof.
  intros Hl. pose proof (streak_reached l Hl) as [_ Hsm H0 (l1 & l2 & El & Hne & Hlen & Hall & Hsame) _ Hshort].
  set (e := estimates l newEstimator) in *. change (committed l) with (tier (es_lastQuality e)) in *. split.
  - intros s Hs. unfold committed in Hs |- *. rewrite committed_snoc in Hs |- *. fold e in Hs |- *.
    pose proof (estimate_cases s e Hsm) as Hc. cbv zeta in Hc.
    destruct Hc as [(_ & E)|[(Hd & Hk & E & Ht)|(_ & _ & E)]]; try (by rewrite E in Hs).
    exists (side (tier (es_lastQuality e)) s). rewrite E. cbn [es_lastQuality]. case_decide as Hn.
    + exists l, [s]. split_and!; try done; [cbn; lia|by repeat constructor|]. intros [|y p] x p' Hp; [by rewrite app_nil_r|].
      injection Hp as _ Hp. by destruct p.
    + rewrite Hn in *. exists l1, (l2 ++ [s]). split_and!; try done; [by rewrite El, app_assoc|rewrite length_app; cbn; lia| |].
      * apply Forall_app. by repeat constructor.
      * intros p x p' Hp. destruct p' as [|y p' _] using rev_ind; [apply app_inj_tail in Hp as [-> ->]; apply (Hsame p []); by rewrite app_nil_r|].
        rewrite app_comm_cons, app_assoc in Hp. apply app_inj_tail in Hp as [Hp _]. by eapply Hsame.
  - intros d l' Hd Hlen' Hall'. unfold committed, estimates. rewrite fold_left_app. fold (estimates l newEstimator). fold e. fold (estimates l' e).
    apply run_moves; try done; [destruct l'; [cbn in Hlen'; lia|done]|]. unfold run_so_far. case_decide; lia.
Qed.
End estimator.

(** * The collector *)

Record StatsCollector := mkCollector {
  sc_timer : bool;
  sc_collecting : bool;
  sc_estimator : Estimator;
  sc_qualities : list BandwidthQuality;    (* the calls of [onQuality] *)
}.
Implicit Types (c : StatsCollector).

Section collector.
Context (o : EstimatorOptions).

Definition sc_stop c : StatsCollector := mkCollector false (sc_collecting c) (sc_estimator c) (sc_qualities c).
Definition sc_start c : StatsCollector :=
  let c1 := sc_stop c in mkCollector true (sc_collecting c1) (sc_estimator c1) (sc_qualities c1).

(** A tick of the timer: [_collect] up to the [await] of [getStats]. *)
Definition sc_tick c : StatsCollector :=
  if negb (sc_timer c) || sc_collecting c then c
  else mkCollector (sc_timer c) true (sc_estimator c) (sc_qualities c).
(** The rest of it: a sample, or [getStats] failed. *)
Definition sc_settled (stats : option NetworkStats) c : StatsCollector :=
  if negb (sc_collecting c) then c
  else
    match stats with
    | None => mkCollector (sc_timer c) false (sc_estimator c) (sc_qualities c)
    | Some s =>
        let e := estimate o s (sc_estimator c) in
        mkCollector (sc_timer c) false e (sc_qualities c ++ [es_lastQuality e])
    end.
End collector.

(** * Examples *)

Definition sample (loss rtt kbps : Z) : NetworkStats := mkStats (num_of_Z (kbps * 1000)) (num_div (num_of_Z loss) (num_of_Z 100)) (num_of_Z rtt).
Definition good : NetworkStats := sample 0 20 2000.
Definition bad : NetworkStats := sample 20 20 2000.

(** Two bad samples after a good one, then three good ones: one tier down and up again. *)
Lemma bandwidth_hysteresis_witness :
  committed default_options [good] = 2 ∧ committed default_options ([good] ++ [bad; bad]) = 1
  ∧ committed default_options ([good; bad; bad] ++ [good; good; good]) = 2.
Proof.
  split; [by vm_compute|]. split.
  - refine (proj2 (bandwidth_hysteresis default_options [good] _) (-1) [bad; bad] _ _ _); [done|by right|done|].
    repeat constructor; by vm_compute.
  - refine (proj2 (bandwidth_hysteresis default_options [good; bad; bad] _) 1 [good; good; good] _ _ _); [done|by left|done|].
    repeat constructor; by vm_compute.
Defined.

(** A sample exactly at a threshold is on its good side. *)
Example at_threshold : raw default_options (sample 10 300 500) = QMedium ∧ raw default_options (sample 0 300 500) = QMedium
  ∧ raw default_options (sample 3 150 500) = QHigh.
Proof. by vm_compute. Qed.

(** A collector that was stopped while it waited for a sample still reports. *)
Example stopped_still_estimates :
  sc_qualities (sc_settled default_options (Some bad) (sc_stop (sc_tick (sc_start (mkCollector false false newEstimator []))))) = [QLow].
Proof. by vm_compute. Qed.
