(* ===== verification/UdpGossip.v ===== *)
(** Gossip over UDP datagrams (packages/sfu/src/UdpGossipTransport.ts).

    HMAC-SHA256 and the text of JSON are parameters; the socket gets and delivers
    datagrams, and refuses a port above 65535 by throwing, as Node's does.  Messages are
    objects: they have an identity, by which the last payload is kept.  Times are
    milliseconds. *)

From S2P Require Import Prelude JsMap JsNumber Json Uint8Array JsDouble Gossip.

Definition MAX_DATAGRAM : Z := 65507.
Definition MAC_LEN : nat := 32.
Definition TS_LEN : nat := 8.
Definition DEFAULT_REPLAY_WINDOW_MS : Z := 30000.
Definition MAX_PORT : Z := 65535.

(** * Addresses *)

Definition cColon : Z := 58.
Definition cOpen : Z := 91.
Definition cClose : Z := 93.

Fixpoint indexOf (c : Z) (s : jsstr) : option nat :=
  match s with
  | [] => None
  | x :: s' => if decide (x = c) then Some O else S <$> indexOf c s'
  end.
Fixpoint lastIndexOf (c : Z) (s : jsstr) : option nat :=
  match s with
  | [] => None
  | x :: s' => match lastIndexOf c s' with
               | Some i => Some (S i)
               | None => if decide (x = c) then Some O else None
               end
  end.

(** [Number.isInteger(port) && port > 0 ? port : undefined]. *)
Definition port_of (s : jsstr) : option Z :=
  match num_int (Number s) with Some n => if decide (0 < n) then Some n else None | None => None end.

Definition parse_plain (address : jsstr) : jsstr * option Z :=
  match indexOf cColon address with
  | None | Some O => (address, None)
  | Some first =>
      if decide (Some first ≠ lastIndexOf cColon address) then (address, None)
      else (take first address, port_of (drop (S first) address))
  end.
Definition parseAddress (address : jsstr) : jsstr * option Z :=
  if bool_decide (head address = Some cOpen) then
    match indexOf cClose address with
    | Some close =>
        let host := take (close - 1) (drop 1 address) in
        let rest := drop (S close) address in
        match rest with
        | c :: port => if decide (c = cColon) then (host, port_of port) else (host, None)
        | [] => (host, None)
        end
    | None => parse_plain address
    end
  else parse_plain address.

(** * What is accepted from the wire *)

Definition kFrom := js "from".
Definition kMembers := js "members".
Definition kId := js "id".
Definition kIncarnation := js "incarnation".
Definition kAlive := js "alive".
Definition kAddress := js "address".
Definition kRegion := js "region".
Definition kMetadata := js "metadata".

Definition j_str (v : option json) : option jsstr := match v with Some (JStr s) => Some s | _ => None end.

(** [isStringRecord], with the record it lets through; an array of strings passes, with
    its indices for keys. *)
Definition isStringRecord (v : option json) : option (jmap jsstr jsstr) :=
  match v with
  | Some (JObj fields) => mapM (λ x, s ← j_str (Some x.2); Some (x.1, s)) fields
  | Some (JArr l) => imap (λ i s, (print_int (Z.of_nat i), s)) <$> mapM (λ x, j_str (Some x)) l
  | _ => None
  end.

Definition sanitize_entry (raw : json) : option WireEntry :=
  match raw with
  | JObj e =>
      match mget kId e, mget kIncarnation e, mget kAlive e with
      | Some (JStr ((_ :: _) as id)), Some (JNum incarnation), Some (JBool alive) =>
          if isFinite incarnation
          then Some (mkWire (VStr id) (j_str (mget kAddress e)) (j_str (mget kRegion e))
                       (isStringRecord (mget kMetadata e)) (VNum incarnation) (VBool alive))
          else None
      | _, _, _ => None
      end
  | _ => None
  end.

Definition sanitizeGossipMessage (parsed : json) : option (jsstr * list wire) :=
  match parsed with
  | JObj obj =>
      match mget kFrom obj, mget kMembers obj with
      | Some (JStr from), Some (JArr raws) =>
          let members := omap sanitize_entry raws in
          if bool_decide (raws ≠ []) && bool_decide (members = []) then None
          else Some (from, Entry <$> members)
      | _, _ => None
      end
  | _ => None
  end.

(** What a node serialises: the entries of a digest (Gossip.ts, [_gossip]). *)
Definition field {A} (k : jsstr) (f : A → json) (o : option A) : jmap jsstr json :=
  match o with Some a => [(k, f a)] | None => [] end.
Definition entry_json (e : GossipEntry) : json :=
  JObj ([(kId, JStr (g_id e))] ++ field kAddress JStr (g_address e) ++ field kRegion JStr (g_region e)
        ++ field kMetadata (λ m, JObj ((λ x : jsstr * jsstr, (x.1, JStr x.2)) <$> m)) (g_metadata e)
        ++ [(kIncarnation, JNum (num_of_Z (g_incarnation e))); (kAlive, JBool (g_alive e))]).
Definition message_json (msg : GossipMessage) : json :=
  JObj [(kFrom, JStr (msg_from msg)); (kMembers, JArr (entry_json <$> msg_members msg))].

(** * The transport *)

Record UdpGossipTransport := mkUdp {
  ud_port : Z;
  ud_advertiseHost : jsstr;
  ud_secret : option bytes;
  ud_replayWindowMs : num;
  ud_handler : bool;
  ud_closed : bool;
  ud_last : option (nat * bytes);        (* [_lastMsg], [_lastPayload] *)
}.
Implicit Types (u : UdpGossipTransport).

Definition newUdp (port : Z) (advertiseHost : option jsstr) (secret : bytes) (replayWindowMs : option num) : UdpGossipTransport :=
  mkUdp port (default (js "127.0.0.1") advertiseHost) (if bool_decide (secret = []) then None else Some secret)
    (default (num_of_Z DEFAULT_REPLAY_WINDOW_MS) replayWindowMs) false false None.

Definition udp_address u : jsstr := ud_advertiseHost u ++ js ":" ++ print_int (ud_port u).

Definition listened (port : Z) u : UdpGossipTransport :=
  mkUdp port (ud_advertiseHost u) (ud_secret u) (ud_replayWindowMs u) (ud_handler u) (ud_closed u) (ud_last u).
Definition onReceive u : UdpGossipTransport :=
  mkUdp (ud_port u) (ud_advertiseHost u) (ud_secret u) (ud_replayWindowMs u) true (ud_closed u) (ud_last u).
Definition close u : UdpGossipTransport :=
  mkUdp (ud_port u) (ud_advertiseHost u) (ud_secret u) (ud_replayWindowMs u) (ud_handler u) true (ud_last u).
Definition cache (ref : nat) (payload : bytes) u : UdpGossipTransport :=
  mkUdp (ud_port u) (ud_advertiseHost u) (ud_secret u) (ud_replayWindowMs u) (ud_handler u) (ud_closed u) (Some (ref, payload)).

(** What becomes of a call of [send]: it is dropped, the socket gets a datagram, or
    refuses the port. *)
Inductive send_outcome :=
| Dropped
| Datagram (payload : bytes) (port : Z) (host : jsstr)
| Threw.

Section udp.
Context (hmac : bytes → bytes → bytes) (encode : json → option bytes) (decode : bytes → option json).

(** [[mac(32)] [timestamp(8)] [json]], or the JSON alone. *)
Definition payload_of (now : Z) (body : bytes) (secret : option bytes) : bytes :=
  match secret with
  | Some k => let signed := write_double (num_of_Z now) ++ body in hmac k signed ++ signed
  | None => body
  end.

Definition hand_over (payload : bytes) (port : Z) (host : jsstr) : send_outcome :=
  if decide (MAX_DATAGRAM < blen payload) then Dropped
  else if decide (MAX_PORT < port) then Threw
  else Datagram payload port host.

Definition send (now : Z) (toAddress : jsstr) (ref : nat) (msg : GossipMessage) u : UdpGossipTransport * send_outcome :=
  if ud_closed u then (u, Dropped)
  else
    match parseAddress toAddress with
    | (_, None) => (u, Dropped)
    | (host, Some port) =>
        match ud_last u with
        | Some (ref', payload) =>
            if decide (ref = ref') then (u, hand_over payload port host)
            else match encode (message_json msg) with
                 | None => (u, Dropped)
                 | Some body => let payload := payload_of now body (ud_secret u) in (cache ref payload u, hand_over payload port host)
                 end
        | None =>
            match encode (message_json msg) with
            | None => (u, Dropped)
            | Some body => let payload := payload_of now body (ud_secret u) in (cache ref payload u, hand_over payload port host)
            end
        end
    end.

(** The part of a datagram that is parsed, if it is let through. *)
Definition open_datagram (now : Z) (data : bytes) u : option bytes :=
  match ud_secret u with
  | None => Some data
  | Some k =>
      if decide (length data < MAC_LEN + TS_LEN)%nat then None
      else
        let mac := take MAC_LEN data in
        let signed := drop MAC_LEN data in
        if decide (mac ≠ hmac k signed) then None
        else
          ts ← read_double signed;
          if num_lt (ud_replayWindowMs u) (num_abs (num_sub (num_of_Z now) ts)) then None
          else Some (drop TS_LEN signed)
  end.
(** [_onDatagram]: the message the handler gets. *)
Definition onDatagram (now : Z) (data : bytes) u : option (jsstr * list wire) :=
  if negb (ud_handler u) then None
  else body ← open_datagram now data u; parsed ← decode body; sanitizeGossipMessage parsed.
End udp.
