(* ===== verification/UdpTheorems.v ===== *)
(** What goes over the wire of the gossip transport: round trips, authenticity, the
    replay window, addresses. *)

From S2P Require Import Prelude JsMap JsNumber Json Uint8Array JsDouble Gossip UdpGossip.

Implicit Types (u v : UdpGossipTransport).

(** * Messages *)

(** What a node gossips: ids are not empty, incarnations exact integers. *)
Definition entry_ok (e : GossipEntry) : Prop := g_id e ≠ [] ∧ Z.abs (g_incarnation e) < two53.
Definition message_ok (msg : GossipMessage) : Prop := Forall entry_ok (msg_members msg).

Lemma record_roundtrip (m : jmap jsstr jsstr) : isStringRecord (Some (JObj ((λ x : jsstr * jsstr, (x.1, JStr x.2)) <$> m))) = Some m.
Proof.
  cbn. induction m as [|[k s] m IH]; [done|]. cbn in *. by rewrite IH.
Qed.

Lemma finite_int z : Z.abs z < two53 → isFinite (num_of_Z z) = true.
Proof. intros Hz%num_int_of_Z. by destruct (num_of_Z z). Qed.

(** The entry of [to_wire]. *)
Definition wire_entry (e : GossipEntry) : WireEntry :=
  mkWire (VStr (g_id e)) (g_address e) (g_region e) (g_metadata e) (VNum (num_of_Z (g_incarnation e))) (VBool (g_alive e)).

Lemma mget_skip k k' (x : json) (m : jmap jsstr json) : k ≠ k' → mget k ((k', x) :: m) = mget k m.
Proof. intros. cbn. by rewrite decide_False. Qed.
Lemma mget_here k (x : json) (m : jmap jsstr json) : mget k ((k, x) :: m) = Some x.
Proof. cbn. by rewrite decide_True. Qed.
Ltac field_get := repeat first [ rewrite mget_here | rewrite mget_skip by (by vm_compute) ].

Lemma entry_roundtrip e : entry_ok e → sanitize_entry (entry_json e) = Some (wire_entry e).
Proof.
  destruct e as [id address region metadata inc alive]. intros [Hid Hinc]. cbn [g_id g_incarnation] in Hid, Hinc. apply finite_int in Hinc.
  unfold sanitize_entry, entry_json, wire_entry. cbn [g_id g_address g_region g_metadata g_incarnation g_alive].
  destruct id as [|c id]; [done|].
  destruct address as [a|], region as [r|], metadata as [m|]; cbn [field app]; field_get; rewrite Hinc; cbn [j_str]; rewrite ?record_roundtrip; done.
Qed.

Lemma message_roundtrip msg : message_ok msg → sanitizeGossipMessage (message_json msg) = Some (msg_from msg, to_wire <$> msg_members msg).
Proof.
  intros Hm. unfold sanitizeGossipMessage, message_json. field_get.
  assert (omap sanitize_entry (entry_json <$> msg_members msg) = wire_entry <$> msg_members msg) as ->.
  { unfold message_ok in Hm. induction Hm as [|e l He _ IH]; [done|]. cbn [fmap list_fmap omap list_omap]. rewrite entry_roundtrip by done. by rewrite IH. }
  destruct (msg_members msg) as [|e l]; [done|]. cbn [fmap list_fmap]. rewrite andb_false_intro2 by (by apply bool_decide_eq_false).
  by rewrite <- list_fmap_compose.
Qed.

(** * Datagrams *)

Section udp.
Context (hmac : bytes → bytes → bytes) (encode : json → option bytes) (decode : bytes → option json).
(** HMAC-SHA256 has 32 bytes. *)
Hypothesis hmac_length : ∀ k b, length (hmac k b) = MAC_LEN.
Abbreviation send := (send hmac encode).
Abbreviation onDatagram := (onDatagram hmac decode).
Abbreviation payload_of := (payload_of hmac).

(** How long after it was made a payload is let through. *)
Lemma open_payload now now' w body v :
  0 ≤ now < two53 → 0 ≤ now' < two53 → 0 ≤ w < two53 → ud_replayWindowMs v = num_of_Z w →
  open_datagram hmac now' (payload_of now body (ud_secret v)) v
  = if bool_decide (ud_secret v = None ∨ Z.abs (now' - now) ≤ w) then Some body else None.
Proof.
  intros Hn Hn' Hw Ew. unfold open_datagram, UdpGossip.payload_of. destruct (ud_secret v) as [k|]; [|by rewrite bool_decide_true by (by left)].
  set (signed := write_double (num_of_Z now) ++ body). rewrite decide_False by (unfold signed; rewrite !length_app, hmac_length, write_double_length; unfold MAC_LEN, TS_LEN; lia).
  cbv zeta. rewrite take_app_length', drop_app_length' by (by rewrite hmac_length). rewrite decide_False by (intros Hne; by apply Hne).
  unfold signed. rewrite double_int_roundtrip by done. cbn [mbind option_bind].
  rewrite num_sub_ints, num_abs_int, Ew, num_lt_ints by lia. change (drop TS_LEN (write_double (num_of_Z now) ++ body)) with body.
  destruct (decide (Z.abs (now' - now) ≤ w)); [rewrite bool_decide_false by lia; by rewrite bool_decide_true by (by right)|].
  rewrite (bool_decide_true (w < _)) by lia. rewrite bool_decide_false; [done|]. intros [|]; [done|lia].
Qed.

(** The payload of a message that is not the last one again. *)
Lemma send_fresh now to ref msg u body payload port host :
  match ud_last u with Some (ref', _) => ref ≠ ref' | None => True end → encode (message_json msg) = Some body →
  (send now to ref msg u).2 = Datagram payload port host → payload = payload_of now body (ud_secret u).
Proof.
  intros Hfresh He. unfold UdpGossip.send. destruct (ud_closed u); [done|]. destruct (parseAddress to) as [h [p|]]; [|done].
  assert (∀ pl, hand_over pl p h = Datagram payload port host → payload = pl) as Hh.
  { intros pl. unfold hand_over. repeat case_decide; congruence. }
  destruct (ud_last u) as [[ref' pl]|]; [rewrite decide_False by done|]; rewrite He; cbn; intros E; by apply Hh in E.
Qed.

(** C34: Over the wire and back: what a node sends reaches the handler of another as it
    would over the in-memory network, if neither has a secret; if they share one, for
    exactly as long as the window says, by the receiver's clock. *)
Theorem udp_wire now now' w to ref msg u v body payload port host :
  message_ok msg → encode (message_json msg) = Some body → decode body = Some (message_json msg) →
  match ud_last u with Some (ref', _) => ref ≠ ref' | None => True end →
  ud_secret v = ud_secret u → ud_handler v = true → ud_replayWindowMs v = num_of_Z w →
  0 ≤ now < two53 → 0 ≤ now' < two53 → 0 ≤ w < two53 →
  (send now to ref msg u).2 = Datagram payload port host →
  onDatagram now' payload v
  = if bool_decide (ud_secret u = None ∨ Z.abs (now' - now) ≤ w)
    then Some (msg_from msg, to_wire <$> msg_members msg) else None.
Proof.
  intros Hm He Hd Hfresh Hs Hh Hw Hn Hn' Hw' Hsend. rewrite (send_fresh _ _ _ _ _ _ _ _ _ Hfresh He Hsend).
  unfold UdpGossip.onDatagram. rewrite Hh, <- Hs. cbn [negb]. rewrite (open_payload now now' w) by done.
  case_bool_decide; [|done]. cbn [mbind option_bind]. rewrite Hd. cbn [mbind option_bind]. by apply message_roundtrip.
Qed.

(** An entry that is handed on. *)
Definition entry_clean (x : wire) : Prop :=
  ∃ id address region metadata n alive, x = Entry (mkWire (VStr id) address region metadata (VNum n) (VBool alive)) ∧ id ≠ [] ∧ isFinite n = true.

Lemma sanitize_clean parsed from ws : sanitizeGossipMessage parsed = Some (from, ws) → Forall entry_clean ws.
Proof.
  unfold sanitizeGossipMessage. destruct parsed as [| | | | |obj]; try done. destruct (mget kFrom obj) as [[| | |s| |]|]; try done.
  destruct (mget kMembers obj) as [[| | | |l|]|]; try done. cbv zeta. destruct (_ && _); [done|]. intros [= _ <-].
  apply Forall_fmap, Forall_forall. intros w (raw & _ & Hraw)%list_elem_of_omap. cbn. unfold sanitize_entry in Hraw.
  destruct raw as [| | | | |e]; try done. destruct (mget kId e) as [[| | |[|c id]| |]|]; try done.
  destruct (mget kIncarnation e) as [[| |n| | |]|]; try done. destruct (mget kAlive e) as [[|b| | | |]|]; try done.
  destruct (isFinite n) eqn:En; [|done]. injection Hraw as <-. by eexists _, _, _, _, n, b.
Qed.

End udp.

(** * Addresses *)

Lemma indexOf_notin c s t : c ∉ s → indexOf c (s ++ t) = (λ i, (length s + i)%nat) <$> indexOf c t.
Proof.
  induction s as [|x s IH]; intros Hn; cbn [app indexOf]; [by destruct (indexOf c t)|].
  apply not_elem_of_cons in Hn as [Hx Hn]. rewrite decide_False, IH by done. by destruct (indexOf c t).
Qed.
Lemma lastIndexOf_notin c s : c ∉ s → lastIndexOf c s = None.
Proof. induction s as [|x s IH]; [done|]. intros [Hx Hn]%not_elem_of_cons. cbn. by rewrite IH, decide_False. Qed.
Lemma lastIndexOf_last c s t : c ∉ t → lastIndexOf c (s ++ c :: t) = Some (length s).
Proof.
  intros Hn. induction s as [|x s IH]; cbn [app lastIndexOf]; [by rewrite lastIndexOf_notin, decide_True|]. by rewrite IH.
Qed.
Lemma print_int_no c n : 0 ≤ n → c < 48 ∨ 57 < c → c ∉ print_int n.
Proof. intros (_ & Hall & _)%print_int_spec Hc Hin. rewrite Forall_forall in Hall. apply Hall in Hin. lia. Qed.
Lemma port_of_int p : 0 < p < two53 → port_of (print_int p) = Some p.
Proof.
  intros Hp. unfold port_of. destruct (print_int_spec p ltac:(lia)) as (Hne & Hall & Hd).
  rewrite (Number_digits _ p), num_int_of_Z by (done || lia). by rewrite decide_True by lia.
Qed.

(** What a node advertises, others read back: host and port of its address, for a host
    without colon or bracket, and of a bracketed one. *)
Theorem udp_address_read host port :
  0 < port < two53 → host ≠ [] → cColon ∉ host → head host ≠ Some cOpen →
  parseAddress (host ++ js ":" ++ print_int port) = (host, Some port)
  ∧ ∀ host6, cClose ∉ host6 → parseAddress (js "[" ++ host6 ++ js "]:" ++ print_int port) = (host6, Some port).
Proof.
  intros Hp Hne Hc Hopen. split.
  - unfold parseAddress. rewrite bool_decide_false by (destruct host; [done|done]).
    unfold parse_plain. change (js ":" ++ print_int port) with (cColon :: print_int port). rewrite indexOf_notin by done.
    cbn [indexOf]. rewrite decide_True by done. cbn [fmap option_fmap option_map]. rewrite Nat.add_0_r.
    destruct (length host) as [|n] eqn:El; [by destruct host|]. rewrite <- El.
    rewrite lastIndexOf_last by (apply print_int_no; unfold cColon; lia). rewrite decide_False by (intros Hx; by apply Hx).
    rewrite take_app_length. rewrite cons_middle, app_assoc, drop_app_length' by (rewrite length_app; cbn; lia).
    by rewrite port_of_int.
  - intros host6 Hc6. unfold parseAddress. rewrite bool_decide_true by done.
    change (js "[" ++ host6 ++ js "]:" ++ print_int port) with (([cOpen] ++ host6) ++ [cClose] ++ (cColon :: print_int port)).
    rewrite indexOf_notin by (apply not_elem_of_cons; split; [done|done]). cbn [indexOf app]. rewrite decide_True by done.
    cbn [fmap option_fmap option_map length]. rewrite Nat.add_0_r. cbn [drop Nat.sub]. rewrite Nat.sub_0_r.
    rewrite drop_0, take_app_length. rewrite cons_middle, app_assoc, drop_app_length' by (rewrite length_app; cbn; lia).
    rewrite decide_True by done. by rewrite port_of_int.
Qed.

Lemma udp_address_read_witness :
  parseAddress (js "10.0.0.4:7946") = (js "10.0.0.4", Some 7946) ∧ parseAddress (js "[::1]:4000") = (js "::1", Some 4000).
Proof.
  split.
  - apply (udp_address_read (js "10.0.0.4") 7946); [done|done|by apply (bool_decide_unpack _); vm_compute|by apply (bool_decide_unpack _); vm_compute].
  - refine (proj2 (udp_address_read (js "h") 4000 _ _ _ _) (js "::1") _); [done|done|by apply (bool_decide_unpack _); vm_compute|by apply (bool_decide_unpack _); vm_compute|by apply (bool_decide_unpack _); vm_compute].
Defined.

(** * Examples *)

(** A MAC and a codec to run the model on. *)
Definition example_mac (k b : bytes) : bytes := replicate 31 0 ++ [foldr Z.add 0 (k ++ b)].
Definition example_message : GossipMessage :=
  mkMessage (js "a") [mkGEntry (js "a") (Some (js "10.0.0.4:7946")) None (Some [(js "zone", js "1")]) 3 true].
Definition example_encode (_ : json) : option bytes := Some [123; 125].
Definition example_decode (b : bytes) : option json := if bool_decide (b = [123; 125]) then Some (message_json example_message) else None.
Definition example_udp : UdpGossipTransport := onReceive (newUdp 7946 None [1; 2; 3] None).
Definition example_payload : bytes := payload_of example_mac 1000 [123; 125] (Some [1; 2; 3]).

(** A datagram that was made at 1000: let through until 31000, not at 31001. *)
Lemma udp_wire_witness :
  onDatagram example_mac example_decode 31000 example_payload example_udp
  = Some (js "a", [Entry (wire_entry (mkGEntry (js "a") (Some (js "10.0.0.4:7946")) None (Some [(js "zone", js "1")]) 3 true))])
  ∧ onDatagram example_mac example_decode 31001 example_payload example_udp = None.
Proof.
  assert (∀ now', 0 ≤ now' < two53 → onDatagram example_mac example_decode now' example_payload example_udp
    = if bool_decide (ud_secret example_udp = None ∨ Z.abs (now' - 1000) ≤ 30000)
      then Some (msg_from example_message, to_wire <$> msg_members example_message) else None) as Hw.
  { intros now' Hn. eapply (udp_wire example_mac example_encode example_decode) with (u := example_udp) (ref := 0%nat) (to := js "10.0.0.5:7946");
      [by intros| |done|by vm_compute|done|done|done|done|done|done|done|by vm_compute]. repeat constructor; by vm_compute. }
  split; rewrite Hw by done; [by rewrite bool_decide_true by (right; lia)|]. rewrite bool_decide_false; [done|]. intros [|]; [done|lia].
Defined.


(** A port above 65535 passes the parser: the call throws, although failures are said to
    be logged only. *)
Example bad_port_throws :
  (send example_mac example_encode 0 (js "10.0.0.5:70000") 0 example_message example_udp).2 = Threw.
Proof. by vm_compute. Qed.

(** A message object that is sent again keeps the timestamp of its first sending. *)
Example stale_when_resent :
  let u := (send example_mac example_encode 0 (js "10.0.0.5:7946") 0 example_message example_udp).1 in
  match (send example_mac example_encode 40000 (js "10.0.0.5:7946") 0 example_message u).2 with
  | Datagram payload _ _ => onDatagram example_mac example_decode 40000 payload example_udp = None
  | _ => False
  end.
Proof. by vm_compute. Qed.

(** An array of strings is let through as metadata. *)
Example array_metadata : isStringRecord (Some (JArr [JStr (js "x")])) = Some [(js "0", js "x")].
Proof. by vm_compute. Qed.
