(* ===== verification/TreeTheorems.v ===== *)
(** The media pipes follow the trees of the rooms, and the trees follow the cluster. *)

From S2P Require Import Prelude JsMap JsNumber Uint8Array CascadePlan CascadePlanTheorems Sfu SfuTheorems CascadeTree.

Implicit Types (t : CascadeTree) (b : CascadeBridge) (m : ReferenceSfuMedia) (h : list SfuNode).

(** * Pipes *)

(** What an event does to the pipe [key] of a room. *)
Definition link_after (e : CascadeTreeEvent) (room key : jsstr) (P : Prop) : Prop :=
  match e with
  | LinkCreated room' from to => P ∨ (room = room' ∧ key = cascadeLinkKey from to)
  | LinkDropped room' from to => P ∧ ¬ (room = room' ∧ key = cascadeLinkKey from to)
  | _ => P
  end.

Lemma pipeLink_spec room from to m room' key :
  key ∈ getLinks room' (pipeLink room from to m)
    ↔ key ∈ getLinks room' m ∨ (room' = room ∧ key = cascadeLinkKey from to).
Proof.
  unfold pipeLink. cbv zeta. destruct (shas _ _) eqn:Eh.
  - apply shas_true in Eh. split; [by left|]. by intros [|[-> ->]].
  - unfold getLinks. cbn. rewrite mget_mset. destruct (decide (room' = room)) as [->|]; cbn; [|naive_solver].
    rewrite elem_of_sadd. naive_solver.
Qed.

Lemma unpipeLink_spec room from to m room' key :
  key ∈ getLinks room' (unpipeLink room from to m)
    ↔ key ∈ getLinks room' m ∧ ¬ (room' = room ∧ key = cascadeLinkKey from to).
Proof.
  unfold unpipeLink. cbv zeta. destruct (mget room (md_links m)) as [set|] eqn:Em.
  - destruct (shas _ set) eqn:Eh.
    + unfold getLinks. cbn. destruct (decide (sdel (cascadeLinkKey from to) set = [])) as [Hnil|_].
      * rewrite mget_mdel. destruct (decide (room' = room)) as [->|]; [|naive_solver].
        rewrite Em. cbn. split; [by intros ?%not_elem_of_nil|]. intros [Hin Hne].
        assert (key ∈ sdel (cascadeLinkKey from to) set) as Hd by (rewrite elem_of_sdel; naive_solver).
        rewrite Hnil in Hd. done.
      * rewrite mget_mset. destruct (decide (room' = room)) as [->|]; [|naive_solver].
        rewrite Em. cbn. rewrite elem_of_sdel. naive_solver.
    + apply shas_false in Eh. split; [|by intros []]. intros Hin. split; [done|]. intros [-> ->]. apply Eh.
      unfold getLinks in Hin. by rewrite Em in Hin.
  - split; [|by intros []]. intros Hin. split; [done|]. intros [-> _]. unfold getLinks in Hin. rewrite Em in Hin.
    by apply not_elem_of_nil in Hin.
Qed.

Lemma br_event_links e b room key : br_attached b = true →
  br_attached (br_event b e) = true
  ∧ (key ∈ getLinks room (br_media (br_event b e)) ↔ link_after e room key (key ∈ getLinks room (br_media b))).
Proof.
  intros Ha. unfold br_event. rewrite Ha. destruct e; cbn [link_after]; try done.
  - split; [done|]. cbn. apply pipeLink_spec.
  - split; [done|]. cbn. apply unpipeLink_spec.
Qed.

Definition links_after (es : list CascadeTreeEvent) (room key : jsstr) (P : Prop) : Prop :=
  fold_left (λ P e, link_after e room key P) es P.

Lemma link_after_iff e room key P Q : (P ↔ Q) → link_after e room key P ↔ link_after e room key Q.
Proof. intros E. destruct e; cbn; rewrite ?E; done. Qed.
Lemma links_after_iff es room key P Q : (P ↔ Q) → links_after es room key P ↔ links_after es room key Q.
Proof.
  revert P Q. induction es as [|e es IH]; intros P Q E; [done|]. unfold links_after. rewrite !fold_left_cons.
  by apply IH, link_after_iff.
Qed.

Lemma br_events_links es b room key : br_attached b = true →
  br_attached (br_events es b) = true
  ∧ (key ∈ getLinks room (br_media (br_events es b)) ↔ links_after es room key (key ∈ getLinks room (br_media b))).
Proof.
  revert b. induction es as [|e es IH]; intros b Ha; [done|]. unfold br_events, links_after. rewrite !fold_left_cons.
  destruct (br_event_links e b room key Ha) as [Ha' He]. destruct (IH (br_event b e) Ha') as [Ha'' Hes].
  split; [exact Ha''|]. unfold br_events in Hes. rewrite Hes. by apply links_after_iff.
Qed.

(** Events of one room, only drops or only creations. *)
Lemma links_after_drops room room' (l : list CascadeLink) key P :
  links_after ((λ l, LinkDropped room l.1 l.2) <$> l) room' key P ↔ P ∧ ¬ (room' = room ∧ key ∈ linkKey <$> l).
Proof.
  revert P. induction l as [|x l IH]; intros P; cbn.
  - rewrite elem_of_nil. naive_solver.
  - unfold links_after in *. cbn. rewrite IH, elem_of_cons. unfold linkKey at 2. naive_solver.
Qed.
Lemma links_after_creates room room' (l : list CascadeLink) key P :
  links_after ((λ l, LinkCreated room l.1 l.2) <$> l) room' key P ↔ P ∨ (room' = room ∧ key ∈ linkKey <$> l).
Proof.
  revert P. induction l as [|x l IH]; intros P; cbn.
  - rewrite elem_of_nil. naive_solver.
  - unfold links_after in *. cbn. rewrite IH, elem_of_cons. unfold linkKey at 2. naive_solver.
Qed.
Lemma links_after_app es1 es2 room key P :
  links_after (es1 ++ es2) room key P = links_after es2 room key (links_after es1 room key P).
Proof. unfold links_after. apply fold_left_app. Qed.
Lemma links_after_other es room key P :
  Forall (λ e, match e with LinkCreated _ _ _ | LinkDropped _ _ _ => False | _ => True end) es →
  links_after es room key P = P.
Proof.
  revert P. induction es as [|e es IH]; intros P Hf; [done|]. apply Forall_cons in Hf as [He Hf].
  unfold links_after in *. rewrite fold_left_cons, IH by done. by destruct e.
Qed.

(** The links of a room's current plan. *)
Definition room_link t (room key : jsstr) : Prop :=
  ∃ rt, mget room (ct_rooms t) = Some rt ∧ key ∈ linkKey <$> pl_links (rm_plan rt).
Definition room_links (rt : option RoomTree) : list CascadeLink :=
  match rt with Some rt => pl_links (rm_plan rt) | None => [] end.
Lemma room_link_alt t room key : room_link t room key ↔ key ∈ linkKey <$> room_links (mget room (ct_rooms t)).
Proof.
  unfold room_link. destruct (mget room (ct_rooms t)) as [rt|]; cbn; [naive_solver|].
  rewrite elem_of_nil. naive_solver.
Qed.

(** [_diff] turns the old pipes into the new ones. *)
Lemma diff_links room old new room' key P :
  (room' = room → P ↔ key ∈ linkKey <$> match old with Some p => pl_links p | None => [] end) →
  links_after (diff room old new) room' key P ↔ if decide (room' = room) then key ∈ linkKey <$> pl_links new else P.
Proof.
  set (o := match old with Some p => pl_links p | None => [] end). intros HP. unfold diff. fold o. cbv zeta.
  rewrite links_after_app, links_after_creates, links_after_drops. destruct (decide (room' = room)) as [->|Hne]; [|naive_solver].
  specialize (HP eq_refl). rewrite HP.
  assert (Hkey : ∀ (l : list CascadeLink) (ks : list jsstr),
    key ∈ linkKey <$> filter (λ x, linkKey x ∉ ks) l ↔ key ∈ linkKey <$> l ∧ key ∉ ks).
  { intros l ks. split.
    - intros (x & -> & Hx)%list_elem_of_fmap. apply list_elem_of_filter in Hx as [Hk Hx]. split; [|done].
      by apply list_elem_of_fmap_2.
    - intros [(x & -> & Hx)%list_elem_of_fmap Hk]. apply list_elem_of_fmap_2. by apply list_elem_of_filter. }
  rewrite !Hkey. destruct (decide (key ∈ linkKey <$> pl_links new)), (decide (key ∈ linkKey <$> o)); naive_solver.
Qed.

(** The bridge files the pipes it made, for its [detach]. *)
Record synced b : Prop := {
  sy_attached : br_attached b = true;
  sy_wf : mwf (br_links b);
  sy_rooms room links : mget room (br_links b) = Some links → mwf links;
  sy_keys room key : key ∈ mkeys (default [] (mget room (br_links b))) ↔ key ∈ getLinks room (br_media b);
  sy_entries room links key l : mget room (br_links b) = Some links → mget key links = Some l →
    key = cascadeLinkKey l.1 l.2;
}.

Lemma mkeys_mset_elem {K V} `{EqDecision K} (k k' : K) (v : V) (m : jmap K V) :
  k' ∈ mkeys (mset k v m) ↔ k' = k ∨ k' ∈ mkeys m.
Proof.
  rewrite <- !mget_is_Some_keys, mget_mset. destruct (decide (k' = k)) as [->|]; [|naive_solver].
  split; [by left|by eexists].
Qed.
Lemma mkeys_mdel_elem {K V} `{EqDecision K} (k k' : K) (m : jmap K V) :
  k' ∈ mkeys (mdel k m) ↔ k' ≠ k ∧ k' ∈ mkeys m.
Proof. rewrite mkeys_mdel, list_elem_of_filter. naive_solver. Qed.

Lemma created_synced room from to b : synced b → synced (br_on_created room from to b).
Proof.
  intros [Y0 Y1 Y2 Y3 Y4]. unfold br_on_created. cbv zeta. constructor; cbn -[mkeys]; [done|by apply mwf_mset| | |].
  - intros room' links. rewrite mget_mset. destruct (decide (room' = room)) as [->|]; [|apply Y2].
    intros [= <-]. apply mwf_mset. destruct (mget room (br_links b)) eqn:E; cbn; [by eapply Y2|apply mwf_nil].
  - intros room' key. rewrite pipeLink_spec, <- Y3, mget_mset. destruct (decide (room' = room)) as [->|]; [|naive_solver].
    cbn -[mkeys]. rewrite mkeys_mset_elem. naive_solver.
  - intros room' links key l. rewrite mget_mset. destruct (decide (room' = room)) as [->|]; [|by apply Y4].
    intros [= <-]. rewrite mget_mset. destruct (decide (key = _)) as [->|]; [by intros [= <-]|].
    destruct (mget room (br_links b)) eqn:E; cbn; [by apply (Y4 room)|done].
Qed.

Lemma dropped_synced room from to b : synced b → synced (br_on_dropped room from to b).
Proof.
  intros [Y0 Y1 Y2 Y3 Y4]. unfold br_on_dropped. cbv zeta.
  set (links' := match mget room (br_links b) with Some _ => _ | None => _ end).
  assert (Hl : mwf links' ∧ ∀ room', default [] (mget room' links')
      = if decide (room' = room) then mdel (cascadeLinkKey from to) (default [] (mget room (br_links b)))
        else default [] (mget room' (br_links b))).
  { unfold links'. destruct (mget room (br_links b)) as [links|] eqn:E; cbn.
    - destruct (decide (mdel _ links = [])) as [->|]; (split; [by apply mwf_mdel || by apply mwf_mset|]); intros room'.
      + rewrite mget_mdel. by destruct (decide _).
      + rewrite mget_mset. by destruct (decide _).
    - split; [done|]. intros room'. by destruct (decide (room' = room)) as [->|]; [rewrite E|]. }
  destruct Hl as [Hwf Hl]. clearbody links'.
  assert (Hsub : ∀ room' links key l, mget room' links' = Some links → mget key links = Some l →
    ∃ links0, mget room' (br_links b) = Some links0 ∧ mget key links0 = Some l).
  { intros room' links key l Hr Hk. specialize (Hl room'). rewrite Hr in Hl. cbn in Hl.
    destruct (decide (room' = room)) as [->|]; subst links.
    - rewrite mget_mdel in Hk. destruct (decide _); [done|]. destruct (mget room (br_links b)); [eauto|done].
    - destruct (mget room' (br_links b)); [eauto|done]. }
  constructor; cbn -[mkeys]; [done|done| | |].
  - intros room' links Hr. specialize (Hl room'). rewrite Hr in Hl. cbn in Hl.
    destruct (decide (room' = room)) as [->|]; subst links.
    + apply mwf_mdel. destruct (mget room (br_links b)) eqn:E; cbn; [by eapply Y2|apply mwf_nil].
    + destruct (mget room' (br_links b)) eqn:E; cbn; [by eapply Y2|apply mwf_nil].
  - intros room' key. rewrite unpipeLink_spec, Hl. destruct (decide (room' = room)) as [->|].
    + rewrite mkeys_mdel_elem, Y3. naive_solver.
    + rewrite Y3. naive_solver.
  - intros room' links key l Hr Hk. destruct (Hsub _ _ _ _ Hr Hk) as (links0 & Hr0 & Hk0). by eapply Y4.
Qed.

Lemma event_synced e b :
  (∀ room, e = TreeDropped room → ∀ key, key ∉ getLinks room (br_media b)) → synced b → synced (br_event b e).
Proof.
  intros He Hb. unfold br_event. rewrite (sy_attached _ Hb). destruct e; try done.
  - by apply created_synced.
  - by apply dropped_synced.
  - specialize (He _ eq_refl). destruct Hb as [Y0 Y1 Y2 Y3 Y4]. constructor; cbn -[mkeys]; [done|by apply mwf_mdel| | |].
    + intros room' links. rewrite mget_mdel. destruct (decide _); [done|apply Y2].
    + intros room' key. rewrite mget_mdel. destruct (decide (room' = roomId)) as [->|]; [|apply Y3]. cbn.
      split; [by intros ?%not_elem_of_nil|]. by intros ?%He.
    + intros room' links key l. rewrite mget_mdel. destruct (decide _); [done|apply Y4].
Qed.

Lemma events_synced es b :
  Forall (λ e, match e with TreeDropped _ => False | _ => True end) es → synced b → synced (br_events es b).
Proof.
  revert b. induction es as [|e es IH]; intros b Hes Hb; [done|]. apply Forall_cons in Hes as [He Hes].
  unfold br_events. rewrite fold_left_cons. apply IH; [done|]. apply event_synced; [|done]. by intros room ->.
Qed.

(** [detach] leaves no pipe. *)
Lemma br_detach_links b room : synced b → getLinks room (br_media (br_detach b)) = [].
Proof.
  intros [Y0 Y1 Y2 Y3 Y4]. unfold br_detach. rewrite Y0. cbn [br_media].
  set (all := br_links b ≫= _).
  assert (Hfold : ∀ l m key, key ∈ getLinks room (fold_left (λ m l, unpipeLink l.1.1 l.1.2 l.2 m) l m) →
    key ∈ getLinks room m ∧ ∀ x, x ∈ l → ¬ (room = x.1.1 ∧ key = cascadeLinkKey x.1.2 x.2)).
  { induction l as [|x l IH]; intros m key.
    - intros Hin. split; [done|]. intros x Hx. by apply not_elem_of_nil in Hx.
    - rewrite fold_left_cons. intros [Hin Hl]%IH. apply unpipeLink_spec in Hin as [Hin Hx]. split; [done|].
      intros y [->|Hy]%elem_of_cons; [done|by apply Hl]. }
  destruct (getLinks room _) as [|key l] eqn:E; [done|]. exfalso.
  destruct (Hfold all (br_media b) key ltac:(rewrite E; by left)) as [Hin Hno].
  apply Y3, mget_is_Some_keys in Hin as [[from to] Hk].
  destruct (mget room (br_links b)) as [links|] eqn:Er; [|done]. cbn in Hk.
  apply (Hno (room, from, to)).
  - unfold all. apply list_elem_of_bind. exists (room, links). split; [|by apply mget_elem]. cbn.
    apply list_elem_of_fmap. exists (key, (from, to)). split; [done|by apply mget_elem].
  - split; [done|]. by apply (Y4 room links key (from, to)).
Qed.

(** * The trees *)

(** The bridge that was attached before the first build, after the events of [t]. *)
Definition bridge_of t : CascadeBridge := br_events (ct_out t) (mkBridge true [] newMedia).

Record tree_inv t : Prop := {
  ti_wf : mwf (ct_rooms t);
  ti_params room rt : mget room (ct_rooms t) = Some rt → 1 ≤ ct_fanout t ∧ 1 ≤ ct_viewersPerNode t;
  ti_pipes room key : key ∈ getLinks room (br_media (bridge_of t)) ↔ room_link t room key;
  ti_sync : synced (bridge_of t);
}.

Lemma bridge_emits t t' es : ct_out t' = ct_out t ++ es → bridge_of t' = br_events es (bridge_of t).
Proof. intros E. unfold bridge_of. rewrite E. unfold br_events. apply fold_left_app. Qed.

Lemma bridge_links t t' es room key :
  ct_out t' = ct_out t ++ es → synced (bridge_of t) →
  key ∈ getLinks room (br_media (bridge_of t'))
    ↔ links_after es room key (key ∈ getLinks room (br_media (bridge_of t))).
Proof. intros E Hs. rewrite (bridge_emits _ _ _ E). apply br_events_links, Hs. Qed.

Lemma diff_no_drop room old new :
  Forall (λ e, match e with TreeDropped _ => False | _ => True end) (diff room old new).
Proof. unfold diff. cbv zeta. apply Forall_app. split; apply Forall_fmap, Forall_true; done. Qed.

(** Nodes learn of rooms and forget them. *)
Lemma on_index_core id f nodes h : (∀ n, node_core (f n) = node_core n) → heap_core (on_index id f nodes h) = heap_core h.
Proof. intros Hf. unfold on_index. destruct (mget id nodes); [by apply core_alter|done]. Qed.
Lemma fold_core (g : list SfuNode → jsstr → list SfuNode) (ids : list jsstr) h :
  (∀ h id, heap_core (g h id) = heap_core h) → heap_core (fold_left g ids h) = heap_core h.
Proof.
  intros Hg. revert h. induction ids as [|id ids IH]; intros h; [done|]. by rewrite fold_left_cons, IH.
Qed.
Lemma untrack_ids_core room nodes ids h :
  heap_core (fold_left (λ h id, on_index id (untrackRoom room) nodes h) ids h) = heap_core h.
Proof. apply fold_core. intros h' id. apply on_index_core, core_untrack. Qed.

(** The nodes a tree may use. *)
Lemma node_ids_keys nodes h : nodes_ok nodes h → node_id h <$> mvals nodes = mkeys nodes.
Proof.
  intros [Hwf Hids]. unfold mvals, mkeys. rewrite <- list_fmap_compose. apply list_fmap_ext.
  intros i [id r] Hi. cbn. apply Hids. apply elem_mget; [done|]. by eapply list_elem_of_lookup_2.
Qed.

Lemma activePool_spec origin nodes h :
  nodes_ok nodes h →
  NoDup (activePool origin nodes h) ∧ ∀ id, id ∈ activePool origin nodes h → id ≠ origin ∧ active_id nodes h id.
Proof.
  intros Hok. split.
  - unfold activePool, active_refs. apply NoDup_fmap_filter, NoDup_fmap_filter. rewrite (node_ids_keys _ _ Hok). apply Hok.
  - intros id (r & -> & Hr)%list_elem_of_fmap. apply list_elem_of_filter in Hr as [Hne Hr]. split; [done|].
    apply list_elem_of_filter in Hr as [Hact Hr]. exists r. split; [|done]. unfold mvals in Hr.
    apply list_elem_of_fmap in Hr as ([id r'] & -> & Hin). cbn in *. apply elem_mget in Hin; [|apply Hok].
    by rewrite (proj2 (proj2 Hok id r' Hin)).
Qed.

Lemma plan_members p pl :
  NoDup (pp_availableNodeIds p) → planCascadeTree p = Some pl →
  (1 ≤ pp_fanout p ∧ 1 ≤ pp_viewersPerNode p)
  ∧ ∀ id, id ∈ mkeys (pl_nodes pl) → id = pp_originId p ∨ id ∈ pp_availableNodeIds p.
Proof.
  intros Hnd Hp. destruct (proj2 (plan_made p Hnd) pl Hp) as (g & tier & l & rest & Hm).
  split; [apply (mb_fanout _ _ _ _ _ _ Hm)|]. intros id Hid. rewrite (mb_nodes _ _ _ _ _ _ Hm) in Hid.
  apply mget_is_Some_keys in Hid as [i Hi]. apply (node_ref p pl g tier l rest Hm) in Hi as (n & Hn & <-).
  assert (Hin : pn_id n ∈ ids_of (shape (gr_heap g)) ++ rest).
  { apply elem_of_app. left. rewrite ids_of_shape. apply list_elem_of_fmap_2. by eapply list_elem_of_lookup_2. }
  rewrite (mb_ids _ _ _ _ _ _ Hm) in Hin. apply elem_of_cons in Hin as [|Hin]; [by left|]. right.
  by apply list_elem_of_filter in Hin as [].
Qed.

(** What [build] does when it does not throw. *)
Record built (room origin : jsstr) (viewers : Z) (nodes : jmap jsstr nat) h t h' t' (pl : CascadePlan) : Prop := {
  bu_core : heap_core h' = heap_core h;
  bu_inv : tree_inv t';
  bu_options : ct_fanout t' = ct_fanout t ∧ ct_viewersPerNode t' = ct_viewersPerNode t;
  bu_rooms : ct_rooms t' = mset room (mkRoomTree origin viewers pl) (ct_rooms t);
  bu_members id : id ∈ mkeys (pl_nodes pl) → id = origin ∨ (id ≠ origin ∧ active_id nodes h id);
}.

Lemma build_spec room origin viewers nodes h t :
  nodes_ok nodes h → tree_inv t →
  (1 ≤ ct_fanout t ∧ 1 ≤ ct_viewersPerNode t ∧
    ∃ h' t' pl, build room origin viewers nodes h t = (h', t', Some pl) ∧ built room origin viewers nodes h t h' t' pl)
  ∨ (¬ (1 ≤ ct_fanout t ∧ 1 ≤ ct_viewersPerNode t) ∧ build room origin viewers nodes h t = (h, t, None)).
Proof.
  intros Hn Ht. destruct (activePool_spec origin nodes h Hn) as [Hnd Hact].
  set (p := build_params origin viewers nodes h t).
  destruct (plan_made p Hnd) as [Hnone _]. unfold build. fold p.
  destruct (planCascadeTree p) as [pl|] eqn:Ep.
  2: { right. split; [|done]. destruct Hnone as [Hnone _]. specialize (Hnone eq_refl). unfold p in Hnone. cbn in Hnone. lia. }
  left. destruct (plan_members p pl Hnd Ep) as [[Hf Hv] Hmem]. cbn in Hf, Hv, Hmem.
  split; [done|]. split; [done|]. cbv zeta. set (h2 := fold_left _ (mkeys (pl_nodes pl)) _).
  match goal with |- ∃ _ _ _, (h2, ?tf, Some pl) = _ ∧ _ => set (t' := tf) end.
  exists h2, t', pl. split; [done|].
  set (prev := rm_plan <$> mget room (ct_rooms t)) in *.
  assert (Hout : ∃ es, ct_out t' = ct_out t ++ diff room prev pl ++ es
    ∧ Forall (λ e, match e with LinkCreated _ _ _ | LinkDropped _ _ _ | TreeDropped _ => False | _ => True end) es).
  { unfold t'. destruct (decide (0 < pl_unmetViewers pl)); cbn; eexists; rewrite <- !app_assoc; (split; [done|]).
    - apply Forall_app. split; [by apply Forall_fmap, Forall_true|by repeat constructor].
    - apply Forall_app. split; [by apply Forall_fmap, Forall_true|by repeat constructor]. }
  assert (Hrooms : ct_rooms t' = mset room (mkRoomTree origin viewers pl) (ct_rooms t)
    ∧ ct_fanout t' = ct_fanout t ∧ ct_viewersPerNode t' = ct_viewersPerNode t).
  { unfold t'. by destruct (decide (0 < pl_unmetViewers pl)). }
  clearbody t'. destruct Hout as (es & Hout & Hes). destruct Hrooms as (Hrooms & Hof & Hov).
  constructor; [| |done|done|].
  - unfold h2. rewrite !fold_core; [done| |].
    + intros h' id. destruct (decide _); [done|]. apply on_index_core, core_untrack.
    + intros h' id. by apply on_index_core.
  - destruct Ht as [T1 T2 T3 T4].
    assert (Hlinks : ∀ room' key, key ∈ getLinks room' (br_media (bridge_of t')) ↔ room_link t' room' key).
    { intros room' key. rewrite (bridge_links _ _ _ _ _ Hout T4), links_after_app, (links_after_other es), diff_links.
      - rewrite room_link_alt, Hrooms, mget_mset. destruct (decide (room' = room)); [done|].
        by rewrite T3, room_link_alt.
      - intros ->. rewrite T3, room_link_alt. unfold prev. by destruct (mget room (ct_rooms t)).
      - eapply Forall_impl; [exact Hes|]. by intros []. }
    constructor; [rewrite Hrooms; by apply mwf_mset| |done|].
    + intros room' rt Hr. lia.
    + rewrite (bridge_emits _ _ _ Hout). apply events_synced; [|done]. apply Forall_app. split; [apply diff_no_drop|].
      eapply Forall_impl; [exact Hes|]. by intros [].
  - intros id [->|Hid]%Hmem; [by left|]. right. by apply Hact.
Qed.

Lemma detach_spec room nodes h t rt :
  tree_inv t → mget room (ct_rooms t) = Some rt →
  ∃ h' t', tree_detach room nodes h t = (h', t', true) ∧ heap_core h' = heap_core h ∧ tree_inv t'
    ∧ ct_rooms t' = mdel room (ct_rooms t) ∧ ct_fanout t' = ct_fanout t ∧ ct_viewersPerNode t' = ct_viewersPerNode t.
Proof.
  intros [T1 T2 T3 T4] Hr. unfold tree_detach. rewrite Hr. cbv zeta. do 2 eexists. split; [done|].
  split; [apply untrack_ids_core|]. split; [|done].
  set (drops := (λ l : CascadeLink, LinkDropped room l.1 l.2) <$> pl_links (rm_plan rt)).
  match goal with |- tree_inv ?tf => set (t' := tf) end.
  assert (Hout : ct_out t' = ct_out t ++ drops ++ [TreeDropped room]) by (symmetry; apply app_assoc).
  assert (Hrooms : ct_rooms t' = mdel room (ct_rooms t)) by done.
  assert (Hof : ct_fanout t' = ct_fanout t ∧ ct_viewersPerNode t' = ct_viewersPerNode t) by done. clearbody t'.
  assert (Hgone : ∀ room' key, links_after drops room' key (key ∈ getLinks room' (br_media (bridge_of t)))
    ↔ room' ≠ room ∧ room_link t room' key).
  { intros room' key. unfold drops. rewrite links_after_drops, T3. split; [|naive_solver]. intros [(rt' & Hr' & Hk) Hn].
    split; [|by exists rt']. intros ->. rewrite Hr in Hr'. injection Hr' as <-. by apply Hn. }
  constructor.
  - rewrite Hrooms. by apply mwf_mdel.
  - intros room' rt'. rewrite Hrooms, mget_mdel. destruct (decide _); [done|]. destruct Hof as [-> ->]. apply T2.
  - intros room' key. rewrite (bridge_links _ _ _ _ _ Hout T4), links_after_app, (links_after_other [_]) by (by repeat constructor).
    rewrite Hgone, !room_link_alt, Hrooms, mget_mdel. destruct (decide (room' = room)) as [->|]; [|naive_solver].
    cbn. rewrite elem_of_nil. naive_solver.
  - rewrite (bridge_emits _ _ _ Hout). unfold br_events. rewrite fold_left_app. cbn [fold_left].
    pose proof (λ key, proj2 (br_events_links drops (bridge_of t) room key (sy_attached _ T4))) as Hd. unfold br_events in Hd.
    apply event_synced.
    + intros room' [= <-] key Hk. apply Hd, Hgone in Hk as [Hne _]. done.
    + apply events_synced; [|done]. apply Forall_fmap, Forall_true. done.
Qed.

(** * A lost node *)

Definition in_tree t (room id : jsstr) : Prop :=
  ∃ rt, mget room (ct_rooms t) = Some rt ∧ id ∈ mkeys (pl_nodes (rm_plan rt)).

Section gone.
Context (id0 : jsstr) (nodes : jmap jsstr nat) (h0 : list SfuNode) (t0 : CascadeTree).
Context (Hnodes : nodes_ok nodes h0) (Hdead : ¬ active_id nodes h0 id0).

(** The nodes a tree did not have before are active. *)
Definition relay_of t (room id : jsstr) : Prop :=
  ∃ rt, mget room (ct_rooms t) = Some rt ∧ id ∈ mkeys (pl_nodes (rm_plan rt)) ∧ id ≠ rm_originId rt.

Record regrowing h t : Prop := {
  rg_core : heap_core h = heap_core h0;
  rg_inv : tree_inv t;
  rg_relays room id : relay_of t room id → relay_of t0 room id ∨ active_id nodes h0 id;
}.

Lemma nodes_ok_core h : heap_core h = heap_core h0 → nodes_ok nodes h.
Proof.
  intros Hc. destruct Hnodes as [Hwf Hids]. split; [done|]. intros id r Hr. rewrite (core_id _ _ r Hc).
  apply (f_equal length) in Hc. unfold heap_core in Hc. rewrite !length_fmap in Hc. rewrite Hc. by apply Hids.
Qed.
Lemma active_id_core h id : heap_core h = heap_core h0 → active_id nodes h id ↔ active_id nodes h0 id.
Proof. intros Hc. unfold active_id. by setoid_rewrite (core_active _ _ _ Hc). Qed.

Lemma rooms_gone rem h t :
  regrowing h t → NoDup rem.*1 →
  (∀ room rt, (room, rt) ∈ rem → mget room (ct_rooms t) = Some rt) →
  (∀ room, in_tree t room id0 → room ∈ rem.*1) →
  let '(h', t') := fold_left (room_node_gone id0 nodes) rem (h, t) in
  regrowing h' t' ∧ ∀ room, ¬ in_tree t' room id0.
Proof.
  revert h t. induction rem as [|[room rt] rem IH]; intros h t Hg Hnd Hin Hrem.
  { split; [done|]. intros room Ht. apply Hrem in Ht. by apply not_elem_of_nil in Ht. }
  rewrite fold_left_cons. apply NoDup_cons in Hnd as [Hr0 Hnd]. cbn [fst] in Hr0.
  pose proof (Hin room rt ltac:(by left)) as Hr. pose proof Hg as [Hcore Hinv Hrel].
  assert (Hne : ∀ room' rt', (room', rt') ∈ rem → room' ≠ room)
    by (intros room' rt' Hx ->; by apply Hr0, (list_elem_of_fmap_2 fst _ (room, rt'))).
  unfold room_node_gone at 2. destruct (mhas id0 (pl_nodes (rm_plan rt))) eqn:Eh.
  2: { apply IH; [done|done|intros; apply Hin; by right|]. intros room' Ht. pose proof (Hrem _ Ht) as Hx. cbn in Hx.
    apply elem_of_cons in Hx as [->|]; [|done]. destruct Ht as (rt' & Hr' & Hk). rewrite Hr in Hr'. injection Hr' as <-.
    apply mget_is_Some_keys, mhas_true in Hk. congruence. }
  apply mhas_true, mget_is_Some_keys in Eh. destruct (decide (id0 = rm_originId rt)) as [Ho|Ho].
  - destruct (detach_spec room nodes h t rt Hinv Hr) as (h' & t' & -> & Hc' & Hinv' & Hrooms & Hopt).
    assert (Hemit : tree_inv (ct_emit (OriginLost room id0) t')).
    { assert (Eb : bridge_of (ct_emit (OriginLost room id0) t') = bridge_of t').
      { rewrite (bridge_emits t' _ [OriginLost room id0]) by done. unfold br_events. cbn. unfold br_event.
        by rewrite (sy_attached _ (ti_sync _ Hinv')). }
      destruct Hinv' as [T1 T2 T3 T4]. constructor; [done|done|by rewrite Eb|by rewrite Eb]. }
    apply IH; cbn [ct_emit ct_rooms]; rewrite ?Hrooms; try done.
    + constructor; [congruence|done|]. intros room' id (rt' & Hr' & Hk). cbn in Hr'. rewrite Hrooms, mget_mdel in Hr'.
      destruct (decide _); [done|]. apply Hrel. by exists rt'.
    + intros room' rt' Hx. rewrite mget_mdel_ne by (by eapply Hne). apply Hin. by right.
    + intros room' (rt' & Hr' & Hk). cbn in Hr'. rewrite Hrooms, mget_mdel in Hr'. destruct (decide (room' = room)); [done|].
      assert (Hx : room' ∈ ((room, rt) :: rem).*1) by (apply Hrem; by exists rt'). cbn in Hx.
      by apply elem_of_cons in Hx as [|].
  - destruct (build_spec room (rm_originId rt) (rm_viewerCount rt) nodes h t (nodes_ok_core h Hcore) Hinv)
      as [(_ & _ & h' & t' & pl & -> & [B1 B2 B3 B4 B5])|[Hn _]]; [|by destruct Hn; eapply ti_params]. cbn [fst].
    setoid_rewrite (active_id_core h) in B5; [|done].
    apply IH; rewrite ?B4; try done.
    + constructor; [congruence|done|]. intros room' id (rt' & Hr' & Hk & Hno). rewrite B4, mget_mset in Hr'.
      destruct (decide (room' = room)) as [->|]; [|apply Hrel; by exists rt']. injection Hr' as <-. cbn in Hk, Hno.
      right. by destruct (B5 id Hk) as [|[_ ?]].
    + intros room' rt' Hx. rewrite mget_mset_ne by (by eapply Hne). apply Hin. by right.
    + intros room' (rt' & Hr' & Hk). rewrite B4, mget_mset in Hr'. destruct (decide (room' = room)) as [->|].
      * injection Hr' as <-. cbn in Hk. by destruct (B5 id0 Hk) as [|[_ ?]].
      * assert (Hx : room' ∈ ((room, rt) :: rem).*1) by (apply Hrem; by exists rt'). cbn in Hx.
        by apply elem_of_cons in Hx as [|].
Qed.

Lemma onNodeGone_spec :
  tree_inv t0 →
  let '(h', t') := onNodeGone id0 nodes h0 t0 in
  regrowing h' t' ∧ ∀ room, ¬ in_tree t' room id0.
Proof.
  intros Hinv. unfold onNodeGone. apply rooms_gone.
  - constructor; [done|done|by left].
  - apply Hinv.
  - intros room rt. apply elem_mget, Hinv.
  - intros room (rt & Hr & _). apply (mget_is_Some_keys room (ct_rooms t0)). by eexists.
Qed.
End gone.

(** * The tree as a client of the tracker *)

Definition tree_mentions t (id : jsstr) : Prop := ∃ room, relay_of t room id.

#[export, refine] Instance tree_laws : FailureClientLaws CascadeTree := {
  mentions := λ _, tree_mentions;
  client_inv := λ _, tree_inv;
}.
Proof.
  - done.
  - done.
  - done.
  - done.
  - intros r nodes h t h' t' Hg Hinv Hn Hdead. unfold onGone, tree_client in Hg.
    pose proof (onNodeGone_spec (node_id h r) nodes h t Hn Hdead Hinv) as Hs. rewrite Hg in Hs.
    destruct Hs as [[Hcore Hinv' Hrel] Hgone]. split; [done|]. split; [done|]. intros id [room Hr]. split.
    + intros ->. destruct Hr as (rt & Hr & Hk & _). apply (Hgone room). by exists rt.
    + destruct (Hrel room id Hr) as [|]; [left; by exists room|by right].
Defined.

(** * Every run *)

Abbreviation tworld := (World CascadeTree).

Inductive tree_step : tworld → tworld → Prop :=
| ts_cluster w w' : sfu_step w w' → tree_step w w'
| ts_build room origin viewers w : tree_step w (tree_build room origin viewers w).1
| ts_drop room w : tree_step w (tree_drop room w).1.

Lemma tree_build_ok room origin viewers (w : tworld) : world_ok w → world_ok (tree_build room origin viewers w).1.
Proof.
  intros Hok. unfold tree_build.
  destruct (build_spec room origin viewers (cl_nodes (wd_cluster w)) (wd_heap w) (wd_client w)) as
    [(_ & _ & h' & t' & pl & -> & [B1 B2 B3 B4 B5])|[_ ->]].
  - split; [apply (wo_wf _ Hok)|apply (wo_ids _ Hok)].
  - apply (wo_inv _ Hok).
  - apply client_ok; [done|exact B2| |done]. intros id (room' & rt & Hr & Hk & Hne). rewrite B4, mget_mset in Hr.
    destruct (decide (room' = room)) as [->|]; [|left; by exists room', rt]. injection Hr as <-. cbn in Hk, Hne.
    right. by destruct (B5 id Hk) as [|[_ ?]].
  - by destruct w.
Qed.

Lemma tree_drop_ok room (w : tworld) : world_ok w → world_ok (tree_drop room w).1.
Proof.
  intros Hok. unfold tree_drop. destruct (mget room (ct_rooms (wd_client w))) as [rt|] eqn:Er.
  - destruct (detach_spec room (cl_nodes (wd_cluster w)) (wd_heap w) (wd_client w) rt (wo_inv _ Hok) Er)
      as (h' & t' & -> & Hc & Hi & Hrooms & _).
    apply client_ok; [done|exact Hi| |done]. intros id (room' & rt' & Hr & Hk). rewrite Hrooms, mget_mdel in Hr.
    destruct (decide (room' = room)); [done|]. left. by exists room', rt'.
  - unfold tree_detach. rewrite Er. by destruct w.
Qed.

Lemma tree_steps_ok w w' : rtc tree_step w w' → world_ok w → world_ok w'.
Proof.
  induction 1 as [|w1 w2 w3 Hs _ IH]; [done|]. intros Hok. apply IH. destruct Hs.
  - by eapply sfu_step_ok.
  - by apply tree_build_ok.
  - by apply tree_drop_ok.
Qed.

Definition new_tree_world (failureThreshold recoveryThreshold fanout viewersPerNode : option Z) : tworld :=
  mkWorld [] (newCluster failureThreshold recoveryThreshold) (newTracker [] []) (newCascadeTree fanout viewersPerNode).

Lemma new_tree_ok f r fanout viewers : world_ok (new_tree_world f r fanout viewers).
Proof.
  apply new_world_ok.
  - intros id (room & rt & Hr & _). discriminate.
  - constructor.
    + constructor.
    + intros room rt Hr. discriminate.
    + intros room key. rewrite room_link_alt. done.
    + constructor; [done|constructor|done|done|done].
Qed.


(** A node that fails leaves every tree; one that it is the origin of is dropped, not
    re-rooted at it. *)
Theorem failed_node_leaves_trees f r fanout viewers w id x :
  rtc tree_step (new_tree_world f r fanout viewers) w →
  mget id (cl_nodes (wd_cluster w)) = Some x → nd_failed <$> wd_heap w !! x = Some false →
  ∀ room, ¬ in_tree (wd_client (mark_failed x w)) room id.
Proof.
  intros Hrun Hx Hf room. pose proof (tree_steps_ok _ _ Hrun (new_tree_ok f r fanout viewers)) as Hok.
  destruct (wo_ids _ Hok id x Hx) as [_ Hid]. destruct (wd_heap w !! x) as [n|] eqn:En; [|done].
  cbn in Hf. injection Hf as Hf. unfold mark_failed. rewrite En.
  destruct (markFailed_spec n Hf) as (n' & -> & Hid' & Hf' & _). cbv zeta beta iota. set (h := <[x := n']> (wd_heap w)).
  assert (Hlt : (x < length (wd_heap w))%nat) by (by eapply lookup_lt_Some).
  assert (Hids : ∀ y, node_id h y = node_id (wd_heap w) y) by (intros; by eapply node_id_insert).
  unfold on_failed, listens. cbn [wd_set_heap wd_heap wd_tracker]. rewrite Hids, Hid, (wo_listeners _ Hok), Hx.
  rewrite bool_decide_eq_true_2 by done. unfold fireGone. cbv zeta. cbn [wd_set_heap wd_heap wd_tracker].
  rewrite Hids, Hid. rewrite decide_False.
  2: { rewrite (wo_gone _ Hok id x Hx). unfold failed_ref. rewrite En. cbn. congruence. }
  cbn [on_tracker wd_heap wd_cluster wd_client wd_set_heap]. unfold onGone, tree_client. rewrite Hids, Hid.
  pose proof (onNodeGone_spec id (cl_nodes (wd_cluster w)) h (wd_client w)) as Hspec.
  destruct (onNodeGone _ _ h (wd_client w)) as [h' t']. cbn [wd_client]. apply Hspec.
  - split; [apply (wo_wf _ Hok)|]. intros id' y Hy. rewrite Hids. unfold h. rewrite length_insert. by apply (wo_ids _ Hok).
  - intros (y & Hy & Hact). rewrite Hx in Hy. injection Hy as <-. unfold is_active, h in Hact.
    rewrite list_lookup_insert_eq in Hact by done. by rewrite Hf' in Hact.
  - apply (wo_inv _ Hok).
Qed.

(** * Links as pairs *)

(** A key names one link when ids have no [>]. *)
Lemma cascadeLinkKey_inj from to from' to' c :
  js ">" = [c] → c ∉ from → c ∉ from' →
  cascadeLinkKey from to = cascadeLinkKey from' to' → from = from' ∧ to = to'.
Proof.
  intros Hc. unfold cascadeLinkKey. rewrite Hc. revert from'.
  induction from as [|x from IH]; intros [|y from'] Hx Hy; cbn.
  - by intros [= ->].
  - intros [= -> _]. destruct Hy. by left.
  - intros [= -> _]. destruct Hx. by left.
  - intros [= -> E]. apply not_elem_of_cons in Hx as [_ Hx], Hy as [_ Hy].
    by destruct (IH from' Hx Hy E) as [-> ->].
Qed.

(** Otherwise [_diff] takes one link for another: the tree of a room that moves from
    the origin [a] with the leaf [b>c] to the origin [a>b] with the leaf [c] creates
    no pipe and drops none. *)
Example link_key_collision :
  let plan origin leaf :=
    planCascadeTree (mkPlanParams origin 1500 8 1000 [leaf] None) in
  match plan (js "a") (js "b>c"), plan (js "a>b") (js "c") with
  | Some old, Some new => pl_links old ≠ pl_links new ∧ diff (js "room") (Some old) new = []
  | _, _ => False
  end.
Proof. vm_compute. split; [discriminate|reflexivity]. Qed.

(** Planning grows the tree until the frontier holds the viewers at [viewersPerNode]
    each, but seats them at the capacities of the nodes: with default options and
    nodes of the default capacity, a hundred nodes serve 800 viewers of 8000, and 92
    nodes are left out. *)
Example default_capacity_shortfall :
  let nodes := (λ i, newSfuNode (print_int (Z.of_nat i)) (js "eu") None) <$> seq 0 100 in
  let index := imap (λ i n, (nd_id n, i)) nodes in
  match build (js "room") (js "origin") 8000 index nodes (newCascadeTree None None) with
  | (_, _, Some plan) => (msize (pl_nodes plan), pl_servedViewers plan, pl_unmetViewers plan) = (9%nat, 800, 7200)
  | _ => False
  end.
Proof. vm_compute. reflexivity. Qed.

(** * The theorems on a concrete run *)

(** Three nodes, a room on the first with more viewers than one node holds, and the
    second fails. *)
Definition example_tree : tworld :=
  let add id w := addNode (length (wd_heap w)) (wd_set_heap (wd_heap w ++ [newSfuNode id (js "eu") None]) w) in
  let w := add (js "c") (add (js "b") (add (js "a") (new_tree_world None None (Some 2) (Some 100)))) in
  (tree_build (js "room") (js "a") 150 w).1.

Lemma example_tree_run : rtc tree_step (new_tree_world None None (Some 2) (Some 100)) example_tree.
Proof.
  do 3 (eapply rtc_l; [apply ts_cluster, step_new|]). apply rtc_once, ts_build.
Qed.

Example example_tree_links :
  getLinks (js "room") (br_media (bridge_of (wd_client example_tree))) = [js "a>b"; js "a>c"]
  ∧ getLinks (js "room") (br_media (bridge_of (wd_client (mark_failed 1 example_tree)))) = [js "a>c"].
Proof. vm_compute. done. Qed.


Lemma failed_node_leaves_trees_witness :
  ¬ in_tree (wd_client (mark_failed 1 example_tree)) (js "room") (js "b").
Proof.
  apply (failed_node_leaves_trees None None (Some 2) (Some 100) example_tree (js "b") 1); [apply example_tree_run| |];
    vm_compute; reflexivity.
Defined.
