(* ===== verification/HealthTheorems.v ===== *)
(** What probes decide: the streak counters of the cluster against the history of
    results. *)

From S2P Require Import Prelude JsMap Sfu SfuTheorems Placement CascadingRouter RouterTheorems.

(** * The reference: a decision from the history, newest result first *)

Fixpoint run_of (b : bool) (rs : list bool) : Z :=
  match rs with
  | [] => 0
  | r :: rs' => if eqb r b then 1 + run_of b rs' else 0
  end.

(** Failed after as many bad results in a row as the threshold says, until as many
    good ones in a row. *)
Fixpoint verdict (failures recoveries : Z) (rs : list bool) : bool :=
  match rs with
  | [] => false
  | r :: rs' =>
      if verdict failures recoveries rs' then negb (r && bool_decide (recoveries ≤ run_of true rs))
      else negb r && bool_decide (failures ≤ run_of false rs)
  end.

Section health.
Context {A : Type} `{FailureClientLaws A}.
Abbreviation world := (World A).
Implicit Types (w : world).

Definition failed_at w (r : nat) : option bool := nd_failed <$> wd_heap w !! r.
Definition fail_streak w (id : jsstr) : Z := default 0 (mget id (cl_failStreak (wd_cluster w))).
Definition pass_streak w (id : jsstr) : Z := default 0 (mget id (cl_passStreak (wd_cluster w))).
Definition limits w : Z * Z :=
  (default 3 (cl_failureThreshold (wd_cluster w)), default 2 (cl_recoveryThreshold (wd_cluster w))).

(** The counters agree with the history [rs] of the node [r]. *)
Record agrees w (r : nat) (rs : list bool) : Prop := {
  ag_failed : failed_at w r = Some (verdict (limits w).1 (limits w).2 rs);
  ag_up : verdict (limits w).1 (limits w).2 rs = false →
    fail_streak w (node_id (wd_heap w) r) = run_of false rs ∧ pass_streak w (node_id (wd_heap w) r) = 0;
  ag_down : verdict (limits w).1 (limits w).2 rs = true → pass_streak w (node_id (wd_heap w) r) = run_of true rs;
}.

(** What an operation that only flips the failure of [r] keeps. *)
Record flips (r : nat) (b : bool) w w' : Prop := {
  fl_failed x : failed_at w' x = if decide (x = r) then (λ _, b) <$> failed_at w x else failed_at w x;
  fl_ids x : node_id (wd_heap w') x = node_id (wd_heap w) x;
  fl_cluster : cl_nodes (wd_cluster w') = cl_nodes (wd_cluster w)
    ∧ cl_failStreak (wd_cluster w') = cl_failStreak (wd_cluster w)
    ∧ cl_passStreak (wd_cluster w') = cl_passStreak (wd_cluster w) ∧ limits w' = limits w;
}.

Lemma fireGone_keeps r w :
  client_inv (wd_heap w) (wd_client w) → nodes_ok (cl_nodes (wd_cluster w)) (wd_heap w) →
  ¬ active_id (cl_nodes (wd_cluster w)) (wd_heap w) (node_id (wd_heap w) r) →
  heap_core (wd_heap (fireGone r w)) = heap_core (wd_heap w) ∧ wd_cluster (fireGone r w) = wd_cluster w.
Proof.
  intros Hi Hn Hd. unfold fireGone. cbv zeta. destruct (decide _); [done|].
  destruct (onGone r _ _ _) as [h' a'] eqn:Eg. by apply onGone_spec in Eg as [Hcore _].
Qed.

Lemma flip_heap r n n' b w w' :
  wd_heap w !! r = Some n → nd_id n' = nd_id n → nd_failed n' = b →
  heap_core (wd_heap w') = heap_core (<[r := n']> (wd_heap w)) → wd_cluster w' = wd_cluster w → flips r b w w'.
Proof.
  intros Hr Hid Hf Hcore Hc. constructor.
  - intros x. unfold failed_at. rewrite (core_failed _ _ x Hcore). destruct (decide (x = r)) as [->|Hne].
    + rewrite list_lookup_insert_eq by (by eapply lookup_lt_Some). rewrite Hr. cbn. by rewrite Hf.
    + by rewrite list_lookup_insert_ne.
  - intros x. rewrite (core_id _ _ x Hcore). by eapply node_id_insert.
  - unfold limits. by rewrite Hc.
Qed.

Lemma mark_failed_flips r n w :
  world_ok w → wd_heap w !! r = Some n → nd_failed n = false → flips r true w (mark_failed r w).
Proof.
  intros Hok Hr Hf. unfold mark_failed. rewrite Hr. destruct (markFailed_spec n Hf) as (n' & -> & Hid & Hf' & Hrooms).
  set (w1 := wd_set_heap _ w). cbv iota. unfold on_failed.
  assert (Hw1 : heap_core (wd_heap w1) = heap_core (<[r := n']> (wd_heap w)) ∧ wd_cluster w1 = wd_cluster w) by done.
  destruct (listens r w1) eqn:El; [|by eapply flip_heap; try done].
  assert (Hids : ∀ x, node_id (wd_heap w1) x = node_id (wd_heap w) x) by (intros; by eapply node_id_insert).
  assert (Hlt : (r < length (wd_heap w))%nat) by (by eapply lookup_lt_Some).
  destruct (fireGone_keeps r w1) as [Hcore Hc].
  - cbn. rewrite (list_insert_alter (wd_heap w) r n').
    erewrite list_alter_ext; [apply (client_inv_alter (wd_heap w) r (λ m, mkSfuNode (nd_id m) (nd_region n') (nd_capacity n')
      (nd_load n') (nd_failed n') (nd_draining n') (nd_rooms m) (nd_drain n') (nd_collecting n') (nd_out n'))); [done|apply Hok]| |done].
    intros m Hm. rewrite Hr in Hm. injection Hm as <-. rewrite <- Hid, <- Hrooms. by destruct n'.
  - split; [apply (wo_wf _ Hok)|]. intros id x Hx. rewrite Hids. cbn. rewrite length_insert. by apply (wo_ids _ Hok).
  - intros (x & Hx & Hact). unfold listens in El. apply bool_decide_eq_true in El. cbn [w1 wd_set_heap wd_tracker wd_cluster] in *.
    rewrite (wo_listeners _ Hok), Hx in El. injection El as ->. unfold is_active in Hact. cbn in Hact.
    rewrite list_lookup_insert_eq in Hact by done. by rewrite Hf' in Hact.
  - eapply flip_heap; [exact Hr|exact Hid|exact Hf'|by rewrite Hcore|by rewrite Hc].
Qed.

Lemma mark_recovered_flips r n w :
  wd_heap w !! r = Some n → nd_failed n = true → flips r false w (mark_recovered r w).
Proof.
  intros Hr Hf. unfold mark_recovered, markRecovered. rewrite Hr, Hf. cbv iota.
  set (n' := nd_emit EvRecovered _). set (w1 := wd_set_heap _ w). unfold on_recovered.
  apply (flip_heap r n n'); [done|done|done| |]; by destruct (listens r w1).
Qed.

(** What one result does to the failure of [r] and to the counters of its id. *)
Definition health_effect (F R : Z) (healthy : bool) (st : bool * Z * Z) : bool * Z * Z :=
  let '(failed, fails, passes) := st in
  if healthy then
    if failed then if decide (R ≤ passes + 1) then (false, 0, 0) else (true, 0, passes + 1)
    else (false, 0, passes)
  else if negb failed && bool_decide (F ≤ fails + 1) then (true, 0, 0) else (failed, fails + 1, 0).

Record effected (r : nat) (id : jsstr) (st : bool * Z * Z) w w' : Prop := {
  ef_failed x : failed_at w' x = if decide (x = r) then Some st.1.1 else failed_at w x;
  ef_fails i : fail_streak w' i = if decide (i = id) then st.1.2 else fail_streak w i;
  ef_passes i : pass_streak w' i = if decide (i = id) then st.2 else pass_streak w i;
  ef_ids x : node_id (wd_heap w') x = node_id (wd_heap w) x;
  ef_nodes : cl_nodes (wd_cluster w') = cl_nodes (wd_cluster w) ∧ limits w' = limits w;
}.

Lemma default_mset_streak i id v (m : jmap jsstr Z) :
  default 0 (mget i (mset id v m)) = if decide (i = id) then v else default 0 (mget i m).
Proof. rewrite mget_mset. by destruct (decide (i = id)). Qed.
Lemma default_mdel_streak i id (m : jmap jsstr Z) :
  default 0 (mget i (mdel id m)) = if decide (i = id) then 0 else default 0 (mget i m).
Proof. rewrite mget_mdel. by destruct (decide (i = id)). Qed.

Lemma rebalance_keeps w :
  wd_heap (rebalance w) = wd_heap w ∧ cl_nodes (wd_cluster (rebalance w)) = cl_nodes (wd_cluster w)
  ∧ cl_failStreak (wd_cluster (rebalance w)) = cl_failStreak (wd_cluster w)
  ∧ cl_passStreak (wd_cluster (rebalance w)) = cl_passStreak (wd_cluster w) ∧ limits (rebalance w) = limits w.
Proof.
  unfold rebalance. cbv zeta. set (hit := filter _ _).
  assert (Hf : ∀ l w1, let w2 := fold_left (λ w r, match wd_heap w !! r with
      | Some n => on_cluster (clu_emit (OnRebalance (nd_id n) (nd_failed n))) w | None => w end) l w1 in
    wd_heap w2 = wd_heap w1 ∧ cl_nodes (wd_cluster w2) = cl_nodes (wd_cluster w1)
    ∧ cl_failStreak (wd_cluster w2) = cl_failStreak (wd_cluster w1)
    ∧ cl_passStreak (wd_cluster w2) = cl_passStreak (wd_cluster w1) ∧ limits w2 = limits w1).
  { induction l as [|x l IH]; intros w1; [done|]. cbv zeta. rewrite fold_left_cons.
    match goal with |- context [fold_left _ l ?w3] => destruct (IH w3) as (-> & -> & -> & -> & ->) end.
    by destruct (wd_heap w1 !! x). }
  specialize (Hf hit w). destruct hit; exact Hf.
Qed.

Lemma onHealthResult_effect r n healthy w :
  world_ok w → wd_heap w !! r = Some n →
  effected r (nd_id n)
    (health_effect (limits w).1 (limits w).2 healthy (nd_failed n, fail_streak w (nd_id n), pass_streak w (nd_id n)))
    w (onHealthResult r healthy w).
Proof.
  intros Hok Hr. unfold onHealthResult. rewrite Hr. cbv zeta.
  change (default 0 (mget (nd_id n) (cl_failStreak (wd_cluster w)))) with (fail_streak w (nd_id n)).
  change (default 0 (mget (nd_id n) (cl_passStreak (wd_cluster w)))) with (pass_streak w (nd_id n)).
  change (default 3 (cl_failureThreshold (wd_cluster w))) with (limits w).1.
  change (default 2 (cl_recoveryThreshold (wd_cluster w))) with (limits w).2.
  assert (Hat : ∀ x, failed_at w x = if decide (x = r) then Some (nd_failed n) else failed_at w x).
  { intros x. destruct (decide (x = r)) as [->|]; [|done]. unfold failed_at. by rewrite Hr. }
  unfold health_effect. destruct healthy; [destruct (nd_failed n) eqn:Ef; [destruct (decide _)|]|].
  - match goal with |- effected _ _ _ _ (mark_recovered _ ?w1) =>
      assert (Hfl : flips r false w1 (mark_recovered r w1)) by (by apply (mark_recovered_flips r n)) end.
    destruct Hfl as [F1 F2 (F3 & F4 & F5 & F6)]. constructor; [| | |done|done].
    + intros x. rewrite F1. destruct (decide (x = r)) as [->|]; [|done]. unfold failed_at. cbn. by rewrite Hr.
    + intros i. unfold fail_streak at 1. rewrite F4. apply default_mdel_streak.
    + intros i. unfold pass_streak at 1. rewrite F5. cbn [on_cluster wd_cluster clu_streaks cl_passStreak].
      rewrite default_mdel_streak, default_mset_streak. by destruct (decide _).
  - constructor; [done| | |done|done]; intros i.
    + apply default_mdel_streak.
    + apply default_mset_streak.
  - constructor; [done| | |done|done]; intros i; [apply default_mdel_streak|]. by destruct (decide (i = nd_id n)) as [->|].
  - destruct (negb (nd_failed n) && _) eqn:Ed.
    + apply andb_true_iff in Ed as [Ef%negb_true_iff _].
      match goal with |- effected _ _ _ _ (rebalance (on_cluster _ (mark_failed _ ?w1))) =>
        assert (Hfl : flips r true w1 (mark_failed r w1))
          by (apply (mark_failed_flips r n); [by repeat apply cluster_ok|done|done]) end.
      destruct Hfl as [F1 F2 (F3 & F4 & F5 & F6)].
      match goal with |- effected _ _ _ _ (rebalance ?w2) => destruct (rebalance_keeps w2) as (R1 & R2 & R3 & R4 & R5) end.
      constructor.
      * intros x. unfold failed_at at 1. rewrite R1. etransitivity; [apply F1|]. destruct (decide (x = r)) as [->|]; [|done].
        unfold failed_at. cbn. by rewrite Hr.
      * intros i. unfold fail_streak at 1. rewrite R3. cbn [on_cluster wd_cluster clu_emit cl_failStreak]. rewrite F4.
        cbn [on_cluster wd_cluster clu_streaks cl_failStreak]. rewrite default_mdel_streak, default_mset_streak.
        by destruct (decide _).
      * intros i. unfold pass_streak at 1. rewrite R4. cbn [on_cluster wd_cluster clu_emit cl_passStreak]. rewrite F5.
        apply default_mdel_streak.
      * intros x. rewrite R1. apply F2.
      * rewrite R2, R5. split; [exact F3|exact F6].
    + constructor; [done| | |done|done]; intros i.
      * apply default_mset_streak.
      * apply default_mdel_streak.
Qed.

(** The counters go on agreeing with the history. *)
Lemma health_effect_spec F R b rs fails passes :
  (verdict F R rs = false → fails = run_of false rs ∧ passes = 0) →
  (verdict F R rs = true → passes = run_of true rs) →
  let '(failed', fails', passes') := health_effect F R b (verdict F R rs, fails, passes) in
  failed' = verdict F R (b :: rs)
  ∧ (verdict F R (b :: rs) = false → fails' = run_of false (b :: rs) ∧ passes' = 0)
  ∧ (verdict F R (b :: rs) = true → passes' = run_of true (b :: rs)).
Proof.
  cbn [verdict]. intros A2 A3. destruct (verdict F R rs) eqn:Ev; cbn [health_effect].
  - rewrite (A3 eq_refl) in *. destruct b; cbn [run_of eqb negb andb]; [|done]. rewrite (Z.add_comm 1).
    destruct (decide _); [rewrite bool_decide_eq_true_2 by done|rewrite bool_decide_eq_false_2 by done]; done.
  - destruct (A2 eq_refl) as [-> ->]. destruct b; cbn [run_of eqb negb andb]; [done|]. rewrite (Z.add_comm 1).
    by case_bool_decide.
Qed.

Lemma effect_agrees w r b rs :
  agrees w r rs → ∀ w' failed, failed_at w r = Some failed →
  effected r (node_id (wd_heap w) r) (health_effect (limits w).1 (limits w).2 b
    (failed, fail_streak w (node_id (wd_heap w) r), pass_streak w (node_id (wd_heap w) r))) w w' →
  agrees w' r (b :: rs).
Proof.
  intros [A1 A2 A3] w' failed Hf [E1 E2 E3 E4 [E5 E6]]. rewrite A1 in Hf. injection Hf as <-.
  pose proof (health_effect_spec _ _ b rs _ _ A2 A3) as Hs. destruct (health_effect _ _ _ _) as [[f' fs'] ps'].
  destruct Hs as (-> & S2 & S3). constructor; rewrite E6, ?E4, ?E1, ?E2, ?E3, !decide_True by done; done.
Qed.

Lemma effect_others w w' r x rs st :
  agrees w x rs → x ≠ r → node_id (wd_heap w) x ≠ node_id (wd_heap w) r →
  effected r (node_id (wd_heap w) r) st w w' → agrees w' x rs.
Proof.
  intros [A1 A2 A3] Hx Hid [E1 E2 E3 E4 [E5 E6]].
  constructor; rewrite E6, ?E4, ?E1, ?E2, ?E3, ?(decide_False (P:=_ = _)) by done; done.
Qed.

(** The results of the probes, as they come in: newest last, each for a node. *)
Definition results (rs : list (nat * bool)) w : world := fold_left (λ w x, onHealthResult x.1 x.2 w) rs w.
Definition history (r : nat) (rs : list (nat * bool)) : list bool := reverse (filter (λ x, x.1 = r) rs).*2.

Lemma history_snoc r rs x : history r (rs ++ [x]) = if decide (x.1 = r) then x.2 :: history r rs else history r rs.
Proof.
  unfold history. rewrite filter_app, filter_cons, filter_nil. destruct (decide (x.1 = r)); [|by rewrite app_nil_r].
  by rewrite fmap_app, reverse_app.
Qed.

Lemma results_agree rs w :
  world_ok w →
  (∀ r, r ∈ rs.*1 → mget (node_id (wd_heap w) r) (cl_nodes (wd_cluster w)) = Some r) →
  (∀ r, r ∈ mvals (cl_nodes (wd_cluster w)) → agrees w r []) →
  let w' := results rs w in
  world_ok w' ∧ cl_nodes (wd_cluster w') = cl_nodes (wd_cluster w) ∧ limits w' = limits w
  ∧ (∀ x, node_id (wd_heap w') x = node_id (wd_heap w) x)
  ∧ ∀ r, r ∈ mvals (cl_nodes (wd_cluster w)) → agrees w' r (history r rs).
Proof.
  intros Hok Hreg Hstart. induction rs as [|[r b] rs IH] using rev_ind; [done|]. cbv zeta in *.
  unfold results. rewrite fold_left_app. cbn [fold_left fst snd]. fold (results rs w).
  destruct IH as (I1 & I2 & I3 & I4 & I5).
  { intros x Hx. apply Hreg. rewrite fmap_app, elem_of_app. by left. }
  specialize (Hreg r ltac:(rewrite fmap_app, elem_of_app; right; by left)).
  set (w1 := results rs w) in *. clearbody w1.
  destruct (wo_ids _ I1 (node_id (wd_heap w) r) r ltac:(by rewrite I2)) as [Hlt _].
  apply lookup_lt_is_Some in Hlt as [n Hn].
  assert (Hid : nd_id n = node_id (wd_heap w1) r) by (unfold node_id; by rewrite Hn).
  pose proof (onHealthResult_effect r n b w1 I1 Hn) as He. rewrite Hid in He.
  pose proof He as [_ _ _ E4 [E5 E6]].
  split; [by apply onHealthResult_ok|]. split; [congruence|]. split; [congruence|]. split; [intros x; by rewrite E4|].
  intros x Hx. rewrite history_snoc. cbn [fst snd]. destruct (decide (r = x)) as [<-|Hne].
  - eapply effect_agrees; [by apply I5| |exact He]. unfold failed_at. by rewrite Hn.
  - eapply effect_others; [by apply I5|done| |exact He]. rewrite !I4. intros Heq.
    unfold mvals in Hx. apply list_elem_of_fmap in Hx as ([id x'] & -> & Hin). cbn in *.
    apply elem_mget in Hin; [|apply (wo_wf _ Hok)]. rewrite (proj2 (wo_ids _ Hok id x' Hin)) in Heq. congruence.
Qed.

(** C14: Health checks decide by the history alone: when results come in for the
    registered nodes of a cluster in which none has failed yet and none has a streak,
    in any order and interleaving, a node has failed after them exactly if its own
    results say so. *)
Theorem health_verdict rs w :
  world_ok w →
  (∀ r, r ∈ rs.*1 → mget (node_id (wd_heap w) r) (cl_nodes (wd_cluster w)) = Some r) →
  (∀ r, r ∈ mvals (cl_nodes (wd_cluster w)) → failed_at w r = Some false) →
  cl_failStreak (wd_cluster w) = [] → cl_passStreak (wd_cluster w) = [] →
  ∀ r, r ∈ mvals (cl_nodes (wd_cluster w)) →
    failed_at (results rs w) r = Some (verdict (limits w).1 (limits w).2 (history r rs)).
Proof.
  intros Hok Hreg Hup Hf Hp r Hr. destruct (results_agree rs w Hok Hreg) as (_ & _ & Hl & _ & Hall).
  - intros x Hx. constructor; [by apply Hup| |done]. intros _. unfold fail_streak, pass_streak. by rewrite Hf, Hp.
  - rewrite <- Hl. apply (ag_failed _ _ _ (Hall r Hr)).
Qed.
End health.

(** * On a concrete cluster *)

(** Two nodes; the first answers badly three times in a row, the second once. *)
Definition example_results : list (nat * bool) :=
  [(0, false); (1, false); (0, false); (1, true); (0, false)]%nat.

Lemma example_router_ok : world_ok example_router.1.
Proof.
  apply attachRoom_ok. change (fst (attachRoom ?a ?b ?c)).1 with (attachRoom a b c).1.1.
  apply attachRoom_ok. cbn [fst].
  eapply sfu_step_ok; [apply step_new|]. eapply sfu_step_ok; [apply step_new|]. apply (new_router_ok None None LeastLoaded).
Qed.

Lemma health_verdict_witness :
  failed_at (results example_results example_router.1) 0 = Some true
  ∧ failed_at (results example_results example_router.1) 1 = Some false.
Proof.
  assert (Hreg : ∀ r, r ∈ example_results.*1 →
    mget (node_id (wd_heap example_router.1) r) (cl_nodes (wd_cluster example_router.1)) = Some r).
  { intros r Hr. repeat (apply elem_of_cons in Hr as [->|Hr]; [vm_compute; reflexivity|]). by apply not_elem_of_nil in Hr. }
  assert (Hup : ∀ r, r ∈ mvals (cl_nodes (wd_cluster example_router.1)) → failed_at example_router.1 r = Some false).
  { intros r Hr. change (mvals _) with [0; 1]%nat in Hr.
    repeat (apply elem_of_cons in Hr as [->|Hr]; [vm_compute; reflexivity|]). by apply not_elem_of_nil in Hr. }
  split.
  - refine (eq_trans (health_verdict example_results example_router.1 example_router_ok Hreg Hup _ _ 0 _) _);
      [vm_compute; reflexivity..|vm_compute; left|vm_compute; reflexivity].
  - refine (eq_trans (health_verdict example_results example_router.1 example_router_ok Hreg Hup _ _ 1 _) _);
      [vm_compute; reflexivity..|vm_compute; right; left|vm_compute; reflexivity].
Defined.

(** A node that the application declares recovered keeps the bad results it had while
    it was failed: the next bad one fails it at once. *)
Example recovered_by_hand_fails_at_once :
  let w := results [(0, false); (0, false); (0, false); (0, false); (0, false)]%nat example_router.1 in
  let w1 := mark_recovered 0 w in
  failed_at w 0 = Some true ∧ failed_at w1 0 = Some false
  ∧ failed_at (results [(0, false)]%nat w1) 0 = Some true.
Proof. vm_compute. done. Qed.

(** A probe that was sent to a node which has been replaced meanwhile by another of
    the same id is still applied: it fails the old node and reports the id. *)
Example stale_probe_reports :
  let w := (addNode 0 (wd_set_heap [newSfuNode (js "a") (js "eu") None] (new_router_world (Some 1) None LeastLoaded).1)) in
  let w1 := health_tick (on_cluster (clu_checking true) w) in
  let w2 := addNode 1 (wd_set_heap (wd_heap w1 ++ [newSfuNode (js "a") (js "eu") None]) w1) in
  let w3 := probe_settled 0 (Some false) w2 in
  mget (js "a") (cl_nodes (wd_cluster w3)) = Some 1%nat
  ∧ failed_at w3 0 = Some true ∧ failed_at w3 1 = Some false
  ∧ ClusterError (js "a") ∈ cl_out (wd_cluster w3) ∧ ClusterError (js "a") ∉ cl_out (wd_cluster w2).
Proof.
  vm_compute. split; [done|]. split; [done|]. split; [done|]. split.
  - repeat (left || right).
  - intros Hx. repeat (apply elem_of_cons in Hx as [|Hx]; [done|]). by apply not_elem_of_nil in Hx.
Qed.
