(* ===== verification/SendQueue.v ===== *)
(** What the client's transport keeps while it is offline: the message queue and the
    backoff of its reconnects, behind the interfaces the transport is written against
    (packages/sdk/src/SendQueue.ts, ReconnectStrategy.ts). *)

From Stdlib Require Import QArith Qminmax.
From stdpp Require Import base decidable list.
From S2P Require Import Prelude.
Open Scope Z_scope.

(** * Interfaces *)

(** [MessageQueue<T>]; [q_drain ok] sends as long as [ok] says that sending does not
    throw, and answers what it sent. *)
Class MessageQueue (Q T : Type) := {
  q_size : Q → nat;
  q_enqueue : T → Q → Q * bool;
  q_drain : (T → bool) → Q → Q * list T;
  q_clear : Q → Q;
}.

(** A queue is a list: nothing is lost but what it refused, and order is kept. *)
Class MessageQueueLaws (Q T : Type) `{MessageQueue Q T} := {
  q_items : Q → list T;
  q_size_items q : q_size q = length (q_items q);
  q_enqueue_items x q : q_items (q_enqueue x q).1 = if (q_enqueue x q).2 then q_items q ++ [x] else q_items q;
  q_drain_items ok q : (q_drain ok q).2 ++ q_items (q_drain ok q).1 = q_items q;
  q_drain_ok ok q : Forall (λ x, ok x = true) (q_drain ok q).2;
  q_drain_stop ok q : match q_items (q_drain ok q).1 with [] => True | x :: _ => ok x = false end;
  q_clear_items q : q_items (q_clear q) = [];
}.

(** [BackoffStrategy]. *)
Class BackoffStrategy (B : Type) := {
  b_attempt : B → Z;
  b_reset : B → B;
  b_isExhausted : B → bool;
  b_nextDelay : B → Q * B;
}.

Class BackoffLaws (B : Type) `{BackoffStrategy B} := {
  b_limit : B → option Z;
  b_limit_reset b : b_limit (b_reset b) = b_limit b;
  b_limit_next b : b_limit (b_nextDelay b).2 = b_limit b;
  b_attempt_reset b : b_attempt (b_reset b) = 0;
  b_attempt_next b : b_attempt (b_nextDelay b).2 = b_attempt b + 1;
  b_exhausted_spec b : b_isExhausted b = match b_limit b with Some m => bool_decide (m ≤ b_attempt b) | None => false end;
}.

(** * The bounded queue *)

Record SendQueue (T : Type) := mkSendQueue {
  sq_items : list T;
  sq_maxSize : Z;
}.
Arguments mkSendQueue {_}. Arguments sq_items {_}. Arguments sq_maxSize {_}.

Section send_queue.
Context {T : Type}.
Implicit Types (q : SendQueue T).

Definition newSendQueue (maxSize : Z) : SendQueue T := mkSendQueue [] maxSize.
Definition sq_size q : nat := length (sq_items q).

Definition enqueue (item : T) q : SendQueue T * bool :=
  if decide (sq_maxSize q ≤ Z.of_nat (length (sq_items q))) then (q, false)
  else (mkSendQueue (sq_items q ++ [item]) (sq_maxSize q), true).

(** The loop of [drain] over its batch: what was sent, and what is put back from the
    message that threw on. *)
Fixpoint drain_batch (send_ok : T → bool) (batch : list T) : list T * list T :=
  match batch with
  | [] => ([], [])
  | x :: batch' =>
      if send_ok x then let '(sent, rest) := drain_batch send_ok batch' in (x :: sent, rest)
      else ([], batch)
  end.
Definition drain (send_ok : T → bool) q : SendQueue T * list T :=
  let '(sent, rest) := drain_batch send_ok (sq_items q) in (mkSendQueue rest (sq_maxSize q), sent).

Definition clear q : SendQueue T := mkSendQueue [] (sq_maxSize q).

#[export] Instance send_queue : MessageQueue (SendQueue T) T :=
  {| q_size := sq_size; q_enqueue := enqueue; q_drain := drain; q_clear := clear |}.

Lemma drain_batch_spec ok batch :
  let '(sent, rest) := drain_batch ok batch in
  sent ++ rest = batch ∧ Forall (λ x, ok x = true) sent ∧ match rest with [] => True | x :: _ => ok x = false end.
Proof.
  induction batch as [|x batch IH]; [done|]. cbn [drain_batch]. destruct (ok x) eqn:Ex; [|done].
  destruct (drain_batch ok batch) as [sent rest]. destruct IH as (<- & Hs & Hr). auto.
Qed.

#[export, refine] Instance send_queue_laws : MessageQueueLaws (SendQueue T) T := {| q_items := sq_items |}.
Proof.
  - done.
  - intros x q. cbn. unfold enqueue. by destruct (decide _).
  - intros ok q. cbn. unfold drain. pose proof (drain_batch_spec ok (sq_items q)) as Hs.
    destruct (drain_batch ok (sq_items q)). apply Hs.
  - intros ok q. cbn. unfold drain. pose proof (drain_batch_spec ok (sq_items q)) as Hs.
    destruct (drain_batch ok (sq_items q)). apply Hs.
  - intros ok q. cbn. unfold drain. pose proof (drain_batch_spec ok (sq_items q)) as Hs.
    destruct (drain_batch ok (sq_items q)). apply Hs.
  - done.
Defined.

(** The bound holds whatever is enqueued. *)
Lemma enqueue_bound item q :
  Z.of_nat (sq_size q) ≤ Z.max 0 (sq_maxSize q) →
  Z.of_nat (sq_size (enqueue item q).1) ≤ Z.max 0 (sq_maxSize (enqueue item q).1).
Proof.
  unfold enqueue, sq_size. destruct (decide _); [done|]. cbn. rewrite length_app. cbn. lia.
Qed.
End send_queue.

(** * Exponential backoff with jitter *)

Record ReconnectStrategy := mkReconnect {
  rc_attempt : Z;
  rc_maxDelayMs : Q;
  rc_maxAttempts : option Z;
}.
Implicit Types (b : ReconnectStrategy).

Definition newReconnectStrategy (maxDelayMs : Q) (maxAttempts : option Z) : ReconnectStrategy :=
  mkReconnect 0 maxDelayMs maxAttempts.

Definition reset b : ReconnectStrategy := mkReconnect 0 (rc_maxDelayMs b) (rc_maxAttempts b).
Definition isExhausted b : bool :=
  match rc_maxAttempts b with Some m => bool_decide (m ≤ rc_attempt b) | None => false end.

(** The delay before jitter, for an attempt. *)
Definition base_delay (attempt : Z) (maxDelayMs : Q) : Q := Qmin (inject_Z (1000 * 2 ^ attempt)) maxDelayMs.

Section backoff.
Context (Math_random : Z → Q).

(** [nextDelay]; [Math_random] is what [Math.random()] answers at the attempt. *)
Definition nextDelay b : Q * ReconnectStrategy :=
  let base := base_delay (rc_attempt b) (rc_maxDelayMs b) in
  ((base + base * (3 # 10) * Math_random (rc_attempt b))%Q,
   mkReconnect (rc_attempt b + 1) (rc_maxDelayMs b) (rc_maxAttempts b)).

#[local] Instance reconnect_strategy : BackoffStrategy ReconnectStrategy :=
  {| b_attempt := rc_attempt; b_reset := reset; b_isExhausted := isExhausted; b_nextDelay := nextDelay |}.
#[local, refine] Instance reconnect_laws : BackoffLaws ReconnectStrategy := {| b_limit := rc_maxAttempts |}.
Proof. all: done. Defined.

Lemma nextDelay_bounds b :
  (0 <= rc_maxDelayMs b)%Q → 0 ≤ rc_attempt b → (0 <= Math_random (rc_attempt b) < 1)%Q →
  let base := base_delay (rc_attempt b) (rc_maxDelayMs b) in
  (0 <= base <= rc_maxDelayMs b)%Q ∧ (base <= (nextDelay b).1 <= base + base * (3 # 10))%Q.
Proof.
  intros Hmax Ha [Hr0 Hr1] base.
  assert (Hb : (0 <= base <= rc_maxDelayMs b)%Q).
  { unfold base, base_delay. split; [|apply Q.le_min_r]. apply Q.min_glb; [|done].
    change 0%Q with (inject_Z 0). rewrite <- Zle_Qle. pose proof (Z.pow_nonneg 2 (rc_attempt b)). lia. }
  split; [exact Hb|]. cbn. fold base.
  assert (Hj : (0 <= base * (3 # 10))%Q) by (apply Qmult_le_0_compat; [apply Hb|easy]).
  split.
  - rewrite <- (Qplus_0_r base) at 1. apply Qplus_le_compat; [apply Qle_refl|]. by apply Qmult_le_0_compat.
  - apply Qplus_le_compat; [apply Qle_refl|]. rewrite <- (Qmult_1_r (base * (3 # 10))) at 2.
    rewrite !(Qmult_comm (base * (3 # 10))). apply Qmult_le_compat_r; [by apply Qlt_le_weak|done].
Qed.
End backoff.
