(* ===== verification/ClientTransport.v ===== *)
(** The client's connection to the signaling server: sockets, reconnects, the token
    refresh and the queue (packages/sdk/src/WebSocketTransport.ts).

    The platform's sockets, timers and promises act by steps: a socket opens, closes,
    fails or delivers a frame, a timer fires, the token of a refresh arrives.  The
    listeners of the application may close the transport from within an event. *)

From S2P Require Import Prelude Json SendQueue.

(** * Sockets *)

Inductive readyState := Connecting | Open | Closing | Closed.
#[export] Instance readyState_eq_dec : EqDecision readyState.
Proof. solve_decision. Defined.

Inductive TransportError := QueueFull | SocketError | ParseError | AttemptsExhausted | NoWebSocket.

Inductive rejection :=
| InProgress | ConnectTimeout | ConnectionClosed (code : Z) (reason : jsstr) | RejectedWith (e : TransportError).

(** What an inbound frame is after [JSON.parse] and the schema. *)
Inductive decoded (I : Type) := NotJSON | Invalid | IsPing | Message (msg : I).
Arguments NotJSON {_}. Arguments Invalid {_}. Arguments IsPing {_}. Arguments Message {_}.

Inductive event (I : Type) :=
| EvOpen
| EvClose (code : Z) (reason : jsstr)
| EvMessage (msg : I)
| EvError (e : TransportError)
| EvReconnecting (attempt : Z)
| EvTerminated (code : Z) (reason : jsstr).
Arguments EvOpen {_}. Arguments EvClose {_}. Arguments EvMessage {_}. Arguments EvError {_}.
Arguments EvReconnecting {_}. Arguments EvTerminated {_}.

(** A socket with what its handlers close over: the promise of [connect] it was opened
    for, if any, whether that is settled, and its connect timer. *)
Record Socket (U M : Type) := mkSocket {
  sk_url : U;
  sk_state : readyState;
  sk_settled : bool;
  sk_timer : bool;
  sk_promise : option nat;
  sk_sent : list M;
}.
Arguments mkSocket {_ _}. Arguments sk_url {_ _}. Arguments sk_state {_ _}. Arguments sk_settled {_ _}.
Arguments sk_timer {_ _}. Arguments sk_promise {_ _}. Arguments sk_sent {_ _}.

Record Options := mkOptions {
  op_reconnect : bool;
  op_connectTimeout : bool;
  op_tokenRefresh : bool;
  op_nonRetryable : list Z;
}.

(** [tp_resolving] is the pending [getWsClass()] with the promise it serves,
    [tp_refreshing] counts the pending token refreshes. *)
Record WebSocketTransport (U M I Qu B : Type) := mkTransport {
  tp_opts : Options;
  tp_url : U;
  tp_sockets : list (Socket U M);
  tp_ws : option nat;
  tp_timer : bool;
  tp_closed : bool;
  tp_exhausted : bool;
  tp_resolving : option (option nat);
  tp_refreshing : nat;
  tp_queue : Qu;
  tp_reconnect : B;
  tp_promises : list (option (unit + rejection));
  tp_out : list (event I);
}.
Arguments mkTransport {_ _ _ _ _}. Arguments tp_opts {_ _ _ _ _}. Arguments tp_url {_ _ _ _ _}.
Arguments tp_sockets {_ _ _ _ _}. Arguments tp_ws {_ _ _ _ _}. Arguments tp_timer {_ _ _ _ _}.
Arguments tp_closed {_ _ _ _ _}. Arguments tp_exhausted {_ _ _ _ _}. Arguments tp_resolving {_ _ _ _ _}.
Arguments tp_refreshing {_ _ _ _ _}. Arguments tp_queue {_ _ _ _ _}. Arguments tp_reconnect {_ _ _ _ _}.
Arguments tp_promises {_ _ _ _ _}. Arguments tp_out {_ _ _ _ _}.

Section transport.
(** URLs and tokens are the platform's; [stringify] is [JSON.stringify], which throws
    on a message with a cycle ([None]); [decode] is [JSON.parse] with
    [ServerMessageSchema]; [closes] tells, of the events so far, whether a listener of
    the last one closes the transport. *)
Context {U Token M I Qu B : Type} `{MessageQueue Qu M} `{BackoffStrategy B}.
Context (set_token : Token → U → U) (pong : M) (stringify : M → bool) (decode : frame → decoded I).
Context (closes : list (event I) → bool).
Abbreviation transport := (WebSocketTransport U M I Qu B).
Abbreviation socket := (Socket U M).
Implicit Types (t : transport) (k : socket).

Definition newTransport (opts : Options) (url : U) (queue : Qu) (backoff : B) : transport :=
  mkTransport opts url [] None false false false None 0 queue backoff [] [].

Definition set_sockets (x : list socket) (ws : option nat) t : transport :=
  mkTransport (tp_opts t) (tp_url t) x ws (tp_timer t) (tp_closed t) (tp_exhausted t) (tp_resolving t)
    (tp_refreshing t) (tp_queue t) (tp_reconnect t) (tp_promises t) (tp_out t).
Definition on_socket (i : nat) (f : socket → socket) t : transport :=
  set_sockets (alter f i (tp_sockets t)) (tp_ws t) t.
Definition set_timer (x : bool) t : transport :=
  mkTransport (tp_opts t) (tp_url t) (tp_sockets t) (tp_ws t) x (tp_closed t) (tp_exhausted t) (tp_resolving t)
    (tp_refreshing t) (tp_queue t) (tp_reconnect t) (tp_promises t) (tp_out t).
Definition set_terminal (closed exhausted : bool) t : transport :=
  mkTransport (tp_opts t) (tp_url t) (tp_sockets t) (tp_ws t) (tp_timer t) closed exhausted (tp_resolving t)
    (tp_refreshing t) (tp_queue t) (tp_reconnect t) (tp_promises t) (tp_out t).
Definition set_pending (resolving : option (option nat)) (refreshing : nat) t : transport :=
  mkTransport (tp_opts t) (tp_url t) (tp_sockets t) (tp_ws t) (tp_timer t) (tp_closed t) (tp_exhausted t) resolving
    refreshing (tp_queue t) (tp_reconnect t) (tp_promises t) (tp_out t).
Definition set_url (u : U) t : transport :=
  mkTransport (tp_opts t) u (tp_sockets t) (tp_ws t) (tp_timer t) (tp_closed t) (tp_exhausted t) (tp_resolving t)
    (tp_refreshing t) (tp_queue t) (tp_reconnect t) (tp_promises t) (tp_out t).
Definition set_queue (q : Qu) t : transport :=
  mkTransport (tp_opts t) (tp_url t) (tp_sockets t) (tp_ws t) (tp_timer t) (tp_closed t) (tp_exhausted t) (tp_resolving t)
    (tp_refreshing t) q (tp_reconnect t) (tp_promises t) (tp_out t).
Definition set_backoff (b : B) t : transport :=
  mkTransport (tp_opts t) (tp_url t) (tp_sockets t) (tp_ws t) (tp_timer t) (tp_closed t) (tp_exhausted t) (tp_resolving t)
    (tp_refreshing t) (tp_queue t) b (tp_promises t) (tp_out t).
Definition set_promises (p : list (option (unit + rejection))) t : transport :=
  mkTransport (tp_opts t) (tp_url t) (tp_sockets t) (tp_ws t) (tp_timer t) (tp_closed t) (tp_exhausted t) (tp_resolving t)
    (tp_refreshing t) (tp_queue t) (tp_reconnect t) p (tp_out t).
Definition log (e : event I) t : transport :=
  mkTransport (tp_opts t) (tp_url t) (tp_sockets t) (tp_ws t) (tp_timer t) (tp_closed t) (tp_exhausted t) (tp_resolving t)
    (tp_refreshing t) (tp_queue t) (tp_reconnect t) (tp_promises t) (tp_out t ++ [e]).

Definition sk_with (state : readyState) (settled timer : bool) k : socket :=
  mkSocket (sk_url k) state settled timer (sk_promise k) (sk_sent k).
Definition sk_push (ms : list M) k : socket :=
  mkSocket (sk_url k) (sk_state k) (sk_settled k) (sk_timer k) (sk_promise k) (sk_sent k ++ ms).
(** [ws.close()]. *)
Definition sk_close k : socket :=
  match sk_state k with Connecting | Open => sk_with Closing (sk_settled k) (sk_timer k) k | _ => k end.

(** [onOpen?.()] and [onError?.(err)]: the first settlement counts. *)
Definition settle (p : option nat) (r : unit + rejection) t : transport :=
  match p with
  | Some i => set_promises (alter (λ x, match x with None => Some r | _ => x end) i (tp_promises t)) t
  | None => t
  end.

Definition isTerminal t : bool := tp_closed t || tp_exhausted t.

(** [close]. *)
Definition close t : transport :=
  let t1 := set_queue (q_clear (tp_queue t)) (set_terminal true (tp_exhausted t) t) in
  let t2 := set_timer false t1 in
  match tp_ws t2 with Some i => on_socket i sk_close t2 | None => t2 end.

(** [emit], with listeners that may close. *)
Definition emit (e : event I) t : transport :=
  let t1 := log e t in if closes (tp_out t1) then close t1 else t1.

(** [this.ws?.readyState === WS_OPEN]. *)
Definition open_socket t : option nat :=
  match tp_ws t with
  | Some i => match tp_sockets t !! i with
              | Some k => if decide (sk_state k = Open) then Some i else None
              | None => None
              end
  | None => None
  end.

(** [flush]. *)
Definition flush t : transport :=
  match open_socket t with
  | Some i => let '(q, sent) := q_drain stringify (tp_queue t) in on_socket i (sk_push sent) (set_queue q t)
  | None => t
  end.

(** [send]; the boolean says that it threw. *)
Definition send (msg : M) t : transport * bool :=
  if isTerminal t then (t, false)
  else match open_socket t with
       | Some i =>
           let t1 := if decide (0 < q_size (tp_queue t))%nat then flush t else t in
           if stringify msg then (on_socket i (sk_push [msg]) t1, false) else (t1, true)
       | None =>
           let '(q, ok) := q_enqueue msg (tp_queue t) in
           if ok : bool then (set_queue q t, false) else (emit (EvError QueueFull) (set_queue q t), false)
       end.

(** [initSocket] up to the promise of [getWsClass]. *)
Definition initSocket (p : option nat) t : transport :=
  match tp_resolving t with
  | Some _ => settle p (inr InProgress) t
  | None => set_pending (Some p) (tp_refreshing t) t
  end.

(** [connect]; the promise is the last one. *)
Definition connect t : transport :=
  initSocket (Some (length (tp_promises t))) (set_promises (tp_promises t ++ [None]) t).

(** [getWsClass()] fulfils, and the socket is constructed. *)
Definition class_ready t : transport :=
  match tp_resolving t with
  | None => t
  | Some p =>
      let t1 := set_pending None (tp_refreshing t) t in
      if tp_closed t1 then t1
      else
        let k := mkSocket (tp_url t1) Connecting false (op_connectTimeout (tp_opts t1)) p [] in
        set_sockets (tp_sockets t1 ++ [k]) (Some (length (tp_sockets t1))) t1
  end.

(** It rejects, or the constructor throws. *)
Definition class_failed t : transport :=
  match tp_resolving t with
  | None => t
  | Some p =>
      let t1 := set_pending None (tp_refreshing t) t in
      match p with
      | Some _ => settle p (inr (RejectedWith NoWebSocket)) t1
      | None => emit (EvError NoWebSocket) t1
      end
  end.

(** [if (!settled) { settled = true; f() }]. *)
Definition settle_socket (i : nat) (r : unit + rejection) t : transport :=
  match tp_sockets t !! i with
  | Some k => if sk_settled k then t
              else settle (sk_promise k) r (on_socket i (λ k, sk_with (sk_state k) true (sk_timer k) k) t)
  | None => t
  end.

(** The connect timer. *)
Definition connect_timeout (i : nat) t : transport :=
  match tp_sockets t !! i with
  | Some k =>
      if sk_timer k then
        let t1 := on_socket i (λ k, sk_with (sk_state k) (sk_settled k) false k) t in
        if sk_settled k then t1
        else
          let t2 := on_socket i (λ k, sk_with (sk_state k) true (sk_timer k) k) t1 in
          let t3 := set_terminal (tp_closed t2) true t2 in
          settle (sk_promise k) (inr ConnectTimeout) (on_socket i sk_close t3)
      else t
  | None => t
  end.

(** [_armReconnectTimer], whose delay the platform waits for. *)
Definition armReconnectTimer t : transport := set_timer true t.
Definition scheduleReconnect t : transport :=
  let t1 := set_timer false t in
  let t2 := set_backoff (b_nextDelay (tp_reconnect t1)).2 t1 in
  armReconnectTimer (emit (EvReconnecting (b_attempt (tp_reconnect t2))) t2).

(** [onopen]. *)
Definition ws_open (i : nat) t : transport :=
  match tp_sockets t !! i with
  | Some k =>
      if decide (sk_state k = Connecting) then
        let t1 := on_socket i (λ k, sk_with Open (sk_settled k) false k) t in
        let t2 := set_backoff (b_reset (tp_reconnect t1)) t1 in
        settle_socket i (inl ()) (flush (emit EvOpen t2))
      else t
  | None => t
  end.

(** [onclose]. *)
Definition ws_close (i : nat) (code : Z) (reason : jsstr) t : transport :=
  match tp_sockets t !! i with
  | Some k =>
      if decide (sk_state k = Closed) then t
      else
        let t1 := on_socket i (λ k, sk_with Closed (sk_settled k) false k) t in
        let t2 := emit (EvClose code reason) t1 in
        if isTerminal t2 || negb (op_reconnect (tp_opts t2)) then t2
        else if decide (code ∈ op_nonRetryable (tp_opts t2)) then
          settle_socket i (inr (ConnectionClosed code reason))
            (emit (EvTerminated code reason) (set_terminal (tp_closed t2) true t2))
        else if b_isExhausted (tp_reconnect t2) then
          settle_socket i (inr (RejectedWith AttemptsExhausted))
            (emit (EvTerminated code reason)
               (emit (EvError AttemptsExhausted) (set_terminal (tp_closed t2) true t2)))
        else scheduleReconnect t2
  | None => t
  end.

(** [onmessage]. *)
Definition ws_message (i : nat) (f : frame) t : transport :=
  match tp_sockets t !! i with
  | Some k =>
      if decide (sk_state k = Open ∨ sk_state k = Closing) then
        match decode f with
        | NotJSON => emit (EvError ParseError) t
        | Invalid => t
        | IsPing =>
            let '(t1, threw) := send pong t in
            if threw : bool then emit (EvError ParseError) t1 else t1
        | Message msg => emit (EvMessage msg) t
        end
      else t
  | None => t
  end.

(** [onerror]. *)
Definition ws_error (i : nat) t : transport :=
  match tp_sockets t !! i with
  | Some k =>
      if decide (sk_state k = Closed) then t
      else
        let t1 := on_socket i (λ k, sk_with (sk_state k) (sk_settled k) false k) t in
        settle_socket i (inr (RejectedWith SocketError)) (emit (EvError SocketError) t1)
  | None => t
  end.

(** The reconnect timer. *)
Definition reconnect_timer t : transport :=
  if tp_timer t then
    let t1 := set_timer false t in
    if isTerminal t1 then t1
    else if tp_resolving t1 is Some _ then armReconnectTimer t1
    else if op_tokenRefresh (tp_opts t1) then set_pending (tp_resolving t1) (S (tp_refreshing t1)) t1
    else initSocket None t1
  else t.

(** The promise of [tokenRefresh()]. *)
Definition token_fresh (newToken : Token) t : transport :=
  match tp_refreshing t with
  | O => t
  | S n => initSocket None (set_url (set_token newToken (tp_url t)) (set_pending (tp_resolving t) n t))
  end.
Definition refresh_reason : jsstr := js "Token refresh failed".
Definition token_failed t : transport :=
  match tp_refreshing t with
  | O => t
  | S n =>
      let t1 := set_pending (tp_resolving t) n t in
      if isTerminal t1 then t1
      else if b_isExhausted (tp_reconnect t1) then
        emit (EvTerminated 1006 refresh_reason)
          (emit (EvError AttemptsExhausted) (set_terminal (tp_closed t1) true t1))
      else scheduleReconnect t1
  end.

(** * Runs *)

Inductive action :=
| AConnect | ASend (msg : M) | AFlush | AClose
| AClassReady | AClassFailed
| AOpen (i : nat) | AWsClose (i : nat) (code : Z) (reason : jsstr) | AMessage (i : nat) (f : frame) | AError (i : nat)
| AConnectTimeout (i : nat) | AReconnectTimer | ATokenFresh (token : Token) | ATokenFailed.

Definition act (a : action) t : transport :=
  match a with
  | AConnect => connect t
  | ASend msg => (send msg t).1
  | AFlush => flush t
  | AClose => close t
  | AClassReady => class_ready t
  | AClassFailed => class_failed t
  | AOpen i => ws_open i t
  | AWsClose i code reason => ws_close i code reason t
  | AMessage i f => ws_message i f t
  | AError i => ws_error i t
  | AConnectTimeout i => connect_timeout i t
  | AReconnectTimer => reconnect_timer t
  | ATokenFresh token => token_fresh token t
  | ATokenFailed => token_failed t
  end.
Definition run (l : list action) t : transport := fold_left (λ t a, act a t) l t.
End transport.
