(* ===== verification/TransportTheorems.v ===== *)
(** The client's transport: one attempt at a time and never none, order on the wire,
    and the count of reconnects. *)

From Stdlib Require Import QArith.
From stdpp Require Import base decidable list list_numbers.
From S2P Require Import Prelude Json SendQueue ClientTransport.
Open Scope Z_scope.

Create HintDb quiet.
Create HintDb fifo.
Create HintDb told.

Section transport.
Context {U Token M I Qu B : Type} `{MessageQueueLaws Qu M} `{BackoffLaws B}.
Context (set_token : Token → U → U) (pong : M) (stringify : M → bool) (decode : frame → decoded I).
Context (closes : list (event I) → bool).
Abbreviation transport := (WebSocketTransport U M I Qu B).
Abbreviation socket := (Socket U M).
Abbreviation act := (act set_token pong stringify decode closes).
Abbreviation run := (run set_token pong stringify decode closes).
Abbreviation action := (@action Token M).
Abbreviation emit := (emit closes).
Implicit Types (t : transport) (k : socket) (a : action).

(** * What is under way *)

Definition live k : Prop := sk_state k ≠ Closed.
#[local] Instance live_dec k : Decision (live k).
Proof. unfold live. apply _. Defined.

Definition pending t : nat :=
  ((if tp_resolving t is Some _ then 1 else 0) + (if tp_timer t then 1 else 0) + tp_refreshing t)%nat.
Definition busy t : nat := (length (filter live (tp_sockets t)) + pending t)%nat.

Lemma alter_live i f (ks : list socket) :
  (∀ k, live (f k) ↔ live k) → length (filter live (alter f i ks)) = length (filter live ks).
Proof.
  intros Hf. revert i. induction ks as [|k ks IH]; intros [|i]; try done;
    [change (alter f 0%nat (k :: ks)) with (f k :: ks)|change (alter f (S i) (k :: ks)) with (k :: alter f i ks)];
    rewrite !filter_cons.
  - specialize (Hf k). destruct (decide (live (f k))), (decide (live k)); try tauto; done.
  - destruct (decide (live k)); cbn; by rewrite IH.
Qed.
Lemma alter_dead i f (ks : list socket) k :
  ks !! i = Some k → live k → (∀ k, ¬ live (f k)) →
  S (length (filter live (alter f i ks))) = length (filter live ks).
Proof.
  intros Hi Hk Hf. revert i Hi. induction ks as [|k' ks IH]; intros [|i] Hi; try done;
    [change (alter f 0%nat (k' :: ks)) with (f k' :: ks)|change (alter f (S i) (k' :: ks)) with (k' :: alter f i ks)];
    rewrite !filter_cons; cbn in Hi.
  - injection Hi as ->. rewrite (decide_True (P:=live k)) by done. rewrite (decide_False (P:=live (f k))) by apply Hf. done.
  - destruct (decide (live k')); cbn; by rewrite (IH i).
Qed.

Lemma live_with st s tm k : live (sk_with st s tm k) ↔ st ≠ Closed.
Proof. done. Qed.
Lemma live_sk_close k : live (sk_close k) ↔ live k.
Proof. unfold sk_close, live. destruct (sk_state k) eqn:E; cbn; rewrite ?E; done. Qed.

(** Operations that leave everything under way as it is. *)
Lemma busy_on_socket i f t : (∀ k, live (f k) ↔ live k) → busy (on_socket i f t) = busy t.
Proof. intros Hf. unfold busy. cbn. by rewrite alter_live. Qed.
Lemma busy_settle p r t : busy (settle p r t) = busy t.
Proof. by destruct p. Qed.
Lemma busy_settle_socket i r t : busy (settle_socket i r t) = busy t.
Proof.
  unfold settle_socket. destruct (tp_sockets t !! i) as [k|]; [|done]. destruct (sk_settled k); [done|].
  rewrite busy_settle. by apply busy_on_socket.
Qed.
Lemma busy_flush t : busy (flush stringify t) = busy t.
Proof. unfold flush. destruct (open_socket t); [|done]. destruct (q_drain _ _). by rewrite busy_on_socket. Qed.

Lemma busy_close t : (busy (close t) ≤ busy t)%nat.
Proof.
  unfold close. cbv zeta. destruct (tp_ws _) as [i|]; [rewrite busy_on_socket by apply live_sk_close|];
    unfold busy, pending; cbn; destruct (tp_timer t); lia.
Qed.
Lemma busy_emit e t : (busy (emit e t) ≤ busy t)%nat.
Proof. unfold ClientTransport.emit. cbv zeta. destruct (closes _); [|done]. etransitivity; [apply busy_close|]. done. Qed.

(** A transport that is not terminal was not closed by a listener. *)
Lemma emit_alive e t : isTerminal (emit e t) = false → emit e t = log e t.
Proof.
  unfold ClientTransport.emit. cbv zeta. destruct (closes _); [|done]. unfold close, isTerminal. cbv zeta.
  by destruct (tp_ws _).
Qed.
Lemma terminal_emit e t : isTerminal t = true → isTerminal (emit e t) = true.
Proof.
  intros Ht. unfold ClientTransport.emit. cbv zeta. destruct (closes _); [|done]. unfold close, isTerminal. cbv zeta.
  by destruct (tp_ws _).
Qed.
Lemma terminal_exhausted c t : isTerminal (set_terminal c true t) = true.
Proof. apply orb_true_r. Qed.
Lemma terminal_settle p r t : isTerminal (settle p r t) = isTerminal t.
Proof. by destruct p. Qed.
Lemma terminal_settle_socket i r t : isTerminal (settle_socket i r t) = isTerminal t.
Proof.
  unfold settle_socket. destruct (tp_sockets t !! i) as [k|]; [|done]. destruct (sk_settled k); [done|].
  by rewrite terminal_settle.
Qed.
Lemma terminal_flush t : isTerminal (flush stringify t) = isTerminal t.
Proof. unfold flush. destruct (open_socket t); [|done]. by destruct (q_drain _ _). Qed.

Lemma busy_arm t : (busy (set_timer true t) ≤ busy t + 1)%nat.
Proof. unfold busy, pending. cbn. destruct (tp_timer t); lia. Qed.
Lemma busy_schedule t : (busy (scheduleReconnect closes t) ≤ busy (set_timer false t) + 1)%nat.
Proof.
  unfold scheduleReconnect, armReconnectTimer. cbv zeta. set (t2 := set_backoff _ _).
  pose proof (busy_emit (EvReconnecting (b_attempt (tp_reconnect t2))) t2) as Hb.
  change (busy (set_timer false t)) with (busy t2). etransitivity; [apply busy_arm|]. lia.
Qed.
Lemma busy_schedule_alive t :
  isTerminal (scheduleReconnect closes t) = false →
  busy (scheduleReconnect closes t) = (busy (set_timer false t) + 1)%nat.
Proof.
  unfold scheduleReconnect, armReconnectTimer. cbv zeta. set (t2 := set_backoff _ _). intros Ht.
  change (isTerminal (set_timer true (emit (EvReconnecting (b_attempt (tp_reconnect t2))) t2)))
    with (isTerminal (emit (EvReconnecting (b_attempt (tp_reconnect t2))) t2)) in Ht.
  rewrite (emit_alive _ _ Ht). unfold busy, pending. cbn. lia.
Qed.

Lemma busy_timer_off t : (busy (set_timer false t) ≤ busy t)%nat.
Proof. unfold busy, pending. cbn. destruct (tp_timer t); lia. Qed.

Lemma ws_close_busy i code reason k t :
  tp_sockets t !! i = Some k → live k →
  let t' := ws_close closes i code reason t in
  (busy t' ≤ busy t)%nat
  ∧ (op_reconnect (tp_opts t) = true → busy t = 1%nat → isTerminal t' = false → busy t' = 1%nat).
Proof.
  intros Hi Hk. cbv zeta. unfold ws_close. rewrite Hi, decide_False by done. cbv zeta.
  set (t1 := on_socket i _ t).
  assert (H1' : S (busy t1) = busy t).
  { unfold busy, t1. cbn [on_socket set_sockets tp_sockets]. erewrite <- (alter_dead i _ (tp_sockets t) k Hi Hk); [done|].
    intros k' Hl. by apply Hl. }
  pose proof (busy_emit (EvClose code reason) t1) as H2'. set (t2 := emit (EvClose code reason) t1) in *.
  destruct (isTerminal t2) eqn:Et2; cbn [orb].
  { split; [lia|]. rewrite Et2. done. }
  assert (E2 : t2 = log (EvClose code reason) t1) by (by apply emit_alive).
  assert (Hopt : tp_opts t2 = tp_opts t) by (by rewrite E2). rewrite Hopt.
  destruct (op_reconnect (tp_opts t)); cbn [negb]; [|split; [lia|done]].
  destruct (decide (code ∈ _)).
  { rewrite busy_settle_socket, terminal_settle_socket. split.
    - pose proof (busy_emit (EvTerminated code reason) (set_terminal (tp_closed t2) true t2)) as Hb.
      change (busy (set_terminal _ _ t2)) with (busy t2) in Hb. lia.
    - intros _ _. by rewrite (terminal_emit _ _ (terminal_exhausted _ _)). }
  destruct (b_isExhausted _).
  { rewrite busy_settle_socket, terminal_settle_socket. split.
    - etransitivity; [apply busy_emit|]. etransitivity; [apply busy_emit|].
      change (busy (set_terminal _ _ t2)) with (busy t2). lia.
    - intros _ _. by rewrite (terminal_emit _ _ (terminal_emit _ _ (terminal_exhausted _ _))). }
  pose proof (busy_schedule t2) as Hs. pose proof (busy_timer_off t2) as Ho. split; [lia|]. intros _ Hb Ht.
  rewrite busy_schedule_alive by done. lia.
Qed.

(** No operation but the construction of a socket makes one live. *)
Record quiet t t' : Prop := {
  qu_ws : tp_ws t' = tp_ws t;
  qu_opts : tp_opts t' = tp_opts t;
  qu_terminal : isTerminal t = true → isTerminal t' = true;
  qu_live i k' : tp_sockets t' !! i = Some k' → live k' → ∃ k, tp_sockets t !! i = Some k ∧ live k;
}.
#[local] Instance quiet_refl : Reflexive quiet.
Proof. intros t. constructor; eauto. Qed.
#[local] Instance quiet_trans : Transitive quiet.
Proof.
  intros t1 t2 t3 [A1 A2 A0 A3] [B1 B2 B0 B3]. constructor; [congruence..|auto|]. intros i k'' Hi Hl.
  destruct (B3 i k'' Hi Hl) as (k' & Hi' & Hl'). eauto.
Qed.

Lemma quiet_on_socket i f t : (∀ k, live (f k) → live k) → quiet t (on_socket i f t).
Proof.
  intros Hf. constructor; [done..|]. intros j k'. cbn. destruct (decide (i = j)) as [<-|Hne].
  - rewrite list_lookup_alter_eq. destruct (tp_sockets t !! i) as [k|]; [|done]. intros [= <-] ?%Hf. eauto.
  - rewrite list_lookup_alter_ne by done. eauto.
Qed.
Lemma quiet_same t t' : tp_ws t' = tp_ws t → tp_opts t' = tp_opts t → tp_sockets t' = tp_sockets t →
  (isTerminal t = true → isTerminal t' = true) → quiet t t'.
Proof. intros E1 E2 E3 E4. constructor; [done..|]. rewrite E3. eauto. Qed.
Lemma quiet_timer x t : quiet t (set_timer x t).
Proof. by apply quiet_same. Qed.
Lemma quiet_queue x t : quiet t (set_queue x t).
Proof. by apply quiet_same. Qed.
Lemma quiet_exhausted t : quiet t (set_terminal (tp_closed t) true t).
Proof. apply quiet_same; try done. intros _. apply orb_true_r. Qed.
Lemma quiet_closed t : quiet t (set_terminal true (tp_exhausted t) t).
Proof. by apply quiet_same. Qed.
Lemma quiet_pending x y t : quiet t (set_pending x y t).
Proof. by apply quiet_same. Qed.
Lemma quiet_backoff x t : quiet t (set_backoff x t).
Proof. by apply quiet_same. Qed.
Lemma quiet_promises x t : quiet t (set_promises x t).
Proof. by apply quiet_same. Qed.
Lemma quiet_url x t : quiet t (set_url x t).
Proof. by apply quiet_same. Qed.
Lemma quiet_log e t : quiet t (log e t).
Proof. by apply quiet_same. Qed.
#[local] Hint Resolve quiet_timer quiet_queue quiet_exhausted quiet_closed quiet_pending quiet_backoff quiet_promises quiet_url quiet_log : quiet.

(** One operation after the other. *)
Ltac quiet := repeat first [reflexivity | etransitivity; [|solve [auto with quiet nocore]]].

Lemma quiet_socket_close i t : quiet t (on_socket i sk_close t).
Proof. apply quiet_on_socket. intros k. apply live_sk_close. Qed.
Lemma quiet_push i ms t : quiet t (on_socket i (sk_push ms) t).
Proof. by apply quiet_on_socket. Qed.
Lemma quiet_mark i (f g : socket → bool) t : quiet t (on_socket i (λ k, sk_with (sk_state k) (f k) (g k) k) t).
Proof. by apply quiet_on_socket. Qed.
Lemma quiet_dead i (f g : socket → bool) t : quiet t (on_socket i (λ k, sk_with Closed (f k) (g k) k) t).
Proof. apply quiet_on_socket. intros k Hl. by destruct Hl. Qed.
#[local] Hint Resolve quiet_socket_close quiet_push quiet_mark quiet_dead : quiet.

Lemma quiet_close t : quiet t (close t).
Proof. unfold close. cbv zeta. destruct (tp_ws _); quiet. Qed.
#[local] Hint Resolve quiet_close : quiet.
Lemma quiet_emit e t : quiet t (emit e t).
Proof. unfold ClientTransport.emit. cbv zeta. destruct (closes _); quiet. Qed.
Lemma quiet_flush t : quiet t (flush stringify t).
Proof. unfold flush. destruct (open_socket t); [|done]. destruct (q_drain _ _). quiet. Qed.
Lemma quiet_settle p r t : quiet t (settle p r t).
Proof. destruct p; cbn [settle]; quiet. Qed.
#[local] Hint Resolve quiet_emit quiet_flush quiet_settle : quiet.
Lemma quiet_settle_socket i r t : quiet t (settle_socket i r t).
Proof. unfold settle_socket. destruct (tp_sockets t !! i) as [k|]; [|done]. destruct (sk_settled k); quiet. Qed.
Lemma quiet_schedule t : quiet t (scheduleReconnect closes t).
Proof. unfold scheduleReconnect, armReconnectTimer. cbv zeta. quiet. Qed.
Lemma quiet_send m t : quiet t (send stringify closes m t).1.
Proof.
  unfold send. destruct (isTerminal t); [done|]. destruct (open_socket t) as [i|].
  - destruct (stringify m); cbn [fst]; destruct (decide _); quiet.
  - destruct (q_enqueue m _) as [q []]; cbn [fst]; quiet.
Qed.
Lemma quiet_initSocket p t : quiet t (initSocket p t).
Proof. unfold initSocket. destruct (tp_resolving t); quiet. Qed.
#[local] Hint Resolve quiet_settle_socket quiet_schedule quiet_send quiet_initSocket : quiet.

Lemma quiet_ws_close i code reason t : quiet t (ws_close closes i code reason t).
Proof.
  unfold ws_close. destruct (tp_sockets t !! i); [|done]. destruct (decide _); [done|]. cbv zeta.
  destruct (_ || _); [quiet|]. destruct (decide _); [|destruct (b_isExhausted _)]; quiet.
Qed.

Lemma act_quiet a t : a ≠ AClassReady → quiet t (act a t).
Proof.
  destruct a as [|m| | | | |i|i code reason|i f|i|i| |token|]; intros Ha; cbn [ClientTransport.act]; try done; try quiet.
  - unfold connect. quiet.
  - unfold class_failed. destruct (tp_resolving t) as [[p|]|]; quiet.
  - unfold ws_open. destruct (tp_sockets t !! i) as [k|] eqn:Ei; [|done]. destruct (decide _) as [Hc|]; [|done]. cbv zeta.
    do 4 (etransitivity; [|solve [auto with quiet nocore]]).
    constructor; [done..|]. intros j k'. cbn. destruct (decide (i = j)) as [<-|Hne].
    + intros _ _. exists k. split; [done|]. unfold live. by rewrite Hc.
    + rewrite list_lookup_alter_ne by done. eauto.
  - apply quiet_ws_close.
  - unfold ws_message. destruct (tp_sockets t !! i); [|done]. destruct (decide _); [|done].
    destruct (decode f); [quiet|done| |quiet].
    pose proof (quiet_send pong t) as Hq. destruct (send _ _ pong t) as [t1 []]; [|exact Hq].
    etransitivity; [exact Hq|apply quiet_emit].
  - unfold ws_error. destruct (tp_sockets t !! i); [|done]. destruct (decide _); [done|]. cbv zeta. quiet.
  - unfold connect_timeout. destruct (tp_sockets t !! i) as [k|]; [|done]. destruct (sk_timer k); [|done].
    cbv zeta. destruct (sk_settled k); quiet.
  - unfold reconnect_timer. destruct (tp_timer t); [|done]. cbv zeta. unfold armReconnectTimer.
    destruct (isTerminal _); [quiet|]. destruct (tp_resolving _); [quiet|]. destruct (op_tokenRefresh _); quiet.
  - unfold token_fresh. destruct (tp_refreshing t); [done|]. quiet.
  - unfold token_failed. destruct (tp_refreshing t); [done|]. cbv zeta. destruct (isTerminal _); [quiet|].
    destruct (b_isExhausted _); quiet.
Qed.

(** * One attempt at a time, and never none *)

Lemma busy_live t i k : tp_sockets t !! i = Some k → live k → (1 + pending t ≤ busy t)%nat.
Proof.
  intros Hi Hk. unfold busy. assert (k ∈ filter live (tp_sockets t)) as Hin.
  { apply list_elem_of_filter. split; [done|]. by eapply list_elem_of_lookup_2. }
  destruct (filter live (tp_sockets t)); [by apply not_elem_of_nil in Hin|]. cbn. lia.
Qed.

Lemma busy_initSocket p t : (busy (initSocket p t) ≤ busy t + 1)%nat.
Proof.
  unfold initSocket. destruct (tp_resolving t) eqn:E; [rewrite busy_settle; lia|].
  unfold busy, pending. cbn. rewrite E. lia.
Qed.
Lemma busy_initSocket_free p t : tp_resolving t = None → busy (initSocket p t) = (busy t + 1)%nat.
Proof. intros E. unfold initSocket. rewrite E. unfold busy, pending. cbn. rewrite E. lia. Qed.

(** What an action must do: not add to what is under way, and go on while the
    transport is neither closed nor given up. *)
Definition keeps_busy t t' : Prop :=
  (busy t' ≤ busy t)%nat
  ∧ (op_reconnect (tp_opts t) = true → busy t = 1%nat → isTerminal t' = false → busy t' = 1%nat).

Lemma keeps_same t t' : busy t' = busy t → keeps_busy t t'.
Proof. intros E. split; [lia|]. congruence. Qed.

Lemma keeps_send m t : keeps_busy t (send stringify closes m t).1.
Proof.
  unfold send. destruct (isTerminal t); [by apply keeps_same|]. destruct (open_socket t) as [i|].
  - destruct (stringify m); cbn [fst]; apply keeps_same; rewrite ?busy_on_socket by done;
      destruct (decide _); rewrite ?busy_flush; done.
  - destruct (q_enqueue m _) as [q []]; cbn [fst]; [by apply keeps_same|].
    split; [etransitivity; [apply busy_emit|]; done|]. intros _ Hb Ht. by rewrite (emit_alive _ _ Ht).
Qed.

Lemma keeps_emit e t t' : busy t' = busy t → keeps_busy t (emit e t').
Proof.
  intros E. split; [etransitivity; [apply busy_emit|]; lia|]. intros _ Hb Ht. rewrite (emit_alive _ _ Ht).
  change (busy (log e t')) with (busy t'). congruence.
Qed.

Lemma keeps_class_ready t : keeps_busy t (class_ready t).
Proof.
  unfold class_ready. destruct (tp_resolving t) as [p|] eqn:Er; [|by apply keeps_same]. cbv zeta.
  set (t1 := set_pending None (tp_refreshing t) t).
  assert (H1' : S (busy t1) = busy t) by (unfold busy, pending; cbn; rewrite Er; lia).
  destruct (tp_closed t1) eqn:Ec.
  - split; [lia|]. intros _ _ Ht. unfold isTerminal in Ht. by rewrite Ec in Ht.
  - apply keeps_same. rewrite <- H1'. unfold busy. cbn [set_sockets tp_sockets]. rewrite filter_app, length_app.
    rewrite (filter_cons live), decide_True by done. cbn. unfold pending. cbn. lia.
Qed.

Lemma keeps_ws_open i t : keeps_busy t (ws_open stringify closes i t).
Proof.
  unfold ws_open. destruct (tp_sockets t !! i) as [k|] eqn:Ei; [|by apply keeps_same].
  destruct (decide _) as [Hc|]; [|by apply keeps_same]. cbv zeta. set (t2 := set_backoff _ _).
  assert (Hb2 : busy t2 = busy t).
  { unfold busy, t2. f_equal. cbn. clear -Ei Hc. revert i Ei. induction (tp_sockets t) as [|k' ks IH]; intros [|i] Ei;
      try done; [injection Ei as ->|]; cbn -[filter].
    - change (alter ?f 0%nat (k :: ks)) with (f k :: ks). rewrite !filter_cons, !decide_True; [done| |done].
      unfold live. by rewrite Hc.
    - change (alter ?f (S i) (k' :: ks)) with (k' :: alter f i ks). rewrite !filter_cons. destruct (decide _); cbn; by rewrite IH. }
  pose proof (keeps_emit EvOpen t t2 Hb2) as [K1 K2]. split.
  - by rewrite busy_settle_socket, busy_flush.
  - rewrite busy_settle_socket, busy_flush, terminal_settle_socket, terminal_flush. exact K2.
Qed.

Lemma keeps_timeout i t : keeps_busy t (connect_timeout i t).
Proof.
  unfold connect_timeout. destruct (tp_sockets t !! i) as [k|]; [|by apply keeps_same]. destruct (sk_timer k); [|by apply keeps_same].
  cbv zeta. destruct (sk_settled k); [by apply keeps_same, busy_on_socket|]. apply keeps_same.
  rewrite busy_settle, (busy_on_socket i sk_close) by (intros; apply live_sk_close).
  change (busy (set_terminal ?a ?b ?t)) with (busy t). by rewrite !busy_on_socket.
Qed.

Lemma busy_refresh t : busy (set_pending (tp_resolving t) (S (tp_refreshing t)) t) = S (busy t).
Proof. unfold busy, pending. cbn. lia. Qed.
Lemma keeps_timer t : (busy t ≤ 1)%nat → keeps_busy t (reconnect_timer t).
Proof.
  intros Hb. unfold reconnect_timer. destruct (tp_timer t) eqn:Et; [|by apply keeps_same]. cbv zeta.
  set (t1 := set_timer false t).
  assert (H1' : S (busy t1) = busy t) by (unfold busy, pending; cbn; rewrite Et; lia).
  assert (Hr : tp_resolving t1 = None ∧ tp_refreshing t1 = 0%nat).
  { revert Hb. unfold busy, pending. rewrite Et. cbn. destruct (tp_resolving t), (tp_refreshing t); cbn; try done; lia. }
  destruct Hr as [Hr Hf]. destruct (isTerminal t1) eqn:Ett.
  - split; [lia|]. rewrite Ett. done.
  - rewrite Hr. destruct (op_tokenRefresh _).
    + apply keeps_same. rewrite <- H1', <- Hr. apply busy_refresh.
    + apply keeps_same. rewrite busy_initSocket_free by done. lia.
Qed.

Lemma keeps_token_fresh token t : (busy t ≤ 1)%nat → keeps_busy t (token_fresh set_token token t).
Proof.
  intros Hb. unfold token_fresh. destruct (tp_refreshing t) as [|n] eqn:Ef; [by apply keeps_same|].
  set (t1 := set_url _ _).
  assert (H1' : S (busy t1) = busy t) by (unfold busy, pending; cbn; rewrite Ef; lia).
  assert (Hr : tp_resolving t1 = None).
  { revert Hb. unfold busy, pending. cbn. rewrite Ef. destruct (tp_resolving t); [lia|done]. }
  apply keeps_same. rewrite busy_initSocket_free by done. lia.
Qed.

Lemma keeps_token_failed t : keeps_busy t (token_failed closes t).
Proof.
  unfold token_failed. destruct (tp_refreshing t) as [|n] eqn:Ef; [by apply keeps_same|]. cbv zeta.
  set (t1 := set_pending _ _ t).
  assert (H1' : S (busy t1) = busy t) by (unfold busy, pending; cbn; rewrite Ef; lia).
  destruct (isTerminal t1) eqn:Et; [split; [lia|]; rewrite Et; done|]. destruct (b_isExhausted _).
  - split.
    + etransitivity; [apply busy_emit|]. etransitivity; [apply busy_emit|]. change (busy (set_terminal ?a ?b t1)) with (busy t1). lia.
    + intros _ _. by rewrite (terminal_emit _ _ (terminal_emit _ _ (terminal_exhausted _ _))).
  - pose proof (busy_schedule t1) as Hs. pose proof (busy_timer_off t1) as Ho. split; [lia|]. intros _ Hb Ht.
    rewrite busy_schedule_alive by done. lia.
Qed.

Lemma keeps_message i f t : keeps_busy t (ws_message pong stringify decode closes i f t).
Proof.
  unfold ws_message. destruct (tp_sockets t !! i); [|by apply keeps_same]. destruct (decide _); [|by apply keeps_same].
  destruct (decode f); [by apply keeps_emit|by apply keeps_same| |by apply keeps_emit].
  pose proof (keeps_send pong t) as Hs. pose proof (quiet_send pong t) as Hq.
  destruct (send stringify closes pong t) as [t1 []]; [|exact Hs]. cbn [fst] in *. destruct Hs as [S1 S2]. split.
  - etransitivity; [apply busy_emit|done].
  - intros Ho Hb Ht. pose proof (emit_alive _ _ Ht) as E. rewrite E in *. by apply S2.
Qed.

Lemma keeps_error i t : keeps_busy t (ws_error closes i t).
Proof.
  unfold ws_error. destruct (tp_sockets t !! i) as [k|]; [|by apply keeps_same]. destruct (decide _); [by apply keeps_same|].
  cbv zeta. set (t1 := on_socket i _ t). assert (Hb1 : busy t1 = busy t) by by apply busy_on_socket.
  pose proof (keeps_emit (EvError SocketError) t t1 Hb1) as [K1 K2]. split; rewrite busy_settle_socket; [done|].
  rewrite terminal_settle_socket. exact K2.
Qed.

Lemma keeps_close t : keeps_busy t (close t).
Proof.
  split; [apply busy_close|]. intros _ _. unfold close, isTerminal. cbv zeta. by destruct (tp_ws _).
Qed.

Lemma act_keeps a t : a ≠ AConnect → a ≠ AClassFailed → (busy t ≤ 1)%nat → keeps_busy t (act a t).
Proof.
  intros Ha Hf Hb.
  destruct a as [|m| | | | |i|i code reason|i f|i|i| |token|]; cbn [ClientTransport.act]; try done.
  - apply keeps_send.
  - apply keeps_same, busy_flush.
  - apply keeps_close.
  - apply keeps_class_ready.
  - apply keeps_ws_open.
  - destruct (tp_sockets t !! i) as [k|] eqn:Ei; [destruct (decide (live k)) as [Hl|Hl]|].
    + by eapply ws_close_busy.
    + unfold ws_close. rewrite Ei, decide_True; [by apply keeps_same|]. by apply dec_stable.
    + unfold ws_close. rewrite Ei. by apply keeps_same.
  - apply keeps_message.
  - apply keeps_error.
  - apply keeps_timeout.
  - by apply keeps_timer.
  - by apply keeps_token_fresh.
  - apply keeps_token_failed.
Qed.

Lemma class_failed_busy t : (busy (class_failed closes t) ≤ busy t)%nat.
Proof.
  unfold class_failed. destruct (tp_resolving t) as [[p|]|] eqn:Er; [| |done].
  - rewrite busy_settle. unfold busy, pending. cbn. rewrite Er. lia.
  - etransitivity; [apply busy_emit|]. unfold busy, pending. cbn. rewrite Er. lia.
Qed.

(** Every live socket is the current one. *)
Definition current_ok t : Prop := ∀ i k, tp_sockets t !! i = Some k → live k → tp_ws t = Some i.

Lemma act_current a t : (busy t ≤ 1)%nat → current_ok t → current_ok (act a t).
Proof.
  intros Hb Hc. assert (a = AClassReady ∨ a ≠ AClassReady) as [->|Ha] by (destruct a; auto).
  - cbn [ClientTransport.act]. unfold class_ready. destruct (tp_resolving t) as [p|] eqn:Er; [|done]. cbv zeta.
    destruct (tp_closed _); [done|]. intros i k. cbn. intros Hi Hl. apply lookup_app_Some in Hi as [Hi|[Hle Hi]].
    + pose proof (busy_live t i k Hi Hl) as Hlt. unfold pending in Hlt. rewrite Er in Hlt. lia.
    + apply list_lookup_singleton_Some in Hi as [Hi _]. f_equal. lia.
  - destruct (act_quiet a t Ha) as [Q1 _ _ Q3]. intros i k' Hi Hl. rewrite Q1.
    destruct (Q3 i k' Hi Hl) as (k & Hk & Hlk). by apply (Hc i k).
Qed.

Lemma act_terminal a t : isTerminal t = true → isTerminal (act a t) = true.
Proof.
  assert (a = AClassReady ∨ a ≠ AClassReady) as [->|Ha] by (destruct a; auto); [|apply (act_quiet a t Ha)].
  cbn [ClientTransport.act]. unfold class_ready. destruct (tp_resolving t); [|done]. cbv zeta. by destruct (tp_closed _).
Qed.

Lemma run_alive rest t :
  Forall (λ a, a ≠ AConnect) rest → (busy t ≤ 1)%nat → current_ok t →
  let t' := run rest t in
  (busy t' ≤ 1)%nat ∧ current_ok t' ∧ tp_opts t' = tp_opts t
  ∧ (op_reconnect (tp_opts t) = true → busy t = 1%nat → AClassFailed ∉ rest → isTerminal t' = false → busy t' = 1%nat).
Proof.
  induction rest as [|a rest IH] using rev_ind; intros Hr Hb Hc; [done|]. cbv zeta.
  apply Forall_app in Hr as [Hr Ha]. rewrite Forall_singleton in Ha. destruct (IH Hr Hb Hc) as (I1 & I2 & I3 & I4).
  unfold ClientTransport.run. rewrite fold_left_app. cbn [fold_left]. fold (run rest t). set (t1 := run rest t) in *. clearbody t1.
  assert (Hopt : tp_opts (act a t1) = tp_opts t1).
  { destruct a; try (apply act_quiet; done). cbn [ClientTransport.act]. unfold class_ready. destruct (tp_resolving t1); [|done].
    cbv zeta. by destruct (tp_closed _). }
  split; [|split; [by apply act_current|split; [congruence|]]].
  - assert (a = AClassFailed ∨ a ≠ AClassFailed) as [->|Hf] by (destruct a; auto); [etransitivity; [apply class_failed_busy|done]|].
    etransitivity; [apply act_keeps; done|done].
  - intros Ho Hb1 Hn Ht. assert (a ≠ AClassFailed) as Hf by (intros ->; apply Hn; apply elem_of_app; right; by left).
    destruct (act_keeps a t1 Ha Hf I1) as [_ K]. apply K; [congruence| |done]. apply I4; [done|done| |].
    + intros Hx. apply Hn. apply elem_of_app. by left.
    + destruct (isTerminal t1) eqn:Et; [|done]. by rewrite act_terminal in Ht.
Qed.

(** * Order on the wire *)

(** What was put on the wire, socket after socket, and what waits behind it. *)
Definition wire t : list M := concat (sk_sent <$> tp_sockets t).
Definition stream t : list M := wire t ++ q_items (tp_queue t).

(** What an action hands over for sending and is not refused. *)
Definition send_accepts (m : M) t : list M :=
  if isTerminal t then []
  else match open_socket t with
       | Some _ => if stringify m then [m] else []
       | None => if (q_enqueue m (tp_queue t)).2 then [m] else []
       end.
Definition accepts a t : list M :=
  match a with
  | ASend m => send_accepts m t
  | AMessage i f =>
      match tp_sockets t !! i with
      | Some k => if decide (sk_state k = Open ∨ sk_state k = Closing) then
                    match decode f with IsPing => send_accepts pong t | _ => [] end
                  else []
      | None => []
      end
  | _ => []
  end.
Fixpoint accepted (l : list action) t : list M :=
  match l with
  | [] => []
  | a :: l' => accepts a t ++ accepted l' (act a t)
  end.

Record fifo_inv t : Prop := {
  fi_closed : tp_closed t = true → q_items (tp_queue t) = [];
  fi_ok : Forall (λ m, stringify m = true) (q_items (tp_queue t));
  fi_last i : tp_ws t = Some i → S i = length (tp_sockets t);
}.

(** An operation conserves the messages: the wire gains a part of what waited and of
    [ms], in order, and as long as the transport is not closed nothing is lost. *)
Record conserved (ms : list M) t t' : Prop := {
  cv_inv : fifo_inv t';
  cv_closed : tp_closed t = true → tp_closed t' = true ∧ wire t' = wire t;
  cv_wire : wire t' `prefix_of` stream t ++ ms;
  cv_stream : tp_closed t' = false → stream t' = stream t ++ ms;
}.
Definition conserve (ms : list M) t t' : Prop := fifo_inv t → conserved ms t t'.

Lemma conserve_app ms1 ms2 t t1 t2 : conserve ms1 t t1 → conserve ms2 t1 t2 → conserve (ms1 ++ ms2) t t2.
Proof.
  intros C1 C2 Ht. destruct (C1 Ht) as [A1 A2 A3 A4]. destruct (C2 A1) as [B1 B2 B3 B4]. constructor.
  - done.
  - intros Hc. destruct (A2 Hc) as [Hc1 Hw1]. destruct (B2 Hc1) as [Hc2 Hw2]. split; [done|congruence].
  - destruct (tp_closed t1) eqn:Ec.
    + destruct (B2 eq_refl) as [_ ->]. rewrite (assoc_L (++)). by apply prefix_app_r.
    + rewrite (A4 eq_refl) in B3. by rewrite (assoc_L (++)).
  - intros Hc. assert (tp_closed t1 = false) as Hc1.
    { destruct (tp_closed t1) eqn:Ec; [|done]. by destruct (B2 eq_refl) as [Hc' _]; congruence. }
    rewrite (B4 Hc), (A4 Hc1). by rewrite (assoc_L (++)).
Qed.
#[local] Instance conserve_refl : Reflexive (conserve []).
Proof.
  intros t Ht. constructor; [done|done| |by rewrite app_nil_r]. rewrite app_nil_r. unfold stream. by apply prefix_app_r.
Qed.
#[local] Instance conserve_trans : Transitive (conserve []).
Proof. intros t1 t2 t3 C1 C2. apply (conserve_app [] []  t1 t2 t3 C1 C2). Qed.

(** Operations that do not touch messages. *)
Lemma conserve_same t t' :
  tp_queue t' = tp_queue t → tp_closed t' = tp_closed t → tp_ws t' = tp_ws t → tp_sockets t' = tp_sockets t →
  conserve [] t t'.
Proof.
  intros E1 E2 E3 E4 [I1 I2 I3].
  assert (Ew : wire t' = wire t) by (unfold wire; by rewrite E4).
  constructor.
  - constructor; rewrite ?E1, ?E2, ?E3, ?E4; done.
  - rewrite E2. auto.
  - rewrite app_nil_r, Ew. unfold stream. by apply prefix_app_r.
  - intros _. unfold stream. by rewrite Ew, E1, app_nil_r.
Qed.
Lemma wire_on_socket i (f : socket → socket) t : (∀ k, sk_sent (f k) = sk_sent k) → wire (on_socket i f t) = wire t.
Proof.
  intros Hf. unfold wire. cbn. f_equal. apply list_eq. intros j. rewrite !list_lookup_fmap.
  destruct (decide (i = j)) as [<-|Hne].
  - rewrite list_lookup_alter_eq. destruct (tp_sockets t !! i); [|done]. cbn. by rewrite Hf.
  - by rewrite list_lookup_alter_ne.
Qed.
Lemma conserve_on_socket i f t : (∀ k, sk_sent (f k) = sk_sent k) → conserve [] t (on_socket i f t).
Proof.
  intros Hf [I1 I2 I3]. pose proof (wire_on_socket i f t Hf) as Ew. constructor.
  - constructor; [done|done|]. intros j Hj. cbn. rewrite length_alter. by apply I3.
  - auto.
  - rewrite app_nil_r, Ew. unfold stream. by apply prefix_app_r.
  - intros _. unfold stream. by rewrite Ew, app_nil_r.
Qed.
Lemma sent_sk_close k : sk_sent (sk_close k) = sk_sent k.
Proof. unfold sk_close. by destruct (sk_state k). Qed.

Lemma conserve_timer x t : conserve [] t (set_timer x t).
Proof. by apply conserve_same. Qed.
Lemma conserve_exhausted t : conserve [] t (set_terminal (tp_closed t) true t).
Proof. by apply conserve_same. Qed.
Lemma conserve_pending x y t : conserve [] t (set_pending x y t).
Proof. by apply conserve_same. Qed.
Lemma conserve_backoff x t : conserve [] t (set_backoff x t).
Proof. by apply conserve_same. Qed.
Lemma conserve_promises x t : conserve [] t (set_promises x t).
Proof. by apply conserve_same. Qed.
Lemma conserve_url x t : conserve [] t (set_url x t).
Proof. by apply conserve_same. Qed.
Lemma conserve_log e t : conserve [] t (log e t).
Proof. by apply conserve_same. Qed.
Lemma conserve_with i (s : socket → readyState) (f g : socket → bool) t :
  conserve [] t (on_socket i (λ k, sk_with (s k) (f k) (g k) k) t).
Proof. by apply conserve_on_socket. Qed.
Lemma conserve_socket_close i t : conserve [] t (on_socket i sk_close t).
Proof. apply conserve_on_socket, sent_sk_close. Qed.

Lemma conserve_clear t : conserve [] t (set_queue (q_clear (tp_queue t)) (set_terminal true (tp_exhausted t) t)).
Proof.
  intros [I1 I2 I3]. constructor.
  - constructor; cbn; [by rewrite q_clear_items|by rewrite q_clear_items|done].
  - done.
  - rewrite app_nil_r. unfold stream. by apply prefix_app_r.
  - done.
Qed.
#[local] Hint Resolve conserve_timer conserve_exhausted conserve_pending conserve_backoff conserve_promises conserve_url
  conserve_log conserve_with conserve_socket_close conserve_clear : fifo.
Ltac conserve := repeat first [reflexivity | etransitivity; [|solve [auto with fifo nocore]]].

Lemma conserve_close t : conserve [] t (close t).
Proof. unfold close. cbv zeta. destruct (tp_ws _); conserve. Qed.
#[local] Hint Resolve conserve_close : fifo.
Lemma conserve_emit e t : conserve [] t (emit e t).
Proof. unfold ClientTransport.emit. cbv zeta. destruct (closes _); conserve. Qed.
Lemma conserve_settle p r t : conserve [] t (settle p r t).
Proof. destruct p; cbn [settle]; conserve. Qed.
#[local] Hint Resolve conserve_emit conserve_settle : fifo.
Lemma conserve_settle_socket i r t : conserve [] t (settle_socket i r t).
Proof. unfold settle_socket. destruct (tp_sockets t !! i) as [k|]; [|reflexivity]. destruct (sk_settled k); conserve. Qed.
Lemma conserve_schedule t : conserve [] t (scheduleReconnect closes t).
Proof. unfold scheduleReconnect, armReconnectTimer. cbv zeta. conserve. Qed.
Lemma conserve_initSocket p t : conserve [] t (initSocket p t).
Proof. unfold initSocket. destruct (tp_resolving t); conserve. Qed.
#[local] Hint Resolve conserve_settle_socket conserve_schedule conserve_initSocket : fifo.

Lemma open_ws t i : open_socket t = Some i → tp_ws t = Some i ∧ ∃ k, tp_sockets t !! i = Some k ∧ sk_state k = Open.
Proof.
  unfold open_socket. destruct (tp_ws t) as [j|]; [|done]. destruct (tp_sockets t !! j) as [k|] eqn:Ek; [|done].
  destruct (decide _); [|done]. intros [= ->]. eauto.
Qed.

(** What is sent on the current socket goes to the end of the wire. *)
Lemma wire_push t i ms : S i = length (tp_sockets t) → wire (on_socket i (sk_push ms) t) = wire t ++ ms.
Proof.
  intros Hl. unfold wire. cbn.
  destruct (tp_sockets t) as [|k ks _] using rev_ind; [done|]. rewrite length_app in Hl. cbn in Hl.
  assert (i = length ks) as -> by lia. rewrite alter_app_r_alt by done. rewrite Nat.sub_diag.
  change (alter (sk_push ms) 0%nat [k]) with [sk_push ms k].
  rewrite !fmap_app, !concat_app. cbn. by rewrite !app_nil_r, (assoc_L (++)).
Qed.

Lemma flush_spec t : fifo_inv t →
  conserved [] t (flush stringify t) ∧ (is_Some (open_socket t) → q_items (tp_queue (flush stringify t)) = []).
Proof.
  intros Ht. unfold flush. destruct (open_socket t) as [i|] eqn:Eo; [|split; [by apply conserve_refl|by intros [? [=]]]].
  destruct (open_ws t i Eo) as [Hws _].
  pose proof (q_drain_items stringify (tp_queue t)) as Hd. pose proof (q_drain_stop stringify (tp_queue t)) as Hs.
  destruct (q_drain stringify (tp_queue t)) as [q sent]. cbn [fst snd] in *.
  assert (Hq : q_items q = []).
  { destruct (q_items q) as [|x l]; [done|]. exfalso. pose proof (fi_ok _ Ht) as Hok. rewrite <- Hd in Hok.
    apply Forall_app in Hok as [_ Hok]. apply Forall_cons in Hok as [Hx _]. congruence. }
  rewrite Hq, app_nil_r in Hd.
  set (t1 := set_queue q t). assert (Hw : wire (on_socket i (sk_push sent) t1) = wire t ++ sent).
  { change (wire t) with (wire t1). apply wire_push, (fi_last _ Ht i Hws). }
  split; [|done]. constructor.
  - constructor; cbn; [by intros|by rewrite Hq|]. intros j Hj. rewrite length_alter. by apply (fi_last _ Ht).
  - intros Hc. split; [done|]. rewrite Hw. pose proof (fi_closed _ Ht Hc) as E. rewrite E in Hd. by rewrite Hd, app_nil_r.
  - rewrite Hw, app_nil_r, Hd. done.
  - intros _. unfold stream at 1. rewrite Hw. cbn. rewrite Hq, Hd, !app_nil_r. done.
Qed.
Lemma conserve_flush t : conserve [] t (flush stringify t).
Proof. intros Ht. by apply flush_spec. Qed.
#[local] Hint Resolve conserve_flush : fifo.

Lemma open_flush t : open_socket (flush stringify t) = open_socket t.
Proof.
  unfold flush. destruct (open_socket t) as [i|] eqn:Eo; [|done]. destruct (open_ws t i Eo) as (Hws & k & Hk & Hst).
  destruct (q_drain _ _) as [q sent]. unfold open_socket. cbn. rewrite Hws, list_lookup_alter_eq, Hk. cbn.
  by rewrite decide_True.
Qed.

Lemma closed_flush t : tp_closed (flush stringify t) = tp_closed t.
Proof. unfold flush. destruct (open_socket t); [|done]. by destruct (q_drain _ _). Qed.

(** A message that goes out at once, behind what waited. *)
Lemma conserve_push m t t1 i :
  conserved [] t t1 → tp_closed t1 = false → q_items (tp_queue t1) = [] → tp_ws t1 = Some i → tp_closed t = false →
  conserved [m] t (on_socket i (sk_push [m]) t1).
Proof.
  intros [C1 C2 C3 C4] Hc1 Hq Hws Hc. pose proof (wire_push t1 i [m] (fi_last _ C1 i Hws)) as Hw.
  assert (Hs : wire t1 = stream t).
  { specialize (C4 Hc1). unfold stream at 1 in C4. by rewrite Hq, !app_nil_r in C4. }
  constructor.
  - destruct C1 as [I1 I2 I3]. constructor; [done|done|]. intros j Hj. cbn. rewrite length_alter. by apply I3.
  - congruence.
  - by rewrite Hw, Hs.
  - intros _. unfold stream at 1. rewrite Hw, Hs. cbn. by rewrite Hq, app_nil_r.
Qed.

Lemma conserve_send m t : stringify m = true → conserve (send_accepts m t) t (send stringify closes m t).1.
Proof.
  intros Hm Ht. unfold send, send_accepts. destruct (isTerminal t) eqn:Et; [by apply conserve_refl|].
  apply orb_false_iff in Et as [Hcl _]. destruct (open_socket t) as [i|] eqn:Eo; rewrite ?Hm; cbn [fst].
  - destruct (open_ws t i Eo) as [Hws _]. apply conserve_push; [| | | |done].
    + destruct (decide _); [by apply conserve_flush|by apply conserve_refl].
    + destruct (decide _); [by rewrite closed_flush|done].
    + destruct (decide _) as [Hlt|Hge]; [apply flush_spec; [done|]; by rewrite Eo|].
      rewrite q_size_items in Hge. by destruct (q_items (tp_queue t)); [|cbn in Hge; lia].
    + destruct (decide _); [|done]. assert (open_socket (flush stringify t) = Some i) as Ho by by rewrite open_flush.
      by apply open_ws in Ho as [].
  - pose proof (q_enqueue_items m (tp_queue t)) as He. destruct (q_enqueue m (tp_queue t)) as [q ok]. cbn [fst snd] in *.
    assert (Hset : conserved (if ok then [m] else []) t (set_queue q t)).
    { destruct Ht as [I1 I2 I3]. constructor.
      - constructor; cbn; [congruence| |done]. rewrite He. destruct ok; [|done]. apply Forall_app. split; [done|]. by constructor.
      - congruence.
      - unfold stream. rewrite <- (assoc_L (++)). by apply prefix_app_r.
      - intros _. unfold stream. cbn. rewrite He, <- (assoc_L (++)). f_equal. destruct ok; [done|]. by rewrite app_nil_r. }
    destruct ok; [exact Hset|]. cbn [fst].
    exact (conserve_app [] [] t (set_queue q t) _ (λ _, Hset) (conserve_emit _ _) Ht).
Qed.

Lemma act_conserve a t :
  stringify pong = true → (∀ m, a = ASend m → stringify m = true) → conserve (accepts a t) t (act a t).
Proof.
  intros Hp Ha. destruct a as [|m| | | | |i|i code reason|i f|i|i| |token|]; cbn [ClientTransport.act accepts].
  - unfold connect. conserve.
  - by apply conserve_send, Ha.
  - conserve.
  - conserve.
  - unfold class_ready. destruct (tp_resolving t); [|reflexivity]. cbv zeta. destruct (tp_closed _) eqn:Ec; [conserve|].
    intros [I1 I2 I3]. set (t1 := set_sockets _ _ _).
    assert (Hw : wire t1 = wire t). { unfold wire, t1. cbn. rewrite fmap_app, concat_app. cbn. by rewrite !app_nil_r. }
    constructor.
    + constructor; [done|done|]. intros j [= <-]. cbn. rewrite length_app. cbn. lia.
    + intros Hc. cbn in Ec. congruence.
    + rewrite Hw, app_nil_r. unfold stream. by apply prefix_app_r.
    + intros _. unfold stream. by rewrite Hw, app_nil_r.
  - unfold class_failed. destruct (tp_resolving t) as [[p|]|]; conserve.
  - unfold ws_open. destruct (tp_sockets t !! i); [|reflexivity]. destruct (decide _); [|reflexivity]. cbv zeta. conserve.
  - unfold ws_close. destruct (tp_sockets t !! i); [|reflexivity]. destruct (decide _); [reflexivity|]. cbv zeta.
    destruct (_ || _); [conserve|]. destruct (decide _); [|destruct (b_isExhausted _)]; conserve.
  - unfold ws_message. destruct (tp_sockets t !! i); [|reflexivity]. destruct (decide _); [|reflexivity].
    destruct (decode f); [conserve|reflexivity| |conserve].
    pose proof (conserve_send pong t Hp) as Hs. destruct (send stringify closes pong t) as [t1 []]; cbn [fst] in Hs; [|exact Hs].
    rewrite <- (app_nil_r (send_accepts pong t)). eapply conserve_app; [exact Hs|conserve].
  - unfold ws_error. destruct (tp_sockets t !! i); [|reflexivity]. destruct (decide _); [reflexivity|]. cbv zeta. conserve.
  - unfold connect_timeout. destruct (tp_sockets t !! i) as [k|]; [|reflexivity]. destruct (sk_timer k); [|reflexivity].
    cbv zeta. destruct (sk_settled k); conserve.
  - unfold reconnect_timer. destruct (tp_timer t); [|reflexivity]. cbv zeta. unfold armReconnectTimer.
    destruct (isTerminal _); [conserve|]. destruct (tp_resolving _); [conserve|]. destruct (op_tokenRefresh _); conserve.
  - unfold token_fresh. destruct (tp_refreshing t); [reflexivity|]. conserve.
  - unfold token_failed. destruct (tp_refreshing t); [reflexivity|]. cbv zeta. destruct (isTerminal _); [conserve|].
    destruct (b_isExhausted _); conserve.
Qed.

Lemma run_conserve l t :
  stringify pong = true → (∀ m, ASend m ∈ l → stringify m = true) → conserve (accepted l t) t (run l t).
Proof.
  intros Hp. revert t. induction l as [|a l IH]; intros t Hl; [reflexivity|]. cbn [accepted].
  unfold ClientTransport.run. rewrite fold_left_cons. eapply conserve_app.
  - apply act_conserve; [done|]. intros m ->. apply Hl. by left.
  - apply IH. intros m Hm. apply Hl. by right.
Qed.

(** * What the application is told *)

(** The attempts announced since the socket last opened. *)
Definition since_open (out : list (event I)) : list Z :=
  fold_left (λ l e, match e with EvOpen => [] | EvReconnecting n => l ++ [n] | _ => l end) out [].
Definition terminated (e : event I) : bool := match e with EvTerminated _ _ => true | _ => false end.
Definition told_terminated (out : list (event I)) : bool := existsb terminated out.

Context (limit : option Z).

Record backoff_ok t : Prop := {
  bo_limit : b_limit (tp_reconnect t) = limit;
  bo_since : since_open (tp_out t) = seqZ 1 (b_attempt (tp_reconnect t));
  bo_nonneg : 0 ≤ b_attempt (tp_reconnect t);
  bo_bound m : limit = Some m → b_attempt (tp_reconnect t) ≤ Z.max 0 m;
}.
Definition term_ok t : Prop := tp_exhausted t = told_terminated (tp_out t).
Definition told t : Prop := backoff_ok t ∧ term_ok t.
Definition tells t t' : Prop := told t → told t'.
#[local] Instance tells_refl : Reflexive tells.
Proof. by intros t Ht. Qed.
#[local] Instance tells_trans : Transitive tells.
Proof. intros t1 t2 t3 H1' H2' Ht. auto. Qed.

Lemma tells_same t t' :
  tp_out t' = tp_out t → tp_reconnect t' = tp_reconnect t → tp_exhausted t' = tp_exhausted t → tells t t'.
Proof. intros E1 E2 E3 [[B1 B2 B3 B4] Ht]. unfold told, term_ok. rewrite E1, E3. split; [constructor; rewrite ?E1, ?E2; done|done]. Qed.

Lemma out_close t :
  tp_out (close t) = tp_out t ∧ tp_reconnect (close t) = tp_reconnect t ∧ tp_exhausted (close t) = tp_exhausted t.
Proof. unfold close. cbv zeta. by destruct (tp_ws _). Qed.
Lemma out_emit e t :
  tp_out (emit e t) = tp_out t ++ [e] ∧ tp_reconnect (emit e t) = tp_reconnect t
  ∧ tp_exhausted (emit e t) = tp_exhausted t.
Proof. unfold ClientTransport.emit. cbv zeta. destruct (closes _); [|done]. apply (out_close (log e t)). Qed.

Lemma since_open_snoc out e :
  since_open (out ++ [e]) = match e with EvOpen => [] | EvReconnecting n => since_open out ++ [n] | _ => since_open out end.
Proof. unfold since_open. by rewrite fold_left_app. Qed.
Lemma told_snoc out e : told_terminated (out ++ [e]) = told_terminated out || terminated e.
Proof. unfold told_terminated. rewrite existsb_app. cbn. by rewrite orb_false_r. Qed.

(** Events that announce neither an attempt, an open socket nor the end. *)
Definition neutral (e : event I) : bool :=
  match e with EvClose _ _ | EvMessage _ | EvError _ => true | _ => false end.
Lemma tells_neutral e t : neutral e = true → tells t (emit e t).
Proof.
  intros He [[B1 B2 B3 B4] Ht]. destruct (out_emit e t) as (E1 & E2 & E3). unfold told, term_ok. rewrite E1, E3. split.
  - constructor; rewrite ?E1, ?E2; [done| |done|done]. rewrite since_open_snoc, <- B2. by destruct e.
  - rewrite told_snoc, <- Ht. destruct e; try done; by rewrite orb_false_r.
Qed.

Lemma tells_terminated c r t :
  tells t (emit (EvTerminated c r) (set_terminal (tp_closed t) true t))
  ∧ tells t (emit (EvTerminated c r) (emit (EvError AttemptsExhausted) (set_terminal (tp_closed t) true t))).
Proof.
  assert (Hone : ∀ t1, backoff_ok t → backoff_ok t1 → tp_exhausted t1 = true → told (emit (EvTerminated c r) t1)).
  { intros t1 _ [B1 B2 B3 B4] Hx. destruct (out_emit (EvTerminated c r) t1) as (E1 & E2 & E3). split.
    - constructor; rewrite ?E1, ?E2; [done| |done|done]. by rewrite since_open_snoc.
    - unfold term_ok. rewrite E1, E3, told_snoc, Hx. cbn. by rewrite orb_true_r. }
  assert (Hset : backoff_ok t → backoff_ok (set_terminal (tp_closed t) true t)) by by intros [].
  split; intros [Hb _]; apply Hone; try done; [by apply Hset| |].
  - destruct (out_emit (EvError AttemptsExhausted) (set_terminal (tp_closed t) true t)) as (E1 & E2 & E3).
    destruct (Hset Hb) as [B1 B2 B3 B4]. constructor; rewrite ?E1, ?E2; [done| |done|done]. by rewrite since_open_snoc.
  - by destruct (out_emit (EvError AttemptsExhausted) (set_terminal (tp_closed t) true t)) as (E1 & E2 & ->).
Qed.

Lemma tells_schedule t : b_isExhausted (tp_reconnect t) = false → tells t (scheduleReconnect closes t).
Proof.
  intros Hx [[B1 B2 B3 B4] Ht]. unfold scheduleReconnect, armReconnectTimer. cbv zeta.
  set (t2 := set_backoff _ _). set (n := b_attempt (tp_reconnect t)) in *.
  assert (Hn : b_attempt (tp_reconnect t2) = n + 1) by apply b_attempt_next. rewrite Hn.
  destruct (out_emit (EvReconnecting (n + 1)) t2) as (E1 & E2 & E3).
  apply (tells_same (emit (EvReconnecting (n + 1)) t2)); [done..|]. unfold told, term_ok. rewrite E1, E3. split.
  - constructor; rewrite ?E1, ?E2, ?Hn.
    + etransitivity; [apply b_limit_next|done].
    + rewrite since_open_snoc. change (tp_out t2) with (tp_out t). rewrite B2. fold n.
      rewrite seqZ_app by lia. rewrite (seqZ_cons (1 + n)) by lia. change (Z.pred 1) with 0. by rewrite (Z.add_comm n).
    + lia.
    + intros m Hm. rewrite b_exhausted_spec, B1, Hm in Hx. apply bool_decide_eq_false in Hx. unfold n in *. lia.
  - rewrite told_snoc. cbn. by rewrite orb_false_r.
Qed.

Lemma tells_on_socket i f t : tells t (on_socket i f t).
Proof. by apply tells_same. Qed.
Lemma tells_timer x t : tells t (set_timer x t).
Proof. by apply tells_same. Qed.
Lemma tells_queue x t : tells t (set_queue x t).
Proof. by apply tells_same. Qed.
Lemma tells_pending x y t : tells t (set_pending x y t).
Proof. by apply tells_same. Qed.
Lemma tells_promises x t : tells t (set_promises x t).
Proof. by apply tells_same. Qed.
Lemma tells_url x t : tells t (set_url x t).
Proof. by apply tells_same. Qed.
Lemma tells_close t : tells t (close t).
Proof. apply tells_same; apply out_close. Qed.
Lemma tells_flush t : tells t (flush stringify t).
Proof. unfold flush. destruct (open_socket t); [|done]. destruct (q_drain _ _). by apply tells_same. Qed.
Lemma tells_settle p r t : tells t (settle p r t).
Proof. by destruct p; [apply tells_same|]. Qed.
Lemma tells_settle_socket i r t : tells t (settle_socket i r t).
Proof.
  unfold settle_socket. destruct (tp_sockets t !! i) as [k|]; [|done]. destruct (sk_settled k); [done|].
  etransitivity; [apply tells_on_socket|apply tells_settle].
Qed.
Lemma tells_initSocket p t : tells t (initSocket p t).
Proof. unfold initSocket. destruct (tp_resolving t); [apply tells_settle|apply tells_pending]. Qed.
Lemma tells_error e t : tells t (emit (EvError e) t).
Proof. by apply tells_neutral. Qed.
Lemma tells_message m t : tells t (emit (EvMessage m) t).
Proof. by apply tells_neutral. Qed.
Lemma tells_closed c r t : tells t (emit (EvClose c r) t).
Proof. by apply tells_neutral. Qed.
#[local] Hint Resolve tells_on_socket tells_timer tells_queue tells_pending tells_promises tells_url tells_close tells_flush
  tells_settle tells_settle_socket tells_initSocket tells_error tells_message tells_closed : told.
Ltac tells := repeat first [reflexivity | etransitivity; [|solve [auto with told nocore]]].

Lemma tells_send m t : tells t (send stringify closes m t).1.
Proof.
  unfold send. destruct (isTerminal t); [reflexivity|]. destruct (open_socket t) as [i|].
  - destruct (stringify m); cbn [fst]; destruct (decide _); tells.
  - destruct (q_enqueue m _) as [q []]; cbn [fst]; tells.
Qed.

Lemma tells_open i t : tells t (ws_open stringify closes i t).
Proof.
  unfold ws_open. destruct (tp_sockets t !! i); [|reflexivity]. destruct (decide _); [|reflexivity]. cbv zeta.
  etransitivity; [|apply tells_settle_socket]. etransitivity; [|apply tells_flush].
  intros [[B1 B2 B3 B4] Ht]. set (t2 := set_backoff _ _). destruct (out_emit EvOpen t2) as (E1 & E2 & E3).
  assert (Hz : b_attempt (tp_reconnect t2) = 0) by apply b_attempt_reset.
  unfold told, term_ok. rewrite E1, E3. split.
  - constructor; rewrite ?E1, ?E2, ?Hz; [|by rewrite since_open_snoc|done|lia].
    etransitivity; [apply b_limit_reset|done].
  - rewrite told_snoc. cbn. by rewrite orb_false_r.
Qed.

Lemma act_tells a t : (∀ i, a ≠ AConnectTimeout i) → tells t (act a t).
Proof.
  intros Ha. destruct a as [|m| | | | |i|i code reason|i f|i|i| |token|]; cbn [ClientTransport.act].
  - unfold connect. tells.
  - apply tells_send.
  - tells.
  - tells.
  - unfold class_ready. destruct (tp_resolving t); [|reflexivity]. cbv zeta. destruct (tp_closed _); by apply tells_same.
  - unfold class_failed. destruct (tp_resolving t) as [[p|]|]; tells.
  - apply tells_open.
  - unfold ws_close. destruct (tp_sockets t !! i); [|reflexivity]. destruct (decide _); [reflexivity|]. cbv zeta.
    set (t2 := emit (EvClose code reason) _). assert (Ht2 : tells t t2) by (unfold t2; tells). clearbody t2.
    destruct (_ || _); [done|]. etransitivity; [exact Ht2|]. destruct (decide _).
    + etransitivity; [refine (proj1 (tells_terminated code reason _))|apply tells_settle_socket].
    + destruct (b_isExhausted _) eqn:Ex; [|by apply tells_schedule].
      etransitivity; [refine (proj2 (tells_terminated code reason _))|apply tells_settle_socket].
  - unfold ws_message. destruct (tp_sockets t !! i); [|reflexivity]. destruct (decide _); [|reflexivity].
    destruct (decode f); [tells|reflexivity| |tells].
    pose proof (tells_send pong t) as Hs. destruct (send stringify closes pong t) as [t1 []]; cbn [fst] in Hs; [|exact Hs].
    etransitivity; [exact Hs|tells].
  - unfold ws_error. destruct (tp_sockets t !! i); [|reflexivity]. destruct (decide _); [reflexivity|]. cbv zeta. tells.
  - by destruct (Ha i).
  - unfold reconnect_timer. destruct (tp_timer t); [|reflexivity]. cbv zeta. unfold armReconnectTimer.
    destruct (isTerminal _); [tells|]. destruct (tp_resolving _); [tells|]. destruct (op_tokenRefresh _); tells.
  - unfold token_fresh. destruct (tp_refreshing t); [reflexivity|]. tells.
  - unfold token_failed. destruct (tp_refreshing t); [reflexivity|]. cbv zeta. destruct (isTerminal _); [tells|].
    destruct (b_isExhausted _) eqn:Ex.
    + etransitivity; [apply tells_pending|]. refine (proj2 (tells_terminated 1006 refresh_reason _)).
    + etransitivity; [apply tells_pending|]. by apply tells_schedule.
Qed.
Lemma run_tells l t : (∀ i, AConnectTimeout i ∉ l) → tells t (run l t).
Proof.
  revert t. induction l as [|a l IH]; intros t Hl; [reflexivity|]. unfold ClientTransport.run. rewrite fold_left_cons.
  etransitivity; [apply (act_tells a)|apply IH].
  - intros i ->. apply (Hl i). by left.
  - intros i Hi. apply (Hl i). by right.
Qed.

End transport.

(** * The contract of the transport *)

Section contract.
Context {U Token M I Qu B : Type} `{MessageQueueLaws Qu M} `{BackoffLaws B}.
Context (set_token : Token → U → U) (pong : M) (stringify : M → bool) (decode : frame → decoded I).
Context (closes : list (event I) → bool).
Abbreviation transport := (WebSocketTransport U M I Qu B).
Abbreviation run := (run set_token pong stringify decode closes).
Abbreviation act := (act set_token pong stringify decode closes).
Abbreviation accepted := (accepted set_token pong stringify decode closes).

Definition fresh (opts : Options) (url : U) (q : Qu) (b : B) : transport := newTransport opts url q b.


(** C24: Messages leave in the order they were accepted, across any number of sockets: what
    is on the wire is a beginning of what was accepted, and until the transport is
    closed the rest is in the queue. *)
Theorem transport_fifo opts url q b l :
  q_items q = [] → stringify pong = true → (∀ m, ASend m ∈ l → stringify m = true) →
  let t0 := fresh opts url q b in
  let t := run l t0 in
  wire t `prefix_of` accepted l t0 ∧ (tp_closed t = false → accepted l t0 = wire t ++ q_items (tp_queue t)).
Proof.
  intros Hq Hp Hl t0 t. assert (Ht0 : fifo_inv stringify t0) by (constructor; cbn; rewrite ?Hq; done).
  destruct (run_conserve set_token pong stringify decode closes l t0 Hp Hl Ht0) as [_ _ Hw Hs]. unfold stream in Hw, Hs at 2. cbn in Hw, Hs. rewrite Hq in Hw, Hs.
  split; [exact Hw|]. intros Hc. symmetry. by apply Hs.
Qed.

(** The application is told: as long as no connect timer fires, the transport has
    given up exactly if it said so, the attempts it announced since the socket last
    opened are numbered from one, and there are no more of them than the limit. *)
Theorem transport_told opts url q b l :
  b_attempt b = 0 → (∀ i, AConnectTimeout i ∉ l) →
  let t := run l (fresh opts url q b) in
  (tp_exhausted t = true ↔ ∃ code reason, EvTerminated code reason ∈ tp_out t)
  ∧ since_open (tp_out t) = seqZ 1 (Z.of_nat (length (since_open (tp_out t))))
  ∧ ∀ m, b_limit b = Some m → Z.of_nat (length (since_open (tp_out t))) ≤ Z.max 0 m.
Proof.
  intros Hb Hl t. destruct (run_tells set_token pong stringify decode closes (b_limit b) l (fresh opts url q b) Hl) as [[B1 B2 B3 B4] Ht].
  { split; [|done]. constructor; cbn; rewrite ?Hb; [done|done|lia|lia]. }
  fold t in B1, B2, B3, B4, Ht. unfold term_ok in Ht.
  assert (Hlen : Z.of_nat (length (since_open (tp_out t))) = b_attempt (tp_reconnect t)).
  { rewrite B2, length_seqZ. lia. }
  rewrite Hlen. split; [|by split]. rewrite Ht. unfold told_terminated. rewrite existsb_exists. split.
  - intros (e & Hin & He). destruct e; try done. exists code, reason. by apply list_elem_of_In.
  - intros (code & reason & Hin). exists (EvTerminated code reason). split; [by apply list_elem_of_In|done].
Qed.
End contract.

(** * On concrete runs *)

(** Messages are numbers, of which 13 cannot be serialised; no listener closes. *)
#[local] Instance example_backoff : BackoffStrategy ReconnectStrategy := reconnect_strategy (λ _, 0%Q).
#[local] Instance example_backoff_laws : BackoffLaws ReconnectStrategy := reconnect_laws (λ _, 0%Q).
Abbreviation example_act := (@action jsstr nat).
Definition example_token (token _ : jsstr) : jsstr := token.
Definition example_stringify (m : nat) : bool := negb (Nat.eqb m 13).
Definition example_decode (f : frame) : decoded nat := match f with NotJson => NotJSON | Json _ => IsPing end.
Definition example_listener (_ : list (event nat)) : bool := false.
Definition example_run (limit : option Z) (l : list example_act) : WebSocketTransport jsstr nat nat (SendQueue nat) ReconnectStrategy :=
  run example_token 0%nat example_stringify example_decode example_listener
    l (fresh (mkOptions true true false [1008]) (js "url") (newSendQueue 2) (newReconnectStrategy 32000 limit)).

(** A connection that drops, and messages before, between and after. *)
Definition example_actions : list example_act :=
  [ASend 1%nat; AClassReady; ASend 2%nat; ASend 3%nat; AOpen 0; ASend 4%nat; AWsClose 0 1006 []; ASend 5%nat;
   AReconnectTimer; AClassReady; AOpen 1; AMessage 1 (Json JNull)].

Example example_wire :
  let t := example_run None (AConnect :: example_actions) in
  (wire t, since_open (tp_out t), tp_ws t, busy t) = ([1; 2; 4; 5; 0]%nat, [], Some 1%nat, 1%nat).
Proof. vm_compute. reflexivity. Qed.

Lemma example_no_connect : Forall (λ a : example_act, a ≠ AConnect) example_actions.
Proof. unfold example_actions. repeat (apply Forall_cons_2; [intros [=]|]). apply Forall_nil. done. Qed.
Lemma example_elem (P : example_act → Prop) l a : Forall P l → a ∈ l → P a.
Proof. rewrite Forall_forall. auto. Qed.


Lemma transport_fifo_witness :
  let t0 := example_run None [] in
  let t := example_run None (AConnect :: example_actions) in
  wire t = [1; 2; 4; 5; 0]%nat ∧ q_items (tp_queue t) = [].
Proof.
  destruct (transport_fifo example_token 0%nat example_stringify example_decode example_listener (mkOptions true true false [1008]) (js "url")
    (newSendQueue 2) (newReconnectStrategy 32000 None) (AConnect :: example_actions)) as [_ Hs]; [done|done| |].
  - intros m Hin. apply (example_elem (λ a, match a with ASend m => negb (Nat.eqb m 13) = true | _ => True end) _ _) in Hin;
      [exact Hin|]. repeat (apply Forall_cons_2; [done|]). apply Forall_nil. done.
  - specialize (Hs ltac:(vm_compute; reflexivity)). split; vm_compute; reflexivity.
Defined.

Lemma transport_told_witness :
  let t := example_run (Some 2) [AConnect; AClassReady; AWsClose 0 1006 []; AReconnectTimer; AClassReady; AWsClose 1 1006 [];
    AReconnectTimer; AClassReady; AWsClose 2 1006 []] in
  tp_exhausted t = true ∧ EvTerminated 1006 [] ∈ tp_out t ∧ since_open (tp_out t) = [1; 2].
Proof.
  set (l := [AConnect; AClassReady; AWsClose 0 1006 []; AReconnectTimer; AClassReady; AWsClose 1 1006 [];
    AReconnectTimer; AClassReady; AWsClose 2 1006 []] : list example_act).
  destruct (transport_told example_token 0%nat example_stringify example_decode example_listener (mkOptions true true false [1008]) (js "url")
    (newSendQueue 2) (newReconnectStrategy 32000 (Some 2)) l) as ([_ Hx] & _); [done| |].
  - intros i Hin. unfold l in Hin. repeat (apply elem_of_cons in Hin as [Hin|Hin]; [discriminate|]). by apply not_elem_of_nil in Hin.
  - split; [apply Hx; exists 1006, []; vm_compute; repeat (left || right)|].
    split; [vm_compute; repeat (left || right)|vm_compute; reflexivity].
Defined.

(** A reconnect attempt that does not open in time ends the transport: no further
    attempt is made, and neither an error nor the end is announced. *)
Example reconnect_timeout_silent :
  let t := example_run None [AConnect; AClassReady; AOpen 0; AWsClose 0 1006 []; AReconnectTimer; AClassReady;
    AConnectTimeout 1; AWsClose 1 1006 []; AReconnectTimer] in
  tp_exhausted t = true ∧ busy t = 0%nat
  ∧ tp_out t = [EvOpen; EvClose 1006 []; EvReconnecting 1; EvClose 1006 []].
Proof. vm_compute. done. Qed.

(** A message that cannot be serialised, queued while offline, holds up what was queued
    behind it for good, and later messages overtake it. *)
Example poisoned_queue :
  let t := example_run None [AConnect; ASend 13%nat; ASend 1%nat; AClassReady; AOpen 0; AFlush; ASend 2%nat; AFlush] in
  (wire t, q_items (tp_queue t)) = ([2]%nat, [13; 1]%nat).
Proof. vm_compute. reflexivity. Qed.
