(* ===== verification/ClientProtocol.v ===== *)
(** The signaling messages as the client reads and writes them
    (packages/sdk/src/protocol.ts), against those of the server (Peer.v): what one
    side serialises the schema of the other accepts, with the same content. *)

From S2P Require Import Prelude JsMap JsNumber Json Schema Peer.

(** * Messages from the server *)

Record RoomJoinedMessage := mkJoined {
  rj_v : option Z;
  rj_roomId : jsstr;
  rj_peerId : jsstr;
  rj_peers : list jsstr;
  rj_peerRoles : option (jmap jsstr jsstr);
  rj_peerMetadata : option (jmap jsstr (jmap jsstr jsstr));
  rj_localRole : option jsstr;
  rj_iceServers : option (list IceServer);
}.

Inductive ServerMessage :=
| RoomJoined (m : RoomJoinedMessage)
| PeerJoined (peerId : jsstr) (role : option jsstr) (metadata : option (jmap jsstr jsstr))
| PeerLeft (peerId : jsstr)
| PresenceOnline (peerId : jsstr)
| PresenceOffline (peerId : jsstr)
| Kicked (peerId : jsstr) (reason : option jsstr)
| Signal (from : jsstr) (data : payload)
| Broadcast (from channel : jsstr) (data : payload) (ts : num)
| Error (code message : jsstr)
| Ping
| RoleChanged (peerId role : jsstr).

(** [MessageType]. *)
Definition tRoomJoined := js "room-joined".
Definition tPeerJoined := js "peer-joined".
Definition tPeerLeft := js "peer-left".
Definition tPresenceOnline := js "presence-online".
Definition tPresenceOffline := js "presence-offline".
Definition tSignal := js "signal".
Definition tBroadcast := js "broadcast".
Definition tError := js "error".
Definition tPing := js "ping".
Definition tPong := js "pong".
Definition tKicked := js "kicked".
Definition tRoleChanged := js "role-changed".

(** Names of the fields. *)
Definition kChannel := js "channel".
Definition kCode := js "code".
Definition kCredential := js "credential".
Definition kData := js "data".
Definition kFrom := js "from".
Definition kIceServers := js "iceServers".
Definition kLocalRole := js "localRole".
Definition kMessage := js "message".
Definition kMetadata := js "metadata".
Definition kPeerId := js "peerId".
Definition kPeerMetadata := js "peerMetadata".
Definition kPeerRoles := js "peerRoles".
Definition kPeers := js "peers".
Definition kReason := js "reason".
Definition kRole := js "role".
Definition kRoomId := js "roomId".
Definition kTo := js "to".
Definition kTs := js "ts".
Definition kType := js "type".
Definition kUrls := js "urls".
Definition kUsername := js "username".
Definition kV := js "v".

(** * The schema of the client *)

(** [z.number()] is finite; [z.array] and [z.record] check every entry. *)
Definition z_number (v : json) : option num :=
  match v with JNum x => if isFinite x then Some x else None | _ => None end.
Definition z_array {A} (p : json → option A) (v : json) : option (list A) :=
  match v with JArr l => mapM p l | _ => None end.
Definition z_record {A} (p : json → option A) (v : json) : option (jmap jsstr A) :=
  match v with JObj f => mapM (λ e : jsstr * json, pair e.1 <$> p e.2) f | _ => None end.

Definition z_urls (v : json) : option (jsstr + list jsstr) :=
  match z_string v with Some s => Some (inl s) | None => inr <$> z_array z_string v end.
Definition z_iceServer (v : json) : option IceServer :=
  match v with
  | JObj f =>
      urls ← field f kUrls z_urls;
      username ← field_opt f kUsername z_string;
      credential ← field_opt f kCredential z_string;
      Some (mkIce urls username credential)
  | _ => None
  end.

Definition parse_joined (f : jmap jsstr json) : option ServerMessage :=
  v ← field_opt f kV z_int;
  roomId ← field f kRoomId z_string;
  peerId ← field f kPeerId z_string;
  peers ← field f kPeers (z_array z_string);
  roles ← field_opt f kPeerRoles (z_record z_string);
  metadata ← field_opt f kPeerMetadata (z_record (z_record z_string));
  localRole ← field_opt f kLocalRole z_string;
  ice ← field_opt f kIceServers (z_array z_iceServer);
  Some (RoomJoined (mkJoined v roomId peerId peers roles metadata localRole ice)).

Definition parse_peer_joined (f : jmap jsstr json) : option ServerMessage :=
  peerId ← field f kPeerId z_string;
  role ← field_opt f kRole z_string;
  metadata ← field_opt f kMetadata (z_record z_string);
  Some (PeerJoined peerId role metadata).

Definition parse_broadcast (f : jmap jsstr json) : option ServerMessage :=
  from ← field f kFrom z_string;
  channel ← field f kChannel z_string;
  ts ← field f kTs z_number;
  Some (Broadcast from channel (mget kData f) ts).

(** [ServerMessageSchema.safeParse]. *)
Definition parseServer (v : json) : option ServerMessage :=
  match v with
  | JObj f =>
      t ← field f kType z_string;
      if decide (t = tRoomJoined) then parse_joined f
      else if decide (t = tPeerJoined) then parse_peer_joined f
      else if decide (t = tPeerLeft) then PeerLeft <$> field f kPeerId z_string
      else if decide (t = tPresenceOnline) then PresenceOnline <$> field f kPeerId z_string
      else if decide (t = tPresenceOffline) then PresenceOffline <$> field f kPeerId z_string
      else if decide (t = tKicked) then
        id ← field f kPeerId z_string; Kicked id <$> field_opt f kReason z_string
      else if decide (t = tSignal) then (λ from, Signal from (mget kData f)) <$> field f kFrom z_string
      else if decide (t = tBroadcast) then parse_broadcast f
      else if decide (t = tError) then
        code ← field f kCode z_string; Error code <$> field f kMessage z_string
      else if decide (t = tPing) then Some Ping
      else if decide (t = tRoleChanged) then
        id ← field f kPeerId z_string; RoleChanged id <$> field f kRole z_string
      else None
  | _ => None
  end.

(** * What the two sides write *)

Definition jrecord {A} (w : A → json) (m : jmap jsstr A) : json := JObj ((λ e, (e.1, w e.2)) <$> m).
Definition jarray {A} (w : A → json) (l : list A) : json := JArr (w <$> l).

Definition ice_json (i : IceServer) : json :=
  JObj ((kUrls, match ice_urls i with inl s => JStr s | inr l => jarray JStr l end)
    :: jopt (jstr kUsername) (ice_username i) ++ jopt (jstr kCredential) (ice_credential i)).

(** [JSON.stringify] of the server's messages, the fields in the order of its object
    literals. *)
Definition server_json (m : Peer.ServerMessage) : json :=
  let head t := (kType, JStr t) in
  JObj match m with
  | SRoomJoined v roomId peerId peers roles metadata localRole ice =>
      [head tRoomJoined; jnum kV v; jstr kRoomId roomId; jstr kPeerId peerId; (kPeers, jarray JStr peers);
       (kPeerRoles, jrecord JStr roles); (kPeerMetadata, jrecord (jrecord JStr) metadata)]
      ++ jopt (jstr kLocalRole) localRole ++ jopt (λ l, (kIceServers, jarray ice_json l)) ice
  | SPeerJoined id role metadata =>
      [head tPeerJoined; jstr kPeerId id; jstr kRole role; (kMetadata, jrecord JStr metadata)]
  | SPeerLeft id => [head tPeerLeft; jstr kPeerId id]
  | SPresenceOnline id => [head tPresenceOnline; jstr kPeerId id]
  | SPresenceOffline id => [head tPresenceOffline; jstr kPeerId id]
  | SKicked id reason => [head tKicked; jstr kPeerId id] ++ jopt (jstr kReason) reason
  | SSignal from data => [head tSignal; jstr kFrom from] ++ jopt (pair kData) data
  | SBroadcast from channel data ts =>
      [head tBroadcast; jstr kFrom from; jstr kChannel channel; (kData, data); jnum kTs ts]
  | SError code message => [head tError; jstr kCode code; jstr kMessage message]
  | SPing => [head tPing]
  | SRoleChanged id role => [head tRoleChanged; jstr kPeerId id; jstr kRole role]
  end.

(** [JSON.stringify] of the client's messages. *)
Definition client_json (m : ClientMessage) : json :=
  JObj match m with
  | CSignal to data => [(kType, JStr tSignal); jstr kTo to] ++ jopt (pair kData) data
  | CPong => [(kType, JStr tPong)]
  | CBroadcast channel data => [(kType, JStr tBroadcast); jstr kChannel channel] ++ jopt (pair kData) data
  end.

(** What a client is to understand of a message of the server. *)
Definition received (m : Peer.ServerMessage) : ServerMessage :=
  match m with
  | SRoomJoined v roomId peerId peers roles metadata localRole ice =>
      RoomJoined (mkJoined (Some v) roomId peerId peers (Some roles) (Some metadata) localRole ice)
  | SPeerJoined id role metadata => PeerJoined id (Some role) (Some metadata)
  | SPeerLeft id => PeerLeft id
  | SPresenceOnline id => PresenceOnline id
  | SPresenceOffline id => PresenceOffline id
  | SKicked id reason => Kicked id reason
  | SSignal from data => Signal from data
  | SBroadcast from channel data ts => Broadcast from channel (Some data) (num_of_Z ts)
  | SError code message => Error code message
  | SPing => Ping
  | SRoleChanged id role => RoleChanged id role
  end.

(** The numbers a message carries: the server's version and clock are safe integers,
    what the client accepts has a safe version and a finite time. *)
Definition server_ok (m : Peer.ServerMessage) : Prop :=
  match m with SRoomJoined v _ _ _ _ _ _ _ => safe v | SBroadcast _ _ _ ts => safe ts | _ => True end.
Definition client_ok (m : ServerMessage) : Prop :=
  match m with
  | RoomJoined j => ∀ v, rj_v j = Some v → safe v
  | Broadcast _ _ _ ts => isFinite ts = true
  | _ => True
  end.

(** * Reading what was written *)

Lemma mapM_written {A B} (p : B → option A) (w : A → B) l : (∀ x, p (w x) = Some x) → mapM p (w <$> l) = Some l.
Proof. intros Hp. induction l as [|x l IH]; [done|]. cbn [fmap list_fmap mapM]. by rewrite Hp, IH. Qed.

Lemma z_array_written {A} (p : json → option A) (w : A → json) l :
  (∀ x, p (w x) = Some x) → z_array p (jarray w l) = Some l.
Proof. apply mapM_written. Qed.

Lemma z_record_written {A} (p : json → option A) (w : A → json) (m : jmap jsstr A) :
  (∀ x, p (w x) = Some x) → z_record p (jrecord w m) = Some m.
Proof. intros Hp. apply (mapM_written (λ e, pair e.1 <$> p e.2)). intros [k x]. cbn. by rewrite Hp. Qed.

Lemma z_urls_written u : z_urls match u with inl s => JStr s | inr l => jarray JStr l end = Some u.
Proof.
  destruct u as [s|l]; [done|]. unfold z_urls. cbn [z_string jarray].
  change (JArr (JStr <$> l)) with (jarray JStr l). by rewrite z_array_written.
Qed.

Lemma z_number_of_Z n : safe n → z_number (JNum (num_of_Z n)) = Some (num_of_Z n).
Proof.
  intros Hn%num_int_of_Z. unfold z_number. by destruct (num_of_Z n).
Qed.

Lemma z_iceServer_written i : z_iceServer (ice_json i) = Some i.
Proof.
  destruct i as [u [n|] [c|]]; cbn [ice_json jopt z_iceServer app]; unfold jstr; read_field; rewrite z_urls_written; by repeat read_field.
Qed.

#[local] Hint Resolve z_array_written z_record_written z_iceServer_written z_number_of_Z : core.

(** Reads the fields of a message. *)
Ltac read_message :=
  repeat first
    [ read_field | rewrite z_array_written by auto | rewrite z_record_written by auto
    | rewrite z_number_of_Z by done ].

Lemma server_json_read m : server_ok m → parseServer (server_json m) = Some (received m).
Proof.
  destruct m as [v rid pid peers roles meta lr ice|id role meta|id|id|id|id [r|]|from [d|]|from ch d ts|c msg| |id role];
    cbn [server_ok]; intros Hok; cbn [server_json received parseServer jopt app]; unfold jstr, jnum, parse_joined,
    parse_peer_joined, parse_broadcast; [|by read_message..].
  destruct lr, ice; cbn [jopt app]; by read_message.
Qed.

Lemma parse_joined_ok f m : parse_joined f = Some m → client_ok m.
Proof.
  unfold parse_joined. destruct (field_opt f kV z_int) as [v|] eqn:Ev; [|done]. cbn [mbind option_bind].
  repeat (case_match; [|done]; cbn [mbind option_bind] in * ).
  intros Hm. repeat (apply bind_Some in Hm as (? & _ & Hm)). simplify_eq. cbn. intros v' ->.
  apply field_opt_Some in Ev as (? & Ev). by eapply z_int_inv.
Qed.

Lemma parse_broadcast_ok f m : parse_broadcast f = Some m → client_ok m.
Proof.
  unfold parse_broadcast. intros Hm. apply bind_Some in Hm as (from & _ & Hm).
  apply bind_Some in Hm as (channel & _ & Hm). apply bind_Some in Hm as (ts & Hts & [= <-]).
  apply field_Some in Hts as (x & _ & Hx). unfold z_number in Hx. cbn.
  destruct x; try done. destruct (isFinite x) eqn:E; [|done]. by simplify_eq.
Qed.

Lemma parseServer_ok v m : parseServer v = Some m → client_ok m.
Proof.
  destruct v as [| | | | |f]; try done. cbn [parseServer]. destruct (field f kType _) as [t|]; [|done].
  cbn [mbind option_bind]. case_decide; [apply parse_joined_ok|].
  case_decide; [unfold parse_peer_joined; intros Hm; repeat (apply bind_Some in Hm as (? & _ & Hm)); by simplify_eq|].
  repeat (case_decide; [try apply parse_broadcast_ok|]);
    intros Hm; repeat (apply bind_Some in Hm as (? & _ & Hm)); try (apply fmap_Some in Hm as (? & _ & ->)); by simplify_eq.
Qed.

Lemma client_json_read m :
  safeParse (client_json m) = match m with CBroadcast [] _ => None | _ => Some m end.
Proof. destruct m as [to [d|]| |[|c ch] [d|]]; vm_compute; reflexivity. Qed.

(** C22: The two sides agree on the wire: what the server writes the client reads as the
    same message, what the client writes the server reads as the same message, but for
    a broadcast on an empty channel, and whatever the client accepts from anybody has
    numbers in range. *)
Theorem wire_agree (m : Peer.ServerMessage) (c : ClientMessage) (v : json) (m' : ServerMessage) :
  (server_ok m → parseServer (server_json m) = Some (received m))
  ∧ safeParse (client_json c) = match c with CBroadcast [] _ => None | _ => Some c end
  ∧ (parseServer v = Some m' → client_ok m').
Proof. split; [apply server_json_read|]. split; [apply client_json_read|apply parseServer_ok]. Qed.

Lemma wire_agree_witness :
  parseServer (server_json (SRoomJoined 1 (js "r") (js "a") [js "b"] [(js "b", js "host")] [] None
    (Some [mkIce (inl (js "stun:s")) None None])))
  = Some (received (SRoomJoined 1 (js "r") (js "a") [js "b"] [(js "b", js "host")] [] None
      (Some [mkIce (inl (js "stun:s")) None None])))
  ∧ client_ok Ping.
Proof.
  destruct (wire_agree (SRoomJoined 1 (js "r") (js "a") [js "b"] [(js "b", js "host")] [] None
    (Some [mkIce (inl (js "stun:s")) None None])) CPong (server_json SPing) Ping) as (Hs & _ & Hc).
  split; [apply Hs; by vm_compute|apply Hc; by vm_compute].
Defined.
