(* ===== verification/ClientRoom.v ===== *)
(** The client's view of a room (packages/sdk/src/Room.ts): the roster it keeps from
    the server's messages, what it emits, what it sends, and the call bound to it.

    The owner's control handle ([RoomControl]) is the operations [handleMessage],
    [refresh] and [close].  Calls are objects outside the room: a call is a reference,
    and what the room does to it is part of the room's output. *)

From S2P Require Import Prelude JsMap JsNumber Json Peer ClientProtocol.

(** [PeerInfo]. *)
Record PeerInfo := mkInfo { pi_id : jsstr }.

Inductive room_event :=
| EvPeerJoined (peerId : jsstr)
| EvPeerLeft (peerId : jsstr)
| EvPresenceOnline (peerId : jsstr)
| EvPresenceOffline (peerId : jsstr)
| EvKicked (peerId : jsstr) (reason : option jsstr)
| EvSignal (from : jsstr) (data : payload)
| EvBroadcast (from channel : jsstr) (data : json)
| EvRoleChanged (peerId role : jsstr)
| EvClosed
| EvRefreshed
| EvTrackAdded (track stream : nat) (peerId : jsstr)
| EvMediaError.

(** What a room does: events it emits, and calls of the methods of a bound call
    ([on('remote-stream')], [start], [off], [close]). *)
Inductive room_out :=
| Emit (e : room_event)
| CallOn (call : nat)
| CallStart (call : nat)
| CallOff (call : nat)
| CallClose (call : nat).

(** [cr_call] is the bound call; its handler is bound with it. *)
Record Room := mkRoom {
  cr_id : jsstr;
  cr_localPeerId : jsstr;
  cr_peers : jmap jsstr PeerInfo;
  cr_peerRoles : jmap jsstr jsstr;
  cr_peerMeta : jmap jsstr (jmap jsstr jsstr);
  cr_call : option nat;
  cr_closed : bool;
  cr_localPeerRole : option jsstr;
  cr_iceServers : list IceServer;
  cr_out : list room_out;
}.
Implicit Types (r : Room).

(** [RoomInit] without the transport, and [RoomRefresh], which has no id: both come
    from a room-joined message. *)
Abbreviation RoomInit := RoomJoinedMessage.

Definition set_roster (peers : jmap jsstr PeerInfo) (roles : jmap jsstr jsstr) (meta : jmap jsstr (jmap jsstr jsstr)) r : Room :=
  mkRoom (cr_id r) (cr_localPeerId r) peers roles meta (cr_call r) (cr_closed r) (cr_localPeerRole r) (cr_iceServers r) (cr_out r).
Definition set_local (role : option jsstr) (ice : list IceServer) r : Room :=
  mkRoom (cr_id r) (cr_localPeerId r) (cr_peers r) (cr_peerRoles r) (cr_peerMeta r) (cr_call r) (cr_closed r) role ice (cr_out r).
Definition set_call (call : option nat) r : Room :=
  mkRoom (cr_id r) (cr_localPeerId r) (cr_peers r) (cr_peerRoles r) (cr_peerMeta r) call (cr_closed r) (cr_localPeerRole r) (cr_iceServers r) (cr_out r).
Definition set_closed r : Room :=
  mkRoom (cr_id r) (cr_localPeerId r) (cr_peers r) (cr_peerRoles r) (cr_peerMeta r) (cr_call r) true (cr_localPeerRole r) (cr_iceServers r) (cr_out r).
Definition put (o : list room_out) r : Room :=
  mkRoom (cr_id r) (cr_localPeerId r) (cr_peers r) (cr_peerRoles r) (cr_peerMeta r) (cr_call r) (cr_closed r) (cr_localPeerRole r) (cr_iceServers r) (cr_out r ++ o).
Definition emit (e : room_event) r : Room := put [Emit e] r.

(** * The roster *)

Definition peers r : list jsstr := mkeys (cr_peers r).
Definition hasPeer (peerId : jsstr) r : bool := mhas peerId (cr_peers r).
Definition getPeerRole (peerId : jsstr) r : option jsstr := mget peerId (cr_peerRoles r).
Definition getPeerMetadata (peerId : jsstr) r : option (jmap jsstr jsstr) := mget peerId (cr_peerMeta r).
Definition getPeerInfo (peerId : jsstr) r : option PeerInfo := mget peerId (cr_peers r).
Definition getPeerInfoAll r : list PeerInfo := mvals (cr_peers r).

Definition set_peer (m : jmap jsstr PeerInfo) (id : jsstr) : jmap jsstr PeerInfo := mset id (mkInfo id) m.
Definition _seedPeers (localPeerId : jsstr) (ids : list jsstr) r : Room :=
  set_roster (fold_left set_peer ids (set_peer (cr_peers r) localPeerId)) (cr_peerRoles r) (cr_peerMeta r) r.

(** [for (const [id, v] of Object.entries(o)) map.set(id, v)]. *)
Definition set_entries {V} (entries m : jmap jsstr V) : jmap jsstr V :=
  fold_left (λ m e, mset e.1 e.2 m) entries m.
Definition _initRoles (roles : jmap jsstr jsstr) r : Room :=
  set_roster (cr_peers r) (set_entries roles (cr_peerRoles r)) (cr_peerMeta r) r.
Definition _initMeta (meta : jmap jsstr (jmap jsstr jsstr)) r : Room :=
  set_roster (cr_peers r) (cr_peerRoles r) (set_entries meta (cr_peerMeta r)) r.

Definition when {A} (o : option A) (f : A → Room → Room) r : Room :=
  match o with Some a => f a r | None => r end.

(** The constructor. *)
Definition newRoom (init : RoomInit) : Room :=
  let r := mkRoom (rj_roomId init) (rj_peerId init) [] [] [] None false (rj_localRole init)
             (default [] (rj_iceServers init)) [] in
  when (rj_peerMetadata init) _initMeta
    (when (rj_peerRoles init) _initRoles (_seedPeers (rj_peerId init) (rj_peers init) r)).

Definition _refresh (params : RoomInit) r : Room :=
  let r1 := _seedPeers (rj_peerId params) (rj_peers params) (set_roster [] [] [] r) in
  let r2 := when (rj_peerRoles params) _initRoles r1 in
  let r3 := when (rj_localRole params) (λ role r, set_local (Some role) (cr_iceServers r) r) r2 in
  let r4 := when (rj_iceServers params) (λ ice r, set_local (cr_localPeerRole r) ice r) r3 in
  emit EvRefreshed (when (rj_peerMetadata params) _initMeta r4).

(** A role that is absent or empty is not set. *)
Definition _handleMessage (msg : ServerMessage) r : Room :=
  match msg with
  | PeerJoined id role metadata =>
      let roles := match role with Some ((_ :: _) as x) => mset id x (cr_peerRoles r) | _ => cr_peerRoles r end in
      let meta := match metadata with Some x => mset id x (cr_peerMeta r) | None => cr_peerMeta r end in
      emit (EvPeerJoined id) (set_roster (set_peer (cr_peers r) id) roles meta r)
  | PeerLeft id =>
      emit (EvPeerLeft id)
        (set_roster (mdel id (cr_peers r)) (mdel id (cr_peerRoles r)) (mdel id (cr_peerMeta r)) r)
  | PresenceOnline id => emit (EvPresenceOnline id) r
  | PresenceOffline id => emit (EvPresenceOffline id) r
  | Kicked id reason => emit (EvKicked id reason) r
  | Signal from data => emit (EvSignal from data) r
  | Broadcast from channel data _ => emit (EvBroadcast from channel (default JNull data)) r
  | RoleChanged id role =>
      emit (EvRoleChanged id role) (set_roster (cr_peers r) (mset id role (cr_peerRoles r)) (cr_peerMeta r) r)
  | RoomJoined _ | Error _ _ | Ping => r
  end.

(** * The bound call *)

Definition _unbindCall r : Room :=
  match cr_call r with
  | Some c => set_call None (put [CallOff c; CallClose c] r)
  | None => r
  end.
Definition bindCall (call : nat) r : Room :=
  let r1 := set_call (Some call) (_unbindCall r) in put [CallOn call; CallStart call] r1.

(** The handler [bindCall] attaches: one event per track of the stream. *)
Definition on_remote_stream (peerId : jsstr) (stream : nat) (tracks : list nat) r : Room :=
  put ((λ t, Emit (EvTrackAdded t stream peerId)) <$> tracks) r.

Definition _close r : Room := emit EvClosed (_unbindCall (set_closed r)).

(** * Sending *)

Section sending.
(** The transport's [send], and whether it threw. *)
Context {T : Type} (t_send : ClientMessage → T → T * bool).

Definition _trySend (msg : ClientMessage) (t : T) r : T * Room :=
  let '(t', threw) := t_send msg t in (t', if threw : bool then emit EvMediaError r else r).
Definition sendSignal (to : jsstr) (data : payload) (t : T) r : T * Room := _trySend (CSignal to data) t r.
Definition broadcast (channel : jsstr) (data : payload) (t : T) r : T * Room := _trySend (CBroadcast channel data) t r.
End sending.

(** * One message after the other *)

(** What becomes of the client's room, if there is one yet, with a message from the
    server: the first room-joined creates it, later ones refresh it. *)
Definition read_message (c : option Room) (msg : ServerMessage) : option Room :=
  match msg with
  | RoomJoined j => Some (match c with Some r => _refresh j r | None => newRoom j end)
  | _ => _handleMessage msg <$> c
  end.

(** * Lookup in the roster *)

Lemma mget_set_peers i ids m :
  mget i (fold_left set_peer ids m) = if decide (i ∈ ids) then Some (mkInfo i) else mget i m.
Proof.
  revert m. induction ids as [|j ids IH]; intros m; cbn [fold_left]; [done|]. rewrite IH. unfold set_peer. rewrite mget_mset.
  destruct (decide (i ∈ ids)) as [Hi|Hi]; [by rewrite decide_True by (by right)|].
  destruct (decide (i = j)) as [->|Hne]; [by rewrite decide_True by left|].
  rewrite decide_False; [done|]. by intros [|]%elem_of_cons.
Qed.

Lemma mget_set_entries {V} i (entries m : jmap jsstr V) :
  mwf entries → mget i (set_entries entries m) = match mget i entries with Some v => Some v | None => mget i m end.
Proof.
  unfold set_entries, mwf. revert m. induction entries as [|[j v] es IH]; intros m; cbn [fold_left fmap list_fmap fst snd]; [done|].
  intros [Hj Hnd]%NoDup_cons. rewrite IH by done. cbn [mget]. destruct (decide (i = j)) as [->|Hne].
  - rewrite (proj2 (mget_None_keys j es)) by done. by rewrite mget_mset_eq.
  - by rewrite mget_mset_ne by done.
Qed.
