(* ===== verification/Roster.v ===== *)
(** The roster across the wire: what the members of a room of the server (Room.v) hold
    in their client rooms (ClientRoom.v) after reading everything they were sent.

    A member's client starts from any room it may have had before, or none; what the
    server sends it goes through [JSON.stringify], the client's schema and the client
    room.  Sockets may close at any time. *)

From S2P Require Import Prelude JsMap JsNumber Json Schema RateLimiter Peer Room ClientProtocol ClientRoom.

(** One message of the server, through the wire. *)
Definition read_frame (c : option ClientRoom.Room) (m : Peer.ServerMessage) : option ClientRoom.Room :=
  match parseServer (server_json m) with Some msg => read_message c msg | None => c end.

(** * What a client room is to hold *)

(** The role and the metadata of a member. *)
Abbreviation entry := (jsstr * jmap jsstr jsstr)%type.
Abbreviation roster := (jsstr → option entry).

Definition upd (i : jsstr) (o : option entry) (R : roster) : roster := λ j, if decide (j = i) then o else R j.

(** The client room of [me] agrees with a roster: it has the same peers, knows nothing
    about others, and, with [full], knows the role of everybody else and all metadata. *)
Record agree (full : bool) (me : jsstr) (R : roster) (r : ClientRoom.Room) : Prop := {
  ag_peers i : hasPeer i r = true ↔ is_Some (R i);
  ag_none i : R i = None → getPeerRole i r = None ∧ ClientRoom.getPeerMetadata i r = None;
  ag_entry i e : full = true → R i = Some e →
    (i ≠ me → default [] (getPeerRole i r) = e.1) ∧ default [] (ClientRoom.getPeerMetadata i r) = e.2;
}.

Lemma agree_ext full me R R' r : (∀ i, R i = R' i) → agree full me R r → agree full me R' r.
Proof. intros HR [H1 H2 H3]. constructor; intros i; rewrite <- HR; eauto. Qed.

(** ** The effect of each message *)

Section effects.
Context (full : bool) (me : jsstr).

Lemma agree_maps R r r' :
  cr_peers r' = cr_peers r → cr_peerRoles r' = cr_peerRoles r → cr_peerMeta r' = cr_peerMeta r →
  agree full me R r → agree full me R r'.
Proof.
  intros Hp Hr Hm [H1 H2 H3].
  constructor; unfold hasPeer, getPeerRole, ClientRoom.getPeerMetadata; rewrite ?Hp, ?Hr, ?Hm; eauto.
Qed.

(** A room-joined message that lists a roster. *)
Definition lists (R : roster) (j : RoomJoinedMessage) : Prop :=
  ∃ roles meta, rj_peerId j = me ∧ rj_peerRoles j = Some roles ∧ rj_peerMetadata j = Some meta ∧ mwf roles ∧ mwf meta
  ∧ (∀ i, is_Some (R i) ↔ i = me ∨ i ∈ rj_peers j)
  ∧ (∀ i, R i = None → mget i roles = None ∧ mget i meta = None)
  ∧ ∀ i e, R i = Some e → (i ≠ me → default [] (mget i roles) = e.1) ∧ default [] (mget i meta) = e.2.

Lemma agree_new R j : lists R j → agree full me R (newRoom j).
Proof.
  intros (roles & meta & Hme & Hr & Hm & Hwr & Hwm & Hp & Hn & He).
  unfold newRoom. rewrite Hr, Hm, Hme. cbn [when]. constructor.
  - intros i. unfold hasPeer. rewrite mhas_true. cbn. rewrite mget_set_peers. unfold set_peer. cbn. rewrite Hp.
    split.
    + destruct (decide (i ∈ rj_peers j)); [by right|]. cbn. destruct (decide (i = me)); [by left|by intros []].
    + intros Hi. destruct (decide (i ∈ rj_peers j)); [eauto|]. destruct Hi as [->|]; [|done]. rewrite decide_True by done. eauto.
  - intros i Hi. unfold getPeerRole, ClientRoom.getPeerMetadata. cbn. rewrite !mget_set_entries by done. destruct (Hn i Hi) as [-> ->]. done.
  - intros i e _ Hi. unfold getPeerRole, ClientRoom.getPeerMetadata. cbn. rewrite !mget_set_entries by done.
    destruct (He i e Hi) as [H1 H2]. split; [intros Hne; specialize (H1 Hne)|]; by case_match.
Qed.

Lemma agree_refresh R j r : lists R j → agree full me R (_refresh j r).
Proof.
  intros Hl. pose proof (agree_new R j Hl) as Ha. revert Ha. apply agree_maps; unfold _refresh, newRoom;
    by destruct (rj_peerMetadata j), (rj_peerRoles j), (rj_localRole j), (rj_iceServers j).
Qed.

Lemma agree_joined R r i role meta :
  R i = None → i ≠ me → agree full me R r → agree full me (upd i (Some (role, meta)) R) (_handleMessage (PeerJoined i (Some role) (Some meta)) r).
Proof.
  intros Hi Hne [H1 H2 H3]. pose proof (H2 i Hi) as [Hr Hm].
  unfold getPeerRole, ClientRoom.getPeerMetadata in *. constructor.
  - intros j. unfold upd, hasPeer in *. cbn. unfold set_peer. rewrite mhas_true, mget_mset.
    destruct (decide (j = i)); [split; eauto|]. rewrite <- mhas_true. apply H1.
  - intros j. unfold upd, getPeerRole, ClientRoom.getPeerMetadata. cbn. destruct (decide (j = i)) as [|Hj]; [done|].
    intros Hn. destruct (H2 j Hn) as [Hjr Hjm]. destruct role; cbn; rewrite ?mget_mset_ne by done; done.
  - intros j e Hf. unfold upd, getPeerRole, ClientRoom.getPeerMetadata. cbn. destruct (decide (j = i)) as [->|Hj].
    + intros [= <-]. rewrite mget_mset_eq. cbn. split; [|done]. intros _. destruct role as [|c role]; [by rewrite Hr|by rewrite mget_mset_eq].
    + intros He. destruct (H3 j e Hf He) as [Hjr Hjm]. destruct role; cbn; rewrite ?mget_mset_ne by done; done.
Qed.

Lemma agree_left R r i : i ≠ me → agree full me R r → agree full me (upd i None R) (_handleMessage (PeerLeft i) r).
Proof.
  intros Hne [H1 H2 H3]. unfold getPeerRole, ClientRoom.getPeerMetadata in *. constructor.
  - intros j. unfold upd, hasPeer in *. cbn. rewrite mhas_true, mget_mdel.
    destruct (decide (j = i)); [split; intros [? [=]]|]. rewrite <- mhas_true. apply H1.
  - intros j. unfold upd, getPeerRole, ClientRoom.getPeerMetadata. cbn. rewrite !mget_mdel. destruct (decide (j = i)); [done|apply H2].
  - intros j e Hf. unfold upd, getPeerRole, ClientRoom.getPeerMetadata. cbn. rewrite !mget_mdel. destruct (decide (j = i)); [done|by apply H3].
Qed.

Lemma agree_role R r i role e :
  R i = Some e → agree full me R r → agree full me (upd i (Some (role, e.2)) R) (_handleMessage (RoleChanged i role) r).
Proof.
  intros Hi [H1 H2 H3]. unfold getPeerRole, ClientRoom.getPeerMetadata in *. constructor.
  - intros j. unfold upd, hasPeer in *. cbn. rewrite H1. destruct (decide (j = i)) as [->|]; [|done]. rewrite Hi. split; eauto.
  - intros j. unfold upd, getPeerRole, ClientRoom.getPeerMetadata. cbn. destruct (decide (j = i)) as [|Hj]; [done|].
    rewrite mget_mset_ne by done. apply H2.
  - intros j x Hf. unfold upd, getPeerRole, ClientRoom.getPeerMetadata. cbn. rewrite mget_mset. destruct (decide (j = i)) as [->|Hj].
    + intros [= <-]. split; [done|]. by apply (H3 i e Hf Hi).
    + by apply H3.
Qed.

(** Messages without an effect on the roster. *)
Definition neutral (m : Peer.ServerMessage) : bool :=
  match m with
  | SPresenceOnline _ | SPresenceOffline _ | SKicked _ _ | SSignal _ _ | SBroadcast _ _ _ _ | SError _ _ | SPing => true
  | _ => false
  end.

Lemma agree_neutral R m c :
  server_ok m → neutral m = true → (∃ r, c = Some r ∧ agree full me R r) →
  ∃ r, read_frame c m = Some r ∧ agree full me R r.
Proof.
  intros Hok Hn (r & -> & Ha). unfold read_frame. rewrite server_json_read by done.
  destruct m; try discriminate; cbn [received read_message fmap option_fmap option_map]; eexists; (split; [reflexivity|]);
    try (revert Ha; by apply agree_maps); exact Ha.
Qed.
End effects.

(** * What the server sends *)

(** The messages sent to a peer, and what its client makes of them. *)
Definition sent_of (l : list peer_out) : list Peer.ServerMessage :=
  omap (λ o, match o with Sent m => Some m | _ => None end) l.
Definition view (c : option ClientRoom.Room) (ref : nat) (out : list Room.room_out) : option ClientRoom.Room :=
  fold_left read_frame (sent_of (outs_of ref out)) c.

Lemma view_app c ref o1 o2 : view c ref (o1 ++ o2) = fold_left read_frame (sent_of (outs_of ref o2)) (view c ref o1).
Proof. unfold view, sent_of. by rewrite outs_of_app, omap_app, fold_left_app. Qed.

Section server.
Context {S : Type} `{WebSocketLaws S}.
(** [send] of an open socket of the [ws] library does not throw. *)
Context (ws_send_ok : ∀ m (s : S), ws_open s = true → (ws_send m s).2 = false).
(** The room the client behind a connection had before. *)
Context (before : nat → option ClientRoom.Room).
Abbreviation state := (rs (S := S)).
Implicit Types (s : state) (V : jsstr → option ClientRoom.Room → Prop).

(** What is known of the clients of the members whose socket is open. *)
Definition tuned V s : Prop :=
  ∀ id ref p, getPeer id (rs_room s) = Some ref → rs_heap s !! ref = Some p → ws_open (pe_ws p) = true →
    V id (view (before ref) ref (rs_out s)).

Lemma tuned_weaken V V' s : (∀ id c, is_Some (getPeer id (rs_room s)) → V id c → V' id c) → tuned V s → tuned V' s.
Proof. intros HV Ht id ref p Hg Hp Ho. apply HV; [eauto|]. by eapply Ht. Qed.

(** States with the same members, peers and messages. *)
Lemma tuned_frame V s s' :
  ro_peers (rs_room s') = ro_peers (rs_room s) → rs_heap s' = rs_heap s →
  (∀ ref, sent_of (outs_of ref (rs_out s')) = sent_of (outs_of ref (rs_out s))) → tuned V s → tuned V s'.
Proof.
  intros Hp Hh Ho Ht id ref p. unfold getPeer, view. rewrite Hp, Hh, Ho. apply Ht.
Qed.

Lemma tuned_emit V e s : (∀ ref x, e ≠ PeerOut ref x) → tuned V s → tuned V (Room.emit e s).
Proof.
  intros He. apply tuned_frame; [done..|]. intros ref. change (rs_out (Room.emit e s)) with (rs_out s ++ [e]). rewrite outs_of_app. unfold sent_of. rewrite omap_app.
  destruct e; try (cbn; by rewrite app_nil_r). by destruct (He ref0 o).
Qed.

Lemma tuned_on_room V (f : Room.Room → Room.Room) s : ro_peers (f (rs_room s)) = ro_peers (rs_room s) → tuned V s → tuned V (on_room f s).
Proof. intros Hf. by apply tuned_frame. Qed.

(** Every member is filed under its own id. *)
Definition filed s : Prop :=
  mwf (ro_peers (rs_room s)) ∧ ∀ id ref, mget id (ro_peers (rs_room s)) = Some ref → ids (rs_heap s) !! ref = Some id.

Lemma sok_filed s : sok s → filed s.
Proof. intros []. done. Qed.

Lemma filed_heap s id ref : filed s → getPeer id (rs_room s) = Some ref → ∃ p, rs_heap s !! ref = Some p ∧ pe_id p = id.
Proof. intros [_ Hf] Hg%Hf. rewrite lookup_fmap in Hg. apply fmap_Some_1 in Hg as (p & Hp & ->). by exists p. Qed.

Lemma filed_inj s id id' ref : filed s → getPeer id (rs_room s) = Some ref → getPeer id' (rs_room s) = Some ref → id = id'.
Proof. intros [_ Hf] H1%Hf H2%Hf. congruence. Qed.

Lemma filed_on_peer ref f s : (∀ p, pe_id (f p).1.1 = pe_id p) → filed s → filed (on_peer ref f s).1.
Proof. intros Hf [H1 H2]. destruct (on_peer_ids ref f s Hf) as [Hi Hr]. unfold filed. by rewrite Hi, Hr. Qed.

(** A method of the peer of one member. *)
Lemma on_peer_tuned V V' id ref f s :
  filed s → getPeer id (rs_room s) = Some ref →
  (∀ p c, rs_heap s !! ref = Some p → ws_open (pe_ws (f p).1.1) = true →
     ws_open (pe_ws p) = true ∧ (V id c → V' id (fold_left read_frame (sent_of (f p).1.2) c))) →
  (∀ j c, j ≠ id → V j c → V' j c) →
  tuned V s → tuned V' (on_peer ref f s).1.
Proof.
  intros Hok Hg Hf Hrest Ht j q p Hj Hq Ho. destruct (filed_heap s id ref Hok Hg) as (p0 & Hp0 & Hid).
  rewrite (on_peer_spec ref f s p0 Hp0) in Hj, Hq |- *. cbn [fst rs_heap rs_room rs_out] in Hj, Hq |- *. rewrite view_app.
  destruct (decide (q = ref)) as [->|Hne].
  - rewrite lookup_insert_eq in Hq. simplify_eq. assert (j = pe_id p0) as -> by exact (filed_inj s _ _ ref Hok Hj Hg).
    rewrite outs_of_peer. destruct (Hf p0 (view (before ref) ref (rs_out s)) Hp0 Ho) as [Ho0 HV].
    apply HV. by apply (Ht _ ref p0).
  - rewrite lookup_insert_ne in Hq by done. rewrite outs_of_other by done. cbn. apply Hrest; [|by eapply Ht].
    intros ->. congruence.
Qed.

Lemma send_open msg (p : Peer S) :
  ws_open (pe_ws (send msg p).1.1) = true → ws_open (pe_ws p) = true ∧ sent_of (send msg p).1.2 = [msg].
Proof.
  unfold send. destruct (ws_open (pe_ws p)) eqn:Eo; cbn [negb]; [|cbn; congruence]. case_decide.
  - pose proof (disconnect_ok PolicyViolation SendBufferOverflow p) as (Hc & _).
    destruct (disconnect _ _ p) as [[p' out] b]. cbn in *. congruence.
  - pose proof (ws_send_ok msg (pe_ws p) Eo) as Ht. destruct (ws_send msg (pe_ws p)) as [ws threw]. cbn in Ht. subst. done.
Qed.

Lemma send_tuned V V' id ref msg s :
  filed s → getPeer id (rs_room s) = Some ref → (∀ c, V id c → V' id (read_frame c msg)) → (∀ j c, j ≠ id → V j c → V' j c) →
  tuned V s → tuned V' (on_peer ref (send msg) s).1.
Proof.
  intros Hok Hg HV. apply on_peer_tuned; [done|done|]. intros p c Hp Ho. destruct (send_open msg p Ho) as [Ho' ->]. split; [done|apply HV].
Qed.

(** Disconnecting leaves nothing to know of the client. *)
Lemma disconnect_tuned V V' id ref code reason s :
  filed s → getPeer id (rs_room s) = Some ref → (∀ j c, j ≠ id → V j c → V' j c) →
  tuned V s → tuned V' (on_peer ref (disconnect code reason) s).1.
Proof.
  intros Hok Hg. apply on_peer_tuned; [done|done|]. intros p c _ Ho. destruct (disconnect_ok code reason p) as (Hc & _). congruence.
Qed.

(** ** Broadcasts *)

Lemma send_loop_tuned V V' msg ex ps s :
  filed s → NoDup ps.*1 → (∀ id ref, (id, ref) ∈ ps → getPeer id (rs_room s) = Some ref) →
  (∀ id c, ex ≠ Some id → V id c → V' id (read_frame c msg)) → (∀ id c, ex = Some id → V id c → V' id c) →
  tuned (λ id c, if decide (id ∈ ps.*1) then V id c else V' id c) s → tuned V' (send_loop msg ex ps s).1.
Proof.
  intros Hok Hnd Hps HV Hex. revert s Hok Hps. induction ps as [|[i q] ps IH]; intros s Hok Hps Ht; cbn [send_loop].
  { revert Ht. apply tuned_weaken. intros id c _. by rewrite decide_False by (by intros ?%not_elem_of_nil). }
  cbn [fmap list_fmap fst] in Hnd, Ht. apply NoDup_cons in Hnd as [Hi Hnd]. specialize (IH Hnd).
  assert (Hstep : ∀ s', filed s' → rs_room s' = rs_room s →
      tuned (λ id c, if decide (id ∈ ps.*1) then V id c else V' id c) s' → tuned V' (send_loop msg ex ps s').1).
  { intros s' Hok' Hr Ht'. apply IH; [done| |done]. intros id ref Hin. rewrite Hr. apply Hps. by right. }
  assert (Hrest : ∀ j c, j ≠ i → (if decide (j ∈ i :: ps.*1) then V j c else V' j c) → if decide (j ∈ ps.*1) then V j c else V' j c).
  { intros j c Hne. destruct (decide (j ∈ ps.*1)); [by rewrite decide_True by (by right)|].
    rewrite decide_False; [done|]. by intros [|]%elem_of_cons. }
  case_bool_decide as Hx.
  - apply Hstep; [done|done|]. revert Ht. apply tuned_weaken. intros j c _. destruct (decide (j = i)) as [->|Hne]; [|by apply Hrest].
    rewrite decide_True by left. rewrite decide_False by done. by apply Hex.
  - assert (Ht1 : tuned (λ id c, if decide (id ∈ ps.*1) then V id c else V' id c) (on_peer q (send msg) s).1).
    { revert Ht. apply (send_tuned _ _ i); [done|apply Hps; left| |exact Hrest].
      intros c. rewrite decide_True by left. rewrite decide_False by done. by apply HV. }
    pose proof (filed_on_peer q (send msg) s (send_id _) Hok) as Hok1.
    destruct (on_peer_ids q (send msg) s (send_id _)) as [_ Hr1].
    destruct (on_peer q (send msg) s) as [s1 threw]. cbn [fst] in Ht1, Hok1, Hr1. destruct threw; [|by apply Hstep].
    assert (Hs2 : tuned V' (send_loop msg ex ps (Room.emit (EvPeerError i) s1)).1) by (apply Hstep; [done|done|by apply tuned_emit]).
    by destruct (send_loop msg ex ps (Room.emit (EvPeerError i) s1)).
Qed.

Lemma sendToAll_tuned V V' now msg ex s :
  filed s → (∀ id c, is_Some (getPeer id (rs_room s)) → ex ≠ Some id → V id c → V' id (read_frame c msg)) →
  (∀ id c, is_Some (getPeer id (rs_room s)) → ex = Some id → V id c → V' id c) →
  tuned V s → tuned V' (_sendToAll now msg ex s).1.
Proof.
  intros Hok HV Hex Ht. unfold _sendToAll. set (s1 := on_room (_resetIdleTimer now) s).
  assert (Hp : ro_peers (rs_room s1) = ro_peers (rs_room s)) by apply (same_room_fields _ _ (reset_same now (rs_room s))).
  assert (Hok1 : filed s1) by (unfold filed; by rewrite Hp).
  assert (Ht1 : tuned V s1) by (by apply tuned_on_room).
  rewrite Hp. destruct Hok as [Hwf _].
  assert (Hroom : ∀ V0, tuned (λ id c, is_Some (getPeer id (rs_room s)) → V0 id c) (send_loop msg ex (ro_peers (rs_room s)) s1).1
      → tuned V0 (send_loop msg ex (ro_peers (rs_room s)) s1).1).
  { intros V0 Ht0 id ref p Hg Hq Ho. apply (Ht0 id ref p Hg Hq Ho). unfold getPeer in *.
    destruct (send_loop_room msg ex (ro_peers (rs_room s)) s1) as [_ Hr]. rewrite Hr, Hp in Hg. eauto. }
  apply Hroom. apply (send_loop_tuned (λ id c, is_Some (getPeer id (rs_room s)) → V id c)).
  - done.
  - exact Hwf.
  - intros id ref Hin. unfold getPeer. rewrite Hp. by apply elem_mget.
  - intros id c Hne HVc Hin. by apply HV; [| |apply HVc].
  - intros id c He HVc Hin. by apply Hex; [| |apply HVc].
  - revert Ht1. apply tuned_weaken. intros id c Hin HVc. rewrite decide_True; [done|].
    apply mget_is_Some_keys. unfold getPeer in Hin. by rewrite Hp in Hin.
Qed.

(** ** The roster of the server *)

Definition roster_of (h : gmap nat (Peer S)) (r : Room.Room) : roster := λ i,
  ref ← getPeer i r; p ← h !! ref; Some (pe_role p, default [] (Room.getPeerMetadata i r)).

Definition knows (full : bool) (R : roster) (id : jsstr) (c : option ClientRoom.Room) : Prop :=
  ∃ r, c = Some r ∧ agree full id R r.

Lemma knows_same full R R' id c :
  (∀ i, is_Some (R i) ↔ is_Some (R' i)) → (full = true → ∀ i, R i = R' i) → knows full R id c → knows full R' id c.
Proof.
  intros HR HR' (r & Hr & Ha). exists r. split; [done|]. destruct full; [revert Ha; apply agree_ext; auto|].
  destruct Ha as [H1 H2 H3]. constructor; [|intros i Hi; apply H2|by intros].
  - intros i. by rewrite H1.
  - destruct (R i) eqn:E; [|done]. destruct (proj1 (HR i)) as [e He]; [eauto|]. congruence.
Qed.

Lemma knows_ext full R R' id c : (∀ i, R i = R' i) → knows full R id c → knows full R' id c.
Proof. intros HR. apply knows_same; [intros i; by rewrite HR|auto]. Qed.

(** Identity and role of the peers. *)
Definition faces (h : gmap nat (Peer S)) : gmap nat (jsstr * jsstr) := (λ p, (pe_id p, pe_role p)) <$> h.

Lemma roster_of_faces h h' r r' :
  faces h' = faces h → ro_peers r' = ro_peers r → ro_meta r' = ro_meta r → ∀ i, roster_of h' r' i = roster_of h r i.
Proof.
  intros Hh Hp Hm i. unfold roster_of, getPeer, Room.getPeerMetadata. rewrite Hp, Hm.
  destruct (mget i (ro_peers r)) as [ref|]; [|done]. cbn. apply (f_equal (λ m, m !! ref)) in Hh. unfold faces in Hh.
  rewrite !lookup_fmap in Hh. destruct (h !! ref), (h' !! ref); cbn in *; try done. by injection Hh as _ ->.
Qed.

Lemma on_peer_faces ref f s :
  (∀ p, pe_id (f p).1.1 = pe_id p ∧ pe_role (f p).1.1 = pe_role p) → faces (rs_heap (on_peer ref f s).1) = faces (rs_heap s).
Proof.
  intros Hf. unfold on_peer. destruct (rs_heap s !! ref) as [p|] eqn:E; [|done].
  destruct (Hf p) as [Hi Hr]. destruct (f p) as [[p' out] threw]. cbn in *. unfold faces.
  rewrite fmap_insert, Hi, Hr. apply insert_id. by rewrite lookup_fmap, E.
Qed.

Lemma send_faces msg (p : Peer S) : pe_id (send msg p).1.1 = pe_id p ∧ pe_role (send msg p).1.1 = pe_role p.
Proof. destruct (send_same msg p) as (? & ? & _). done. Qed.
Lemma disconnect_faces code reason (p : Peer S) :
  pe_id (disconnect code reason p).1.1 = pe_id p ∧ pe_role (disconnect code reason p).1.1 = pe_role p.
Proof. destruct (disconnect_same code reason p) as (? & ? & _). done. Qed.

Lemma send_loop_faces msg ex ps s : faces (rs_heap (send_loop msg ex ps s).1) = faces (rs_heap s).
Proof.
  revert s. induction ps as [|[id ref] ps IH]; intros s; cbn [send_loop]; [done|]. case_bool_decide; [apply IH|].
  pose proof (on_peer_faces ref (send msg) s (send_faces msg)) as Hf. destruct (on_peer ref (send msg) s) as [s1 threw]. cbn [fst] in Hf.
  destruct threw; [|by rewrite IH].
  specialize (IH (Room.emit (EvPeerError id) s1)). rewrite <- Hf. by destruct (send_loop msg ex ps (Room.emit _ s1)).
Qed.

(** Steps that keep the server's roster. *)
Record calm s s' : Prop := {
  cm_faces : faces (rs_heap s') = faces (rs_heap s);
  cm_ids : ids (rs_heap s') = ids (rs_heap s);
  cm_room : same_room (rs_room s) (rs_room s');
}.
#[local] Instance calm_refl : Reflexive calm.
Proof. intros s. constructor; [done|done|apply same_room_refl]. Qed.
#[local] Instance calm_trans : Transitive calm.
Proof. intros s1 s2 s3 [] []. constructor; [congruence|congruence|by eapply same_room_trans]. Qed.

Lemma calm_sendToAll now msg ex s : calm s (_sendToAll now msg ex s).1.
Proof.
  destruct (sendToAll_traffic now msg ex s) as [Hi Hr]. constructor; [|done|done].
  unfold _sendToAll. by rewrite send_loop_faces.
Qed.

Lemma calm_on_peer ref f s :
  (∀ p, pe_id (f p).1.1 = pe_id p ∧ pe_role (f p).1.1 = pe_role p) → calm s (on_peer ref f s).1.
Proof.
  intros Hf. destruct (on_peer_traffic ref f s) as [Hi Hr]; [intros p; apply Hf|]. constructor; [by apply on_peer_faces|done|done].
Qed.

Lemma calm_emitting e s : calm s (Room.emit e s).
Proof. constructor; [done|done|apply same_room_refl]. Qed.

Lemma calm_reset now s : calm s (on_room (_resetIdleTimer now) s).
Proof. constructor; [done|done|apply reset_same]. Qed.

Lemma calm_sok s s' : calm s s' → sok s → sok s'.
Proof. intros [_ Hi Hr]. by apply traffic_ok. Qed.

Lemma calm_peers s s' : calm s s' → ro_peers (rs_room s') = ro_peers (rs_room s) ∧ ro_meta (rs_room s') = ro_meta (rs_room s).
Proof. intros [_ _ Hr]. apply same_room_fields in Hr as (_ & _ & ? & _ & ? & _). done. Qed.

Lemma calm_roster s s' : calm s s' → ∀ i, roster_of (rs_heap s') (rs_room s') i = roster_of (rs_heap s) (rs_room s) i.
Proof. intros Hc. destruct (calm_peers _ _ Hc). apply roster_of_faces; [apply Hc|done|done]. Qed.

(** * The invariant *)

Section invariant.
Context (full : bool).

Record in_tune s : Prop := {
  it_ok : sok s;
  it_meta : mwf (ro_meta (rs_room s));
  it_tuned : tuned (knows full (roster_of (rs_heap s) (rs_room s))) s;
}.

(** A calm step that tells the clients nothing of the roster. *)
Lemma in_tune_calm s s' :
  calm s s' → in_tune s → tuned (knows full (roster_of (rs_heap s) (rs_room s))) s' → in_tune s'.
Proof.
  intros Hc [Hok Hm _] Ht. constructor; [by eapply calm_sok|by rewrite (proj2 (calm_peers _ _ Hc))|].
  revert Ht. apply tuned_weaken. intros id c _. apply knows_ext. intros i. by rewrite (calm_roster _ _ Hc).
Qed.

Lemma broadcast_in_tune now msg ex s : server_ok msg → neutral msg = true → in_tune s → in_tune (_sendToAll now msg ex s).1.
Proof.
  intros Hm Hn Hs. apply (in_tune_calm s); [apply calm_sendToAll|done|]. pose proof (it_tuned _ Hs) as Ht. revert Ht.
  apply sendToAll_tuned; [apply sok_filed, Hs| |done]. intros id c _ _. by apply agree_neutral.
Qed.

Lemma emit_in_tune e s : (∀ ref x, e ≠ PeerOut ref x) → in_tune s → in_tune (Room.emit e s).
Proof. intros He Hs. apply (in_tune_calm s); [apply calm_emitting|done|]. by apply tuned_emit, Hs. Qed.

Lemma reset_in_tune now s : in_tune s → in_tune (on_room (_resetIdleTimer now) s).
Proof.
  intros Hs. apply (in_tune_calm s); [apply calm_reset|done|]. apply tuned_on_room; [|apply Hs].
  apply (same_room_fields _ _ (reset_same now (rs_room s))).
Qed.

(** A room without members. *)
Lemma nobody_in_tune s : sok s → ro_peers (rs_room s) = [] → mwf (ro_meta (rs_room s)) → in_tune s.
Proof. intros Hok Hp Hm. constructor; [done|done|]. intros id ref p. unfold getPeer. by rewrite Hp. Qed.

(** ** Leaving *)

Lemma removed_sok id s :
  sok s → sok (on_room (λ r, set_peers (mdel id (ro_peers r)) (mdel id (ro_meta r)) r) s).
Proof.
  intros [Hwf Href Hcap Hact Hmeta Hidle Hlim]. constructor; simpl; try done.
  - by apply mwf_mdel.
  - intros i q. rewrite mget_mdel. case_decide; [done|apply Href].
  - intros m Hm. specialize (Hcap m Hm). unfold getPeerCount in *. simpl. pose proof (msize_mdel_le id (ro_peers (rs_room s))). lia.
  - intros Hna. by rewrite (Hact Hna).
  - intros i. rewrite !mget_mdel. case_decide; [done|apply Hmeta].
Qed.

Lemma roster_removed id h r i :
  roster_of h (set_peers (mdel id (ro_peers r)) (mdel id (ro_meta r)) r) i = upd id None (roster_of h r) i.
Proof.
  unfold roster_of, upd, getPeer, Room.getPeerMetadata. cbn. rewrite !mget_mdel. by destruct (decide (i = id)).
Qed.

(** Whatever was known of the client of [id], the others are told. *)
Lemma remove_in_tune now id s :
  sok s → mwf (ro_meta (rs_room s)) → tuned (λ j c, j ≠ id → knows full (roster_of (rs_heap s) (rs_room s)) j c) s →
  in_tune (removePeer now id s).
Proof.
  intros Hok Hm Ht. pose proof (removePeer_ok now id s Hok) as Hok'. revert Hok'. unfold removePeer.
  destruct (getPeer id (rs_room s)) as [ref|] eqn:Eg.
  2: { intros _. constructor; [done|done|]. revert Ht. apply tuned_weaken. intros j c [q Hj] HV. apply HV. congruence. }
  set (s1 := on_room _ s). pose proof (removed_sok id s Hok) as Hok1. fold s1 in Hok1. rewrite count_zero.
  destruct (bool_decide (ro_peers (rs_room s1) = []) && _) eqn:Ee; intros Hok'.
  { apply andb_true_iff in Ee as [Ee _]. apply bool_decide_eq_true in Ee.
    set (s2 := transition Closing (on_room _clearTimers s1)) in *.
    assert (Hs : ∀ x (q : state), ro_peers (rs_room (transition x q)) = ro_peers (rs_room q) ∧ ro_meta (rs_room (transition x q)) = ro_meta (rs_room q)).
    { intros x q. destruct (transition_spec x q) as (_ & _ & ->). by case_bool_decide. }
    destruct (Hs Closing (on_room _clearTimers s1)) as [Hp2 Hm2]. fold s2 in Hp2, Hm2.
    destruct (Hs Closed (Room.emit (Room.EvPeerLeft ref) s2)) as [Hp3 Hm3].
    apply nobody_in_tune; [done| |].
    - transitivity (ro_peers (rs_room s2)); [exact Hp3|]. rewrite Hp2. exact Ee.
    - change (mwf (ro_meta (rs_room (transition Closed (Room.emit (Room.EvPeerLeft ref) s2))))). rewrite Hm3.
      change (mwf (ro_meta (rs_room s2))). rewrite Hm2. by apply mwf_mdel. }
  clear Hok' Ee. apply emit_in_tune; [done|]. apply (broadcast_in_tune now (SPresenceOffline id) (Some id)); [done|done|].
  set (s2 := (broadcastExcept now id (SPeerLeft id) s1).1).
  assert (Hc : calm s1 s2) by apply calm_sendToAll.
  constructor; [by eapply calm_sok|rewrite (proj2 (calm_peers _ _ Hc)); by apply mwf_mdel|].
  assert (Hid : ∀ j, is_Some (getPeer j (rs_room s1)) → j ≠ id).
  { intros j [q Hq] ->. unfold getPeer in Hq. cbn in Hq. by rewrite mget_mdel_eq in Hq. }
  assert (Ht1 : tuned (knows full (roster_of (rs_heap s) (rs_room s))) s1).
  { intros j q p Hj Hq Ho. assert (Hne : j ≠ id) by (apply Hid; eauto). apply (Ht j q p); [|done|done|done].
    unfold getPeer in *. cbn in Hj. by rewrite mget_mdel_ne in Hj. }
  revert Ht1. apply sendToAll_tuned; [by apply sok_filed| |].
  - intros j c Hj _ (r & -> & Ha). unfold read_frame. rewrite server_json_read by done. cbn [received read_message fmap option_fmap option_map].
    eexists. split; [reflexivity|]. apply (agree_left _ _ _ _ id) in Ha; [|by apply not_eq_sym, Hid].
    revert Ha. apply agree_ext. intros i. rewrite (calm_roster _ _ Hc). symmetry. apply roster_removed.
  - intros j c Hj [= ->]. by destruct (Hid j Hj).
Qed.

(** ** Joining *)

Lemma mget_peerRoles (h : gmap nat (Peer S)) id r i :
  mwf (ro_peers r) →
  mget i (peerRoles h id r) =
    if decide (i = id) then None
    else ref ← mget i (ro_peers r); p ← h !! ref; if decide (pe_role p = []) then None else Some (pe_role p).
Proof.
  unfold peerRoles, mwf. induction (ro_peers r) as [|[j q] ps IH]; cbn [fmap list_fmap fst snd mget]; [by case_decide|].
  intros [Hj Hnd]%NoDup_cons. specialize (IH Hnd). cbn [omap list_omap fst snd].
  assert (Hrest : i = j → mget i (omap (λ e : jsstr * nat, match h !! e.2 with
      | Some p => if bool_decide (e.1 = id) || bool_decide (pe_role p = []) then None else Some (e.1, pe_role p)
      | None => None end) ps) = None).
  { intros ->. rewrite IH. case_decide; [done|]. by rewrite (proj2 (mget_None_keys j ps)) by done. }
  destruct (decide (i = j)) as [->|Hne]; [specialize (Hrest eq_refl)|clear Hrest]; cbn [mbind option_bind].
  - destruct (h !! q) as [p|] eqn:Eq; cbn [mbind option_bind]; [|rewrite Hrest; by case_decide].
    destruct (decide (j = id)) as [->|Hid]; [rewrite bool_decide_true by done; exact Hrest|].
    rewrite bool_decide_false by done. cbn [orb]. destruct (decide (pe_role p = [])) as [Hr|Hr].
    + rewrite bool_decide_true by done. exact Hrest.
    + rewrite bool_decide_false by done. cbn [mget]. by rewrite decide_True.
  - destruct (h !! q) as [p|]; [|exact IH]. destruct (bool_decide (j = id) || _); [exact IH|].
    cbn [mget]. by rewrite decide_False.
Qed.

Lemma peerRoles_wf (h : gmap nat (Peer S)) id r : mwf (ro_peers r) → mwf (peerRoles h id r).
Proof.
  intros Hwf. eapply sublist_NoDup; [exact Hwf|]. clear Hwf. unfold peerRoles. induction (ro_peers r) as [|[j q] ps IH]; [done|].
  cbn [omap list_omap fmap list_fmap fst snd]. destruct (h !! q) as [p|]; [|by apply sublist_cons].
  destruct (_ || _); [by apply sublist_cons|]. cbn [fmap list_fmap fst]. by apply sublist_skip.
Qed.

(** The message to a member lists the roster of the room it is in. *)
Lemma room_joined_lists (h : gmap nat (Peer S)) (peer : Peer S) ice r ref p :
  mwf (ro_peers r) → mwf (ro_meta r) → (∀ id q, mget id (ro_peers r) = Some q → is_Some (h !! q)) →
  (∀ id, mget id (ro_peers r) = None → mget id (ro_meta r) = None) →
  getPeer (pe_id peer) r = Some ref → h !! ref = Some p →
  ∃ j, received (room_joined h peer ice r) = RoomJoined j ∧ lists (pe_id peer) (roster_of h r) j.
Proof.
  intros Hwp Hwm Hh Hm Hg Hp. unfold room_joined. cbn [received]. eexists. split; [reflexivity|].
  exists (peerRoles h (pe_id peer) r), (ro_meta r). cbn. split; [done|]. split; [done|]. split; [done|].
  split; [by apply peerRoles_wf|]. split; [done|]. split; [|split].
  - intros i. unfold roster_of, otherIds, getPeerIds. rewrite list_elem_of_filter. rewrite <- mget_is_Some_keys. unfold getPeer. split.
    + intros [e He]. destruct (decide (i = pe_id peer)); [by left|]. right. split; [done|].
      destruct (mget i (ro_peers r)); [eauto|done].
    + intros Hi. assert (Hs : is_Some (mget i (ro_peers r))) by (destruct Hi as [->|[_ Hi]]; [unfold getPeer in Hg; eauto|done]).
      destruct Hs as [q Hq]. rewrite Hq. cbn. destruct (Hh i q Hq) as [p' ->]. cbn. eauto.
  - intros i Hi. unfold roster_of, getPeer in Hi. rewrite mget_peerRoles by done.
    destruct (mget i (ro_peers r)) as [q|] eqn:Eq; [|split; [by case_decide|by apply Hm]].
    cbn in Hi. destruct (Hh i q Eq) as [p' Hp']. by rewrite Hp' in Hi.
  - intros i e He. unfold roster_of, getPeer, Room.getPeerMetadata in He. rewrite mget_peerRoles by done.
    destruct (mget i (ro_peers r)) as [q|]; [|done]. cbn in He |- *. destruct (h !! q) as [p'|]; [|done]. cbn in He. injection He as <-.
    split; [|done]. intros Hne. rewrite decide_False by done. cbn. by case_decide as Hr.
Qed.

(** Whoever is not a member, nothing is known of its client. *)
Lemma stranger_tuned V ref f s :
  (∀ id, getPeer id (rs_room s) ≠ Some ref) → tuned V s → tuned V (on_peer ref f s).1.
Proof.
  intros Hno Ht. unfold on_peer. destruct (rs_heap s !! ref) as [p0|]; [|done]. destruct (f p0) as [[p' out] threw].
  intros j q p Hj Hq Ho. cbn in Hj, Hq. cbn [fst rs_out].
  destruct (decide (q = ref)) as [->|Hne]; [by destruct (Hno j)|]. rewrite lookup_insert_ne in Hq by done.
  rewrite view_app, outs_of_other by done. by apply (Ht j q p).
Qed.

(** Filing a peer under its id. *)
Definition file_peer (peer : Peer S) (ref : nat) (r : Room.Room) : Room.Room :=
  set_peers (mset (pe_id peer) ref (ro_peers r))
    (if bool_decide (pe_metadata peer = []) then mdel (pe_id peer) (ro_meta r)
     else mset (pe_id peer) (pe_metadata peer) (ro_meta r)) r.

Lemma filed_added s ref (peer p : Peer S) :
  filed s → rs_heap s !! ref = Some p → pe_id p = pe_id peer → filed (on_room (file_peer peer ref) s).
Proof.
  intros [Hwf Hf] Hp Hid. split; cbn; [by apply mwf_mset|]. intros i q. rewrite mget_mset. case_decide; [|apply Hf].
  intros [= <-]. subst. rewrite lookup_fmap, Hp. cbn. by rewrite Hid.
Qed.

(** The connection that [id] had before is replaced. *)
Lemma replace_tuned id s :
  in_tune s →
  let q := match getPeer id (rs_room s) with
           | Some old =>
               let '(s', threw) := on_peer old (disconnect Normal ReplacedByReconnection) s in
               (if threw : bool then s' else Room.emit (Room.EvPeerLeft old) s', threw)
           | None => (s, false)
           end in
  q.2 = false ∧ calm s q.1 ∧ rs_room q.1 = rs_room s
  ∧ tuned (λ j c, j ≠ id → knows full (roster_of (rs_heap s) (rs_room s)) j c) q.1.
Proof.
  intros [Hok _ Ht]. destruct (getPeer id (rs_room s)) as [old|] eqn:Eg.
  - pose proof (on_peer_disconnect old Normal ReplacedByReconnection s) as Hd.
    pose proof (calm_on_peer old _ s (disconnect_faces Normal ReplacedByReconnection)) as Hc.
    destruct (on_peer_ids old (disconnect Normal ReplacedByReconnection) s (disconnect_id _ _)) as [_ Hr].
    assert (Ht' : tuned (λ j c, j ≠ id → knows full (roster_of (rs_heap s) (rs_room s)) j c)
              (on_peer old (disconnect Normal ReplacedByReconnection) s).1).
    { revert Ht. apply (disconnect_tuned _ _ id); [by apply sok_filed|done|]. intros j c _ Hk _. exact Hk. }
    destruct (on_peer old _ s) as [s' threw]. cbn [fst snd] in *. subst threw. cbv zeta.
    split; [done|]. split; [by etransitivity; [exact Hc|apply calm_emitting]|]. split; [exact Hr|]. by apply tuned_emit.
  - cbv zeta. split; [done|]. split; [reflexivity|]. split; [done|]. revert Ht. apply tuned_weaken. intros j c _ Hk _. exact Hk.
Qed.

(** The other members are told who joined, unless it was a member before. *)
Lemma announce_tuned now id role meta (isnew : bool) R R2 s :
  filed s → (∀ i, R2 i = upd id (Some (role, meta)) R i) →
  (if isnew then R id = None else is_Some (R id) ∧ (full = true → R id = Some (role, meta))) →
  tuned (λ j c, if decide (j = id) then knows full R2 j c else knows full R j c) s →
  let s4 := if isnew
            then let s' := (broadcastExcept now id (SPeerJoined id role meta) s).1 in
                 (broadcastExcept now id (SPresenceOnline id) s').1
            else s in
  calm s s4 ∧ tuned (knows full R2) s4.
Proof.
  intros Hf HR2 HR Ht. destruct isnew; cbv zeta.
  - set (s' := (broadcastExcept now id (SPeerJoined id role meta) s).1).
    assert (Hc : calm s s') by apply calm_sendToAll. split; [etransitivity; [exact Hc|apply calm_sendToAll]|].
    assert (Hf' : filed s').
    { destruct Hf as [H1 H2]. unfold filed. by rewrite (proj1 (calm_peers _ _ Hc)), (cm_ids _ _ Hc). }
    assert (Ht' : tuned (knows full R2) s').
    { revert Ht. apply sendToAll_tuned; [done| |].
      - intros j c _ Hj. rewrite decide_False by congruence. intros (r & -> & Ha). unfold read_frame. rewrite server_json_read by done.
        cbn [received read_message fmap option_fmap option_map]. eexists. split; [reflexivity|].
        apply (agree_joined full j R r id role meta HR) in Ha; [|congruence]. revert Ha. by apply agree_ext.
      - intros j c _ [= ->]. by rewrite decide_True. }
    revert Ht'. apply sendToAll_tuned; [done| |done]. intros j c _ _. by apply agree_neutral.
  - split; [reflexivity|]. revert Ht. apply tuned_weaken. intros j c _. case_decide; [done|]. destruct HR as [HR HRf]. apply knows_same.
    + intros i. rewrite HR2. unfold upd. case_decide as Hi; [|done]. subst i. split; [eauto|done].
    + intros Hfull i. rewrite HR2. unfold upd. case_decide as Hi; [|done]. subst i. auto.
Qed.

Lemma roster_filed (h : gmap nat (Peer S)) peer ref r p i :
  h !! ref = Some p → pe_role p = pe_role peer →
  roster_of h (file_peer peer ref r) i = upd (pe_id peer) (Some (pe_role peer, pe_metadata peer)) (roster_of h r) i.
Proof.
  intros Hp Hr. unfold roster_of, upd, getPeer, Room.getPeerMetadata. cbn. rewrite mget_mset.
  destruct (decide (i = pe_id peer)) as [->|Hne].
  - cbn. rewrite Hp. cbn. rewrite Hr. repeat f_equal. case_bool_decide as Hm; [rewrite mget_mdel_eq|by rewrite mget_mset_eq]. by rewrite Hm.
  - destruct (mget i (ro_peers r)) as [q|]; [|done]. cbn. destruct (h !! q); [|done]. cbn. do 3 f_equal.
    case_bool_decide; [by rewrite mget_mdel_ne|by rewrite mget_mset_ne].
Qed.

Lemma file_peer_meta peer ref r : mwf (ro_meta r) → mwf (ro_meta (file_peer peer ref r)).
Proof. intros Hm. cbn. case_bool_decide; [by apply mwf_mdel|by apply mwf_mset]. Qed.

(** The newcomer is sent the roster. *)
Lemma greet_tuned ref peer p ice R s :
  filed s → mwf (ro_meta (rs_room s)) → (∀ id, mget id (ro_peers (rs_room s)) = None → mget id (ro_meta (rs_room s)) = None) →
  rs_heap s !! ref = Some p → pe_id p = pe_id peer →
  tuned (λ j c, j ≠ pe_id peer → knows full R j c) s →
  let s2 := on_room (file_peer peer ref) s in
  let s3 := (on_peer ref (send (room_joined (rs_heap s2) peer ice (rs_room s2))) s2).1 in
  calm s2 s3
  ∧ tuned (λ j c, if decide (j = pe_id peer) then knows full (roster_of (rs_heap s2) (rs_room s2)) j c else knows full R j c) s3.
Proof.
  intros Hf Hm Hmn Hp Hid Ht s2 s3. split; [apply calm_on_peer, send_faces|].
  assert (Hf2 : filed s2) by exact (filed_added s ref peer p Hf Hp Hid).
  assert (Hg : getPeer (pe_id peer) (rs_room s2) = Some ref) by (unfold getPeer; cbn; apply mget_mset_eq).
  assert (Ht2 : tuned (λ j c, j ≠ pe_id peer → knows full R j c) s2).
  { intros j q p1 Hj Hq Ho Hne. apply (Ht j q p1); [|done|done|done]. unfold getPeer in *. cbn in Hj. by rewrite mget_mset_ne in Hj. }
  revert Ht2. apply (send_tuned _ _ (pe_id peer)); [done|done| |].
  - intros c _. rewrite decide_True by done. unfold knows, read_frame. rewrite server_json_read by done.
    destruct (room_joined_lists (rs_heap s2) peer ice (rs_room s2) ref p) as (j & -> & Hl).
    + apply Hf2.
    + by apply file_peer_meta.
    + intros id q Hq. destruct (filed_heap s2 id q Hf2 Hq) as (p1 & Hp1 & _). eauto.
    + intros id Hn. cbn in Hn |- *. rewrite mget_mset in Hn. destruct (decide (id = pe_id peer)); [done|].
      case_bool_decide; [rewrite mget_mdel_ne by done|rewrite mget_mset_ne by done]; by apply Hmn.
    + done.
    + done.
    + eexists. split; [reflexivity|]. destruct c; [by apply agree_refresh|by apply agree_new].
  - intros j c Hne Hk. rewrite decide_False by done. by apply Hk.
Qed.

(** What a join must satisfy for nobody to be left with a stale roster: a connection
    that replaces another can be sent its first message, and, for roles and metadata,
    comes with those the member had. *)
Definition told_join (now : Z) (ref : nat) (ice : option (list IceServer)) s : Prop :=
  ∀ peer, rs_heap s !! ref = Some peer → is_Some (getPeer (pe_id peer) (rs_room s)) →
    (addPeer now ref ice s).2 ≠ Throw ()
    ∧ (full = true → roster_of (rs_heap s) (rs_room s) (pe_id peer) = Some (pe_role peer, pe_metadata peer)).

Lemma reject_in_tune ref reason s peer :
  rs_heap s !! ref = Some peer → getPeer (pe_id peer) (rs_room s) = None → in_tune s →
  in_tune (let '(s1, threw) := on_peer ref (disconnect PolicyViolation reason) s in
           (s1, if threw : bool then Throw () else Ok false : result unit bool)).1.
Proof.
  intros Hp Hn Hs. assert (Hi : in_tune (on_peer ref (disconnect PolicyViolation reason) s).1).
  { apply (in_tune_calm s); [apply calm_on_peer, disconnect_faces|done|]. apply stranger_tuned; [|apply Hs].
    intros id Hg. destruct (member_heap s id ref (it_ok _ Hs) Hg) as (p & Hp' & Hid). congruence. }
  by destruct (on_peer ref _ s).
Qed.

(** A state that differs from a tuned one in what no client sees. *)
Lemma settled_in_tune R s s' :
  sok s' → ro_peers (rs_room s') = ro_peers (rs_room s) → ro_meta (rs_room s') = ro_meta (rs_room s) → rs_heap s' = rs_heap s →
  (∀ ref, sent_of (outs_of ref (rs_out s')) = sent_of (outs_of ref (rs_out s))) → mwf (ro_meta (rs_room s)) →
  (∀ i, roster_of (rs_heap s) (rs_room s) i = R i) → tuned (knows full R) s → in_tune s'.
Proof.
  intros Hok Hp Hm Hh Ho Hwf HR Ht. constructor; [done|by rewrite Hm|].
  assert (Ht' : tuned (knows full R) s') by (revert Ht; by apply tuned_frame). revert Ht'. apply tuned_weaken. intros id c _. apply knows_ext. intros i. rewrite <- HR. symmetry. apply roster_of_faces; [by rewrite Hh|done|done].
Qed.

Lemma rollback_in_tune id R s :
  let s' := on_room (λ r, set_peers (mdel id (ro_peers r)) (mdel id (ro_meta r)) r) s in
  sok s' → mwf (ro_meta (rs_room s)) → (∀ i, i ≠ id → roster_of (rs_heap s) (rs_room s) i = R i) → R id = None →
  tuned (λ j c, j ≠ id → knows full R j c) s → in_tune s'.
Proof.
  intros s' Hok Hm HR Hn Ht. constructor; [done|by apply mwf_mdel|]. intros j q p Hj Hq Ho.
  assert (Hne : j ≠ id). { intros ->. unfold getPeer in Hj. cbn in Hj. by rewrite mget_mdel_eq in Hj. }
  assert (Hk : knows full R j (view (before q) q (rs_out s))).
  { apply (Ht j q p); [|done|done|done]. unfold getPeer in *. cbn in Hj. by rewrite mget_mdel_ne in Hj. }
  revert Hk. apply knows_ext. intros i. cbn [s' on_room rs_heap rs_room]. rewrite roster_removed. unfold upd. case_decide as Hi; [by subst i|].
  symmetry. by apply HR.
Qed.

(** What [addPeer] does last. *)
Lemma activate_same now ref s4 :
  let s' := Room.emit (Room.EvPeerJoined ref) (on_room (_resetIdleTimer now)
              (transition Active (on_room (λ r, set_subs (ro_subs r ++ [ref]) r) s4))) in
  ro_peers (rs_room s') = ro_peers (rs_room s4) ∧ ro_meta (rs_room s') = ro_meta (rs_room s4) ∧ rs_heap s' = rs_heap s4
  ∧ ∀ q, sent_of (outs_of q (rs_out s')) = sent_of (outs_of q (rs_out s4)).
Proof.
  intros s'. set (s5 := on_room (λ r, set_subs (ro_subs r ++ [ref]) r) s4) in *.
  destruct (transition_spec Active s5) as (_ & _ & Hr).
  destruct (same_room_fields _ _ (reset_same now (rs_room (transition Active s5)))) as (_ & _ & Hp & _ & Hm & _).
  split; [etransitivity; [exact Hp|]; rewrite Hr; by case_bool_decide|].
  split; [etransitivity; [exact Hm|]; rewrite Hr; by case_bool_decide|]. split; [done|].
  intros q. change (rs_out s') with (rs_out s4 ++ [Room.EvPeerJoined ref]). rewrite outs_of_app. cbn. by rewrite app_nil_r.
Qed.

Lemma add_in_tune now ref ice s : told_join now ref ice s → in_tune s → in_tune (addPeer now ref ice s).1.
Proof.
  intros Htold Hs. destruct (rs_heap s !! ref) as [peer|] eqn:Hp; [|unfold addPeer; by rewrite Hp].
  specialize (Htold peer Hp). pose proof (addPeer_ok now ref ice s peer Hp (it_ok _ Hs)) as Hok.
  revert Htold Hok. unfold addPeer. rewrite Hp. cbv zeta. fold (closing (rs_room s)).
  destruct (closing (rs_room s)) eqn:Ec.
  { intros _ _. apply (reject_in_tune ref RoomClosing s peer Hp); [|done]. unfold getPeer. rewrite (rk_active _ _ (it_ok _ Hs)); [done|].
    unfold closing in Ec. intros Ha. by rewrite Ha in Ec. }
  destruct (bool_decide (getPeer (pe_id peer) (rs_room s) = None) && _) eqn:Ef.
  { intros _ _. apply andb_true_iff in Ef as [Ef _]. apply bool_decide_eq_true in Ef. by apply (reject_in_tune ref RoomFull s peer Hp). }
  clear Ec Ef. pose proof (replace_tuned (pe_id peer) s Hs) as Hq. cbv zeta in Hq.
  set (q := match getPeer _ _ with Some old => _ | None => _ end) in *. clearbody q. destruct q as [s1 threw]. cbn [fst snd] in Hq.
  destruct Hq as (-> & Hc1 & Hr1 & Ht1). cbv iota. destruct Hs as [Hsok Hsm Hst].
  pose proof (calm_sok _ _ Hc1 Hsok) as Hok1.
  assert (Hp1 : ∃ p1, rs_heap s1 !! ref = Some p1 ∧ pe_id p1 = pe_id peer ∧ pe_role p1 = pe_role peer).
  { pose proof (f_equal (λ m, m !! ref) (cm_faces _ _ Hc1)) as Hf. unfold faces in Hf. rewrite !lookup_fmap, Hp in Hf.
    destruct (rs_heap s1 !! ref) as [p1|]; [|done]. exists p1. cbn in Hf. by injection Hf. }
  destruct Hp1 as (p1 & Hp1 & Hid1 & Hrole1).
  change (on_room (λ r, set_peers (mset (pe_id peer) ref (ro_peers r)) (if bool_decide (pe_metadata peer = []) then mdel (pe_id peer) (ro_meta r)
            else mset (pe_id peer) (pe_metadata peer) (ro_meta r)) r) s1) with (on_room (file_peer peer ref) s1).
  pose proof (roster_filed (rs_heap s1) peer ref (rs_room s1) p1) as HR2.
  destruct (greet_tuned ref peer p1 ice (roster_of (rs_heap s) (rs_room s)) s1) as [Hc3 Ht3];
    [by apply sok_filed|by rewrite Hr1|intros id; apply (rk_meta _ _ Hok1)|done|done|exact Ht1|].
  pose proof (filed_added s1 ref peer p1 (sok_filed _ Hok1) Hp1 Hid1) as Hf2.
  assert (HR : ∀ i, roster_of (rs_heap (on_room (file_peer peer ref) s1)) (rs_room (on_room (file_peer peer ref) s1)) i
    = upd (pe_id peer) (Some (pe_role peer, pe_metadata peer)) (roster_of (rs_heap s) (rs_room s)) i).
  { intros i. cbn [on_room rs_heap rs_room]. rewrite HR2 by done. unfold upd. case_decide; [done|]. apply (calm_roster _ _ Hc1). }
  clear HR2. assert (Hm2 : mwf (ro_meta (rs_room (on_room (file_peer peer ref) s1)))) by (apply file_peer_meta; by rewrite Hr1).
  set (s2 := on_room (file_peer peer ref) s1) in *. clearbody s2. clear Hc1 Hr1 Ht1 Hok1 Hp1 Hid1 Hrole1 Hst.
  assert (HR3 := calm_roster _ _ Hc3). destruct (calm_peers _ _ Hc3) as [Hp3 Hmm3].
  destruct (on_peer ref (send (room_joined (rs_heap s2) peer ice (rs_room s2))) s2) as [s3 threw]. cbn [fst] in *. destruct threw.
  - cbn [fst snd]. intros Htold Hok. destruct (getPeer (pe_id peer) (rs_room s)) as [old|] eqn:Eg; [by destruct (proj1 (Htold ltac:(eauto)))|].
    apply (rollback_in_tune _ (roster_of (rs_heap s) (rs_room s)) s3); [exact Hok|by rewrite Hmm3| | |].
    + intros i Hne. rewrite HR3, HR. unfold upd. by rewrite decide_False.
    + unfold roster_of. by rewrite Eg.
    + revert Ht3. apply tuned_weaken. intros j c _ Hk Hne. by rewrite decide_False in Hk.
  - cbn [fst snd]. intros Htold Hok.
    assert (Hf3 : filed s3). { destruct Hf2 as [H1 H2]. unfold filed. by rewrite Hp3, (cm_ids _ _ Hc3). }
    destruct (announce_tuned now (pe_id peer) (pe_role peer) (pe_metadata peer) (bool_decide (getPeer (pe_id peer) (rs_room s) = None))
      (roster_of (rs_heap s) (rs_room s)) (roster_of (rs_heap s2) (rs_room s2)) s3 Hf3 HR) as [Hc4 Ht4]; [|exact Ht3|].
    { destruct (getPeer (pe_id peer) (rs_room s)) as [old|] eqn:Eg; [|rewrite bool_decide_true by done; unfold roster_of; by rewrite Eg].
      rewrite bool_decide_false by done. destruct (Htold ltac:(eauto)) as [_ Hsame]. split; [|exact Hsame].
      destruct (member_heap s _ old Hsok Eg) as (p & Hpo & _). unfold roster_of. rewrite Eg. cbn. rewrite Hpo. eauto. }
    cbv zeta in Hc4, Ht4. set (s4 := if bool_decide (getPeer _ _ = None) then _ else s3) in *. clearbody s4.
    destruct (calm_peers _ _ Hc4) as [_ Hm4]. destruct (activate_same now ref s4) as (Hp5 & Hm5 & Hh5 & Ho5).
    apply (settled_in_tune (roster_of (rs_heap s2) (rs_room s2)) s4 _ Hok Hp5 Hm5 Hh5 Ho5); [by rewrite Hm4, Hmm3| |exact Ht4].
    intros i. by rewrite (calm_roster _ _ Hc4), HR3.
Qed.

(** ** Everything else a room does *)

Lemma evict_in_tune now id s s' :
  calm s s' → in_tune s → tuned (λ j c, j ≠ id → knows full (roster_of (rs_heap s) (rs_room s)) j c) s' →
  in_tune (removePeer now id s').
Proof.
  intros Hc [Hok Hm _] Ht. apply remove_in_tune; [by eapply calm_sok|by rewrite (proj2 (calm_peers _ _ Hc))|].
  revert Ht. apply tuned_weaken. intros j c _ Hk Hne. specialize (Hk Hne). revert Hk. apply knows_ext.
  intros i. by rewrite (calm_roster _ _ Hc).
Qed.

(** A member that is disconnected and removed, whatever it was sent before. *)
Lemma drop_in_tune now id ref code reason s s' :
  calm s s' → in_tune s → getPeer id (rs_room s) = Some ref →
  tuned (λ j c, j ≠ id → knows full (roster_of (rs_heap s) (rs_room s)) j c) s' →
  in_tune (removePeer now id (on_peer ref (disconnect code reason) s').1) ∧ (on_peer ref (disconnect code reason) s').2 = false.
Proof.
  intros Hc Hs Hg Ht. split; [|apply on_peer_disconnect].
  apply (evict_in_tune now id s); [etransitivity; [exact Hc|apply calm_on_peer, disconnect_faces]|done|].
  revert Ht. apply (disconnect_tuned _ _ id); [apply sok_filed; by eapply calm_sok, Hs| |done].
  unfold getPeer. by rewrite (proj1 (calm_peers _ _ Hc)).
Qed.

Lemma others_tuned id s : in_tune s → tuned (λ j c, j ≠ id → knows full (roster_of (rs_heap s) (rs_room s)) j c) s.
Proof. intros Hs. pose proof (it_tuned _ Hs) as Ht. revert Ht. apply tuned_weaken. intros j c _ Hk _. exact Hk. Qed.

Lemma kick_in_tune now id reason s : in_tune s → in_tune (kickPeer now id reason s).1.
Proof.
  intros Hs. unfold kickPeer. destruct (getPeer id (rs_room s)) as [ref|] eqn:Eg; [|done].
  set (s1 := (on_peer ref (send (SKicked id reason)) s).1).
  assert (Ht1 : tuned (λ j c, j ≠ id → knows full (roster_of (rs_heap s) (rs_room s)) j c) s1).
  { pose proof (others_tuned id s Hs) as Ht. revert Ht.
    apply (send_tuned _ _ id); [apply sok_filed, Hs|done| |done]. intros c _ Hne. done. }
  destruct (drop_in_tune now id ref PolicyViolation (default KickedReason reason) s s1) as [Hi Hd];
    [apply calm_on_peer, send_faces|done|done|done|].
  destruct (on_peer ref (disconnect _ _) s1) as [s2 threw]. cbn [fst snd] in *. subst threw. by apply emit_in_tune.
Qed.

Lemma disconnectAndRemove_in_tune now id code reason s : in_tune s → in_tune (disconnectAndRemove now id code reason s).1.
Proof.
  intros Hs. unfold disconnectAndRemove. destruct (getPeer id (rs_room s)) as [ref|] eqn:Eg; [|done].
  destruct (drop_in_tune now id ref code reason s s) as [Hi Hd]; [reflexivity|done|done|by apply others_tuned|].
  destruct (on_peer ref _ s) as [s2 threw]. cbn [fst snd] in *. by subst threw.
Qed.

Lemma disconnected_in_tune now ref s : in_tune s → in_tune (peer_disconnected now ref s).
Proof.
  intros Hs. unfold peer_disconnected. case_bool_decide; [|done].
  assert (Hs1 : in_tune (on_room (λ r, set_subs (sdel ref (ro_subs r)) r) s)).
  { destruct Hs as [Hok Hm Ht]. by apply (settled_in_tune (roster_of (rs_heap s) (rs_room s)) s); [destruct Hok|..]. }
  destruct (rs_heap s !! ref) as [p|]; [|done]. case_bool_decide; [|done].
  apply remove_in_tune; [apply Hs1|apply Hs1|by apply others_tuned].
Qed.

Lemma relay_in_tune now from to data s : in_tune s → in_tune (relay now from to data s).1.
Proof.
  intros Hs. unfold relay. apply (reset_in_tune now) in Hs. set (s1 := on_room _ s) in *. clearbody s1.
  destruct (getPeer to (rs_room s1)) as [ref|] eqn:Eg; [|done].
  assert (Hs2 : in_tune (on_peer ref (send (SSignal from data)) s1).1).
  { apply (in_tune_calm s1); [apply calm_on_peer, send_faces|done|]. pose proof (it_tuned _ Hs) as Ht. revert Ht.
    apply (send_tuned _ _ to); [apply sok_filed, Hs|done| |done]. intros c. by apply agree_neutral. }
  destruct (on_peer ref _ s1) as [s2 threw]. destruct threw; [by apply emit_in_tune|done].
Qed.

Lemma setRole_in_tune now id role s : in_tune s → in_tune (setPeerRole now id role s).1.
Proof.
  intros [Hok Hm Ht]. unfold setPeerRole. destruct (getPeer id (rs_room s)) as [ref|] eqn:Eg; [|done]. cbn [fst].
  set (s1 := (on_peer ref (λ p, (setRole role p, [], false)) s).1).
  destruct (member_heap s id ref Hok Eg) as (p & Hp & Hid).
  assert (Hs1 : s1 = mkRs (<[ref := setRole role p]> (rs_heap s)) (rs_room s) (rs_out s)).
  { unfold s1. rewrite (on_peer_spec ref _ s p Hp). cbn. by rewrite app_nil_r. }
  assert (Hok1 : sok s1) by (by apply (on_peer_ok ref (λ p, (setRole role p, [], false)))).
  assert (Ht1 : tuned (knows full (roster_of (rs_heap s) (rs_room s))) s1).
  { revert Ht. apply (on_peer_tuned _ _ id); [by apply sok_filed|done|done|done]. }
  set (e := (pe_role p, default [] (Room.getPeerMetadata id (rs_room s)))).
  assert (He : roster_of (rs_heap s) (rs_room s) id = Some e) by (unfold roster_of; rewrite Eg; cbn; by rewrite Hp).
  assert (HR : ∀ i, roster_of (rs_heap s1) (rs_room s1) i = upd id (Some (role, e.2)) (roster_of (rs_heap s) (rs_room s)) i).
  { intros i. rewrite Hs1. unfold roster_of, upd. cbn [rs_heap rs_room]. case_decide as Hi.
    - subst i. rewrite Eg. cbn. rewrite lookup_insert_eq. done.
    - destruct (getPeer i (rs_room s)) as [q|] eqn:Eq; [|done]. cbn. rewrite lookup_insert_ne; [done|].
      intros ->. apply Hi. by apply (member_inj s i id q). }
  assert (Hc : calm s1 (Room.broadcast now (SRoleChanged id role) s1).1) by apply calm_sendToAll.
  constructor; [by eapply calm_sok|rewrite (proj2 (calm_peers _ _ Hc)); by rewrite Hs1|].
  revert Ht1. apply sendToAll_tuned; [by apply sok_filed| |done]. intros j c _ _ (r & -> & Ha).
  unfold read_frame. rewrite server_json_read by done. cbn [received read_message fmap option_fmap option_map]. eexists. split; [reflexivity|].
  apply (agree_role _ _ _ _ id role e He) in Ha. revert Ha. apply agree_ext. intros i. rewrite (calm_roster _ _ Hc). by rewrite HR.
Qed.

Lemma forceClose_in_tune now s : in_tune s → in_tune (_forceClose now s).
Proof.
  intros [Hok Hm Ht]. pose proof (forceClose_ok now s Hok) as Hok'. revert Hok'. unfold _forceClose.
  destruct (bool_decide _ || _); [|done]. set (s1 := on_room _clearTimers (transition Closing s)).
  set (s2 := (Room.broadcast now _ s1).1). set (s3 := expire_loop _ _). intros Hok'.
  destruct (expire_loop_room (getPeers (rs_room s2)) (on_room (set_peers [] []) s2)) as [_ Hr3]. fold s3 in Hr3.
  assert (Hr : ro_peers (rs_room (Room.emit Room.EvClosed (transition Closed s3))) = [] ∧ ro_meta (rs_room (Room.emit Room.EvClosed (transition Closed s3))) = []).
  { cbn [Room.emit rs_room]. destruct (transition_spec Closed s3) as (_ & _ & ->). rewrite Hr3. by case_bool_decide. }
  destruct Hr as [Hp Hme]. apply nobody_in_tune; [exact Hok'|exact Hp|rewrite Hme; apply mwf_nil].
Qed.

Lemma fire_in_tune now timer s : in_tune s → in_tune (fire now timer s).
Proof. intros Hs. unfold fire. destruct (timer _); [|done]. case_decide; [by apply forceClose_in_tune|done]. Qed.

Lemma dispose_in_tune s : in_tune s → in_tune (dispose s).
Proof.
  intros [Hok _ _]. apply nobody_in_tune; [by apply dispose_ok|done|apply mwf_nil].
Qed.

Lemma new_peer_in_tune p s : in_tune s → in_tune (room_step 0 (ONewPeer p) s).
Proof.
  intros Hs. pose proof (room_step_ok 0 (ONewPeer p) s (it_ok _ Hs)) as Hok'. destruct Hs as [Hok Hm Ht].
  assert (Hfr : rs_heap s !! fresh (dom (rs_heap s)) = None) by (apply not_elem_of_dom, is_fresh).
  assert (Hold : ∀ id q, getPeer id (rs_room s) = Some q → q ≠ fresh (dom (rs_heap s))).
  { intros id q Hq ->. destruct (member_heap s id _ Hok Hq) as (p' & Hp' & _). congruence. }
  constructor; [done|done|]. intros id q p' Hq Hp Ho. cbn [room_step rs_heap rs_room rs_out] in *.
  rewrite lookup_insert_ne in Hp by (apply not_eq_sym; by eapply Hold).
  pose proof (Ht id q p' Hq Hp Ho) as Hk. revert Hk. apply knows_ext. intros i. unfold roster_of.
  destruct (getPeer i (rs_room s)) as [q'|] eqn:Eq; [|done]. cbn. rewrite lookup_insert_ne; [done|].
  apply not_eq_sym. by eapply Hold.
Qed.

(** * Runs *)

(** An operation of the room, or a socket that changes by itself. *)
Inductive happening :=
| Happens (now : Z) (op : room_op S)
| Socket (ref : nat) (ws : S).

Definition happen (h : happening) s : state :=
  match h with
  | Happens now op => room_step now op s
  | Socket ref ws => (on_peer ref (λ p, (set_ws ws p, [], false)) s).1
  end.

(** Nobody is left with a stale roster: joins are told, the application broadcasts
    nothing that sounds like the room's own announcements, and sockets do not reopen. *)
Definition told (h : happening) s : Prop :=
  match h with
  | Happens now (OAdd ref ice) => told_join now ref ice s
  | Happens _ (OBroadcast msg _) => server_ok msg ∧ neutral msg = true
  | Happens _ _ => True
  | Socket ref ws => ∀ p, rs_heap s !! ref = Some p → ws_open ws = true → ws_open (pe_ws p) = true
  end.

Fixpoint all_told (l : list happening) s : Prop :=
  match l with
  | [] => True
  | h :: l => told h s ∧ all_told l (happen h s)
  end.

Lemma socket_in_tune ref (ws : S) s :
  (∀ p, rs_heap s !! ref = Some p → ws_open ws = true → ws_open (pe_ws p) = true) → in_tune s →
  in_tune (on_peer ref (λ p, (set_ws ws p, [], false)) s).1.
Proof.
  intros Hws Hs. apply (in_tune_calm s); [by apply calm_on_peer|done|]. pose proof (it_tuned _ Hs) as Ht.
  destruct (rs_heap s !! ref) as [p|] eqn:Hp; [|unfold on_peer; by rewrite Hp].
  destruct (decide (getPeer (pe_id p) (rs_room s) = Some ref)) as [Hg|Hno].
  - revert Ht. apply (on_peer_tuned _ _ (pe_id p)); [apply sok_filed, Hs|done| |done].
    intros q c Hq Ho. split; [|done]. apply Hws; [congruence|done].
  - apply stranger_tuned; [|done]. intros id Hg. destruct (member_heap s id ref (it_ok _ Hs) Hg) as (q & Hq & Hid). congruence.
Qed.

Lemma happen_in_tune h s : told h s → in_tune s → in_tune (happen h s).
Proof.
  destruct h as [now op|ref ws]; [|apply socket_in_tune].
  destruct op as [p|ref ice|ref|id reason|id code reason|from to data|msg ex| |id role| | |]; cbn [told happen room_step]; intros Htold Hs.
  - by apply new_peer_in_tune.
  - by apply add_in_tune.
  - by apply disconnected_in_tune.
  - by apply kick_in_tune.
  - by apply disconnectAndRemove_in_tune.
  - by apply relay_in_tune.
  - destruct Htold. by apply broadcast_in_tune.
  - by apply reset_in_tune.
  - by apply setRole_in_tune.
  - by apply dispose_in_tune.
  - by apply fire_in_tune.
  - by apply fire_in_tune.
Qed.

Lemma happenings_in_tune l s : all_told l s → in_tune s → in_tune (fold_left (λ s h, happen h s) l s).
Proof.
  revert s. induction l as [|h l IH]; intros s; [done|]. intros [Hh Hl] Hs. cbn. apply IH; [done|]. by apply happen_in_tune.
Qed.
End invariant.

(** What an invariant of a run means for a member. *)
Lemma told_roster full now id opts (heap : gmap nat (Peer S)) l :
  let s0 := mkRs heap (Room.newRoom now id opts) [] in
  let s := fold_left (λ s h, happen h s) l s0 in
  all_told full l s0 →
  ∀ me ref p, getPeer me (rs_room s) = Some ref → rs_heap s !! ref = Some p → ws_open (pe_ws p) = true →
  ∃ r, view (before ref) ref (rs_out s) = Some r
  ∧ (∀ i, hasPeer i r = true ↔ i ∈ getPeerIds (rs_room s))
  ∧ (full = true → ∀ i q pq, getPeer i (rs_room s) = Some q → rs_heap s !! q = Some pq →
      (i ≠ me → default [] (getPeerRole i r) = pe_role pq)
      ∧ default [] (ClientRoom.getPeerMetadata i r) = default [] (Room.getPeerMetadata i (rs_room s))).
Proof.
  intros s0 s Hl me ref p Hme Hp Ho.
  assert (Hs0 : in_tune full s0) by (apply nobody_in_tune; [apply room_ok_new|done|apply mwf_nil]).
  pose proof (happenings_in_tune full l s0 Hl Hs0) as Hs. fold s in Hs.
  destruct (it_tuned _ _ Hs me ref p Hme Hp Ho) as (r & Hr & [H1 H2 H3]). exists r. split; [done|]. split.
  - intros i. rewrite H1. unfold getPeerIds, roster_of. rewrite <- mget_is_Some_keys. unfold getPeer.
    destruct (mget i (ro_peers (rs_room s))) as [q|] eqn:Eq; [|split; [by intros []|by intros []]].
    destruct (member_heap s i q (it_ok _ _ Hs) Eq) as (pq & Hpq & _). cbn. rewrite Hpq. split; eauto.
  - intros Hfull i q pq Hq Hpq. apply (H3 i (pe_role pq, default [] (Room.getPeerMetadata i (rs_room s))) Hfull).
    unfold roster_of. rewrite Hq. cbn. by rewrite Hpq.
Qed.
(** C18: The rosters agree.  After any run of a room in which joins are told, every client
    behind an open socket of a member that has read what it was sent holds a room with
    exactly the members of the server's room, whatever room it held before; and if,
    moreover, reconnections keep role and metadata, it has the role of every other
    member and the metadata of all, as the server has them. *)
Theorem roster_agrees full now id opts (heap : gmap nat (Peer S)) l :
  let s0 := mkRs heap (Room.newRoom now id opts) [] in
  let s := fold_left (λ s h, happen h s) l s0 in
  all_told full l s0 →
  ∀ me ref p, getPeer me (rs_room s) = Some ref → rs_heap s !! ref = Some p → ws_open (pe_ws p) = true →
  ∃ r, view (before ref) ref (rs_out s) = Some r
  ∧ (∀ i, hasPeer i r = true ↔ i ∈ getPeerIds (rs_room s))
  ∧ (full = true → ∀ i q pq, getPeer i (rs_room s) = Some q → rs_heap s !! q = Some pq →
      (i ≠ me → default [] (getPeerRole i r) = pe_role pq)
      ∧ default [] (ClientRoom.getPeerMetadata i r) = default [] (Room.getPeerMetadata i (rs_room s))).
Proof. apply told_roster. Qed.
End server.

(** * On concrete runs *)

(** A socket that is open or not. *)
Module plain.
#[export] Instance plain_socket : WebSocket bool := {
  ws_open := λ b, b;
  ws_bufferedAmount := λ _, 0;
  ws_send := λ _ b, (b, false);
  ws_close := λ _ _ _, (false, false);
}.
#[export] Instance plain_laws : WebSocketLaws bool.
Proof. by constructor. Qed.
Lemma plain_send (m : Peer.ServerMessage) (b : bool) : ws_open b = true → (ws_send m b).2 = false.
Proof. done. Qed.

Definition member (id role : jsstr) : Peer bool := newPeer 0 id true (Some role) None None None.
Definition nothing (ref : nat) : option ClientRoom.Room := None.
Definition start : rs (S := bool) := mkRs ∅ (Room.newRoom 0 (js "r") (mkOpts None None None None)) [].
(** a, then b join; b is made host. *)
Definition joined : list (happening (S := bool)) :=
  [Happens 0 (ONewPeer (member (js "a") [])); Happens 0 (OAdd 0 None);
   Happens 1 (ONewPeer (member (js "b") (js "guest"))); Happens 1 (OAdd 1 None);
   Happens 2 (OSetRole (js "b") (js "host"))].
Definition runs (l : list (happening (S := bool))) : rs (S := bool) := fold_left (λ s h, happen h s) l start.
End plain.
Import plain.

(** The concrete runs have no reconnection before the last step. *)
Lemma joined_told full : all_told full joined start.
Proof.
  cbn [joined all_told told]. split; [done|]. split.
  { intros peer Hp Hg. vm_compute in Hp. injection Hp as <-. vm_compute in Hg. by destruct Hg. }
  split; [done|]. split; [|by repeat split].
  intros peer Hp Hg. vm_compute in Hp. injection Hp as <-. vm_compute in Hg. by destruct Hg.
Qed.

Lemma roster_agrees_witness :
  ∃ r, view None 0 (rs_out (runs joined)) = Some r ∧ hasPeer (js "b") r = true
  ∧ default [] (getPeerRole (js "b") r) = js "host".
Proof.
  destruct (roster_agrees plain_send nothing true 0 (js "r") (mkOpts None None None None) ∅ joined (joined_told true)
    (js "a") 0 (member (js "a") [])) as (r & Hr & Hp & He); [vm_compute; reflexivity..|].
  exists r. split; [exact Hr|]. split; [apply Hp; vm_compute; right; left|].
  destruct (He eq_refl (js "b") 1%nat (member (js "b") (js "host"))) as [Hb _]; [vm_compute; reflexivity..|].
  apply Hb. discriminate.
Defined.

(** A member that reconnects comes with the role of its new connection, of which the
    others are not told: b is demoted, and a still takes it for the host. *)
Example reconnect_role_stale :
  let s := runs (joined ++ [Happens 3 (ONewPeer (member (js "b") (js "guest"))); Happens 3 (OAdd 2 None)]) in
  pe_role <$> rs_heap s !! 2%nat = Some (js "guest") ∧ getPeer (js "b") (rs_room s) = Some 2%nat
  ∧ (view None 0 (rs_out s) ≫= getPeerRole (js "b")) = Some (js "host").
Proof. split; [vm_compute; reflexivity|]. split; vm_compute; reflexivity. Qed.

(** The member whose role changes is told, but its local role stays. *)
Example local_role_stale :
  (view None 1 (rs_out (runs joined)) ≫= cr_localPeerRole) = Some (js "guest")
  ∧ (view None 1 (rs_out (runs joined)) ≫= getPeerRole (js "b")) = Some (js "host").
Proof. split; vm_compute; reflexivity. Qed.

(** A client that is given another id on reconnection has it in its roster, but goes on
    calling itself by the old one, which is no peer. *)
Example local_id_stale :
  let j id := mkJoined (Some 1) (js "r") id [] None None None None in
  let r := _refresh (j (js "b")) (newRoom (j (js "a"))) in
  cr_localPeerId r = js "a" ∧ peers r = [js "b"].
Proof. vm_compute. done. Qed.
