(* ===== verification/Client.v ===== *)
(** The client (packages/sdk/src/RTCForgeClient.ts) and the exchange that joins a room
    (JoinHandshake.ts).

    A call of [joinRoom] is a session, with a transport of its own.  The transport is
    behind its interface (Transport.ts): it delivers events in any order, and what the
    client calls on it is part of the client's output.  A joined promise resumes
    [joinRoom] in a later step.  Listeners of the client's events may call [leave] and
    [joinRoom] from within the event. *)

From S2P Require Import Prelude JsMap Json Peer ClientProtocol ClientRoom.

(** * States, events, errors *)

Inductive ConnectionState := Disconnected | Connecting | Connected | Reconnecting.
#[export] Instance ConnectionState_eq_dec : EqDecision ConnectionState.
Proof. solve_decision. Defined.

Definition LEGAL_TRANSITIONS (s : ConnectionState) : list ConnectionState :=
  match s with
  | Disconnected => [Connecting; Reconnecting]
  | Connecting => [Connected; Disconnected; Reconnecting]
  | Connected => [Reconnecting; Disconnected]
  | Reconnecting => [Connected; Disconnected]
  end.

Inductive join_error :=
| AlreadyJoining | AlreadyInRoom | BadUrl | CancelledByLeave | NoRoomJoined
| ServerError (message : jsstr) | ConnectFailed | ConnectionTerminated (code : Z) (reason : jsstr).

Inductive client_event :=
| EvConnected
| EvDisconnected (code : Z) (reason : jsstr)
| EvReconnecting (attempt : Z)
| EvError (message : option jsstr)
| EvTerminated (code : Z) (reason : jsstr).

(** What the client does: events, calls on the transport of a session, and calls of
    [joinRoom] that are refused at once. *)
Inductive client_out :=
| Emits (e : client_event)
| TConnect (k : nat) | TFlush (k : nat) | TClose (k : nat)
| JoinRefused (e : join_error).

(** * The handshake *)

(** [hs_result] is the promise of [run]. *)
Record JoinHandshake := mkHandshake {
  hs_settled : bool;
  hs_timer : bool;
  hs_attached : bool;
  hs_buffer : list ServerMessage;
  hs_result : option (RoomJoinedMessage + join_error);
}.
Implicit Types (h : JoinHandshake).

(** [run], up to [transport.connect()]. *)
Definition hs_run (joinTimeout : bool) : JoinHandshake := mkHandshake false joinTimeout true [] None.

Definition hs_detach h : JoinHandshake := mkHandshake (hs_settled h) (hs_timer h) false (hs_buffer h) (hs_result h).
(** [_settle] with a rejection. *)
Definition hs_settle (e : join_error) h : JoinHandshake :=
  if hs_settled h then h else mkHandshake true false false (hs_buffer h) (Some (inr e)).
(** The message listener. *)
Definition hs_message (msg : ServerMessage) h : JoinHandshake :=
  if hs_settled h then mkHandshake true (hs_timer h) (hs_attached h) (hs_buffer h ++ [msg]) (hs_result h)
  else match msg with
       | RoomJoined j => mkHandshake true false (hs_attached h) (hs_buffer h) (Some (inl j))
       | Error _ message => hs_settle (ServerError message) h
       | _ => h
       end.
Definition hs_timeout h : JoinHandshake :=
  if hs_timer h then hs_settle NoRoomJoined (mkHandshake (hs_settled h) false (hs_attached h) (hs_buffer h) (hs_result h)) else h.
(** [drain] without its handler, and [dispose]. *)
Definition hs_drain h : JoinHandshake := mkHandshake (hs_settled h) (hs_timer h) false [] (hs_result h).
Definition hs_dispose h : JoinHandshake := hs_drain h.
Definition hs_cancel (e : join_error) h : JoinHandshake := hs_settle e h.

(** * The client *)

(** A call of [joinRoom]: whether the client listens to the life cycle of its
    transport, the room its messages go to, and the promise it returned. *)
Record Session := mkSession {
  ss_handshake : JoinHandshake;
  ss_lifecycle : bool;
  ss_steady : option nat;
  ss_outcome : option (nat + join_error);
}.
Implicit Types (z : Session).

Inductive cleanup := OffLifecycle (k : nat) | OffMessage (k : nat).

(** Rooms are objects the application keeps: [rc_rooms] holds all of them, and
    [rc_room] and [rc_control] refer to the current one. *)
Record RTCForgeClient := mkClient {
  rc_transport : option nat;
  rc_room : option nat;
  rc_control : option nat;
  rc_handshake : option nat;
  rc_cleanups : list cleanup;
  rc_state : ConnectionState;
  rc_sessions : list Session;
  rc_rooms : list Room;
  rc_out : list client_out;
}.
Implicit Types (c : RTCForgeClient).

Definition newClient : RTCForgeClient := mkClient None None None None [] Disconnected [] [] [].

Definition set_current (transport room control : option nat) c : RTCForgeClient :=
  mkClient transport room control (rc_handshake c) (rc_cleanups c) (rc_state c) (rc_sessions c) (rc_rooms c) (rc_out c).
Definition set_handshake (x : option nat) c : RTCForgeClient :=
  mkClient (rc_transport c) (rc_room c) (rc_control c) x (rc_cleanups c) (rc_state c) (rc_sessions c) (rc_rooms c) (rc_out c).
Definition set_cleanups (x : list cleanup) c : RTCForgeClient :=
  mkClient (rc_transport c) (rc_room c) (rc_control c) (rc_handshake c) x (rc_state c) (rc_sessions c) (rc_rooms c) (rc_out c).
Definition set_state (x : ConnectionState) c : RTCForgeClient :=
  mkClient (rc_transport c) (rc_room c) (rc_control c) (rc_handshake c) (rc_cleanups c) x (rc_sessions c) (rc_rooms c) (rc_out c).
Definition set_sessions (x : list Session) c : RTCForgeClient :=
  mkClient (rc_transport c) (rc_room c) (rc_control c) (rc_handshake c) (rc_cleanups c) (rc_state c) x (rc_rooms c) (rc_out c).
Definition set_rooms (x : list Room) c : RTCForgeClient :=
  mkClient (rc_transport c) (rc_room c) (rc_control c) (rc_handshake c) (rc_cleanups c) (rc_state c) (rc_sessions c) x (rc_out c).
Definition put (o : client_out) c : RTCForgeClient :=
  mkClient (rc_transport c) (rc_room c) (rc_control c) (rc_handshake c) (rc_cleanups c) (rc_state c) (rc_sessions c) (rc_rooms c) (rc_out c ++ [o]).

Definition on_session (k : nat) (f : Session → Session) c : RTCForgeClient := set_sessions (alter f k (rc_sessions c)) c.
Definition on_room (r : nat) (f : Room → Room) c : RTCForgeClient := set_rooms (alter f r (rc_rooms c)) c.
Definition on_handshake (k : nat) (f : JoinHandshake → JoinHandshake) c : RTCForgeClient :=
  on_session k (λ z, mkSession (f (ss_handshake z)) (ss_lifecycle z) (ss_steady z) (ss_outcome z)) c.
Definition set_lifecycle (x : bool) z : Session := mkSession (ss_handshake z) x (ss_steady z) (ss_outcome z).
Definition set_steady (x : option nat) z : Session := mkSession (ss_handshake z) (ss_lifecycle z) x (ss_outcome z).
(** A promise is settled once. *)
Definition settle (x : nat + join_error) z : Session :=
  match ss_outcome z with
  | Some _ => z
  | None => mkSession (ss_handshake z) (ss_lifecycle z) (ss_steady z) (Some x)
  end.

Definition _setState (next : ConnectionState) c : RTCForgeClient * bool :=
  if decide (rc_state c = next) then (c, true)
  else if decide (next ∈ LEGAL_TRANSITIONS (rc_state c)) then (set_state next c, true)
  else (c, false).

(** [for (const cleanup of this._cleanups) cleanup(); this._cleanups = []]. *)
Definition run_cleanup c (x : cleanup) : RTCForgeClient :=
  match x with
  | OffLifecycle k => on_session k (set_lifecycle false) c
  | OffMessage k => on_session k (set_steady None) c
  end.
Definition run_cleanups c : RTCForgeClient := set_cleanups [] (fold_left run_cleanup (rc_cleanups c) c).

(** [this._handshake?.cancel(e); this._handshake = null]. *)
Definition cancel_handshake (e : join_error) c : RTCForgeClient :=
  set_handshake None (match rc_handshake c with Some k => on_handshake k (hs_cancel e) c | None => c end).
(** [this.control?.close(); this.control = null; this._room = null]. *)
Definition close_room c : RTCForgeClient :=
  set_current (rc_transport c) None None (match rc_control c with Some r => on_room r _close c | None => c end).

Definition leave c : RTCForgeClient :=
  let c1 := run_cleanups (_setState Disconnected (cancel_handshake CancelledByLeave c)).1 in
  let c2 := close_room c1 in
  let c3 := match rc_transport c2 with Some k => put (TClose k) c2 | None => c2 end in
  set_current None (rc_room c3) (rc_control c3) c3.

Section client.
(** [build_ok roomId]: [buildUrl] and the transport factory do not throw;
    [joinTimeout]: [joinTimeoutMs > 0]. *)
Context (build_ok : jsstr → bool) (joinTimeout : bool).

(** [joinRoom] up to its [await]. *)
Definition joinRoom (roomId : jsstr) c : RTCForgeClient :=
  if decide (rc_state c = Connecting) then put (JoinRefused AlreadyJoining) c
  else if rc_transport c is Some _ then put (JoinRefused AlreadyInRoom) c
  else
    let c1 := (_setState Connecting c).1 in
    if build_ok roomId then
      let k := length (rc_sessions c1) in
      let c2 := set_current (Some k) (rc_room c1) (rc_control c1) c1 in
      let c3 := set_sessions (rc_sessions c2 ++ [mkSession (hs_run joinTimeout) true None None]) c2 in
      put (TConnect k) (set_handshake (Some k) (set_cleanups (rc_cleanups c3 ++ [OffLifecycle k]) c3))
    else put (JoinRefused BadUrl) c1.

(** ** Events of the client *)

Inductive app_call := CallLeave | CallJoin (roomId : jsstr).
(** What the application's listeners call at the last of the outputs so far. *)
Context (reacts : list client_out → list app_call).

Definition app_do c (a : app_call) : RTCForgeClient :=
  match a with CallLeave => leave c | CallJoin roomId => joinRoom roomId c end.
Definition emit (e : client_event) c : RTCForgeClient :=
  let c1 := put (Emits e) c in fold_left app_do (reacts (rc_out c1)) c1.

(** ** The steady state *)

(** The listener of [_attachSteadyState]. *)
Definition steady_message (k r : nat) c (msg : ServerMessage) : RTCForgeClient :=
  match msg with
  | RoomJoined j =>
      let '(c1, ok) := _setState Connected c in
      if ok : bool then emit EvConnected (put (TFlush k) (on_room r (_refresh j) c1)) else c1
  | Error _ message => emit (EvError (Some message)) c
  | _ => on_room r (_handleMessage msg) c
  end.

(** ** [joinRoom] after its [await] *)

(** The handshake succeeded, and the transport is still this session's. *)
Definition joined (k : nat) (j : RoomJoinedMessage) (buffered : list ServerMessage) c : RTCForgeClient :=
  let c1 := (_setState Connected c).1 in
  let r := length (rc_rooms c1) in
  let c2 := set_current (rc_transport c1) (Some r) (Some r) (set_rooms (rc_rooms c1 ++ [newRoom j]) c1) in
  let c3 := set_cleanups (rc_cleanups c2 ++ [OffMessage k]) (on_session k (set_steady (Some r)) c2) in
  let c4 := fold_left (steady_message k r) buffered (on_handshake k hs_drain c3) in
  let c5 := emit EvConnected (put (TFlush k) (set_handshake None c4)) in
  on_session k (settle (inl r)) c5.

(** The [catch] of [joinRoom]. *)
Definition join_failed (k : nat) (e : join_error) c : RTCForgeClient :=
  let c1 := put (TClose k) (on_handshake k hs_dispose c) in
  let c2 :=
    if decide (rc_transport c1 = Some k) then
      let c' := run_cleanups (_setState Disconnected (set_handshake None c1)).1 in
      set_current None (rc_room c') (rc_control c') c'
    else c1 in
  on_session k (settle (inr e)) c2.

Definition resume (k : nat) c : RTCForgeClient :=
  match rc_sessions c !! k with
  | Some z =>
      match ss_outcome z, hs_result (ss_handshake z) with
      | None, Some (inl j) =>
          if decide (rc_transport c = Some k) then joined k j (hs_buffer (ss_handshake z)) c
          else
            let c1 := set_handshake None (on_handshake k hs_dispose c) in
            join_failed k CancelledByLeave (put (TClose k) c1)
      | None, Some (inr e) => join_failed k e c
      | _, _ => c
      end
  | None => c
  end.

(** ** Events of a transport *)

Definition t_message (k : nat) (msg : ServerMessage) c : RTCForgeClient :=
  match rc_sessions c !! k with
  | Some z =>
      let c1 := if hs_attached (ss_handshake z) then on_handshake k (hs_message msg) c else c in
      match ss_steady z with Some r => steady_message k r c1 msg | None => c1 end
  | None => c
  end.

Definition lifecycle (k : nat) (f : RTCForgeClient → RTCForgeClient) c : RTCForgeClient :=
  match rc_sessions c !! k with Some z => if ss_lifecycle z then f c else c | None => c end.

Definition onClose (code : Z) (reason : jsstr) c : RTCForgeClient :=
  emit (EvDisconnected code reason) (_setState Disconnected c).1.
Definition onReconnecting (attempt : Z) c : RTCForgeClient :=
  emit (EvReconnecting attempt) (_setState Reconnecting c).1.
Definition onError c : RTCForgeClient := emit (EvError None) c.
Definition onTerminated (code : Z) (reason : jsstr) c : RTCForgeClient :=
  let c1 := close_room (run_cleanups (cancel_handshake (ConnectionTerminated code reason) c)) in
  let c2 := set_current None (rc_room c1) (rc_control c1) c1 in
  emit (EvTerminated code reason) (_setState Disconnected c2).1.

(** * Runs *)

Inductive action :=
| Calls (a : app_call)
| Resume (k : nat)
| TMessage (k : nat) (msg : ServerMessage)
| TClosed (k : nat) (code : Z) (reason : jsstr)
| TReconnecting (k : nat) (attempt : Z)
| TError (k : nat)
| TTerminated (k : nat) (code : Z) (reason : jsstr)
| ConnectRejected (k : nat)
| JoinTimer (k : nat).

Definition act (a : action) c : RTCForgeClient :=
  match a with
  | Calls x => app_do c x
  | Resume k => resume k c
  | TMessage k msg => t_message k msg c
  | TClosed k code reason => lifecycle k (onClose code reason) c
  | TReconnecting k attempt => lifecycle k (onReconnecting attempt) c
  | TError k => lifecycle k onError c
  | TTerminated k code reason => lifecycle k (onTerminated code reason) c
  | ConnectRejected k => on_handshake k (hs_settle ConnectFailed) c
  | JoinTimer k => on_handshake k hs_timeout c
  end.
Definition run (l : list action) c : RTCForgeClient := fold_left (λ c a, act a c) l c.
End client.
