(* ===== verification/ClientTheorems.v ===== *)
(** The client: what it listens to and holds at any time, the hand-over of messages from
    the handshake to the room, and the promises of [joinRoom]. *)

From S2P Require Import Prelude JsMap Json Peer ClientProtocol ClientRoom Client.

Section theorems.
Context (build_ok : jsstr → bool) (joinTimeout : bool) (reacts : list client_out → list app_call).
Abbreviation joinRoom := (joinRoom build_ok joinTimeout).
Abbreviation app_do := (app_do build_ok joinTimeout).
Abbreviation emit := (emit build_ok joinTimeout reacts).
Abbreviation steady_message := (steady_message build_ok joinTimeout reacts).
Abbreviation joined := (joined build_ok joinTimeout reacts).
Abbreviation resume := (resume build_ok joinTimeout reacts).
Abbreviation act := (act build_ok joinTimeout reacts).
Abbreviation run := (run build_ok joinTimeout reacts).
Implicit Types (c : RTCForgeClient) (z : Session) (h : JoinHandshake).

(** * Sessions only move forward *)

(** A handshake is settled with a result, and times out as long as it is not. *)
Definition hs_ok h : Prop := (hs_settled h = true ↔ is_Some (hs_result h)) ∧ (hs_settled h = false → hs_timer h = joinTimeout).

(** What a step may do to a session: results and promises are final. *)
Record forward z z' : Prop := {
  fw_result x : hs_result (ss_handshake z) = Some x → hs_result (ss_handshake z') = Some x;
  fw_outcome x : ss_outcome z = Some x → ss_outcome z' = Some x;
}.
#[local] Instance forward_refl : Reflexive forward.
Proof. constructor; done. Qed.
#[local] Instance forward_trans : Transitive forward.
Proof. intros z1 z2 z3 [] []. constructor; auto. Qed.

Record moves c c' : Prop := {
  mv_fwd k z : rc_sessions c !! k = Some z → ∃ z', rc_sessions c' !! k = Some z' ∧ forward z z';
  mv_ok : (∀ k z, rc_sessions c !! k = Some z → hs_ok (ss_handshake z)) → ∀ k z, rc_sessions c' !! k = Some z → hs_ok (ss_handshake z);
}.
#[local] Instance moves_refl : Reflexive moves.
Proof. constructor; [|done]. intros k z Hk. exists z. split; [done|reflexivity]. Qed.
#[local] Instance moves_trans : Transitive moves.
Proof.
  intros c1 c2 c3 [F1 O1] [F2 O2]. constructor; [|by intros Hok; apply O2, O1]. intros k z Hk. destruct (F1 k z Hk) as (z2 & H2 & Hf).
  destruct (F2 k z2 H2) as (z3 & H3 & Hf'). exists z3. split; [done|by etransitivity].
Qed.

Lemma moves_same c c' : rc_sessions c' = rc_sessions c → moves c c'.
Proof. intros Hs. constructor; rewrite Hs; [|done]. intros k z Hk. exists z. split; [done|reflexivity]. Qed.

Lemma moves_session k f c :
  (∀ z, hs_ok (ss_handshake z) → forward z (f z) ∧ hs_ok (ss_handshake (f z))) →
  (∀ i z, rc_sessions c !! i = Some z → hs_ok (ss_handshake z)) → moves c (on_session k f c).
Proof.
  intros Hf Hok. constructor.
  - intros i z Hi. cbn. destruct (decide (i = k)) as [->|Hne].
    + rewrite list_lookup_alter_eq, Hi. exists (f z). split; [done|]. by apply Hf, (Hok k).
    + rewrite list_lookup_alter_ne by done. exists z. split; [done|reflexivity].
  - intros _ i z. cbn. destruct (decide (i = k)) as [->|Hne].
    + rewrite list_lookup_alter_eq. intros (z0 & Hz & ->)%fmap_Some. by apply Hf, (Hok k).
    + rewrite list_lookup_alter_ne by done. apply Hok.
Qed.

Definition sessions_ok c : Prop := ∀ k z, rc_sessions c !! k = Some z → hs_ok (ss_handshake z).
(** A step of a client whose handshakes are well formed. *)
Definition steps c c' : Prop := sessions_ok c → moves c c'.
#[local] Instance steps_refl : Reflexive steps.
Proof. intros c _. reflexivity. Qed.
#[local] Instance steps_trans : Transitive steps.
Proof. intros c1 c2 c3 H1 H2 Hok. etransitivity; [by apply H1|]. apply H2. exact (mv_ok _ _ (H1 Hok) Hok). Qed.

Lemma steps_same c c' : rc_sessions c' = rc_sessions c → steps c c'.
Proof. intros Hs _. by apply moves_same. Qed.
Lemma steps_session k f c : (∀ z, hs_ok (ss_handshake z) → forward z (f z) ∧ hs_ok (ss_handshake (f z))) → steps c (on_session k f c).
Proof. intros Hf Hok. by apply moves_session. Qed.

Lemma hs_settle_ok e h : hs_ok h → (∀ x, hs_result h = Some x → hs_result (hs_settle e h) = Some x) ∧ hs_ok (hs_settle e h).
Proof.
  intros [H1 H2]. unfold hs_settle. destruct (hs_settled h) eqn:E; [split; [done|by split; rewrite E]|].
  split; [|by split; [split; eauto|]]. intros x Hx. cbn. rewrite Hx in H1. destruct H1 as [_ H1]. discriminate H1. eauto.
Qed.

Lemma hs_message_ok msg h : hs_ok h → (∀ x, hs_result h = Some x → hs_result (hs_message msg h) = Some x) ∧ hs_ok (hs_message msg h).
Proof.
  intros Hok. unfold hs_message. destruct (hs_settled h) eqn:E.
  - split; [done|]. destruct Hok as [H1 H2]. rewrite E in H1. by split.
  - destruct msg; try (split; done); [|by apply hs_settle_ok]. destruct Hok as [[H0 H1] H2].
    split; [|by split; [split; eauto|]]. intros x Hx. rewrite E in H1. discriminate H1. eauto.
Qed.

Lemma hs_timeout_ok h : hs_ok h → (∀ x, hs_result h = Some x → hs_result (hs_timeout h) = Some x) ∧ hs_ok (hs_timeout h).
Proof.
  intros Hok. unfold hs_timeout. destruct (hs_timer h); [|done]. destruct Hok as [[H0 H1] H2]. unfold hs_settle. cbn.
  destruct (hs_settled h) eqn:E; cbn.
  - split; [done|]. split; cbn; [|done]. split; [by auto|done].
  - split; [|by split; [split; eauto|]]. intros x Hx. rewrite Hx in H1. discriminate H1. eauto.
Qed.

Lemma steps_handshake k f c :
  (∀ h, hs_ok h → (∀ x, hs_result h = Some x → hs_result (f h) = Some x) ∧ hs_ok (f h)) → steps c (on_handshake k f c).
Proof. intros Hf. apply steps_session. intros z Hz. destruct (Hf _ Hz). split; [constructor; done|done]. Qed.

Lemma hs_drain_ok h : hs_ok h → (∀ x, hs_result h = Some x → hs_result (hs_drain h) = Some x) ∧ hs_ok (hs_drain h).
Proof. by intros [H1 H2]. Qed.

Lemma steps_setState next c : steps c (_setState next c).1.
Proof. apply steps_same. unfold _setState. by repeat case_decide. Qed.
Lemma steps_put o c : steps c (put o c).
Proof. by apply steps_same. Qed.
Lemma steps_set_handshake x c : steps c (set_handshake x c).
Proof. by apply steps_same. Qed.
Lemma steps_set_current a b d c : steps c (set_current a b d c).
Proof. by apply steps_same. Qed.
Lemma steps_set_cleanups x c : steps c (set_cleanups x c).
Proof. by apply steps_same. Qed.
Lemma steps_on_room r f c : steps c (on_room r f c).
Proof. by apply steps_same. Qed.

Lemma steps_fold {A} (f : RTCForgeClient → A → RTCForgeClient) l c : (∀ c x, steps c (f c x)) → steps c (fold_left f l c).
Proof.
  intros Hf. revert c. induction l as [|x l IH]; intros c; [reflexivity|]. etransitivity; [apply Hf|apply IH].
Qed.

Lemma steps_run_cleanups c : steps c (run_cleanups c).
Proof.
  unfold run_cleanups. etransitivity; [|apply steps_set_cleanups]. apply steps_fold. intros c' [k|k]; apply steps_session; intros z Hz;
    (split; [by constructor|done]).
Qed.

Lemma steps_cancel e c : steps c (cancel_handshake e c).
Proof.
  unfold cancel_handshake. etransitivity; [|apply steps_set_handshake]. destruct (rc_handshake c); [|reflexivity].
  apply steps_handshake. intros h. apply hs_settle_ok.
Qed.

Lemma steps_close_room c : steps c (close_room c).
Proof. unfold close_room. destruct (rc_control c); [|apply steps_set_current]. by apply steps_same. Qed.

Lemma steps_leave c : steps c (leave c).
Proof.
  unfold leave. etransitivity; [|apply steps_set_current]. set (c2 := close_room _).
  assert (H2 : steps c c2).
  { etransitivity; [apply steps_cancel|]. etransitivity; [apply steps_setState|]. etransitivity; [apply steps_run_cleanups|apply steps_close_room]. }
  destruct (rc_transport c2); [etransitivity; [exact H2|apply steps_put]|exact H2].
Qed.

Lemma steps_joinRoom roomId c : steps c (joinRoom roomId c).
Proof.
  unfold Client.joinRoom. case_decide; [apply steps_put|]. destruct (rc_transport c); [apply steps_put|].
  etransitivity; [apply (steps_setState Connecting)|]. set (c1 := (_setState Connecting c).1). destruct (build_ok roomId); [|apply steps_put].
  intros Hok. constructor; cbn.
  - intros k z Hk. exists z. split; [by apply lookup_app_l_Some|reflexivity].
  - intros _ k z. intros [Hk|[Hk [_ <-]%list_lookup_singleton_Some]]%lookup_app_Some; [by apply (Hok k)|]. split; [|done]. split; [done|by intros []].
Qed.

Lemma steps_emit e c : steps c (emit e c).
Proof.
  unfold Client.emit. etransitivity; [apply steps_put|]. apply steps_fold. intros c' [|roomId]; [apply steps_leave|apply steps_joinRoom].
Qed.

Lemma steps_settle k x c : steps c (on_session k (settle x) c).
Proof.
  apply steps_session. intros z Hz. unfold settle. destruct (ss_outcome z) eqn:E; [split; [reflexivity|done]|].
  split; [|done]. constructor; [done|]. intros y Hy. congruence.
Qed.

Lemma steps_steady k r msg c : steps c (steady_message k r c msg).
Proof.
  destruct msg; cbn [Client.steady_message]; try apply steps_on_room; [|apply steps_emit].
  pose proof (steps_setState Connected c) as Hs. destruct (_setState Connected c) as [c1 ok]. cbn [fst] in Hs.
  destruct ok; [|done]. etransitivity; [exact Hs|]. etransitivity; [apply steps_on_room|]. etransitivity; [apply steps_put|apply steps_emit].
Qed.

Lemma steps_joined k j buffered c : steps c (joined k j buffered c).
Proof.
  unfold Client.joined. etransitivity; [|apply steps_settle]. etransitivity; [|apply steps_emit]. etransitivity; [|apply steps_put].
  etransitivity; [|apply steps_set_handshake]. etransitivity; [|apply steps_fold; intros; apply steps_steady].
  etransitivity; [|apply steps_handshake, hs_drain_ok]. etransitivity; [|apply steps_set_cleanups].
  etransitivity; [|apply steps_session; intros z Hz; by split; [constructor|]]. etransitivity; [|apply steps_set_current].
  etransitivity; [apply steps_setState|]. by apply steps_same.
Qed.

Lemma steps_failed k e c : steps c (join_failed k e c).
Proof.
  unfold join_failed. etransitivity; [|apply steps_settle]. set (c1 := put _ _).
  assert (H1 : steps c c1) by (etransitivity; [apply steps_handshake, hs_drain_ok|apply steps_put]).
  case_decide; [|exact H1]. etransitivity; [exact H1|]. etransitivity; [|apply steps_set_current].
  etransitivity; [apply (steps_set_handshake None)|]. etransitivity; [apply steps_setState|apply steps_run_cleanups].
Qed.

Lemma steps_resume k c : steps c (resume k c).
Proof.
  unfold Client.resume. destruct (rc_sessions c !! k) as [z|]; [|reflexivity].
  destruct (ss_outcome z), (hs_result (ss_handshake z)) as [[j|e]|]; try reflexivity; [|apply steps_failed].
  case_decide; [apply steps_joined|]. etransitivity; [|apply steps_failed]. etransitivity; [|apply steps_put].
  etransitivity; [apply steps_handshake, hs_drain_ok|apply steps_set_handshake].
Qed.

Lemma steps_lifecycle k f c : (∀ c, steps c (f c)) → steps c (lifecycle k f c).
Proof. intros Hf. unfold lifecycle. destruct (rc_sessions c !! k) as [z|]; [|reflexivity]. destruct (ss_lifecycle z); [apply Hf|reflexivity]. Qed.

Lemma steps_act a c : steps c (act a c).
Proof.
  destruct a as [[|roomId]|k|k msg|k code reason|k attempt|k|k code reason|k|k]; cbn [Client.act].
  - apply steps_leave.
  - apply steps_joinRoom.
  - apply steps_resume.
  - unfold t_message. destruct (rc_sessions c !! k) as [z|]; [|reflexivity]. set (c1 := if hs_attached (ss_handshake z) then _ else c).
    assert (H1 : steps c c1) by (unfold c1; destruct (hs_attached _); [apply steps_handshake; intros; by apply hs_message_ok|reflexivity]).
    destruct (ss_steady z); [|exact H1]. etransitivity; [exact H1|apply steps_steady].
  - apply steps_lifecycle. intros c'. etransitivity; [apply steps_setState|apply steps_emit].
  - apply steps_lifecycle. intros c'. etransitivity; [apply steps_setState|apply steps_emit].
  - apply steps_lifecycle. intros c'. apply steps_emit.
  - apply steps_lifecycle. intros c'. unfold onTerminated. etransitivity; [|apply steps_emit]. etransitivity; [|apply steps_setState].
    etransitivity; [|apply steps_set_current]. etransitivity; [|apply steps_close_room]. etransitivity; [apply steps_cancel|apply steps_run_cleanups].
  - apply steps_handshake. intros h. apply hs_settle_ok.
  - apply steps_handshake. intros h. apply hs_timeout_ok.
Qed.

Lemma steps_run l c : steps c (run l c).
Proof. unfold Client.run. apply steps_fold. intros c' a. apply steps_act. Qed.

Lemma new_sessions_ok : sessions_ok newClient.
Proof. by intros k z. Qed.

(** * What the client listens to *)

(** The listeners of the sessions: life cycle, and messages of a joined room. *)
Definition ears c : list (bool * option nat) := (λ z, (ss_lifecycle z, ss_steady z)) <$> rc_sessions c.

Lemma ears_lookup c k z : rc_sessions c !! k = Some z → ears c !! k = Some (ss_lifecycle z, ss_steady z).
Proof. intros Hk. unfold ears. by rewrite list_lookup_fmap, Hk. Qed.
Lemma ears_inv c k e : ears c !! k = Some e → ∃ z, rc_sessions c !! k = Some z ∧ e = (ss_lifecycle z, ss_steady z).
Proof. unfold ears. rewrite list_lookup_fmap. intros (z & Hz & ->)%fmap_Some. eauto. Qed.

(** What the client would undo for the session [k] with the room [room]. *)
Definition undo (k : nat) (room : option nat) : list cleanup :=
  OffLifecycle k :: match room with Some _ => [OffMessage k] | None => [] end.

(** The client listens to its current transport only, to the messages once it has a
    room; without a transport it is disconnected and holds nothing. *)
Record client_ok c : Prop := {
  ck_sessions : sessions_ok c;
  ck_none : rc_transport c = None → rc_room c = None ∧ rc_handshake c = None ∧ rc_cleanups c = [] ∧ rc_state c = Disconnected;
  ck_control : rc_control c = rc_room c;
  ck_some k : rc_transport c = Some k → ears c !! k = Some (true, rc_room c) ∧ rc_cleanups c = undo k (rc_room c);
  ck_other k e : ears c !! k = Some e → rc_transport c ≠ Some k → e = (false, None);
  ck_handshake k : rc_handshake c = Some k → rc_transport c = Some k;
  ck_room r : rc_room c = Some r → (r < length (rc_rooms c))%nat;
  ck_result k z : rc_transport c = Some k → rc_sessions c !! k = Some z → rc_room c ≠ None → ∃ j, hs_result (ss_handshake z) = Some (inl j);
}.

(** Steps that leave the current session, its room and its listeners. *)
Record still c c' : Prop := {
  sl_transport : rc_transport c' = rc_transport c;
  sl_room : rc_room c' = rc_room c;
  sl_control : rc_control c' = rc_control c;
  sl_handshake : rc_handshake c' = rc_handshake c ∨ rc_handshake c' = None;
  sl_cleanups : rc_cleanups c' = rc_cleanups c;
  sl_state : rc_transport c = None → rc_state c' = rc_state c;
  sl_rooms : (length (rc_rooms c) ≤ length (rc_rooms c'))%nat;
  sl_ears : ears c' = ears c;
}.

Lemma still_ok c c' : still c c' → steps c c' → client_ok c → client_ok c'.
Proof.
  intros [St Sr Sc Sh Su Sst Sl Se] Hs [K1 K2 K3 K4 K5 K6 K7 K8]. pose proof (Hs K1) as [Hf Ho].
  constructor; rewrite ?St, ?Sr, ?Sc, ?Su, ?Se; try done.
  - exact (Ho K1).
  - intros Hn. destruct (K2 Hn) as (? & H2 & ? & ?). rewrite Sst by done. split; [done|]. split; [|done]. by destruct Sh as [->|].
  - intros k Hk. destruct Sh as [Sh|Sh]; rewrite Sh in Hk; [by apply K6|done].
  - intros r Hr. specialize (K7 r Hr). lia.
  - intros k z' Hk Hz' Hr. destruct (K4 k Hk) as [He _]. apply ears_inv in He as (z & Hz & _).
    destruct (Hf k z Hz) as (z2 & Hz2 & Hfw). simplify_eq. destruct (K8 k z Hk Hz Hr) as [j Hj]. exists j. by apply (fw_result _ _ Hfw).
Qed.

Lemma ears_on_handshake k f c : ears (on_handshake k f c) = ears c.
Proof.
  unfold ears, on_handshake, on_session. cbn. apply list_eq. intros i. rewrite !list_lookup_fmap.
  destruct (decide (i = k)) as [->|Hne]; [rewrite list_lookup_alter_eq|by rewrite list_lookup_alter_ne].
  by destruct (rc_sessions c !! k).
Qed.

Lemma ears_settle k x c : ears (on_session k (settle x) c) = ears c.
Proof.
  unfold ears, on_session. cbn. apply list_eq. intros i. rewrite !list_lookup_fmap.
  destruct (decide (i = k)) as [->|Hne]; [rewrite list_lookup_alter_eq|by rewrite list_lookup_alter_ne].
  destruct (rc_sessions c !! k) as [z|]; [|done]. cbn. unfold settle. by destruct (ss_outcome z).
Qed.

Lemma still_handshake k f c : still c (on_handshake k f c).
Proof. constructor; try done; [by left|apply ears_on_handshake]. Qed.
Lemma still_settle k x c : still c (on_session k (settle x) c).
Proof. constructor; try done; [by left|apply ears_settle]. Qed.
Lemma still_put o c : still c (put o c).
Proof. constructor; try done. by left. Qed.
Lemma still_on_room r f c : still c (on_room r f c).
Proof. constructor; try done; [by left|]. cbn. by rewrite length_alter. Qed.
Lemma still_forget c : still c (set_handshake None c).
Proof. constructor; try done. by right. Qed.
Lemma still_setState next c : rc_transport c ≠ None → still c (_setState next c).1.
Proof.
  intros Hn. unfold _setState. repeat case_decide; constructor; try done; by left.
Qed.
#[local] Instance still_refl : Reflexive still.
Proof. constructor; try done. by left. Qed.
#[local] Instance still_trans : Transitive still.
Proof.
  intros c1 c2 c3 [] []. constructor; try congruence; try lia.
  - destruct sl_handshake0, sl_handshake1; [left; congruence|by right|right; congruence|by right].
  - intros Hn. rewrite sl_state1 by congruence. auto.
Qed.

(** Undoing silences the client. *)
Lemma cleanups_silent c :
  client_ok c → ∀ c', rc_cleanups c' = rc_cleanups c → ears c' = ears c → ∀ k e, ears (run_cleanups c') !! k = Some e → e = (false, None).
Proof.
  intros Hok c' Hc He k e. unfold run_cleanups. change (ears (set_cleanups [] ?x)) with (ears x). rewrite Hc.
  assert (Hear : ∀ i f d, ears (on_session i f d) !! k = if decide (k = i) then (λ z, (ss_lifecycle (f z), ss_steady (f z))) <$> rc_sessions d !! k else ears d !! k).
  { intros i f d. unfold ears, on_session. cbn. rewrite !list_lookup_fmap. case_decide as Hk.
    - subst i. rewrite list_lookup_alter_eq. by destruct (rc_sessions d !! k).
    - by rewrite list_lookup_alter_ne. }
  destruct (rc_transport c) as [i|] eqn:Et.
  2: { destruct (ck_none _ Hok Et) as (_ & _ & -> & _). cbn. rewrite He. intros Hk. apply (ck_other _ Hok k); [done|congruence]. }
  destruct (ck_some _ Hok i Et) as [Hi ->]. unfold undo. destruct (decide (k = i)) as [->|Hne].
  - rewrite <- He in Hi. apply ears_inv in Hi as (z & Hz & Hzr). injection Hzr as Hzl Hzs.
    destruct (rc_room c) as [r|]; cbn [fold_left run_cleanup]; rewrite Hear, decide_True by done.
    + cbn. rewrite list_lookup_alter_eq, Hz. cbn. by intros [= <-].
    + rewrite Hz. cbn. rewrite <- Hzs. by intros [= <-].
  - intros Hk. apply (ck_other _ Hok k); [|congruence]. rewrite <- He.
    destruct (rc_room c) as [r|]; cbn [fold_left run_cleanup] in Hk; by rewrite !Hear, !decide_False in Hk by done.
Qed.

(** A client that listens to nothing and holds nothing. *)
Lemma idle_ok c :
  sessions_ok c → rc_transport c = None → rc_room c = None → rc_control c = None → rc_handshake c = None → rc_cleanups c = [] →
  rc_state c = Disconnected → (∀ k e, ears c !! k = Some e → e = (false, None)) → client_ok c.
Proof.
  intros K1 H1 H2 H3 H4 H5 H6 H7. constructor; rewrite ?H1, ?H2, ?H3, ?H4; try done. by intros k e He _; apply (H7 k).
Qed.

Lemma setState_disconnected c : rc_state (_setState Disconnected c).1 = Disconnected.
Proof.
  unfold _setState. case_decide as Hs; [done|]. case_decide as Hl; [done|]. exfalso. apply Hl.
  destruct (rc_state c); [done|..]; cbn; set_solver.
Qed.

(** What [run_cleanups] and [close_room] leave alone. *)
Lemma run_cleanups_fields c :
  let c' := run_cleanups c in
  rc_transport c' = rc_transport c ∧ rc_room c' = rc_room c ∧ rc_control c' = rc_control c ∧ rc_handshake c' = rc_handshake c
  ∧ rc_state c' = rc_state c ∧ rc_rooms c' = rc_rooms c ∧ rc_out c' = rc_out c ∧ rc_cleanups c' = [].
Proof.
  cbn. generalize (rc_cleanups c) as l. intros l. revert c. induction l as [|x l IH]; intros c; [done|]. cbn [fold_left].
  destruct (IH (run_cleanup c x)) as (-> & -> & -> & -> & -> & -> & -> & _). by destruct x.
Qed.

Lemma close_room_fields c :
  let c' := close_room c in
  rc_transport c' = rc_transport c ∧ rc_room c' = None ∧ rc_control c' = None ∧ rc_handshake c' = rc_handshake c
  ∧ rc_state c' = rc_state c ∧ rc_cleanups c' = rc_cleanups c ∧ ears c' = ears c ∧ rc_out c' = rc_out c.
Proof. unfold close_room. by destruct (rc_control c). Qed.

Lemma cancel_fields e c :
  let c' := cancel_handshake e c in
  rc_transport c' = rc_transport c ∧ rc_room c' = rc_room c ∧ rc_control c' = rc_control c ∧ rc_handshake c' = None
  ∧ rc_state c' = rc_state c ∧ rc_cleanups c' = rc_cleanups c ∧ ears c' = ears c.
Proof.
  unfold cancel_handshake. destruct (rc_handshake c) as [k|]; [|done]. repeat (split; [done|]). apply (ears_on_handshake k).
Qed.

Lemma setState_fields next c :
  let c' := (_setState next c).1 in
  rc_transport c' = rc_transport c ∧ rc_room c' = rc_room c ∧ rc_control c' = rc_control c ∧ rc_handshake c' = rc_handshake c
  ∧ rc_cleanups c' = rc_cleanups c ∧ rc_sessions c' = rc_sessions c ∧ rc_rooms c' = rc_rooms c ∧ rc_out c' = rc_out c.
Proof. unfold _setState. by repeat case_decide. Qed.

(** The client is idle after [leave]. *)
Lemma leave_ok c : client_ok c → client_ok (leave c) ∧ rc_transport (leave c) = None.
Proof.
  intros Hok. split; [|done]. pose proof (mv_ok _ _ (steps_leave c (ck_sessions _ Hok)) (ck_sessions _ Hok)) as Hs.
  revert Hs. unfold leave. set (c0 := cancel_handshake _ c). set (c1 := run_cleanups _). set (c2 := close_room c1).
  set (c3 := match rc_transport c2 with Some k => put (TClose k) c2 | None => c2 end). intros Hs.
  destruct (cancel_fields CancelledByLeave c) as (_ & _ & _ & F0h & _ & F0u & F0e). fold c0 in F0h, F0u, F0e.
  destruct (setState_fields Disconnected c0) as (_ & _ & _ & Fsh & Fsu & Fss & _).
  destruct (run_cleanups_fields (_setState Disconnected c0).1) as (_ & _ & _ & F1h & F1s & _ & _ & F1u). fold c1 in F1h, F1s, F1u.
  destruct (close_room_fields c1) as (_ & F2r & F2c & F2h & F2s & F2u & F2e & _). fold c2 in F2r, F2c, F2h, F2s, F2u, F2e.
  assert (F3 : rc_room c3 = rc_room c2 ∧ rc_control c3 = rc_control c2 ∧ rc_handshake c3 = rc_handshake c2 ∧ rc_cleanups c3 = rc_cleanups c2
    ∧ rc_state c3 = rc_state c2 ∧ ears c3 = ears c2) by (unfold c3; by destruct (rc_transport c2)).
  destruct F3 as (F3r & F3c & F3h & F3u & F3s & F3e).
  apply idle_ok; [exact Hs|done|cbn; congruence|cbn; congruence|cbn; congruence|cbn; congruence| |].
  - cbn. rewrite F3s, F2s, F1s. apply setState_disconnected.
  - intros k e. change (ears (set_current None (rc_room c3) (rc_control c3) c3)) with (ears c3). rewrite F3e, F2e. unfold c1.
    apply (cleanups_silent c Hok); [congruence|]. unfold ears at 1. rewrite Fss. exact F0e.
Qed.

Context (build_total : ∀ roomId, build_ok roomId = true).

Lemma joinRoom_ok roomId c : client_ok c → client_ok (joinRoom roomId c).
Proof.
  intros Hok. pose proof (mv_ok _ _ (steps_joinRoom roomId c (ck_sessions _ Hok)) (ck_sessions _ Hok)) as Hs. revert Hs.
  unfold Client.joinRoom. case_decide; [intros _; apply (still_ok c); [apply still_put|apply steps_put|done]|].
  destruct (rc_transport c) as [i|] eqn:Et; [intros _; apply (still_ok c); [apply still_put|apply steps_put|done]|].
  rewrite build_total. set (c1 := (_setState Connecting c).1). intros Hs.
  destruct (setState_fields Connecting c) as (F1t & F1r & F1c & F1h & F1u & F1s & F1m & _). fold c1 in F1t, F1r, F1c, F1h, F1u, F1s, F1m.
  destruct (ck_none _ Hok Et) as (Nr & Nh & Nu & Ns). pose proof (ck_control _ Hok) as Nc. rewrite Nr in *.
  constructor; cbn; rewrite ?F1r, ?F1c, ?F1u, ?Nc, ?Nu; try done.
  - intros k [= <-]. split; [|done]. unfold ears. cbn. rewrite fmap_app, lookup_app_r by (by rewrite length_fmap). rewrite length_fmap, Nat.sub_diag. done.
  - intros k e. unfold ears. cbn. rewrite fmap_app. intros [Hk|[Hl Hk]]%lookup_app_Some Hne.
    + rewrite F1s in Hk. apply (ck_other _ Hok k); [exact Hk|congruence].
    + rewrite length_fmap in Hl, Hk. apply list_lookup_singleton_Some in Hk as [Hk _]. exfalso. apply Hne. f_equal. lia.
Qed.

Lemma app_do_ok a c : client_ok c → client_ok (app_do c a).
Proof. destruct a; [intros; by apply leave_ok|apply joinRoom_ok]. Qed.

Lemma fold_app_ok l c : client_ok c → client_ok (fold_left app_do l c).
Proof. revert c. induction l as [|a l IH]; intros c Hok; [done|]. by apply IH, app_do_ok. Qed.

Lemma put_ok o c : client_ok c → client_ok (put o c).
Proof. apply still_ok; [apply still_put|apply steps_put]. Qed.

Lemma emit_ok e c : client_ok c → client_ok (emit e c).
Proof. intros Hok. by apply fold_app_ok, put_ok. Qed.

Lemma on_room_ok r f c : client_ok c → client_ok (on_room r f c).
Proof. apply still_ok; [apply still_on_room|apply steps_on_room]. Qed.

Lemma handshake_ok k f c :
  (∀ h, hs_ok h → (∀ x, hs_result h = Some x → hs_result (f h) = Some x) ∧ hs_ok (f h)) → client_ok c → client_ok (on_handshake k f c).
Proof. intros Hf. apply still_ok; [apply still_handshake|by apply steps_handshake]. Qed.

Lemma setState_ok next c :
  rc_transport c ≠ None ∨ next = Connected ∨ next = Disconnected → client_ok c → client_ok (_setState next c).1.
Proof.
  intros Hn Hok. destruct (decide (rc_transport c = None)) as [Ht|Ht]; [|by apply (still_ok c); [apply still_setState|apply steps_setState|]].
  destruct (ck_none _ Hok Ht) as (_ & _ & _ & Hs). unfold _setState. rewrite Hs. destruct Hn as [|[->| ->]]; done.
Qed.

Lemma steady_ok k r msg c : client_ok c → client_ok (steady_message k r c msg).
Proof.
  intros Hok. destruct msg; cbn [Client.steady_message]; try (by apply on_room_ok); [|by apply emit_ok].
  pose proof (setState_ok Connected c ltac:(auto) Hok) as H1. destruct (_setState Connected c) as [c1 ok]. cbn [fst] in H1.
  destruct ok; [|done]. by apply emit_ok, put_ok, on_room_ok.
Qed.

Lemma steady_fold_ok k r l c : client_ok c → client_ok (fold_left (steady_message k r) l c).
Proof. revert c. induction l as [|m l IH]; intros c Hok; [done|]. by apply IH, steady_ok. Qed.

(** The room is opened and its listener attached. *)
Lemma opened_ok k j c z :
  client_ok c → rc_transport c = Some k → rc_room c = None → rc_sessions c !! k = Some z → hs_result (ss_handshake z) = Some (inl j) →
  let r := length (rc_rooms c) in
  let c2 := set_current (rc_transport c) (Some r) (Some r) (set_rooms (rc_rooms c ++ [newRoom j]) c) in
  client_ok (set_cleanups (rc_cleanups c2 ++ [OffMessage k]) (on_session k (set_steady (Some r)) c2)).
Proof.
  intros [K1 K2 K3 K4 K5 K6 K7 K8] Ht Hr Hz Hj r c2. destruct (K4 k Ht) as [K4e K4u].
  assert (He : ∀ i, ears (on_session k (set_steady (Some r)) c2) !! i = if decide (i = k) then Some (true, Some r) else ears c !! i).
  { intros i. unfold ears. cbn. rewrite !list_lookup_fmap. case_decide as Hi.
    - subst i. rewrite list_lookup_alter_eq, Hz. cbn. unfold ears in K4e. rewrite list_lookup_fmap, Hz in K4e. cbn in K4e. by injection K4e as ->.
    - by rewrite list_lookup_alter_ne. }
  constructor; cbn; rewrite ?Ht; try done.
  - intros i z0. cbn. destruct (decide (i = k)) as [->|Hne]; [rewrite list_lookup_alter_eq, Hz; intros [= <-]; apply (K1 k z Hz)|].
    rewrite list_lookup_alter_ne by done. apply K1.
  - intros i [= <-]. split; [|by rewrite K4u, Hr]. pose proof (He k) as Hk. rewrite decide_True in Hk by done. exact Hk.
  - intros i e Hi Hne. change (ears (on_session k (set_steady (Some r)) c2) !! i = Some e) in Hi. rewrite He in Hi. rewrite decide_False in Hi by congruence.
    apply (K5 i e Hi). by rewrite Ht.
  - intros i Hi. rewrite <- Ht. by apply K6.
  - intros i [= <-]. rewrite length_app. cbn. lia.
  - intros i z0 [= <-] Hz0 _. rewrite list_lookup_alter_eq, Hz in Hz0. injection Hz0 as <-. eauto.
Qed.

(** A session that joined has its promise settled, once [joinRoom] went on. *)
Definition resting c : Prop :=
  ∀ k z, rc_transport c = Some k → rc_room c ≠ None → rc_sessions c !! k = Some z → ss_outcome z ≠ None.

(** Steps that may lose the room, but not get another. *)
Definition keeps c c' : Prop := rc_room c' ≠ None → rc_transport c' = rc_transport c ∧ rc_room c' = rc_room c.
#[local] Instance keeps_refl : Reflexive keeps.
Proof. done. Qed.
#[local] Instance keeps_trans : Transitive keeps.
Proof. intros c1 c2 c3 H1 H2 Hr. destruct (H2 Hr) as [-> E]. rewrite E in *. by apply H1. Qed.

Lemma keeps_resting c c' : sessions_ok c → client_ok c → keeps c c' → steps c c' → resting c → resting c'.
Proof.
  intros Hs Hok Hk Hst Hr k z' Ht Hn Hz'. destruct (Hk Hn) as [Et Er]. rewrite Et in Ht. rewrite Er in Hn.
  destruct (ck_some _ Hok k Ht) as [He _]. apply ears_inv in He as (z & Hz & _).
  destruct (mv_fwd _ _ (Hst Hs) k z Hz) as (z2 & Hz2 & Hf). simplify_eq. pose proof (Hr k z Ht Hn Hz) as Ho.
  destruct (ss_outcome z) as [x|] eqn:E; [|done]. by rewrite (fw_outcome _ _ Hf x E).
Qed.

Lemma keeps_still c c' : still c c' → keeps c c'.
Proof. intros [] _. done. Qed.
Lemma keeps_lost c c' : rc_room c' = None → keeps c c'.
Proof. by intros Hr Hn. Qed.

Lemma leave_room c : rc_room (leave c) = None.
Proof.
  unfold leave. set (c2 := close_room _). destruct (close_room_fields (run_cleanups (_setState Disconnected (cancel_handshake CancelledByLeave c)).1)) as (_ & Hr & _).
  fold c2 in Hr. cbn [rc_room set_current]. destruct (rc_transport c2); exact Hr.
Qed.

Lemma keeps_joinRoom roomId c : client_ok c → keeps c (joinRoom roomId c).
Proof.
  intros Hok. unfold Client.joinRoom. case_decide; [done|]. destruct (rc_transport c) eqn:Et; [done|]. rewrite build_total.
  apply keeps_lost. destruct (ck_none _ Hok Et) as (Hr & _). cbn. destruct (setState_fields Connecting c) as (_ & -> & _). exact Hr.
Qed.

Lemma keeps_emitting e c : client_ok c → keeps c (emit e c).
Proof.
  intros Hok. unfold Client.emit. generalize (reacts (rc_out (put (Emits e) c))) as l. intros l.
  assert (Hp : client_ok (put (Emits e) c)) by (by apply put_ok). assert (Hk : keeps c (put (Emits e) c)) by done.
  revert Hp Hk. generalize (put (Emits e) c) as d. induction l as [|a l IH]; intros d Hd Hk; [done|]. cbn [fold_left].
  apply IH; [by apply app_do_ok|]. etransitivity; [exact Hk|]. destruct a; [by apply keeps_lost, leave_room|by apply keeps_joinRoom].
Qed.

Lemma keeps_setState next c : keeps c (_setState next c).1.
Proof. destruct (setState_fields next c) as (Ht & Hr & _). intros _. by rewrite Ht, Hr. Qed.

Lemma keeps_steady k r msg c : client_ok c → keeps c (steady_message k r c msg).
Proof.
  intros Hok. destruct msg; cbn [Client.steady_message]; try done; [|by apply keeps_emitting].
  pose proof (keeps_setState Connected c) as H1. pose proof (setState_ok Connected c ltac:(auto) Hok) as H2.
  destruct (_setState Connected c) as [c1 ok]. cbn [fst] in H1, H2. destruct ok; [|done]. etransitivity; [exact H1|].
  etransitivity; [|apply keeps_emitting; by apply put_ok, on_room_ok]. done.
Qed.

Lemma keeps_steady_fold k r l c : client_ok c → keeps c (fold_left (steady_message k r) l c).
Proof.
  revert c. induction l as [|m l IH]; intros c Hok; [done|]. cbn. etransitivity; [by apply keeps_steady|]. by apply IH, steady_ok.
Qed.

(** The two together, as kept by every action. *)
Record good c : Prop := { gd_ok : client_ok c; gd_rest : resting c }.

Lemma keeps_good c c' : client_ok c' → keeps c c' → steps c c' → good c → good c'.
Proof. intros Hok Hk Hs [H1 H2]. split; [done|]. by apply (keeps_resting c); [apply H1|..]. Qed.

Lemma still_good c c' : still c c' → steps c c' → good c → good c'.
Proof. intros Hst Hs Hg. apply (keeps_good c); [by apply (still_ok c), Hg|by apply keeps_still|done|done]. Qed.

Lemma joined_good k j buffered c z :
  good c → rc_transport c = Some k → rc_sessions c !! k = Some z → ss_outcome z = None → hs_result (ss_handshake z) = Some (inl j) →
  good (joined k j buffered c).
Proof.
  intros [Hok Hrest] Ht Hz Ho Hj. assert (Hr : rc_room c = None).
  { destruct (rc_room c) eqn:E; [|done]. exfalso. by apply (Hrest k z Ht ltac:(congruence) Hz). }
  unfold Client.joined. set (c1 := (_setState Connected c).1). pose proof (setState_ok Connected c ltac:(auto) Hok) as Hok1. fold c1 in Hok1.
  destruct (setState_fields Connected c) as (F1t & F1r & _ & _ & _ & F1s & _). fold c1 in F1t, F1r, F1s.
  pose proof (opened_ok k j c1 z Hok1 ltac:(congruence) ltac:(congruence) ltac:(congruence) Hj) as Hok3. cbv zeta in Hok3.
  set (r := length (rc_rooms c1)) in *. set (c2 := set_current _ _ _ _) in *. set (c3 := set_cleanups _ _) in *.
  assert (Hok3' := handshake_ok k hs_drain c3 hs_drain_ok Hok3). set (c3' := on_handshake k hs_drain c3) in *.
  set (c4 := fold_left (steady_message k r) buffered c3'). assert (Hok4 : client_ok c4) by (by apply steady_fold_ok).
  set (c4' := put (TFlush k) (set_handshake None c4)).
  assert (Hok4' : client_ok c4') by (apply put_ok, (still_ok c4); [apply still_forget|apply steps_set_handshake|done]).
  set (c5 := emit EvConnected c4'). assert (Hok5 : client_ok c5) by (by apply emit_ok).
  split; [apply (still_ok c5); [apply still_settle|apply steps_settle|done]|].
  assert (Hk : keeps c3' c5).
  { etransitivity; [by apply keeps_steady_fold|]. etransitivity; [|by apply keeps_emitting]. done. }
  intros i z' Hi Hn Hz'. change (rc_transport c5 = Some i) in Hi. change (rc_room c5 ≠ None) in Hn.
  destruct (Hk Hn) as [Et _]. change (rc_transport c3') with (rc_transport c1) in Et.
  assert (i = k) as -> by congruence. cbn in Hz'. rewrite list_lookup_alter_eq in Hz'. apply fmap_Some in Hz' as (z0 & _ & ->).
  unfold settle. by destruct (ss_outcome z0) eqn:E; [rewrite E|].
Qed.

Lemma failed_good k e c : good c → (rc_transport c = Some k → rc_room c = None) → good (join_failed k e c).
Proof.
  intros Hg Hr. unfold join_failed. set (c1 := put (TClose k) (on_handshake k hs_dispose c)).
  assert (Hg1 : good c1).
  { apply (still_good c); [etransitivity; [apply still_handshake|apply still_put]| |done].
    etransitivity; [apply steps_handshake, hs_drain_ok|apply steps_put]. }
  match goal with |- good (on_session k (settle (inr e)) ?x) => assert (H2 : good x) end.
  2: { apply (still_good _ _ (still_settle _ _ _) (steps_settle _ _ _) H2). }
  case_decide as Ht; [|done]. specialize (Hr Ht). set (d := (_setState Disconnected (set_handshake None c1)).1).
  destruct (setState_fields Disconnected (set_handshake None c1)) as (Fdt & Fdr & Fdc & Fdh & Fdu & Fds & _). fold d in Fdt, Fdr, Fdc, Fdh, Fdu, Fds.
  destruct (run_cleanups_fields d) as (Fct & Fcr & Fcc & Fch & Fcs & _ & _ & Fcu).
  split; [|by intros i z Hi].
  apply idle_ok; try done; cbn.
  - assert (Hs : steps c1 (run_cleanups d)).
    { etransitivity; [apply (steps_set_handshake None)|]. etransitivity; [apply steps_setState|apply steps_run_cleanups]. }
    exact (mv_ok _ _ (Hs (ck_sessions _ (gd_ok _ Hg1))) (ck_sessions _ (gd_ok _ Hg1))).
  - etransitivity; [exact Fcr|]. rewrite Fdr. exact Hr.
  - etransitivity; [exact Fcc|]. rewrite Fdc. change (rc_control c = None). by rewrite (ck_control _ (gd_ok _ Hg)).
  - etransitivity; [exact Fch|]. by rewrite Fdh.
  - etransitivity; [exact Fcs|]. apply setState_disconnected.
  - intros i x. apply (cleanups_silent c1 (gd_ok _ Hg1) d); [exact Fdu|unfold ears; by rewrite Fds].
Qed.

Lemma resume_good k c : good c → good (resume k c).
Proof.
  intros Hg. unfold Client.resume. destruct (rc_sessions c !! k) as [z|] eqn:Hz; [|done].
  destruct (ss_outcome z) eqn:Ho, (hs_result (ss_handshake z)) as [[j|e]|] eqn:Hj; try done.
  - case_decide as Ht; [by apply (joined_good k j _ c z)|]. apply failed_good; [|done].
    apply (still_good c); [| |done].
    + etransitivity; [apply still_handshake|]. etransitivity; [apply still_forget|apply still_put].
    + etransitivity; [apply steps_handshake, hs_drain_ok|]. etransitivity; [apply steps_set_handshake|apply steps_put].
  - apply failed_good; [done|]. intros Ht. destruct (rc_room c) eqn:Er; [|done]. exfalso.
    destruct (ck_result _ (gd_ok _ Hg) k z Ht Hz ltac:(congruence)) as [j Hj']. congruence.
Qed.

Lemma emit_good e c : good c → good (emit e c).
Proof. intros Hg. apply (keeps_good c); [by apply emit_ok, Hg|by apply keeps_emitting, Hg|apply steps_emit|done]. Qed.

Lemma setState_good next c : rc_transport c ≠ None → good c → good (_setState next c).1.
Proof. intros Ht. apply still_good; [by apply still_setState|apply steps_setState]. Qed.

(** [onTerminated] up to its event. *)
Definition ended (code : Z) (reason : jsstr) c : RTCForgeClient :=
  let c1 := close_room (run_cleanups (cancel_handshake (ConnectionTerminated code reason) c)) in
  (_setState Disconnected (set_current None (rc_room c1) (rc_control c1) c1)).1.

Lemma steps_ended code reason c : steps c (ended code reason c).
Proof.
  unfold ended. etransitivity; [|apply steps_setState]. etransitivity; [|apply steps_set_current]. etransitivity; [|apply steps_close_room].
  etransitivity; [apply steps_cancel|apply steps_run_cleanups].
Qed.

Lemma ended_good code reason c : good c → good (ended code reason c).
Proof.
  intros [Hok Hrest]. pose proof (steps_ended code reason c) as Hs. revert Hs. unfold ended. set (c0 := cancel_handshake _ c). set (c1 := run_cleanups c0).
  set (c2 := close_room c1). set (c3 := set_current None (rc_room c2) (rc_control c2) c2).
  destruct (cancel_fields (ConnectionTerminated code reason) c) as (_ & _ & _ & F0h & _ & F0u & F0e). fold c0 in F0h, F0u, F0e.
  destruct (run_cleanups_fields c0) as (_ & _ & _ & F1h & _ & _ & _ & F1u). fold c1 in F1h, F1u.
  destruct (close_room_fields c1) as (_ & F2r & F2c & F2h & _ & F2u & F2e & _). fold c2 in F2r, F2c, F2h, F2u, F2e.
  destruct (setState_fields Disconnected c3) as (F3t & F3r & F3c & F3h & F3u & F3s & _).
  intros Hs. split; [|intros i z Hi; by rewrite F3t in Hi]. apply idle_ok.
  - exact (mv_ok _ _ (Hs (ck_sessions _ Hok)) (ck_sessions _ Hok)).
  - by rewrite F3t.
  - by rewrite F3r.
  - by rewrite F3c.
  - rewrite F3h. change (rc_handshake c2 = None). congruence.
  - rewrite F3u. change (rc_cleanups c2 = []). congruence.
  - apply setState_disconnected.
  - intros i x. unfold ears at 1. rewrite F3s. change (ears c2 !! i = Some x → x = (false, None)). rewrite F2e.
    by apply (cleanups_silent c Hok).
Qed.

Lemma terminated_good code reason c : good c → good (onTerminated build_ok joinTimeout reacts code reason c).
Proof. intros Hg. by apply emit_good, (ended_good code reason). Qed.

Lemma lifecycle_good k f c : (rc_transport c ≠ None → good c → good (f c)) → good c → good (lifecycle k f c).
Proof.
  intros Hf Hg. unfold lifecycle. destruct (rc_sessions c !! k) as [z|] eqn:Hz; [|done]. destruct (ss_lifecycle z) eqn:El; [|done].
  apply Hf; [|done]. intros Ht. pose proof (ck_other _ (gd_ok _ Hg) k _ (ears_lookup _ _ _ Hz)) as He. rewrite Ht, El in He.
  by specialize (He ltac:(done)).
Qed.

Lemma act_good a c : good c → good (act a c).
Proof.
  intros Hg. destruct a as [[|roomId]|k|k msg|k code reason|k attempt|k|k code reason|k|k]; cbn [Client.act Client.app_do].
  - apply (keeps_good c); [by apply leave_ok, Hg|apply keeps_lost, leave_room|apply steps_leave|done].
  - apply (keeps_good c); [by apply joinRoom_ok, Hg|by apply keeps_joinRoom, Hg|apply steps_joinRoom|done].
  - by apply resume_good.
  - unfold t_message. destruct (rc_sessions c !! k) as [z|]; [|done]. set (c1 := if hs_attached (ss_handshake z) then _ else c).
    assert (H1 : good c1). { unfold c1. destruct (hs_attached _); [|done].
      apply (still_good c); [apply still_handshake|apply steps_handshake; intros; by apply hs_message_ok|done]. }
    destruct (ss_steady z); [|exact H1]. apply (keeps_good c1); [by apply steady_ok, H1|by apply keeps_steady, H1|apply steps_steady|done].
  - apply lifecycle_good; [|done]. intros Ht Hg'. by apply emit_good, setState_good.
  - apply lifecycle_good; [|done]. intros Ht Hg'. by apply emit_good, setState_good.
  - apply lifecycle_good; [|done]. intros Ht Hg'. by apply emit_good.
  - apply lifecycle_good; [|done]. intros Ht Hg'. by apply terminated_good.
  - apply (still_good c); [apply still_handshake|apply steps_handshake; intros h; apply hs_settle_ok|done].
  - apply (still_good c); [apply still_handshake|apply steps_handshake; intros h; apply hs_timeout_ok|done].
Qed.

Lemma run_good l c : good c → good (run l c).
Proof. revert c. induction l as [|a l IH]; intros c Hg; [done|]. by apply IH, act_good. Qed.

Lemma new_good : good newClient.
Proof. split; [|by intros k z]. by apply idle_ok. Qed.

(** * Hand-over *)

(** What a session with the handshake [h] has made of the messages [M] delivered to it. *)
Definition made (M : list ServerMessage) (h : JoinHandshake) (room : option nat) (rooms : list Room) : Prop :=
  match room with
  | Some r => rooms !! r = fold_left read_message M None
  | None =>
      match hs_result h with
      | None => hs_attached h = true ∧ hs_buffer h = [] ∧ fold_left read_message M None = None
      | Some (inl j) => hs_attached h = true ∧ fold_left read_message M None = fold_left read_message (hs_buffer h) (Some (newRoom j))
      | Some (inr _) => True
      end
  end.

(** So has the session [k], as long as it is current. *)
Record hand (k : nat) (M : list ServerMessage) c : Prop := {
  hd_new : (length (rc_sessions c) ≤ k)%nat → M = [];
  hd_made z : rc_transport c = Some k → rc_sessions c !! k = Some z → made M (ss_handshake z) (rc_room c) (rc_rooms c);
}.

(** A room-joined message finds a client that may become connected. *)
Definition prompt (a : action) c : Prop :=
  match a with
  | TMessage k (RoomJoined _) | Resume k => rc_transport c = Some k → rc_state c ≠ Disconnected
  | _ => True
  end.
Fixpoint all_prompt (l : list action) c : Prop :=
  match l with [] => True | a :: l => prompt a c ∧ all_prompt l (act a c) end.

(** The messages the transport of a session delivers in a run. *)
Definition hears (k : nat) (a : action) c : list ServerMessage :=
  match a with
  | TMessage i msg => if decide (i = k ∧ (k < length (rc_sessions c))%nat) then [msg] else []
  | _ => []
  end.
Fixpoint heard (k : nat) (l : list action) c : list ServerMessage :=
  match l with [] => [] | a :: l => hears k a c ++ heard k l (act a c) end.

(** Rooms are not touched by what keeps the session. *)
Lemma leave_rooms c : rc_transport (leave c) = None.
Proof. done. Qed.

Lemma joinRoom_rooms roomId c : rc_rooms (joinRoom roomId c) = rc_rooms c.
Proof.
  unfold Client.joinRoom. case_decide; [done|]. destruct (rc_transport c); [done|].
  destruct (setState_fields Connecting c) as (_ & _ & _ & _ & _ & _ & Hr & _). destruct (build_ok roomId); cbn; exact Hr.
Qed.

(** The sessions, rooms and state of a client, as long as its session goes on. *)
Definition calm k c c' : Prop :=
  rc_transport c' = Some k → (k < length (rc_sessions c))%nat →
  rc_transport c = Some k ∧ rc_room c' = rc_room c ∧ rc_rooms c' = rc_rooms c ∧ rc_sessions c' !! k = rc_sessions c !! k
  ∧ rc_state c' = rc_state c.

Lemma app_do_calm k a c : calm k c (app_do c a).
Proof.
  intros Ht Hk. destruct a as [|roomId]; cbn [Client.app_do] in *; [change (None = Some k) in Ht; done|]. unfold Client.joinRoom in *.
  case_decide; [done|]. destruct (rc_transport c) as [i|] eqn:Et.
  { cbn in Ht |- *. rewrite Et in Ht. by repeat split. }
  exfalso.
  destruct (setState_fields Connecting c) as (F1 & _ & _ & _ & _ & F6 & _).
  destruct (build_ok roomId); cbn in Ht; [|by rewrite F1, Et in Ht]. injection Ht as Ht. rewrite F6 in Ht. lia.
Qed.

Lemma steps_length c c' k : sessions_ok c → steps c c' → (k < length (rc_sessions c))%nat → (k < length (rc_sessions c'))%nat.
Proof.
  intros Hok Hs [z Hz]%lookup_lt_is_Some. destruct (mv_fwd _ _ (Hs Hok) k z Hz) as (z' & Hz' & _). by eapply lookup_lt_Some.
Qed.

Lemma fold_app_calm k l c : client_ok c → calm k c (fold_left app_do l c).
Proof.
  revert c. induction l as [|a l IH]; intros c Hok Ht Hk; [done|]. cbn [fold_left] in *.
  assert (Hs : steps c (app_do c a)) by (destruct a; [apply steps_leave|apply steps_joinRoom]).
  destruct (IH _ (app_do_ok a c Hok) Ht) as (T1 & R1 & M1 & S1 & St1); [by apply (steps_length c), Hk; [apply Hok|]|].
  destruct (app_do_calm k a c T1 Hk) as (T2 & R2 & M2 & S2 & St2). split; [done|]. repeat split; congruence.
Qed.

Lemma emit_calm k e c : client_ok c → calm k c (emit e c).
Proof. intros Hok. apply (fold_app_calm k _ (put (Emits e) c)). by apply put_ok. Qed.

(** One message in the steady state. *)
Lemma steady_holds k r rm rm' msg c :
  client_ok c → (k < length (rc_sessions c))%nat → read_message (Some rm) msg = Some rm' →
  (rc_transport c = Some k → rc_room c = Some r ∧ rc_rooms c !! r = Some rm) →
  (rc_transport c = Some k → match msg with RoomJoined _ => rc_state c ≠ Disconnected | _ => True end) →
  let c' := steady_message k r c msg in
  rc_transport c' = Some k →
    rc_transport c = Some k ∧ rc_room c' = Some r ∧ rc_rooms c' !! r = Some rm' ∧ rc_sessions c' !! k = rc_sessions c !! k
    ∧ (rc_state c ≠ Disconnected → rc_state c' ≠ Disconnected).
Proof.
  intros Hok Hk Hrm Hc Hst c' Ht. subst c'. destruct msg as [j|i role meta|i|i|i|i reason|from d|from ch d ts|code message| |i role];
    cbn [read_message fmap option_fmap option_map] in Hrm; injection Hrm as <-; cbn [Client.steady_message] in *;
    try (destruct (Hc Ht) as [Hr Hm]; split; [exact Ht|]; split; [exact Hr|]; cbn; rewrite list_lookup_alter_eq, Hm; by split).
  - destruct (setState_fields Connected c) as (F1 & F2 & _ & _ & _ & F6 & F7 & _). pose proof (setState_ok Connected c ltac:(auto) Hok) as H1.
    assert (Hb : rc_transport c = Some k → (_setState Connected c).2 = true ∧ rc_state (_setState Connected c).1 = Connected).
    { intros Hk'. specialize (Hst Hk'). unfold _setState. case_decide; [by split|]. rewrite decide_True; [by split|]. destruct (rc_state c); cbn; set_solver. }
    destruct (_setState Connected c) as [c1 ok]. cbn [fst snd] in *. destruct ok.
    + destruct (emit_calm k EvConnected _ (put_ok (TFlush k) _ (on_room_ok r (_refresh j) c1 H1)) Ht) as (T & R & M & S & St); [cbn; by rewrite F6|].
      cbn in T. rewrite F1 in T. destruct (Hc T) as [Hr Hm]. destruct (Hb T) as [_ Hb2]. split; [done|]. split; [rewrite R; cbn; congruence|].
      split; [rewrite M; cbn; rewrite F7, list_lookup_alter_eq, Hm; done|]. split; [rewrite S; cbn; by rewrite F6|].
      intros _. rewrite St. cbn. by rewrite Hb2.
    + exfalso. rewrite F1 in Ht. by destruct (Hb Ht).
  - destruct (emit_calm k (EvError (Some message)) c Hok Ht Hk) as (T & R & M & S & St). destruct (Hc T) as [Hr Hm].
    split; [done|]. rewrite R, M, S, St. done.
Qed.

(** ** Steps without a message for the session *)

Definition carries k c c' : Prop := ∀ M, hand k M c → hand k M c'.
#[local] Instance carries_refl k : Reflexive (carries k).
Proof. by intros c M. Qed.
#[local] Instance carries_trans k : Transitive (carries k).
Proof. intros c1 c2 c3 H1 H2 M Hh. by apply H2, H1. Qed.

(** A session that is not current, or a step that leaves the handshake and the room. *)
Lemma carry_other k c c' :
  sessions_ok c → steps c c' → (rc_transport c' = Some k → False) → carries k c c'.
Proof.
  intros Hok Hs Ht M [H1 _]. split; [|intros z Hz; by destruct (Ht Hz)]. intros Hl. apply H1.
  destruct (decide (length (rc_sessions c) ≤ k)%nat); [done|]. pose proof (steps_length c c' k Hok Hs). lia.
Qed.

Lemma carry_same k c c' :
  rc_transport c' = rc_transport c → rc_room c' = rc_room c → rc_rooms c' = rc_rooms c →
  (ss_handshake <$> rc_sessions c' !! k = ss_handshake <$> rc_sessions c !! k) → length (rc_sessions c') = length (rc_sessions c) → carries k c c'.
Proof.
  intros Ht Hr Hm Hs Hl M [H1 H2]. split; rewrite ?Hl, ?Ht, ?Hr, ?Hm; [done|]. intros z Hk Hz. rewrite Hz in Hs.
  destruct (rc_sessions c !! k) as [z0|] eqn:E; [|done]. cbn in Hs. injection Hs as ->. by apply H2.
Qed.

Lemma carry_session k i f c : (∀ z, ss_handshake (f z) = ss_handshake z) → carries k c (on_session i f c).
Proof.
  intros Hf. apply carry_same; try done; cbn; [|apply length_alter]. destruct (decide (k = i)) as [->|Hne]; [|by rewrite list_lookup_alter_ne].
  rewrite list_lookup_alter_eq. destruct (rc_sessions c !! i); [|done]. cbn. by rewrite Hf.
Qed.

Lemma carry_handshake k i f c : i ≠ k → carries k c (on_handshake i f c).
Proof. intros Hne. apply carry_same; try done; cbn; [|apply length_alter]. by rewrite list_lookup_alter_ne. Qed.

Lemma carry_setState k next c : carries k c (_setState next c).1.
Proof.
  destruct (setState_fields next c) as (F1 & F2 & _ & _ & _ & F6 & F7 & _). apply carry_same; by rewrite ?F6.
Qed.

Lemma carry_put k o c : carries k c (put o c).
Proof. by apply carry_same. Qed.
Lemma carry_set_handshake k x c : carries k c (set_handshake x c).
Proof. by apply carry_same. Qed.

Lemma carry_app k a c : client_ok c → carries k c (app_do c a).
Proof.
  intros Hok M Hh. destruct (decide (rc_transport (app_do c a) = Some k)) as [Ht|Ht].
  2: { revert M Hh. apply carry_other; [apply Hok| |done]. destruct a; [apply steps_leave|apply steps_joinRoom]. }
  destruct (decide (k < length (rc_sessions c))%nat) as [Hk|Hk].
  - destruct (app_do_calm k a c Ht Hk) as (T & R & Mm & S & _). split.
    + intros Hl. apply (hd_new _ _ _ Hh). assert (Hs : steps c (app_do c a)) by (destruct a; [apply steps_leave|apply steps_joinRoom]).
      pose proof (steps_length c _ k (ck_sessions _ Hok) Hs Hk). lia.
    + intros z _ Hz. rewrite R, Mm. rewrite S in Hz. by apply (hd_made _ _ _ Hh).
  - assert (M = []) as -> by (apply (hd_new _ _ _ Hh); lia). split; [done|].
    destruct a as [|roomId]; [change (None = Some k) in Ht; done|]. cbn [Client.app_do] in *. unfold Client.joinRoom in *.
    revert Ht. case_decide; [intros Ht; destruct (ck_some _ Hok k Ht) as [He _]; by apply ears_inv in He as (z & Hz%lookup_lt_Some & _)|].
    destruct (rc_transport c) as [i|] eqn:Et.
    { cbn. rewrite Et. intros [= ->]. destruct (ck_some _ Hok k Et) as [He _]. by apply ears_inv in He as (z & Hz%lookup_lt_Some & _). }
    rewrite build_total. cbn. intros [= Ht] z _ Hz. destruct (ck_none _ Hok Et) as (Hr & _).
    destruct (setState_fields Connecting c) as (_ & -> & _). rewrite Hr. subst k. rewrite lookup_app_r, Nat.sub_diag in Hz by done.
    injection Hz as <-. by split.
Qed.

Lemma carry_emit k e c : client_ok c → carries k c (emit e c).
Proof.
  intros Hok. unfold Client.emit. etransitivity; [apply (carry_put k (Emits e))|].
  assert (Hp : client_ok (put (Emits e) c)) by (by apply put_ok). revert Hp.
  generalize (reacts (rc_out (put (Emits e) c))) as l. intros l. generalize (put (Emits e) c) as d.
  induction l as [|a l IH]; intros d Hd; [reflexivity|]. cbn. etransitivity; [by apply carry_app|]. by apply IH, app_do_ok.
Qed.

(** The session [k] has no room. *)
Definition roomless k c : Prop := rc_transport c = Some k → rc_room c = None.

Lemma roomless_keeps k c c' : keeps c c' → roomless k c → roomless k c'.
Proof.
  intros Hk Hn Ht. destruct (rc_room c') eqn:E; [|done]. destruct (Hk ltac:(congruence)) as [Et Er].
  rewrite E in Er. rewrite Hn in Er; [done|congruence].
Qed.

Lemma carry_on_room k r f c : roomless k c → carries k c (on_room r f c).
Proof.
  intros Hn M [H1 H2]. split; [exact H1|]. intros z Ht Hz. specialize (H2 z Ht Hz). cbn. by rewrite Hn in H2 |- *.
Qed.

Lemma carry_steady_other k i r msg c : client_ok c → roomless k c → carries k c (steady_message i r c msg).
Proof.
  intros Hok Hn. destruct msg; cbn [Client.steady_message]; try (by apply carry_on_room).
  - pose proof (carry_setState k Connected c) as H1. pose proof (setState_ok Connected c ltac:(auto) Hok) as Hok1.
    pose proof (roomless_keeps k _ _ (keeps_setState Connected c) Hn) as Hn1. destruct (_setState Connected c) as [c1 ok]. cbn [fst] in *.
    destruct ok; [|done]. etransitivity; [exact H1|]. etransitivity; [|apply carry_emit; by apply put_ok, on_room_ok].
    etransitivity; [|apply carry_put]. by apply carry_on_room.
  - by apply carry_emit.
Qed.

Lemma steady_fold_carry k i r l c : client_ok c → roomless k c → carries k c (fold_left (steady_message i r) l c).
Proof.
  revert c. induction l as [|m l IH]; intros c Hok Hn; [reflexivity|]. cbn. etransitivity; [by apply carry_steady_other|].
  apply IH; [by apply steady_ok|]. by apply (roomless_keeps k c); [apply keeps_steady|].
Qed.

(** The buffered messages reach the room in order. *)
Lemma steady_fold_holds k r rm l c :
  client_ok c → (k < length (rc_sessions c))%nat →
  (rc_transport c = Some k → rc_room c = Some r ∧ rc_rooms c !! r = Some rm ∧ rc_state c ≠ Disconnected) →
  let c' := fold_left (steady_message k r) l c in
  rc_transport c' = Some k →
    rc_transport c = Some k ∧ rc_room c' = Some r ∧ rc_rooms c' !! r = fold_left read_message l (Some rm) ∧ rc_sessions c' !! k = rc_sessions c !! k.
Proof.
  revert c rm. induction l as [|m l IH]; intros c rm Hok Hk Hc; cbn.
  { intros Ht. destruct (Hc Ht) as (? & ? & _). done. }
  intros Ht. destruct (read_message (Some rm) m) as [rm'|] eqn:Em; [|by destruct m].
  assert (H1 := steady_holds k r rm rm' m c Hok Hk Em ltac:(intros Hk'; destruct (Hc Hk') as (? & ? & _); done)
    ltac:(intros Hk'; destruct (Hc Hk') as (_ & _ & ?); by destruct m)). cbv zeta in H1.
  destruct (IH (steady_message k r c m) rm' (steady_ok k r m c Hok)) as (T & R & Mm & S); [..|exact Ht|].
  - apply (steps_length c); [apply Hok|apply steps_steady|done].
  - intros Hk'. destruct (H1 Hk') as (Hk'' & ? & ? & _ & Hst). split; [done|]. split; [done|]. apply Hst. by destruct (Hc Hk'') as (_ & _ & ?).
  - destruct (H1 T) as (Hk' & _ & _ & S1 & _). split; [done|]. split; [done|]. split; [done|]. congruence.
Qed.

(** ** [joinRoom] goes on *)

(** The room is open and its listener attached: [joined] up to [drain]. *)
Definition opened (k : nat) (j : RoomJoinedMessage) c : RTCForgeClient :=
  let c1 := (_setState Connected c).1 in
  let r := length (rc_rooms c1) in
  let c2 := set_current (rc_transport c1) (Some r) (Some r) (set_rooms (rc_rooms c1 ++ [newRoom j]) c1) in
  on_handshake k hs_drain (set_cleanups (rc_cleanups c2 ++ [OffMessage k]) (on_session k (set_steady (Some r)) c2)).

Lemma joined_opened k j buffered c :
  joined k j buffered c =
  on_session k (settle (inl (length (rc_rooms c))))
    (emit EvConnected (put (TFlush k) (set_handshake None (fold_left (steady_message k (length (rc_rooms c))) buffered (opened k j c))))).
Proof.
  unfold Client.joined, opened. destruct (setState_fields Connected c) as (_ & _ & _ & _ & _ & _ & Hm & _). by rewrite Hm.
Qed.

Lemma opened_spec k j c z :
  client_ok c → rc_transport c = Some k → rc_room c = None → rc_sessions c !! k = Some z → hs_result (ss_handshake z) = Some (inl j) →
  let c' := opened k j c in
  client_ok c' ∧ rc_transport c' = Some k ∧ rc_room c' = Some (length (rc_rooms c))
  ∧ rc_rooms c' !! length (rc_rooms c) = Some (newRoom j) ∧ length (rc_sessions c') = length (rc_sessions c)
  ∧ (rc_state c ≠ Disconnected → rc_state c' ≠ Disconnected).
Proof.
  intros Hok Ht Hr Hz Hj c'. destruct (setState_fields Connected c) as (F1 & F2 & _ & _ & _ & F6 & F7 & _).
  pose proof (setState_ok Connected c ltac:(auto) Hok) as Hok1.
  pose proof (opened_ok k j (_setState Connected c).1 z Hok1 ltac:(by rewrite F1) ltac:(by rewrite F2) ltac:(by rewrite F6) Hj) as Hok3. cbv zeta in Hok3.
  split; [exact (handshake_ok k hs_drain _ hs_drain_ok Hok3)|]. unfold c', opened. cbn.
  rewrite F1, F7, !length_alter, F6. split; [done|]. split; [done|]. split; [by rewrite lookup_app_r, Nat.sub_diag|]. split; [done|].
  intros Hs. unfold _setState. case_decide; [exact Hs|]. rewrite decide_True; [done|]. destruct (rc_state c); cbn; set_solver.
Qed.

Lemma carry_joined k i j buffered c z :
  good c → rc_transport c = Some i → rc_sessions c !! i = Some z → ss_outcome z = None → hs_result (ss_handshake z) = Some (inl j) →
  hs_buffer (ss_handshake z) = buffered → (i = k → rc_state c ≠ Disconnected) → carries k c (joined i j buffered c).
Proof.
  intros [Hok Hrest] Ht Hz Ho Hj Hb Hst. assert (Hr : rc_room c = None).
  { destruct (rc_room c) eqn:E; [|done]. exfalso. by apply (Hrest i z Ht ltac:(congruence) Hz). }
  destruct (opened_spec i j c z Hok Ht Hr Hz Hj) as (Hok1 & T1 & R1 & M1 & L1 & S1). rewrite joined_opened.
  set (c1 := opened i j c) in *. set (r := length (rc_rooms c)) in *. set (c2 := fold_left (steady_message i r) buffered c1).
  assert (Hok2 : client_ok c2) by (by apply steady_fold_ok).
  assert (Hok3 : client_ok (put (TFlush i) (set_handshake None c2))).
  { apply put_ok, (still_ok c2); [apply still_forget|apply steps_set_handshake|done]. }
  assert (Hc : carries k c c2 → carries k c (on_session i (settle (inl r)) (emit EvConnected (put (TFlush i) (set_handshake None c2))))).
  { intros H2. etransitivity; [exact H2|]. etransitivity; [|apply carry_session; intros z'; unfold settle; by destruct (ss_outcome z')].
    etransitivity; [|by apply carry_emit]. etransitivity; [apply carry_set_handshake|apply carry_put]. }
  apply Hc. clear Hc. destruct (decide (i = k)) as [->|Hne].
  - intros M Hh. pose proof (hd_made _ _ _ Hh z Ht Hz) as Hm. unfold made in Hm. rewrite Hr, Hj, Hb in Hm. destruct Hm as [_ Hm].
    assert (Hk : (k < length (rc_sessions c))%nat) by (by eapply lookup_lt_Some). split.
    + intros Hl. exfalso. assert (Hs : (k < length (rc_sessions c2))%nat); [|lia].
      apply (steps_length c1); [apply Hok1|apply steps_fold; intros; apply steps_steady|lia].
    + intros z' Ht2 _. destruct (steady_fold_holds k r (newRoom j) buffered c1 Hok1 ltac:(lia)) as (_ & R2 & M2 & _); [|exact Ht2|].
      * intros _. split; [exact R1|]. split; [exact M1|]. by apply S1, Hst.
      * fold c2 in R2, M2. rewrite R2. cbn. by rewrite M2, <- Hm.
  - etransitivity; [|apply steady_fold_carry; [done|]; intros Hk; congruence].
    intros M Hh. split; [rewrite L1; apply (hd_new _ _ _ Hh)|]. intros z' Hk. congruence.
Qed.

Lemma failed_transport i e c :
  rc_transport (join_failed i e c) = if decide (rc_transport c = Some i) then None else rc_transport c.
Proof. unfold join_failed. cbn. by case_decide. Qed.

Lemma carry_failed k i e c : good c → carries k c (join_failed i e c).
Proof.
  intros Hg. destruct (decide (rc_transport c = Some k)) as [Ht|Ht].
  2: { apply carry_other; [apply Hg|apply steps_failed|]. rewrite failed_transport. by case_decide. }
  destruct (decide (i = k)) as [->|Hne].
  { apply carry_other; [apply Hg|apply steps_failed|]. by rewrite failed_transport, decide_True. }
  unfold join_failed. cbn. rewrite decide_False by congruence.
  etransitivity; [apply (carry_handshake k i hs_dispose c Hne)|]. etransitivity; [apply (carry_put k (TClose i))|].
  apply carry_session. intros z. unfold settle. by destruct (ss_outcome z).
Qed.

Lemma carry_resume k i c : good c → (i = k → rc_transport c = Some k → rc_state c ≠ Disconnected) → carries k c (resume i c).
Proof.
  intros Hg Hst. unfold Client.resume. destruct (rc_sessions c !! i) as [z|] eqn:Hz; [|reflexivity].
  destruct (ss_outcome z) eqn:Ho, (hs_result (ss_handshake z)) as [[j|e]|] eqn:Hj; try reflexivity; [|by apply carry_failed].
  case_decide as Ht; [apply (carry_joined k i j _ c z); try done; intros ->; by apply Hst|].
  set (c1 := put (TClose i) (set_handshake None (on_handshake i hs_dispose c))).
  assert (Hg1 : good c1).
  { apply (still_good c); [| |done].
    - etransitivity; [apply still_handshake|]. etransitivity; [apply still_forget|apply still_put].
    - etransitivity; [apply steps_handshake, hs_drain_ok|]. etransitivity; [apply steps_set_handshake|apply steps_put]. }
  etransitivity; [|by apply carry_failed]. destruct (decide (i = k)) as [->|Hne].
  - apply carry_other; [apply Hg| |done].
    etransitivity; [apply steps_handshake, hs_drain_ok|]. etransitivity; [apply steps_set_handshake|apply steps_put].
  - etransitivity; [apply (carry_handshake k i hs_dispose c Hne)|]. etransitivity; [apply carry_set_handshake|apply carry_put].
Qed.

Lemma carry_terminated k code reason c : good c → carries k c (onTerminated build_ok joinTimeout reacts code reason c).
Proof.
  intros Hg. etransitivity; [|by apply carry_emit, (ended_good code reason)].
  apply carry_other; [apply Hg|apply steps_ended|]. unfold ended. by rewrite (proj1 (setState_fields Disconnected _)).
Qed.

Lemma carry_lifecycle k i f c : client_ok c → (rc_transport c ≠ None → carries k c (f c)) → carries k c (lifecycle i f c).
Proof.
  intros Hok Hf. unfold lifecycle. destruct (rc_sessions c !! i) as [z|] eqn:Hz; [|reflexivity]. destruct (ss_lifecycle z) eqn:El; [|reflexivity].
  apply Hf. intros Ht. pose proof (ck_other _ Hok i _ (ears_lookup _ _ _ Hz)) as He. rewrite Ht, El in He. by specialize (He ltac:(done)).
Qed.

(** A handshake that is settled from outside. *)
Lemma carry_own k f c :
  (∀ h, hs_ok h → (∀ x, hs_result h = Some x → hs_result (f h) = Some x ∧ hs_attached (f h) = hs_attached h ∧ hs_buffer (f h) = hs_buffer h)
                 ∧ (hs_result h = None → f h = h ∨ ∃ e, hs_result (f h) = Some (inr e))) →
  sessions_ok c → carries k c (on_handshake k f c).
Proof.
  intros Hf Hok M [H1 H2]. split; [cbn; by rewrite length_alter|]. intros z' Ht Hz'. cbn in Ht, Hz' |- *.
  rewrite list_lookup_alter_eq in Hz'. apply fmap_Some in Hz' as (z & Hz & ->). specialize (H2 z Ht Hz). cbn.
  destruct (Hf _ (Hok k z Hz)) as [Hs Hn]. unfold made in *. destruct (rc_room c); [done|].
  destruct (hs_result (ss_handshake z)) as [x|] eqn:E.
  - destruct (Hs x eq_refl) as (-> & -> & ->). exact H2.
  - destruct (Hn eq_refl) as [->|[e ->]]; [by rewrite E|done].
Qed.

Lemma settle_own e h :
  hs_ok h → (∀ x, hs_result h = Some x → hs_result (hs_settle e h) = Some x ∧ hs_attached (hs_settle e h) = hs_attached h ∧ hs_buffer (hs_settle e h) = hs_buffer h)
            ∧ (hs_result h = None → hs_settle e h = h ∨ ∃ e', hs_result (hs_settle e h) = Some (inr e')).
Proof.
  intros [[H0 H1] _]. unfold hs_settle. destruct (hs_settled h).
  - split; [done|by left].
  - split; [intros x Hx; discriminate H1; eauto|]. intros _. right. cbn. eauto.
Qed.

Lemma timeout_own h :
  hs_ok h → (∀ x, hs_result h = Some x → hs_result (hs_timeout h) = Some x ∧ hs_attached (hs_timeout h) = hs_attached h ∧ hs_buffer (hs_timeout h) = hs_buffer h)
            ∧ (hs_result h = None → hs_timeout h = h ∨ ∃ e', hs_result (hs_timeout h) = Some (inr e')).
Proof.
  intros [[H0 H1] _]. unfold hs_timeout. destruct (hs_timer h); [|split; [done|by left]]. unfold hs_settle. cbn. destruct (hs_settled h) eqn:E.
  - split; [done|]. intros Hn. destruct (H0 eq_refl). congruence.
  - split; [intros x Hx; rewrite Hx in H1; discriminate H1; eauto|]. intros _. right. cbn. eauto.
Qed.

(** ** A message for the session *)

Lemma hs_message_made M msg h rooms :
  hs_ok h → made M h None rooms → made (M ++ [msg]) (if hs_attached h then hs_message msg h else h) None rooms.
Proof.
  intros [[H0 H1] _]. unfold made. rewrite fold_left_app. destruct (hs_result h) as [[j|e]|] eqn:E.
  - intros [Ha Hm]. rewrite Ha. assert (Hs : hs_settled h = true) by (apply H1; eauto). unfold hs_message. rewrite Hs. cbn.
    rewrite E, fold_left_app, Hm, Ha. done.
  - intros _. destruct (hs_attached h); [|by rewrite E]. assert (Hs : hs_settled h = true) by (apply H1; eauto). unfold hs_message. rewrite Hs. cbn. by rewrite E.
  - intros (Ha & Hb & Hm). rewrite Ha. assert (Hs : hs_settled h = false). { destruct (hs_settled h); [|done]. by destruct (H0 eq_refl). }
    unfold hs_message. rewrite Hs, Hm. destruct msg; cbn; try (by rewrite E); [by rewrite Hb|]. unfold hs_settle. by rewrite Hs.
Qed.

Lemma message_hand k i msg M c :
  good c → prompt (TMessage i msg) c → hand k M c →
  hand k (M ++ hears k (TMessage i msg) c) (t_message build_ok joinTimeout reacts i msg c).
Proof.
  intros [Hok _] Hp Hh. cbn [hears]. unfold t_message. destruct (rc_sessions c !! i) as [z|] eqn:Hz.
  2: { rewrite decide_False; [by rewrite app_nil_r|]. intros [-> Hk]. apply lookup_lt_is_Some in Hk as [z Hk]. congruence. }
  set (c1 := if hs_attached (ss_handshake z) then _ else c).
  assert (Hok1 : client_ok c1). { unfold c1. destruct (hs_attached _); [|done]. apply handshake_ok; [|done]. intros; by apply hs_message_ok. }
  assert (Hf1 : rc_transport c1 = rc_transport c ∧ rc_room c1 = rc_room c ∧ rc_rooms c1 = rc_rooms c ∧ rc_state c1 = rc_state c ∧ length (rc_sessions c1) = length (rc_sessions c)).
  { unfold c1. destruct (hs_attached _); [|done]. cbn. by rewrite length_alter. }
  destruct Hf1 as (F1 & F2 & F3 & F4 & F5). pose proof (ck_other _ Hok i _ (ears_lookup _ _ _ Hz)) as Hother.
  destruct (decide (i = k)) as [->|Hne].
  2: { rewrite decide_False by (by intros []). rewrite app_nil_r. revert Hh. generalize M. change (carries k c (match ss_steady z with Some r => steady_message i r c1 msg | None => c1 end)).
    assert (H1 : carries k c c1) by (unfold c1; destruct (hs_attached _); [by apply carry_handshake|reflexivity]).
    destruct (ss_steady z) as [r|]; [|exact H1]. etransitivity; [exact H1|]. apply carry_steady_other; [done|].
    intros Hk. rewrite F1 in Hk. specialize (Hother ltac:(congruence)). by injection Hother. }
  assert (Hk : (k < length (rc_sessions c))%nat) by (by eapply lookup_lt_Some). rewrite decide_True by done.
  destruct (decide (rc_transport c = Some k)) as [Ht|Ht].
  2: { specialize (Hother Ht). injection Hother as _ ->. split; [rewrite F5; lia|]. intros z' Hk'. by rewrite F1 in Hk'. }
  clear Hother. destruct (ck_some _ Hok k Ht) as [He _]. rewrite (ears_lookup _ _ _ Hz) in He. injection He as _ ->.
  pose proof (hd_made _ _ _ Hh z Ht Hz) as Hm. destruct (rc_room c) as [r|] eqn:Er.
  - destruct (lookup_lt_is_Some_2 (rc_rooms c) r (ck_room _ Hok r Er)) as [rm Hrm]. unfold made in Hm. rewrite Hrm in Hm.
    destruct (read_message (Some rm) msg) as [rm'|] eqn:Em; [|by destruct msg]. split.
    + intros Hl. exfalso. pose proof (steps_length c1 _ k (ck_sessions _ Hok1) (steps_steady k r msg c1)). lia.
    + intros z' Ht' _. destruct (steady_holds k r rm rm' msg c1 Hok1 ltac:(lia) Em) as (_ & R2 & M2 & _); [| |exact Ht'|].
      * intros _. rewrite F2, F3. done.
      * intros _. rewrite F4. destruct msg; try done. by apply Hp.
      * rewrite R2. cbn. rewrite M2, fold_left_app, <- Hm. done.
  - split; [rewrite F5; lia|]. intros z' _ Hz'. rewrite F2, F3. unfold c1 in Hz'.
    pose proof (hs_message_made M msg (ss_handshake z) (rc_rooms c) (ck_sessions _ Hok k z Hz) Hm) as Hm'.
    destruct (hs_attached (ss_handshake z)); [|by rewrite Hz in Hz'; injection Hz' as <-].
    cbn in Hz'. rewrite list_lookup_alter_eq, Hz in Hz'. by injection Hz' as <-.
Qed.

Lemma act_hand k a M c : good c → prompt a c → hand k M c → hand k (M ++ hears k a c) (act a c).
Proof.
  intros Hg Hp Hh. destruct a as [x|i|i msg|i code reason|i attempt|i|i code reason|i|i]; [| |by apply message_hand|..];
    cbn [hears]; rewrite app_nil_r; revert M Hh; cbn [Client.act].
  - apply carry_app, Hg.
  - apply carry_resume; [done|]. intros ->. exact Hp.
  - apply carry_lifecycle; [apply Hg|]. intros Ht. etransitivity; [apply (carry_setState k Disconnected)|]. by apply carry_emit, setState_good.
  - apply carry_lifecycle; [apply Hg|]. intros Ht. etransitivity; [apply (carry_setState k Reconnecting)|]. by apply carry_emit, setState_good.
  - apply carry_lifecycle; [apply Hg|]. intros _. by apply carry_emit, Hg.
  - apply carry_lifecycle; [apply Hg|]. intros _. by apply carry_terminated.
  - destruct (decide (i = k)) as [->|Hne]; [|by apply carry_handshake]. apply carry_own; [intros h; apply settle_own|apply Hg].
  - destruct (decide (i = k)) as [->|Hne]; [|by apply carry_handshake]. apply carry_own; [intros h; apply timeout_own|apply Hg].
Qed.

Lemma run_hand k l M c : good c → all_prompt l c → hand k M c → hand k (M ++ heard k l c) (run l c).
Proof.
  revert M c. induction l as [|a l IH]; intros M c Hg Hp Hh; [by rewrite app_nil_r|]. destruct Hp as [Hp Hl].
  cbn [heard]. rewrite app_assoc. apply IH; [by apply act_good|done|by apply act_hand].
Qed.

(** * The contract of the client *)

(** C20: At any time the client listens to its current transport, to its messages exactly
    once it has a room, and to no other; without a transport it is disconnected and holds
    neither room nor handshake. *)
Theorem client_invariant l :
  let c := run l newClient in
  (rc_transport c = None → rc_state c = Disconnected ∧ rc_room c = None ∧ rc_handshake c = None)
  ∧ (∀ k z, rc_sessions c !! k = Some z →
      (ss_lifecycle z = true ↔ rc_transport c = Some k)
      ∧ ∀ r, ss_steady z = Some r ↔ rc_transport c = Some k ∧ rc_room c = Some r)
  ∧ ∀ k, rc_transport c = Some k → (k < length (rc_sessions c))%nat.
Proof.
  intros c. pose proof (run_good l newClient new_good) as [Hok _]. fold c in Hok. split; [|split].
  - intros Hn. destruct (ck_none _ Hok Hn) as (? & ? & _ & ?). done.
  - intros k z Hz. pose proof (ears_lookup _ _ _ Hz) as He. destruct (decide (rc_transport c = Some k)) as [Ht|Ht].
    + destruct (ck_some _ Hok k Ht) as [He' _]. rewrite He in He'. injection He' as -> ->. split; [done|]. intros r. split; [done|by intros []].
    + pose proof (ck_other _ Hok k _ He Ht) as Hx. injection Hx as -> ->. split; [done|]. intros r. split; [done|by intros []].
  - intros k Ht. destruct (ck_some _ Hok k Ht) as [He _]. apply ears_inv in He as (z & Hz & _). by eapply lookup_lt_Some.
Qed.

Lemma handed_over l k r :
  all_prompt l newClient →
  let c := run l newClient in
  rc_transport c = Some k → rc_room c = Some r → rc_rooms c !! r = fold_left read_message (heard k l newClient) None.
Proof.
  intros Hp c Ht Hr. assert (Hh : hand k [] newClient) by (by split; [|intros z]).
  pose proof (run_hand k l [] newClient new_good Hp Hh) as H1. fold c in H1. cbn [app] in H1.
  pose proof (run_good l newClient new_good) as [Hok _]. fold c in Hok.
  destruct (ck_some _ Hok k Ht) as [He _]. apply ears_inv in He as (z & Hz & _).
  pose proof (hd_made _ _ _ H1 z Ht Hz) as Hm. rewrite Hr in Hm. exact Hm.
Qed.

(** C19: Nothing is lost between the handshake and the room.  As long as its session is the
    client's, a room is what the messages the transport delivered make of it, from the
    first room-joined on, one after the other: those that came between the handshake and
    the room included. *)
Theorem client_handover l k r :
  all_prompt l newClient →
  let c := run l newClient in
  rc_transport c = Some k → rc_room c = Some r → rc_rooms c !! r = fold_left read_message (heard k l newClient) None.
Proof. apply handed_over. Qed.

(** ** Promises *)

Lemma forward_run k z l c :
  sessions_ok c → rc_sessions c !! k = Some z → ∃ z', rc_sessions (run l c) !! k = Some z' ∧ forward z z'.
Proof. intros Hok Hz. by apply (mv_fwd _ _ (steps_run l c Hok)). Qed.

Lemma run_sessions_ok l c : sessions_ok c → sessions_ok (run l c).
Proof. intros Hok. exact (mv_ok _ _ (steps_run l c Hok) Hok). Qed.

Lemma timer_result k c z :
  joinTimeout = true → sessions_ok c → rc_sessions c !! k = Some z →
  ∃ z', rc_sessions (on_handshake k hs_timeout c) !! k = Some z' ∧ is_Some (hs_result (ss_handshake z')).
Proof.
  intros Hj Hok Hz. cbn. rewrite list_lookup_alter_eq, Hz. eexists. split; [reflexivity|]. cbn.
  destruct (Hok k z Hz) as [[H0 _] Ht]. unfold hs_timeout, hs_settle. destruct (hs_settled (ss_handshake z)) eqn:E.
  - destruct (hs_timer _); cbn; auto.
  - rewrite Ht by done. rewrite Hj. cbn. eauto.
Qed.

Lemma settled_outcome k x c d : sessions_ok c → steps c d → (k < length (rc_sessions c))%nat →
  ∃ z, rc_sessions (on_session k (settle x) d) !! k = Some z ∧ is_Some (ss_outcome z).
Proof.
  intros Hok Hs Hk. destruct (lookup_lt_is_Some_2 _ _ (steps_length c d k Hok Hs Hk)) as [z Hz].
  cbn. rewrite list_lookup_alter_eq, Hz. eexists. split; [reflexivity|]. unfold settle. destruct (ss_outcome z) eqn:E; [by rewrite E|]. cbn. eauto.
Qed.

Lemma failed_outcome k e c : sessions_ok c → (k < length (rc_sessions c))%nat →
  ∃ z, rc_sessions (join_failed k e c) !! k = Some z ∧ is_Some (ss_outcome z).
Proof.
  intros Hok Hk. unfold join_failed. apply (settled_outcome k _ c); [done| |done]. set (c1 := put _ _).
  assert (H1 : steps c c1) by (etransitivity; [apply steps_handshake, hs_drain_ok|apply steps_put]).
  case_decide; [|exact H1]. etransitivity; [exact H1|]. etransitivity; [|apply steps_set_current].
  etransitivity; [apply (steps_set_handshake None)|]. etransitivity; [apply steps_setState|apply steps_run_cleanups].
Qed.

Lemma resume_outcome k c z :
  sessions_ok c → rc_sessions c !! k = Some z → is_Some (hs_result (ss_handshake z)) →
  ∃ z', rc_sessions (resume k c) !! k = Some z' ∧ is_Some (ss_outcome z').
Proof.
  intros Hok Hz Hr. assert (Hk : (k < length (rc_sessions c))%nat) by (by eapply lookup_lt_Some). unfold Client.resume. rewrite Hz.
  destruct (ss_outcome z) as [x|] eqn:Ho; [eauto|]. destruct (hs_result (ss_handshake z)) as [[j|e]|]; [| |by destruct Hr].
  - case_decide.
    + rewrite joined_opened. apply (settled_outcome k _ c); [done| |done]. etransitivity; [|apply steps_emit]. etransitivity; [|apply steps_put].
      etransitivity; [|apply steps_set_handshake]. etransitivity; [|apply steps_fold; intros; apply steps_steady].
      unfold opened. etransitivity; [|apply steps_handshake, hs_drain_ok]. etransitivity; [|apply steps_set_cleanups].
      etransitivity; [|apply steps_session; intros y Hy; by split; [constructor|]]. etransitivity; [|apply steps_set_current].
      etransitivity; [apply steps_setState|]. by apply steps_same.
    + assert (Hs : steps c (put (TClose k) (set_handshake None (on_handshake k hs_dispose c)))).
      { etransitivity; [apply steps_handshake, hs_drain_ok|]. etransitivity; [apply steps_set_handshake|apply steps_put]. }
      apply failed_outcome; [exact (mv_ok _ _ (Hs Hok) Hok)|by apply (steps_length c)].
  - by apply failed_outcome.
Qed.

(** C21: Every [joinRoom] comes to an end, whatever happens meanwhile: with a join timeout,
    its promise is settled once the timer was due and [joinRoom] went on; and a promise
    that is settled stays so. *)
Theorem join_settles k l1 l2 l3 :
  joinTimeout = true → (k < length (rc_sessions (run l1 newClient)))%nat →
  (∃ z, rc_sessions (run (l1 ++ JoinTimer k :: l2 ++ [Resume k]) newClient) !! k = Some z ∧ is_Some (ss_outcome z))
  ∧ ∀ z x, rc_sessions (run l1 newClient) !! k = Some z → ss_outcome z = Some x →
      ∃ z', rc_sessions (run (l1 ++ l3) newClient) !! k = Some z' ∧ ss_outcome z' = Some x.
Proof.
  intros Hj Hk. assert (H1 : sessions_ok (run l1 newClient)) by apply run_sessions_ok, new_sessions_ok.
  assert (Hrun : ∀ l l' c, run (l ++ l') c = run l' (run l c)) by (intros; apply fold_left_app). split.
  - destruct (lookup_lt_is_Some_2 _ _ Hk) as [z Hz]. rewrite Hrun. cbn [Client.run fold_left]. change (fold_left ?f ?l ?c) with (run l c).
    destruct (timer_result k _ z Hj H1 Hz) as (z1 & Hz1 & [x Hx]).
    assert (H2 : sessions_ok (on_handshake k hs_timeout (run l1 newClient))).
    { exact (mv_ok _ _ (steps_handshake k hs_timeout _ hs_timeout_ok H1) H1). }
    cbn [Client.act]. rewrite Hrun. destruct (forward_run k z1 l2 _ H2 Hz1) as (z2 & Hz2 & Hf).
    apply (resume_outcome k _ z2); [by apply run_sessions_ok|exact Hz2|]. exists x. by apply (fw_result _ _ Hf).
  - intros z x Hz Hx. rewrite Hrun. destruct (forward_run k z l3 _ H1 Hz) as (z' & Hz' & Hf). exists z'. split; [done|]. by apply (fw_outcome _ _ Hf).
Qed.
End theorems.

(** * On concrete runs *)

Definition any_url (_ : jsstr) : bool := true.
Definition no_url (_ : jsstr) : bool := false.
(** An application that joins again when its connection is terminated. *)
Definition rejoins (out : list client_out) : list app_call :=
  match last out with Some (Emits (EvTerminated _ _)) => [CallJoin (js "r")] | _ => [] end.
(** One that starts over on an error. *)
Definition restarts (out : list client_out) : list app_call :=
  match last out with Some (Emits (EvError _)) => [CallLeave; CallJoin (js "r")] | _ => [] end.

Definition hello (id : jsstr) (others : list jsstr) : ServerMessage :=
  RoomJoined (mkJoined (Some 1) (js "r") id others None None None None).

(** b joins between the handshake and the room, c once the room is there. *)
Definition joining : list action :=
  [Calls (CallJoin (js "r")); TMessage 0 (hello (js "a") []); TMessage 0 (PeerJoined (js "b") None None); Resume 0;
   TMessage 0 (PeerJoined (js "c") None None)].

Example joining_room :
  let c := run any_url true rejoins joining newClient in
  (rc_state c, rc_room c, peers <$> rc_rooms c, ss_outcome <$> rc_sessions c)
  = (Connected, Some 0%nat, [[js "a"; js "b"; js "c"]], [Some (inl 0%nat)]).
Proof. vm_compute. reflexivity. Qed.

(** Terminated, and joined again from within the event. *)
Lemma client_invariant_witness :
  let c := run any_url true rejoins (joining ++ [TTerminated 0 1008 []]) newClient in
  rc_transport c = Some 1%nat ∧ (ss_lifecycle <$> rc_sessions c) = [false; true] ∧ (1 < length (rc_sessions c))%nat.
Proof.
  destruct (client_invariant any_url true rejoins (λ _, eq_refl) (joining ++ [TTerminated 0 1008 []])) as (_ & _ & H).
  split; [vm_compute; reflexivity|]. split; [vm_compute; reflexivity|]. apply H. vm_compute. reflexivity.
Defined.

Lemma joining_prompt : all_prompt any_url true rejoins joining newClient.
Proof. vm_compute. repeat split; discriminate. Qed.

Lemma client_handover_witness :
  let c := run any_url true rejoins joining newClient in
  ∃ rm, rc_rooms c !! 0%nat = Some rm ∧ peers rm = [js "a"; js "b"; js "c"].
Proof.
  assert (Hr : rc_rooms (run any_url true rejoins joining newClient) !! 0%nat = fold_left read_message (heard any_url true rejoins 0 joining newClient) None).
  { apply (client_handover any_url true rejoins (λ _, eq_refl) joining 0 0 joining_prompt); vm_compute; reflexivity. }
  eexists. split; [rewrite Hr; vm_compute; reflexivity|vm_compute; reflexivity].
Defined.

(** A join nobody answers. *)
Lemma join_settles_witness :
  ∃ z, rc_sessions (run any_url true rejoins ([Calls (CallJoin (js "r"))] ++ JoinTimer 0 :: [TClosed 0 1006 []] ++ [Resume 0]) newClient) !! 0%nat = Some z
  ∧ is_Some (ss_outcome z).
Proof.
  apply (join_settles any_url true rejoins 0 [Calls (CallJoin (js "r"))] [TClosed 0 1006 []] [] eq_refl).
  vm_compute. lia.
Defined.

(** [joinRoom] becomes connecting before it builds the URL and the transport: when that
    throws, the client stays connecting and refuses every further [joinRoom] until
    [leave] is called. *)
Example bad_url_stays_connecting :
  let c := run no_url true rejoins [Calls (CallJoin (js "r")); Calls (CallJoin (js "r"))] newClient in
  (rc_state c, rc_transport c, rc_out c) = (Connecting, None, [JoinRefused BadUrl; JoinRefused AlreadyJoining]).
Proof. vm_compute. reflexivity. Qed.

(** A join that was left just after its room-joined forgets, when it goes on, the
    handshake of the next join, which [leave] then does not cancel any more. *)
Example stale_join_forgets_handshake :
  let start := [Calls (CallJoin (js "r")); TMessage 0 (hello (js "a") []); Calls CallLeave; Calls (CallJoin (js "r"))] in
  let result l := (λ z, hs_result (ss_handshake z)) <$> rc_sessions (run any_url false rejoins (start ++ l) newClient) !! 1%nat in
  result [Calls CallLeave; Resume 0] = Some (Some (inr CancelledByLeave))
  ∧ result [Resume 0; Calls CallLeave] = Some None.
Proof. split; vm_compute; reflexivity. Qed.

(** When the application leaves and joins again at an error that was buffered behind the
    room-joined, the first join goes on as if it were still the client's: the client says
    it is connected while it is connecting, and has forgotten the new handshake. *)
Example drain_crosses_sessions :
  let c := run any_url true restarts
    [Calls (CallJoin (js "r")); TMessage 0 (hello (js "a") []); TMessage 0 (Error (js "e") (js "m")); Resume 0] newClient in
  (rc_state c, rc_transport c, rc_handshake c) = (Connecting, Some 1%nat, None)
  ∧ last (rc_out c) = Some (Emits EvConnected) ∧ ss_outcome <$> rc_sessions c = [Some (inl 0%nat); None].
Proof. split; [vm_compute; reflexivity|]. split; vm_compute; reflexivity. Qed.
