(* ===== verification/RosterEndToEnd.v ===== *)
(** The room of the server and the client's view of it, end to end: Room.v, the wire, the
    transport's delivery, the handshake and the client's room together. *)

From S2P Require Import Prelude JsMap JsNumber Json Schema RateLimiter Peer Room ClientProtocol ClientRoom Roster Client ClientTheorems.

Definition is_ping (m : ServerMessage) : bool := match m with Ping => true | _ => false end.

(** What the transport delivers of what the server sent: every frame the schema accepts,
    in order, but the pings, which it answers itself (WebSocketTransport.ts). *)
Definition deliveries (sent : list Peer.ServerMessage) : list ServerMessage :=
  filter (λ m, is_ping m = false) (omap (λ m, parseServer (server_json m)) sent).

Lemma read_deliveries sent c : fold_left read_message (deliveries sent) c = fold_left read_frame sent c.
Proof.
  unfold deliveries. revert c. induction sent as [|m sent IH]; intros c; [done|]. cbn [omap list_omap fold_left].
  rewrite <- IH. unfold read_frame. destruct (parseServer (server_json m)) as [msg|]; [|done].
  rewrite filter_cons. case_decide as Hp; [done|]. destruct msg; try by destruct Hp. cbn. by destruct c.
Qed.

Section end_to_end.
Context {S : Type} `{WebSocketLaws S}.
Context (ws_send_ok : ∀ m (s : S), ws_open s = true → (ws_send m s).2 = false).
Context (build_ok : jsstr → bool) (joinTimeout : bool) (reacts : list client_out → list app_call).
Context (build_total : ∀ roomId, build_ok roomId = true).

(** C17: A client whose transport delivered, in order, what the server sent to its member
    shows exactly the members of the server's room, with their roles and metadata if
    reconnections keep them; however the messages fell on handshake and room. *)
Theorem client_sees_room full now id opts (heap : gmap nat (Peer S)) l lc me ref p k r :
  let s0 := mkRs heap (Room.newRoom now id opts) [] in
  let s := fold_left (λ s h, happen h s) l s0 in
  let c := run build_ok joinTimeout reacts lc newClient in
  all_told full l s0 → all_prompt build_ok joinTimeout reacts lc newClient →
  getPeer me (rs_room s) = Some ref → rs_heap s !! ref = Some p → ws_open (pe_ws p) = true →
  rc_transport c = Some k → rc_room c = Some r →
  heard build_ok joinTimeout reacts k lc newClient = deliveries (sent_of (outs_of ref (rs_out s))) →
  ∃ rm, rc_rooms c !! r = Some rm
  ∧ (∀ i, hasPeer i rm = true ↔ i ∈ getPeerIds (rs_room s))
  ∧ (full = true → ∀ i q pq, i ≠ me → getPeer i (rs_room s) = Some q → rs_heap s !! q = Some pq →
      default [] (getPeerRole i rm) = pe_role pq
      ∧ default [] (ClientRoom.getPeerMetadata i rm) = default [] (Room.getPeerMetadata i (rs_room s))).
Proof.
  intros s0 s c Htold Hprompt Hme Hp Ho Ht Hr Hd.
  destruct (told_roster ws_send_ok (λ _, None) full now id opts heap l Htold me ref p Hme Hp Ho) as (rm & Hrm & Hpeers & Hfull).
  exists rm. split; [|split; [exact Hpeers|]].
  - pose proof (handed_over build_ok joinTimeout reacts build_total lc k r Hprompt Ht Hr) as Hh. fold c in Hh. rewrite Hh, Hd, read_deliveries. exact Hrm.
  - intros Hf i q pq Hne Hq Hpq. destruct (Hfull Hf i q pq Hq Hpq) as [H1 H2]. by split; [apply H1|].
Qed.
End end_to_end.

(** * On a concrete run *)

Import plain.

(** What the server of [joined] sends to a, delivered to a client: the second joins
    while a's [joinRoom] has not gone on. *)
Definition a_hears : list ServerMessage := deliveries (sent_of (outs_of 0 (rs_out (runs joined)))).
Definition a_client : list action :=
  Calls (CallJoin (js "r")) :: (TMessage 0 <$> take 2 a_hears) ++ Resume 0 :: (TMessage 0 <$> drop 2 a_hears).

Lemma a_prompt : all_prompt any_url true rejoins a_client newClient.
Proof. vm_compute. repeat split; discriminate. Qed.

Lemma client_sees_room_witness :
  ∃ rm, rc_rooms (run any_url true rejoins a_client newClient) !! 0%nat = Some rm ∧ hasPeer (js "b") rm = true
  ∧ default [] (getPeerRole (js "b") rm) = js "host".
Proof.
  destruct (client_sees_room plain_send any_url true rejoins (λ _, eq_refl) true 0 (js "r") (mkOpts None None None None) ∅ joined a_client
    (js "a") 0 (member (js "a") []) 0 0 (joined_told true) a_prompt) as (rm & Hrm & Hp & He); [vm_compute; reflexivity..|].
  exists rm. split; [exact Hrm|]. split; [apply Hp; vm_compute; right; left|].
  destruct (He eq_refl (js "b") 1%nat (member (js "b") (js "host"))) as [Hb _]; [discriminate|vm_compute; reflexivity..|]. exact Hb.
Defined.
