(* ===== verification/MediaProtocol.v ===== *)
(** The messages of the media package: the signals peers exchange through a room
    (packages/media/src/protocol.ts), and the requests of the SFU handshake
    (sfuProtocol.ts). *)

From S2P Require Import Prelude JsMap JsNumber Json Schema.

(** * Fields *)

(** [z.number()]: finite. *)
Definition z_number (v : json) : option num :=
  match v with JNum x => if isFinite x then Some x else None | _ => None end.
Definition z_nullable {A} (p : json → option A) (v : json) : option (option A) :=
  match v with JNull => Some None | _ => Some <$> p v end.
(** [z.string().min(1)]. *)
Definition z_nonempty (v : json) : option jsstr :=
  match v with JStr ((_ :: _) as s) => Some s | _ => None end.
(** [z.record(z.string(), z.unknown())]. *)
Definition z_opaque (v : json) : option (jmap jsstr json) :=
  match v with JObj f => Some f | _ => None end.

Definition kCandidate := js "candidate".
Definition kSdpMLineIndex := js "sdpMLineIndex".
Definition kSdpMid := js "sdpMid".
Definition kUsernameFragment := js "usernameFragment".
Definition kKind := js "kind".
Definition kType := js "type".
Definition kSdp := js "sdp".

(** * Signals between peers *)

Record IceCandidate := mkIce {
  ic_candidate : option jsstr;
  ic_sdpMLineIndex : option (option num);
  ic_sdpMid : option (option jsstr);
  ic_usernameFragment : option (option jsstr);
}.

(** A [null] candidate ends the candidates. *)
Inductive MediaSignal :=
| Offer (sdp : jsstr)
| Answer (sdp : jsstr)
| Ice (candidate : option IceCandidate).

Definition parse_ice (v : json) : option IceCandidate :=
  f ← z_opaque v;
  c ← field_opt f kCandidate z_string;
  i ← field_opt f kSdpMLineIndex (z_nullable z_number);
  m ← field_opt f kSdpMid (z_nullable z_string);
  u ← field_opt f kUsernameFragment (z_nullable z_string);
  Some (mkIce c i m u).

Definition parse_signal (v : json) : option MediaSignal :=
  f ← z_opaque v;
  kind ← field f kKind z_string;
  if decide (kind ≠ js "media") then None
  else
    t ← field f kType z_string;
    if decide (t = js "offer") then Offer <$> field f kSdp z_string
    else if decide (t = js "answer") then Answer <$> field f kSdp z_string
    else if decide (t = js "ice") then Ice <$> field f kCandidate (z_nullable parse_ice)
    else None.

(** [isMediaSignal] and the signal it lets through. *)
Definition isMediaSignal (v : payload) : option MediaSignal := v' ← v; parse_signal v'.

Definition jnull {A} (f : A → json) (o : option A) : json := match o with Some a => f a | None => JNull end.
Definition ice_json (c : IceCandidate) : json :=
  JObj (jopt (jstr kCandidate) (ic_candidate c)
        ++ jopt (λ i, (kSdpMLineIndex, jnull JNum i)) (ic_sdpMLineIndex c)
        ++ jopt (λ m, (kSdpMid, jnull JStr m)) (ic_sdpMid c)
        ++ jopt (λ u, (kUsernameFragment, jnull JStr u)) (ic_usernameFragment c)).

(** The object literals of Call.ts. *)
Definition signal_json (s : MediaSignal) : json :=
  let head t := [jstr kKind (js "media"); jstr kType t] in
  JObj match s with
       | Offer sdp => head (js "offer") ++ [jstr kSdp sdp]
       | Answer sdp => head (js "answer") ++ [jstr kSdp sdp]
       | Ice c => head (js "ice") ++ [(kCandidate, jnull ice_json c)]
       end.

(** Numbers that JSON carries. *)
Definition ice_ok (c : IceCandidate) : Prop :=
  match ic_sdpMLineIndex c with Some (Some x) => isFinite x = true | _ => True end.
Definition signal_ok (s : MediaSignal) : Prop :=
  match s with Ice (Some c) => ice_ok c | _ => True end.

Lemma parse_ice_json c : ice_ok c → parse_ice (ice_json c) = Some c.
Proof.
  destruct c as [c i m u]; intros Hi. unfold ice_ok in Hi. cbn [ic_sdpMLineIndex] in Hi.
  unfold parse_ice, ice_json. cbn [z_opaque option_bind mbind ic_candidate ic_sdpMLineIndex ic_sdpMid ic_usernameFragment].
  destruct c as [c|], i as [[i|]|], m as [[m|]|], u as [[u|]|]; unfold jstr; cbn [jopt app jnull];
    repeat first [ read_field | progress cbn [z_nullable z_number jnull] | rewrite Hi | done ].
Qed.

Lemma z_nullable_json {A} (p : json → option A) (w : A → json) o :
  (∀ a, o = Some a → p (w a) = Some a ∧ w a ≠ JNull) → z_nullable p (jnull w o) = Some o.
Proof.
  intros Hp. destruct o as [a|]; [|done]. destruct (Hp a) as [Hpa Hn]; [done|]. cbn [jnull]. unfold z_nullable.
  rewrite Hpa. by destruct (w a).
Qed.

Lemma signal_read s : signal_ok s → isMediaSignal (Some (signal_json s)) = Some s.
Proof.
  intros Hs. unfold isMediaSignal, parse_signal, signal_json, jstr. cbn [option_bind mbind z_opaque].
  destruct s as [sdp|sdp|c]; cbn [app]; repeat read_field; try done.
  rewrite z_nullable_json; [done|]. intros a ->. split; [by apply parse_ice_json|done].
Qed.

(** * Requests of the SFU handshake *)

Inductive TransportDirection := Send | Recv.
#[export] Instance TransportDirection_eq_dec : EqDecision TransportDirection.
Proof. solve_decision. Defined.
Inductive MediaKind := Audio | Video.
#[export] Instance MediaKind_eq_dec : EqDecision MediaKind.
Proof. solve_decision. Defined.

(** The parameter objects of mediasoup are carried as they are. *)
Inductive SfuRequest :=
| GetCapabilities
| CreateTransport (direction : TransportDirection)
| ConnectTransport (transportId : jsstr) (dtlsParameters : jmap jsstr json)
| Produce (transportId : jsstr) (kind : MediaKind) (rtpParameters : jmap jsstr json)
| Consume (transportId producerId : jsstr) (rtpCapabilities : jmap jsstr json)
| ResumeConsumer (consumerId : jsstr).

Definition z_direction (v : json) : option TransportDirection :=
  s ← z_string v;
  if decide (s = js "send") then Some Send else if decide (s = js "recv") then Some Recv else None.
Definition z_kind (v : json) : option MediaKind :=
  s ← z_string v;
  if decide (s = js "audio") then Some Audio else if decide (s = js "video") then Some Video else None.

Definition kTransportId := js "transportId".
Definition kDtlsParameters := js "dtlsParameters".
Definition kRtpParameters := js "rtpParameters".
Definition kProducerId := js "producerId".
Definition kRtpCapabilities := js "rtpCapabilities".
Definition kConsumerId := js "consumerId".
Definition kDirection := js "direction".

(** [SfuRequestSchema.safeParse]. *)
Definition parseSfuRequest (v : payload) : option SfuRequest :=
  v' ← v;
  f ← z_opaque v';
  t ← field f kType z_string;
  if decide (t = js "sfu-caps") then Some GetCapabilities
  else if decide (t = js "sfu-create-transport") then CreateTransport <$> field f kDirection z_direction
  else if decide (t = js "sfu-connect-transport") then
    id ← field f kTransportId z_nonempty; ConnectTransport id <$> field f kDtlsParameters z_opaque
  else if decide (t = js "sfu-produce") then
    id ← field f kTransportId z_nonempty; k ← field f kKind z_kind;
    Produce id k <$> field f kRtpParameters z_opaque
  else if decide (t = js "sfu-consume") then
    id ← field f kTransportId z_nonempty; p ← field f kProducerId z_nonempty;
    Consume id p <$> field f kRtpCapabilities z_opaque
  else if decide (t = js "sfu-resume-consumer") then ResumeConsumer <$> field f kConsumerId z_nonempty
  else None.
