(* ===== verification/Tracks.v ===== *)
(** Local media tracks: the objects of the platform the program writes to, and the
    registry of what a call publishes (packages/media/src/LocalTrackRegistry.ts).

    Tracks are shared objects, held in a heap; streams are references. *)

From S2P Require Import Prelude JsMap MediaProtocol.

(** What the program reads and writes of a [MediaStreamTrack]: [mt_observable] says
    that the platform's tracks have [addEventListener], [mt_ended] how many listeners
    of its [ended] event are attached. *)
Record MediaStreamTrack := mkTrack {
  mt_kind : MediaKind;
  mt_enabled : bool;
  mt_contentHint : option jsstr;
  mt_stopped : bool;
  mt_observable : bool;
  mt_ended : nat;
}.

Definition set_enabled (b : bool) (t : MediaStreamTrack) : MediaStreamTrack :=
  mkTrack (mt_kind t) b (mt_contentHint t) (mt_stopped t) (mt_observable t) (mt_ended t).
Definition set_hint (h : jsstr) (t : MediaStreamTrack) : MediaStreamTrack :=
  mkTrack (mt_kind t) (mt_enabled t) (Some h) (mt_stopped t) (mt_observable t) (mt_ended t).
Definition stop_track (t : MediaStreamTrack) : MediaStreamTrack :=
  mkTrack (mt_kind t) (mt_enabled t) (mt_contentHint t) true (mt_observable t) (mt_ended t).
Definition set_ended (f : nat → nat) (t : MediaStreamTrack) : MediaStreamTrack :=
  mkTrack (mt_kind t) (mt_enabled t) (mt_contentHint t) (mt_stopped t) (mt_observable t) (f (mt_ended t)).

Record LocalTrackEntry := mkEntry { le_track : nat; le_stream : nat }.
#[export] Instance LocalTrackEntry_eq_dec : EqDecision LocalTrackEntry.
Proof. solve_decision. Defined.

Module Registry.

Abbreviation registry := (list LocalTrackEntry).

Definition make (stream : nat) (getTracks : list nat) : registry := (λ t, mkEntry t stream) <$> getTracks.

Definition add (track stream : nat) (reg : registry) : registry := reg ++ [mkEntry track stream].

(** The first entry of the track goes. *)
Fixpoint remove (track : nat) (reg : registry) : registry :=
  match reg with
  | [] => []
  | e :: reg' => if decide (le_track e = track) then reg' else e :: remove track reg'
  end.

Fixpoint replace (oldTrack newTrack : nat) (reg : registry) : registry :=
  match reg with
  | [] => []
  | e :: reg' => if decide (le_track e = oldTrack) then mkEntry newTrack (le_stream e) :: reg'
                 else e :: replace oldTrack newTrack reg'
  end.

Definition stopAll (reg : registry) (h : list MediaStreamTrack) : list MediaStreamTrack :=
  fold_left (λ h e, alter stop_track (le_track e) h) reg h.

Definition setKindEnabled (kind : MediaKind) (enabled : bool) (reg : registry) (h : list MediaStreamTrack) :
    list MediaStreamTrack :=
  fold_left (λ h e, alter (λ t, if decide (mt_kind t = kind) then set_enabled enabled t else t) (le_track e) h) reg h.

Definition of_kind (kind : MediaKind) (h : list MediaStreamTrack) (e : LocalTrackEntry) : option bool :=
  match h !! le_track e with
  | Some t => if decide (mt_kind t = kind) then Some (mt_enabled t) else None
  | None => None
  end.
Definition isKindMuted (kind : MediaKind) (reg : registry) (h : list MediaStreamTrack) : bool :=
  let r := fold_left (λ st e, match of_kind kind h e with
                              | Some enabled => (true, st.2 && negb enabled)
                              | None => st
                              end) reg (false, true) in
  r.1 && r.2.

End Registry.

(** * Lookup *)

Lemma tracks_add track stream reg : le_track <$> Registry.add track stream reg = (le_track <$> reg) ++ [track].
Proof. unfold Registry.add. by rewrite fmap_app. Qed.

Lemma elem_of_remove e track reg : e ∈ Registry.remove track reg → e ∈ reg.
Proof.
  induction reg as [|e' reg IH]; cbn [Registry.remove]; [done|]. case_decide as He; [by right|].
  intros [->|Hin]%elem_of_cons; [by left|]. right. auto.
Qed.

Lemma lookup_fold_alter (f : MediaStreamTrack → MediaStreamTrack) i reg (h : list MediaStreamTrack) :
  (∀ t, f (f t) = f t) →
  fold_left (λ h e, alter f (le_track e) h) reg h !! i =
    if decide (i ∈ (le_track <$> reg)) then f <$> h !! i else h !! i.
Proof.
  intros Hf. revert h. induction reg as [|e reg IH]; intros h; cbn [fold_left fmap list_fmap]; [done|].
  rewrite IH. destruct (decide (le_track e = i)) as [<-|Hne].
  - rewrite list_lookup_alter_eq. rewrite (decide_True (P := le_track e ∈ le_track e :: _)) by by left.
    case_decide; [|done]. destruct (h !! le_track e); cbn; [by rewrite Hf|done].
  - rewrite list_lookup_alter_ne by done. destruct (decide (i ∈ (le_track <$> reg))) as [Hi|Hi].
    + by rewrite decide_True by by right.
    + rewrite decide_False; [done|]. by intros [->|]%elem_of_cons.
Qed.

(** * Muting *)

Lemma muted_spec kind reg h :
  Registry.isKindMuted kind reg h = true ↔
  (∃ e, e ∈ reg ∧ is_Some (Registry.of_kind kind h e)) ∧ ∀ e b, e ∈ reg → Registry.of_kind kind h e = Some b → b = false.
Proof.
  unfold Registry.isKindMuted.
  assert (∀ f a, (let r := fold_left (λ st e, match Registry.of_kind kind h e with
                              | Some enabled => (true, st.2 && negb enabled) | None => st end) reg (f, a) in r.1 && r.2) = true ↔
    (f = true ∨ ∃ e, e ∈ reg ∧ is_Some (Registry.of_kind kind h e))
    ∧ a = true ∧ ∀ e b, e ∈ reg → Registry.of_kind kind h e = Some b → b = false) as ->.
  { induction reg as [|e reg IH]; intros f a.
    - cbn. rewrite andb_true_iff. split; [intros [-> ->]|intros [[->|(e & Hin%elem_of_nil & _)] [-> _]]]; try done.
      split; [by left|split; [done|]]. by intros e b Hin%elem_of_nil.
    - cbn [fold_left]. destruct (Registry.of_kind kind h e) as [b|] eqn:E; cbn [fst snd] in *.
      + rewrite IH, andb_true_iff, negb_true_iff. split.
        * intros (_ & [-> ->] & Hall). split; [right; exists e; rewrite E; split; [by left|done]|]. split; [done|].
          intros e' b [->|Hin]%elem_of_cons Eb; [congruence|eauto].
        * intros (_ & -> & Hall). split; [by left|]. split; [split; [done|]; apply (Hall e); [by left|done]|].
          intros e' b' Hin. apply Hall. by right.
      + rewrite IH. split.
        * intros (Hf & -> & Hall). split; [destruct Hf as [?|(e' & Hin & He')]; [by left|right; exists e'; split; [by right|done]]|].
          split; [done|]. intros e' b [->|Hin]%elem_of_cons Eb; [congruence|eauto].
        * intros (Hf & -> & Hall). split; [|split; [done|intros e' b Hin; apply Hall; by right]].
          destruct Hf as [?|(e' & [->|Hin]%elem_of_cons & He')]; [by left| |right; eauto]. destruct He'; congruence. }
  naive_solver.
Qed.

(** Muting a kind is seen by [isKindMuted] if there is a track of the kind, and leaves
    the tracks of the other kind alone. *)
Lemma muted_after_mute kind b reg h :
  (∃ e, e ∈ reg ∧ is_Some (Registry.of_kind kind h e)) →
  Registry.isKindMuted kind reg (Registry.setKindEnabled kind b reg h) = negb b
  ∧ ∀ i t, h !! i = Some t → mt_kind t ≠ kind → Registry.setKindEnabled kind b reg h !! i = Some t.
Proof.
  intros (e & Hin & He).
  assert (∀ i, Registry.setKindEnabled kind b reg h !! i =
    if decide (i ∈ (le_track <$> reg)) then (λ t, if decide (mt_kind t = kind) then set_enabled b t else t) <$> h !! i else h !! i) as L.
  { intros i. apply lookup_fold_alter. intros t. destruct (decide (mt_kind t = kind)) as [E|E]; [|by rewrite decide_False].
    by rewrite decide_True. }
  assert (∀ e', e' ∈ reg → Registry.of_kind kind (Registry.setKindEnabled kind b reg h) e' = (λ _, b) <$> Registry.of_kind kind h e') as K.
  { intros e' Hin'. unfold Registry.of_kind. rewrite L, decide_True by by apply list_elem_of_fmap_2.
    destruct (h !! le_track e') as [t|]; [|done]. cbn [fmap option_fmap option_map].
    destruct (decide (mt_kind t = kind)) as [E|E]; [|by rewrite decide_False]. cbn. by rewrite decide_True. }
  split; [|intros i t Ht Hk; rewrite L; case_decide; rewrite Ht; cbn; [by rewrite decide_False|done]].
  destruct b; cbn [negb].
  - apply not_true_is_false. intros [_ Hall]%muted_spec. destruct He as [x Hx].
    specialize (Hall e true Hin). rewrite K, Hx in Hall by done. by discriminate Hall.
  - apply muted_spec. split; [exists e; split; [done|]; rewrite K by done; by destruct He as [x ->]|].
    intros e' b' Hin'. rewrite K by done. destruct (Registry.of_kind kind h e'); [|done]. by intros [= <-].
Qed.
