(* ===== verification/PeerConnection.v ===== *)
(** One connection of a call: perfect negotiation, candidates, local tracks
    (packages/media/src/PeerConnection.ts).

    The platform's [RTCPeerConnection] is outside: the calls it gets are logged, its
    promises settle as later steps, which say how, and what the code reads of it at a
    step (its signaling state, its descriptions) is part of the step. *)

From S2P Require Import Prelude JsMap JsNumber MediaProtocol.

(** * The platform *)

Record SimulcastLayer := mkLayer { sl_rid : jsstr; sl_maxBitrate : Z; sl_scale : option num }.
Record SendEncoding := mkEncoding { se_rid : option jsstr; se_maxBitrate : Z; se_scale : option num }.

(** Calls of the native connection and its senders. *)
Inductive native_call :=
| NSetLocal
| NRollback
| NSetRemote (offer : bool) (sdp : jsstr)
| NAddIce (candidate : option IceCandidate)
| NAddTrack (track stream : nat)
| NAddTransceiver (track stream : nat) (sendEncodings : list SendEncoding)
| NRemoveTrack (sender : nat)
| NReplaceTrack (sender track : nat)
| NSetCodecPreferences (sender : nat) (mimeTypes : list jsstr)
| NCreateDataChannel (label : jsstr)
| NRestartIce
| NClose.

(** What the platform answers, given what was called before: the sender of a track, or
    [None] if the call throws; the kind of a sender's track; whether a sender has a
    transceiver; the codecs of a kind, by mime type. *)
Class Platform := {
  p_sender : list native_call → native_call → option nat;
  p_senderKind : list native_call → nat → option MediaKind;
  p_hasTransceiver : list native_call → nat → bool;
  p_capabilities : MediaKind → option (list jsstr);
}.

Inductive SdpType := TOffer | TPranswer | TAnswer | TRollback.
#[export] Instance SdpType_eq_dec : EqDecision SdpType.
Proof. solve_decision. Defined.
Record Description := mkDesc { d_type : SdpType; d_sdp : option jsstr }.

Inductive ConnState := New | Connecting | Connected | Disconnected | Failed | Closed.
#[export] Instance ConnState_eq_dec : EqDecision ConnState.
Proof. solve_decision. Defined.

Record RemoteStream := mkStream { rs_ref : nat; rs_id : jsstr }.

(** [ConnectionEvent]. *)
Inductive conn_event :=
| NegotiationNeeded (desc : Description)
| IceFound (candidate : option IceCandidate)
| TrackFound (track : nat) (streams : list RemoteStream)
| StateChange (state : ConnState)
| ConnError
| ChannelFound (channel : nat).

(** The options of a call that its connections use, and the others. *)
Record CallOptions := mkOptions {
  co_codec : option jsstr;
  co_maxBitrate : option Z;
  co_negotiationTimeoutMs : option Z;
  co_maxIceRestarts : option Z;
  co_stopTracksOnClose : bool;
  co_simulcast : option (list SimulcastLayer);
  co_screenHint : option jsstr;
  co_screenBitrate : option Z;
  co_candidateFilter : option (IceCandidate → bool);
  co_isPolite : option (jsstr → jsstr → bool);
}.
Definition no_options : CallOptions := mkOptions None None None None false None None None None None.

(** * State *)

(** Where a [handleOffer] or [handleAnswer] is suspended.  [Draining offer i] awaits the
    native call for the [i]-th pending candidate; the last two await nothing but the
    caller. *)
Inductive phase :=
| RollingBack (sdp : jsstr)
| SettingRemote (offer : bool)
| Draining (offer : bool) (i : nat)
| DrainingEnd (offer : bool)
| SettingLocal
| OfferHandled (answer : option Description)
| AnswerHandled.

Record PeerConnection := mkPC {
  pc_polite : bool;
  pc_makingOffer : bool;
  pc_offerGeneration : Z;
  pc_pendingCandidates : list IceCandidate;
  pc_eocBuffered : bool;
  pc_senderMap : jmap nat nat;
  pc_listened : bool;               (* the owner's listeners are attached *)
  pc_offers : list Z;               (* suspended [onnegotiationneeded], by generation *)
  pc_handlers : list phase;         (* suspended [handleOffer], [handleAnswer] *)
  pc_replaces : list (nat * nat * nat); (* suspended [replaceTrack]: old, sender, new *)
  pc_calls : list native_call;
}.
Implicit Types (pc : PeerConnection).

Definition newPeerConnection (polite : bool) : PeerConnection :=
  mkPC polite false 0 [] false [] false [] [] [] [].

Definition set_offer (making : bool) (gen : Z) (offers : list Z) pc : PeerConnection :=
  mkPC (pc_polite pc) making gen (pc_pendingCandidates pc) (pc_eocBuffered pc) (pc_senderMap pc) (pc_listened pc) offers
    (pc_handlers pc) (pc_replaces pc) (pc_calls pc).
Definition set_pending (cs : list IceCandidate) (eoc : bool) pc : PeerConnection :=
  mkPC (pc_polite pc) (pc_makingOffer pc) (pc_offerGeneration pc) cs eoc (pc_senderMap pc) (pc_listened pc) (pc_offers pc)
    (pc_handlers pc) (pc_replaces pc) (pc_calls pc).
Definition set_senders (m : jmap nat nat) (rs : list (nat * nat * nat)) pc : PeerConnection :=
  mkPC (pc_polite pc) (pc_makingOffer pc) (pc_offerGeneration pc) (pc_pendingCandidates pc) (pc_eocBuffered pc) m (pc_listened pc)
    (pc_offers pc) (pc_handlers pc) rs (pc_calls pc).
Definition set_listened (b : bool) pc : PeerConnection :=
  mkPC (pc_polite pc) (pc_makingOffer pc) (pc_offerGeneration pc) (pc_pendingCandidates pc) (pc_eocBuffered pc) (pc_senderMap pc) b
    (pc_offers pc) (pc_handlers pc) (pc_replaces pc) (pc_calls pc).
Definition set_handlers (hs : list phase) pc : PeerConnection :=
  mkPC (pc_polite pc) (pc_makingOffer pc) (pc_offerGeneration pc) (pc_pendingCandidates pc) (pc_eocBuffered pc) (pc_senderMap pc)
    (pc_listened pc) (pc_offers pc) hs (pc_replaces pc) (pc_calls pc).
Definition call (c : native_call) pc : PeerConnection :=
  mkPC (pc_polite pc) (pc_makingOffer pc) (pc_offerGeneration pc) (pc_pendingCandidates pc) (pc_eocBuffered pc) (pc_senderMap pc)
    (pc_listened pc) (pc_offers pc) (pc_handlers pc) (pc_replaces pc) (pc_calls pc ++ [c]).

(** * Offers *)

(** [onnegotiationneeded], up to its [await]. *)
Definition onnegotiationneeded pc : PeerConnection :=
  if pc_makingOffer pc then pc
  else
    let gen := pc_offerGeneration pc + 1 in
    call NSetLocal (set_offer true gen (pc_offers pc ++ [gen]) pc).

(** The rest of the [i]-th suspended one: [ok] if [setLocalDescription] succeeded,
    [local] the local description then. *)
Definition offer_resumed (i : nat) (ok : bool) (local : option Description) pc : PeerConnection * list conn_event :=
  match pc_offers pc !! i with
  | None => (pc, [])
  | Some gen =>
      let pc1 := set_offer (pc_makingOffer pc) (pc_offerGeneration pc) (delete i (pc_offers pc)) pc in
      if decide (gen = pc_offerGeneration pc) then
        (set_offer false (pc_offerGeneration pc) (pc_offers pc1) pc1,
         if ok then match local with
                    | Some d => if decide (d_type d = TOffer) then [NegotiationNeeded d] else []
                    | None => []
                    end
         else [ConnError])
      else (pc1, [])
  end.

(** * Remote descriptions *)

Definition suspend (ph : phase) pc : PeerConnection := set_handlers (pc_handlers pc ++ [ph]) pc.

(** After the candidates: the answer is made, or [handleAnswer] returns. *)
Definition after_drain (offer : bool) pc : PeerConnection * phase :=
  if offer then (call NSetLocal pc, SettingLocal) else (pc, AnswerHandled).
(** [drainCandidates] from the [i]-th candidate on, up to its next [await]. *)
Definition drain (offer : bool) (i : nat) pc : PeerConnection * phase :=
  match pc_pendingCandidates pc !! i with
  | Some c => (call (NAddIce (Some c)) pc, Draining offer i)
  | None =>
      let pc1 := set_pending [] (pc_eocBuffered pc) pc in
      if pc_eocBuffered pc then (call (NAddIce None) (set_pending [] false pc1), DrainingEnd offer)
      else after_drain offer pc1
  end.

(** [stable]: the native connection's signaling state is [stable]. *)
Definition handleOffer (sdp : jsstr) (stable : bool) pc : PeerConnection :=
  if pc_makingOffer pc || negb stable then
    if negb (pc_polite pc) then suspend (OfferHandled None) pc
    else
      suspend (RollingBack sdp)
        (call NRollback (set_offer false (pc_offerGeneration pc + 1) (pc_offers pc) pc))
  else suspend (SettingRemote true) (call (NSetRemote true sdp) pc).

Definition handleAnswer (sdp : jsstr) pc : PeerConnection :=
  suspend (SettingRemote false) (call (NSetRemote false sdp) pc).

(** A handler that failed: its [catch]. *)
Definition handler_failed (offer : bool) pc : PeerConnection * list conn_event * phase :=
  (pc, [ConnError], if offer then OfferHandled None else AnswerHandled).

(** A handler from one [await] to the next: [ok] if what it awaited succeeded. *)
Definition continue (ph : phase) (ok : bool) (local : option Description) pc :
    PeerConnection * list conn_event * phase :=
  match ph with
  | RollingBack sdp =>
      if ok then (call (NSetRemote true sdp) pc, [], SettingRemote true) else handler_failed true pc
  | SettingRemote offer =>
      if ok then let '(pc1, ph1) := drain offer 0 pc in (pc1, [], ph1) else handler_failed offer pc
  | Draining offer i => let '(pc1, ph1) := drain offer (S i) pc in (pc1, [], ph1)
  | DrainingEnd offer => let '(pc1, ph1) := after_drain offer pc in (pc1, [], ph1)
  | SettingLocal => if ok then (pc, [], OfferHandled local) else handler_failed true pc
  | OfferHandled _ | AnswerHandled => (pc, [], ph)
  end.
Definition handler_resumed (i : nat) (ok : bool) (local : option Description) pc : PeerConnection * list conn_event :=
  match pc_handlers pc !! i with
  | None => (pc, [])
  | Some ph =>
      let '(pc1, evs, ph1) := continue ph ok local pc in
      (set_handlers (<[i := ph1]> (pc_handlers pc1)) pc1, evs)
  end.

(** * Candidates *)

Definition MAX_PENDING_CANDIDATES : nat := 100.

(** [remote]: the native connection has a remote description.  Its own promise is
    awaited by nobody. *)
Definition addIceCandidate (candidate : option IceCandidate) (remote : bool) pc : PeerConnection * list conn_event :=
  if remote then (call (NAddIce candidate) pc, [])
  else
    match candidate with
    | None => (set_pending (pc_pendingCandidates pc) true pc, [])
    | Some c =>
        if bool_decide (length (pc_pendingCandidates pc) < MAX_PENDING_CANDIDATES)%nat
        then (set_pending (pc_pendingCandidates pc ++ [c]) (pc_eocBuffered pc) pc, [])
        else (pc, [ConnError])
    end.

(** * Events of the native connection that are passed on *)

Definition onicecandidate (o : CallOptions) (candidate : option IceCandidate) : list conn_event :=
  match candidate, co_candidateFilter o with
  | Some c, Some f => if f c then [IceFound candidate] else []
  | _, _ => [IceFound candidate]
  end.

(** * Local tracks *)

Section tracks.
Context `{Platform} (o : CallOptions).

Definition to_lower (s : jsstr) : jsstr := (λ c, if (65 <=? c) && (c <=? 90) then c + 32 else c) <$> s.
Definition starts_with (p s : jsstr) : bool := bool_decide (take (length p) s = p).
Fixpoint includes (p s : jsstr) : bool :=
  starts_with p s || match s with [] => false | _ :: s' => includes p s' end.

(** Codecs are matched by mime type, which is ASCII. *)
Definition applyCodecPreference (sender : nat) pc : PeerConnection :=
  match co_codec o with
  | None | Some [] => pc
  | Some codec =>
      match p_senderKind (pc_calls pc) sender with
      | None => pc
      | Some kind =>
          match p_capabilities kind with
          | None => pc
          | Some codecs =>
              let wanted m := includes (to_lower codec) (to_lower m) in
              let preferred := filter (λ m, wanted m = true) codecs in
              let rest := filter (λ m, wanted m = false) codecs in
              if bool_decide (preferred = []) then pc
              else if p_hasTransceiver (pc_calls pc) sender
              then call (NSetCodecPreferences sender (preferred ++ rest)) pc
              else pc
          end
      end
  end.

Definition layer_encoding (l : SimulcastLayer) : SendEncoding := mkEncoding (Some (sl_rid l)) (sl_maxBitrate l) (sl_scale l).

(** The native call that adds a track. *)
Definition add_call (track stream : nat) (maxBitrate : option Z) : native_call :=
  match default [] (co_simulcast o), maxBitrate with
  | (_ :: _) as layers, _ => NAddTransceiver track stream (layer_encoding <$> layers)
  | [], Some b => NAddTransceiver track stream [mkEncoding None b None]
  | [], None => NAddTrack track stream
  end.

(** [false]: it threw. *)
Definition addTrack (track stream : nat) (maxBitrate : option Z) pc : PeerConnection * bool :=
  let c := add_call track stream maxBitrate in
  match p_sender (pc_calls pc) c with
  | None => (call c pc, false)
  | Some sender =>
      let pc1 := call c pc in
      (applyCodecPreference sender (set_senders (mset track sender (pc_senderMap pc1)) (pc_replaces pc1) pc1), true)
  end.

Definition removeTrack (track : nat) pc : PeerConnection :=
  match mget track (pc_senderMap pc) with
  | None => pc
  | Some sender =>
      let pc1 := call (NRemoveTrack sender) pc in set_senders (mdel track (pc_senderMap pc1)) (pc_replaces pc1) pc1
  end.

Definition replaceTrack (oldTrack newTrack : nat) pc : PeerConnection :=
  match mget oldTrack (pc_senderMap pc) with
  | None => pc
  | Some sender =>
      let pc1 := call (NReplaceTrack sender newTrack) pc in
      set_senders (pc_senderMap pc1) (pc_replaces pc1 ++ [(oldTrack, sender, newTrack)]) pc1
  end.
Definition replace_resumed (i : nat) (ok : bool) pc : PeerConnection :=
  match pc_replaces pc !! i with
  | None => pc
  | Some (oldTrack, sender, newTrack) =>
      let rs := delete i (pc_replaces pc) in
      if ok then set_senders (mset newTrack sender (mdel oldTrack (pc_senderMap pc))) rs pc
      else set_senders (pc_senderMap pc) rs pc
  end.
End tracks.

Definition createDataChannel (label : jsstr) pc : PeerConnection := call (NCreateDataChannel label) pc.
Definition restartIce pc : PeerConnection := call NRestartIce pc.
Definition close pc : PeerConnection := call NClose pc.
Definition removeAllListeners pc : PeerConnection := set_listened false pc.
