(* ===== verification/PeerConnectionTheorems.v ===== *)
(** One connection: which offer is under way, and that no candidate is lost. *)

From S2P Require Import Prelude JsMap JsNumber MediaProtocol PeerConnection.

(** * Runs of one connection *)

(** The methods of a connection, its native events and its promises; [CTake] is the
    caller of a handler that has returned. *)
Inductive conn_act :=
| CNeeded
| COfferDone (i : nat) (ok : bool) (local : option Description)
| COffer (sdp : jsstr) (stable : bool)
| CAnswer (sdp : jsstr)
| CContinue (i : nat) (ok : bool) (local : option Description)
| CTake (i : nat)
| CIce (candidate : option IceCandidate) (remote : bool)
| CAddTrack (track stream : nat) (maxBitrate : option Z)
| CRemoveTrack (track : nat)
| CReplaceTrack (oldTrack newTrack : nat)
| CReplaced (i : nat) (ok : bool)
| CChannel (label : jsstr)
| CRestartIce
| CClose.

Definition returned (ph : phase) : bool := match ph with OfferHandled _ | AnswerHandled => true | _ => false end.
Definition take_handler (i : nat) (pc : PeerConnection) : PeerConnection :=
  match pc_handlers pc !! i with
  | Some ph => if returned ph then set_handlers (delete i (pc_handlers pc)) pc else pc
  | None => pc
  end.

Section connection.
Context `{Platform} (o : CallOptions).

Definition conn_step (a : conn_act) (pc : PeerConnection) : PeerConnection * list conn_event :=
  match a with
  | CNeeded => (onnegotiationneeded pc, [])
  | COfferDone i ok local => offer_resumed i ok local pc
  | COffer sdp stable => (handleOffer sdp stable pc, [])
  | CAnswer sdp => (handleAnswer sdp pc, [])
  | CContinue i ok local => handler_resumed i ok local pc
  | CTake i => (take_handler i pc, [])
  | CIce c remote => addIceCandidate c remote pc
  | CAddTrack t s b => ((addTrack o t s b pc).1, [])
  | CRemoveTrack t => (removeTrack t pc, [])
  | CReplaceTrack old new => (replaceTrack old new pc, [])
  | CReplaced i ok => (replace_resumed i ok pc, [])
  | CChannel l => (createDataChannel l pc, [])
  | CRestartIce => (restartIce pc, [])
  | CClose => (close (removeAllListeners pc), [])
  end.
Definition conn_run (l : list conn_act) (pc : PeerConnection) : PeerConnection :=
  fold_left (λ pc a, (conn_step a pc).1) l pc.

(** * Steps that only touch tracks and listeners *)

(** Everything but listeners, senders and calls is the same; the calls grow. *)
Record aside (pc pc' : PeerConnection) : Prop := {
  as_offer : (pc_makingOffer pc', pc_offerGeneration pc', pc_offers pc') = (pc_makingOffer pc, pc_offerGeneration pc, pc_offers pc);
  as_ice : (pc_pendingCandidates pc', pc_eocBuffered pc', pc_handlers pc') = (pc_pendingCandidates pc, pc_eocBuffered pc, pc_handlers pc);
  as_calls : pc_calls pc ⊆ pc_calls pc';
}.
#[local] Instance aside_refl : Reflexive aside. Proof. by split. Qed.
#[local] Instance aside_trans : Transitive aside.
Proof. intros x y z [H1 H2 H3] [H4 H5 H6]. split; [congruence..|set_solver]. Qed.
Lemma aside_call c pc : aside pc (call c pc).
Proof. split; [done..|]. cbn. set_solver. Qed.
Lemma aside_senders m rs pc : aside pc (set_senders m rs pc). Proof. by split. Qed.
Lemma aside_listened b pc : aside pc (set_listened b pc). Proof. by split. Qed.
Lemma aside_codec s pc : aside pc (applyCodecPreference o s pc).
Proof.
  unfold applyCodecPreference. repeat case_match; try reflexivity. apply aside_call.
Qed.
Lemma aside_add t s b pc : aside pc (addTrack o t s b pc).1.
Proof.
  unfold addTrack. destruct (p_sender _ _); [|apply aside_call].
  etrans; [apply aside_call|]. etrans; [apply aside_senders|]. apply aside_codec.
Qed.
Lemma aside_remove t pc : aside pc (removeTrack t pc).
Proof. unfold removeTrack. case_match; [|reflexivity]. etrans; [apply aside_call|apply aside_senders]. Qed.
Lemma aside_replace t t' pc : aside pc (replaceTrack t t' pc).
Proof. unfold replaceTrack. case_match; [|reflexivity]. etrans; [apply aside_call|apply aside_senders]. Qed.
Lemma aside_replaced i ok pc : aside pc (replace_resumed i ok pc).
Proof. unfold replace_resumed. repeat case_match; try reflexivity; apply aside_senders. Qed.

(** The steps that matter to negotiation, and the others. *)
Definition negotiates (a : conn_act) : bool :=
  match a with CNeeded | COfferDone _ _ _ | COffer _ _ | CAnswer _ | CContinue _ _ _ | CTake _ | CIce _ _ => true | _ => false end.
Lemma aside_step a pc : negotiates a = false → aside pc (conn_step a pc).1.
Proof.
  destruct a; try done; intros _; cbn [conn_step fst].
  - apply aside_add. - apply aside_remove. - apply aside_replace. - apply aside_replaced. - apply aside_call.
  - apply aside_call. - etrans; [apply aside_listened|apply aside_call].
Qed.

(** * Offers *)

Record offers_ok (pc : PeerConnection) : Prop := {
  of_nodup : NoDup (pc_offers pc);
  of_past : Forall (λ g, g ≤ pc_offerGeneration pc) (pc_offers pc);
  of_making : pc_makingOffer pc = true ↔ pc_offerGeneration pc ∈ pc_offers pc;
}.

Lemma offers_aside pc pc' :
  (pc_makingOffer pc', pc_offerGeneration pc', pc_offers pc') = (pc_makingOffer pc, pc_offerGeneration pc, pc_offers pc) →
  offers_ok pc → offers_ok pc'.
Proof. intros [= H1 H2 H3] []. by split; rewrite ?H1, ?H2, ?H3. Qed.

Lemma offers_needed pc : offers_ok pc → offers_ok (onnegotiationneeded pc).
Proof.
  intros [Hn Hp Hm]. unfold onnegotiationneeded. destruct (pc_makingOffer pc) eqn:E; [by split; rewrite ?E|].
  rewrite Forall_forall in Hp. split; cbn.
  - apply NoDup_snoc; [done|]. intros Hin%Hp. lia.
  - apply Forall_app. split; [|by repeat constructor; lia]. apply Forall_forall. intros g Hg%Hp. lia.
  - set_solver.
Qed.

Lemma offers_rolled gen pc : gen = pc_offerGeneration pc + 1 → offers_ok pc → offers_ok (set_offer false gen (pc_offers pc) pc).
Proof.
  intros -> [Hn Hp Hm]. rewrite Forall_forall in Hp. split; cbn; [done|apply Forall_forall; intros g Hg%Hp; lia|].
  split; [done|]. intros Hin%Hp. lia.
Qed.

Lemma offers_handle sdp st pc : offers_ok pc → offers_ok (handleOffer sdp st pc).
Proof.
  intros Hok. unfold handleOffer. repeat case_match; try by apply (offers_aside pc).
  apply (offers_aside (set_offer false (pc_offerGeneration pc + 1) (pc_offers pc) pc)); [done|]. by apply offers_rolled.
Qed.

Lemma delete_not_in {A} (l : list A) i x : NoDup l → l !! i = Some x → x ∉ delete i l.
Proof.
  intros Hn Hi Hin. pose proof (proj1 (NoDup_alt l) Hn) as Hinj. apply list_elem_of_lookup in Hin as [j Hj].
  destruct (decide (j < i)%nat).
  - rewrite list_lookup_delete_lt in Hj by lia. specialize (Hinj _ _ _ Hi Hj). lia.
  - rewrite list_lookup_delete_ge in Hj by lia. specialize (Hinj _ _ _ Hi Hj). lia.
Qed.
Lemma delete_sublist {A} (l : list A) i : delete i l `sublist_of` l.
Proof. apply sublist_delete. Qed.
Lemma delete_other {A} (l : list A) i x y : l !! i = Some x → y ≠ x → y ∈ l → y ∈ delete i l.
Proof.
  intros Hi Hne Hin. rewrite <- (take_drop_middle l i x Hi) in Hin. rewrite delete_take_drop. set_solver.
Qed.

Lemma offers_resumed i ok local pc :
  offers_ok pc →
  offers_ok (offer_resumed i ok local pc).1
  ∧ ((offer_resumed i ok local pc).2 ≠ [] →
     pc_offers pc !! i = Some (pc_offerGeneration pc) ∧ pc_makingOffer pc = true
     ∧ pc_makingOffer (offer_resumed i ok local pc).1 = false).
Proof.
  intros [Hn Hp Hm]. unfold offer_resumed. destruct (pc_offers pc !! i) as [g|] eqn:E; [|done].
  assert (Forall (λ x, x ≤ pc_offerGeneration pc) (delete i (pc_offers pc))) as Hp'
    by (eapply Forall_sub; [apply delete_sublist|done]).
  assert (NoDup (delete i (pc_offers pc))) as Hn' by (eapply sublist_NoDup; [exact Hn|apply delete_sublist]).
  case_decide as Hg; cbn [fst snd].
  - subst g. split; [split; cbn; [done..|]|].
    + split; [done|]. intros Hin. by destruct (delete_not_in _ _ _ Hn E).
    + intros _. split; [done|]. split; [apply Hm; by eapply list_elem_of_lookup_2|done].
  - split; [|done]. split; cbn; [done..|]. rewrite Hm. split; intros Hin.
    + by eapply delete_other.
    + eapply elem_of_submseteq; [done|]. apply sublist_submseteq, delete_sublist.
Qed.

Lemma drain_offer offer i pc : let '(pc1, _) := drain offer i pc in
  (pc_makingOffer pc1, pc_offerGeneration pc1, pc_offers pc1) = (pc_makingOffer pc, pc_offerGeneration pc, pc_offers pc).
Proof. unfold drain, after_drain. by repeat case_match; simplify_eq. Qed.

Lemma continue_offer ph ok local pc : let '(pc1, _, _) := continue ph ok local pc in
  (pc_makingOffer pc1, pc_offerGeneration pc1, pc_offers pc1) = (pc_makingOffer pc, pc_offerGeneration pc, pc_offers pc).
Proof.
  destruct ph as [?|f|f i|f| |?|]; cbn [continue]; unfold handler_failed; try (by destruct ok).
  - destruct ok; [|done]. pose proof (drain_offer f 0 pc). by destruct (drain f 0 pc).
  - pose proof (drain_offer f (S i) pc). by destruct (drain f (S i) pc).
  - unfold after_drain. by destruct f.
Qed.

Lemma offers_step a pc : offers_ok pc → offers_ok (conn_step a pc).1.
Proof.
  intros Hok. destruct (negotiates a) eqn:E.
  - destruct a; try done; cbn [conn_step fst].
    + by apply offers_needed.
    + by apply offers_resumed.
    + by apply offers_handle.
    + by apply (offers_aside pc).
    + unfold handler_resumed. destruct (pc_handlers pc !! i) as [ph|]; [|done]. pose proof (continue_offer ph ok local pc) as Hc.
      destruct (continue ph ok local pc) as [[pc1 evs] ph1]. cbn. by apply (offers_aside pc).
    + unfold take_handler. repeat case_match; by try apply (offers_aside pc).
    + unfold addIceCandidate. by repeat case_match; try apply (offers_aside pc).
  - eapply offers_aside; [|done]. by apply aside_step.
Qed.

Lemma offers_run l pc : offers_ok pc → offers_ok (conn_run l pc).
Proof. revert pc. induction l as [|a l IH]; intros pc Hok; [done|]. cbn. by apply IH, offers_step. Qed.

Lemma offers_new p : offers_ok (newPeerConnection p).
Proof. split; cbn; [constructor|constructor|set_solver]. Qed.

(** Perfect negotiation keeps its flag: in every state a connection reaches,
    [makingOffer] says exactly that an offer of the current generation is being made,
    so it is never stuck; and an offer that ends is announced or reported only if it is
    that one, never one that was rolled back, and clears the flag. *)
Theorem negotiation_live p l :
  let pc := conn_run l (newPeerConnection p) in
  (pc_makingOffer pc = true ↔ pc_offerGeneration pc ∈ pc_offers pc)
  ∧ ∀ i ok local, (offer_resumed i ok local pc).2 ≠ [] →
      pc_offers pc !! i = Some (pc_offerGeneration pc) ∧ pc_makingOffer pc = true
      ∧ pc_makingOffer (offer_resumed i ok local pc).1 = false.
Proof.
  pose proof (offers_run l _ (offers_new p)) as Hok. split; [apply Hok|].
  intros i ok local. by apply offers_resumed.
Qed.

(** * Candidates *)

(** The candidates a connection takes: all but those a full buffer drops. *)
Definition takes (a : conn_act) (pc : PeerConnection) : list (option IceCandidate) :=
  match a with
  | CIce None _ => [None]
  | CIce (Some c) remote =>
      if remote || bool_decide (length (pc_pendingCandidates pc) < MAX_PENDING_CANDIDATES)%nat then [Some c] else []
  | _ => []
  end.
(** A remote description has been set. *)
Definition sets_remote (a : conn_act) (pc : PeerConnection) : bool :=
  match a with
  | CContinue i true _ => match pc_handlers pc !! i with Some (SettingRemote _) => true | _ => false end
  | _ => false
  end.
Fixpoint taken (l : list conn_act) (pc : PeerConnection) : list (option IceCandidate) :=
  match l with [] => [] | a :: l' => takes a pc ++ taken l' (conn_step a pc).1 end.
Fixpoint remote_set (l : list conn_act) (pc : PeerConnection) : bool :=
  match l with [] => false | a :: l' => sets_remote a pc || remote_set l' (conn_step a pc).1 end.
(** The platform keeps a remote description once it is set. *)
Fixpoint keeps_remote (set : bool) (l : list conn_act) (pc : PeerConnection) : Prop :=
  match l with
  | [] => True
  | a :: l' => match a with CIce _ false => set = false | _ => True end
               ∧ keeps_remote (set || sets_remote a pc) l' (conn_step a pc).1
  end.

(** What still waits for a remote description or for a drain under way. *)
Definition waiting (c : option IceCandidate) (pc : PeerConnection) : Prop :=
  match c with Some c' => c' ∈ pc_pendingCandidates pc | None => pc_eocBuffered pc = true end.
Definition draining (pc : PeerConnection) : Prop := ∃ f i, Draining f i ∈ pc_handlers pc.
Definition drain_at (ph : phase) : option nat := match ph with Draining _ i => Some i | _ => None end.

(** [set]: a remote description has been set; [acc]: the candidates taken so far. *)
Record ice_inv (set : bool) (acc : list (option IceCandidate)) (pc : PeerConnection) : Prop := {
  ii_kept c : c ∈ acc → NAddIce c ∈ pc_calls pc ∨ waiting c pc;
  ii_drained f i j c : Draining f i ∈ pc_handlers pc → (j ≤ i)%nat → pc_pendingCandidates pc !! j = Some c →
    NAddIce (Some c) ∈ pc_calls pc;
  ii_before : set = false → ¬ draining pc;
  ii_after : set = true → (pc_pendingCandidates pc = [] ∧ pc_eocBuffered pc = false) ∨ draining pc;
  ii_bound : (length (pc_pendingCandidates pc) ≤ MAX_PENDING_CANDIDATES)%nat;
}.

Lemma ice_aside set acc pc pc' :
  (pc_pendingCandidates pc', pc_eocBuffered pc') = (pc_pendingCandidates pc, pc_eocBuffered pc) →
  (∀ f i, Draining f i ∈ pc_handlers pc' ↔ Draining f i ∈ pc_handlers pc) →
  pc_calls pc ⊆ pc_calls pc' → ice_inv set acc pc → ice_inv set acc pc'.
Proof.
  intros [= H1 H2] H3 H4 [I1 I2 I3 I4 I5].
  assert (draining pc' ↔ draining pc) as Hd by (unfold draining; by setoid_rewrite H3).
  split; rewrite ?H1, ?H2, ?Hd; try done.
  - intros c Hc. unfold waiting. rewrite H1, H2. destruct (I1 c Hc); [left; by apply H4|by right].
  - intros f i j c Hf%H3 Hj Hp. rewrite ?H1 in Hp. apply H4. by eapply I2.
Qed.

Lemma ice_suspend set acc c ph pc :
  drain_at ph = None → ice_inv set acc pc → ice_inv set acc (suspend ph (call c pc)).
Proof.
  intros Hph. apply ice_aside; [done| |cbn; set_solver]. intros f i. cbn. rewrite elem_of_app, list_elem_of_singleton.
  split; [intros [?|<-]; done|by left].
Qed.

(** A drain from [i] on by the handler [n], everything before [i] being done. *)
Lemma ice_drain acc n f i pc : (n < length (pc_handlers pc))%nat →
  (∀ c, c ∈ acc → NAddIce c ∈ pc_calls pc ∨ waiting c pc) →
  (∀ f' i' j c, Draining f' i' ∈ pc_handlers pc → (j ≤ i')%nat → pc_pendingCandidates pc !! j = Some c → NAddIce (Some c) ∈ pc_calls pc) →
  (∀ j c, (j < i)%nat → pc_pendingCandidates pc !! j = Some c → NAddIce (Some c) ∈ pc_calls pc) →
  (length (pc_pendingCandidates pc) ≤ MAX_PENDING_CANDIDATES)%nat →
  ice_inv true acc (let '(pc1, ph1) := drain f i pc in set_handlers (<[n := ph1]> (pc_handlers pc1)) pc1).
Proof.
  intros Hn I1 I2 I3 I5. unfold drain. destruct (pc_pendingCandidates pc !! i) as [c|] eqn:Ei.
  - split; cbn.
    + intros c' Hc'. destruct (I1 c' Hc'); [left; set_solver|by right].
    + intros f' i' j c' Hin Hj Hp. apply elem_of_app. apply list_elem_of_lookup in Hin as [m Hm].
      apply list_lookup_insert_Some in Hm as [(<- & [= <- <-] & _)|(_ & Hm)].
      * destruct (decide (j = i)) as [->|]; [|left; apply (I3 j); [lia|done]].
        rewrite Ei in Hp. injection Hp as ->. right. by apply list_elem_of_singleton.
      * left. eapply I2; [by eapply list_elem_of_lookup_2|done..].
    + done.
    + intros _. right. exists f, i. eapply list_elem_of_lookup_2. by apply list_lookup_insert_eq.
    + done.
  - assert (∀ c, c ∈ pc_pendingCandidates pc → NAddIce (Some c) ∈ pc_calls pc) as Hall.
    { intros c [j Hj]%list_elem_of_lookup. apply (I3 j); [|done]. apply lookup_ge_None in Ei. apply lookup_lt_Some in Hj. lia. }
    assert (∀ c, c ∈ acc → NAddIce c ∈ pc_calls pc ∨ (c = None ∧ pc_eocBuffered pc = true)) as Hk.
    { intros c Hc. destruct (I1 c Hc) as [?|Hw]; [by left|]. destruct c as [c|]; [left; by apply Hall|by right]. }
    destruct (pc_eocBuffered pc) eqn:He; [|destruct f]; cbn [after_drain]; split; cbn; try lia; try done; try (intros _; by left); intros c Hc;
      destruct (Hk c Hc) as [?|[-> ?]]; try done; left; set_solver.
Qed.

Lemma ice_continue set acc i ph ok local pc :
  pc_handlers pc !! i = Some ph → ice_inv set acc pc →
  ice_inv (set || sets_remote (CContinue i ok local) pc) acc (handler_resumed i ok local pc).1.
Proof.
  intros Hi Hinv. unfold handler_resumed, sets_remote. rewrite Hi.
  assert (∀ ph1 pc1, drain_at ph = None → drain_at ph1 = None →
    (pc_pendingCandidates pc1, pc_eocBuffered pc1, pc_handlers pc1) = (pc_pendingCandidates pc, pc_eocBuffered pc, pc_handlers pc) →
    pc_calls pc ⊆ pc_calls pc1 → ice_inv set acc (set_handlers (<[i := ph1]> (pc_handlers pc1)) pc1)) as Hplain.
  { intros ph1 pc1 Hph Hph1 [= E1 E2 E3] Hc. apply (ice_aside set acc pc); [cbn; congruence| |done|done].
    intros f n. cbn. rewrite E3. split; intros [m Hm]%list_elem_of_lookup.
    - apply list_lookup_insert_Some in Hm as [(<- & -> & _)|(_ & Hm)]; [done|by eapply list_elem_of_lookup_2].
    - eapply (list_elem_of_lookup_2 _ m). rewrite list_lookup_insert_ne; [done|]. intros <-. rewrite Hi in Hm. injection Hm as ->. done. }
  assert (i < length (pc_handlers pc))%nat as Hlen by (by eapply lookup_lt_Some).
  destruct Hinv as [I1 I2 I3 I4 I5].
  destruct ph as [sdp|f|f n|f| |a|]; cbn [continue].
  - destruct ok; rewrite orb_false_r; apply Hplain; cbn; try done; set_solver.
  - destruct ok; [|rewrite orb_false_r; cbn; apply Hplain; cbn; [done|by destruct f|done|done]]. rewrite orb_true_r.
    pose proof (ice_drain acc i f 0 pc Hlen I1 I2) as Hd. destruct (drain f 0 pc) as [pc1 ph1]. apply Hd; [|done]. intros j c Hj. lia.
  - assert (set = true) as ->.
    { destruct set; [done|]. destruct (I3 eq_refl). exists f, n. by eapply list_elem_of_lookup_2. }
    cbn [orb]. pose proof (ice_drain acc i f (S n) pc Hlen I1 I2) as Hd. destruct (drain f (S n) pc) as [pc1 ph1].
    apply Hd; [|done]. intros j c Hj Hp. eapply I2; [by eapply list_elem_of_lookup_2| |done]. lia.
  - destruct f; cbn [after_drain fst]; destruct ok; rewrite orb_false_r; apply Hplain; cbn; try done; set_solver.
  - destruct ok; rewrite orb_false_r; apply Hplain; done.
  - destruct ok; rewrite orb_false_r; by apply Hplain.
  - destruct ok; rewrite orb_false_r; by apply Hplain.
Qed.

Lemma ice_weaken set acc acc' pc : acc' ⊆ acc → ice_inv set acc pc → ice_inv set acc' pc.
Proof. intros Hs []. split; auto. Qed.

Lemma ice_candidate set acc c remote pc :
  (remote = false → set = false) → ice_inv set acc pc →
  ice_inv set (acc ++ takes (CIce c remote) pc) (addIceCandidate c remote pc).1.
Proof.
  intros Hr [I1 I2 I3 I4 I5]. unfold addIceCandidate. destruct remote; cbn [fst].
  - split; cbn; try done.
    + intros c' [Hc|Hc]%elem_of_app; [destruct (I1 c' Hc); [left; set_solver|by right]|].
      left. apply elem_of_app. right. destruct c; cbn in Hc; set_solver.
    + intros f i j c' Hf Hj Hp. apply elem_of_app. left. by eapply I2.
  - specialize (Hr eq_refl) as ->. specialize (I3 eq_refl). destruct c as [c|]; cbn [takes orb].
    + case_bool_decide as Hb; [|rewrite app_nil_r; by split]. split; cbn; try done.
      * intros c' [Hc|Hc]%elem_of_app; [destruct (I1 c' Hc) as [?|Hw]; [by left|right]|right].
        -- destruct c'; [|done]. cbn in *. set_solver.
        -- apply list_elem_of_singleton in Hc as ->. cbn. set_solver.
      * intros f i j c' Hf. destruct I3. by exists f, i.
      * rewrite length_app. cbn. lia.
    + split; cbn; try done. intros c' [Hc|Hc]%elem_of_app; [destruct (I1 c' Hc) as [?|Hw]; [by left|right]|right].
      * by destruct c'.
      * by apply list_elem_of_singleton in Hc as ->.
Qed.

Lemma ice_step set acc a pc :
  match a with CIce _ false => set = false | _ => True end → ice_inv set acc pc →
  ice_inv (set || sets_remote a pc) (acc ++ takes a pc) (conn_step a pc).1.
Proof.
  intros Ha Hinv. destruct (negotiates a) eqn:E.
  2: { assert (takes a pc = []) as -> by by destruct a. assert (sets_remote a pc = false) as -> by by destruct a.
       rewrite app_nil_r, orb_false_r. destruct (aside_step a pc E) as [_ [= H2 H3 H4] H5].
       apply (ice_aside _ _ pc); [by rewrite H2, H3|intros f i; by rewrite H4|done|done]. }
  destruct a as [|i ok local|sdp st|sdp|i ok local|i|c remote| | | | | | |]; try done; cbn [conn_step takes sets_remote fst];
    try rewrite app_nil_r, orb_false_r.
  - unfold onnegotiationneeded. destruct (pc_makingOffer pc); [done|]. apply (ice_aside _ _ pc); [done..|cbn; set_solver|done].
  - unfold offer_resumed. destruct (pc_offers pc !! i); [|done]. case_decide; by apply (ice_aside _ _ pc).
  - unfold handleOffer. destruct (_ || _); [destruct (negb (pc_polite pc))|].
    + apply (ice_aside _ _ pc); [done| |done|done]. intros f n. cbn. rewrite elem_of_app, list_elem_of_singleton. split; [intros [?|?]; done|by left].
    + apply ice_suspend; [done|]. by apply (ice_aside _ _ pc).
    + by apply ice_suspend.
  - by apply ice_suspend.
  - destruct (pc_handlers pc !! i) as [ph|] eqn:Ei.
    + rewrite app_nil_r. pose proof (ice_continue set acc i ph ok local pc Ei Hinv) as Hc. unfold sets_remote in Hc. by rewrite Ei in Hc.
    + unfold handler_resumed. rewrite Ei, app_nil_r. cbn. destruct ok; by rewrite orb_false_r.
  - unfold take_handler. destruct (pc_handlers pc !! i) as [ph|] eqn:Ei; [|done]. destruct (returned ph) eqn:Er; [|done].
    apply (ice_aside _ _ pc); [done| |done|done]. intros f n. cbn. split; intros Hin.
    + eapply elem_of_submseteq; [done|]. apply sublist_submseteq, delete_sublist.
    + eapply delete_other; [done| |done]. intros <-. done.
  - rewrite orb_false_r. apply ice_candidate; [|done]. by intros ->.
Qed.

Lemma ice_run l set acc pc :
  keeps_remote set l pc → ice_inv set acc pc → ice_inv (set || remote_set l pc) (acc ++ taken l pc) (conn_run l pc).
Proof.
  revert set acc pc. induction l as [|a l IH]; intros set acc pc Hk Hinv; cbn [remote_set taken].
  - by rewrite orb_false_r, app_nil_r.
  - destruct Hk as [Ha Hk]. rewrite orb_assoc, (assoc_L (++)). apply IH; [done|]. by apply ice_step.
Qed.

Lemma ice_new p : ice_inv false [] (newPeerConnection p).
Proof. split; cbn; try set_solver; [|lia]. intros _ (f & i & Hin). set_solver. Qed.

Lemma candidates_in_run p l :
  keeps_remote false l (newPeerConnection p) →
  ice_inv (remote_set l (newPeerConnection p)) (taken l (newPeerConnection p)) (conn_run l (newPeerConnection p)).
Proof. intros Hk. apply (ice_run l false [] _ Hk), ice_new. Qed.


End connection.

(** * A platform, and what can go wrong *)

(** Every call succeeds, with a sender of its own; no codecs. *)
#[local] Instance plain : Platform := {
  p_sender calls _ := Some (length calls);
  p_senderKind _ _ := None;
  p_hasTransceiver _ _ := false;
  p_capabilities _ := None;
}.

Definition cand (n : Z) : IceCandidate := mkIce (Some [n]) None None None.
Definition early : list conn_act :=
  [CIce (Some (cand 1)) false; COffer (js "offer") true; CIce (Some (cand 2)) false; CIce None false;
   CContinue 0 true None; CIce (Some (cand 3)) true; CContinue 0 true None; CContinue 0 false None; CContinue 0 true None].


(** An answer is being applied, so the native connection is not stable yet, and the
    peer, which is stable since it answered, sends an offer.  The impolite side drops
    it: the offer is never answered. *)
Example offer_after_answer_ignored :
  let pc := conn_run no_options [CNeeded; COfferDone 0 true (Some (mkDesc TOffer (Some (js "a")))); CAnswer (js "b"); COffer (js "c") false]
              (newPeerConnection false) in
  pc_handlers pc = [SettingRemote false; OfferHandled None] ∧ pc_calls pc = [NSetLocal; NSetRemote false (js "b")].
Proof. by vm_compute. Qed.

(** The polite side asks for a rollback, which comes after the answer and so finds the
    connection stable, where the platform refuses it: the connection reports an error,
    on which a call drops it. *)
Example offer_after_answer_fails :
  let pc := conn_run no_options [CNeeded; COfferDone 0 true (Some (mkDesc TOffer (Some (js "a")))); CAnswer (js "b"); COffer (js "c") false;
                        CContinue 0 true None] (newPeerConnection true) in
  pc_calls pc = [NSetLocal; NSetRemote false (js "b"); NRollback]
  ∧ (conn_step no_options (CContinue 1 false None) pc).2 = [ConnError].
Proof. by vm_compute. Qed.

(** A track that is removed while it replaces another goes on being sent. *)
Example removed_while_replacing :
  let pc := conn_run no_options [CAddTrack 0 0 None; CReplaceTrack 0 1; CRemoveTrack 1; CReplaced 0 true] (newPeerConnection true) in
  pc_calls pc = [NAddTrack 0 0; NReplaceTrack 0 1] ∧ pc_senderMap pc = [(1%nat, 0%nat)].
Proof. by vm_compute. Qed.
