(* ===== verification/ActiveSpeaker.v ===== *)
(** Who speaks: the detector that polls audio levels
    (packages/media/src/ActiveSpeakerDetector.ts).

    A tick asks every connection for its statistics; they arrive in a later step. *)

From S2P Require Import Prelude JsNumber.

(** What a tick reads of a statistics report: whether it is of type [inbound-rtp], and
    its [audioLevel], if that is a number. *)
Record Report := mkReport { rp_inbound : bool; rp_audioLevel : option num }.

(** [dt_asked]: the peers of the tick under way, in the order they were asked. *)
Record Detector := mkDetector {
  dt_timer : bool;
  dt_current : option jsstr;
  dt_ticking : bool;
  dt_asked : list jsstr;
}.
Implicit Types (d : Detector).

Definition newDetector : Detector := mkDetector false None false [].

Definition start d : Detector := mkDetector true (dt_current d) (dt_ticking d) (dt_asked d).
Definition stop d : Detector := mkDetector false None (dt_ticking d) (dt_asked d).

(** [_tick], up to the [await] of [_detect]. *)
Definition tick (connections : list jsstr) d : Detector :=
  if dt_ticking d then d else mkDetector (dt_timer d) (dt_current d) true connections.

Definition level_of (stats : list Report) : num :=
  fold_left (λ m r, match rp_inbound r, rp_audioLevel r with
                    | true, Some l => if num_lt m l then l else m
                    | _, _ => m
                    end) stats num_zero.

(** The loop over the results: the first of the loudest; [None] is a failed
    [getStats]. *)
Definition louder (st : option jsstr * num) (r : option (jsstr * num)) : option jsstr * num :=
  match r with Some (p, l) => if num_lt st.2 l then (Some p, l) else st | None => st end.
Definition loudest (results : list (option (jsstr * num))) : option jsstr * num :=
  fold_left louder results (None, num_zero).

(** The rest of the tick: the statistics of the peers that were asked, and what
    [onChange] is called with. *)
Definition detect (stats : list (option (list Report))) d : Detector * option (option jsstr * num) :=
  let results := zip_with (λ p s, (λ rs, (p, level_of rs)) <$> s) (dt_asked d) stats in
  let '(speaker, maxLevel) := loudest results in
  if decide (speaker = dt_current d) then (mkDetector (dt_timer d) (dt_current d) false [], None)
  else (mkDetector (dt_timer d) speaker false [], Some (speaker, maxLevel)).

(** * The loudest *)

(** A result that is at most as loud as [m]. *)
Definition quieter (m : num) (r : option (jsstr * num)) : Prop :=
  match r with Some (_, l) => num_lt m l = false | None => True end.

Lemma quieter_trans m m' r : num_lt m m' = true → quieter m r → quieter m' r.
Proof.
  destruct r as [[p l]|]; [|done]. unfold quieter. intros Hm Hl.
  destruct (num_lt m' l) eqn:E; [|done]. by rewrite (num_lt_trans m m' l) in Hl.
Qed.

(** The loudest: nobody louder, everyone before it quieter; nobody if all are silent. *)
Lemma loudest_spec results :
  Forall (quieter (loudest results).2) results
  ∧ match (loudest results).1 with
    | Some p => ∃ before after, results = before ++ Some (p, (loudest results).2) :: after
                ∧ Forall (λ r, match r with Some (_, l) => num_lt l (loudest results).2 = true ∨ isNaN l = true | None => True end) before
    | None => (loudest results).2 = num_zero
    end.
Proof.
  induction results as [|r results IH] using rev_ind; [done|]. unfold loudest in *. rewrite fold_left_app.
  destruct (fold_left louder results (None, num_zero)) as [sp m] eqn:E. destruct IH as [Hq Hs]. cbn [fold_left fst snd louder] in *.
  destruct r as [[p l]|]; cbn [louder fst snd].
  - destruct (num_lt m l) eqn:El; cbn [fst snd].
    + split.
      * apply Forall_app. split; [eapply Forall_impl; [exact Hq|]; intros r; by apply quieter_trans|].
        constructor; [|done]. cbn. apply num_lt_irrefl.
      * exists results, []. split; [done|]. eapply Forall_impl; [exact Hq|]. intros [[p' l']|]; [|done]. cbn. intros Hl'.
        destruct (isNaN l') eqn:En; [by right|left]. by apply (num_le_lt_trans m).
    + split; [apply Forall_app; split; [done|]; by repeat constructor|].
      destruct sp as [q|]; [|done]. destruct Hs as (b & a & -> & Hb). exists b, (a ++ [Some (p, l)]). by rewrite <- app_assoc.
  - split; [apply Forall_app; split; [done|]; by repeat constructor|].
    destruct sp as [q|]; [|done]. destruct Hs as (b & a & -> & Hb). exists b, (a ++ [None]). by rewrite <- app_assoc.
Qed.

(** The application hears of a change only, and then the new speaker is the current one. *)
Lemma detect_changes stats d d' e :
  detect stats d = (d', e) →
  dt_ticking d' = false ∧
  match e with
  | Some (p, _) => p ≠ dt_current d ∧ dt_current d' = p
  | None => dt_current d' = dt_current d
  end.
Proof.
  unfold detect. destruct (loudest _) as [sp m]. case_decide; intros [= <- <-]; cbn; [done|]. done.
Qed.

(** [stop] does not stop a tick under way: its statistics are still reported. *)
Example stopped_still_reports :
  let d := stop (tick [js "ann"] (start newDetector)) in
  dt_timer d = false ∧
  (detect [Some [mkReport true (Some num_one)]] d).2 = Some (Some (js "ann"), num_one).
Proof. by vm_compute. Qed.
