(* ===== verification/Call.v ===== *)
(** A mesh call over a room: a connection to every other member
    (packages/media/src/Call.ts).

    The connections are objects in a heap, each with the peer its listeners and handlers
    were made for.  The call reads the client's room (ClientRoom.v) and hears its events.
    The platform acts by steps.  What a listener of the application does with the call,
    it does as if right after: every event is the last thing its step does. *)

From S2P Require Import Prelude JsMap JsNumber Json ClientProtocol ClientRoom MediaProtocol Tracks PeerConnection ActiveSpeaker.

(** [MediaEvent]. *)
Inductive media_event :=
| EvRemoteStream (peerId : jsstr) (stream : RemoteStream)
| EvRemoteStreamRemoved (peerId : jsstr)
| EvTrackPublished (track stream : nat)
| EvTrackUnpublished (track : nat)
| EvError (peerId : jsstr)
| EvDataChannel (peerId : jsstr) (channel : nat)
| EvActiveSpeaker (peerId : option jsstr) (audioLevel : num)
| EvConnectionFailed (peerId : jsstr).

(** What a call does outside: events, and signals sent through the room. *)
Inductive call_out :=
| Emitted (e : media_event)
| SentSignal (to : jsstr) (signal : MediaSignal).

(** [ca_timers] are the timers ever set; [None] once fired or cleared.  [ca_listening]
    counts the registrations of the room listeners. *)
Record Call := mkCall {
  ca_pcs : list (jsstr * PeerConnection);
  ca_connections : jmap jsstr nat;
  ca_negTimers : jmap jsstr nat;
  ca_timers : list (option (jsstr * nat));
  ca_iceRestarts : jmap jsstr Z;
  ca_remoteStreams : jmap jsstr (list jsstr);
  ca_tracks : Registry.registry;
  ca_trackEnded : list nat;
  ca_media : list MediaStreamTrack;
  ca_detectors : list Detector;
  ca_activeSpeaker : option nat;
  ca_started : bool;
  ca_closed : bool;
  ca_listening : nat;
  ca_out : list call_out;
}.
Implicit Types (k : Call).

Definition set_conns (pcs : list (jsstr * PeerConnection)) (m : jmap jsstr nat) k : Call :=
  mkCall pcs m (ca_negTimers k) (ca_timers k) (ca_iceRestarts k) (ca_remoteStreams k) (ca_tracks k) (ca_trackEnded k)
    (ca_media k) (ca_detectors k) (ca_activeSpeaker k) (ca_started k) (ca_closed k) (ca_listening k) (ca_out k).
Definition set_timers (neg : jmap jsstr nat) (ts : list (option (jsstr * nat))) k : Call :=
  mkCall (ca_pcs k) (ca_connections k) neg ts (ca_iceRestarts k) (ca_remoteStreams k) (ca_tracks k) (ca_trackEnded k)
    (ca_media k) (ca_detectors k) (ca_activeSpeaker k) (ca_started k) (ca_closed k) (ca_listening k) (ca_out k).
Definition set_peer_state (ice : jmap jsstr Z) (streams : jmap jsstr (list jsstr)) k : Call :=
  mkCall (ca_pcs k) (ca_connections k) (ca_negTimers k) (ca_timers k) ice streams (ca_tracks k) (ca_trackEnded k)
    (ca_media k) (ca_detectors k) (ca_activeSpeaker k) (ca_started k) (ca_closed k) (ca_listening k) (ca_out k).
Definition set_tracks (reg : Registry.registry) (ended : list nat) (media : list MediaStreamTrack) k : Call :=
  mkCall (ca_pcs k) (ca_connections k) (ca_negTimers k) (ca_timers k) (ca_iceRestarts k) (ca_remoteStreams k) reg ended
    media (ca_detectors k) (ca_activeSpeaker k) (ca_started k) (ca_closed k) (ca_listening k) (ca_out k).
Definition set_speaker (ds : list Detector) (a : option nat) k : Call :=
  mkCall (ca_pcs k) (ca_connections k) (ca_negTimers k) (ca_timers k) (ca_iceRestarts k) (ca_remoteStreams k) (ca_tracks k)
    (ca_trackEnded k) (ca_media k) ds a (ca_started k) (ca_closed k) (ca_listening k) (ca_out k).
Definition set_life (started closed : bool) (listening : nat) k : Call :=
  mkCall (ca_pcs k) (ca_connections k) (ca_negTimers k) (ca_timers k) (ca_iceRestarts k) (ca_remoteStreams k) (ca_tracks k)
    (ca_trackEnded k) (ca_media k) (ca_detectors k) (ca_activeSpeaker k) started closed listening (ca_out k).
Definition out (o : call_out) k : Call :=
  mkCall (ca_pcs k) (ca_connections k) (ca_negTimers k) (ca_timers k) (ca_iceRestarts k) (ca_remoteStreams k) (ca_tracks k)
    (ca_trackEnded k) (ca_media k) (ca_detectors k) (ca_activeSpeaker k) (ca_started k) (ca_closed k) (ca_listening k)
    (ca_out k ++ [o]).
Definition emit (e : media_event) k : Call := out (Emitted e) k.
Definition sendSignal (to : jsstr) (s : MediaSignal) k : Call := out (SentSignal to s) k.

(** A method of one connection, and of all that are registered. *)
Definition on_pc (r : nat) (f : PeerConnection → PeerConnection) k : Call :=
  set_conns (alter (λ x, (x.1, f x.2)) r (ca_pcs k)) (ca_connections k) k.
Definition on_all (f : PeerConnection → PeerConnection) k : Call :=
  fold_left (λ k r, on_pc r f k) (mvals (ca_connections k)) k.

(** * Ended tracks *)

Definition _wireTrackEnded (track : nat) k : Call :=
  match ca_media k !! track with
  | Some t =>
      if negb (mt_observable t) then k
      else if shas track (ca_trackEnded k) then k
      else set_tracks (ca_tracks k) (sadd track (ca_trackEnded k)) (alter (set_ended S) track (ca_media k)) k
  | None => k
  end.
Definition _unwireTrackEnded (track : nat) k : Call :=
  if shas track (ca_trackEnded k)
  then set_tracks (ca_tracks k) (sdel track (ca_trackEnded k)) (alter (set_ended Nat.pred) track (ca_media k)) k
  else k.

(** The listener of the [ended] event. *)
Definition onEnded (track : nat) k : Call :=
  let k1 := _unwireTrackEnded track k in
  if ca_closed k1 then k1
  else
    let k2 := set_tracks (Registry.remove track (ca_tracks k1)) (ca_trackEnded k1) (ca_media k1) k1 in
    emit (EvTrackUnpublished track) (on_all (removeTrack track) k2).

(** * Connections *)

Definition _clearPeerTimer (peerId : jsstr) k : Call :=
  match mget peerId (ca_negTimers k) with
  | Some t => set_timers (mdel peerId (ca_negTimers k)) (<[t := None]> (ca_timers k)) k
  | None => k
  end.

Definition _dropConnection (peerId : jsstr) (r : nat) k : Call :=
  let k1 := set_conns (ca_pcs k) (mdel peerId (ca_connections k)) k in
  let k2 := set_peer_state (mdel peerId (ca_iceRestarts k1)) (mdel peerId (ca_remoteStreams k1)) k1 in
  on_pc r (λ pc, close (removeAllListeners pc)) k2.

Definition _teardownConnections k : Call :=
  let k1 := set_timers [] (fold_left (λ ts t, <[t := None]> ts) (mvals (ca_negTimers k)) (ca_timers k)) k in
  let k2 := set_peer_state [] [] k1 in
  let k3 := on_all (λ pc, close (removeAllListeners pc)) k2 in
  set_conns (ca_pcs k3) [] k3.

(** [a < b] on strings: by code units. *)
Fixpoint js_lt (a b : jsstr) : bool :=
  match a, b with
  | [], _ :: _ => true
  | x :: a', y :: b' => if x =? y then js_lt a' b' else x <? y
  | _, [] => false
  end.

Section call.
Context `{Platform} (o : CallOptions).

(** The call's tracks on a new connection; [false]: one of the calls threw. *)
Definition add_entries (entries : list LocalTrackEntry) (pc : PeerConnection) : PeerConnection * bool :=
  fold_left (λ (st : PeerConnection * bool) e, if st.2 then PeerConnection.addTrack o (le_track e) (le_stream e) (co_maxBitrate o) st.1 else st)
    entries (pc, true).

Definition polite (localPeerId peerId : jsstr) : bool :=
  match co_isPolite o with Some f => f localPeerId peerId | None => js_lt localPeerId peerId end.

(** The connection of a peer, which is a new one if there is none; [false]: it threw. *)
Definition getOrCreateConnection (room : Room) (peerId : jsstr) k : Call * nat * bool :=
  match mget peerId (ca_connections k) with
  | Some r => (k, r, true)
  | None =>
      let r := length (ca_pcs k) in
      let pc := newPeerConnection (polite (cr_localPeerId room) peerId) in
      let '(pc1, ok) := add_entries (ca_tracks k) pc in
      (set_conns (ca_pcs k ++ [(peerId, set_listened ok pc1)]) (mset peerId r (ca_connections k)) k, r, ok)
  end.

(** * What a connection's events do: [_wireConnection] *)

(** A [failed] connection: ICE is restarted while the budget of the peer lasts. *)
Definition conn_failed (r : nat) (peerId : jsstr) k : Call :=
  if decide (mget peerId (ca_connections k) ≠ Some r) then k
  else
    let attempts := default 0 (mget peerId (ca_iceRestarts k)) in
    if decide (attempts < default 1 (co_maxIceRestarts o)) then
      on_pc r restartIce (set_peer_state (mset peerId (attempts + 1) (ca_iceRestarts k)) (ca_remoteStreams k) k)
    else
      let k1 := set_peer_state (mdel peerId (ca_iceRestarts k)) (ca_remoteStreams k) k in
      emit (EvConnectionFailed peerId) (_dropConnection peerId r k1).

Definition conn_react (r : nat) (peerId : jsstr) (e : conn_event) k : Call :=
  match e with
  | IceFound candidate => sendSignal peerId (Ice candidate) k
  | NegotiationNeeded desc =>
      match d_sdp desc with
      | Some ((_ :: _) as sdp) =>
          let k1 := sendSignal peerId (Offer sdp) k in
          match co_negotiationTimeoutMs o with
          | None | Some 0 => k1
          | Some _ =>
              let k2 := _clearPeerTimer peerId k1 in
              set_timers (mset peerId (length (ca_timers k2)) (ca_negTimers k2)) (ca_timers k2 ++ [Some (peerId, r)]) k2
          end
      | _ => k
      end
  | TrackFound _ streams =>
      match streams with
      | [] => k
      | stream :: _ =>
          let seen := default [] (mget peerId (ca_remoteStreams k)) in
          if shas (rs_id stream) seen then k
          else emit (EvRemoteStream peerId stream)
                 (set_peer_state (ca_iceRestarts k) (mset peerId (sadd (rs_id stream) seen) (ca_remoteStreams k)) k)
      end
  | StateChange state =>
      let k1 := if decide (state = Connected ∨ state = Closed ∨ state = Failed) then _clearPeerTimer peerId k else k in
      let k2 := if decide (state = Connected) then set_peer_state (mdel peerId (ca_iceRestarts k1)) (ca_remoteStreams k1) k1 else k1 in
      if decide (state ≠ Failed) then k2
      else conn_failed r peerId k2
  | ChannelFound channel => emit (EvDataChannel peerId channel) k
  | ConnError =>
      let k1 := if decide (mget peerId (ca_connections k) = Some r)
                then _dropConnection peerId r (_clearPeerTimer peerId k) else k in
      emit (EvError peerId) k1
  end.

(** A method of connection [r] and its events, which its listeners hear if they are
    still attached. *)
Definition conn_event_of (r : nat) (e : conn_event) k : Call :=
  match ca_pcs k !! r with
  | Some (peerId, pc) => if pc_listened pc then conn_react r peerId e k else k
  | None => k
  end.
Definition on_conn (r : nat) (f : PeerConnection → PeerConnection * list conn_event) k : Call :=
  match ca_pcs k !! r with
  | Some (peerId, pc) =>
      let '(pc1, evs) := f pc in fold_left (λ k e, conn_event_of r e k) evs (on_pc r (λ _, pc1) k)
  | None => k
  end.

(** The timer of an offer that was not answered. *)
Definition timer_fired (t : nat) k : Call :=
  match ca_timers k !! t with
  | Some (Some (peerId, r)) =>
      let k1 := set_timers (mdel peerId (ca_negTimers k)) (<[t := None]> (ca_timers k)) k in
      if decide (mget peerId (ca_connections k1) ≠ Some r) then k1
      else emit (EvError peerId) (_dropConnection peerId r k1)
  | _ => k
  end.

(** * Life *)

(** One turn of the loop over the members. *)
Definition start_one (room : Room) (st : Call * bool) (peerId : jsstr) : Call * bool :=
  if st.2 then
    if decide (peerId = cr_localPeerId room) then st
    else let '(k, _, ok) := getOrCreateConnection room peerId st.1 in (k, ok)
  else st.

(** [false]: it threw. *)
Definition start (room : Room) k : Call * bool :=
  if ca_started k || ca_closed k then (k, true)
  else
    let k1 := set_life true (ca_closed k) (ca_listening k) k in
    let '(k2, ok) := fold_left (start_one room) (peers room) (k1, true) in
    if ok then (set_life (ca_started k2) (ca_closed k2) (S (ca_listening k2)) k2, true) else (k2, false).

Definition _detachRoomListeners k : Call :=
  if ca_started k then set_life (ca_started k) (ca_closed k) (Nat.pred (ca_listening k)) k else k.

Definition stopActiveSpeakerDetection k : Call :=
  match ca_activeSpeaker k with
  | Some d => set_speaker (alter stop d (ca_detectors k)) None k
  | None => k
  end.
Definition startActiveSpeakerDetection k : Call :=
  let k1 := match ca_activeSpeaker k with
            | None => set_speaker (ca_detectors k ++ [newDetector]) (Some (length (ca_detectors k))) k
            | Some _ => k
            end in
  match ca_activeSpeaker k1 with
  | Some d => set_speaker (alter ActiveSpeaker.start d (ca_detectors k1)) (Some d) k1
  | None => k1
  end.

Definition restart (room : Room) k : Call * bool :=
  if ca_closed k then (k, true)
  else
    let k1 := _detachRoomListeners (_teardownConnections (stopActiveSpeakerDetection k)) in
    start room (set_life false (ca_closed k1) (ca_listening k1) k1).

Definition close_call k : Call :=
  if ca_closed k then k
  else
    let k1 := stopActiveSpeakerDetection (set_life (ca_started k) true (ca_listening k) k) in
    let k2 := set_tracks (ca_tracks k1) [] (fold_left (λ h t, alter (set_ended Nat.pred) t h) (ca_trackEnded k1) (ca_media k1)) k1 in
    let k3 := if co_stopTracksOnClose o
              then set_tracks [] (ca_trackEnded k2) (Registry.stopAll (ca_tracks k2) (ca_media k2)) k2
              else set_tracks [] (ca_trackEnded k2) (ca_media k2) k2 in
    _teardownConnections (_detachRoomListeners (set_peer_state (ca_iceRestarts k3) [] k3)).

(** The constructor, with the stream of the options and its tracks. *)
Definition newCall (media : list MediaStreamTrack) (stream : option (nat * list nat)) : Call :=
  let reg := match stream with Some (s, ts) => Registry.make s ts | None => [] end in
  fold_left (λ k e, _wireTrackEnded (le_track e) k) reg
    (mkCall [] [] [] [] [] [] reg [] media [] None false false 0 []).

(** * Local tracks *)

(** [pc.addTrack] on every connection, up to one that throws. *)
Definition add_one (track stream : nat) (bitrate : option Z) (st : Call * bool) (r : nat) : Call * bool :=
  if st.2 then
    match ca_pcs st.1 !! r with
    | Some (_, pc) =>
        let '(pc1, ok) := PeerConnection.addTrack o track stream bitrate pc in (on_pc r (λ _, pc1) st.1, ok)
    | None => st
    end
  else st.
Definition add_everywhere (track stream : nat) (bitrate : option Z) k : Call * bool :=
  fold_left (add_one track stream bitrate) (mvals (ca_connections k)) (k, true).

Definition addTrack (track stream : nat) (contentHint : option jsstr) (maxBitrate : option Z) k : Call * bool :=
  let k1 := match contentHint with
            | Some ((_ :: _) as h) => set_tracks (ca_tracks k) (ca_trackEnded k) (alter (set_hint h) track (ca_media k)) k
            | _ => k
            end in
  let bitrate := match maxBitrate with Some b => Some b | None => co_maxBitrate o end in
  let k2 := set_tracks (Registry.add track stream (ca_tracks k1)) (ca_trackEnded k1) (ca_media k1) k1 in
  let '(k3, ok) := add_everywhere track stream bitrate (_wireTrackEnded track k2) in
  if ok then (emit (EvTrackPublished track stream) k3, true) else (k3, false).
Definition addScreenTrack (track stream : nat) k : Call * bool :=
  addTrack track stream (co_screenHint o) (co_screenBitrate o) k.

Definition replaceTrack (oldTrack newTrack : nat) k : Call :=
  let k1 := set_tracks (Registry.replace oldTrack newTrack (ca_tracks k)) (ca_trackEnded k) (ca_media k) k in
  on_all (PeerConnection.replaceTrack oldTrack newTrack) (_wireTrackEnded newTrack (_unwireTrackEnded oldTrack k1)).

Definition removeTrack (track : nat) k : Call :=
  let k1 := on_all (PeerConnection.removeTrack track) (_unwireTrackEnded track k) in
  set_tracks (Registry.remove track (ca_tracks k1)) (ca_trackEnded k1) (ca_media k1) k1.

(** [muteAudio], [unmuteAudio], [muteVideo], [unmuteVideo]; [isAudioMuted], [isVideoMuted]. *)
Definition set_muted (kind : MediaKind) (muted : bool) k : Call :=
  set_tracks (ca_tracks k) (ca_trackEnded k) (Registry.setKindEnabled kind (negb muted) (ca_tracks k) (ca_media k)) k.
Definition is_muted (kind : MediaKind) k : bool := Registry.isKindMuted kind (ca_tracks k) (ca_media k).

Definition createDataChannel (peerId label : jsstr) k : Call :=
  match mget peerId (ca_connections k) with
  | Some r => on_pc r (PeerConnection.createDataChannel label) k
  | None => k
  end.

(** * The room's events *)

Definition handlePeerJoined (room : Room) (peerId : jsstr) k : Call := (getOrCreateConnection room peerId k).1.1.

Definition handlePeerLeft (peerId : jsstr) k : Call :=
  let k1 := _clearPeerTimer peerId k in
  match mget peerId (ca_connections k1) with
  | Some r => emit (EvRemoteStreamRemoved peerId) (_dropConnection peerId r k1)
  | None => k1
  end.

(** [handleRoomSignal], up to its [await]; [stable] and [remote] are what the connection
    reads of its native one.  Its [catch] is not reached: every method it awaits catches,
    and so do the room and the emitters. *)
Definition handleRoomSignal (room : Room) (from : jsstr) (data : payload) (stable remote : bool) k : Call :=
  match isMediaSignal data with
  | None => k
  | Some signal =>
      if negb (mhas from (ca_connections k)) && negb (hasPeer from room) then k
      else
        let '(k1, r, ok) := getOrCreateConnection room from k in
        if negb ok then k1
        else
          match signal with
          | Offer sdp => on_pc r (handleOffer sdp stable) k1
          | Answer sdp => on_pc r (handleAnswer sdp) k1
          | Ice candidate => on_conn r (addIceCandidate candidate remote) k1
          end
  end.

(** The rest of it, once the [i]-th handler of connection [r] has returned. *)
Definition signal_handled (r i : nat) k : Call :=
  match ca_pcs k !! r with
  | None => k
  | Some (from, pc) =>
      match pc_handlers pc !! i with
      | Some (OfferHandled answer) =>
          let k1 := _clearPeerTimer from (on_pc r (λ pc, set_handlers (delete i (pc_handlers pc)) pc) k) in
          match answer ≫= d_sdp with
          | Some ((_ :: _) as sdp) => sendSignal from (Answer sdp) k1
          | _ => k1
          end
      | Some AnswerHandled => _clearPeerTimer from (on_pc r (λ pc, set_handlers (delete i (pc_handlers pc)) pc) k)
      | _ => k
      end
  end.

Definition room_handler (room : Room) (e : room_event) (stable remote : bool) k : Call :=
  match e with
  | EvPeerJoined peerId => handlePeerJoined room peerId k
  | EvPeerLeft peerId => handlePeerLeft peerId k
  | EvSignal from data => handleRoomSignal room from data stable remote k
  | EvRefreshed => (restart room k).1
  | _ => k
  end.
(** Every registration that is there when the room emits is called. *)
Definition on_room_event (room : Room) (e : room_event) (stable remote : bool) k : Call :=
  Nat.iter (ca_listening k) (room_handler room e stable remote) k.

(** * Speakers *)

Definition speaker_tick (d : nat) k : Call :=
  set_speaker (alter (tick (mkeys (ca_connections k))) d (ca_detectors k)) (ca_activeSpeaker k) k.
Definition speaker_detect (d : nat) (stats : list (option (list Report))) k : Call :=
  match ca_detectors k !! d with
  | Some dt =>
      let '(dt1, change) := detect stats dt in
      let k1 := set_speaker (<[d := dt1]> (ca_detectors k)) (ca_activeSpeaker k) k in
      match change with Some (p, level) => emit (EvActiveSpeaker p level) k1 | None => k1 end
  | None => k
  end.

(** * A call and its room *)

(** What happens: a message from the server or a refresh changes the room; the platform
    moves a connection, a timer, a track or the statistics on; the application calls. *)
Inductive action :=
| RoomMessage (msg : ServerMessage) (stable remote : bool)
| RoomRefresh (params : RoomInit)
| Needed (r : nat)
| OfferDone (r i : nat) (ok : bool) (local : option Description)
| HandlerGoes (r i : nat) (ok : bool) (local : option Description)
| HandlerReturns (r i : nat)
| NativeEvent (r : nat) (e : conn_event)
| ReplaceDone (r i : nat) (ok : bool)
| TimerFires (t : nat)
| TrackEnds (track : nat)
| SpeakerTick (d : nat)
| SpeakerStats (d : nat) (stats : list (option (list Report)))
| DoStart
| DoRestart
| DoClose
| DoAddTrack (track stream : nat) (contentHint : option jsstr) (maxBitrate : option Z)
| DoAddScreenTrack (track stream : nat)
| DoReplaceTrack (oldTrack newTrack : nat)
| DoRemoveTrack (track : nat)
| DoMute (kind : MediaKind) (muted : bool)
| DoDataChannel (peerId label : jsstr)
| DoDetect (on : bool).

(** Events a room emitted on the way from [r] to [r']. *)
Definition room_events (r r' : Room) : list room_event :=
  omap (λ x, match x with Emit e => Some e | _ => None end) (drop (length (cr_out r)) (cr_out r')).
Definition room_acts (stable remote : bool) (room : Room) (f : Room → Room) k : Room * Call :=
  let room' := f room in
  (room', fold_left (λ k e, on_room_event room' e stable remote k) (room_events room room') k).

(** Native events that concern the filter or the state of the connection only. *)
Definition native_event (r : nat) (e : conn_event) k : Call :=
  match e with
  | IceFound candidate => on_conn r (λ pc, (pc, onicecandidate o candidate)) k
  | NegotiationNeeded _ | ConnError => k
  | TrackFound _ _ | StateChange _ | ChannelFound _ => on_conn r (λ pc, (pc, [e])) k
  end.

Definition act (a : action) (s : Room * Call) : Room * Call :=
  let '(room, k) := s in
  match a with
  | RoomMessage msg stable remote => room_acts stable remote room (_handleMessage msg) k
  | RoomRefresh params => room_acts true false room (_refresh params) k
  | Needed r => (room, on_pc r onnegotiationneeded k)
  | OfferDone r i ok local => (room, on_conn r (offer_resumed i ok local) k)
  | HandlerGoes r i ok local => (room, on_conn r (handler_resumed i ok local) k)
  | HandlerReturns r i => (room, signal_handled r i k)
  | NativeEvent r e => (room, native_event r e k)
  | ReplaceDone r i ok => (room, on_pc r (replace_resumed i ok) k)
  | TimerFires t => (room, timer_fired t k)
  | TrackEnds track =>
      (room, match ca_media k !! track with
             | Some t => Nat.iter (mt_ended t) (onEnded track) k
             | None => k
             end)
  | SpeakerTick d => (room, if default false (dt_timer <$> ca_detectors k !! d) then speaker_tick d k else k)
  | SpeakerStats d stats => (room, if default false (dt_ticking <$> ca_detectors k !! d) then speaker_detect d stats k else k)
  | DoStart => (room, (start room k).1)
  | DoRestart => (room, (restart room k).1)
  | DoClose => (room, close_call k)
  | DoAddTrack t s h b => (room, (addTrack t s h b k).1)
  | DoAddScreenTrack t s => (room, (addScreenTrack t s k).1)
  | DoReplaceTrack old new => (room, replaceTrack old new k)
  | DoRemoveTrack t => (room, removeTrack t k)
  | DoMute kind muted => (room, set_muted kind muted k)
  | DoDataChannel p l => (room, createDataChannel p l k)
  | DoDetect on => (room, if on then startActiveSpeakerDetection k else stopActiveSpeakerDetection k)
  end.
Definition run (l : list action) (s : Room * Call) : Room * Call := fold_left (λ s a, act a s) l s.
End call.
