(* ===== verification/CallTheorems.v ===== *)
(** A call: its connections, timers and listeners are those of its members and no
    others, over every run of the call with its room. *)

From S2P Require Import Prelude JsMap JsNumber Json ClientProtocol ClientRoom MediaProtocol Tracks PeerConnection PeerConnectionTheorems ActiveSpeaker Call.

Implicit Types (k : Call) (room : Room).

(** * The life of a connection *)

Definition is_close (c : native_call) : bool := match c with NClose => true | _ => false end.
Definition closings (pc : PeerConnection) : nat := length (filter (λ c, is_close c = true) (pc_calls pc)).

(** A step that neither attaches nor closes. *)
Definition lives (pc pc' : PeerConnection) : Prop := pc_listened pc' = pc_listened pc ∧ closings pc' = closings pc.
#[local] Instance lives_refl : Reflexive lives. Proof. done. Qed.
#[local] Instance lives_trans : Transitive lives.
Proof. intros x y z [? ?] [? ?]. split; congruence. Qed.

Lemma lives_call c pc : c ≠ NClose → lives pc (call c pc).
Proof. intros Hc. split; [done|]. unfold closings. cbn. rewrite filter_app. destruct c; try done; cbn; by rewrite app_nil_r. Qed.
(** One call after the other; the setters keep what matters. *)
Ltac lives_chain := repeat first [ by split | etrans; [|apply lives_call; discriminate] ].

Section lives.
Context `{Platform} (o : CallOptions).

Lemma lives_drain f i pc : lives pc (drain f i pc).1.
Proof. unfold drain, after_drain. repeat case_match; cbn [fst]; lives_chain. Qed.
Lemma lives_continue ph ok local pc : lives pc (continue ph ok local pc).1.1.
Proof.
  destruct ph as [sdp|f|f i|f| |a|]; cbn [continue]; unfold handler_failed; try (destruct ok; cbn [fst]; lives_chain; fail).
  - destruct ok; [|done]. pose proof (lives_drain f 0 pc). by destruct (drain f 0 pc).
  - pose proof (lives_drain f (S i) pc). by destruct (drain f (S i) pc).
  - unfold after_drain. destruct f; cbn [fst]; lives_chain.
Qed.
Lemma lives_codec s pc : lives pc (applyCodecPreference o s pc).
Proof. unfold applyCodecPreference. repeat case_match; lives_chain. Qed.

(** Every step but the closing one. *)
Lemma lives_step a pc : a ≠ CClose → lives pc (conn_step o a pc).1.
Proof.
  intros Ha. destruct a; try done; cbn [conn_step fst].
  - unfold onnegotiationneeded. case_match; lives_chain.
  - unfold offer_resumed. repeat case_match; cbn [fst]; lives_chain.
  - unfold handleOffer, suspend. repeat case_match; lives_chain.
  - unfold handleAnswer, suspend. lives_chain.
  - unfold handler_resumed. destruct (pc_handlers pc !! i) as [ph|]; [|done]. pose proof (lives_continue ph ok local pc).
    by destruct (continue ph ok local pc) as [[pc1 evs] ph1].
  - unfold take_handler. repeat case_match; lives_chain.
  - unfold addIceCandidate. repeat case_match; cbn [fst]; lives_chain.
  - assert (add_call o track stream maxBitrate ≠ NClose) as Hc by (unfold add_call; by repeat case_match).
    unfold PeerConnection.addTrack. case_match; cbn [fst]; [|by apply lives_call].
    etrans; [|apply lives_codec]. etrans; [by apply lives_call|done].
  - unfold PeerConnection.removeTrack. case_match; lives_chain.
  - unfold PeerConnection.replaceTrack. case_match; lives_chain.
  - unfold replace_resumed. repeat case_match; lives_chain.
  - unfold PeerConnection.createDataChannel. lives_chain.
  - unfold restartIce. lives_chain.
Qed.
End lives.

(** * What the invariant speaks of *)

(** A connection to its peer: whether its listeners are attached, how often it was closed. *)
Definition view k : list (jsstr * bool * nat) := (λ x, (x.1, pc_listened x.2, closings x.2)) <$> ca_pcs k.
Definition core k :=
  (view k, ca_connections k, (ca_negTimers k, ca_timers k), (ca_iceRestarts k, ca_remoteStreams k),
   (ca_started k, ca_closed k, ca_listening k)).

Record call_inv (o : CallOptions) k : Prop := {
  ci_wf : mwf (ca_connections k);
  ci_conn p r : mget p (ca_connections k) = Some r → ∃ b, view k !! r = Some (p, b, 0%nat);
  ci_lost r p b n : view k !! r = Some (p, b, n) → mget p (ca_connections k) = Some r ∨ (b = false ∧ n = 1%nat);
  ci_timer t p r : ca_timers k !! t = Some (Some (p, r)) →
    mget p (ca_negTimers k) = Some t ∧ mget p (ca_connections k) = Some r;
  ci_neg p t : mget p (ca_negTimers k) = Some t → ∃ r, ca_timers k !! t = Some (Some (p, r));
  ci_neg_wf : mwf (ca_negTimers k);
  ci_ice p n : mget p (ca_iceRestarts k) = Some n →
    is_Some (mget p (ca_connections k)) ∧ 0 < n ≤ default 1 (co_maxIceRestarts o);
  ci_streams p : is_Some (mget p (ca_remoteStreams k)) → is_Some (mget p (ca_connections k));
  ci_closed : ca_closed k = true → ca_connections k = [] ∧ ca_listening k = 0%nat;
  ci_listening : (ca_listening k ≤ if ca_started k then 1 else 0)%nat;
}.

Lemma inv_core o k k' : core k' = core k → call_inv o k → call_inv o k'.
Proof.
  intros [= H1 H2 H3 H4 H5 H6 H7 H8 H9] [].
  by split; rewrite ?H1, ?H2, ?H3, ?H4, ?H5, ?H6, ?H7, ?H8, ?H9.
Qed.

(** ** Steps that leave the core alone *)

Lemma view_pc r f k : (∀ pc, lives pc (f pc)) → view (on_pc r f k) = view k.
Proof.
  intros Hf. unfold view. cbn. apply list_eq. intros i. rewrite !list_lookup_fmap.
  destruct (decide (r = i)) as [<-|Hne]; [rewrite list_lookup_alter_eq|by rewrite list_lookup_alter_ne].
  destruct (ca_pcs k !! r) as [[p pc]|]; [|done]. cbn. by destruct (Hf pc) as [-> ->].
Qed.
Lemma core_pc r f k : (∀ pc, lives pc (f pc)) → core (on_pc r f k) = core k.
Proof. intros Hf. unfold core. by rewrite view_pc. Qed.
Lemma core_put r pc p k : ca_pcs k !! r = Some (p, pc) → ∀ pc', lives pc pc' → core (on_pc r (λ _, pc') k) = core k.
Proof.
  intros Hr pc' [H1 H2]. unfold core, view. cbn. do 4 f_equal. apply list_eq. intros i. rewrite !list_lookup_fmap.
  destruct (decide (r = i)) as [<-|Hne]; [rewrite list_lookup_alter_eq, Hr|by rewrite list_lookup_alter_ne].
  cbn. by rewrite H1, H2.
Qed.
Lemma core_fold {A} (f : Call → A → Call) l k : (∀ k a, core (f k a) = core k) → core (fold_left f l k) = core k.
Proof. intros Hf. revert k. induction l as [|a l IH]; intros k; [done|]. cbn. by rewrite IH. Qed.
Lemma core_all f k : (∀ pc, lives pc (f pc)) → core (on_all f k) = core k.
Proof. intros Hf. apply core_fold. intros k' r. by apply core_pc. Qed.
Lemma core_wire t k : core (_wireTrackEnded t k) = core k.
Proof. unfold _wireTrackEnded. by repeat case_match. Qed.
Lemma core_unwire t k : core (_unwireTrackEnded t k) = core k.
Proof. unfold _unwireTrackEnded. by repeat case_match. Qed.

(** * Moves: what the call does by itself *)

(** A peer whose connection was given up. *)
Definition reported (p : jsstr) (l : list call_out) : Prop := Emitted (EvError p) ∈ l ∨ Emitted (EvConnectionFailed p) ∈ l.

(** Connections are only lost, and a lost one is reported. *)
Record shrinks k k' : Prop := {
  sh_out : ∃ l, ca_out k' = ca_out k ++ l;
  sh_sub p r : mget p (ca_connections k') = Some r → mget p (ca_connections k) = Some r;
  sh_lost p : is_Some (mget p (ca_connections k)) → is_Some (mget p (ca_connections k')) ∨ reported p (ca_out k');
  sh_life : (ca_started k', ca_closed k', ca_listening k') = (ca_started k, ca_closed k, ca_listening k);
}.
Lemma reported_app p l l' : reported p l → reported p (l ++ l').
Proof. unfold reported. set_solver. Qed.
#[export] Instance shrinks_refl : Reflexive shrinks.
Proof. intros k. split; eauto. exists []. by rewrite app_nil_r. Qed.
#[export] Instance shrinks_trans : Transitive shrinks.
Proof.
  intros x y z [[l1 O1] S1 L1 E1] [[l2 O2] S2 L2 E2]. split; [|eauto| |congruence].
  - exists (l1 ++ l2). by rewrite O2, O1, app_assoc.
  - intros p [Hp|Hp]%L1; [by apply L2|]. right. rewrite O2. by apply reported_app.
Qed.

Definition moves (o : CallOptions) k k' : Prop := call_inv o k → call_inv o k' ∧ shrinks k k'.
#[export] Instance moves_refl o : Reflexive (moves o).
Proof. intros k Hk. by split. Qed.
#[export] Instance moves_trans o : Transitive (moves o).
Proof. intros x y z H1 H2 Hx. destruct (H1 Hx) as [Hy S1]. destruct (H2 Hy) as [Hz S2]. split; [done|by etrans]. Qed.

(** Steps outside the core, which may emit. *)
Definition calm k k' : Prop := core k' = core k ∧ ∃ l, ca_out k' = ca_out k ++ l.
#[export] Instance calm_refl : Reflexive calm.
Proof. intros k. split; [done|]. exists []. by rewrite app_nil_r. Qed.
#[export] Instance calm_trans : Transitive calm.
Proof. intros x y z [H1 [l1 O1]] [H2 [l2 O2]]. split; [congruence|]. exists (l1 ++ l2). by rewrite O2, O1, app_assoc. Qed.
Lemma calm_moves o k k' : calm k k' → moves o k k'.
Proof.
  intros [Hc Ho] Hk. split; [by eapply inv_core|]. injection Hc as _ E _ _ _ _ E7 E8 E9.
  split; rewrite ?E; [done|done|by left|congruence].
Qed.
Lemma calm_emits e k : calm k (emit e k).
Proof. split; [done|]. by exists [Emitted e]. Qed.
Lemma calm_sends to m k : calm k (sendSignal to m k).
Proof. split; [done|]. by exists [SentSignal to m]. Qed.
Lemma calm_core k k' : core k' = core k → ca_out k' = ca_out k → calm k k'.
Proof. intros Hc Ho. split; [done|]. exists []. by rewrite app_nil_r. Qed.
Lemma calm_pc r f k : (∀ pc, lives pc (f pc)) → calm k (on_pc r f k).
Proof. intros Hf. apply calm_core; [by apply core_pc|done]. Qed.
Lemma out_fold {A} (f : Call → A → Call) l k : (∀ k a, ca_out (f k a) = ca_out k) → ca_out (fold_left f l k) = ca_out k.
Proof. intros Hf. revert k. induction l as [|a l IH]; intros k; [done|]. cbn. by rewrite IH. Qed.
Lemma calm_all f k : (∀ pc, lives pc (f pc)) → calm k (on_all f k).
Proof. intros Hf. apply calm_core; [by apply core_all|]. by apply out_fold. Qed.
Lemma calm_wire t k : calm k (_wireTrackEnded t k).
Proof. apply calm_core; [apply core_wire|]. unfold _wireTrackEnded. by repeat case_match. Qed.
Lemma calm_unwire t k : calm k (_unwireTrackEnded t k).
Proof. apply calm_core; [apply core_unwire|]. unfold _unwireTrackEnded. by repeat case_match. Qed.

(** ** Timers *)

Lemma clear_timer_conns p k : ca_connections (_clearPeerTimer p k) = ca_connections k.
Proof. unfold _clearPeerTimer. by case_match. Qed.
Lemma clear_timer_gone o p k : call_inv o k → mget p (ca_negTimers (_clearPeerTimer p k)) = None.
Proof. intros Hk. unfold _clearPeerTimer. destruct (mget p (ca_negTimers k)) eqn:E; [|done]. cbn. apply mget_mdel_eq. Qed.

Lemma clear_timer_moves o p k : moves o k (_clearPeerTimer p k).
Proof.
  intros Hk. unfold _clearPeerTimer. destruct (mget p (ca_negTimers k)) as [t|] eqn:E; [|by split].
  split; [|split; eauto; exists []; by rewrite app_nil_r].
  destruct Hk as [H1 H2 H3 H4 H5 H6 H7 H8 H9 H10]. split; try done; cbn.
  - intros t' q r Ht'. destruct (decide (t' = t)) as [->|Hne].
    + apply list_lookup_insert_Some in Ht' as [(_ & ? & _)|[? _]]; done.
    + rewrite list_lookup_insert_ne in Ht' by done. destruct (H4 _ _ _ Ht') as [Hq ?]. split; [|done].
      rewrite mget_mdel_ne; [done|]. intros ->. congruence.
  - intros q t' Hq. rewrite mget_mdel in Hq. case_decide; [done|]. destruct (H5 _ _ Hq) as [r Hr]. exists r.
    rewrite list_lookup_insert_ne; [done|]. intros <-. destruct (H4 _ _ _ Hr) as [Hq' _]. destruct (H5 _ _ E) as [r' Hr'].
    rewrite Hr in Hr'. by injection Hr' as -> _.
  - by apply mwf_mdel.
Qed.

(** ** Dropping a connection *)

Lemma view_alter r g k :
  (λ x : jsstr * PeerConnection, (x.1, pc_listened x.2, closings x.2)) <$> alter (λ x, (x.1, g x.2)) r (ca_pcs k) =
  alter (λ v, match ca_pcs k !! r with Some x => (v.1.1, pc_listened (g x.2), closings (g x.2)) | None => v end) r (view k).
Proof.
  unfold view. apply list_eq. intros i. rewrite list_lookup_fmap. destruct (decide (r = i)) as [<-|Hne].
  - rewrite !list_lookup_alter_eq, list_lookup_fmap. by destruct (ca_pcs k !! r) as [[p pc]|].
  - by rewrite !list_lookup_alter_ne, list_lookup_fmap.
Qed.

Definition shut (pc : PeerConnection) : PeerConnection := close (removeAllListeners pc).
Lemma shut_life pc : pc_listened (shut pc) = false ∧ closings (shut pc) = S (closings pc).
Proof. split; [done|]. unfold closings. cbn. rewrite filter_app, length_app. simpl. lia. Qed.

Lemma view_shut r k : view (on_pc r shut k) = alter (λ v, (v.1.1, false, S v.2)) r (view k).
Proof.
  unfold view at 1. cbn [on_pc set_conns ca_pcs]. rewrite view_alter. unfold view. apply list_eq. intros i.
  destruct (decide (r = i)) as [<-|Hne]; [|by rewrite !list_lookup_alter_ne].
  rewrite !list_lookup_alter_eq, !list_lookup_fmap. destruct (ca_pcs k !! r) as [[p pc]|]; [|done].
  cbn [fmap option_fmap option_map fst snd]. by destruct (shut_life pc) as [-> ->].
Qed.

Lemma drop_inv o p r k :
  call_inv o k → mget p (ca_connections k) = Some r → mget p (ca_negTimers k) = None → call_inv o (_dropConnection p r k).
Proof.
  intros [H1 H2 H3 H4 H5 H6 H7 H8 H9 H10] Hp Hn. unfold _dropConnection. fold shut.
  set (k2 := set_peer_state _ _ _).
  assert (view (on_pc r shut k2) = alter (λ v, (v.1.1, false, S v.2)) r (view k)) as Hv by (by rewrite view_shut).
  assert (∀ q r', mget q (mdel p (ca_connections k)) = Some r' → mget q (ca_connections k) = Some r' ∧ q ≠ p ∧ r' ≠ r) as Hd.
  { intros q r' Hq. rewrite mget_mdel in Hq. case_decide; [done|]. split; [done|]. split; [done|]. intros ->.
    destruct (H2 _ _ Hp) as [b Hb], (H2 _ _ Hq) as [b' Hb']. congruence. }
  split; rewrite ?Hv; cbn.
  - by apply mwf_mdel.
  - intros q r' Hq%Hd. destruct Hq as (Hq & _ & Hr). rewrite list_lookup_alter_ne by done. by apply H2.
  - intros r' q b n Hr'. destruct (decide (r = r')) as [<-|Hne].
    + rewrite list_lookup_alter_eq in Hr'. right. destruct (H2 _ _ Hp) as [b' Hb']. rewrite Hb' in Hr'. by injection Hr' as <- <- <-.
    + rewrite list_lookup_alter_ne in Hr' by done. destruct (H3 _ _ _ _ Hr') as [Hq|?]; [left|by right].
      rewrite mget_mdel_ne; [done|]. intros ->. congruence.
  - intros t q r' Ht. destruct (H4 _ _ _ Ht) as [Hq Hq']. split; [done|]. rewrite mget_mdel_ne; [done|]. intros ->. congruence.
  - done.
  - done.
  - intros q n. rewrite !mget_mdel. case_decide; [done|]. apply H7.
  - intros q. rewrite !mget_mdel. case_decide; [by intros []|]. apply H8.
  - intros Hc. destruct (H9 Hc) as [Hnil ->]. by rewrite Hnil in Hp.
  - done.
Qed.

Lemma drop_shrinks p r k e :
  e = EvError p ∨ e = EvConnectionFailed p → shrinks k (emit e (_dropConnection p r k)).
Proof.
  intros He. split; cbn; [by eexists| | |done].
  - intros q r' Hq. rewrite mget_mdel in Hq. by case_decide.
  - intros q Hq. rewrite mget_mdel. case_decide as Hqp; [right|by left]. subst. unfold reported. destruct He as [->| ->]; set_solver.
Qed.

Lemma drop_moves o p r k e :
  e = EvError p ∨ e = EvConnectionFailed p → mget p (ca_connections k) = Some r → mget p (ca_negTimers k) = None →
  moves o k (emit e (_dropConnection p r k)).
Proof.
  intros He Hp Hn Hk. split; [|by apply drop_shrinks]. eapply inv_core; [|by apply drop_inv]. done.
Qed.

(** ** What the events of a connection do *)

Lemma listened_current o r p n k : call_inv o k → view k !! r = Some (p, true, n) → mget p (ca_connections k) = Some r.
Proof. intros Hk Hr. by destruct (ci_lost _ _ Hk _ _ _ _ Hr) as [|[]]. Qed.

Lemma arm_timer_moves o p r k :
  mget p (ca_connections k) = Some r → mget p (ca_negTimers k) = None →
  moves o k (set_timers (mset p (length (ca_timers k)) (ca_negTimers k)) (ca_timers k ++ [Some (p, r)]) k).
Proof.
  intros Hp Hn Hk. split; [|split; eauto; exists []; by rewrite app_nil_r].
  destruct Hk as [H1 H2 H3 H4 H5 H6 H7 H8 H9 H10]. split; try done; cbn.
  - intros t q r' [Ht|[Ht Hx]]%lookup_app_Some.
    + destruct (H4 _ _ _ Ht) as [Hq ?]. split; [|done]. rewrite mget_mset_ne; [done|]. intros ->. congruence.
    + apply list_lookup_singleton_Some in Hx as [Ht0 [= <- <-]]. assert (t = length (ca_timers k)) as -> by lia.
      by rewrite mget_mset_eq.
  - intros q t. rewrite mget_mset. case_decide as Hq.
    + intros [= <-]. subst. exists r. rewrite lookup_app_r by lia. by rewrite Nat.sub_diag.
    + intros [r' Hr]%H5. exists r'. by apply lookup_app_l_Some.
  - by apply mwf_mset.
Qed.

Lemma peer_state_moves o k ice streams :
  (call_inv o k → ∀ p n, mget p ice = Some n → is_Some (mget p (ca_connections k)) ∧ 0 < n ≤ default 1 (co_maxIceRestarts o)) →
  (call_inv o k → ∀ p, is_Some (mget p streams) → is_Some (mget p (ca_connections k))) →
  moves o k (set_peer_state ice streams k).
Proof.
  intros Hi Hs Hk. split; [|split; eauto; exists []; by rewrite app_nil_r].
  specialize (Hi Hk). specialize (Hs Hk). by destruct Hk as [H1 H2 H3 H4 H5 H6 H7 H8 H9 H10].
Qed.

Section moves.
Context `{Platform} (o : CallOptions).
Abbreviation moves := (moves o).

Lemma clear_ice_moves p k : moves k (set_peer_state (mdel p (ca_iceRestarts k)) (ca_remoteStreams k) k).
Proof.
  apply peer_state_moves; intros Hk; [|apply Hk]. intros q n. rewrite mget_mdel. case_decide; [done|]. apply Hk.
Qed.

Lemma negotiation_moves r p d k : mget p (ca_connections k) = Some r → moves k (conn_react o r p (NegotiationNeeded d) k).
Proof.
  intros Hp. cbn [conn_react]. destruct (d_sdp d) as [[|c sdp]|]; [reflexivity| |reflexivity].
  set (k1 := sendSignal _ _ k). assert (moves k k1) as M1 by apply calm_moves, calm_sends.
  assert (moves k1 (let k2 := _clearPeerTimer p k1 in
    set_timers (mset p (length (ca_timers k2)) (ca_negTimers k2)) (ca_timers k2 ++ [Some (p, r)]) k2)) as M2.
  { intros Hk1. cbv zeta. pose proof (clear_timer_gone o p k1 Hk1) as Hg.
    destruct (clear_timer_moves o p k1 Hk1) as [Hk2 S2].
    destruct (arm_timer_moves o p r (_clearPeerTimer p k1)) as [Hk3 S3]; [by rewrite clear_timer_conns|done..|].
    split; [done|by etrans]. }
  destruct (co_negotiationTimeoutMs o) as [[|z|z]|]; by etrans.
Qed.

Lemma track_moves r p t ss k : mget p (ca_connections k) = Some r → moves k (conn_react o r p (TrackFound t ss) k).
Proof.
  intros Hp. cbn [conn_react]. destruct ss as [|s ss]; [reflexivity|]. case_match; [reflexivity|].
  etrans; [|apply calm_moves, calm_emits]. apply peer_state_moves; intros Hk; [apply Hk|].
  intros q. rewrite mget_mset. case_decide as Hq; [subst; by rewrite Hp|apply Hk].
Qed.

(** A failed connection: restarted while the budget lasts, then dropped. *)
Lemma failed_moves r p k : mget p (ca_negTimers k) = None → moves k (conn_failed o r p k).
Proof.
  intros Hn. unfold conn_failed. cbv zeta. case_decide as Hp; [reflexivity|]. case_decide as Ha.
  - etrans; [|apply calm_moves, calm_pc; intros pc; by apply lives_call].
    apply peer_state_moves; intros Hk; [|apply Hk]. intros q n. rewrite mget_mset. case_decide as Hq; [|apply Hk].
    subst. intros [= <-]. rewrite Hp. split; [done|]. destruct (mget p (ca_iceRestarts k)) eqn:E; cbn in *; [|lia].
    destruct (ci_ice _ _ Hk _ _ E). lia.
  - etrans; [apply (clear_ice_moves p)|]. apply drop_moves; [by right|done..].
Qed.

Lemma state_moves r p s k : moves k (conn_react o r p (StateChange s) k).
Proof.
  intros Hk. cbn [conn_react]. cbv zeta. destruct (decide (s = Failed)) as [->|Hf].
  - rewrite !(decide_True (P := _ ∨ _)) by tauto. rewrite !(decide_False (P := Failed = Connected)) by done.
    rewrite decide_False by tauto. destruct (clear_timer_moves o p k Hk) as [Hk1 S1].
    destruct (failed_moves r p (_clearPeerTimer p k)) as [Hk2 S2]; [by eapply clear_timer_gone|done|]. split; [done|by etrans].
  - rewrite (decide_True (P := s ≠ Failed)) by done. revert Hk.
    match goal with |- call_inv o k → call_inv o ?k' ∧ _ => change (moves k k') end.
    repeat case_decide; try tauto; try apply clear_timer_moves; try reflexivity.
    etrans; [apply clear_timer_moves|apply clear_ice_moves].
Qed.

Lemma error_moves r p k : moves k (conn_react o r p ConnError k).
Proof.
  intros Hk. cbn [conn_react]. cbv zeta. case_decide as Hp; [|by apply calm_moves; [apply calm_emits|]].
  destruct (clear_timer_moves o p k Hk) as [Hk1 S1].
  destruct (drop_moves o p r (_clearPeerTimer p k) (EvError p)) as [Hk2 S2]; [by left|by rewrite clear_timer_conns|by eapply clear_timer_gone|done|].
  split; [done|by etrans].
Qed.

Lemma react_moves r p e k : mget p (ca_connections k) = Some r → moves k (conn_react o r p e k).
Proof.
  intros Hp. destruct e as [d|c|t ss|s| |ch].
  - by apply negotiation_moves. - apply calm_moves, calm_sends. - by eapply track_moves. - apply state_moves.
  - apply error_moves. - apply calm_moves, calm_emits.
Qed.

Lemma event_moves r e k : moves k (conn_event_of o r e k).
Proof.
  intros Hk. unfold conn_event_of. destruct (ca_pcs k !! r) as [[p pc]|] eqn:E; [|by split].
  destruct (pc_listened pc) eqn:El; [|by split]. apply react_moves; [|done].
  apply (listened_current o r p (closings pc)); [done|]. unfold view. by rewrite list_lookup_fmap, E, <- El.
Qed.

Lemma fold_moves {A} (f : Call → A → Call) l k : (∀ k a, moves k (f k a)) → moves k (fold_left f l k).
Proof. intros Hf. revert k. induction l as [|a l IH]; intros k; [reflexivity|]. cbn. etrans; [apply Hf|apply IH]. Qed.

Lemma conn_moves r f k : (∀ pc, lives pc (f pc).1) → moves k (on_conn o r f k).
Proof.
  intros Hf. unfold on_conn. destruct (ca_pcs k !! r) as [[p pc]|] eqn:E; [|reflexivity].
  specialize (Hf pc). destruct (f pc) as [pc1 evs]. etrans; [|apply fold_moves; intros; apply event_moves].
  apply calm_moves, calm_core; [by eapply core_put|done].
Qed.

Lemma timer_moves t k : moves k (timer_fired t k).
Proof.
  intros Hk. unfold timer_fired. destruct (ca_timers k !! t) as [[[p r]|]|] eqn:Et; [|by split..].
  destruct (ci_timer _ _ Hk _ _ _ Et) as [Hn Hp]. cbv zeta.
  replace (set_timers (mdel p (ca_negTimers k)) (<[t:=None]> (ca_timers k)) k) with (_clearPeerTimer p k)
    by (unfold _clearPeerTimer; by rewrite Hn).
  destruct (clear_timer_moves o p k Hk) as [Hk1 S1]. rewrite clear_timer_conns, decide_False by (rewrite Hp; tauto).
  destruct (drop_moves o p r (_clearPeerTimer p k) (EvError p)) as [Hk2 S2];
    [by left|by rewrite clear_timer_conns|by eapply clear_timer_gone|done|]. split; [done|by etrans].
Qed.

Lemma handled_moves r i k : moves k (signal_handled r i k).
Proof.
  unfold signal_handled. destruct (ca_pcs k !! r) as [[p pc]|]; [|reflexivity].
  assert (∀ k', moves k' (_clearPeerTimer p (on_pc r (λ pc, set_handlers (delete i (pc_handlers pc)) pc) k'))) as Hm.
  { intros k'. etrans; [|apply clear_timer_moves]. by apply calm_moves, calm_pc. }
  destruct (pc_handlers pc !! i) as [[]|]; try reflexivity; [|apply Hm]. cbv zeta.
  destruct (answer ≫= d_sdp) as [[|c sdp]|]; [apply Hm| |apply Hm]. etrans; [apply Hm|apply calm_moves, calm_sends].
Qed.

(** ** Local tracks *)

Lemma calm_tracks reg e m k : calm k (set_tracks reg e m k).
Proof. by apply calm_core. Qed.
Lemma lives_conn a pc : a ≠ CClose → lives pc (conn_step o a pc).1.
Proof. apply lives_step. Qed.

Lemma calm_ended t k : calm k (onEnded t k).
Proof.
  unfold onEnded. cbv zeta. etrans; [apply (calm_unwire t)|]. case_match; [reflexivity|].
  etrans; [apply calm_tracks|]. etrans; [|apply calm_emits]. apply calm_all. intros pc. by apply (lives_conn (CRemoveTrack t)).
Qed.

Lemma add_everywhere_calm t s b k : calm k (add_everywhere o t s b k).1.
Proof.
  assert (∀ l st, calm st.1 (fold_left (add_one o t s b) l st).1) as Hl; [|apply (Hl _ (k, true))].
  intros l. induction l as [|r l IH]; intros [k' ok]; cbn [fold_left]; [reflexivity|]. etrans; [|apply IH].
  unfold add_one. cbn [fst snd]. destruct ok; [|reflexivity]. destruct (ca_pcs k' !! r) as [[p pc]|] eqn:E; [|reflexivity].
  pose proof (lives_conn (CAddTrack t s b) pc) as Hc. cbn [conn_step] in Hc.
  destruct (PeerConnection.addTrack o t s b pc) as [pc1 ok1]. apply calm_core; [|done]. eapply core_put; [done|]. by apply Hc.
Qed.

Lemma calm_addTrack t s h b k : calm k (addTrack o t s h b k).1.
Proof.
  unfold addTrack. cbv zeta. set (k1 := match h with Some (_ :: _) => _ | _ => k end).
  assert (calm k k1) as C1 by (unfold k1; repeat case_match; try reflexivity; apply calm_tracks).
  set (k2 := set_tracks _ _ _ k1). set (b' := match b with Some _ => _ | None => _ end).
  pose proof (add_everywhere_calm t s b' (_wireTrackEnded t k2)) as C3.
  destruct (add_everywhere o t s b' (_wireTrackEnded t k2)) as [k3 ok]. cbn [fst] in C3.
  assert (calm k k3) as C4 by (etrans; [exact C1|]; etrans; [apply calm_tracks|]; etrans; [apply (calm_wire t)|exact C3]).
  destruct ok; cbn [fst]; [|done]. etrans; [exact C4|apply calm_emits].
Qed.

Lemma calm_replace t t' k : calm k (replaceTrack t t' k).
Proof.
  unfold replaceTrack. cbv zeta. etrans; [apply calm_tracks|]. etrans; [apply (calm_unwire t)|]. etrans; [apply (calm_wire t')|].
  apply calm_all. intros pc. by apply (lives_conn (CReplaceTrack t t')).
Qed.
Lemma calm_remove t k : calm k (removeTrack t k).
Proof.
  unfold removeTrack. cbv zeta. etrans; [apply (calm_unwire t)|]. etrans; [|apply calm_tracks].
  apply calm_all. intros pc. by apply (lives_conn (CRemoveTrack t)).
Qed.
Lemma calm_stop k : calm k (stopActiveSpeakerDetection k).
Proof. unfold stopActiveSpeakerDetection. case_match; [by apply calm_core|reflexivity]. Qed.
Lemma calm_detection k : calm k (startActiveSpeakerDetection k).
Proof. unfold startActiveSpeakerDetection. repeat case_match; by apply calm_core. Qed.
Lemma calm_detect d st k : calm k (speaker_detect d st k).
Proof.
  unfold speaker_detect. destruct (ca_detectors k !! d) as [dt|]; [|reflexivity]. destruct (detect st dt) as [dt1 [[p l]|]]; [|by apply calm_core].
  etrans; [|apply calm_emits]. by apply calm_core.
Qed.
End moves.

(** ** Creating a connection *)

(** [k'] has what [k] has, and a connection to [p]. *)
Record grows (p : jsstr) k k' : Prop := {
  gr_here : is_Some (mget p (ca_connections k'));
  gr_other q : q ≠ p → mget q (ca_connections k') = mget q (ca_connections k);
  gr_out : ca_out k' = ca_out k;
  gr_life : (ca_started k', ca_closed k', ca_listening k') = (ca_started k, ca_closed k, ca_listening k);
}.

Lemma fold_alter_view refs (v : list (jsstr * bool * nat)) i :
  NoDup refs →
  fold_left (λ v r, alter (λ x, (x.1.1, false, S x.2)) r v) refs v !! i =
    if decide (i ∈ refs) then (λ x, (x.1.1, false, S x.2)) <$> v !! i else v !! i.
Proof.
  revert v. induction refs as [|r refs IH]; intros v; cbn [fold_left]; [done|]. intros [Hr Hnd]%NoDup_cons. rewrite IH by done.
  destruct (decide (i = r)) as [->|Hne].
  - rewrite decide_False by done. rewrite list_lookup_alter_eq. by rewrite decide_True by (by left).
  - rewrite list_lookup_alter_ne by done. destruct (decide (i ∈ refs)) as [Hi|Hi].
    + by rewrite decide_True by (by right).
    + rewrite decide_False; [done|]. by intros [|]%elem_of_cons.
Qed.

Lemma fold_clear_timers {A} ts (l : list (option A)) t x :
  fold_left (λ l t, <[t := None]> l) ts l !! t = Some (Some x) → l !! t = Some (Some x) ∧ t ∉ ts.
Proof.
  revert l. induction ts as [|t' ts IH]; intros l; cbn [fold_left]; [set_solver|]. intros [Hl Ht]%IH.
  destruct (decide (t = t')) as [->|Hne]; [apply list_lookup_insert_Some in Hl as [(_ & ? & _)|[? _]]; done|].
  rewrite list_lookup_insert_ne in Hl by done. split; [done|]. by intros [|]%elem_of_cons.
Qed.

Section life.
Context `{Platform} (o : CallOptions).

Lemma entries_lives es pc : lives pc (add_entries o es pc).1.
Proof.
  unfold add_entries. generalize true as ok. revert pc. induction es as [|e es IH]; intros pc ok; cbn [fold_left]; [done|].
  destruct ok; cbn [fst snd]; [|apply (IH pc false)].
  pose proof (lives_conn o (CAddTrack (le_track e) (le_stream e) (co_maxBitrate o)) pc) as Hc. cbn [conn_step fst] in Hc.
  destruct (PeerConnection.addTrack o (le_track e) (le_stream e) (co_maxBitrate o) pc) as [pc1 ok1].
  etrans; [by apply Hc|apply (IH pc1 ok1)].
Qed.

Lemma create_inv room p k :
  call_inv o k → ca_closed k = false →
  let '(k', r, ok) := getOrCreateConnection o room p k in
  call_inv o k' ∧ grows p k k' ∧ mget p (ca_connections k') = Some r.
Proof.
  intros Hk Hc. unfold getOrCreateConnection. destruct (mget p (ca_connections k)) as [r|] eqn:Ep; [by split; [|split; [split|]]|].
  cbv zeta. set (pc := newPeerConnection _). pose proof (entries_lives (ca_tracks k) pc) as [_ Hl].
  destruct (add_entries o (ca_tracks k) pc) as [pc1 ok]. cbn [fst] in Hl.
  set (k' := set_conns _ _ k). assert (view k' = view k ++ [(p, ok, 0%nat)]) as Hv.
  { unfold view, k'. cbn [set_conns ca_pcs]. rewrite fmap_app. f_equal. change ([(p, ok, closings pc1)] = [(p, ok, 0%nat)]). by rewrite Hl. }
  assert (length (view k) = length (ca_pcs k)) as Hlen by apply length_fmap.
  split; [|split; [split|]]; cbn; try done; [|by rewrite mget_mset_eq|intros q Hq; by rewrite mget_mset_ne|by rewrite mget_mset_eq].
  destruct Hk as [H1 H2 H3 H4 H5 H6 H7 H8 H9 H10]. split; rewrite ?Hv; cbn; try done.
  - by apply mwf_mset.
  - intros q r. rewrite mget_mset. case_decide as Hq.
    + intros [= <-]. subst. exists ok. rewrite lookup_app_r, <- Hlen, Nat.sub_diag by lia. done.
    + intros [b Hb]%H2. exists b. by apply lookup_app_l_Some.
  - intros r q b n [Hr|[Hr Hx]]%lookup_app_Some.
    + destruct (H3 _ _ _ _ Hr) as [Hq|?]; [left|by right]. rewrite mget_mset_ne; [done|]. intros ->. congruence.
    + apply list_lookup_singleton_Some in Hx as [Hr0 [= <- <- <-]]. left. rewrite mget_mset_eq. f_equal. lia.
  - intros t q r [Hn Hq]%H4. split; [done|]. rewrite mget_mset_ne; [done|]. intros ->. congruence.
  - intros q n [Hq ?]%H7. split; [|done]. rewrite mget_mset. by case_decide.
  - intros q Hq%H8. rewrite mget_mset. by case_decide.
  - by rewrite Hc.
Qed.

(** ** Tearing down *)

Definition shut_view (v : list (jsstr * bool * nat)) (refs : list nat) : list (jsstr * bool * nat) :=
  fold_left (λ v r, alter (λ x, (x.1.1, false, S x.2)) r v) refs v.
Lemma view_all_shut k : view (on_all shut k) = shut_view (view k) (mvals (ca_connections k)).
Proof.
  unfold on_all, shut_view. generalize (mvals (ca_connections k)) as l. intros l. revert k.
  induction l as [|r l IH]; intros k; cbn [fold_left]; [done|]. by rewrite IH, view_shut.
Qed.
Lemma all_shut_same k : (ca_connections (on_all shut k), ca_negTimers (on_all shut k), ca_timers (on_all shut k)) = (ca_connections k, ca_negTimers k, ca_timers k)
  ∧ (ca_iceRestarts (on_all shut k), ca_remoteStreams (on_all shut k), ca_out (on_all shut k)) = (ca_iceRestarts k, ca_remoteStreams k, ca_out k)
  ∧ (ca_started (on_all shut k), ca_closed (on_all shut k), ca_listening (on_all shut k)) = (ca_started k, ca_closed k, ca_listening k).
Proof.
  unfold on_all. generalize (mvals (ca_connections k)) as l. intros l. revert k.
  induction l as [|r l IH]; intros k; cbn [fold_left]; [done|]. destruct (IH (on_pc r shut k)) as (-> & -> & ->). done.
Qed.

Lemma core_teardown k :
  core (_teardownConnections k) =
    (shut_view (view k) (mvals (ca_connections k)), [],
     ([], fold_left (λ ts t, <[t := None]> ts) (mvals (ca_negTimers k)) (ca_timers k)), ([], []),
     (ca_started k, ca_closed k, ca_listening k))
  ∧ ca_out (_teardownConnections k) = ca_out k.
Proof.
  unfold _teardownConnections. fold shut. set (k2 := set_peer_state [] [] _). destruct (all_shut_same k2) as ([= E1 E2 E3] & [= E4 E5 E6] & [= E7 E8 E9]).
  pose proof (view_all_shut k2) as Hv. split; [|by rewrite <- E6].
  unfold core. cbn [ca_connections ca_negTimers ca_timers ca_iceRestarts ca_remoteStreams ca_started ca_closed ca_listening set_conns] in *.
  rewrite E2, E3, E4, E5, E7, E8, E9. do 5 f_equal. exact Hv.
Qed.

Lemma conns_NoDup k : call_inv o k → NoDup (mvals (ca_connections k)).
Proof.
  intros [H1 H2 _ _ _ _ _ _ _ _]. unfold mwf, mvals in *.
  assert (∀ p r, (p, r) ∈ ca_connections k → ∃ b, view k !! r = Some (p, b, 0%nat)) as Hin
    by (intros p r Hpr; apply H2, elem_mget; done).
  clear H2. revert Hin. induction (ca_connections k) as [|[p r] m IH]; intros Hin; cbn; [constructor|].
  apply NoDup_cons in H1 as [Hp H1]. apply NoDup_cons. split; [|apply IH; [done|]; intros q s Hqs; apply Hin; by right].
  intros ([q s] & -> & Hqs)%list_elem_of_fmap. cbn in *. destruct (Hin p s) as [b Hb]; [by left|].
  destruct (Hin q s) as [b' Hb']; [by right|]. rewrite Hb in Hb'. injection Hb' as -> _. apply Hp.
  apply list_elem_of_fmap. by exists (q, s).
Qed.

Lemma teardown_inv k : call_inv o k → call_inv o (_teardownConnections k) ∧ ca_connections (_teardownConnections k) = [].
Proof.
  intros Hk. pose proof (conns_NoDup k Hk) as Hnd. destruct (core_teardown k) as [Hc _].
  pose proof (f_equal (λ c, c.1.1.1.1) Hc) as E1.
  pose proof (f_equal (λ c, c.1.1.1.2) Hc) as E2.
  pose proof (f_equal (λ c, c.1.1.2.1) Hc) as E3.
  pose proof (f_equal (λ c, c.1.1.2.2) Hc) as E4.
  pose proof (f_equal (λ c, c.1.2.1) Hc) as E5.
  pose proof (f_equal (λ c, c.1.2.2) Hc) as E6.
  pose proof (f_equal (λ c, c.2.1.1) Hc) as E7.
  pose proof (f_equal (λ c, c.2.1.2) Hc) as E8.
  pose proof (f_equal (λ c, c.2.2) Hc) as E9. unfold core in *. cbn [fst snd] in *. clear Hc.
  split; [|done]. destruct Hk as [H1 H2 H3 H4 H5 H6 H7 H8 H9 H10].
  split; rewrite ?E1, ?E2, ?E3, ?E4, ?E5, ?E6, ?E7, ?E8, ?E9; try done.
  - constructor.
  - intros r p b n. unfold shut_view. rewrite fold_alter_view by done. case_decide as Hr.
    + destruct (view k !! r) as [[[q b'] n']|] eqn:E; [|done]. cbn. intros [= <- <- <-]. right. split; [done|]. f_equal.
      apply list_elem_of_fmap in Hr as ([p' r'] & -> & Hpr). apply elem_mget in Hpr; [|done]. destruct (H2 _ _ Hpr) as [b Hb].
      cbn in E. rewrite E in Hb. by injection Hb.
    + intros Hv. destruct (H3 _ _ _ _ Hv) as [Hp|?]; [|by right]. destruct Hr. apply mget_elem in Hp.
      apply list_elem_of_fmap. by exists (p, r).
  - intros t p r [Ht Hnot]%fold_clear_timers. destruct (H4 _ _ _ Ht) as [Hn _]. destruct Hnot. apply mget_elem in Hn.
    apply list_elem_of_fmap. by exists (p, t).
  - constructor.
  - intros p. cbn. by intros [].
  - intros Hc. split; [done|]. by apply H9.
Qed.

Lemma life_inv (s c : bool) (l : nat) k :
  call_inv o k → ca_connections k = [] → (l ≤ if s then 1 else 0)%nat → (c = true → l = 0%nat) → call_inv o (set_life s c l k).
Proof. intros [H1 H2 H3 H4 H5 H6 H7 H8 H9 H10] Hn Hl Hc. split; try done. intros Ht. split; [done|by apply Hc]. Qed.

(** ** Starting *)

Lemma start_threw room ps (st : Call * bool) : st.2 = false → fold_left (start_one o room) ps st = st.
Proof. intros Hst. induction ps as [|p ps IH]; cbn [fold_left]; [done|]. unfold start_one at 2. by rewrite Hst. Qed.

Lemma start_loop room ps k :
  call_inv o k → ca_closed k = false →
  let st := fold_left (start_one o room) ps (k, true) in
  call_inv o st.1 ∧ ca_out st.1 = ca_out k
  ∧ (ca_started st.1, ca_closed st.1, ca_listening st.1) = (ca_started k, ca_closed k, ca_listening k)
  ∧ (∀ p, is_Some (mget p (ca_connections st.1)) → is_Some (mget p (ca_connections k)) ∨ p ∈ ps)
  ∧ (st.2 = true → ∀ p, is_Some (mget p (ca_connections k)) ∨ (p ∈ ps ∧ p ≠ cr_localPeerId room) → is_Some (mget p (ca_connections st.1))).
Proof.
  revert k. induction ps as [|p ps IH]; intros k Hk Hc; cbn [fold_left].
  { split; [done|]. split; [done|]. split; [done|]. split; [by left|]. set_solver. }
  assert (start_one o room (k, true) p = if decide (p = cr_localPeerId room) then (k, true)
    else let '(k', _, ok) := getOrCreateConnection o room p k in (k', ok)) as -> by done.
  destruct (decide (p = cr_localPeerId room)) as [->|Hp].
  - cbn zeta. destruct (IH k Hk Hc) as (I1 & I2 & I3 & I4 & I5). split; [done|]. split; [done|]. split; [done|]. split.
    + intros q Hq. destruct (I4 q Hq); [by left|right; by right].
    + intros Hok q Hq. apply I5; [done|]. set_solver.
  - pose proof (create_inv room p k Hk Hc) as Hcr. destruct (getOrCreateConnection o room p k) as [[k1 r] ok1].
    destruct Hcr as (Hk1 & [G1 G2 G3 [= G4 G5 G6]] & _).
    assert (∀ q, is_Some (mget q (ca_connections k1)) → is_Some (mget q (ca_connections k)) ∨ q ∈ p :: ps) as Hback.
    { intros q Hq. destruct (decide (q = p)) as [->|Hne]; [right; by left|]. left. by rewrite <- G2. }
    destruct ok1; [|rewrite start_threw by done; cbn [fst snd]; split_and!; [done|done|congruence|done|done]].
    destruct (IH k1 Hk1) as (I1 & I2 & I3 & I4 & I5); [congruence|].
    split; [done|]. split; [congruence|]. split; [congruence|]. split; [intros q [Hq|Hq]%I4; [by apply Hback|right; by right]|].
    intros Hok q Hq. apply I5; [done|]. destruct (decide (q = p)) as [->|Hne]; [by left|].
    destruct Hq as [Hq|[[->|Hq]%elem_of_cons Hl]]; [left; by rewrite G2|done|by right].
Qed.

(** What a start that did not throw, or did not need to start, leaves. *)
Lemma start_inv room k :
  call_inv o k →
  let st := start o room k in
  call_inv o st.1 ∧ ca_out st.1 = ca_out k ∧ ca_closed st.1 = ca_closed k
  ∧ (∀ p, is_Some (mget p (ca_connections st.1)) → is_Some (mget p (ca_connections k)) ∨ p ∈ peers room)
  ∧ (ca_started k = false → ca_listening st.1 ≠ 0%nat →
     ∀ p, is_Some (mget p (ca_connections k)) ∨ (p ∈ peers room ∧ p ≠ cr_localPeerId room) → is_Some (mget p (ca_connections st.1)))
  ∧ (ca_started st.1 = false → st.1 = k).
Proof.
  intros Hk. unfold start. destruct (ca_started k) eqn:Es; cbn [orb].
  { cbn. split_and!; try done. by left. }
  destruct (ca_closed k) eqn:Ec.
  { cbn [fst]. split_and!; try done; [by left|]. destruct (ci_closed _ _ Hk Ec) as [_ Hl]. by rewrite Hl. }
  cbv zeta. pose proof (ci_listening _ _ Hk) as Hlis. rewrite Es in Hlis.
  assert (call_inv o (set_life true false (ca_listening k) k)) as Hk1.
  { destruct Hk as [H1 H2 H3 H4 H5 H6 H7 H8 H9 H10]. split; try done. cbn. lia. }
  destruct (start_loop room (peers room) _ Hk1 eq_refl) as (I1 & I2 & [= I3 I4 I5] & I6 & I7).
  destruct (fold_left (start_one o room) (peers room) (set_life true false (ca_listening k) k, true)) as [k2 ok]. cbn [fst snd] in *.
  destruct ok; cbn [fst].
  - split; [|split_and!; [done|done|done|intros _ _ p Hp; by apply I7|cbn; congruence]].
    destruct I1 as [H1 H2 H3 H4 H5 H6 H7 H8 H9 H10]. split; try done; cbn; [by rewrite I4|rewrite I3, I5; lia].
  - split_and!; [done|done|done|done| |congruence]. intros _ Hl. exfalso. apply Hl. rewrite I5. lia.
Qed.

Lemma restart_inv room k :
  call_inv o k →
  let k' := (restart o room k).1 in
  call_inv o k' ∧ ca_out k' = ca_out k ∧ ca_closed k' = ca_closed k
  ∧ (∀ p, is_Some (mget p (ca_connections k')) → p ∈ peers room)
  ∧ (ca_listening k' ≠ 0%nat → ∀ p, p ∈ peers room → p ≠ cr_localPeerId room → is_Some (mget p (ca_connections k')))
  ∧ (ca_started k' = false → ca_connections k' = []).
Proof.
  intros Hk. unfold restart. destruct (ca_closed k) eqn:Ec.
  { destruct (ci_closed _ _ Hk Ec) as [Hn Hl]. cbn. rewrite Hn, Hl. split_and!; try done. by intros p []. }
  cbv zeta. set (k0 := stopActiveSpeakerDetection k). destruct (calm_stop k) as [Hc0 Ho0]. fold k0 in Hc0, Ho0.
  assert (ca_out k0 = ca_out k) as Ho by (unfold k0, stopActiveSpeakerDetection; by case_match).
  assert (call_inv o k0) as Hk0 by (by eapply inv_core).
  destruct (teardown_inv k0 Hk0) as [Hk1 Hn1]. destruct (core_teardown k0) as [Ht Hto].
  set (k1 := _teardownConnections k0) in *.
  pose proof (f_equal (λ c, c.2.1.1) Ht) as E7. pose proof (f_equal (λ c, c.2.1.2) Ht) as E8. pose proof (f_equal (λ c, c.2.2) Ht) as E9.
  cbn [core fst snd] in E7, E8, E9. pose proof (f_equal (λ c, c.2.1.2) Hc0) as F8. cbn [core fst snd] in F8.
  set (k2 := set_life false _ _ _).
  assert (call_inv o k2 ∧ ca_connections k2 = [] ∧ ca_out k2 = ca_out k ∧ ca_closed k2 = false ∧ ca_started k2 = false) as (Hk2 & Hn2 & Ho2 & Hc2 & Hs2).
  { pose proof (ci_listening _ _ Hk1) as Hl. split; [|unfold k2, _detachRoomListeners; destruct (ca_started k1); cbn [set_life ca_connections ca_out ca_closed ca_started]; split_and!; congruence].
    unfold k2, _detachRoomListeners. destruct (ca_started k1) eqn:Es.
    - apply (inv_core o (set_life false (ca_closed k1) (Nat.pred (ca_listening k1)) k1)); [done|].
      apply life_inv; [done..|lia|]. rewrite E8, F8. congruence.
    - apply life_inv; [done..|lia|]. rewrite E8, F8. congruence. }
  destruct (start_inv room k2 Hk2) as (I1 & I2 & I3 & I4 & I5 & I6). rewrite Hn2 in *.
  split; [done|]. split; [congruence|]. split; [congruence|]. split.
  - intros p Hp. destruct (I4 p Hp) as [[]|]; done.
  - split; [intros Hl p Hp Hne; apply I5; [done..|by right]|]. intros Hs. by rewrite I6.
Qed.

Lemma close_inv k : call_inv o k →
  call_inv o (close_call o k) ∧ ca_out (close_call o k) = ca_out k ∧ ca_closed (close_call o k) = true ∧ ca_listening (close_call o k) = 0%nat.
Proof.
  intros Hk. unfold close_call. destruct (ca_closed k) eqn:Ec.
  { destruct (ci_closed _ _ Hk Ec) as [Hn Hl]. by split_and!. }
  cbv zeta. set (k3 := if co_stopTracksOnClose o then _ else _).
  set (kk := _detachRoomListeners _).
  assert (view kk = view k ∧ ca_connections kk = ca_connections k ∧ ca_negTimers kk = ca_negTimers k ∧ ca_timers kk = ca_timers k) as (V1 & V2 & V3 & V4).
  { unfold kk, k3, _detachRoomListeners, stopActiveSpeakerDetection. by destruct (co_stopTracksOnClose o), (ca_activeSpeaker _), (ca_started _). }
  assert (ca_closed kk = true ∧ ca_out kk = ca_out k ∧ ca_started kk = ca_started k ∧
          ca_listening kk = if ca_started k then Nat.pred (ca_listening k) else ca_listening k) as (V5 & V6 & V7 & V8).
  { unfold kk, k3, _detachRoomListeners, stopActiveSpeakerDetection.
    destruct (co_stopTracksOnClose o), (ca_activeSpeaker k) eqn:Ea, (ca_started k) eqn:Es; cbn; rewrite ?Ea; cbn; rewrite ?Es; by split_and!. }
  destruct (teardown_inv k Hk) as [Hk1 Hn1]. destruct (core_teardown kk) as [Ht Hto]. destruct (core_teardown k) as [Ht' _].
  assert (ca_listening kk = 0%nat) as Hz. { pose proof (ci_listening _ _ Hk). rewrite V8. destruct (ca_started k); lia. }
  split; [|split; [congruence|]].
  - apply (inv_core o (set_life (ca_started k) true 0 (_teardownConnections k))).
    + rewrite Ht, V1, V2, V3, V4, V5, V7, Hz. pose proof (f_equal (λ c, c.1) Ht') as Ht1. cbn [fst] in Ht1. unfold core in Ht1 |- *.
      cbn [fst] in Ht1. cbn [set_life ca_started ca_closed ca_listening]. f_equal. symmetry. exact Ht1.
    + apply life_inv; [done..| |done]. destruct (ca_started k); lia.
  - pose proof (f_equal (λ c, c.2.1.2) Ht) as E8. pose proof (f_equal (λ c, c.2.2) Ht) as E9. cbn [core fst snd] in E8, E9.
    rewrite E8, E9. done.
Qed.
End life.
