(* ===== verification/MeshTheorems.v ===== *)
(** A call and its room together: the connections are those of the members, and nothing
    is left behind. *)

From S2P Require Import Prelude JsMap JsNumber Json Peer ClientProtocol ClientRoom MediaProtocol Tracks PeerConnection PeerConnectionTheorems ActiveSpeaker Call CallTheorems.

Implicit Types (k : Call) (room : ClientRoom.Room).

(** * The members *)

(** While the call listens to the room, it has connections to members only, and to every
    other member but those it gave up. *)
Definition mesh room k : Prop :=
  ca_listening k ≠ 0%nat →
  (∀ p, is_Some (mget p (ca_connections k)) → p ∈ peers room)
  ∧ (∀ p, p ∈ peers room → p ≠ cr_localPeerId room → is_Some (mget p (ca_connections k)) ∨ reported p (ca_out k)).

Record good (o : CallOptions) room k : Prop := {
  go_inv : call_inv o k;
  go_mesh : mesh room k;
  go_idle : ca_started k = false → ca_connections k = [];
}.

Lemma nil_of_mget {V} (m : jmap jsstr V) : (∀ p, ¬ is_Some (mget p m)) → m = [].
Proof. destruct m as [|[p v] m]; [done|]. intros Hn. destruct (Hn p). cbn. rewrite decide_True by done. eauto. Qed.

Lemma good_moves o room k k' : moves o k k' → good o room k → good o room k'.
Proof.
  intros Hm [Hk Hme Hi]. destruct (Hm Hk) as [Hk' [[l Ho] Hs Hl [= E1 E2 E3]]]. split; [done| |].
  - intros Hlis. rewrite E3 in Hlis. destruct (Hme Hlis) as [M1 M2]. split.
    + intros p [r Hr%Hs]. by apply M1.
    + intros p Hp Hne. destruct (M2 p Hp Hne) as [Hc|Hr]; [by apply Hl|right]. rewrite Ho. by apply reported_app.
  - rewrite E1. intros Hst%Hi. apply nil_of_mget. intros p [r Hr%Hs]. by rewrite Hst in Hr.
Qed.
Lemma good_calm o room k k' : calm k k' → good o room k → good o room k'.
Proof. intros Hc. by apply good_moves, calm_moves. Qed.

Lemma good_open o room k : good o room k → ca_listening k ≠ 0%nat → ca_closed k = false ∧ ca_started k = true ∧ ca_listening k = 1%nat.
Proof.
  intros [Hk _ _] Hl. pose proof (ci_listening _ _ Hk) as Hb. destruct (ca_closed k) eqn:Ec; [by destruct (ci_closed _ _ Hk Ec)|].
  destruct (ca_started k); [|lia]. split_and!; [done|done|lia].
Qed.

(** A silent call hears nothing of a room that changes. *)
Lemma good_deaf o room room' k : ca_listening k = 0%nat → good o room k → good o room' k.
Proof. intros Hl []. split; [done| |done]. intros Hn. by rewrite Hl in Hn. Qed.
(** A room whose members stay. *)
Lemma good_same o room room' k :
  (∀ p, p ∈ peers room' ↔ p ∈ peers room) → cr_localPeerId room' = cr_localPeerId room → good o room k → good o room' k.
Proof.
  intros Hp Hl [Hk Hm Hi]. split; [done| |done]. intros Hn. destruct (Hm Hn) as [M1 M2].
  split; [intros p Hc; by apply Hp, M1|intros p Hin%Hp Hne; apply M2; congruence].
Qed.

(** * Events of the room *)

Section events.
Context `{Platform} (o : CallOptions).
Abbreviation good := (good o).

(** A connection to [p] on the way from one room to the other. *)
Lemma good_create room room' p k :
  good room k → ca_listening k ≠ 0%nat → cr_localPeerId room' = cr_localPeerId room →
  (∀ q, q ∈ peers room' ↔ q = p ∨ q ∈ peers room) →
  let '(k', r, ok) := getOrCreateConnection o room' p k in
  good room' k' ∧ mget p (ca_connections k') = Some r.
Proof.
  intros Hg Hl Hloc Hp. destruct (good_open _ _ _ Hg Hl) as (Hc & Hs & _). destruct Hg as [Hk Hm Hi].
  pose proof (create_inv o room' p k Hk Hc) as Hcr. destruct (getOrCreateConnection o room' p k) as [[k' r] ok].
  destruct Hcr as (Hk' & [G1 G2 G3 [= G4 G5 G6]] & Hr). destruct (Hm Hl) as [M1 M2]. split; [|done]. split; [done| |congruence].
  intros _. split.
  - intros q Hq. apply Hp. destruct (decide (q = p)) as [->|Hne]; [by left|right]. rewrite G2 in Hq by done. by apply M1.
  - intros q Hq Hne. destruct (decide (q = p)) as [->|Hqp]; [by left|]. rewrite G2, G3 by done. apply M2; [|congruence].
    by apply Hp in Hq as [?|].
Qed.

Lemma good_left room room' p k :
  good room k → cr_localPeerId room' = cr_localPeerId room →
  (∀ q, q ∈ peers room' ↔ q ≠ p ∧ q ∈ peers room) → good room' (handlePeerLeft p k).
Proof.
  intros Hg Hloc Hp.
  assert (good room (_clearPeerTimer p k)) as [Hk1 Hm1 Hi1] by (eapply good_moves; [apply clear_timer_moves|done]).
  pose proof (clear_timer_gone o p k (go_inv _ _ _ Hg)) as Hgone. unfold handlePeerLeft. cbv zeta.
  destruct (mget p (ca_connections (_clearPeerTimer p k))) as [r|] eqn:Ep.
  - split.
    + eapply inv_core; [|by apply (drop_inv o p r (_clearPeerTimer p k))]. done.
    + intros Hl. destruct (Hm1 Hl) as [M1 M2]. cbn. split.
      * intros q Hq. rewrite mget_mdel in Hq. case_decide; [by destruct Hq|]. apply Hp. split; [done|by apply M1].
      * intros q [Hne Hq]%Hp Hql. rewrite mget_mdel_ne by done. destruct (M2 q Hq) as [?|?]; [congruence|by left|right]. by apply reported_app.
    + intros Hs. cbn. specialize (Hi1 Hs). by rewrite Hi1 in Ep.
  - split; [done| |done]. intros Hl. destruct (Hm1 Hl) as [M1 M2]. split.
    + intros q Hq. apply Hp. split; [|by apply M1]. intros ->. rewrite Ep in Hq. by destruct Hq.
    + intros q [Hne Hq]%Hp Hql. apply M2; [done|congruence].
Qed.

Lemma good_signal room from data stable remote k :
  good room k → ca_listening k ≠ 0%nat → good room (handleRoomSignal o room from data stable remote k).
Proof.
  intros Hg Hl. unfold handleRoomSignal. destruct (isMediaSignal data) as [sg|]; [|done]. case_match; [done|].
  assert (∀ q, q ∈ peers room ↔ q = from ∨ q ∈ peers room) as Hp.
  { intros q. split; [by right|]. intros [->|?]; [|done]. apply andb_false_iff in H0 as [Hn|Hn]; apply negb_false_iff in Hn.
    - apply (proj1 (go_mesh _ _ _ Hg Hl)). by apply mhas_true.
    - by apply mget_is_Some_keys, mhas_true. }
  pose proof (good_create room room from k Hg Hl eq_refl Hp) as Hcr.
  destruct (getOrCreateConnection o room from k) as [[k1 r] ok]. destruct Hcr as [Hg1 Hr].
  destruct ok; cbn [negb]; [|done]. destruct sg as [sdp|sdp|c].
  - eapply good_calm; [|done]. apply calm_pc. intros pc. by apply (lives_conn o (COffer sdp stable)).
  - eapply good_calm; [|done]. apply calm_pc. intros pc. by apply (lives_conn o (CAnswer sdp)).
  - eapply good_moves; [|done]. apply conn_moves. intros pc. by apply (lives_conn o (CIce c remote)).
Qed.

Lemma good_restart room room' k : good room k → good room' (restart o room' k).1.
Proof.
  intros [Hk Hm Hi]. destruct (restart_inv o room' k Hk) as (I1 & I2 & I3 & I4 & I5 & I6). split; [done| |done].
  intros Hl. split; [done|]. intros p Hp Hne. left. by apply I5.
Qed.

(** One event of a room that has just changed. *)
Lemma good_event room room' e stable remote k :
  good room k → cr_localPeerId room' = cr_localPeerId room →
  match e with
  | EvPeerJoined p => ∀ q, q ∈ peers room' ↔ q = p ∨ q ∈ peers room
  | EvPeerLeft p => ∀ q, q ∈ peers room' ↔ q ≠ p ∧ q ∈ peers room
  | EvRefreshed => True
  | _ => ∀ q, q ∈ peers room' ↔ q ∈ peers room
  end → good room' (on_room_event o room' e stable remote k).
Proof.
  intros Hg Hloc He. unfold on_room_event. destruct (decide (ca_listening k = 0%nat)) as [Hz|Hz].
  { rewrite Hz. cbn. by eapply good_deaf. }
  destruct (good_open _ _ _ Hg Hz) as (_ & _ & ->). change (good room' (room_handler o room' e stable remote k)).
  destruct e; cbn [room_handler]; try (by eapply good_same).
  - pose proof (good_create room room' peerId k Hg Hz Hloc He) as Hcr. unfold handlePeerJoined.
    destruct (getOrCreateConnection o room' peerId k) as [[k1 r] ok]. by destruct Hcr.
  - by eapply good_left.
  - apply good_signal; [|done]. by eapply good_same.
  - by eapply good_restart.
Qed.
End events.

(** * What the room emits *)

Lemma events_emit room room1 e : cr_out room1 = cr_out room → room_events room (ClientRoom.emit e room1) = [e].
Proof. intros Ho. unfold room_events. cbn. by rewrite Ho, drop_app_length. Qed.
Lemma events_none room : room_events room room = [].
Proof. unfold room_events. by rewrite drop_ge. Qed.

Lemma refresh_spec j room :
  room_events room (_refresh j room) = [EvRefreshed] ∧ cr_localPeerId (_refresh j room) = cr_localPeerId room.
Proof.
  unfold _refresh. cbv zeta. set (r4 := when (rj_iceServers j) _ _).
  assert (cr_out r4 = cr_out room ∧ cr_localPeerId r4 = cr_localPeerId room) as [E1 E2]
    by (unfold r4; destruct (rj_iceServers j), (rj_localRole j), (rj_peerRoles j); done).
  split; [apply events_emit|]; destruct (rj_peerMetadata j); done.
Qed.

Lemma peers_set id m : ∀ q, q ∈ mkeys (set_peer m id) ↔ q = id ∨ q ∈ mkeys m.
Proof.
  intros q. unfold set_peer. rewrite <- !mget_is_Some_keys, mget_mset. case_decide; subst; [|tauto]. split; [by left|eauto].
Qed.
Lemma peers_del id (m : jmap jsstr PeerInfo) : ∀ q, q ∈ mkeys (mdel id m) ↔ q ≠ id ∧ q ∈ mkeys m.
Proof.
  intros q. rewrite <- !mget_is_Some_keys, mget_mdel. case_decide; subst; [|tauto]. split; [by intros []|tauto].
Qed.

(** * Runs *)

Section runs.
Context `{Platform} (o : CallOptions).
Abbreviation act := (act o).

Lemma good_message room msg stable remote k :
  good o room k → good o (_handleMessage msg room) (room_acts o stable remote room (_handleMessage msg) k).2.
Proof.
  intros Hg. unfold room_acts. cbv zeta. cbn [snd].
  destruct msg; cbn [_handleMessage];
    try (rewrite events_none; done);
    (rewrite events_emit by done; cbn [fold_left]; apply (good_event o room); [done|done|]); try done.
  - apply peers_set.
  - apply peers_del.
Qed.

Lemma good_act a s : good o s.1 s.2 → good o (act a s).1 (act a s).2.
Proof.
  destruct s as [room k]. cbn [fst snd]. intros Hg.
  assert (∀ k', calm k k' → good o room k') as Hcalm by (intros k' Hc; by eapply good_calm).
  assert (∀ k', moves o k k' → good o room k') as Hmove by (intros k' Hm; by eapply good_moves).
  destruct a as [msg st re|j|r|r i ok l|r i ok l|r i|r e|r i ok|t|t|d|d ss| | | |t s h b|t s|t t'|t|kd m|p l|on]; cbn [Call.act fst snd].
  - by apply good_message.
  - unfold room_acts. cbv zeta. cbn [fst snd]. destruct (refresh_spec j room) as [-> Hl]. cbn [fold_left]. by apply (good_event o room).
  - apply Hcalm, calm_pc. intros pc. by apply (lives_conn o CNeeded).
  - apply Hmove, conn_moves. intros pc. by apply (lives_conn o (COfferDone i ok l)).
  - apply Hmove, conn_moves. intros pc. by apply (lives_conn o (CContinue i ok l)).
  - apply Hmove, handled_moves.
  - apply Hmove. unfold native_event. destruct e; try reflexivity; by apply conn_moves.
  - apply Hcalm, calm_pc. intros pc. by apply (lives_conn o (CReplaced i ok)).
  - apply Hmove, timer_moves.
  - apply Hcalm. destruct (ca_media k !! t) as [tr|]; [|reflexivity]. induction (mt_ended tr) as [|n IH]; cbn [Nat.iter]; [reflexivity|].
    etrans; [exact IH|apply (calm_ended o)].
  - apply Hcalm. case_match; [by apply calm_core|reflexivity].
  - apply Hcalm. case_match; [apply calm_detect|reflexivity].
  - destruct Hg as [Hk Hm Hi]. destruct (start_inv o room k Hk) as (I1 & I2 & I3 & I4 & I5 & I6). split; [done| |].
    + intros Hl. destruct (ca_started k) eqn:Es.
      * unfold start in *. rewrite Es in *. cbn [orb fst] in *. by apply Hm.
      * specialize (Hi eq_refl). rewrite Hi in *. split; [intros p Hp; destruct (I4 p Hp) as [[]|]; done|].
        intros p Hp Hne. left. apply I5; [done|done|by right].
    + intros Hs. pose proof (I6 Hs) as E. rewrite E in Hs |- *. by apply Hi.
  - by eapply good_restart.
  - destruct Hg as [Hk Hm Hi]. destruct (close_inv o k Hk) as (I1 & I2 & I3 & I4). split; [done| |].
    + intros Hl. by rewrite I4 in Hl.
    + intros _. by destruct (ci_closed _ _ I1 I3).
  - apply Hcalm, calm_addTrack.
  - apply Hcalm, calm_addTrack.
  - apply Hcalm, (calm_replace o).
  - apply Hcalm, (calm_remove o).
  - apply Hcalm, calm_tracks.
  - apply Hcalm. unfold createDataChannel. destruct (mget p (ca_connections k)); [|reflexivity]. apply calm_pc. intros pc.
    by apply (lives_conn o (CChannel l)).
  - apply Hcalm. destruct on; [apply calm_detection|apply calm_stop].
Qed.

Lemma good_run l s : good o s.1 s.2 → good o (run o l s).1 (run o l s).2.
Proof. revert s. induction l as [|a l IH]; intros s Hs; [done|]. cbn. by apply IH, good_act. Qed.

Lemma good_new room media stream : good o room (newCall media stream).
Proof.
  unfold newCall. cbv zeta. set (reg := match stream with Some _ => _ | None => _ end).
  eapply good_calm; [|split; [split|..]].
  - instantiate (1 := mkCall [] [] [] [] [] [] reg [] media [] None false false 0 []).
    generalize (mkCall [] [] [] [] [] [] reg [] media [] None false false 0 []) as k. induction reg as [|e reg IH]; intros k; cbn [fold_left]; [reflexivity|].
    etrans; [apply calm_wire|apply IH].
  - constructor.
  - done.
  - done.
  - done.
  - done.
  - constructor.
  - done.
  - intros p. cbn. by intros [].
  - done.
  - cbn. lia.
  - done.
  - done.
Qed.

Lemma good_reached room media stream l :
  let s := run o l (room, newCall media stream) in good o s.1 s.2.
Proof. apply good_run, good_new. Qed.
End runs.

(** C25: The mesh follows the room, over every run of a call with its room: while the call
    listens, every connection is to a member of the room, and every other member has
    one unless the call reported that it gave the member's connection up.  It never
    listens twice. *)
Theorem call_mesh `{Platform} (o : CallOptions) room media stream l :
  let '(room', k) := run o l (room, newCall media stream) in
  (ca_listening k ≤ 1)%nat
  ∧ (ca_listening k = 1%nat →
     (∀ p, is_Some (mget p (ca_connections k)) → hasPeer p room' = true)
     ∧ (∀ p, hasPeer p room' = true → p ≠ cr_localPeerId room' →
        is_Some (mget p (ca_connections k)) ∨ reported p (ca_out k))).
Proof.
  pose proof (good_reached o room media stream l) as Hg. cbv zeta in Hg.
  destruct (run o l (room, newCall media stream)) as [room' k]. cbn [fst snd] in Hg. destruct Hg as [Hk Hm _].
  split; [pose proof (ci_listening _ _ Hk); destruct (ca_started k); lia|].
  intros Hl. destruct (Hm ltac:(lia)) as [M1 M2]. unfold hasPeer. split.
  - intros p Hp%M1. by apply mhas_true, mget_is_Some_keys.
  - intros p Hp%mhas_true%mget_is_Some_keys Hne. by apply M2.
Qed.

(** C26: Nothing is left behind, over every run: every connection ever made is either the
    registered one of its peer and open, or has no listeners and was closed, once; a
    timer that can still fire is the registered one of a peer and for its current
    connection; the count of ICE restarts stays in its budget; and a closed call has no
    connections and does not hear the room. *)
Theorem call_resources `{Platform} (o : CallOptions) room media stream l :
  let k := (run o l (room, newCall media stream)).2 in
  (∀ r p pc, ca_pcs k !! r = Some (p, pc) →
     (mget p (ca_connections k) = Some r ∧ closings pc = 0%nat)
     ∨ (pc_listened pc = false ∧ closings pc = 1%nat))
  ∧ (∀ t p r, ca_timers k !! t = Some (Some (p, r)) →
     mget p (ca_negTimers k) = Some t ∧ mget p (ca_connections k) = Some r)
  ∧ (∀ p n, mget p (ca_iceRestarts k) = Some n → 0 < n ≤ default 1 (co_maxIceRestarts o))
  ∧ (ca_closed k = true → ca_connections k = [] ∧ ca_listening k = 0%nat).
Proof.
  pose proof (good_reached o room media stream l) as [Hk _ _]. cbv zeta in *. set (k := (run o l (room, newCall media stream)).2) in *.
  split; [|split; [apply Hk|split; [intros p n Hp; by apply (ci_ice _ _ Hk p)|apply Hk]]].
  intros r p pc Hr. assert (view k !! r = Some (p, pc_listened pc, closings pc)) as Hv by (unfold view; by rewrite list_lookup_fmap, Hr).
  destruct (ci_lost _ _ Hk _ _ _ _ Hv) as [Hp|?]; [left|by right]. split; [done|].
  destruct (ci_conn _ _ Hk _ _ Hp) as [b Hb]. rewrite Hv in Hb. by injection Hb.
Qed.

(** * A connection that keeps failing *)

Definition restarts (pc : PeerConnection) : nat :=
  length (filter (λ c, match c with NRestartIce => true | _ => false end = true) (pc_calls pc)).

Section failing.
Context `{Platform} (o : CallOptions).
Abbreviation fails r := (native_event o r (StateChange Failed)).

Lemma fails_once r p pc k :
  ca_pcs k !! r = Some (p, pc) → pc_listened pc = true → mget p (ca_connections k) = Some r →
  let a := default 0 (mget p (ca_iceRestarts k)) in
  let k' := fails r k in
  if decide (a < default 1 (co_maxIceRestarts o))
  then mget p (ca_connections k') = Some r ∧ mget p (ca_iceRestarts k') = Some (a + 1)
       ∧ ∃ pc', ca_pcs k' !! r = Some (p, pc') ∧ pc_listened pc' = true ∧ restarts pc' = S (restarts pc)
  else mget p (ca_connections k') = None ∧ Emitted (EvConnectionFailed p) ∈ ca_out k'
       ∧ ∃ pc', ca_pcs k' !! r = Some (p, pc') ∧ pc_listened pc' = false.
Proof.
  intros Hr Hl Hp. cbv zeta. cbn [native_event]. unfold on_conn. rewrite Hr. cbn [fold_left].
  unfold conn_event_of. set (k1 := on_pc r (λ _, pc) k).
  assert (ca_pcs k1 !! r = Some (p, pc)) as Hr1 by (unfold k1; cbn; by rewrite list_lookup_alter_eq, Hr).
  rewrite Hr1, Hl. cbn [conn_react]. rewrite !(decide_True (P := _ ∨ _)) by tauto.
  rewrite !(decide_False (P := Failed = Connected)) by done. rewrite (decide_False (P := Failed ≠ Failed)) by tauto.
  set (k2 := _clearPeerTimer p k1).
  assert (ca_pcs k2 = ca_pcs k1 ∧ ca_connections k2 = ca_connections k ∧ ca_iceRestarts k2 = ca_iceRestarts k) as (E1 & E2 & E3)
    by (unfold k2, _clearPeerTimer; by case_match).
  unfold conn_failed. rewrite E2, !(decide_False (P := mget p (ca_connections k) ≠ Some r)) by (rewrite Hp; tauto). cbv zeta. rewrite E3. case_decide as Ha.
  - cbn. rewrite E2, mget_mset_eq, list_lookup_alter_eq, E1, Hr1. split_and!; [done..|]. eexists. split; [done|]. split; [done|].
    unfold restarts. cbn. rewrite filter_app, length_app. simpl. lia.
  - cbn. rewrite E2, mget_mdel_eq, list_lookup_alter_eq, E1, Hr1. split; [done|]. split; [set_solver|]. by eexists.
Qed.

(** A failed connection whose listeners are gone fails on in silence. *)
Lemma fails_silent r p pc k n :
  ca_pcs k !! r = Some (p, pc) → pc_listened pc = false → mget p (ca_connections k) = None →
  Emitted (EvConnectionFailed p) ∈ ca_out k →
  mget p (ca_connections (Nat.iter n (fails r) k)) = None ∧ Emitted (EvConnectionFailed p) ∈ ca_out (Nat.iter n (fails r) k).
Proof.
  intros Hr Hl Hp Ho.
  assert (mget p (ca_connections (Nat.iter n (fails r) k)) = None ∧ Emitted (EvConnectionFailed p) ∈ ca_out (Nat.iter n (fails r) k)
          ∧ ca_pcs (Nat.iter n (fails r) k) !! r = Some (p, pc)) as (? & ? & _); [|done].
  induction n as [|n IH]; [done|]. destruct IH as (I1 & I2 & I3). rewrite Nat.iter_succ.
  set (kn := Nat.iter n (fails r) k) in *. clearbody kn. cbn [native_event]. unfold on_conn. rewrite I3. cbn [fold_left].
  assert (ca_pcs (on_pc r (λ _, pc) kn) !! r = Some (p, pc)) as Hpc by (cbn; by rewrite list_lookup_alter_eq, I3).
  unfold conn_event_of. by rewrite Hpc, Hl.
Qed.

(** C31: ICE is restarted at every failure until the budget is spent, and the failure after
    that ends the connection and is reported: [n] failures in a row of the current
    connection of a peer, none of them before. *)
Theorem ice_budget r p pc k n :
  ca_pcs k !! r = Some (p, pc) → pc_listened pc = true → mget p (ca_connections k) = Some r →
  mget p (ca_iceRestarts k) = None → 0 ≤ default 1 (co_maxIceRestarts o) →
  let k' := Nat.iter n (fails r) k in
  if decide (Z.of_nat n ≤ default 1 (co_maxIceRestarts o))
  then mget p (ca_connections k') = Some r
       ∧ ∃ pc', ca_pcs k' !! r = Some (p, pc') ∧ restarts pc' = (n + restarts pc)%nat
  else mget p (ca_connections k') = None ∧ Emitted (EvConnectionFailed p) ∈ ca_out k'.
Proof.
  intros Hr Hl Hp Hi Hb. cbv zeta.
  assert (∀ n, Z.of_nat n ≤ default 1 (co_maxIceRestarts o) → let k' := Nat.iter n (fails r) k in
    mget p (ca_connections k') = Some r ∧ default 0 (mget p (ca_iceRestarts k')) = Z.of_nat n
    ∧ ∃ pc', ca_pcs k' !! r = Some (p, pc') ∧ pc_listened pc' = true ∧ restarts pc' = (n + restarts pc)%nat) as Hin.
  { intros m. induction m as [|m IH]; intros Hm; cbv zeta; [cbn; rewrite Hi; split_and!; [done..|by exists pc]|].
    destruct (IH ltac:(lia)) as (I1 & I2 & pc1 & I3 & I4 & I5). pose proof (fails_once r p pc1 _ I3 I4 I1) as Hf. cbv zeta in Hf.
    rewrite I2, decide_True in Hf by lia. destruct Hf as (F1 & F2 & pc2 & F3 & F4 & F5). rewrite Nat.iter_succ, F2.
    split_and!; [done|cbn; lia|]. exists pc2. split_and!; [done..|lia]. }
  case_decide as Hn.
  - destruct (Hin n Hn) as (I1 & _ & pc' & I3 & _ & I5). split; [done|by exists pc'].
  - set (m := Z.to_nat (default 1 (co_maxIceRestarts o))). destruct (Hin m ltac:(lia)) as (I1 & I2 & pc1 & I3 & I4 & I5).
    pose proof (fails_once r p pc1 _ I3 I4 I1) as Hf. cbv zeta in Hf. rewrite I2, decide_False in Hf by lia.
    destruct Hf as (F1 & F2 & pc2 & F3 & F4). replace n with ((n - S m) + S m)%nat by lia. rewrite Nat.iter_add.
    eapply fails_silent; [exact F3|done..].
Qed.
End failing.

(** * Concrete calls *)

#[local] Existing Instance plain.

Definition me := js "me".
Definition ann := js "ann".
Definition a_room : ClientRoom.Room := newRoom (mkJoined None (js "r") me [ann] None None None None).
Definition calling : ClientRoom.Room * Call := run no_options [DoStart] (a_room, newCall [mkTrack Audio true None false true 0] (Some (7%nat, [0%nat]))).
Definition a_pc : PeerConnection :=
  mkPC false false 0 [] false [(0%nat, 0%nat)] true [] [] [] [NAddTrack 0 7].

(** The call to the other member, with the local track. *)
Example calling_ann : ca_connections calling.2 = [(ann, 0%nat)] ∧ ca_pcs calling.2 !! 0%nat = Some (ann, a_pc).
Proof. by vm_compute. Qed.

Lemma ice_budget_witness :
  mget ann (ca_connections (Nat.iter 2 (native_event no_options 0 (StateChange Failed)) calling.2)) = None
  ∧ Emitted (EvConnectionFailed ann) ∈ ca_out (Nat.iter 2 (native_event no_options 0 (StateChange Failed)) calling.2).
Proof.
  exact (ice_budget no_options 0 ann a_pc calling.2 2 ltac:(vm_compute; reflexivity) ltac:(vm_compute; reflexivity)
           ltac:(vm_compute; reflexivity) ltac:(vm_compute; reflexivity) ltac:(vm_compute; discriminate)).
Defined.

(** An offer that comes while an answer is being applied ends the connection of the
    polite side (compare [offer_after_answer_fails]). *)
Definition polite_call : ClientRoom.Room * Call :=
  let o := mkOptions None None None None false None None None None (Some (λ _ _, true)) in
  run o [DoStart; Needed 0; OfferDone 0 0 true (Some (mkDesc TOffer (Some (js "a"))));
         RoomMessage (Signal ann (Some (signal_json (Answer (js "b"))))) false true;
         RoomMessage (Signal ann (Some (signal_json (Offer (js "c"))))) false true;
         HandlerGoes 0 0 true None; HandlerGoes 0 1 false None]
    (a_room, newCall [] None).
Example renegotiation_drops_call : ca_connections polite_call.2 = [] ∧ ca_out polite_call.2 = [SentSignal ann (Offer (js "a")); Emitted (EvError ann)].
Proof. by vm_compute. Qed.

(** One candidate more than the buffer holds ends the connection. *)
Example overflow_drops_connection :
  let early := replicate 101 (RoomMessage (Signal ann (Some (signal_json (Ice (Some (cand 1)))))) true false) in
  let k := (run no_options early calling).2 in
  ca_connections k = [] ∧ ca_out k = [Emitted (EvError ann)].
Proof. by vm_compute. Qed.

(** Removing a track is not announced, its end is. *)
Example removal_unannounced :
  ca_out (run no_options [DoRemoveTrack 0] calling).2 = [] ∧
  ca_out (run no_options [TrackEnds 0] calling).2 = [Emitted (EvTrackUnpublished 0)].
Proof. by vm_compute. Qed.

(** A platform that refuses a track that is being sent already. *)
Definition strict : Platform := {|
  p_sender calls c := match c with
                      | NAddTrack t _ => if existsb (λ c', match c' with NAddTrack t' _ => Nat.eqb t' t | _ => false end) calls then None
                                         else Some (length calls)
                      | _ => Some (length calls)
                      end;
  p_senderKind _ _ := None; p_hasTransceiver _ _ := false; p_capabilities _ := None;
|}.
(** A track that was added twice before the call started: the call never hears its room. *)
Example same_track_twice :
  let k := (@run strict no_options [DoAddTrack 0 7 None None; DoStart]
              (a_room, newCall [mkTrack Audio true None false true 0] (Some (7%nat, [0%nat])))).2 in
  ca_started k = true ∧ ca_listening k = 0%nat ∧ ca_connections k = [(ann, 0%nat)].
Proof. by vm_compute. Qed.

(** A speaker may be reported after the call was closed. *)
Example speaker_after_close :
  ca_out (run no_options [DoDetect true; SpeakerTick 0; DoClose; SpeakerStats 0 [Some [mkReport true (Some num_one)]]] calling).2
  = [Emitted (EvActiveSpeaker (Some ann) num_one)].
Proof. by vm_compute. Qed.
