(* ===== verification/MediaRouter.v ===== *)
(** The media router of a room on the server, and the handler of SFU requests in front
    of it (packages/media/src/MediaRouter.ts, MediaEntity.ts, Producer.ts, Consumer.ts,
    SfuSignalHandler.ts).

    mediasoup is outside: the calls it gets are logged, its promises settle as later
    steps that say how, and its objects close in steps of their own.  An operation is
    cut at its [await]; what is suspended is in [mr_waiting], with the call of the API
    it answers. *)

From S2P Require Import Prelude JsMap JsNumber Json MediaProtocol.

(** * Producers and consumers *)

Inductive MediaEntityRole := RProducer | RConsumer (producerId : jsstr).

(** [en_paused], [en_closed] are the wrapped object's; [en_registered]: the router's
    listener of the [closed] event is still to be called. *)
Record MediaEntity := mkEntity {
  en_id : jsstr;
  en_role : MediaEntityRole;
  en_peerId : jsstr;
  en_paused : bool;
  en_closed : bool;
  en_closeEmitted : bool;
  en_registered : bool;
}.
Definition set_paused (b : bool) (e : MediaEntity) : MediaEntity :=
  mkEntity (en_id e) (en_role e) (en_peerId e) b (en_closed e) (en_closeEmitted e) (en_registered e).
Definition set_native_closed (e : MediaEntity) : MediaEntity :=
  mkEntity (en_id e) (en_role e) (en_peerId e) (en_paused e) true (en_closeEmitted e) (en_registered e).
Definition set_emitted (e : MediaEntity) : MediaEntity :=
  mkEntity (en_id e) (en_role e) (en_peerId e) (en_paused e) (en_closed e) true false.

(** * The router *)

Record Transport := mkTransport { tp_peerId : jsstr; tp_direction : option TransportDirection }.

(** What a call of the API is answered with. *)
Inductive Result :=
| Capabilities
| TransportCreated (transportId : jsstr)
| TransportConnected (transportId : jsstr)
| Produced (producerId : jsstr)
| Consumed (consumerId producerId : jsstr)
| ConsumerResumed (consumerId : jsstr)
| PipeCreated (pipeTransportId : jsstr)
| PipeConnected
| PipeConsumed (producerId : jsstr)
| SfuError.

(** Suspended operations: what they await and need. *)
Inductive waiting :=
| WCreate (peerId : jsstr) (direction : option TransportDirection)
| WLimit (transportId peerId : jsstr) (direction : option TransportDirection)
| WConnect (transportId : jsstr)
| WProduce (peerId : jsstr)
| WConsume (peerId producerId : jsstr)
| WResume (consumerId : jsstr) (entity : nat)
| WCreatePipe
| WConnectPipe
| WPipeConsume (producerId : jsstr)
| WPipeProduce.

(** What a router does: calls of mediasoup, with the peer they are made for; events;
    the pause of an entity; answers. *)
Inductive router_out :=
| NCreateTransport (peerId : jsstr) (direction : option TransportDirection)
| NLimit (transportId : jsstr)
| NConnect (peerId transportId : jsstr)
| NProduce (peerId transportId : jsstr) (kind : MediaKind)
| NConsume (peerId transportId producerId : jsstr)
| NResume (peerId consumerId : jsstr)
| NCloseTransport (transportId : jsstr)
| NCreatePipe
| NConnectPipe (pipeTransportId : jsstr)
| NPipeConsume (pipeTransportId producerId : jsstr)
| NPipeProduce (pipeTransportId producerId : jsstr)
| NPause (entity : nat)
| NResumeEntity (entity : nat)
| NCloseEntity (entity : nat)
| NCloseRouter
| Registered (transportId peerId : jsstr) (direction : option TransportDirection)
| ProducerAdded (entity : nat)
| ProducerClosed (entity : nat)
| ConsumerAdded (entity : nat)
| RouterClosed
| EntityClosed (entity : nat)
| EntityPaused (entity : nat)
| EntityResumed (entity : nat)
| Answered (call : nat) (r : Result).

Record MediaRouter := mkRouter {
  mr_transports : jmap jsstr Transport;
  mr_pipeTransports : list jsstr;
  mr_producers : jmap jsstr nat;
  mr_consumers : jmap jsstr nat;
  mr_entities : list MediaEntity;
  mr_closed : bool;
  mr_calls : nat;                       (* calls of the API so far *)
  mr_waiting : list (nat * waiting);
  mr_out : list router_out;
}.
Implicit Types (r : MediaRouter).

Definition newRouter : MediaRouter := mkRouter [] [] [] [] [] false 0 [] [].

Definition set_transports (m : jmap jsstr Transport) (pipes : list jsstr) r : MediaRouter :=
  mkRouter m pipes (mr_producers r) (mr_consumers r) (mr_entities r) (mr_closed r) (mr_calls r) (mr_waiting r) (mr_out r).
Definition set_entities (ps cs : jmap jsstr nat) (es : list MediaEntity) r : MediaRouter :=
  mkRouter (mr_transports r) (mr_pipeTransports r) ps cs es (mr_closed r) (mr_calls r) (mr_waiting r) (mr_out r).
Definition set_closed r : MediaRouter :=
  mkRouter (mr_transports r) (mr_pipeTransports r) (mr_producers r) (mr_consumers r) (mr_entities r) true (mr_calls r)
    (mr_waiting r) (mr_out r).
Definition set_waiting (calls : nat) (ws : list (nat * waiting)) r : MediaRouter :=
  mkRouter (mr_transports r) (mr_pipeTransports r) (mr_producers r) (mr_consumers r) (mr_entities r) (mr_closed r) calls ws (mr_out r).
Definition out (o : router_out) r : MediaRouter :=
  mkRouter (mr_transports r) (mr_pipeTransports r) (mr_producers r) (mr_consumers r) (mr_entities r) (mr_closed r) (mr_calls r)
    (mr_waiting r) (mr_out r ++ [o]).

(** * Operations, up to their [await] *)

(** Where an operation stands: it threw, returned, or is suspended. *)
Inductive progress := Throw | Return (r : Result) | Wait (w : waiting).

Section operations.
(** [canConsume] of the mediasoup router, and whether an incoming bitrate is configured. *)
Context (canConsume : jsstr → jmap jsstr json → bool) (limited : bool).

Abbreviation operation := (MediaRouter → MediaRouter * progress).

(** [_assertOpen]. *)
Definition if_open (f : operation) : operation := λ r, if mr_closed r then (r, Throw) else f r.
(** [_requireOwnedTransport]. *)
Definition with_owned (peerId transportId : jsstr) (f : Transport → operation) : operation := λ r,
  match mget transportId (mr_transports r) with
  | None => (r, Throw)
  | Some t => if decide (tp_peerId t ≠ peerId) then (r, Throw) else f t r
  end.
(** [_requirePipeTransport]. *)
Definition with_pipe (pipeTransportId : jsstr) (f : operation) : operation := λ r,
  if shas pipeTransportId (mr_pipeTransports r) then f r else (r, Throw).
Definition call_native (o : router_out) (w : waiting) : operation := λ r, (out o r, Wait w).

Definition createWebRtcTransport (peerId : jsstr) (direction : option TransportDirection) : operation :=
  if_open (call_native (NCreateTransport peerId direction) (WCreate peerId direction)).

Definition connectTransport (peerId transportId : jsstr) : operation :=
  with_owned peerId transportId (λ _, call_native (NConnect peerId transportId) (WConnect transportId)).

Definition produce (peerId transportId : jsstr) (kind : MediaKind) : operation :=
  if_open (with_owned peerId transportId (λ t,
    if decide (tp_direction t = Some Recv) then λ r, (r, Throw)
    else call_native (NProduce peerId transportId kind) (WProduce peerId))).

Definition consume (peerId transportId producerId : jsstr) (rtpCapabilities : jmap jsstr json) : operation :=
  if_open (λ r,
    if negb (mhas producerId (mr_producers r)) then (r, Throw)
    else if negb (canConsume producerId rtpCapabilities) then (r, Throw)
    else with_owned peerId transportId (λ t,
           if decide (tp_direction t = Some Send) then λ r, (r, Throw)
           else call_native (NConsume peerId transportId producerId) (WConsume peerId producerId)) r).

(** A consumer that is closed or not paused is not resumed again. *)
Definition resumeConsumer (peerId consumerId : jsstr) : operation := λ r,
  match mget consumerId (mr_consumers r) with
  | None => (r, Throw)
  | Some e =>
      match mr_entities r !! e with
      | None => (r, Throw)
      | Some c =>
          if decide (en_peerId c ≠ peerId) then (r, Throw)
          else if en_closed c || negb (en_paused c) then (r, Return (ConsumerResumed consumerId))
          else (out (NResume peerId consumerId) r, Wait (WResume consumerId e))
      end
  end.

Definition createPipeTransport : operation := if_open (call_native NCreatePipe WCreatePipe).
Definition connectPipeTransport (pipe : jsstr) : operation := with_pipe pipe (call_native (NConnectPipe pipe) WConnectPipe).
Definition pipeConsume (pipe producerId : jsstr) : operation :=
  with_pipe pipe (call_native (NPipeConsume pipe producerId) (WPipeConsume producerId)).
Definition pipeProduce (pipe producerId : jsstr) : operation :=
  if_open (with_pipe pipe (call_native (NPipeProduce pipe producerId) WPipeProduce)).

(** * The rest of the operations *)

Definition PIPE_PEER_ID : jsstr := js "pipe".

(** [_registerProducer] and its counterpart for consumers: a new entity. *)
Definition _registerProducer (peerId id : jsstr) r : MediaRouter :=
  let e := length (mr_entities r) in
  out (ProducerAdded e)
    (set_entities (mset id e (mr_producers r)) (mr_consumers r)
       (mr_entities r ++ [mkEntity id RProducer peerId false false false true]) r).
Definition register_consumer (peerId producerId id : jsstr) r : MediaRouter :=
  let e := length (mr_entities r) in
  out (ConsumerAdded e)
    (set_entities (mr_producers r) (mset id e (mr_consumers r))
       (mr_entities r ++ [mkEntity id (RConsumer producerId) peerId true false false true]) r).
Definition register_transport (transportId peerId : jsstr) (direction : option TransportDirection) r : MediaRouter :=
  out (Registered transportId peerId direction)
    (set_transports (mset transportId (mkTransport peerId direction) (mr_transports r)) (mr_pipeTransports r) r).

(** An awaited promise settled: [Some id] with an object of that id (any, where there
    is none), [None] if it was rejected.  A bitrate that cannot be set is ignored. *)
Definition continue (w : waiting) (outcome : option jsstr) : operation := λ r,
  match w, outcome with
  | WLimit id peerId direction, _ => (register_transport id peerId direction r, Return (TransportCreated id))
  | _, None => (r, Throw)
  | WCreate peerId direction, Some id =>
      if limited then (out (NLimit id) r, Wait (WLimit id peerId direction))
      else (register_transport id peerId direction r, Return (TransportCreated id))
  | WConnect id, Some _ => (r, Return (TransportConnected id))
  | WProduce peerId, Some id => (_registerProducer peerId id r, Return (Produced id))
  | WConsume peerId producerId, Some id => (register_consumer peerId producerId id r, Return (Consumed id producerId))
  | WResume consumerId e, Some _ =>
      (out (EntityResumed e) (set_entities (mr_producers r) (mr_consumers r) (alter (set_paused false) e (mr_entities r)) r),
       Return (ConsumerResumed consumerId))
  | WCreatePipe, Some id => (set_transports (mr_transports r) (sadd id (mr_pipeTransports r)) r, Return (PipeCreated id))
  | WConnectPipe, Some _ => (r, Return PipeConnected)
  | WPipeConsume producerId, Some _ => (r, Return (PipeConsumed producerId))
  | WPipeProduce, Some id => (_registerProducer PIPE_PEER_ID id r, Return (Produced id))
  end.

(** The caller [c] of an operation gets its answer, or waits on. *)
Definition settle (c : nat) (p : progress) r : MediaRouter :=
  match p with
  | Throw => out (Answered c SfuError) r
  | Return res => out (Answered c res) r
  | Wait w => set_waiting (mr_calls r) (mr_waiting r ++ [(c, w)]) r
  end.
Definition api (f : operation) r : MediaRouter :=
  let c := mr_calls r in
  let '(r1, p) := f (set_waiting (S c) (mr_waiting r) r) in settle c p r1.
Definition resolved (i : nat) (outcome : option jsstr) r : MediaRouter :=
  match mr_waiting r !! i with
  | None => r
  | Some (c, w) =>
      let '(r1, p) := continue w outcome (set_waiting (mr_calls r) (delete i (mr_waiting r)) r) in settle c p r1
  end.

(** * SfuSignalHandler *)

(** [_dispatch]. *)
Definition _dispatch (peerId : jsstr) (msg : SfuRequest) : operation :=
  match msg with
  | GetCapabilities => λ r, (r, Return Capabilities)
  | CreateTransport direction => createWebRtcTransport peerId (Some direction)
  | ConnectTransport transportId _ => connectTransport peerId transportId
  | Produce transportId kind _ => produce peerId transportId kind
  | Consume transportId producerId rtpCapabilities => consume peerId transportId producerId rtpCapabilities
  | ResumeConsumer consumerId => resumeConsumer peerId consumerId
  end.
(** [handle]: what throws is answered with an error, like what the schema refuses. *)
Definition handle (peerId : jsstr) (raw : payload) : operation :=
  match parseSfuRequest raw with
  | None => λ r, (r, Return SfuError)
  | Some msg => _dispatch peerId msg
  end.

(** * Closing *)

(** [_emitClosed], with the router's listener. *)
Definition _emitClosed (e : nat) r : MediaRouter :=
  match mr_entities r !! e with
  | None => r
  | Some en =>
      if en_closeEmitted en then r
      else
        let r1 := set_entities (mr_producers r) (mr_consumers r) (alter set_emitted e (mr_entities r)) r in
        let r2 := if en_registered en then
                    match en_role en with
                    | RProducer => out (ProducerClosed e) (set_entities (mdel (en_id en) (mr_producers r1)) (mr_consumers r1) (mr_entities r1) r1)
                    | RConsumer _ => set_entities (mr_producers r1) (mdel (en_id en) (mr_consumers r1)) (mr_entities r1) r1
                    end
                  else r1 in
        out (EntityClosed e) r2
  end.

(** [MediaEntity.close]; also what a consumer does when its producer closes. *)
Definition close_entity (e : nat) r : MediaRouter :=
  match mr_entities r !! e with
  | None => r
  | Some en =>
      if en_closed en then _emitClosed e r
      else _emitClosed e (out (NCloseEntity e)
             (set_entities (mr_producers r) (mr_consumers r) (alter set_native_closed e (mr_entities r)) r))
  end.
(** The transport of an entity closed, and the entity with it. *)
Definition transportclose (e : nat) r : MediaRouter :=
  _emitClosed e (set_entities (mr_producers r) (mr_consumers r) (alter set_native_closed e (mr_entities r)) r).

(** [pause] and [resume], whose promises [entity_settled] settles. *)
Definition pause_entity (e : nat) r : MediaRouter :=
  match mr_entities r !! e with
  | Some en => if en_closed en || en_paused en then r else out (NPause e) r
  | None => r
  end.
Definition resume_entity (e : nat) r : MediaRouter :=
  match mr_entities r !! e with
  | Some en => if en_closed en || negb (en_paused en) then r else out (NResumeEntity e) r
  | None => r
  end.
Definition entity_settled (e : nat) (paused : bool) r : MediaRouter :=
  out (if paused then EntityPaused e else EntityResumed e)
    (set_entities (mr_producers r) (mr_consumers r) (alter (set_paused paused) e (mr_entities r)) r).

(** A transport closes: its observer forgets it. *)
Definition transport_gone (id : jsstr) r : MediaRouter := set_transports (mdel id (mr_transports r)) (mr_pipeTransports r) r.
Definition pipe_gone (id : jsstr) r : MediaRouter := set_transports (mr_transports r) (sdel id (mr_pipeTransports r)) r.
Definition close_transport (id : jsstr) r : MediaRouter := transport_gone id (out (NCloseTransport id) r).

Definition closeTransportsForPeer (peerId : jsstr) r : MediaRouter :=
  fold_left (λ r x, if decide (tp_peerId x.2 = peerId) then close_transport x.1 r else r) (mr_transports r) r.

Definition close_router r : MediaRouter :=
  if mr_closed r then r
  else
    let r1 := fold_left (λ r id, close_transport id r) (mkeys (mr_transports r)) (set_closed r) in
    out RouterClosed (out NCloseRouter (set_transports [] [] r1)).
(** The mediasoup router closed: its worker died. *)
Definition router_gone r : MediaRouter :=
  if mr_closed r then r else out RouterClosed (set_transports [] [] (set_closed r)).

(** [_acceptPipedProducer], as a call of the router it is piped to. *)
Definition acceptPipedProducer (peerId producerId : jsstr) : operation :=
  if_open (λ r, (_registerProducer peerId producerId r, Return (Produced producerId))).

(** * What happens *)

Inductive action :=
| Request (peerId : jsstr) (raw : payload)
| CreatePipe
| ConnectPipe (pipe : jsstr)
| PipeConsume (pipe producerId : jsstr)
| PipeProduce (pipe producerId : jsstr)
| PipedIn (peerId producerId : jsstr)
| Resolved (i : nat) (outcome : option jsstr)
| Pause (entity : nat)
| Resume (entity : nat)
| CloseEntity (entity : nat)
| Settled (entity : nat) (paused : bool)
| TransportClosed (id : jsstr)
| PipeClosed (id : jsstr)
| TransportCloseOf (entity : nat)
| PeerLeft (peerId : jsstr)
| CloseRouter
| RouterDied.

Definition act (a : action) r : MediaRouter :=
  match a with
  | Request peerId raw => api (handle peerId raw) r
  | CreatePipe => api createPipeTransport r
  | ConnectPipe pipe => api (connectPipeTransport pipe) r
  | PipeConsume pipe producerId => api (pipeConsume pipe producerId) r
  | PipeProduce pipe producerId => api (pipeProduce pipe producerId) r
  | PipedIn peerId producerId => api (acceptPipedProducer peerId producerId) r
  | Resolved i outcome => resolved i outcome r
  | Pause e => pause_entity e r
  | Resume e => resume_entity e r
  | CloseEntity e => close_entity e r
  | Settled e paused => entity_settled e paused r
  | TransportClosed id => transport_gone id r
  | PipeClosed id => pipe_gone id r
  | TransportCloseOf e => transportclose e r
  | PeerLeft peerId => closeTransportsForPeer peerId r
  | CloseRouter => close_router r
  | RouterDied => router_gone r
  end.
Definition run (l : list action) r : MediaRouter := fold_left (λ r a, act a r) l r.
End operations.
