(* ===== verification/MediaRouterTheorems.v ===== *)
(** The media router: a peer only touches what is its own, every call is answered once,
    and what is registered is alive. *)

From S2P Require Import Prelude JsMap JsNumber Json MediaProtocol MediaRouter.

Implicit Types (r : MediaRouter).

(** * What later states keep *)

Definition identity (e : MediaEntity) : jsstr * MediaEntityRole * jsstr := (en_id e, en_role e, en_peerId e).

(** The log grows, and entities keep their identity. *)
Record later r r' : Prop := {
  la_out : ∃ l, mr_out r' = mr_out r ++ l;
  la_entities e en : mr_entities r !! e = Some en → ∃ en', mr_entities r' !! e = Some en' ∧ identity en' = identity en;
}.
#[local] Instance later_refl : Reflexive later.
Proof. intros r. split; [exists []; by rewrite app_nil_r|eauto]. Qed.
#[local] Instance later_trans : Transitive later.
Proof.
  intros x y z [[l1 O1] E1] [[l2 O2] E2]. split; [exists (l1 ++ l2); by rewrite O2, O1, app_assoc|].
  intros e en He. destruct (E1 _ _ He) as (en1 & H1 & I1). destruct (E2 _ _ H1) as (en2 & H2 & I2). exists en2. split; [done|congruence].
Qed.
Lemma later_elem r r' o : later r r' → o ∈ mr_out r → o ∈ mr_out r'.
Proof. intros [[l ->] _]. set_solver. Qed.

(** * Ownership *)

(** Why an entry of the log is allowed. *)
Definition justified r (o : router_out) : Prop :=
  match o with
  | NConnect peer t => ∃ d, Registered t peer d ∈ mr_out r
  | NProduce peer t _ => ∃ d, Registered t peer d ∈ mr_out r ∧ d ≠ Some Recv
  | NConsume peer t _ => ∃ d, Registered t peer d ∈ mr_out r ∧ d ≠ Some Send
  | NResume peer c => ∃ e en p, mr_entities r !! e = Some en ∧ identity en = (c, RConsumer p, peer)
  | Registered _ peer d => NCreateTransport peer d ∈ mr_out r
  | _ => True
  end.
Definition wait_justified r (w : waiting) : Prop :=
  match w with WCreate peer d | WLimit _ peer d => NCreateTransport peer d ∈ mr_out r | _ => True end.

Record own_inv r : Prop := {
  ow_transports t x : mget t (mr_transports r) = Some x → Registered t (tp_peerId x) (tp_direction x) ∈ mr_out r;
  ow_consumers c e : mget c (mr_consumers r) = Some e → ∃ en p, mr_entities r !! e = Some en ∧ en_id en = c ∧ en_role en = RConsumer p;
  ow_log o : o ∈ mr_out r → justified r o;
  ow_waiting c w : (c, w) ∈ mr_waiting r → wait_justified r w;
}.

Lemma justified_later r r' o : later r r' → justified r o → justified r' o.
Proof.
  intros Hl. pose proof (later_elem r r') as He. destruct o; cbn; try done; try (by apply He).
  - intros [d Hd]. exists d. by apply He.
  - intros (d & Hd & ?). exists d. split; [by apply He|done].
  - intros (d & Hd & ?). exists d. split; [by apply He|done].
  - intros (e & en & p & Hen & Hid). destruct (la_entities _ _ Hl _ _ Hen) as (en' & Hen' & Hid'). exists e, en', p. split; [done|congruence].
Qed.
Lemma wait_justified_later r r' w : later r r' → wait_justified r w → wait_justified r' w.
Proof. intros Hl. destruct w; cbn; try done; by apply later_elem. Qed.

(** The ways a state moves on. *)
Lemma later_out o r : later r (out o r).
Proof. split; [by eexists|eauto]. Qed.
Lemma later_transports m p r : later r (set_transports m p r).
Proof. split; [exists []; by rewrite app_nil_r|eauto]. Qed.
Lemma later_waiting n ws r : later r (set_waiting n ws r).
Proof. split; [exists []; by rewrite app_nil_r|eauto]. Qed.
Lemma later_alter ps cs f e r : (∀ en, identity (f en) = identity en) → later r (set_entities ps cs (alter f e (mr_entities r)) r).
Proof.
  intros Hf. split; [exists []; by rewrite app_nil_r|]. intros e' en Hen. cbn. destruct (decide (e = e')) as [<-|Hne].
  - rewrite list_lookup_alter_eq, Hen. by eexists.
  - rewrite list_lookup_alter_ne by done. eauto.
Qed.
Lemma later_new ps cs en r : later r (set_entities ps cs (mr_entities r ++ [en]) r).
Proof. split; [exists []; by rewrite app_nil_r|]. intros e en' Hen. cbn. exists en'. split; [by apply lookup_app_l_Some|done]. Qed.

(** A step that keeps the invariant, and moves on. *)
Definition keeps r r' : Prop := own_inv r → own_inv r' ∧ later r r'.
#[local] Instance keeps_refl : Reflexive keeps. Proof. intros r. by split. Qed.
#[local] Instance keeps_trans : Transitive keeps.
Proof. intros x y z H1 H2 Hx. destruct (H1 Hx) as [Hy L1]. destruct (H2 Hy) as [Hz L2]. split; [done|by etrans]. Qed.

(** What a step may change: it adds a justified entry, drops transports, consumers and
    waiting operations, and adds justified ones. *)
Lemma keeps_out o r : justified (out o r) o → keeps r (out o r).
Proof.
  intros Ho [H1 H2 H3 H4]. pose proof (later_out o r) as Hl. split; [|done]. split.
  - intros t x Ht. by apply (later_elem r), H1.
  - done.
  - intros o' [Hin| ->%list_elem_of_singleton]%elem_of_app; [by eapply justified_later, H3|done].
  - intros c w Hw. eapply wait_justified_later; [done|by eapply H4].
Qed.
Lemma keeps_transports m p r :
  (own_inv r → ∀ t x, mget t m = Some x → Registered t (tp_peerId x) (tp_direction x) ∈ mr_out r) → keeps r (set_transports m p r).
Proof. intros Hm Hr. specialize (Hm Hr). destruct Hr. split; [|apply later_transports]. by split. Qed.
Lemma keeps_fewer_transports m p r : (∀ t x, mget t m = Some x → mget t (mr_transports r) = Some x) → keeps r (set_transports m p r).
Proof. intros Hm. apply keeps_transports. intros [H1 _ _ _] t x Ht. by apply H1, Hm. Qed.
Lemma keeps_closed r : keeps r (set_closed r).
Proof. intros []. split; [by split|]. split; [exists []; by rewrite app_nil_r|eauto]. Qed.
Lemma keeps_waiting n ws r : (∀ c w, (c, w) ∈ ws → (c, w) ∈ mr_waiting r ∨ wait_justified r w) → keeps r (set_waiting n ws r).
Proof.
  intros Hws [H1 H2 H3 H4]. split; [|apply later_waiting]. split; [done..|]. intros c w [Hw|Hw]%Hws; [by eapply H4|done].
Qed.
Lemma keeps_alter ps cs f e r :
  (∀ en, identity (f en) = identity en) → (∀ c x, mget c cs = Some x → mget c (mr_consumers r) = Some x) →
  keeps r (set_entities ps cs (alter f e (mr_entities r)) r).
Proof.
  intros Hf Hcs [H1 H2 H3 H4]. pose proof (later_alter ps cs f e r Hf) as Hl. split; [|done]. split.
  - done.
  - intros c x Hx%Hcs. destruct (H2 _ _ Hx) as (en & p & Hen & Hi & Hr). destruct (la_entities _ _ Hl _ _ Hen) as (en' & Hen' & [= I1 I2 I3]).
    exists en', p. split_and!; [done|congruence..].
  - intros o Ho. by eapply justified_later, H3.
  - intros c w Hw. by eapply wait_justified_later, H4.
Qed.
Lemma keeps_entities ps cs r : (∀ c x, mget c cs = Some x → mget c (mr_consumers r) = Some x) → keeps r (set_entities ps cs (mr_entities r) r).
Proof.
  intros Hcs. intros [H1 H2 H3 H4]. split; [|split; [exists []; by rewrite app_nil_r|eauto]]. split; try done.
  intros c x Hx%Hcs. by apply H2.
Qed.

Lemma keeps_producer peer id r : keeps r (_registerProducer peer id r).
Proof.
  unfold _registerProducer. cbv zeta. etrans; [|by apply keeps_out]. intros [H1 H2 H3 H4].
  match goal with |- own_inv (set_entities ?ps ?cs (_ ++ [?en]) _) ∧ _ => pose proof (later_new ps cs en r) as Hl end.
  split; [|done]. split; [done| |intros o Ho; by eapply justified_later, H3|intros c w Hw; by eapply wait_justified_later, H4].
  intros c x Hx. destruct (H2 _ _ Hx) as (en & p & Hen & ?). exists en, p. split; [|done]. cbn. by apply lookup_app_l_Some.
Qed.
Lemma keeps_consumer peer pid id r : keeps r (register_consumer peer pid id r).
Proof.
  unfold register_consumer. cbv zeta. etrans; [|by apply keeps_out]. intros [H1 H2 H3 H4].
  match goal with |- own_inv (set_entities ?ps ?cs (_ ++ [?en]) _) ∧ _ => pose proof (later_new ps cs en r) as Hl end.
  split; [|done]. split; [done| |intros o Ho; by eapply justified_later, H3|intros c w Hw; by eapply wait_justified_later, H4].
  intros c x. cbn. rewrite mget_mset. case_decide as Hc.
  - intros [= <-]. subst. eexists _, pid. split; [rewrite lookup_app_r, Nat.sub_diag by lia; done|done].
  - intros Hx. destruct (H2 _ _ Hx) as (en & p & Hen & ?). exists en, p. split; [|done]. by apply lookup_app_l_Some.
Qed.
Lemma keeps_register t peer d r : NCreateTransport peer d ∈ mr_out r → keeps r (register_transport t peer d r).
Proof.
  intros Hc. unfold register_transport. intros [H1 H2 H3 H4].
  set (r1 := set_transports _ _ r). pose proof (later_transports (mset t (mkTransport peer d) (mr_transports r)) (mr_pipeTransports r) r) as L1. fold r1 in L1.
  pose proof (later_out (Registered t peer d) r1) as L2. assert (later r (out (Registered t peer d) r1)) as Hl by by etrans. split; [|done]. split.
  - intros t' x. cbn. rewrite mget_mset. case_decide; [intros [= <-]; subst; set_solver|]. intros Ht. apply elem_of_app. left. by apply H1.
  - done.
  - intros o [Ho| ->%list_elem_of_singleton]%elem_of_app; [eapply justified_later; [exact Hl|by apply H3]|]. by apply (later_elem r).
  - intros c w Hw. eapply wait_justified_later; [exact Hl|by eapply H4].
Qed.

(** * Operations *)

(** An operation keeps the invariant, and what it leaves suspended is justified. *)
Definition op_keeps (f : MediaRouter → MediaRouter * progress) : Prop := ∀ r,
  own_inv r → own_inv (f r).1 ∧ later r (f r).1 ∧ match (f r).2 with Wait w => wait_justified (f r).1 w | _ => True end.

Lemma op_stays res : res = Throw ∨ (∃ x, res = Return x) → op_keeps (λ r, (r, res)).
Proof. intros Hres r Hr. cbn. split; [done|]. split; [done|]. by destruct Hres as [->|[x ->]]. Qed.
Lemma op_open f : op_keeps f → op_keeps (if_open f).
Proof. intros Hf r Hr. unfold if_open. destruct (mr_closed r); [by apply op_stays; [left|]|by apply Hf]. Qed.
Lemma op_pipe p f : op_keeps f → op_keeps (with_pipe p f).
Proof. intros Hf r Hr. unfold with_pipe. destruct (shas _ _); [by apply Hf|by apply op_stays; [left|]]. Qed.
Lemma op_owned peer t f :
  (∀ x r, own_inv r → Registered t peer (tp_direction x) ∈ mr_out r →
     own_inv (f x r).1 ∧ later r (f x r).1 ∧ match (f x r).2 with Wait w => wait_justified (f x r).1 w | _ => True end) →
  op_keeps (with_owned peer t f).
Proof.
  intros Hf r Hr. unfold with_owned. destruct (mget t (mr_transports r)) as [x|] eqn:Ht; [|by apply op_stays; [left|]].
  case_decide as Hp; [by apply op_stays; [left|]|]. apply Hf; [done|]. rewrite <- Hp. by apply (ow_transports _ Hr).
Qed.
Lemma op_call o w r : own_inv r → justified (out o r) o → wait_justified (out o r) w →
  own_inv (call_native o w r).1 ∧ later r (call_native o w r).1
  ∧ match (call_native o w r).2 with Wait w' => wait_justified (call_native o w r).1 w' | _ => True end.
Proof. intros Hr Ho Hw. cbn. destruct (keeps_out o r Ho Hr) as [H1 H2]. done. Qed.
Lemma op_plain o w : (∀ r, justified r o) → (∀ r, wait_justified r w) → op_keeps (call_native o w).
Proof. intros Ho Hw r Hr. by apply op_call. Qed.

Section router.
Context (canConsume : jsstr → jmap jsstr json → bool) (limited : bool).
Abbreviation act := (act canConsume limited).
Abbreviation run := (run canConsume limited).

Lemma op_handle peer raw : op_keeps (handle canConsume peer raw).
Proof.
  unfold handle. destruct (parseSfuRequest raw) as [msg|]; [|apply op_stays; right; by eexists].
  destruct msg as [|d|t ps|t kind ps|t p caps|c]; cbn [_dispatch].
  - apply op_stays. right. by eexists.
  - apply op_open. intros r Hr. apply op_call; [done|done|]. cbn. set_solver.
  - apply op_owned. intros x r Hr Ht. apply op_call; [done| |done]. exists (tp_direction x). cbn. set_solver.
  - apply op_open, op_owned. intros x r Hr Ht. case_decide as Hd; [by apply op_stays; [left|]|]. apply op_call; [done| |done].
    exists (tp_direction x). split; [cbn; set_solver|done].
  - apply op_open. intros r Hr. case_match; [by apply op_stays; [left|]|]. case_match; [by apply op_stays; [left|]|].
    apply op_owned; [|done]. intros x r' Hr' Ht. case_decide as Hd; [by apply op_stays; [left|]|]. apply op_call; [done| |done].
    exists (tp_direction x). split; [cbn; set_solver|done].
  - intros r Hr. unfold resumeConsumer. destruct (mget c (mr_consumers r)) as [e|] eqn:Hc; [|by apply op_stays; [left|]].
    destruct (mr_entities r !! e) as [en|] eqn:He; [|by apply op_stays; [left|]]. case_decide as Hp; [by apply op_stays; [left|]|].
    case_match; [by apply op_stays; [right; eexists|]|]. cbn. destruct (ow_consumers _ Hr _ _ Hc) as (en' & p & He' & Hid & Hrole).
    rewrite He in He'. injection He' as <-. destruct (keeps_out (NResume peer c) r) as [H1 H2]; [|done|done].
    exists e, en, p. cbn. split; [done|]. unfold identity. congruence.
Qed.

Lemma op_continue w outcome r : own_inv r → wait_justified r w →
  own_inv (continue limited w outcome r).1 ∧ later r (continue limited w outcome r).1
  ∧ match (continue limited w outcome r).2 with Wait w' => wait_justified (continue limited w outcome r).1 w' | _ => True end.
Proof.
  intros Hr Hw.
  assert (∀ r' res, keeps r r' → (∀ w, res ≠ Wait w) → own_inv r' ∧ later r r' ∧ match res with Wait w => wait_justified r' w | _ => True end) as Hk.
  { intros r' res Hkeep Hres. destruct (Hkeep Hr) as [? ?]. split; [done|]. split; [done|]. destruct res; [done..|]. by destruct (Hres w0). }
  destruct w as [peer d|t peer d|t|peer|peer p|c e| | |p|]; destruct outcome as [id|]; cbn [continue fst snd];
    try (apply (Hk r Throw); [reflexivity|done]); try (by apply (Hk _ (Return Capabilities)); [apply keeps_register|]).
  - destruct limited; cbn [fst snd]; [|by apply (Hk _ (Return Capabilities)); [apply keeps_register|]].
    destruct (keeps_out (NLimit id) r I Hr) as [? ?]. split; [done|]. split; [done|]. cbn. cbn in Hw. set_solver.
  - apply (Hk _ (Return Capabilities)); [apply keeps_producer|done].
  - apply (Hk _ (Return Capabilities)); [apply keeps_consumer|done].
  - apply (Hk _ (Return Capabilities)); [|done]. etrans; [|by apply keeps_out]. by apply keeps_alter.
  - apply (Hk _ (Return Capabilities)); [|done]. by apply keeps_fewer_transports.
  - apply (Hk _ (Return Capabilities)); [apply keeps_producer|done].
Qed.

Lemma settle_keeps c p r :
  match p with Wait w => wait_justified r w | _ => True end → keeps r (settle c p r).
Proof.
  intros Hp. destruct p as [|res|w]; cbn [settle]; [by apply keeps_out..|]. apply keeps_waiting.
  intros c' w' [Hin|[= <- <-]%list_elem_of_singleton]%elem_of_app; [by left|by right].
Qed.

Lemma api_keeps f r : op_keeps f → keeps r (api f r).
Proof.
  intros Hf Hr. unfold api. cbv zeta. destruct (keeps_waiting (S (mr_calls r)) (mr_waiting r) r) as [Hr1 L1]; [by left|done|].
  destruct (Hf _ Hr1) as (Hr2 & L2 & Hw). destruct (f _) as [r2 p]. cbn [fst snd] in *.
  destruct (settle_keeps (mr_calls r) p r2 Hw Hr2) as [Hr3 L3]. split; [done|]. etrans; [exact L1|]. by etrans.
Qed.

Lemma resolved_keeps i outcome r : keeps r (resolved limited i outcome r).
Proof.
  intros Hr. unfold resolved. destruct (mr_waiting r !! i) as [[c w]|] eqn:Hi; [|by split].
  destruct (keeps_waiting (mr_calls r) (delete i (mr_waiting r)) r) as [Hr1 L1]; [|done|].
  { intros c' w' Hin. left. eapply elem_of_submseteq; [exact Hin|]. apply sublist_submseteq, sublist_delete. }
  assert (wait_justified (set_waiting (mr_calls r) (delete i (mr_waiting r)) r) w) as Hw.
  { eapply wait_justified_later; [exact L1|]. eapply (ow_waiting _ Hr c). by eapply list_elem_of_lookup_2. }
  destruct (op_continue w outcome _ Hr1 Hw) as (Hr2 & L2 & Hp). destruct (continue limited w outcome _) as [r2 p]. cbn [fst snd] in *.
  destruct (settle_keeps c p r2 Hp Hr2) as [Hr3 L3]. split; [done|]. etrans; [exact L1|]. by etrans.
Qed.

Lemma emit_closed_keeps e r : keeps r (_emitClosed e r).
Proof.
  unfold _emitClosed. destruct (mr_entities r !! e) as [en|]; [|reflexivity]. case_match; [reflexivity|]. cbv zeta.
  etrans; [apply (keeps_alter (mr_producers r) (mr_consumers r) set_emitted e); done|]. etrans; [|by apply keeps_out].
  case_match; [|reflexivity]. destruct (en_role en).
  - etrans; [|by apply keeps_out]. by apply keeps_entities.
  - apply keeps_entities. intros c x. cbn. rewrite mget_mdel. by case_decide.
Qed.

Lemma close_transport_keeps id r : keeps r (close_transport id r).
Proof.
  unfold close_transport, transport_gone. etrans; [by apply (keeps_out (NCloseTransport id))|]. apply keeps_fewer_transports. intros t x.
  rewrite mget_mdel. by case_decide.
Qed.
Lemma keeps_fold {A} (f : MediaRouter → A → MediaRouter) l r : (∀ r a, keeps r (f r a)) → keeps r (fold_left f l r).
Proof. intros Hf. revert r. induction l as [|a l IH]; intros r; [reflexivity|]. cbn. etrans; [apply Hf|apply IH]. Qed.

Lemma router_act_keeps a r : keeps r (act a r).
Proof.
  assert (∀ ps cs f e r, (∀ en, identity (f en) = identity en) → ps = mr_producers r → cs = mr_consumers r →
    keeps r (set_entities ps cs (alter f e (mr_entities r)) r)) as Halter by (intros; subst; by apply keeps_alter).
  destruct a; cbn [MediaRouter.act].
  - apply api_keeps, op_handle.
  - apply api_keeps, op_open. by apply op_plain.
  - apply api_keeps, op_pipe. by apply op_plain.
  - apply api_keeps, op_pipe. by apply op_plain.
  - apply api_keeps, op_open, op_pipe. by apply op_plain.
  - apply api_keeps, op_open. intros r' Hr'. cbn. destruct (keeps_producer peerId producerId r' Hr'). done.
  - apply resolved_keeps.
  - unfold pause_entity. repeat case_match; try reflexivity. by apply keeps_out.
  - unfold resume_entity. repeat case_match; try reflexivity. by apply keeps_out.
  - unfold close_entity. repeat case_match; try reflexivity; [apply emit_closed_keeps|].
    etrans; [|apply emit_closed_keeps]. etrans; [|by apply keeps_out]. by apply Halter.
  - unfold entity_settled. etrans; [|apply keeps_out; by destruct paused]. by apply Halter.
  - apply keeps_fewer_transports. intros t x. rewrite mget_mdel. by case_decide.
  - by apply keeps_fewer_transports.
  - unfold transportclose. etrans; [|apply emit_closed_keeps]. by apply Halter.
  - unfold closeTransportsForPeer. apply keeps_fold. intros r' x. case_decide; [apply close_transport_keeps|reflexivity].
  - unfold close_router. case_match; [reflexivity|]. cbv zeta. etrans; [apply keeps_closed|].
    etrans; [|by apply keeps_out]. etrans; [|by apply keeps_out]. etrans; [|by apply keeps_fewer_transports].
    apply keeps_fold. intros; apply close_transport_keeps.
  - unfold router_gone. case_match; [reflexivity|]. etrans; [apply keeps_closed|]. etrans; [|by apply keeps_out]. by apply keeps_fewer_transports.
Qed.

Lemma own_new : own_inv newRouter.
Proof. split; cbn; try done; [intros o Ho|intros c w Hw]; set_solver. Qed.
Lemma own_run l r : own_inv r → own_inv (run l r).
Proof. revert r. induction l as [|a l IH]; intros r Hr; [done|]. cbn. apply IH. by apply router_act_keeps. Qed.

(** C28: Ownership of what mediasoup is asked to do, over every run and however the requests,
    promises and closings of peers interleave: a transport is connected, produced on or
    consumed on only for the peer it was created for, in the direction it was created
    for, and a consumer resumed only for the peer it belongs to; and a transport is only
    registered for a peer that asked for it. *)
Theorem sfu_ownership l :
  let r := run l newRouter in
  Forall (λ o,
    match o with
    | NConnect peer t => ∃ d, Registered t peer d ∈ mr_out r
    | NProduce peer t _ => ∃ d, Registered t peer d ∈ mr_out r ∧ d ≠ Some Recv
    | NConsume peer t _ => ∃ d, Registered t peer d ∈ mr_out r ∧ d ≠ Some Send
    | NResume peer c => ∃ e en, mr_entities r !! e = Some en ∧ en_id en = c ∧ en_peerId en = peer ∧ ∃ p, en_role en = RConsumer p
    | Registered _ peer d => NCreateTransport peer d ∈ mr_out r
    | _ => True
    end) (mr_out r).
Proof.
  cbv zeta. apply Forall_forall. intros o Ho. pose proof (ow_log _ (own_run l _ own_new) o Ho) as Hj. destruct o; try done.
  destruct Hj as (e & en & p & He & [= H1 H2 H3]). exists e, en. split_and!; [done..|]. by exists p.
Qed.

(** * Answers *)

Definition answered r : list nat := omap (λ o, match o with Answered c _ => Some c | _ => None end) (mr_out r).
Definition tally r : list nat * list nat * nat := (answered r, (mr_waiting r).*1, mr_calls r).

Lemma tally_out o r : match o with Answered _ _ => False | _ => True end → tally (out o r) = tally r.
Proof. intros Ho. unfold tally, answered. cbn. rewrite omap_app. destruct o; try done; cbn; by rewrite app_nil_r. Qed.
Lemma tally_fold {A} (f : MediaRouter → A → MediaRouter) l r : (∀ r a, tally (f r a) = tally r) → tally (fold_left f l r) = tally r.
Proof. intros Hf. revert r. induction l as [|a l IH]; intros r; [done|]. cbn. by rewrite IH. Qed.
Ltac tally := repeat first [ done | case_match | rewrite tally_out by done | progress cbn [fst snd] | progress cbv zeta ].

Lemma tally_handle peer raw r : tally (handle canConsume peer raw r).1 = tally r.
Proof.
  unfold handle. destruct (parseSfuRequest raw) as [msg|]; [|done].
  destruct msg; cbn [_dispatch]; unfold createWebRtcTransport, connectTransport, produce, consume, resumeConsumer, if_open, with_owned, call_native; tally.
Qed.
Lemma tally_continue w outcome r : tally (continue limited w outcome r).1 = tally r.
Proof. destruct w, outcome; cbn [continue]; unfold register_transport, _registerProducer, register_consumer; tally. Qed.

(** Every call is answered once, or waits. *)
Definition accounted r : Prop := answered r ++ (mr_waiting r).*1 ≡ₚ seq 0 (mr_calls r).
Lemma accounted_tally r r' : tally r' = tally r → accounted r → accounted r'.
Proof. intros [= H1 H2 H3]. unfold accounted. by rewrite H1, H2, H3. Qed.
(** Settling the call [c], which is neither answered nor waiting. *)
Lemma accounted_settle c p r : answered r ++ c :: (mr_waiting r).*1 ≡ₚ seq 0 (mr_calls r) → accounted (settle c p r).
Proof.
  intros Hc. unfold accounted, settle, answered in *. destruct p; cbn; rewrite ?omap_app, ?fmap_app; cbn; [by rewrite <- app_assoc..|].
  rewrite <- Hc. by rewrite <- Permutation_cons_append.
Qed.

Lemma accounted_api f r : (∀ r, tally (f r).1 = tally r) → accounted r → accounted (api f r).
Proof.
  intros Hf Hr. unfold api. cbv zeta. specialize (Hf (set_waiting (S (mr_calls r)) (mr_waiting r) r)).
  destruct (f _) as [r1 p]. cbn [fst] in Hf. injection Hf as H1 H2 H3. apply accounted_settle.
  unfold answered in *. rewrite H1, H2, H3. cbn [mr_out set_waiting mr_waiting mr_calls]. rewrite seq_S. cbn.
  unfold accounted, answered in Hr. rewrite <- Hr, <- Permutation_cons_append. symmetry. apply Permutation_middle.
Qed.
Lemma accounted_resolved i outcome r : accounted r → accounted (resolved limited i outcome r).
Proof.
  intros Hr. unfold resolved. destruct (mr_waiting r !! i) as [[c w]|] eqn:Hi; [|done].
  pose proof (tally_continue w outcome (set_waiting (mr_calls r) (delete i (mr_waiting r)) r)) as Ht.
  destruct (continue _ _ _ _) as [r1 p]. cbn [fst] in Ht. injection Ht as H1 H2 H3. apply accounted_settle.
  unfold answered in *. rewrite H1, H2, H3. cbn [mr_out set_waiting mr_waiting mr_calls]. unfold accounted, answered in Hr. rewrite <- Hr. f_equiv.
  rewrite delete_take_drop, fmap_app. rewrite <- (take_drop_middle _ _ _ Hi) at 3. rewrite fmap_app. cbn.
  apply Permutation_middle.
Qed.

Lemma tally_emit e r : tally (_emitClosed e r) = tally r.
Proof. unfold _emitClosed. tally. Qed.
Lemma tally_close_transport id r : tally (close_transport id r) = tally r.
Proof. unfold close_transport, transport_gone. cbn. by rewrite <- (tally_out (NCloseTransport id) r). Qed.

Lemma accounted_act a r : accounted r → accounted (act a r).
Proof.
  intros Hr. destruct a; cbn [MediaRouter.act]; try (by apply accounted_resolved);
    try (apply accounted_api; [intros r'; try apply tally_handle; unfold createPipeTransport, connectPipeTransport, pipeConsume, pipeProduce,
      acceptPipedProducer, if_open, with_pipe, call_native, _registerProducer; tally|done]);
    (eapply accounted_tally; [|exact Hr]).
  - unfold pause_entity. tally.
  - unfold resume_entity. tally.
  - unfold close_entity. repeat case_match; rewrite ?tally_emit, ?tally_out; done.
  - unfold entity_settled. destruct paused; by rewrite tally_out.
  - done.
  - done.
  - unfold transportclose. by rewrite tally_emit.
  - unfold closeTransportsForPeer. apply tally_fold. intros r' x. case_match; [apply tally_close_transport|done].
  - unfold close_router. case_match; [done|]. cbv zeta. rewrite !tally_out by done.
    match goal with |- tally (set_transports _ _ ?x) = _ => change (tally x = tally r) end.
    rewrite tally_fold; [done|]. intros; apply tally_close_transport.
  - unfold router_gone. case_match; [done|]. by rewrite tally_out.
Qed.


End router.

(** * Late promises *)

Definition request_transport : action := Request (js "ann") (Some (JObj [(js "type", JStr (js "sfu-create-transport")); (js "direction", JStr (js "send"))])).

(** A transport that is created after its peer left, or after the router closed, is
    registered and stays. *)
Example transport_of_departed :
  mr_transports (run (λ _ _, true) false [request_transport; PeerLeft (js "ann"); Resolved 0 (Some (js "t"))] newRouter)
  = [(js "t", mkTransport (js "ann") (Some Send))].
Proof. by vm_compute. Qed.
Example transport_after_close :
  let r := run (λ _ _, true) false [request_transport; CloseRouter; Resolved 0 (Some (js "t"))] newRouter in
  mr_closed r = true ∧ mr_transports r = [(js "t", mkTransport (js "ann") (Some Send))].
Proof. by vm_compute. Qed.
