(* ===== verification/WorkerPool.v ===== *)
(** The workers of the media server (packages/media/src/WorkerPool.ts).

    Workers and routers are mediasoup's, numbered as they come; their promises and
    deaths are steps. *)

From S2P Require Import Prelude JsMap.

(** [wp_spawning]: the spawns under way, [Some] of the call of [start] they are of;
    [wp_batch]: the last such call, [wp_left]: how many of its spawns have not succeeded.
    [wp_creating]: the workers that are creating a router; [wp_open]: the routers that
    are open, with their worker. *)
Record WorkerPool := mkPool {
  wp_load : jmap nat Z;
  wp_started : bool;
  wp_starting : bool;
  wp_spawning : list (option nat);
  wp_batch : nat;
  wp_left : nat;
  wp_creating : list nat;
  wp_open : list (nat * nat);
  wp_out : list (nat + unit);    (* [WorkerDied] of a worker, or [Error] *)
}.
Implicit Types (p : WorkerPool).

Definition newPool : WorkerPool := mkPool [] false false [] 0 0 [] [] [].

Definition set_load (m : jmap nat Z) p : WorkerPool :=
  mkPool m (wp_started p) (wp_starting p) (wp_spawning p) (wp_batch p) (wp_left p) (wp_creating p) (wp_open p) (wp_out p).
Definition set_life (started starting : bool) (spawning : list (option nat)) (batch left : nat) p : WorkerPool :=
  mkPool (wp_load p) started starting spawning batch left (wp_creating p) (wp_open p) (wp_out p).
Definition set_routers (creating : list nat) (opened : list (nat * nat)) p : WorkerPool :=
  mkPool (wp_load p) (wp_started p) (wp_starting p) (wp_spawning p) (wp_batch p) (wp_left p) creating opened (wp_out p).
Definition pool_out (o : nat + unit) p : WorkerPool :=
  mkPool (wp_load p) (wp_started p) (wp_starting p) (wp_spawning p) (wp_batch p) (wp_left p) (wp_creating p) (wp_open p) (wp_out p ++ [o]).

(** [start], up to the spawns of [count] workers; none to wait for, and it is done. *)
Definition start (count : nat) p : WorkerPool :=
  if wp_started p || wp_starting p then p
  else set_life (wp_started p || bool_decide (count = 0)%nat) (negb (bool_decide (count = 0)%nat))
         (wp_spawning p ++ replicate count (Some (S (wp_batch p)))) (S (wp_batch p)) count p.

(** The [i]-th spawn succeeds with worker [w]; [start] is done with the last of its own. *)
Definition of_start (own : option nat) p : bool := wp_starting p && bool_decide (own = Some (wp_batch p)).
Definition spawned (i w : nat) p : WorkerPool :=
  match wp_spawning p !! i with
  | None => p
  | Some own =>
      let p1 := set_load (mset w 0 (wp_load p))
                  (set_life (wp_started p) (wp_starting p) (delete i (wp_spawning p)) (wp_batch p) (wp_left p) p) in
      if of_start own p1 then
        if bool_decide (wp_left p1 = 1)%nat then set_life true false (wp_spawning p1) (wp_batch p1) 0 p1
        else set_life (wp_started p1) (wp_starting p1) (wp_spawning p1) (wp_batch p1) (Nat.pred (wp_left p1)) p1
      else p1
  end.
(** It fails: [start] throws, or a respawn is reported. *)
Definition spawn_failed (i : nat) p : WorkerPool :=
  match wp_spawning p !! i with
  | None => p
  | Some own =>
      let p1 := set_life (wp_started p) (if of_start own p then false else wp_starting p) (delete i (wp_spawning p))
                  (wp_batch p) (wp_left p) p in
      match own with Some _ => p1 | None => pool_out (inr tt) p1 end
  end.

(** A worker dies, and is replaced while the pool runs. *)
Definition died (w : nat) p : WorkerPool :=
  let p1 := pool_out (inl w) (set_load (mdel w (wp_load p)) p) in
  if wp_started p1 then set_life (wp_started p1) (wp_starting p1) (wp_spawning p1 ++ [None]) (wp_batch p1) (wp_left p1) p1 else p1.

(** [_leastLoaded]: the first of the least loaded. *)
Definition lighter (best : option (nat * Z)) (x : nat * Z) : option (nat * Z) :=
  match best with Some (_, m) => if decide (x.2 < m) then Some x else best | None => Some x end.
Definition _leastLoaded p : option nat := fst <$> fold_left lighter (wp_load p) None.

(** [createRouter], up to the worker's promise; [None]: it threw. *)
Definition createRouter p : option WorkerPool :=
  if negb (wp_started p) then None
  else w ← _leastLoaded p; Some (set_routers (wp_creating p ++ [w]) (wp_open p) p).
(** The [i]-th creation succeeds with router [r], or fails. *)
Definition router_created (i r : nat) p : WorkerPool :=
  match wp_creating p !! i with
  | None => p
  | Some w => set_load (mset w (default 0 (mget w (wp_load p)) + 1) (wp_load p))
                (set_routers (delete i (wp_creating p)) (wp_open p ++ [(r, w)]) p)
  end.
Definition router_failed (i : nat) p : WorkerPool := set_routers (delete i (wp_creating p)) (wp_open p) p.
(** A router closes. *)
Definition router_closed (r : nat) p : WorkerPool :=
  match list_find (λ x, x.1 = r) (wp_open p) with
  | None => p
  | Some (j, (_, w)) =>
      let p1 := set_routers (wp_creating p) (delete j (wp_open p)) p in
      match mget w (wp_load p1) with
      | Some current => set_load (mset w (Z.max 0 (current - 1)) (wp_load p1)) p1
      | None => p1
      end
  end.

(** [close]. *)
Definition close p : WorkerPool := set_load [] (set_life false (wp_starting p) (wp_spawning p) (wp_batch p) (wp_left p) p).

Inductive pool_action :=
| PStart (count : nat)
| PSpawned (i w : nat)
| PSpawnFailed (i : nat)
| PDied (w : nat)
| PCreate
| PCreated (i r : nat)
| PCreateFailed (i : nat)
| PRouterClosed (r : nat)
| PClose.
Definition pool_act (a : pool_action) p : WorkerPool :=
  match a with
  | PStart n => start n p
  | PSpawned i w => spawned i w p
  | PSpawnFailed i => spawn_failed i p
  | PDied w => died w p
  | PCreate => default p (createRouter p)
  | PCreated i r => router_created i r p
  | PCreateFailed i => router_failed i p
  | PRouterClosed r => router_closed r p
  | PClose => close p
  end.
Definition pool_run (l : list pool_action) p : WorkerPool := fold_left (λ p a, pool_act a p) l p.

(** * The least loaded *)

Lemma leastLoaded_spec l b :
  match fold_left lighter l b with
  | Some (w, m) => ((w, m) ∈ l ∨ b = Some (w, m)) ∧ Forall (λ x, m ≤ x.2) l ∧ match b with Some x => m ≤ x.2 | None => True end
  | None => b = None ∧ l = []
  end.
Proof.
  revert b. induction l as [|x l IH]; intros b; cbn [fold_left].
  { destruct b as [[w m]|]; [|done]. split; [by right|]. split; [constructor|]. cbn. lia. }
  specialize (IH (lighter b x)). destruct (fold_left lighter l (lighter b x)) as [[w m]|].
  - destruct IH as (H1 & H2 & H3). unfold lighter in *. destruct b as [[w0 m0]|]; [case_decide as Hlt|]; cbn in *.
    + split; [destruct H1 as [?|[= ->]]; [left; by right|left; by left]|]. split; [by constructor|lia].
    + split; [destruct H1 as [?|?]; [left; by right|by right]|]. split; [constructor; [lia|done]|done].
    + split; [destruct H1 as [?|[= ->]]; [left; by right|left; by left]|]. split; [by constructor|done].
  - destruct IH as [Hn _]. unfold lighter in Hn. destruct b as [[w0 m0]|]; [by case_decide|done].
Qed.

(** * Loads are numbers of open routers *)

Definition open_on (w : nat) p : nat := length (filter (λ x, x.2 = w) (wp_open p)).

(** What mediasoup keeps: workers and routers are new ones, and a router is created on
    a worker that is still in the pool. *)
Definition mediasoup_ok (a : pool_action) p : Prop :=
  match a with
  | PSpawned _ w => mget w (wp_load p) = None ∧ open_on w p = 0%nat
  | PCreated i r => (r ∉ (wp_open p).*1) ∧ match wp_creating p !! i with Some w => is_Some (mget w (wp_load p)) | None => True end
  | _ => True
  end.
Fixpoint mediasoup_run (l : list pool_action) p : Prop :=
  match l with [] => True | a :: l' => mediasoup_ok a p ∧ mediasoup_run l' (pool_act a p) end.

Definition counted p : Prop := mwf (wp_load p) ∧ ∀ w n, mget w (wp_load p) = Some n → n = Z.of_nat (open_on w p).

Lemma open_on_app w x l : length (filter (λ y : nat * nat, y.2 = w) (l ++ [x])) =
  (length (filter (λ y : nat * nat, y.2 = w) l) + if decide (x.2 = w) then 1 else 0)%nat.
Proof. rewrite filter_app, length_app, filter_cons. f_equal. by case_decide. Qed.
Lemma open_on_delete w j x (l : list (nat * nat)) : l !! j = Some x →
  length (filter (λ y, y.2 = w) l) = (length (filter (λ y, y.2 = w) (delete j l)) + if decide (x.2 = w) then 1 else 0)%nat.
Proof.
  intros Hj. rewrite <- (take_drop_middle l j x Hj) at 1. rewrite delete_take_drop, !filter_app, !length_app, filter_cons.
  case_decide; cbn; lia.
Qed.

Lemma counted_act a p : mediasoup_ok a p → counted p → counted (pool_act a p).
Proof.
  intros Ha [Hw Hc]. destruct a as [n|i w|i|w| |i r|i|r|]; cbn [pool_act].
  - unfold start. by case_match.
  - unfold spawned. destruct (wp_spawning p !! i) as [own|]; [|done]. destruct Ha as [Hn Ho]. cbv zeta.
    assert (counted (set_load (mset w 0 (wp_load p)) p)) as [H1 H2].
    { split; [by apply mwf_mset|]. intros w' n. cbn. rewrite mget_mset. case_decide; [intros [= <-]; subst; unfold open_on in *; cbn; by rewrite Ho|apply Hc]. }
    repeat case_match; by split.
  - unfold spawn_failed. destruct (wp_spawning p !! i) as [[b|]|]; done.
  - unfold died. cbv zeta. assert (counted (pool_out (inl w) (set_load (mdel w (wp_load p)) p))) as [H1 H2].
    { split; [by apply mwf_mdel|]. intros w' n. cbn. rewrite mget_mdel. case_decide; [done|]. apply Hc. }
    case_match; by split.
  - unfold createRouter. case_match; [done|]. by destruct (_leastLoaded p).
  - cbn in Ha. unfold router_created. destruct (wp_creating p !! i) as [w|]; [|done]. destruct Ha as [Hr [m Hm]]. split; [by apply mwf_mset|].
    intros w' n. cbn. rewrite mget_mset. unfold open_on in *. cbn. rewrite open_on_app. cbn. case_decide as Hww.
    + subst. rewrite decide_True by done. rewrite Hm. intros [= <-]. cbn. rewrite (Hc _ _ Hm). lia.
    + rewrite decide_False by done. intros Hn. rewrite (Hc _ _ Hn). lia.
  - done.
  - unfold router_closed. destruct (list_find _ _) as [[j [r' w]]|] eqn:Hf; [|done]. apply list_find_Some in Hf as (Hj & _ & _).
    cbv zeta. cbn [wp_load set_routers].
    assert (∀ w', open_on w' p = (open_on w' (set_routers (wp_creating p) (delete j (wp_open p)) p) + if decide (w = w') then 1 else 0)%nat) as Ho
      by (intros w'; exact (open_on_delete w' j (r', w) (wp_open p) Hj)).
    destruct (mget w (wp_load p)) as [m|] eqn:Hm; (split; [by try apply mwf_mset|]); intros w' n; cbn [wp_load set_load set_routers].
    + rewrite mget_mset. destruct (decide (w' = w)) as [->|Hne].
      * specialize (Ho w). rewrite decide_True in Ho by done. intros [= <-]. rewrite (Hc _ _ Hm). unfold open_on in *. cbn in *. lia.
      * specialize (Ho w'). rewrite decide_False in Ho by congruence. intros Hn. rewrite (Hc _ _ Hn). unfold open_on in *. cbn in *. lia.
    + intros Hn. specialize (Ho w'). rewrite decide_False in Ho by congruence. rewrite (Hc _ _ Hn). unfold open_on in *. cbn in *. lia.
  - split; [constructor|done].
Qed.

Lemma counted_run l p : mediasoup_run l p → counted p → counted (pool_run l p).
Proof. revert p. induction l as [|a l IH]; intros p Hl Hp; [done|]. destruct Hl as [Ha Hl]. cbn. apply IH; [done|]. by apply counted_act. Qed.

(** Routers are spread over the workers: after every run of the pool, the load of a
    worker is the number of its open routers, and a new router is created on a worker of
    the pool that has the least. *)
Theorem pool_balances l :
  mediasoup_run l newPool →
  let p := pool_run l newPool in
  (∀ w n, mget w (wp_load p) = Some n → n = Z.of_nat (open_on w p))
  ∧ ∀ w, _leastLoaded p = Some w →
      is_Some (mget w (wp_load p)) ∧ ∀ w', is_Some (mget w' (wp_load p)) → (open_on w p ≤ open_on w' p)%nat.
Proof.
  intros Hl p. destruct (counted_run l newPool Hl) as [Hw Hc]; [by split; [constructor|]|]. fold p in Hw, Hc. split; [done|].
  intros w. unfold _leastLoaded. pose proof (leastLoaded_spec (wp_load p) None) as Hs.
  destruct (fold_left lighter (wp_load p) None) as [[w0 m]|]; [|done]. intros [= ->]. destruct Hs as ([Hin|] & Hmin & _); [|done].
  apply elem_mget in Hin; [|done]. split; [by eexists|]. intros w' [n Hn]. rewrite Forall_forall in Hmin.
  specialize (Hmin _ (mget_elem _ _ _ Hn)). cbn in Hmin. rewrite (Hc _ _ Hin), (Hc _ _ Hn) in Hmin. lia.
Qed.

(** Three workers come and take a router each, one of them ends. *)
Definition busy_day : list pool_action :=
  [PStart 3; PSpawned 0 10; PSpawned 0 11; PSpawned 0 12; PCreate; PCreated 0 100; PCreate; PCreated 0 101;
   PDied 12; PSpawned 0 13; PRouterClosed 100].
Lemma pool_balances_witness :
  mediasoup_run busy_day newPool ∧ _leastLoaded (pool_run busy_day newPool) = Some 10%nat
  ∧ (open_on 10 (pool_run busy_day newPool) ≤ open_on 11 (pool_run busy_day newPool))%nat.
Proof.
  assert (mediasoup_run busy_day newPool) as Hl.
  { vm_compute. repeat split; try eauto; intros H; repeat (apply elem_of_cons in H as [H|H]; [discriminate H|]); by apply elem_of_nil in H. }
  assert (_leastLoaded (pool_run busy_day newPool) = Some 10%nat) as Hw by (vm_compute; reflexivity).
  split; [exact Hl|]. split; [exact Hw|]. apply (proj2 (pool_balances busy_day Hl) 10%nat Hw). vm_compute. eauto.
Defined.

(** Routers asked for at once go to the same worker. *)
Example asked_at_once :
  wp_creating (pool_run [PStart 2; PSpawned 0 10; PSpawned 0 11; PCreate; PCreate; PCreate] newPool) = [10; 10; 10]%nat.
Proof. by vm_compute. Qed.

(** A worker that is being replaced when the pool closes joins the closed pool. *)
Example respawned_after_close :
  wp_load (pool_run [PStart 1; PSpawned 0 10; PDied 10; PClose; PSpawned 0 11] newPool) = [(11%nat, 0)].
Proof. by vm_compute. Qed.
