(* ===== verification/MediaService.v ===== *)
(** The media routers of the rooms of a server (packages/media/src/MediaService.ts), over
    the media router (MediaRouter.v).

    Rooms are objects of the application, numbered; several may have the same id one
    after the other.  What the service awaits of its worker pool settles in later
    steps.  The service forgets that a creation is pending in the step that settles it. *)

From S2P Require Import Prelude JsMap JsNumber Json MediaProtocol MediaRouter.

(** A creation under way, and whether its room closed meanwhile. *)
Record Creation := mkCreation { cr_room : nat; cr_closedDuringInit : bool }.

Inductive service_out :=
| RouterCreated (router : nat)
| AttachReturned (room router : nat)
| AttachThrew (room : nat)
| PipeThrew.

(** [ms_heap]: every router, with the id of its room.  [ms_listening]: the rooms that
    the service listens to, with the router it does so for.  [ms_pipes]: the producers
    that are being piped, from a router to another. *)
Record MediaService := mkService {
  ms_started : bool;
  ms_routers : jmap jsstr nat;
  ms_pending : jmap jsstr nat;
  ms_detachers : jmap jsstr nat;
  ms_creations : list (option Creation);
  ms_heap : list (jsstr * MediaRouter);
  ms_listening : list (nat * nat);
  ms_pipes : list (jsstr * nat * nat);
  ms_out : list service_out;
}.
Implicit Types (s : MediaService).

Definition newService : MediaService := mkService false [] [] [] [] [] [] [] [].

Definition set_started (b : bool) s : MediaService :=
  mkService b (ms_routers s) (ms_pending s) (ms_detachers s) (ms_creations s) (ms_heap s) (ms_listening s) (ms_pipes s) (ms_out s).
Definition set_registry (routers pending : jmap jsstr nat) (cs : list (option Creation)) s : MediaService :=
  mkService (ms_started s) routers pending (ms_detachers s) cs (ms_heap s) (ms_listening s) (ms_pipes s) (ms_out s).
Definition set_listening (detachers : jmap jsstr nat) (l : list (nat * nat)) s : MediaService :=
  mkService (ms_started s) (ms_routers s) (ms_pending s) detachers (ms_creations s) (ms_heap s) l (ms_pipes s) (ms_out s).
Definition set_heap (h : list (jsstr * MediaRouter)) (pipes : list (jsstr * nat * nat)) s : MediaService :=
  mkService (ms_started s) (ms_routers s) (ms_pending s) (ms_detachers s) (ms_creations s) h (ms_listening s) pipes (ms_out s).
Definition put (o : service_out) s : MediaService :=
  mkService (ms_started s) (ms_routers s) (ms_pending s) (ms_detachers s) (ms_creations s) (ms_heap s) (ms_listening s)
    (ms_pipes s) (ms_out s ++ [o]).

Section service.
Context (canConsume : jsstr → jmap jsstr json → bool) (limited : bool).
(** The ids of the rooms. *)
Context (room_id : nat → jsstr).

Definition router_is (i : nat) (p : MediaRouter → bool) s : bool :=
  match ms_heap s !! i with Some (_, r) => p r | None => false end.

(** [_detach]: the listeners of the room that was attached under the id. *)
Definition _detach (id : jsstr) s : MediaService :=
  match mget id (ms_detachers s) with
  | Some i => set_listening (mdel id (ms_detachers s)) (filter (λ x, x.2 ≠ i) (ms_listening s)) s
  | None => s
  end.

(** The listener of a router's [closed] event. *)
Definition on_router_closed (i : nat) s : MediaService :=
  match ms_heap s !! i with
  | Some (id, _) =>
      if decide (mget id (ms_routers s) = Some i)
      then let s1 := _detach id s in set_registry (mdel id (ms_routers s1)) (ms_pending s1) (ms_creations s1) s1
      else s
  | None => s
  end.
(** What a router does, and the event if it closed. *)
Definition on_router (i : nat) (f : MediaRouter → MediaRouter) s : MediaService :=
  let was := router_is i mr_closed s in
  let s1 := set_heap (alter (λ x, (x.1, f x.2)) i (ms_heap s)) (ms_pipes s) s in
  if negb was && router_is i mr_closed s1 then on_router_closed i s1 else s1.

Definition attachRoom (room : nat) s : MediaService :=
  if negb (ms_started s) then put (AttachThrew room) s
  else
    match mget (room_id room) (ms_routers s) with
    | Some i => put (AttachReturned room i) s
    | None =>
        match mget (room_id room) (ms_pending s) with
        | Some _ => s
        | None =>
            set_registry (ms_routers s) (mset (room_id room) (length (ms_creations s)) (ms_pending s))
              (ms_creations s ++ [Some (mkCreation room false)]) s
        end
    end.

(** The pool's promise of the creation [c]: [_createRouter] after its [await]. *)
Definition created (c : nat) (ok : bool) s : MediaService :=
  match ms_creations s !! c with
  | Some (Some cr) =>
      let room := cr_room cr in
      let id := room_id room in
      let s1 := set_registry (ms_routers s) (mdel id (ms_pending s)) (<[c := None]> (ms_creations s)) s in
      if negb ok then put (AttachThrew room) s1
      else
        let i := length (ms_heap s1) in
        if cr_closedDuringInit cr then
          put (AttachThrew room) (set_heap (ms_heap s1 ++ [(id, close_router newRouter)]) (ms_pipes s1) s1)
        else
          let s2 := set_heap (ms_heap s1 ++ [(id, newRouter)]) (ms_pipes s1) s1 in
          let s3 := set_registry (mset id i (ms_routers s2)) (ms_pending s2) (ms_creations s2) s2 in
          let s4 := set_listening (mset id i (ms_detachers s3)) (ms_listening s3 ++ [(room, i)]) s3 in
          put (AttachReturned room i) (put (RouterCreated i) s4)
  | _ => s
  end.

(** A room closes: it was attached, or its router is being created. *)
Definition room_closed_router (s : MediaService) (i : nat) : MediaService :=
  match ms_heap s !! i with
  | Some (id, _) =>
      let s1 := on_router i close_router (_detach id s) in
      set_registry (mdel id (ms_routers s1)) (ms_pending s1) (ms_creations s1) s1
  | None => s
  end.
Definition room_closed (room : nat) s : MediaService :=
  let early := (λ x, match x with
                     | Some cr => Some (if decide (cr_room cr = room) then mkCreation room true else cr)
                     | None => None
                     end) <$> ms_creations s in
  fold_left room_closed_router ((filter (λ x, x.1 = room) (ms_listening s)).*2)
    (set_registry (ms_routers s) (ms_pending s) early s).

(** A member leaves a room: its transports go. *)
Definition peer_left (room : nat) (peerId : jsstr) s : MediaService :=
  fold_left (λ s i, on_router i (closeTransportsForPeer peerId) s) ((filter (λ x, x.1 = room) (ms_listening s)).*2) s.

(** [closeAll], up to the closing of the pool, and the last assignment. *)
Definition closeAll s : MediaService :=
  let s1 := fold_left (λ s id, _detach id s) (mkeys (ms_detachers s)) s in
  let s2 := fold_left (λ s i, on_router i close_router s) (mvals (ms_routers s1)) s1 in
  set_started false (set_registry [] (ms_pending s2) (ms_creations s2) s2).

(** [pipeProducerToRoom], up to the [await] of mediasoup, and after it. *)
Definition pipeProducerToRoom (producerId fromRoomId toRoomId : jsstr) s : MediaService :=
  match mget fromRoomId (ms_routers s), mget toRoomId (ms_routers s) with
  | Some i, Some j =>
      if router_is i mr_closed s then put PipeThrew s
      else if router_is j (λ r, mhas producerId (mr_producers r)) s then s
      else if router_is j mr_closed s then put PipeThrew s
      else set_heap (ms_heap s) (ms_pipes s ++ [(producerId, i, j)]) s
  | _, _ => put PipeThrew s
  end.
Definition piped_peer (producerId : jsstr) (r : MediaRouter) : jsstr :=
  match mget producerId (mr_producers r) ≫= λ e, mr_entities r !! e with Some en => en_peerId en | None => PIPE_PEER_ID end.
(** [Some id]: mediasoup's producer on the other router; it may also have made none. *)
Definition piped (n : nat) (outcome : option jsstr) s : MediaService :=
  match ms_pipes s !! n with
  | None => s
  | Some (producerId, i, j) =>
      let s1 := set_heap (ms_heap s) (delete n (ms_pipes s)) s in
      match outcome, ms_heap s1 !! i with
      | Some id, Some (_, from) => on_router j (api (acceptPipedProducer (piped_peer producerId from) id)) s1
      | _, _ => s1
      end
  end.

Inductive service_action :=
| SInit
| SAttach (room : nat)
| SCreated (c : nat) (ok : bool)
| SRoomClosed (room : nat)
| SPeerLeft (room : nat) (peerId : jsstr)
| SRouter (i : nat) (a : action)
| SPipe (producerId fromRoomId toRoomId : jsstr)
| SPiped (n : nat) (outcome : option jsstr)
| SCloseAll.
Definition service_act (a : service_action) s : MediaService :=
  match a with
  | SInit => set_started true s
  | SAttach room => attachRoom room s
  | SCreated c ok => created c ok s
  | SRoomClosed room => room_closed room s
  | SPeerLeft room peerId => peer_left room peerId s
  | SRouter i a => on_router i (act canConsume limited a) s
  | SPipe p from to => pipeProducerToRoom p from to s
  | SPiped n outcome => piped n outcome s
  | SCloseAll => closeAll s
  end.
Definition service_run (l : list service_action) s : MediaService := fold_left (λ s a, service_act a s) l s.
End service.
