(* ===== verification/MediaServiceTheorems.v ===== *)
(** The media service: one open router for a room, listened to as long as it is open. *)

From S2P Require Import Prelude JsMap JsNumber Json MediaProtocol MediaRouter MediaService.

Implicit Types (s : MediaService) (r : MediaRouter).

(** * A closed router stays closed *)

Definition shuts (f : MediaRouter → MediaRouter) : Prop := ∀ r, mr_closed r = true → mr_closed (f r) = true.

Lemma closed_fold {A} (f : MediaRouter → A → MediaRouter) l r : (∀ r a, mr_closed (f r a) = mr_closed r) → mr_closed (fold_left f l r) = mr_closed r.
Proof. intros Hf. revert r. induction l as [|a l IH]; intros r; [done|]. cbn. by rewrite IH. Qed.
Ltac same_closed := repeat first [ done | case_match | progress cbn ].

Section router.
Context (canConsume : jsstr → jmap jsstr json → bool) (limited : bool).

Lemma closed_settle c p r : mr_closed (settle c p r) = mr_closed r.
Proof. by destruct p. Qed.
Lemma closed_api f r : (∀ r, mr_closed (f r).1 = mr_closed r) → mr_closed (api f r) = mr_closed r.
Proof.
  intros Hf. unfold api. cbv zeta. specialize (Hf (set_waiting (S (mr_calls r)) (mr_waiting r) r)). destruct (f _) as [r1 p].
  by rewrite closed_settle.
Qed.
Lemma closed_handle peer raw r : mr_closed (handle canConsume peer raw r).1 = mr_closed r.
Proof.
  unfold handle. destruct (parseSfuRequest raw) as [msg|]; [|done].
  destruct msg; cbn [_dispatch]; unfold createWebRtcTransport, connectTransport, produce, consume, resumeConsumer, if_open, with_owned, call_native; same_closed.
Qed.
Lemma closed_resolved i outcome r : mr_closed (resolved limited i outcome r) = mr_closed r.
Proof.
  unfold resolved. destruct (mr_waiting r !! i) as [[c w]|]; [|done]. set (r0 := set_waiting _ _ r).
  assert (mr_closed (continue limited w outcome r0).1 = mr_closed r0) as Hc by (destruct w, outcome; cbn [continue]; same_closed).
  destruct (continue limited w outcome r0) as [r1 p]. by rewrite closed_settle.
Qed.
Lemma closed_emit e r : mr_closed (_emitClosed e r) = mr_closed r.
Proof. unfold _emitClosed. cbv zeta. same_closed. Qed.
Lemma closed_leave peer r : mr_closed (closeTransportsForPeer peer r) = mr_closed r.
Proof. apply closed_fold. intros. by case_match. Qed.
Lemma closed_close r : mr_closed (close_router r) = true.
Proof. unfold close_router. destruct (mr_closed r) eqn:E; [done|]. cbn. by rewrite closed_fold. Qed.

Lemma shuts_act a : shuts (act canConsume limited a).
Proof.
  intros r Hr. destruct a; cbn [act]; try (by rewrite closed_resolved); try (by apply closed_close);
    try (rewrite closed_api; [done|intros r'; try apply closed_handle; unfold createPipeTransport, connectPipeTransport, pipeConsume, pipeProduce,
      acceptPipedProducer, if_open, with_pipe, call_native, _registerProducer; same_closed]).
  - unfold pause_entity. same_closed.
  - unfold resume_entity. same_closed.
  - unfold close_entity. repeat case_match; rewrite ?closed_emit; done.
  - done.
  - done.
  - done.
  - unfold transportclose. by rewrite closed_emit.
  - by rewrite closed_leave.
  - unfold router_gone. by rewrite Hr.
Qed.
End router.

(** * Routers and rooms *)

Section service.
Context (canConsume : jsstr → jmap jsstr json → bool) (limited : bool) (room_id : nat → jsstr).
Abbreviation service_act := (service_act canConsume limited room_id).
Abbreviation service_run := (service_run canConsume limited room_id).

(** A router is open exactly if it is the registered one of its room; a room has a
    router or one under creation, not both. *)
Record registry_inv s : Prop := {
  rg_open i id r : ms_heap s !! i = Some (id, r) → mr_closed r = false ↔ mget id (ms_routers s) = Some i;
  rg_made id i : mget id (ms_routers s) = Some i → ∃ r, ms_heap s !! i = Some (id, r);
  rg_pending id c : mget id (ms_pending s) = Some c →
    mget id (ms_routers s) = None ∧ ∃ cr, ms_creations s !! c = Some (Some cr) ∧ room_id (cr_room cr) = id;
  rg_creating c cr : ms_creations s !! c = Some (Some cr) → mget (room_id (cr_room cr)) (ms_pending s) = Some c;
}.

(** The service listens to a room exactly for its registered router. *)
Record listen_inv s : Prop := {
  ls_detach id i : mget id (ms_detachers s) = Some i ↔ mget id (ms_routers s) = Some i;
  ls_room room i : (room, i) ∈ ms_listening s → mget (room_id room) (ms_routers s) = Some i;
  ls_heard id i : mget id (ms_routers s) = Some i → ∃ room, (room, i) ∈ ms_listening s;
  ls_once : NoDup (ms_listening s).*2;
}.

(** ** Closing a router *)

Lemma detach_registry id s : registry_inv s → registry_inv (_detach id s).
Proof. intros []. unfold _detach. case_match; by split. Qed.
Lemma detach_same id s : (ms_heap (_detach id s), ms_routers (_detach id s), ms_pending (_detach id s), ms_creations (_detach id s), ms_started (_detach id s)) =
  (ms_heap s, ms_routers s, ms_pending s, ms_creations s, ms_started s).
Proof. unfold _detach. by case_match. Qed.

(** What [on_router] does: the router moves on and, if it closed, its room forgets it. *)
Definition moved (i : nat) (f : MediaRouter → MediaRouter) s : MediaService := set_heap (alter (λ x, (x.1, f x.2)) i (ms_heap s)) (ms_pipes s) s.
Definition forgot (id : jsstr) s : MediaService := set_registry (mdel id (ms_routers s)) (ms_pending s) (ms_creations s) s.

Lemma moved_lookup i f s j : ms_heap (moved i f s) !! j = if decide (i = j) then (λ x, (x.1, f x.2)) <$> ms_heap s !! j else ms_heap s !! j.
Proof. cbn. case_decide; [subst; by rewrite list_lookup_alter_eq|by rewrite list_lookup_alter_ne]. Qed.

Lemma on_router_cases i f s : shuts f →
  on_router i f s = moved i f s ∧ (∀ id r, ms_heap s !! i = Some (id, r) → mr_closed (f r) = mr_closed r)
  ∨ ∃ id r, ms_heap s !! i = Some (id, r) ∧ mr_closed r = false ∧ mr_closed (f r) = true
            ∧ on_router i f s = on_router_closed i (moved i f s).
Proof.
  intros Hf. unfold on_router. cbv zeta. fold (moved i f s). unfold router_is. rewrite moved_lookup, decide_True by done.
  destruct (ms_heap s !! i) as [[id r]|] eqn:E; cbn [fmap option_fmap option_map fst snd]; [|by left].
  destruct (mr_closed r) eqn:Er; cbn [negb andb].
  - left. split; [done|]. intros id' r' [= <- <-]. rewrite Er. by apply Hf.
  - destruct (mr_closed (f r)) eqn:Ef; [right; by exists id, r|left]. split; [done|]. intros id' r' [= <- <-]. congruence.
Qed.

Lemma moved_registry i f s :
  registry_inv s → (∀ id r, ms_heap s !! i = Some (id, r) → mr_closed (f r) = mr_closed r) → registry_inv (moved i f s).
Proof.
  intros [H1 H2 H3 H4] Hf. split; try done.
  - intros j id r. rewrite moved_lookup. case_decide as Hij; [|apply H1]. subst. destruct (ms_heap s !! j) as [[id' r']|] eqn:E; [|done].
    cbn. intros [= <- <-]. rewrite (Hf _ _ eq_refl). by apply H1.
  - intros id j Hj. destruct (H2 _ _ Hj) as [r Hr]. rewrite moved_lookup, Hr. case_decide; eauto.
Qed.

Lemma shut_registry i f s id r :
  registry_inv s → ms_heap s !! i = Some (id, r) → mr_closed r = false → mr_closed (f r) = true → registry_inv (forgot id (moved i f s)).
Proof.
  intros [H1 H2 H3 H4] Hr Ho Hc. pose proof (proj1 (H1 _ _ _ Hr) Ho) as Hreg. split; cbn [ms_heap ms_routers ms_pending ms_creations forgot set_registry].
  - intros j id' r'. change (ms_heap (forgot id (moved i f s))) with (ms_heap (moved i f s)). rewrite moved_lookup, mget_mdel. case_decide as Hij.
    + subst. rewrite Hr. cbn. intros [= <- <-]. by rewrite Hc, decide_True.
    + intros Hj. rewrite (H1 _ _ _ Hj). case_decide as Hid; [|done]. subst. rewrite Hreg. split; [congruence|done].
  - intros id' j. rewrite mget_mdel. case_decide as Hid; [done|]. intros [r' Hr']%H2. rewrite moved_lookup, Hr'. case_decide; eauto.
  - intros id' c [Hn Hcr]%H3. split; [|done]. rewrite mget_mdel. by case_decide.
  - done.
Qed.

Lemma closed_forgets i s id r : ms_heap s !! i = Some (id, r) → mget id (ms_routers s) = Some i →
  on_router_closed i s = forgot id (_detach id s).
Proof. intros Hr Hreg. unfold on_router_closed. by rewrite Hr, decide_True. Qed.

Lemma forgot_detach_registry id s : registry_inv (forgot id s) → registry_inv (forgot id (_detach id s)).
Proof.
  intros [H1 H2 H3 H4]. pose proof (detach_same id s) as [= E1 E2 E3 E4 E5]. split; cbn [forgot set_registry ms_heap ms_routers ms_pending ms_creations] in *;
    rewrite ?E1, ?E2, ?E3, ?E4; done.
Qed.

Lemma on_router_registry i f s : shuts f → registry_inv s → registry_inv (on_router i f s).
Proof.
  intros Hf Hs. destruct (on_router_cases i f s Hf) as [[-> Hsame]|(id & r & Hr & Ho & Hc & ->)]; [by apply moved_registry|].
  rewrite (closed_forgets i _ id (f r)).
  - apply forgot_detach_registry. by eapply shut_registry.
  - by rewrite moved_lookup, decide_True, Hr.
  - by apply (rg_open _ Hs _ _ _ Hr).
Qed.

(** ** Listening *)

Lemma listen_core s s' : (ms_detachers s', ms_routers s', ms_listening s') = (ms_detachers s, ms_routers s, ms_listening s) → listen_inv s → listen_inv s'.
Proof. intros [= H1 H2 H3] []. by split; rewrite ?H1, ?H2, ?H3. Qed.

Lemma forgot_listen id i s : listen_inv s → mget id (ms_routers s) = Some i → (∀ id', mget id' (ms_routers s) = Some i → id' = id) →
  listen_inv (forgot id (_detach id s)).
Proof.
  intros [L1 L2 L3 L4] Hi Hu. pose proof (proj2 (L1 _ _) Hi) as Hd. unfold _detach. rewrite Hd. split; cbn.
  - intros id' j. rewrite !mget_mdel. case_decide; [done|apply L1].
  - intros room j [Hne Hin]%list_elem_of_filter. cbn in Hne. specialize (L2 _ _ Hin). rewrite mget_mdel. case_decide as Hid; [|done].
    subst. congruence.
  - intros id' j. rewrite mget_mdel. case_decide as Hid; [done|]. intros Hj. destruct (L3 _ _ Hj) as [room Hin]. exists room.
    apply list_elem_of_filter. split; [|done]. cbn. intros ->. by apply Hid, Hu.
  - eapply sublist_NoDup; [exact L4|]. apply fmap_sublist, sublist_filter.
Qed.

Lemma registry_unique s id id' i : registry_inv s → mget id (ms_routers s) = Some i → mget id' (ms_routers s) = Some i → id' = id.
Proof. intros Hs H1 H2. destruct (rg_made _ Hs _ _ H1) as [r Hr], (rg_made _ Hs _ _ H2) as [r' Hr']. congruence. Qed.

Record service_inv s : Prop := { si_registry : registry_inv s; si_listen : listen_inv s }.

Lemma on_router_inv i f s : shuts f → service_inv s → service_inv (on_router i f s).
Proof.
  intros Hf [Hr Hl]. split; [by apply on_router_registry|].
  destruct (on_router_cases i f s Hf) as [[-> Hsame]|(id & r & Hi & Ho & Hc & ->)]; [by apply (listen_core s)|].
  pose proof (proj1 (rg_open _ Hr _ _ _ Hi) Ho) as Hreg.
  rewrite (closed_forgets i _ id (f r)); [|by rewrite moved_lookup, decide_True, Hi|done].
  apply (forgot_listen id i); [by apply (listen_core s)|done|]. intros id' Hid'. by eapply (registry_unique s).
Qed.

(** The room of a registered router closes. *)
Lemma room_closed_one i s id r : service_inv s → ms_heap s !! i = Some (id, r) → mget id (ms_routers s) = Some i →
  service_inv (room_closed_router s i).
Proof.
  intros [Hr Hl] Hi Hreg. unfold room_closed_router. rewrite Hi. pose proof (detach_same id s) as [= E1 E2 E3 E4 E5].
  assert (mr_closed r = false) as Ho by (by apply (rg_open _ Hr _ _ _ Hi)).
  assert (on_router i close_router (_detach id s) = forgot id (_detach id (moved i close_router (_detach id s)))) as ->.
  { destruct (on_router_cases i close_router (_detach id s)) as [[_ Hsame]|(id' & r' & Hi' & _ & _ & ->)]; [intros ??; apply closed_close| |].
    - rewrite E1 in Hsame. specialize (Hsame _ _ Hi). rewrite closed_close, Ho in Hsame. done.
    - rewrite E1, Hi in Hi'. injection Hi' as <- <-. apply (closed_forgets i _ id (close_router r)).
      + by rewrite moved_lookup, decide_True, E1, Hi.
      + cbn. by rewrite E2. }
  assert (mget id (ms_detachers (_detach id s)) = None) as Hd.
  { unfold _detach. destruct (mget id (ms_detachers s)) eqn:E; [|done]. cbn. apply mget_mdel_eq. }
  assert (_detach id (moved i close_router (_detach id s)) = moved i close_router (_detach id s)) as ->
    by (unfold _detach at 1; change (ms_detachers (moved i close_router (_detach id s))) with (ms_detachers (_detach id s)); by rewrite Hd).
  assert (moved i close_router (_detach id s) = _detach id (moved i close_router s)) as -> by (unfold _detach; cbn; by case_match).
  set (sm := moved i close_router s).
  assert (registry_inv (forgot id sm)) as Hreg' by (eapply shut_registry; [done|done|done|apply closed_close]).
  assert (service_inv (forgot id (_detach id sm))) as [Hr2 Hl2].
  { split; [by apply forgot_detach_registry|]. apply (forgot_listen id i); [by apply (listen_core s)|done|].
    intros id' Hid'. by eapply (registry_unique s). }
  match goal with |- service_inv ?x => assert (x = forgot id (forgot id (_detach id sm))) as -> by done end.
  assert (forgot id (forgot id (_detach id sm)) = forgot id (_detach id sm)) as -> by (unfold forgot; cbn; by rewrite mdel_mdel).
  by split.
Qed.

(** ** The other steps *)

Lemma room_closed_inv room s : service_inv s → service_inv (room_closed room s).
Proof.
  intros Hs. unfold room_closed. set (early := _ <$> ms_creations s). set (s0 := set_registry _ _ early s).
  assert (service_inv s0) as Hs0.
  { destruct Hs as [[H1 H2 H3 H4] Hl]. split; [|by apply (listen_core s)]. split; try done.
    - intros id c [Hn (cr & Hcr & Hid)]%H3. split; [done|]. cbn. unfold early. rewrite list_lookup_fmap, Hcr. cbn.
      eexists. split; [done|]. case_decide; [subst; done|done].
    - intros c cr. cbn. unfold early. rewrite list_lookup_fmap. destruct (ms_creations s !! c) as [[cr'|]|] eqn:E; [|done..].
      cbn. intros [= <-]. specialize (H4 _ _ E). case_decide; [by subst|done]. }
  assert (∀ i, i ∈ (filter (λ x, x.1 = room) (ms_listening s)).*2 → mget (room_id room) (ms_routers s0) = Some i) as Hreg.
  { intros i ([room' i'] & -> & [Hr Hin]%list_elem_of_filter)%list_elem_of_fmap. cbn in *. subst. by apply (ls_room _ (si_listen _ Hs)). }
  assert (NoDup (filter (λ x, x.1 = room) (ms_listening s)).*2) as Hnd.
  { eapply sublist_NoDup; [exact (ls_once _ (si_listen _ Hs))|]. apply fmap_sublist, sublist_filter. }
  destruct ((filter (λ x, x.1 = room) (ms_listening s)).*2) as [|i [|j l]]; cbn [fold_left]; [done| |].
  - specialize (Hreg i ltac:(by left)). destruct (rg_made _ (si_registry _ Hs0) _ _ Hreg) as [r Hr]. by eapply room_closed_one.
  - exfalso. assert (i = j) as -> by (pose proof (Hreg i ltac:(by left)); pose proof (Hreg j ltac:(right; by left)); congruence).
    apply NoDup_cons in Hnd as [Hnd _]. apply Hnd. by left.
Qed.

Lemma attach_inv room s : service_inv s → service_inv (attachRoom room_id room s).
Proof.
  intros [[H1 H2 H3 H4] Hl]. unfold attachRoom. case_match; [by split; [split|apply (listen_core s)]|].
  destruct (mget (room_id room) (ms_routers s)) as [i|] eqn:Er; [by split; [split|apply (listen_core s)]|].
  destruct (mget (room_id room) (ms_pending s)) as [c|] eqn:Ep; [by split; [split|]|].
  split; [split|by apply (listen_core s)]; cbn; [done|done| |].
  - intros id c. rewrite mget_mset. case_decide as Hid.
    + intros [= <-]. subst. split; [done|]. eexists. split; [rewrite lookup_app_r, Nat.sub_diag by lia; done|done].
    + intros [Hn (cr & Hcr & Hi)]%H3. split; [done|]. exists cr. split; [by apply lookup_app_l_Some|done].
  - intros c cr [Hc|[Hc Hx]]%lookup_app_Some.
    + specialize (H4 _ _ Hc). rewrite mget_mset_ne; [done|]. intros Hid. rewrite Hid in H4. congruence.
    + apply list_lookup_singleton_Some in Hx as [Hc0 [= <-]]. cbn. rewrite mget_mset_eq. f_equal. lia.
Qed.

Lemma created_registry c cr s :
  registry_inv s → ms_creations s !! c = Some (Some cr) →
  let s1 := set_registry (ms_routers s) (mdel (room_id (cr_room cr)) (ms_pending s)) (<[c := None]> (ms_creations s)) s in
  registry_inv s1 ∧ mget (room_id (cr_room cr)) (ms_routers s) = None.
Proof.
  intros [H1 H2 H3 H4] Hc. specialize (H4 _ _ Hc) as Hp. destruct (H3 _ _ Hp) as [Hn _]. split; [|done]. split; cbn; [done|done| |].
  - intros id c'. rewrite mget_mdel. case_decide as Hid; [done|]. intros [Hn' (cr' & Hcr & Hi)]%H3. split; [done|]. exists cr'. split; [|done].
    rewrite list_lookup_insert_ne; [done|]. intros <-. rewrite Hc in Hcr. injection Hcr as ->. by apply Hid.
  - intros c' cr' Hc'. destruct (decide (c = c')) as [<-|Hne].
    + apply list_lookup_insert_Some in Hc' as [(_ & ? & _)|[? _]]; done.
    + rewrite list_lookup_insert_ne in Hc' by done. specialize (H4 _ _ Hc'). rewrite mget_mdel_ne; [done|]. intros Hid. rewrite Hid in H4. congruence.
Qed.

Lemma created_inv c ok s : service_inv s → service_inv (created room_id c ok s).
Proof.
  intros [Hr Hl]. unfold created. destruct (ms_creations s !! c) as [[cr|]|] eqn:Hc; [|by split..]. cbv zeta.
  destruct (created_registry c cr s Hr Hc) as [Hr1 Hn]. set (s1 := set_registry _ _ _ s) in *. set (id := room_id (cr_room cr)) in *.
  assert (listen_inv s1) as Hl1 by by apply (listen_core s).
  assert (mget id (ms_routers s1) = None) as Hn1 by exact Hn.
  assert (mget id (ms_pending s1) = None) as Hp1 by apply mget_mdel_eq. clearbody s1. clear Hn.
  destruct ok; cbn [negb]; [|by split; [destruct Hr1; split|apply (listen_core s1)]].
  assert (∀ id' i, mget id' (ms_routers s1) = Some i → (i < length (ms_heap s1))%nat) as Hlt.
  { intros id' i Hi. destruct (rg_made _ Hr1 _ _ Hi) as [r Hri]. by eapply lookup_lt_Some. }
  destruct (cr_closedDuringInit cr).
  - split; [|by apply (listen_core s1)]. destruct Hr1 as [H1 H2 H3 H4]. split; try done.
    + intros j id' r [Hj|[Hj Hx]]%lookup_app_Some; [by apply H1|]. apply list_lookup_singleton_Some in Hx as [Hj0 [= <- <-]].
      rewrite closed_close. split; [done|]. intros Hj'. pose proof (Hlt _ _ Hj'). lia.
    + intros id' j [r Hj]%H2. exists r. by apply lookup_app_l_Some.
  - destruct Hr1 as [H1 H2 H3 H4], Hl1 as [L1 L2 L3 L4]. split; split; cbn [put set_listening set_registry set_heap ms_heap ms_routers ms_pending ms_creations ms_listening ms_detachers].
    + intros j id' r [Hj|[Hj Hx]]%lookup_app_Some.
      * rewrite (H1 _ _ _ Hj), mget_mset. case_decide as Hid; [|done]. subst id'. rewrite Hn1.
        apply lookup_lt_Some in Hj. split; [done|]. intros [= <-]. by destruct (Nat.lt_irrefl _ Hj).
      * apply list_lookup_singleton_Some in Hx as [Hj0 [= <- <-]]. rewrite mget_mset_eq. cbn. split; [|done]. intros _. f_equal. lia.
    + intros id' j. rewrite mget_mset. case_decide as Hid.
      * intros [= <-]. subst id'. exists newRouter. rewrite lookup_app_r, Nat.sub_diag by lia. done.
      * intros [r Hj]%H2. exists r. by apply lookup_app_l_Some.
    + intros id' c' Hp. destruct (H3 _ _ Hp) as [Hn' Hcr]. split; [|done]. rewrite mget_mset_ne; [done|]. intros ->. congruence.
    + done.
    + intros id' j. rewrite !mget_mset. case_decide; [done|apply L1].
    + intros room' j [Hin|[= -> ->]%list_elem_of_singleton]%elem_of_app; [|by rewrite mget_mset_eq].
      specialize (L2 _ _ Hin). rewrite mget_mset_ne; [done|]. intros Hid. fold id in Hid. rewrite Hid in L2. congruence.
    + intros id' j. rewrite mget_mset. case_decide as Hid; [intros [= <-]; exists (cr_room cr); set_solver|].
      intros [room' Hin]%L3. exists room'. set_solver.
    + rewrite fmap_app. apply NoDup_snoc; [done|]. intros ([room' j] & Hj & Hin)%list_elem_of_fmap. cbn in Hj. subst j.
      specialize (Hlt _ _ (L2 _ _ Hin)). lia.
Qed.

Lemma fold_inv {A} (P : MediaService → Prop) (f : MediaService → A → MediaService) l s : (∀ s a, P s → P (f s a)) → P s → P (fold_left f l s).
Proof. intros Hf. revert s. induction l as [|a l IH]; intros s Hs; [done|]. cbn. by apply IH, Hf. Qed.

(** Closing everything. *)
Definition unheard (ks : list jsstr) s : Prop :=
  (∀ id, is_Some (mget id (ms_detachers s)) → id ∈ ks)
  ∧ ∀ room i, (room, i) ∈ ms_listening s → mget (room_id room) (ms_detachers s) = Some i.
Lemma detach_unheard id ks s : unheard (id :: ks) s → unheard ks (_detach id s).
Proof.
  intros [U1 U2]. unfold _detach. destruct (mget id (ms_detachers s)) as [i|] eqn:E; cbn.
  - split; cbn.
    + intros id' Hid'. rewrite mget_mdel in Hid'. case_decide as Hne; [by destruct Hid'|]. by apply U1 in Hid' as [?|]%elem_of_cons.
    + intros room j [Hne Hin]%list_elem_of_filter. cbn in Hne. specialize (U2 _ _ Hin). rewrite mget_mdel_ne; [done|]. intros Hid. congruence.
  - split; [|done]. intros id' Hid'. pose proof (U1 _ Hid') as [->|?]%elem_of_cons; [|done]. rewrite E in Hid'. by destruct Hid'.
Qed.
Lemma detach_all ks s : unheard ks s → unheard [] (fold_left (λ s id, _detach id s) ks s).
Proof. revert s. induction ks as [|id ks IH]; intros s Hs; [done|]. cbn. by apply IH, detach_unheard. Qed.
Lemma unheard_router i f s : unheard [] s → unheard [] (on_router i f s).
Proof.
  intros [U1 U2].
  assert (∀ id, mget id (ms_detachers s) = None) as Hn.
  { intros id. destruct (mget id (ms_detachers s)) eqn:E; [|done]. exfalso. eapply elem_of_nil, (U1 id). by rewrite E. }
  unfold on_router. cbv zeta. fold (moved i f s). case_match; [|by split]. unfold on_router_closed.
  destruct (ms_heap (moved i f s) !! i) as [[id r]|]; [|by split]. case_decide; [|by split].
  unfold _detach. change (ms_detachers (moved i f s)) with (ms_detachers s). rewrite Hn. by split.
Qed.

Lemma close_forgets i refs s :
  registry_inv s → (∀ id j, mget id (ms_routers s) = Some j → j ∈ i :: refs) →
  ∀ id j, mget id (ms_routers (on_router i close_router s)) = Some j → j ∈ refs.
Proof.
  intros Hs Hall id j. destruct (on_router_cases i close_router s) as [[-> Hsame]|(id' & r & Hr & Ho & _ & ->)]; [intros ??; apply closed_close| |].
  - cbn. intros Hj. pose proof (Hall _ _ Hj) as [->|?]%elem_of_cons; [|done]. destruct (rg_made _ Hs _ _ Hj) as [r Hr].
    specialize (Hsame _ _ Hr). rewrite closed_close in Hsame. pose proof (proj2 (rg_open _ Hs _ _ _ Hr) Hj). congruence.
  - pose proof (proj1 (rg_open _ Hs _ _ _ Hr) Ho) as Hreg. rewrite (closed_forgets i _ id' (close_router r)); [|by rewrite moved_lookup, decide_True, Hr|done].
    cbn. pose proof (detach_same id' (moved i close_router s)) as [= _ E _ _ _]. rewrite E, mget_mdel. case_decide as Hid; [done|].
    cbn. intros Hj. pose proof (Hall _ _ Hj) as [->|?]%elem_of_cons; [|done]. destruct Hid. by eapply (registry_unique s).
Qed.

Lemma closeAll_inv s : service_inv s → service_inv (closeAll s).
Proof.
  intros [Hr [L1 L2 L3 L4]]. unfold closeAll. cbv zeta. set (s1 := fold_left _ (mkeys (ms_detachers s)) s).
  assert (registry_inv s1) as Hr1 by (apply fold_inv; [intros; by apply detach_registry|done]).
  assert (unheard [] s1) as Hu1.
  { apply detach_all. split; [intros id Hid; by apply mget_is_Some_keys|]. intros room i Hin. apply L1. by apply L2. }
  set (s2 := fold_left _ (mvals (ms_routers s1)) s1).
  assert (∀ refs s, registry_inv s → unheard [] s → (∀ id j, mget id (ms_routers s) = Some j → j ∈ refs) →
    let s' := fold_left (λ s i, on_router i close_router s) refs s in
    registry_inv s' ∧ unheard [] s' ∧ ∀ id, mget id (ms_routers s') = None) as Hfold.
  { intros refs. induction refs as [|i refs IH]; intros s' Hs' Hu' Hall; cbn [fold_left].
    - split; [done|]. split; [done|]. intros id. destruct (mget id (ms_routers s')) eqn:E; [|done]. by apply Hall, elem_of_nil in E.
    - apply IH; [|by apply unheard_router|by apply close_forgets]. apply on_router_registry; [|done]. intros r _. apply closed_close. }
  destruct (Hfold (mvals (ms_routers s1)) s1 Hr1 Hu1) as (Hr2 & [U1 U2] & Hn).
  { intros id j Hj%mget_elem. apply list_elem_of_fmap. by exists (id, j). }
  fold s2 in Hr2, U1, U2, Hn. assert (∀ id, mget id (ms_detachers s2) = None) as Hd.
  { intros id. destruct (mget id (ms_detachers s2)) eqn:E; [|done]. exfalso; eapply elem_of_nil, (U1 id); eauto. }
  assert (ms_listening s2 = []) as Hls.
  { destruct (ms_listening s2) as [|[room i] l] eqn:E; [done|]. specialize (U2 room i ltac:(by left)). by rewrite Hd in U2. }
  destruct Hr2 as [H1 H2 H3 H4]. split; split; cbn [set_started set_registry ms_heap ms_routers ms_pending ms_creations ms_detachers ms_listening].
  - intros i id r Hi. rewrite (H1 _ _ _ Hi), Hn. done.
  - done.
  - intros id c [_ ?]%H3. by split.
  - done.
  - intros id i. by rewrite Hd.
  - rewrite Hls. intros room i Hin. by apply elem_of_nil in Hin.
  - done.
  - rewrite Hls. constructor.
Qed.

Lemma service_act_inv a s : service_inv s → service_inv (service_act a s).
Proof.
  intros Hs. destruct a as [|room|c ok|room|room p|i a|p from to|n outcome|]; cbn [MediaService.service_act].
  - destruct Hs as [[] []]. by split; split.
  - by apply attach_inv.
  - by apply created_inv.
  - by apply room_closed_inv.
  - unfold peer_left. apply fold_inv; [|done]. intros s' i Hs'. apply on_router_inv; [|done]. intros r Hr. by rewrite closed_leave.
  - apply on_router_inv; [|done]. apply shuts_act.
  - destruct Hs as [[] []]. unfold pipeProducerToRoom. repeat case_match; by split; split.
  - unfold piped. destruct (ms_pipes s !! n) as [[[p i] j]|]; [|done]. cbv zeta. set (s1 := set_heap _ _ s).
    assert (service_inv s1) as Hs1 by (destruct Hs as [[] []]; by split; split).
    repeat case_match; try done. apply on_router_inv; [|done]. intros r Hr. rewrite closed_api; [done|].
    intros r'. unfold acceptPipedProducer, if_open, _registerProducer. same_closed.
  - by apply closeAll_inv.
Qed.

Lemma service_new : service_inv newService.
Proof. split; split; try done; [intros room i Hin; by apply elem_of_nil in Hin|constructor]. Qed.
Lemma service_reached l : service_inv (service_run l newService).
Proof.
  assert (∀ l s, service_inv s → service_inv (service_run l s)) as Hl; [|apply Hl, service_new].
  clear l. intros l. induction l as [|a l IH]; intros s Hs; [done|]. cbn. by apply IH, service_act_inv.
Qed.

End service.

(** A router that is created while everything closes is registered with the closed
    service. *)
Example created_after_close :
  let s := service_run (λ _ _, true) false (λ _, js "r") [SInit; SAttach 0; SCloseAll; SCreated 0 true] newService in
  ms_started s = false ∧ ms_routers s = [(js "r", 0%nat)].
Proof. by vm_compute. Qed.
(** A room that was opened again under the id of one that closed while its router was
    being created is refused the router. *)
Example reopened_room_refused :
  ms_out (service_run (λ _ _, true) false (λ _, js "r") [SInit; SAttach 0; SRoomClosed 0; SAttach 1; SCreated 0 true] newService)
  = [AttachThrew 0].
Proof. by vm_compute. Qed.
